(* ===== verification/_CoqProject ===== *)
-Q . S2P
Prelude.v
RustStr.v
RustOs.v
Json.v
FileSystem.v
InstallerPlan.v
StorageModel.v
Partitions.v
FreeRegions.v
InstallerGuard.v
InstallerDisk.v
InstallerRuntime.v
InstallerJob.v
JobRegistry.v
DurableJournal.v
InstallerTransaction.v
Configuration.v
Probes.v
ManualMounts.v
PartitionEdits.v
PartitionCommit.v
Stream.v
Orchestration.v
ExecutionPlan.v
PhaseExecutor.v
ExecutorSafety.v
Accounts.v
Assurance.v
AtomicIo.v
BootHealth.v
UpdateCoordinator.v
BootcQuery.v
BootHealthCommand.v
SafeUpgrade.v
Guardian.v
DaemonHttp.v
DaemonJournal.v
Daemon.v
DaemonThreads.v
RustRegex.v
Redact.v
Privileged.v
ReleaseFetch.v
UpdateManifest.v
Updaters.v
Scheduler.v
SetupTransfer.v
