(* ===== verification/Prelude.v ===== *)
(** * A verification of the KythOS installer backend and its update safety

    KythOS is installed by a Rust backend ([src/kyth-installer-web/src-tauri/src]
    of the repository): a privileged daemon that receives typed requests from the
    web frontend, validates them against fresh probes of the machine, and runs
    the installation as one supervised job.  This library models the parts of it
    that decide what is written where, and proves what makes them safe to run as
    root on somebody's disk.

    ** The program and the files

    A request becomes a plan ([installer_plan.rs], InstallerPlan.v).  The machine
    is known through lsblk and findmnt snapshots ([installer_storage.rs]): the
    disk inventory, ancestry and identity are in StorageModel.v, partition
    records, fresh probes, the gates before a partition is replaced or formatted
    and the preflight in Partitions.v, unallocated space in FreeRegions.v.
    Before a disk is touched it is leased and validated once more
    ([installer_guard.rs], InstallerGuard.v); each disk operation is turned into
    one fixed command line ([installer_disk.rs], InstallerDisk.v).  Edits of the
    partition table that the user queues are validated by replay and committed
    with a backup and a rollback ([installer_journal.rs]: PartitionEdits.v the
    edits and their validation, PartitionCommit.v the operations and the commit).

    A start request of the frontend is decoded into the storage plan, the bootc
    command line, the account and the Secure Boot plan ([installer_bootc.rs],
    [installer_executor.rs], [installer_secure_boot.rs], the validation of
    [installer_accounts.rs] and the first part of [installer_job_executor.rs]:
    ExecutionPlan.v); what the helper then does to the group, passwd and shadow
    databases of the installed system is in Accounts.v.  The six phases of an installation are run by
    [installer_job_executor.rs] (PhaseExecutor.v, its theorems in
    ExecutorSafety.v), which calls the root-only helper through the supervised
    progress stream of [installer_stream.rs] (Stream.v) and checks power with
    [installer_orchestration.rs], whose transition contract is there too
    (Orchestration.v).

    All of this is reached through the daemon ([installer_daemon.rs]): reading a
    request, its headers, token and query are in DaemonHttp.v, the partition
    routes and the probes they make at commit time in DaemonJournal.v, [handle]
    with every route in Daemon.v, and what its threads do to each other in
    DaemonThreads.v.

    The job itself is supervised by [installer_job.rs] (InstallerJob.v), held by
    the daemon's registry ([installer_daemon.rs], JobRegistry.v), and reported to
    the frontend through the coordinator of [installer_runtime.rs]
    (InstallerRuntime.v).  What must survive a power loss is kept in the
    crash-recovery journal ([installer_durable_journal.rs], DurableJournal.v);
    the transaction marker, with the guidance Rescue mode derives from it, is
    kept on a tmpfs ([installer_transaction.rs], [installer_recovery.rs],
    InstallerTransaction.v).

    The installed system is configured by [installer_configuration.rs]
    (Configuration.v): host name, locale, time zone, boot ordering and the fstab;
    the result is checked by [installer_assurance.rs] (Assurance.v).
    The user's own partitions are mounted and listed by [installer_manual.rs] and
    [installer_alongside.rs] (ManualMounts.v), with the probes and the mount
    registry of [installer_probe.rs], [installer_mount.rs] and the bounded child
    process of [installer_stream.rs] that runs a probe (Probes.v).

    The installed system is kept bootable by the shared crate
    ([src/kyth-shared-rs/src]).  Failing boots are counted per image digest and
    lead to a quarantine and one rollback ([system/boot_health.rs],
    BootHealth.v); the state is changed by locked transactions on an atomically
    replaced file ([system/update_coordinator.rs] and [atomic_io.rs],
    UpdateCoordinator.v and AtomicIo.v); the [kyth-boot-health] command drives
    both ([boot_health_bin.rs], BootHealthCommand.v) and reads bootc's status
    ([system/bootc_query.rs], BootcQuery.v).  An update is fetched, judged,
    recorded and finalized by [kyth-safe-upgrade] ([safe_upgrade_bin.rs],
    [system/safe_upgrade_policy.rs], [system/boot_finalize.rs] and the lock of
    [system/bootc_guard.rs], SafeUpgrade.v).  The Guardian of the desktop repairs
    what fails at run time ([guardian.rs], [guardian_bin.rs], Guardian.v).

    Two launchers replace third-party programs while the system runs, rclone and
    GE-Proton ([rclone_update_bin.rs], [proton_cachyos_update_bin.rs],
    Updaters.v): they download, check and unpack releases with
    [system/release_fetch.rs] (ReleaseFetch.v) behind the manifest that KythOS
    signs ([system/update_manifest.rs], UpdateManifest.v).  What the desktop does
    as root goes through the privileged service ([privileged.rs], Privileged.v),
    whose output is redacted by [system/process.rs] (Redact.v).  The scheduler
    daemon switches between a desktop and a gaming profile
    ([system/scheduler_arbiter.rs], [system/gaming_activity.rs],
    [system/sched_daemon.rs], [sched_bin.rs], Scheduler.v).  A user's setup moves
    between machines as an archive ([setup_transfer.rs], SetupTransfer.v), over
    the same machine as the updaters.

    Shared foundations: Prelude.v (results, machine integers, list functions,
    tactics and hints), RustStr.v (the string functions of the Rust standard
    library on UTF-8 bytes), RustOs.v (processes and paths), Json.v (documents
    and the codec interface), FileSystem.v (a file system with crashes) and
    RustRegex.v (regular expressions, matched by derivatives).

    ** How the code is represented

    A fallible function returns [result], with the message of the source; early
    returns are [guard!] and [check!], the question mark is [let?].  u64 values
    are in Z, with every saturating, checked or wrapping operation written out.
    Strings are byte strings.  Methods behind a mutex are functions from the old
    state to the new one; the job supervisor, whose threads interleave between
    critical sections, is a configuration of threads and one atomic action of any
    of them ([act]), so that reachability covers all interleavings.  File
    protocols return every state they pass through, and every system call may
    fail as a fault record says, so a theorem can quantify over all failures and
    over a crash at every moment.  Commands that change the system are issued to
    an arbitrary shell and logged; the theorems about them are over the log.
    The partition commit and the phase executor are computations of a state and
    error monad ([ST], with [do!]): the state is what the code keeps behind its
    mutexes together with the log of everything done to the machine, and the
    machine answers each request by an arbitrary function of that log
    ([EditOs], [ExecOs]), so the theorems hold for every machine and its every
    reaction.  A request reaches the daemon as the list of reads of its
    connection, [handle] is one function of the daemon's state, and the threads
    that serve requests interleave as the steps of [thread_step].  A supervised command is the list of turns of its loop, with what
    each turn reads from the pipe, the clock and the child.

    The update programs are written over [StateStore], the promise of the
    coordinator to its clients; its file implementation and one in memory are
    instances, and the clients' theorems are proved from the class.  A program
    over a store returns its outcome, the store and its events ([Log], [run!]);
    [obeys] is its triple of precondition, invariant and postcondition.  The
    updaters run against a machine that answers every command, file operation and
    look at the file system by an arbitrary function of the log ([UpdaterOs]);
    [emits], [gated] and [follows] say what a program may add to it, and where.

    ** Parameters and what is assumed of them

    Decoding of lsblk and findmnt output ([LsblkDecoder], [FindmntDecoder]): no
    assumption, except in FreeRegions.v and where a statement says so, that u64
    fields decode to u64 values ([LsblkDecoderLaws]).  The serde codecs
    ([JsonCodec], [TransactionCodec], [JsonPretty]): a printed value is read back
    ([JsonCodecLaws], [TransactionCodecLaws], [JsonPrettyLaws]); Json.v,
    InstallerTransaction.v and UpdateCoordinator.v give instances.  TOML
    ([Toml]): none.  Commands ([Runner], [DiskProbes], [Children], [Shell],
    [Bounded], [DaemonOs], [UpdaterOs], [PrivOs], [SchedOs], [SetupOs]) and what else a
    request of the daemon reads ([HandleOs]): none, except in SetupTransfer.v, that
    the entries of a directory are plain names.  OpenPGP, SHA-2 and the reading of a manifest
    ([Pgp], [Sha], [ManifestCodec]), TOML as JSON and floats as text ([TomlJson],
    [ParseF64]): none.  File system: synced contents survive, and a crash
    leaves of each name the live or the durable version; directories survive.
    Renaming is atomic, except where a statement is about [torn_read]: an EFI
    system partition may leave anything of a name that is not yet synced.
    Containment of paths is lexical: what a tool writes, and where a link leads
    that it left behind, is not modelled.
    Mutexes are not poisoned and the executor's callbacks return or panic.

    ** What the theorems show

    - Target safety: a disk that passes the guard is a writable disk of the fresh
      inventory that backs no device mounted by its plain path at a protected
      place, and has the confirmed serial number, model and size; a
      lease excludes every alias of the device; replace and format gates accept
      only unmounted, unstacked, writable partitions of the planned disk without
      foreign data; offered free space touches no sector-aligned partition and no
      partition table, and all free space is found; the identity of a partition is confirmed before it is deleted,
      resized or flagged.
    - Closed command lines: whatever a request says, only fifteen fixed programs
      run, with arguments free of shell metacharacters.
    - The job: every interleaving refines a one-job automaton; a cancelled job is
      never reported done; done means six phases in order; replays are exact; the
      slot is always released.
    - The phase executor: no destructive request is made before its gates, a
      failed change of the table is undone from the backup just made, no mount
      outlives the job, the source bootc installs is the one that was verified,
      and storage plan and bootc command line agree.
    - The daemon: nothing but cached probes changes without the session token, the
      expected peer and a listed route, and then only what the route is for; an
      installation needs its agreements; partition changes never run beside an
      installation, whatever the interleaving; a staged journal is well formed, a
      shrink is committed on the daemon's own evidence only, and an answer that
      calls a failure reversible means the table was restored; requests and event
      streams do not depend on how their bytes and turns fall.
    - Partition edits: an accepted journal leads from disjoint partitions to a
      disjoint planned layout with one root; a commit runs nothing before its backups, and a failure it calls
      reversible restored the table and formatted no existing partition.
    - Progress streams: lines of up to 64 KiB do not depend on how the bytes arrive, every
      buffer is bounded, and a silent or late command is given up.
    - Durability: journal, configuration files and time-zone
      link are replaced atomically under every failure and crash, and durable
      once reported; on a file system without atomic renames the journal is at risk
      only between the rename and the sync of its directory, and one that does not
      load is never overwritten by a record; a reader of the transaction marker
      finds a complete one; journal history is only extended, also when merged.
    - Configuration and mounts: fstab lines are validated and added one per line;
      a failed mount run takes its mounts back; a successful one is complete.
    - Accounts: the group overlay is complete and changes no local record; only
      the hash of the user's own shadow records changes, atomically and with the
      labels of the file; a foreign account of the same name is left alone, and
      the login manager takes over last.
    - Assurance: a passed assurance means the installed system is the requested
      one, and what the configure phase wrote passes it, also after a crash.
    - Plans: exactly the well-formed requests are accepted, with exact sizes.
    - Boot health: when the reports of a boot come one after the other, a digest
      is quarantined exactly when its distinct unforgiven failing boots reach the
      threshold; every transition
      keeps the stored invariants; a successful rollback is not repeated, and a
      new quarantine is rolled back; transactions survive crashes and concurrent
      coordinators lose no update as long as their reads succeed.
    - Updates: nothing is finalized before every gate has passed, the configured
      ring among them, and the staged digest is recorded; the child of the update always ends; versions of
      numbers are ordered.
    - The updaters: nothing is unpacked, copied, written or moved into place before
      the archive is the one that a manifest signed under an anchored key approves
      and that its release names; a live binary is replaced, and an installation
      marked complete, only by what that archive held; unpacking names no path
      outside its destination.
    - The privileged service: a peer that may use it starts one of eight fixed
      command lines; secrets of a request are in no answer and no record; redacting
      ends and leaves no sensitive field open.
    - The scheduler: performance mode changes exactly at the edges of the profile
      at which it is to follow it, a scheduler is on record only after a command
      for it succeeded, and is asked for at least once in seven polls until then; cores
      are pinned only under BORE.
    - Moving a setup: a restore writes only the allowed settings below the home
      directory and runs only listed commands, whatever the archive says; what
      [safe_extract] hands on holds no link and no special file; the manifest that an
      export writes holds what was collected, and a restore reads it back.
    - The Guardian: a repair runs only behind its gate and with fixed commands, a
      refused one changes nothing but the copy of a damaged state file,
      and a dismissed recommendation stays dismissed.
    - Behaviour that differs from its description is stated as a theorem or an
      example where it was found: [stale_cancel_accepted],
      [rollback_can_lose_fstab], [append_skips_other_mount],
      [partuuid_written_as_uuid], [merge_drops_destination_record],
      [missing_ops_load_empty], [empty_label_passed_on], [create_never_commits],
      [resize_probe_is_cached], [bios_boot_overlap_accepted],
      [accepted_root_not_btrfs], [lost_event_no_rollback], [highest_id_reused],
      [late_output_lost], [long_line_whole], [done_before_any_phase],
      [padded_mode_targets_disk], [guided_modes_never_succeed],
      [no_failed_step_reported], [image_complete_refused],
      [low_threshold_never_quarantines], [image_version_cycle],
      [automatic_never_repairs], [leak_check_sees_prefix],
      [occurrences_per_recipe], [detail_cut_panics],
      [committed_journal_runs_again], [commit_sent_twice],
      [cancel_waits_for_stream], [stale_scan_survives], [signed_escape],
      [bearer_survives], [cut_key_survives], [at_sign_check_idle],
      [failed_switch_waits_six_polls], [first_switch_repeated],
      [reload_keeps_gaming_mode], [pin_outside_cpu_rewritten],
      [dash_id_accepted], [subvolume_root_unprotected], [raid_member_unprotected],
      [new_table_over_used_partition], [failed_read_forgets],
      [cleanup_behind_link], [returning_boot_counts_again],
      [vanished_journal_reopened], [long_line_depends].

    ** Fuel and bounds

    [parent_loop] (StorageModel.v) gets one step per device of the snapshot and
    carries the set of visited devices; [parent_disk_correct] covers cycles.
    [trim] and [split_whitespace] get the length of the string: every whitespace
    character is at least one byte.  [poll_fuel] (Probes.v) is one iteration per
    50 ms of the timeout plus two, enough because every iteration sleeps that
    long ([run_output_terminates]); the wait for mokutil is the same with 25 ms,
    and [wait_for_child] of the daemon the same with 50 ms
    ([wait_for_child_decided]).  A request is read under a deadline
    ([read_request_ends]).  [redact_loop] (Redact.v) gets one round more than the
    line has bytes ([redaction_complete]), its [scan] as many; an operation of the
    privileged service is decided by its timeout ([operation_decided]).
    [remove_parents] (ReleaseFetch.v) gets the depth of its path, which every turn
    shortens, and [split_str] (UpdateManifest.v) the length of the text, as does
    [replace_pins] (Scheduler.v).
    The sweep of an unpacked archive gets two turns more than its limit on entries
    ([extracted_plain]: it always ends); [copy_dir_recursive] gets the same number
    as its depth, and a payload that passed the sweep is not deeper.
    The line loop of a stream (Stream.v) gets one step more than the pending
    bytes, since every line it takes is shorter than what was pending, and its
    decoder one per byte.  Walks through JSON documents ([nodes] of
    PartitionCommit.v, [has_crypt] of PhaseExecutor.v) get the size of the
    document.  [slot_released] counts at most 29 actions of
    a job's own thread.

    ** Not modelled

    Of the phase executor, the files it stages for the first boot
    ([install_selected_flatpaks]).  [installer_acceptance.rs] holds tests only.
    Of the Guardian, the collection of symptoms, the parser for the local model
    and the file protocol of its document.  Of the update programs, the progress text parsed
    from bootc is left out.  Of the shared crate, the many small commands that apply
    one desktop setting each, the checks and reports, and the hub application on
    top of them are not modelled; of the scheduler, the writing of its flag and
    configuration files and the sleep between polls; of the setup transfer, the
    supervision of a streamed command and its command line.  Setting up the daemon's socket, failing writes to a
    client, windows, log export and read-only inventory pages are input and
    output around this logic and are left out, as are permission bits. *)


From stdpp Require Export gmap strings list pretty sorting.
From Stdlib Require Export ZArith Lia Ascii.

Global Open Scope Z_scope.

(** * Rust results

    The Rust code reports every failure as [Result<T, String>].  The model
    keeps both the shape and the message. *)

Inductive result (A : Type) : Type :=
| Ok (a : A)
| Err (e : string).
Arguments Ok {A} a.
Arguments Err {A} e.

Definition rbind {A B} (c : result A) (k : A → result B) : result B :=
  match c with
  | Ok a => k a
  | Err e => Err e
  end.

(** [opt.unwrap_or(d)] *)
Definition unwrap_or {A} (o : option A) (d : A) : A :=
  match o with
  | Some a => a
  | None => d
  end.

(** [opt.ok_or_else(|| msg)] *)
Definition ok_or {A} (o : option A) (msg : string) : result A :=
  match o with
  | Some a => Ok a
  | None => Err msg
  end.

(** [res.map_err(f)] *)
Definition map_err {A} (f : string → string) (c : result A) : result A :=
  match c with
  | Ok a => Ok a
  | Err e => Err (f e)
  end.

Definition rmap {A B} (f : A → B) (c : result A) : result B :=
  rbind c (λ a, Ok (f a)).

(** [res.is_ok()] *)
Definition is_ok {A} (c : result A) : bool :=
  match c with
  | Ok _ => true
  | Err _ => false
  end.

Declare Scope kyth_scope.
Delimit Scope kyth_scope with kyth.
Global Open Scope kyth_scope.

Notation "'let?' x ':=' c 'in' k" := (rbind c (λ x, k))
  (at level 10, x pattern, c at level 100, k at level 200,
   format "'[v' 'let?'  x  ':='  c  'in' '/' k ']'") : kyth_scope.

(** Sequencing a check: [check()?; rest]. *)
Notation "'check!' c ';' k" := (rbind c (λ _ : unit, k))
  (at level 10, c at level 100, k at level 200,
   format "'[v' 'check!'  c ';' '/' k ']'") : kyth_scope.

(** An early return: [if b { return Err(msg) }; rest]. *)
Notation "'guard!' b 'else' msg ';' k" := (if b : bool then Err msg else k)
  (at level 10, b at level 100, msg at level 100, k at level 200,
   format "'[v' 'guard!'  b  'else'  msg ';' '/' k ']'") : kyth_scope.

Lemma rbind_Ok {A B} (c : result A) (k : A → result B) b :
  rbind c k = Ok b ↔ ∃ a, c = Ok a ∧ k a = Ok b.
Proof. destruct c; simpl; naive_solver. Qed.

Lemma ok_or_Ok {A} (o : option A) m a : ok_or o m = Ok a ↔ o = Some a.
Proof. destruct o; naive_solver. Qed.

Lemma map_err_Ok {A} f (c : result A) a : map_err f c = Ok a ↔ c = Ok a.
Proof. destruct c; naive_solver. Qed.

Lemma rmap_Ok {A B} (f : A → B) c b :
  rmap f c = Ok b ↔ ∃ a, c = Ok a ∧ f a = b.
Proof. unfold rmap. rewrite rbind_Ok. naive_solver. Qed.

Lemma is_ok_spec {A} (c : result A) : is_ok c = true ↔ ∃ a, c = Ok a.
Proof. destruct c; naive_solver. Qed.

(** Collecting fallible rows, [iter.map(f).collect::<Result<Vec<_>, _>>()]. *)
Fixpoint rmap_list {A B} (f : A → result B) (l : list A) : result (list B) :=
  match l with
  | [] => Ok []
  | a :: l => let? b := f a in let? bs := rmap_list f l in Ok (b :: bs)
  end.

Lemma rmap_list_Ok {A B} (f : A → result B) l bs :
  rmap_list f l = Ok bs ↔ Forall2 (λ a b, f a = Ok b) l bs.
Proof.
  revert bs. induction l as [|a l IH]; intros bs; simpl.
  - split; [intros [= <-]; constructor | intros H; by inversion H].
  - split.
    + rewrite rbind_Ok. intros (b & Hb & H).
      apply rbind_Ok in H as (bs' & Hbs & [= <-]).
      constructor; [done|]. by apply IH.
    + intros H. inversion H as [|? b ? bs' Hb Hr]; subst.
      rewrite Hb. simpl. apply IH in Hr. by rewrite Hr.
Qed.

(** * State passing with errors

    Code that changes a state and may fail: the state survives an error. *)

Definition ST (S A : Type) : Type := S → result A * S.
Definition m_ret {S A} (a : A) : ST S A := λ s, (Ok a, s).
Definition m_bind {S A B} (c : ST S A) (k : A → ST S B) : ST S B :=
  λ s, match c s with
       | (Ok a, s') => k a s'
       | (Err e, s') => (Err e, s')
       end.
Definition m_lift {S A} (r : result A) : ST S A := λ s, (r, s).

Notation "'do!' x '<-' c ';' k" := (m_bind c (λ x, k))
  (at level 200, x name, c at level 100, k at level 200).
Notation "'require!' c ';' k" := (m_bind (m_lift c) (λ _ : unit, k))
  (at level 200, c at level 100, k at level 200).

Lemma m_bind_inv {S A B} (c : ST S A) (k : A → ST S B) s o s' :
  m_bind c k s = (o, s') →
  (∃ a s1, c s = (Ok a, s1) ∧ k a s1 = (o, s')) ∨ (∃ e, c s = (Err e, s') ∧ o = Err e).
Proof. unfold m_bind. destruct (c s) as [[a|e] s1]; intros Hk; [left|right]; simplify_eq; eauto. Qed.

Lemma m_lift_inv {S A} (r : result A) (s : S) o s' : m_lift r s = (o, s') → r = o ∧ s' = s.
Proof. unfold m_lift. by intros [= <- <-]. Qed.

(** * Programs with events

    Code that changes a state, may fail and is judged by what it did: the
    outcome, the state afterwards, and the events in order. *)

Definition Log (S O E A : Type) : Type := S → (A + E) * S * list O.
Definition log_ret {S O E A} (a : A) : Log S O E A := λ s, (inl a, s, []).
Definition log_fail {S O E A} (e : E) : Log S O E A := λ s, (inr e, s, []).
Definition log_outs {S O E} (l : list O) : Log S O E unit := λ s, (inl tt, s, l).
Definition log_out {S O E} (o : O) : Log S O E unit := log_outs [o].
Definition log_bind {S O E A B} (c : Log S O E A) (k : A → Log S O E B) : Log S O E B := λ s,
  match c s with
  | (inl a, s1, l1) => let '(r, s2, l2) := k a s1 in (r, s2, l1 ++ l2)
  | (inr e, s1, l1) => (inr e, s1, l1)
  end.
Notation "'run!' x '<-' c ';' k" := (log_bind c (λ x, k)) (at level 200, x name, c at level 100, k at level 200).

Lemma log_bind_ret {S O E A B} (a : A) (k : A → Log S O E B) s : log_bind (log_ret a) k s = k a s.
Proof. unfold log_bind, log_ret. by destruct (k a s) as [[? ?] ?]. Qed.

Lemma log_bind_done {S O E A B} (c : Log S O E A) (k : A → Log S O E B) s b s2 l :
  log_bind c k s = (inl b, s2, l) →
  ∃ a s1 l1 l2, c s = (inl a, s1, l1) ∧ k a s1 = (inl b, s2, l2) ∧ l = l1 ++ l2.
Proof.
  unfold log_bind. destruct (c s) as [[[a|e] s1] l1]; [|done]. destruct (k a s1) as [[r s'] l2] eqn:Ek. intros [= -> <- <-].
  by eexists _, _, _, _.
Qed.

Lemma log_bind_cases {S O E A B} (c : Log S O E A) (k : A → Log S O E B) s r s2 l :
  log_bind c k s = (r, s2, l) →
  (∃ a s1 l1 l2, c s = (inl a, s1, l1) ∧ k a s1 = (r, s2, l2) ∧ l = l1 ++ l2) ∨ (∃ e, c s = (inr e, s2, l) ∧ r = inr e).
Proof.
  unfold log_bind. destruct (c s) as [[[a|e] s1] l1]; [|intros [= <- <- <-]; right; by eexists].
  destruct (k a s1) as [[r' s'] l2] eqn:Ek. intros [= -> <- <-]. left. by eexists _, _, _, _.
Qed.

(** * Tactics *)

(** Takes apart a hypothesis that a chain of [let?], [guard!] and [match]
    returned [Ok]. *)
Ltac res_step :=
  match goal with
  | H : rbind _ _ = Ok _ |- _ => apply rbind_Ok in H as (? & ? & H); cbn beta in H
  | H : ok_or _ _ = Ok _ |- _ => apply ok_or_Ok in H
  | H : map_err _ _ = Ok _ |- _ => apply map_err_Ok in H
  | H : rmap _ _ = Ok _ |- _ => apply rmap_Ok in H as (? & ? & H)
  | H : Err _ = Ok _ |- _ => discriminate H
  | H : Ok _ = Ok _ |- _ => injection H as H
  | H : (if ?b then _ else _) = Ok _ |- _ => destruct b eqn:?
  | H : match ?x with _ => _ end = Ok _ |- _ => destruct x eqn:?
  end.
Ltac res_inv := repeat (res_step; simplify_eq).

(** Passes one early return of [H], recording the refuted condition as [E]. *)
Tactic Notation "guard_inv" hyp(H) "as" ident(E) :=
  match type of H with
  | (if ?b then Err _ else _) = Ok _ => destruct b eqn:E; [discriminate H|]
  end.

(** Boolean hypotheses as propositions. *)
Ltac bool_inv :=
  repeat match goal with
  | H : (_ && _) = true |- _ => apply andb_true_iff in H as [? H]
  | H : (_ || _) = false |- _ => apply orb_false_iff in H as [? H]
  | H : negb _ = true |- _ => apply negb_true_iff in H
  | H : negb _ = false |- _ => apply negb_false_iff in H
  | H : (_ <? _) = true |- _ => apply Z.ltb_lt in H
  | H : (_ <? _) = false |- _ => apply Z.ltb_ge in H
  | H : (_ <=? _) = true |- _ => apply Z.leb_le in H
  | H : (_ <=? _) = false |- _ => apply Z.leb_gt in H
  | H : (_ =? _) = true |- _ => apply Z.eqb_eq in H
  | H : (_ =? _) = false |- _ => apply Z.eqb_neq in H
  | H : bool_decide _ = true |- _ => apply bool_decide_eq_true in H
  | H : bool_decide _ = false |- _ => apply bool_decide_eq_false in H
  end.

Create HintDb kyth.
Create Rewrite HintDb kyth_ok.
#[export] Hint Rewrite @rbind_Ok @ok_or_Ok @map_err_Ok @rmap_Ok : kyth_ok.

(** * Machine integers

    [u64] values are integers of [Z] in the range below; every operation that
    can leave the range says what the Rust operator does there. *)

Definition u64_max : Z := 2 ^ 64 - 1.
Definition is_u64 (x : Z) : Prop := 0 <= x <= u64_max.

(** Plain [+] and [*] in a release build. *)
Definition wrap64 (x : Z) : Z := x mod 2 ^ 64.
(** [a.saturating_add(b)], [saturating_sub], [saturating_mul]. *)
Definition sat_add64 (a b : Z) : Z := Z.min (a + b) u64_max.
Definition sat_sub64 (a b : Z) : Z := Z.max 0 (a - b).
Definition sat_mul64 (a b : Z) : Z := Z.min (a * b) u64_max.
(** [a.checked_add(b)] and [a.checked_mul(b)]. *)
Definition checked_add64 (a b : Z) : option Z :=
  if a + b <=? u64_max then Some (a + b) else None.
Definition checked_sub64 (a b : Z) : option Z := if b <=? a then Some (a - b) else None.
Definition checked_mul64 (a b : Z) : option Z :=
  if a * b <=? u64_max then Some (a * b) else None.
(** [a.abs_diff(b)] *)
Definition abs_diff (a b : Z) : Z := Z.abs (a - b).
(** [a.div_ceil(b)] *)
Definition div_ceil (a b : Z) : Z :=
  if 0 <? a mod b then a / b + 1 else a / b.
(** [a.is_power_of_two()] *)
Definition is_power_of_two (a : Z) : bool :=
  (0 <? a) && (Z.land a (a - 1) =? 0).

Lemma wrap64_small x : is_u64 x → wrap64 x = x.
Proof. unfold is_u64, u64_max, wrap64. intros. apply Z.mod_small. lia. Qed.

Lemma wrap64_range x : is_u64 (wrap64 x).
Proof.
  unfold is_u64, u64_max, wrap64. pose proof (Z.mod_pos_bound x (2 ^ 64)). lia.
Qed.

Lemma checked_add64_Some a b c :
  checked_add64 a b = Some c ↔ c = a + b ∧ a + b <= u64_max.
Proof. unfold checked_add64. case_match; bool_inv; naive_solver lia. Qed.

Lemma checked_mul64_Some a b c :
  checked_mul64 a b = Some c ↔ c = a * b ∧ a * b <= u64_max.
Proof. unfold checked_mul64. case_match; bool_inv; naive_solver lia. Qed.

(** [i64] values: [a.saturating_add(b)] and [saturating_sub], and the [as]
    casts between the two widths. *)
Definition i64_min : Z := - 2 ^ 63.
Definition i64_max : Z := 2 ^ 63 - 1.
Definition clamp_i64 (x : Z) : Z := Z.max i64_min (Z.min x i64_max).
Definition sat_add_i64 (a b : Z) : Z := clamp_i64 (a + b).
Definition sat_sub_i64 (a b : Z) : Z := clamp_i64 (a - b).
Definition u64_as_i64 (x : Z) : Z := if x <=? i64_max then x else x - 2 ^ 64.
Definition i64_as_u64 (x : Z) : Z := x mod 2 ^ 64.

(** The alignment unit of the partition tables. *)
Definition MiB : Z := 2 ^ 20.

(** Rounding down and up to a multiple, the two alignments of the installer. *)
Lemma align_down_spec x m :
  0 < m → (m | x / m * m) ∧ x / m * m <= x < x / m * m + m.
Proof.
  intros Hm. pose proof (Z.div_mod x m ltac:(lia)).
  pose proof (Z.mod_pos_bound x m Hm). split; [by exists (x / m)|lia].
Qed.

Lemma align_up_spec x m :
  0 < m → (m | div_ceil x m * m) ∧ x <= div_ceil x m * m < x + m.
Proof.
  intros Hm. unfold div_ceil. pose proof (Z.div_mod x m ltac:(lia)).
  pose proof (Z.mod_pos_bound x m Hm).
  destruct (Z.ltb_spec 0 (x mod m)); (split; [by eexists|lia]).
Qed.

(** A multiple of [m] below (above) [x] is below (above) the aligned [x]. *)
Lemma align_down_greatest x m y : 0 < m → (m | y) → y <= x → y <= x / m * m.
Proof.
  intros Hm [k ->] Hle. apply Z.mul_le_mono_nonneg_r; [lia|].
  apply Z.div_le_lower_bound; lia.
Qed.

Lemma align_up_least x m y : 0 < m → (m | y) → x <= y → div_ceil x m * m <= y.
Proof.
  intros Hm [k ->] Hle. apply Z.mul_le_mono_nonneg_r; [lia|].
  destruct (align_up_spec x m Hm) as [_ Hb]. nia.
Qed.

(** * Lists *)

(** [iter.find(f)] and [iter.find_map(f)]. *)
Fixpoint find_first {A} (f : A → bool) (l : list A) : option A :=
  match l with
  | [] => None
  | a :: l => if f a then Some a else find_first f l
  end.

Fixpoint find_map {A B} (f : A → option B) (l : list A) : option B :=
  match l with
  | [] => None
  | a :: l => match f a with Some b => Some b | None => find_map f l end
  end.

(** [iter.filter(f)] and [iter.filter_map(f)]. *)
Fixpoint filterb {A} (f : A → bool) (l : list A) : list A :=
  match l with
  | [] => []
  | a :: l => if f a then a :: filterb f l else filterb f l
  end.

Fixpoint filter_map {A B} (f : A → option B) (l : list A) : list B :=
  match l with
  | [] => []
  | a :: l => match f a with Some b => b :: filter_map f l | None => filter_map f l end
  end.

(** [slice.contains(&x)] on strings. *)
Definition str_in (x : string) (l : list string) : bool :=
  existsb (String.eqb x) l.

Lemma find_first_Some {A} (f : A → bool) l a :
  find_first f l = Some a → a ∈ l ∧ f a = true.
Proof.
  induction l as [|b l IH]; simpl; [done|].
  case_match; intros; simplify_eq; set_solver.
Qed.

Lemma find_first_is_Some {A} (f : A → bool) l a :
  a ∈ l → f a = true → is_Some (find_first f l).
Proof.
  intros Ha Hf. induction Ha as [|b l Hin IH]; simpl.
  - rewrite Hf. eauto.
  - case_match; eauto.
Qed.

Lemma find_map_Some {A B} (f : A → option B) l b :
  find_map f l = Some b → ∃ a, a ∈ l ∧ f a = Some b.
Proof. induction l as [|a l IH]; simpl; [done|]. case_match; set_solver. Qed.

Lemma elem_of_filterb {A} (f : A → bool) l a :
  a ∈ filterb f l ↔ a ∈ l ∧ f a = true.
Proof.
  induction l as [|b l IH]; simpl; [set_solver|].
  destruct (f b) eqn:Hb; rewrite ?elem_of_cons, IH;
    intuition (subst; auto; congruence).
Qed.

Lemma filterb_filter {A} (f : A → bool) l : filterb f l = List.filter f l.
Proof. induction l; simpl; [done|]. by case_match; f_equal. Qed.

Lemma elem_of_filter_map {A B} (f : A → option B) l b :
  b ∈ filter_map f l ↔ ∃ a, a ∈ l ∧ f a = Some b.
Proof.
  induction l as [|a l IH]; simpl; [set_solver|].
  transitivity (f a = Some b ∨ b ∈ filter_map f l).
  - destruct (f a); rewrite ?elem_of_cons; intuition congruence.
  - rewrite IH. setoid_rewrite elem_of_cons. naive_solver.
Qed.

Lemma filter_map_app {A B} (f : A → option B) l k : filter_map f (l ++ k) = filter_map f l ++ filter_map f k.
Proof. induction l as [|x l IH]; cbn; [done|]. rewrite IH. by destruct (f x). Qed.

Lemma str_in_true x l : str_in x l = true ↔ x ∈ l.
Proof.
  unfold str_in. rewrite existsb_exists, list_elem_of_In.
  split; [intros (y & ? & ?%String.eqb_eq); by subst|].
  intros; exists x. by rewrite String.eqb_refl.
Qed.

Lemma str_in_false x l : str_in x l = false ↔ x ∉ l.
Proof. rewrite <-str_in_true. destruct (str_in x l); naive_solver. Qed.

Lemma existsb_elem_of {A} (f : A → bool) l :
  existsb f l = true ↔ ∃ a, a ∈ l ∧ f a = true.
Proof. rewrite existsb_exists. setoid_rewrite list_elem_of_In. done. Qed.

Lemma existsb_not_elem_of {A} (f : A → bool) l :
  existsb f l = false ↔ ∀ a, a ∈ l → f a = false.
Proof.
  rewrite <-not_true_iff_false, existsb_elem_of. split.
  - intros H a Ha. destruct (f a) eqn:?; naive_solver.
  - intros H (a & Ha & Hf). rewrite H in Hf; done.
Qed.

Lemma filter_map_NoDup_inj {A B} (f : A → option B) l a a' b :
  NoDup (filter_map f l) → a ∈ l → a' ∈ l → f a = Some b → f a' = Some b → a = a'.
Proof.
  induction l as [|x l IH]; cbn; [set_solver|]. intros Hnd.
  assert (NoDup (filter_map f l)) as Hnd'.
  { destruct (f x); [by inversion Hnd|done]. }
  rewrite !elem_of_cons. intros [->|Ha] [->|Ha'] Hf Hf'; [done| | |by apply IH].
  - rewrite Hf in Hnd. apply NoDup_cons in Hnd as [Hb _]. destruct Hb.
    apply elem_of_filter_map. eauto.
  - rewrite Hf' in Hnd. apply NoDup_cons in Hnd as [Hb _]. destruct Hb.
    apply elem_of_filter_map. eauto.
Qed.

(** An element that is not in the first part of a list lies behind it. *)
Lemma app_split {A} (a b pre post : list A) x :
  a ++ b = pre ++ x :: post → x ∉ a → ∃ c, pre = a ++ c.
Proof.
  revert pre. induction a as [|y a IH]; intros pre; cbn; [by exists pre|].
  destruct pre as [|z pre]; cbn; intros [= -> E] Hx; [set_solver|].
  destruct (IH _ E) as [c ->]; [set_solver|]. by exists c.
Qed.
