(* ===== verification/RustStr.v ===== *)
(** Rust strings.

    A Rust [String] is its UTF-8 bytes; the model uses the byte strings of the
    Standard Library.  This file holds the operations of [str], [u8] and [char]
    the modelled sources call ([trim], [strip_prefix], [contains],
    [to_ascii_lowercase], ...) and the lemmas the components share. *)

From S2P Require Import Prelude.

(** * Bytes *)

Definition byte_of (c : ascii) : Z := Z.of_N (N_of_ascii c).

Definition byte_in (lo hi : Z) (c : ascii) : bool :=
  (lo <=? byte_of c) && (byte_of c <=? hi).

Definition is_ascii_digit : ascii → bool := byte_in 48 57.
Definition is_ascii_lowercase : ascii → bool := byte_in 97 122.
Definition is_ascii_uppercase : ascii → bool := byte_in 65 90.
Definition is_ascii_alphanumeric (c : ascii) : bool :=
  is_ascii_digit c || is_ascii_lowercase c || is_ascii_uppercase c.
Definition is_ascii_hexdigit (c : ascii) : bool :=
  is_ascii_digit c || byte_in 97 102 c || byte_in 65 70 c.

(** [matches!(b, b'x' | b'y' | ...)]: membership in a literal set of bytes. *)
Fixpoint contains_char (c : ascii) (s : string) : bool :=
  match s with
  | EmptyString => false
  | String d s => Ascii.eqb c d || contains_char c s
  end.
Definition byte_among (set : string) (c : ascii) : bool := contains_char c set.

Definition lower_byte (c : ascii) : ascii :=
  if is_ascii_uppercase c then ascii_of_N (N_of_ascii c + 32) else c.

Lemma lower_byte_idemp c : lower_byte (lower_byte c) = lower_byte c.
Proof. by destruct c as [[] [] [] [] [] [] [] []]. Qed.

(** * Strings *)

Notation slen s := (Z.of_nat (String.length s)).

Definition is_empty (s : string) : bool :=
  match s with EmptyString => true | _ => false end.

(** [s.bytes().all(f)] and [s.bytes().any(f)] *)
Fixpoint str_all (f : ascii → bool) (s : string) : bool :=
  match s with
  | EmptyString => true
  | String c s => f c && str_all f s
  end.

Fixpoint strip_prefix (p s : string) : option string :=
  match p, s with
  | EmptyString, _ => Some s
  | String a p, String b s => if Ascii.eqb a b then strip_prefix p s else None
  | String _ _, EmptyString => None
  end.

Definition starts_with (p s : string) : bool :=
  match strip_prefix p s with Some _ => true | None => false end.

(** [s.contains(needle)] *)
Fixpoint contains_str (needle s : string) : bool :=
  starts_with needle s ||
  match s with
  | EmptyString => false
  | String _ s => contains_str needle s
  end.

Fixpoint to_ascii_lowercase (s : string) : string :=
  match s with
  | EmptyString => EmptyString
  | String c s => String (lower_byte c) (to_ascii_lowercase s)
  end.

Definition eq_ignore_ascii_case (a b : string) : bool :=
  String.eqb (to_ascii_lowercase a) (to_ascii_lowercase b).

Fixpoint srev_app (s acc : string) : string :=
  match s with
  | EmptyString => acc
  | String c s => srev_app s (String c acc)
  end.
Definition srev (s : string) : string := srev_app s EmptyString.

(** [s.split(c)] *)
Fixpoint split_char (sep : ascii) (s : string) : list string :=
  match s with
  | EmptyString => [EmptyString]
  | String c s =>
      if Ascii.eqb c sep then EmptyString :: split_char sep s
      else match split_char sep s with
           | [] => [String c EmptyString]
           | w :: ws => String c w :: ws
           end
  end.

(** [parts.join(sep)] *)
Fixpoint join (sep : string) (l : list string) : string :=
  match l with
  | [] => EmptyString
  | [s] => s
  | s :: l => s +:+ sep +:+ join sep l
  end.

(** [s.trim_end_matches(c)] *)
Fixpoint drop_leading (c : ascii) (s : string) : string :=
  match s with
  | EmptyString => EmptyString
  | String d s' => if Ascii.eqb c d then drop_leading c s' else s
  end.
Definition trim_end_matches (c : ascii) (s : string) : string :=
  srev (drop_leading c (srev s)).

(** ** Whitespace

    [str::trim] removes the characters of the Unicode property White_Space.
    [whitespace] lists their UTF-8 encodings: U+0009 to U+000D, U+0020,
    U+0085, U+00A0, U+1680, U+2000 to U+200A, U+2028, U+2029, U+202F, U+205F
    and U+3000.  UTF-8 is self-synchronising, so matching the encodings at
    either end of a valid string matches exactly the characters there. *)
Definition bytes (l : list N) : string :=
  foldr (λ n s, String (ascii_of_N n) s) EmptyString l.

Definition whitespace : list string :=
  bytes <$>
  ((λ n, [n]) <$> [9; 10; 11; 12; 13; 32]%N) ++
  [[194; 133]; [194; 160]; [225; 154; 128]]%N ++
  ((λ n, [226; 128; n]%N) <$>
     [128; 129; 130; 131; 132; 133; 134; 135; 136; 137; 138; 168; 169; 175]%N) ++
  [[226; 129; 159]; [227; 128; 128]]%N.

(** One character of [ps] off the front, then all of them; the string's length
    is enough fuel because every encoding is non-empty. *)
Definition strip_any (ps : list string) (s : string) : option string :=
  find_map (λ p, strip_prefix p s) ps.

Fixpoint strip_all (ps : list string) (fuel : nat) (s : string) : string :=
  match fuel with
  | O => s
  | S fuel =>
      match strip_any ps s with
      | Some r => strip_all ps fuel r
      | None => s
      end
  end.

Definition trim_start (s : string) : string :=
  strip_all whitespace (String.length s) s.
Definition trim_end (s : string) : string :=
  srev (strip_all (srev <$> whitespace) (String.length s) (srev s)).
Definition trim (s : string) : string := trim_end (trim_start s).

#[global] Arguments trim : simpl never.
#[global] Arguments trim_start : simpl never.
#[global] Arguments trim_end : simpl never.
#[global] Arguments eq_ignore_ascii_case : simpl never.

(** ** Numbers and formatting *)

(** [n.to_string()], [format!("{n}")] *)
Definition show_int (n : Z) : string := pretty n.

(** [s.parse::<u64>()]: an optional plus sign, at least one digit, and a value
    that fits. *)
Fixpoint parse_digits (acc : Z) (s : string) : option Z :=
  match s with
  | EmptyString => Some acc
  | String c s =>
      if is_ascii_digit c then parse_digits (acc * 10 + (byte_of c - 48)) s else None
  end.
Definition parse_u64 (s : string) : option Z :=
  let digits := match s with String "+" r => r | _ => s end in
  if is_empty digits then None
  else match parse_digits 0 digits with
       | Some v => if v <=? u64_max then Some v else None
       | None => None
       end.

(** [s.parse::<i64>()] *)
Definition parse_i64 (s : string) : option Z :=
  match s with
  | String "-" r =>
      if is_empty r then None
      else match parse_digits 0 r with
           | Some v => if v <=? 2 ^ 63 then Some (- v) else None
           | None => None
           end
  | _ =>
      match parse_u64 s with
      | Some v => if v <=? i64_max then Some v else None
      | None => None
      end
  end.

#[global] Arguments show_int : simpl never.
#[global] Arguments parse_i64 : simpl never.
#[global] Arguments parse_u64 : simpl never.

(** [char::is_control]: U+0000 to U+001F, U+007F and U+0080 to U+009F. *)
Fixpoint has_control (s : string) : bool :=
  match s with
  | EmptyString => false
  | String c r =>
      byte_in 0 31 c || (byte_of c =? 127) ||
      ((byte_of c =? 194) &&
       match r with String d _ => byte_in 128 159 d | EmptyString => false end) ||
      has_control r
  end.

(** The [Debug] form of a string, [format!("{s:?}")], for text without
    control characters: quotes and backslashes escaped, in quotes. *)
Definition quote : string := String "034"%char EmptyString.
Fixpoint escape_debug (s : string) : string :=
  match s with
  | EmptyString => EmptyString
  | String c s =>
      if (byte_of c =? 34) || (byte_of c =? 92) then String "092"%char (String c (escape_debug s))
      else String c (escape_debug s)
  end.
Definition show_debug (s : string) : string := quote +:+ escape_debug s +:+ quote.

(** * Lemmas *)

Lemma append_cons c a b : String c a +:+ b = String c (a +:+ b).
Proof. reflexivity. Qed.

Lemma append_nil_l b : EmptyString +:+ b = b.
Proof. reflexivity. Qed.

Lemma append_nil_r s : s +:+ EmptyString = s.
Proof. induction s as [|c s IH]; [done|]. by rewrite append_cons, IH. Qed.

Lemma append_assoc a b c : (a +:+ b) +:+ c = a +:+ (b +:+ c).
Proof. induction a as [|x a IH]; [done|]. by rewrite !append_cons, IH. Qed.

Lemma slen_append a b : String.length (a +:+ b) = (String.length a + String.length b)%nat.
Proof. induction a as [|x a IH]; [done|]. rewrite append_cons. cbn. by rewrite IH. Qed.

Lemma append_inj_l a b c : a +:+ b = a +:+ c → b = c.
Proof. induction a as [|x a IH]; [done|]. rewrite !append_cons. naive_solver. Qed.

Lemma is_empty_true s : is_empty s = true ↔ s = EmptyString.
Proof. by destruct s. Qed.

Lemma is_empty_false s : is_empty s = false ↔ s ≠ EmptyString.
Proof. by destruct s. Qed.

Lemma str_all_app f a b : str_all f (a +:+ b) = str_all f a && str_all f b.
Proof. induction a as [|x a IH]; [done|]. rewrite append_cons. cbn. by rewrite IH, andb_assoc. Qed.

Lemma str_all_impl f g s :
  (∀ c, f c = true → g c = true) → str_all f s = true → str_all g s = true.
Proof.
  intros Hfg. induction s as [|c s IH]; cbn; [done|].
  intros [? ?]%andb_true_iff. apply andb_true_iff; auto.
Qed.

Lemma strip_prefix_Some p s r : strip_prefix p s = Some r ↔ s = p +:+ r.
Proof.
  revert s. induction p as [|a p IH]; intros s; [cbn; naive_solver|].
  rewrite append_cons. destruct s as [|b s]; [done|]. cbn.
  destruct (Ascii.eqb_spec a b) as [->|Hne]; [rewrite IH|]; naive_solver.
Qed.

Lemma strip_prefix_append p r : strip_prefix p (p +:+ r) = Some r.
Proof. by apply strip_prefix_Some. Qed.

Lemma starts_with_true p s : starts_with p s = true ↔ ∃ r, s = p +:+ r.
Proof.
  unfold starts_with. setoid_rewrite <-strip_prefix_Some.
  destruct (strip_prefix p s); naive_solver.
Qed.

Lemma starts_with_app p r : starts_with p (p +:+ r) = true.
Proof. apply starts_with_true. eauto. Qed.

Lemma contains_char_false c s :
  contains_char c s = false ↔ str_all (λ d, negb (Ascii.eqb c d)) s = true.
Proof.
  induction s as [|d s IH]; cbn; [done|].
  rewrite orb_false_iff, andb_true_iff, negb_true_iff, IH. done.
Qed.

Lemma contains_char_app c a b :
  contains_char c (a +:+ b) = contains_char c a || contains_char c b.
Proof. induction a as [|x a IH]; [done|]. rewrite append_cons. cbn. by rewrite IH, orb_assoc. Qed.

Lemma to_ascii_lowercase_idemp s :
  to_ascii_lowercase (to_ascii_lowercase s) = to_ascii_lowercase s.
Proof. induction s as [|c s IH]; cbn; [done|]. by rewrite lower_byte_idemp, IH. Qed.

Lemma eq_ignore_ascii_case_refl s : eq_ignore_ascii_case s s = true.
Proof. apply String.eqb_refl. Qed.

Lemma eq_ignore_ascii_case_lower a b :
  eq_ignore_ascii_case (to_ascii_lowercase a) b = eq_ignore_ascii_case a b.
Proof. unfold eq_ignore_ascii_case. by rewrite to_ascii_lowercase_idemp. Qed.

(** ** Reversal *)

Lemma srev_app_eq s acc : srev_app s acc = srev s +:+ acc.
Proof.
  unfold srev. revert acc. induction s as [|c s IH]; intros acc; cbn; [done|].
  rewrite IH, (IH (String c EmptyString)), append_assoc. done.
Qed.

Lemma srev_cons c s : srev (String c s) = srev s +:+ String c EmptyString.
Proof. unfold srev at 1. cbn. apply srev_app_eq. Qed.

Lemma srev_append a b : srev (a +:+ b) = srev b +:+ srev a.
Proof.
  induction a as [|c a IH]; [by rewrite append_nil_l, append_nil_r|].
  by rewrite append_cons, !srev_cons, IH, append_assoc.
Qed.

Lemma srev_involutive s : srev (srev s) = s.
Proof. induction s as [|c s IH]; [done|]. by rewrite srev_cons, srev_append, IH. Qed.

Lemma slen_srev s : String.length (srev s) = String.length s.
Proof.
  induction s as [|c s IH]; [done|]. rewrite srev_cons, slen_append, IH. cbn. lia.
Qed.

Lemma str_all_srev f s : str_all f (srev s) = str_all f s.
Proof.
  induction s as [|c s IH]; [done|]. rewrite srev_cons, str_all_app, IH. cbn.
  rewrite andb_true_r. apply andb_comm.
Qed.

(** ** Trimming *)

Lemma strip_any_Some ps s r :
  strip_any ps s = Some r → ∃ p, p ∈ ps ∧ s = p +:+ r.
Proof.
  intros (p & Hp & H)%find_map_Some. exists p. by rewrite strip_prefix_Some in H.
Qed.

Lemma strip_any_None ps s : strip_any ps s = None ↔ ∀ p r, p ∈ ps → s ≠ p +:+ r.
Proof.
  unfold strip_any. induction ps as [|q ps IH]; cbn; [set_solver|].
  destruct (strip_prefix q s) as [r|] eqn:E.
  - apply strip_prefix_Some in E. split; [done|]. intros H. destruct (H q r); set_solver.
  - rewrite IH. split; intros H p r; [|set_solver].
    rewrite elem_of_cons. intros [->|Hp]; [|eauto].
    rewrite <-strip_prefix_Some, E. done.
Qed.

(** Every encoding of [ps] has a byte that [f] rejects: the strings [f] accepts
    are the ones trimming cannot change. *)
Lemma strip_any_reject f ps s :
  Forall (λ p, str_all f p = false) ps → str_all f s = true → strip_any ps s = None.
Proof.
  intros Hps Hs. apply strip_any_None. intros p r Hp ->.
  rewrite Forall_forall in Hps. specialize (Hps p Hp).
  rewrite str_all_app, Hps in Hs. done.
Qed.

Lemma strip_all_fixed ps fuel s : strip_any ps s = None → strip_all ps fuel s = s.
Proof. intros H. destruct fuel; cbn; [done|]. by rewrite H. Qed.

(** With non-empty encodings the fuel is enough: what is left starts with none
    of them. *)
Lemma strip_all_spec ps fuel s :
  Forall (λ p, p ≠ EmptyString) ps → (String.length s <= fuel)%nat →
  strip_any ps (strip_all ps fuel s) = None ∧ ∃ p, s = p +:+ strip_all ps fuel s.
Proof.
  intros Hps. revert s. induction fuel as [|fuel IH]; intros s Hs; cbn.
  - assert (s = EmptyString) as -> by (destruct s; [done|cbn in Hs; lia]).
    split; [|by exists EmptyString]. apply strip_any_None. intros p r Hp He.
    rewrite Forall_forall in Hps. apply (Hps p Hp). by destruct p.
  - destruct (strip_any ps s) as [r|] eqn:E.
    + apply strip_any_Some in E as (p & Hp & ->).
      rewrite Forall_forall in Hps. specialize (Hps p Hp).
      rewrite slen_append in Hs.
      destruct (IH r) as [H1 (q & H2)]; [destruct p; [done|cbn in *; lia]|].
      split; [done|]. exists (p +:+ q). rewrite append_assoc. by f_equal.
    + split; [done|]. by exists EmptyString.
Qed.

Lemma whitespace_nonempty : Forall (λ p, p ≠ EmptyString) whitespace.
Proof. repeat (constructor; [done|]). constructor. Qed.

Lemma whitespace_rev_nonempty : Forall (λ p, p ≠ EmptyString) (srev <$> whitespace).
Proof. repeat (constructor; [done|]). constructor. Qed.

Lemma trim_start_spec s :
  strip_any whitespace (trim_start s) = None ∧ ∃ p, s = p +:+ trim_start s.
Proof. apply strip_all_spec; [apply whitespace_nonempty|done]. Qed.

Lemma trim_end_spec s :
  strip_any (srev <$> whitespace) (srev (trim_end s)) = None ∧ ∃ q, s = trim_end s +:+ q.
Proof.
  unfold trim_end.
  destruct (strip_all_spec (srev <$> whitespace) (String.length s) (srev s))
    as [H1 [p H2]]; [apply whitespace_rev_nonempty|by rewrite slen_srev|].
  rewrite srev_involutive. split; [done|]. exists (srev p).
  rewrite <-srev_append, <-H2. by rewrite srev_involutive.
Qed.

(** A string with no whitespace at either end is its own [trim]. *)
Lemma trim_fixed s :
  strip_any whitespace s = None →
  strip_any (srev <$> whitespace) (srev s) = None → trim s = s.
Proof.
  intros H1 H2. unfold trim, trim_start. rewrite (strip_all_fixed _ _ _ H1).
  unfold trim_end. rewrite (strip_all_fixed _ _ _ H2). apply srev_involutive.
Qed.

Lemma trim_idemp s : trim (trim s) = trim s.
Proof.
  unfold trim at 2 3. set (t := trim_start s).
  destruct (trim_start_spec s) as [Hs _]. fold t in Hs.
  destruct (trim_end_spec t) as [He [q Hq]].
  apply trim_fixed; [|done].
  rewrite strip_any_None in Hs |- *. intros p r Hp Heq.
  apply (Hs p (r +:+ q) Hp). by rewrite <-append_assoc, <-Heq.
Qed.

Lemma trim_str_all f s :
  Forall (λ p, str_all f p = false) whitespace →
  Forall (λ p, str_all f p = false) (srev <$> whitespace) →
  str_all f s = true → trim s = s.
Proof.
  intros H1 H2 Hs. apply trim_fixed; [by eapply strip_any_reject|].
  eapply strip_any_reject; [done|]. by rewrite str_all_srev.
Qed.

Lemma trim_substring s : ∃ p q, s = p +:+ trim s +:+ q.
Proof.
  unfold trim. destruct (trim_start_spec s) as [_ [p Hp]].
  destruct (trim_end_spec (trim_start s)) as [_ [q Hq]].
  exists p, q. by rewrite <-Hq.
Qed.

Lemma trim_all f s : str_all f s = true → str_all f (trim s) = true.
Proof.
  destruct (trim_substring s) as (p & q & Hs). rewrite Hs at 1.
  rewrite !str_all_app, !andb_true_iff. tauto.
Qed.

(** ** Prefixes *)

Lemma starts_with_prefix n a b : starts_with n a = true → starts_with n (a +:+ b) = true.
Proof. rewrite !starts_with_true. intros [r ->]. exists (r +:+ b). by rewrite append_assoc. Qed.

Lemma contains_str_prefix n a b : contains_str n a = true → contains_str n (a +:+ b) = true.
Proof.
  induction a as [|c a IH].
  - cbn [contains_str]. rewrite orb_false_r. intros Hs. rewrite append_nil_l.
    destruct b as [|d b]; cbn [contains_str]; [by rewrite Hs|]. apply orb_true_iff. left.
    exact (starts_with_prefix n EmptyString (String d b) Hs).
  - rewrite append_cons. cbn [contains_str]. rewrite !orb_true_iff. intros [Hs|Hs]; [left|right; auto].
    exact (starts_with_prefix n (String c a) b Hs).
Qed.

Lemma drop_leading_spec c s :
  ∃ q, s = q +:+ drop_leading c s ∧ str_all (Ascii.eqb c) q = true.
Proof.
  induction s as [|d s (q & IH & Hq)]; cbn; [by exists EmptyString|].
  destruct (Ascii.eqb c d) eqn:E; [|by exists EmptyString].
  exists (String d q). rewrite append_cons. cbn. rewrite E, Hq. by rewrite IH at 1.
Qed.

Lemma trim_end_matches_spec c s :
  ∃ q, s = trim_end_matches c s +:+ q ∧ str_all (Ascii.eqb c) q = true.
Proof.
  unfold trim_end_matches. destruct (drop_leading_spec c (srev s)) as (q & Hs & Hq). exists (srev q).
  rewrite <-srev_append, <-Hs, srev_involutive, str_all_srev. done.
Qed.

(** ** Decimal digits *)

Lemma show_int_inj a b : show_int a = show_int b → a = b.
Proof. apply (inj pretty). Qed.

(** The decimal form of a number is made of digits, after a possible sign, and
    reads back. *)
Lemma digit_char n : (n < 10)%N →
  is_ascii_digit (pretty_N_char n) = true ∧ byte_of (pretty_N_char n) - 48 = Z.of_N n.
Proof.
  intros. assert (n = 0 ∨ n = 1 ∨ n = 2 ∨ n = 3 ∨ n = 4 ∨ n = 5 ∨ n = 6 ∨ n = 7 ∨ n = 8 ∨ n = 9)%N
    as Hn by lia.
  by destruct_or! Hn; subst.
Qed.

Lemma pretty_go_digits n s :
  str_all is_ascii_digit s = true → str_all is_ascii_digit (pretty_N_go n s) = true.
Proof.
  revert s. induction (N.lt_wf_0 n) as [n _ IH]; intros s Hs.
  destruct (decide (n = 0)%N) as [->|]; [done|].
  rewrite pretty_N_go_step by lia. apply IH; [apply N.div_lt; lia|]. cbn.
  destruct (digit_char (n mod 10)) as [-> _]; [apply N.mod_lt; lia|done].
Qed.

Lemma parse_go n s acc :
  ∃ k, parse_digits acc (pretty_N_go n s) = parse_digits (acc * 10 ^ k + Z.of_N n) s ∧ 0 <= k.
Proof.
  revert s. induction (N.lt_wf_0 n) as [n _ IH]; intros s.
  destruct (decide (n = 0)%N) as [->|].
  { exists 0. rewrite pretty_N_go_0. split; [|lia]. f_equal. lia. }
  rewrite pretty_N_go_step by lia.
  edestruct (IH (n / 10)%N) as (k & Hk & Hk0); [apply N.div_lt; lia|].
  exists (k + 1). split; [|lia]. rewrite Hk. cbn.
  destruct (digit_char (n mod 10)) as [-> ->]; [apply N.mod_lt; lia|]. f_equal.
  pose proof (N.div_mod n 10 ltac:(lia)). rewrite Z.pow_add_r by lia. change (10 ^ 1) with 10. lia.
Qed.

Lemma show_int_digits n : 0 <= n → str_all is_ascii_digit (show_int n) = true.
Proof.
  destruct n as [|p|p]; [done| |lia]. intros _. by apply pretty_go_digits.
Qed.

Lemma pretty_go_ne_empty n s : s ≠ EmptyString → pretty_N_go n s ≠ EmptyString.
Proof.
  revert s. induction (N.lt_wf_0 n) as [n _ IH]; intros s Hs.
  destruct (decide (n = 0)%N) as [->|]; [done|].
  rewrite pretty_N_go_step by lia. apply IH; [apply N.div_lt; lia|done].
Qed.

Lemma show_int_nonempty n : is_empty (show_int n) = false.
Proof.
  destruct n as [|p|p]; [done| |done]. apply is_empty_false.
  change (pretty_N_go (Npos p) "" ≠ ""). rewrite pretty_N_go_step by done.
  by apply pretty_go_ne_empty.
Qed.

Lemma parse_u64_show n : is_u64 n → parse_u64 (show_int n) = Some n.
Proof.
  unfold is_u64. intros Hn. pose proof (show_int_digits n ltac:(lia)) as Hd.
  pose proof (show_int_nonempty n) as He.
  assert (parse_digits 0 (show_int n) = Some n) as Hp.
  { destruct n as [|p|p]; [done| |lia]. change (show_int (Zpos p)) with (pretty_N_go (Npos p) "").
    destruct (parse_go (Npos p) "" 0) as (k & -> & _). done. }
  unfold parse_u64. destruct (show_int n) as [|c r]; [done|].
  assert (c ≠ "+"%char) as Hc by (intros ->; done).
  replace (match c with "+"%char => r | _ => String c r end) with (String c r).
  - cbn [is_empty]. rewrite Hp. destruct (Z.leb_spec n u64_max); [done|lia].
  - destruct c as [[] [] [] [] [] [] [] []]; done.
Qed.

Lemma str_all_show_int f n :
  (∀ c, is_ascii_digit c = true → f c = true) → f "-"%char = true → str_all f (show_int n) = true.
Proof.
  intros Hf Hm. destruct n as [|p|p].
  - change (show_int 0) with "0". cbn. by rewrite Hf.
  - eapply str_all_impl; [apply Hf|by apply show_int_digits].
  - change (show_int (Zneg p)) with ("-" +:+ show_int (Zpos p)). rewrite append_cons, append_nil_l.
    cbn. rewrite Hm. eapply str_all_impl; [apply Hf|by apply show_int_digits].
Qed.

Lemma split_char_app c a b : split_char c (a +:+ String c b) = split_char c a ++ split_char c b.
Proof.
  induction a as [|d a IH].
  - rewrite append_nil_l. cbn. by rewrite Ascii.eqb_refl.
  - rewrite append_cons. cbn. rewrite IH. destruct (Ascii.eqb d c); [done|].
    destruct (split_char c a) as [|x xs] eqn:E; [|done]. destruct a; cbn in E; repeat case_match; done.
Qed.

Example trim_ex : trim (bytes [32; 194; 160; 9]%N +:+ "/dev/sda" +:+ bytes [226; 128; 137; 10]%N) = "/dev/sda".
Proof. reflexivity. Qed.

Example parse_ex : parse_u64 "+44" = Some 44 ∧ parse_u64 "18446744073709551616" = None
  ∧ parse_u64 "4x" = None ∧ parse_u64 "" = None.
Proof. by vm_compute. Qed.

Example split_ex : split_char "/" "/a/b" = [""; "a"; "b"].
Proof. reflexivity. Qed.

(** ** Suffixes, words and lines *)

(** [s.ends_with(suffix)] and [s.strip_suffix(suffix)] *)
Definition ends_with (suffix s : string) : bool := starts_with (srev suffix) (srev s).
Definition strip_suffix (suffix s : string) : option string :=
  match strip_prefix (srev suffix) (srev s) with
  | Some r => Some (srev r)
  | None => None
  end.

(** [s.split_whitespace()]: [word] is the current word, reversed. *)
Fixpoint words_loop (fuel : nat) (word s : string) : list string :=
  let flush := if is_empty word then [] else [srev word] in
  match fuel with
  | O => flush
  | S fuel =>
      match strip_any whitespace s with
      | Some r => flush ++ words_loop fuel EmptyString r
      | None =>
          match s with
          | EmptyString => flush
          | String c r => words_loop fuel (String c word) r
          end
      end
  end.
Definition split_whitespace (s : string) : list string :=
  words_loop (S (String.length s)) EmptyString s.

(** [s.lines()]: without the empty piece after a final newline, and without a
    carriage return at the end of a line. *)
Definition newline : string := bytes [10]%N.
Definition strip_cr (l : string) : string := unwrap_or (strip_suffix (bytes [13]%N) l) l.
Definition lines (s : string) : list string :=
  let pieces := split_char "010" s in
  strip_cr <$> (match last pieces with
                | Some EmptyString => removelast pieces
                | _ => pieces
                end).

#[global] Arguments split_whitespace : simpl never.
#[global] Arguments lines : simpl never.
#[global] Arguments ends_with : simpl never.
#[global] Arguments strip_suffix : simpl never.

Lemma ends_with_true p s : ends_with p s = true ↔ ∃ r, s = r +:+ p.
Proof.
  unfold ends_with. rewrite starts_with_true. split.
  - intros [r Hr]. exists (srev r). rewrite <-(srev_involutive s), Hr, srev_append. by rewrite srev_involutive.
  - intros [r ->]. exists (srev r). by rewrite srev_append.
Qed.

Lemma strip_suffix_Some p s r : strip_suffix p s = Some r ↔ s = r +:+ p.
Proof.
  unfold strip_suffix. split.
  - destruct (strip_prefix (srev p) (srev s)) as [x|] eqn:E; [|done]. intros [= <-].
    apply strip_prefix_Some in E. rewrite <-(srev_involutive s), E, srev_append. by rewrite srev_involutive.
  - intros ->. rewrite srev_append, strip_prefix_append. by rewrite srev_involutive.
Qed.

Lemma words_loop_word fuel word s t :
  (String.length s <= fuel)%nat → (∀ a b, s = a +:+ b → b ≠ EmptyString → strip_any whitespace (b +:+ t) = None) →
  words_loop fuel word (s +:+ t) = words_loop (fuel - String.length s) (srev s +:+ word) t.
Proof.
  revert fuel word. induction s as [|c s IH]; intros fuel word Hf Hn.
  - rewrite append_nil_l. cbn. by rewrite Nat.sub_0_r.
  - cbn in Hf. destruct fuel as [|fuel]; [lia|]. cbn [words_loop].
    rewrite (Hn EmptyString (String c s)) by done. rewrite append_cons.
    rewrite IH; [|lia|].
    + cbn [String.length]. rewrite srev_cons, append_assoc. done.
    + intros a b -> Hb. apply (Hn (String c a) b); [done|done].
Qed.

(** Graphic ASCII bytes never begin a whitespace character. *)
Definition graphic (c : ascii) : bool := byte_in 33 126 c.

Lemma strip_any_graphic c t : graphic c = true → strip_any whitespace (String c t) = None.
Proof.
  intros Hc. apply strip_any_None. intros p r Hp.
  assert (Forall (λ p, match p with String d _ => graphic d = false | EmptyString => False end) whitespace)
    as Hw by (repeat (constructor; [done|]); constructor).
  rewrite Forall_forall in Hw. specialize (Hw p Hp). destruct p as [|d p]; [done|].
  rewrite append_cons. intros [= -> _]. congruence.
Qed.

(** Words of graphic bytes, separated by single spaces and closed by a newline. *)
Fixpoint spaced (ws : list string) : string :=
  match ws with
  | [] => EmptyString
  | [w] => w +:+ newline
  | w :: ws => w +:+ " " +:+ spaced ws
  end.

Lemma words_loop_flush fuel word sep t :
  strip_any whitespace (sep +:+ t) = Some t → word ≠ EmptyString →
  words_loop (S fuel) word (sep +:+ t) = srev word :: words_loop fuel EmptyString t.
Proof. intros Hs Hw. cbn [words_loop]. rewrite Hs. by destruct word. Qed.

Lemma words_loop_graphic fuel w sep t :
  (String.length w < fuel)%nat → w ≠ EmptyString → str_all graphic w = true →
  strip_any whitespace (sep +:+ t) = Some t →
  words_loop fuel EmptyString (w +:+ sep +:+ t)
  = w :: words_loop (fuel - String.length w - 1) EmptyString t.
Proof.
  intros Hf Hne Hg Hs. rewrite words_loop_word; [|lia|].
  - rewrite append_nil_r. destruct (fuel - String.length w)%nat as [|k] eqn:E; [lia|].
    rewrite words_loop_flush; [|done|]. { rewrite srev_involutive. do 2 f_equal. lia. }
    intros H. apply Hne. by rewrite <-(srev_involutive w), H.
  - intros a b -> Hb. rewrite str_all_app in Hg. apply andb_true_iff in Hg as [_ Hg].
    destruct b as [|c b]; [done|]. rewrite append_cons. apply strip_any_graphic.
    cbn in Hg. by apply andb_true_iff in Hg as [? _].
Qed.

Lemma split_spaced ws :
  Forall (λ w, w ≠ EmptyString ∧ str_all graphic w = true) ws → split_whitespace (spaced ws) = ws.
Proof.
  intros Hws. unfold split_whitespace. generalize (le_n (S (String.length (spaced ws)))).
  generalize (S (String.length (spaced ws))) at 2 3 as fuel. revert ws Hws.
  induction 1 as [|w ws [Hne Hg] Hws IH]; intros fuel Hf.
  { by destruct fuel. }
  destruct ws as [|w' ws].
  - cbn [spaced] in *. rewrite slen_append in Hf. cbn in Hf.
    pose proof (words_loop_graphic fuel w newline EmptyString) as Hl.
    rewrite append_nil_r in Hl. rewrite Hl; [|lia|done|done|done].
    destruct (fuel - String.length w - 1)%nat; done.
  - change (spaced (w :: w' :: ws)) with (w +:+ " " +:+ spaced (w' :: ws)) in *.
    rewrite !slen_append in Hf. change (String.length " ") with 1%nat in Hf.
    rewrite words_loop_graphic; [|lia|done|done|done]. f_equal. apply IH. lia.
Qed.

Lemma split_char_single c s : contains_char c s = false → split_char c s = [s].
Proof.
  induction s as [|d s IH]; cbn; [done|]. intros [Hd Hs]%orb_false_iff. rewrite IH by done.
  by rewrite Ascii.eqb_sym, Hd.
Qed.

Lemma split_char_cons c s : ∃ w ws, split_char c s = w :: ws.
Proof.
  destruct s as [|d s]; cbn; [eauto|]. destruct (Ascii.eqb d c); [eauto|].
  destruct (split_char c s); eauto.
Qed.

Lemma split_char_piece c s x : x ∈ split_char c s → contains_char c x = false.
Proof.
  revert x. induction s as [|d s IH]; intros x; cbn [split_char].
  - by intros ->%list_elem_of_singleton.
  - destruct (Ascii.eqb_spec d c) as [->|Hd]; [intros [->|?]%elem_of_cons; auto|].
    destruct (split_char_cons c s) as (w & ws & E). rewrite E in IH |- *.
    intros [->|Hx]%elem_of_cons; [|apply IH; by right]. cbn. rewrite (IH w) by (by left).
    by destruct (Ascii.eqb_spec c d) as [->|].
Qed.

(** The last piece is what follows the last separator. *)
Lemma split_char_last c s b :
  last (split_char c s) = Some b → s = b ∨ ∃ a, s = a +:+ String c b.
Proof.
  revert b. induction s as [|d s IH]; intros b; cbn; [naive_solver|].
  destruct (split_char_cons c s) as (w & ws & E). rewrite E in IH |- *.
  destruct (Ascii.eqb_spec d c) as [->|Hd].
  - intros [->|[a ->]]%IH; right; [by exists EmptyString|]. exists (String c a). done.
  - destruct ws as [|w' ws].
    + intros [= <-]. destruct (IH w eq_refl) as [->|[a Ha]]; [by left|]. right.
      exists (String d a). rewrite Ha in E. rewrite split_char_app in E.
      destruct (split_char_cons c a) as (x & xs & Ex), (split_char_cons c w) as (y & ys & Ey).
      rewrite Ex, Ey in E. by destruct xs.
    + intros H. destruct (IH b H) as [->|[a ->]].
      * exfalso. rewrite split_char_single in E; [done|]. eapply split_char_piece. rewrite E.
        change (last (w :: w' :: ws) = Some b) in H. apply last_Some in H as [l ->].
        apply elem_of_app. right. by left.
      * right. by exists (String d a).
Qed.

Lemma lines_closed a : lines (a +:+ newline) = strip_cr <$> split_char "010" a.
Proof.
  unfold lines. change newline with (String "010" EmptyString). rewrite split_char_app. cbn [split_char].
  rewrite last_snoc, removelast_last. done.
Qed.

Lemma lines_open s :
  s ≠ EmptyString → ends_with newline s = false → lines s = strip_cr <$> split_char "010" s.
Proof.
  intros Hs He. unfold lines. destruct (last (split_char "010" s)) as [[|]|] eqn:E; [|done|done].
  apply split_char_last in E as [->|[a ->]]; [done|].
  assert (ends_with newline (a +:+ String "010" EmptyString) = true) as Ht; [|congruence].
  apply ends_with_true. by exists a.
Qed.

Lemma lines_snoc a c :
  contains_char "010" c = false →
  lines (a +:+ newline +:+ c +:+ newline) = (strip_cr <$> split_char "010" a) ++ [strip_cr c].
Proof.
  intros Hc. rewrite <-!append_assoc, lines_closed, append_assoc.
  change (newline +:+ c) with (String "010" c). rewrite split_char_app, (split_char_single "010" c) by done.
  by rewrite fmap_app.
Qed.

(** [s.split_once(c)] *)
Fixpoint split_once (c : ascii) (s : string) : option (string * string) :=
  match s with
  | EmptyString => None
  | String d r =>
      if Ascii.eqb d c then Some (EmptyString, r)
      else match split_once c r with
           | Some (a, b) => Some (String d a, b)
           | None => None
           end
  end.

(** [output.push_str(line); output.push('\n')] for every line. *)
Definition unlines (ls : list string) : string := foldr (λ l out, l +:+ newline +:+ out) EmptyString ls.

Lemma split_char_str_all f c s x : str_all f s = true → x ∈ split_char c s → str_all f x = true.
Proof.
  revert x. induction s as [|d s IH]; intros x; cbn [split_char str_all]; [by intros _ ->%list_elem_of_singleton|].
  intros [Hd Hs]%andb_true_iff. destruct (Ascii.eqb d c); [intros [->|?]%elem_of_cons; auto|].
  destruct (split_char_cons c s) as (w & ws & E). rewrite E in *. intros [->|Hx]%elem_of_cons.
  - cbn. rewrite Hd, IH; [done|done|by left].
  - apply IH; [done|by right].
Qed.

Lemma split_char_contains b c s x : contains_char b s = false → x ∈ split_char c s → contains_char b x = false.
Proof. rewrite !contains_char_false. apply split_char_str_all. Qed.

Lemma split_char_join c l :
  l ≠ [] → Forall (λ x, contains_char c x = false) l → split_char c (join (String c EmptyString) l) = l.
Proof.
  induction l as [|x l IH]; [done|]. intros _ [Hx Hl]%Forall_cons. destruct l as [|y l]; [by apply split_char_single|].
  change (join _ _) with (x +:+ String c (join (String c EmptyString) (y :: l))).
  by rewrite split_char_app, IH, split_char_single.
Qed.

Lemma split_once_Some c s a b : split_once c s = Some (a, b) → s = a +:+ String c b ∧ contains_char c a = false.
Proof.
  revert a. induction s as [|d s IH]; intros a; cbn; [done|].
  destruct (Ascii.eqb_spec d c) as [->|Hd]; [by intros [= <- <-]|].
  destruct (split_once c s) as [[x y]|]; [|done]. intros [= <- <-]. destruct (IH x eq_refl) as [-> Hx].
  split; [done|]. cbn. rewrite Hx. by destruct (Ascii.eqb_spec c d) as [->|].
Qed.

Lemma split_once_None c s : split_once c s = None → contains_char c s = false.
Proof.
  induction s as [|d s IH]; cbn; [done|]. destruct (Ascii.eqb_spec d c) as [->|Hd]; [done|].
  destruct (split_once c s) as [[x y]|]; [done|]. intros _. rewrite IH by done. by destruct (Ascii.eqb_spec c d) as [->|].
Qed.

Lemma strip_cr_plain l : contains_char "013" l = false → strip_cr l = l.
Proof.
  intros Hl. unfold strip_cr. destruct (strip_suffix _ l) as [r|] eqn:E; [|done].
  apply strip_suffix_Some in E as ->. rewrite contains_char_app in Hl. cbn in Hl. by rewrite orb_true_r in Hl.
Qed.

Lemma lines_pieces s x : x ∈ lines s → ∃ y, y ∈ split_char "010" s ∧ x = strip_cr y.
Proof.
  unfold lines. intros (y & -> & Hy)%list_elem_of_fmap. exists y. split; [|done].
  destruct (last _) as [[|]|] eqn:E; [|done|done]. apply last_Some in E as [l E]. rewrite E in Hy |- *.
  rewrite removelast_last in Hy. apply elem_of_app. by left.
Qed.

(** The lines of a text without a carriage return. *)
Definition no_cr (s : string) : Prop := contains_char "013" s = false.

Lemma lines_plain s x :
  no_cr s → x ∈ lines s → contains_char "010" x = false ∧ contains_char "013" x = false.
Proof.
  intros Hs (y & Hy & ->)%lines_pieces. pose proof (split_char_contains _ _ _ _ Hs Hy) as Hc.
  rewrite strip_cr_plain by done. split; [|done]. by eapply split_char_piece.
Qed.

Lemma lines_app a b : lines (a +:+ newline +:+ b) = lines (a +:+ newline) ++ lines b.
Proof.
  rewrite lines_closed. unfold lines at 1. change (newline +:+ b) with (String "010" b). rewrite split_char_app.
  unfold lines. destruct (split_char_cons "010" b) as (w & ws & E). rewrite E, <-fmap_app. f_equal.
  assert (∃ l x, w :: ws = l ++ [x]) as (l & x & ->).
  { exists (removelast (w :: ws)), (List.last (w :: ws) EmptyString). by apply app_removelast_last. }
  rewrite app_assoc, !last_snoc. by destruct x; rewrite ?removelast_last, <-?app_assoc.
Qed.

Lemma lines_cons l s :
  contains_char "010" l = false → lines (l +:+ newline +:+ s) = strip_cr l :: lines s.
Proof. intros Hl. rewrite lines_app, lines_closed, split_char_single by done. done. Qed.

(** Writing lines and reading them back. *)
Lemma lines_unlines ls :
  Forall (λ l, contains_char "010" l = false ∧ contains_char "013" l = false) ls → lines (unlines ls) = ls.
Proof.
  induction ls as [|l ls IH]; [done|]. intros [[Hl Hr] Hls]%Forall_cons.
  change (unlines (l :: ls)) with (l +:+ newline +:+ unlines ls). by rewrite lines_cons, IH, strip_cr_plain.
Qed.

(** A text of visible bytes, written as a line, trims back to itself. *)
Lemma trim_newline s : str_all graphic s = true → trim (s +:+ newline) = s.
Proof.
  intros Hs. assert (trim_start (s +:+ newline) = if is_empty s then EmptyString else s +:+ newline) as E.
  { destruct s as [|c s]; [by vm_compute|]. cbn in Hs. apply andb_true_iff in Hs as [Hc _].
    unfold trim_start. apply strip_all_fixed. by apply strip_any_graphic. }
  unfold trim. rewrite E. destruct (is_empty s) eqn:Ee; [by apply is_empty_true in Ee as ->|]. unfold trim_end.
  rewrite srev_append, slen_append, Nat.add_comm. change (srev newline +:+ srev s) with (String "010" (srev s)).
  change (String.length newline) with 1%nat. cbn [Nat.add strip_all]. change (strip_any (srev <$> whitespace) (String "010" (srev s))) with (Some (srev s)).
  cbn iota. rewrite strip_all_fixed; [apply srev_involutive|].
  apply (strip_any_reject graphic); [by repeat constructor|by rewrite str_all_srev].
Qed.

Lemma starts_with_short p a b : (String.length p <= String.length a)%nat → starts_with p (a +:+ b) = starts_with p a.
Proof.
  revert a. induction p as [|c p IH]; intros [|d a] Hl; try done; [cbn in Hl; lia|].
  rewrite append_cons. unfold starts_with in *. cbn [strip_prefix]. destruct (Ascii.eqb c d); [|done].
  apply IH. cbn in Hl. lia.
Qed.
Lemma ends_with_short p a b : (String.length p <= String.length b)%nat → ends_with p (a +:+ b) = ends_with p b.
Proof. intros Hl. unfold ends_with. rewrite srev_append. apply starts_with_short. by rewrite !slen_srev. Qed.

Example words_ex : split_whitespace ("UUID=ab  /home" +:+ bytes [9; 10]%N) = ["UUID=ab"; "/home"].
Proof. reflexivity. Qed.
Example lines_ex : lines ("a" +:+ newline +:+ newline +:+ "b" +:+ newline) = ["a"; ""; "b"]
  ∧ lines "" = [] ∧ lines "a" = ["a"].
Proof. by vm_compute. Qed.

(** * Ordered maps *)

(** The entries of a [BTreeMap] with string keys, in the order of iteration. *)
Definition key_le {A} (a b : string * A) : Prop := String.le (fst a) (fst b).
#[export] Instance key_le_dec {A} : RelDecision (@key_le A).
Proof. intros a b. unfold key_le. apply _. Defined.
#[export] Instance key_le_total {A} : Total (@key_le A).
Proof.
  intros a b. unfold key_le, String.le. destruct (String.leb_total (fst a) (fst b)) as [E|E]; rewrite E; auto.
Qed.

Definition btree_entries {A} (m : gmap string A) : list (string * A) := merge_sort key_le (map_to_list m).

Lemma elem_of_btree_entries {A} (m : gmap string A) k x : (k, x) ∈ btree_entries m ↔ m !! k = Some x.
Proof. unfold btree_entries. by rewrite merge_sort_Permutation, elem_of_map_to_list. Qed.

Lemma btree_entries_NoDup {A} (m : gmap string A) : NoDup (fst <$> btree_entries m).
Proof. unfold btree_entries. rewrite merge_sort_Permutation. apply NoDup_fst_map_to_list. Qed.
