(* ===== verification/RustOs.v ===== *)
(** Processes and paths.

    The results of [std::process::Command] as the sources read them, and the
    lexical operations of [std::path::Path] they use. *)

From S2P Require Import Prelude RustStr.

(** * Processes *)

(** [std::process::Output]; [co_utf8] tells whether [String::from_utf8]
    accepts the captured standard output. *)
Record CommandOutput := {
  co_code : option Z;
  co_stdout : string;
  co_utf8 : bool;
}.

(** [status.success()] *)
Definition success (o : CommandOutput) : bool := bool_decide (co_code o = Some 0).

(** [Command::new(program).args(args).output()] for read-only probes. *)
Class Runner := { run_command : string → list string → result CommandOutput }.

(** The three ways a text probe fails, each with the caller's message. *)
Definition probe_text `{Runner} (program : string) (args : list string)
    (spawn_error : string → string) (failed not_utf8 : string) : result string :=
  let? output := map_err spawn_error (run_command program args) in
  guard! negb (success output) else failed;
  guard! negb (co_utf8 output) else not_utf8;
  Ok (co_stdout output).

Lemma probe_text_Ok `{Runner} program args f m1 m2 text :
  probe_text program args f m1 m2 = Ok text →
  ∃ o, run_command program args = Ok o ∧ success o = true ∧ co_stdout o = text.
Proof.
  unfold probe_text. intros Hk. apply rbind_Ok in Hk as (o & Ho%map_err_Ok & Hk).
  guard_inv Hk as Hs. guard_inv Hk as Hu. bool_inv.
  exists o. injection Hk as <-. auto.
Qed.

(** * Paths *)

(** [Path::components] of an absolute path: empty and current-directory
    components disappear. *)
Definition components (p : string) : list string :=
  filterb (λ c, negb (is_empty c) && negb (String.eqb c ".")) (split_char "/" p).

Definition is_absolute (p : string) : bool := starts_with "/" p.

(** [a == b] on paths: by components. *)
Definition same_path (a b : string) : bool :=
  Bool.eqb (is_absolute a) (is_absolute b) && bool_decide (components a = components b).

(** Any [Component::ParentDir]. *)
Definition has_parent_dir (p : string) : bool := str_in ".." (components p).

(** [a.starts_with(b)] on paths, component-wise. *)
Fixpoint list_prefix (b a : list string) : bool :=
  match b, a with
  | [], _ => true
  | x :: b, y :: a => String.eqb x y && list_prefix b a
  | _ :: _, [] => false
  end.

(** [path.file_name()]: the last component unless it is [..]. *)
Definition file_name (p : string) : option string :=
  match last (components p) with
  | Some c => if String.eqb c ".." then None else Some c
  | None => None
  end.

(** The components of [path.parent()]. *)
Definition parent_components (p : string) : option (list string) :=
  match components p with
  | [] => None
  | cs => Some (removelast cs)
  end.

(** [path.parent().and_then(file_name)] *)
Definition parent_file_name (p : string) : option string :=
  match parent_components p with
  | Some cs =>
      match last cs with
      | Some c => if String.eqb c ".." then None else Some c
      | None => None
      end
  | None => None
  end.

Lemma list_prefix_spec b a : list_prefix b a = true ↔ ∃ c, a = b ++ c.
Proof.
  revert a. induction b as [|x b IH]; intros a; cbn; [naive_solver|].
  destruct a as [|y a]; [naive_solver|].
  rewrite andb_true_iff, String.eqb_eq, IH. naive_solver.
Qed.

Example components_ex :
  components "/run//kyth-installer/./txn/a.json/" = ["run"; "kyth-installer"; "txn"; "a.json"]
  ∧ file_name "/mnt/etc/fstab" = Some "fstab" ∧ parent_file_name "/mnt/etc/fstab" = Some "etc"
  ∧ file_name "/" = None.
Proof. by vm_compute. Qed.
