(* ===== verification/Json.v ===== *)
(** JSON documents: the [serde_json::Value] operations the sources use.

    Objects are finite maps (serde's default map is ordered by key, so equal
    maps are equal documents).  Integers are the ones serde keeps exactly; any
    other number is kept as its text.  Reading and printing text is the serde
    library's work: [JsonCodec] is the parameter for it, and [JsonCodecLaws] the
    documented fact the writers rely on. *)

From S2P Require Import Prelude RustStr.

Inductive json :=
| JNull
| JBool (b : bool)
| JNumber (n : Z)
| JFloat (text : string)
| JString (s : string)
| JArray (l : list json)
| JObject (m : gmap string json).

(** [value.get(key)] *)
Definition jget (key : string) (v : json) : option json :=
  match v with
  | JObject m => m !! key
  | _ => None
  end.

(** [v.as_str()], [v.as_u64()], [v.as_i64()], [v.as_bool()], [v.as_array()] *)
Definition as_str (v : json) : option string :=
  match v with JString s => Some s | _ => None end.
Definition as_u64 (v : json) : option Z :=
  match v with
  | JNumber n => if (0 <=? n) && (n <=? u64_max) then Some n else None
  | _ => None
  end.
Definition as_i64 (v : json) : option Z :=
  match v with
  | JNumber n => if (i64_min <=? n) && (n <=? i64_max) then Some n else None
  | _ => None
  end.
Definition as_bool (v : json) : option bool :=
  match v with JBool b => Some b | _ => None end.
Definition as_array (v : json) : option (list json) :=
  match v with JArray l => Some l | _ => None end.

(** [value.get(key).and_then(f)] *)
Definition field {A} (f : json → option A) (key : string) (v : json) : option A :=
  match jget key v with
  | Some x => f x
  | None => None
  end.

(** [json!({ ... })] *)
Definition jobject (fields : list (string * json)) : json := JObject (list_to_map fields).

(** [value[key] = x] on an object or on null; any other document panics in the
    source and is left alone here. *)
Definition jset (key : string) (x : json) (v : json) : json :=
  match v with
  | JObject m => JObject (<[key := x]> m)
  | JNull => JObject {[key := x]}
  | _ => v
  end.

(** [json!] of an optional integer. *)
Definition jopt (o : option Z) : json :=
  match o with Some n => JNumber n | None => JNull end.

Lemma as_u64_number n : is_u64 n → as_u64 (JNumber n) = Some n.
Proof.
  unfold is_u64, as_u64. intros. destruct (Z.leb_spec 0 n), (Z.leb_spec n u64_max); done || lia.
Qed.

Lemma as_u64_range v n : as_u64 v = Some n → v = JNumber n ∧ is_u64 n.
Proof.
  destruct v; try done. cbn. case_match eqn:E; [|done]. intros [= <-].
  apply andb_true_iff in E as [?%Z.leb_le ?%Z.leb_le]. done.
Qed.

(** [serde_json::from_slice] and [serde_json::to_vec]. *)
Class JsonCodec := {
  json_decode : string → result json;
  json_encode : json → string;
}.

(** Text that serde_json prints is read back as the same document. *)
Class JsonCodecLaws `{JsonCodec} := {
  json_roundtrip v : json_decode (json_encode v) = Ok v;
}.

(** * A codec that satisfies the law

    Documents as trees, trees as numbers, numbers as binary digits: enough to
    evaluate the models on concrete documents. *)

Fixpoint json_size (v : json) : nat :=
  match v with
  | JArray l => S (list_sum (json_size <$> l))
  | JObject m => S (map_fold (λ _ x n, json_size x + n)%nat 0%nat m)
  | _ => 1%nat
  end.

Lemma list_sum_elem (l : list json) x : x ∈ l → (json_size x <= list_sum (json_size <$> l))%nat.
Proof.
  induction l as [|y l IH]; [set_solver|]. cbn. intros [->|Hx]%elem_of_cons; [lia|].
  specialize (IH Hx). unfold list_sum in *. lia.
Qed.

Lemma map_fold_size (m : gmap string json) k x :
  m !! k = Some x → (json_size x <= map_fold (λ _ x n, json_size x + n)%nat 0%nat m)%nat.
Proof.
  revert k x. apply (map_fold_weak_ind (λ n m, ∀ k x, m !! k = Some x → (json_size x <= n)%nat)).
  - intros k x Hk. by rewrite lookup_empty in Hk.
  - intros i y m' n Hi IH k x Hk. destruct (decide (i = k)) as [->|Hne].
    + rewrite lookup_insert_eq in Hk. injection Hk as ->. lia.
    + rewrite lookup_insert_ne in Hk by done. specialize (IH k x Hk). lia.
Qed.

Lemma json_induction (P : json → Prop) :
  P JNull → (∀ b, P (JBool b)) → (∀ n, P (JNumber n)) → (∀ s, P (JFloat s)) →
  (∀ s, P (JString s)) → (∀ l, Forall P l → P (JArray l)) →
  (∀ m, map_Forall (λ _, P) m → P (JObject m)) → ∀ v, P v.
Proof.
  intros H0 H1 H2 H3 H4 H5 H6 v.
  remember (json_size v) as k eqn:Hk. revert v Hk.
  induction (lt_wf k) as [k _ IH]. intros v ->. destruct v as [|b|n|s|s|l|m]; auto.
  - apply H5, Forall_forall. intros x Hx. eapply IH; [|reflexivity]. cbn.
    pose proof (list_sum_elem _ _ Hx). lia.
  - apply H6. intros key x Hx. eapply IH; [|reflexivity]. cbn.
    pose proof (map_fold_size _ _ _ Hx). lia.
Qed.

(** ** Walking a document

    A recursive visit of a document, parents first: [descend] selects the parts a
    walk goes into.  The size of the document is fuel enough when the parts are
    members of it. *)

Fixpoint walk (descend : json → list json) (fuel : nat) (v : json) : list json :=
  match fuel with
  | O => []
  | S fuel => v :: flat_map (walk descend fuel) (descend v)
  end.
Definition nodes (descend : json → list json) (v : json) : list json := walk descend (json_size v) v.

(** [value.get(key).and_then(Value::as_array)], empty when there is none. *)
Definition members (key : string) (v : json) : list json := unwrap_or (field as_array key v) [].

Lemma members_size key v x : x ∈ members key v → (json_size x < json_size v)%nat.
Proof.
  unfold members, field, jget. destruct v as [| | | | | |m]; try (intros Hx; by apply not_elem_of_nil in Hx).
  destruct (m !! key) as [[| | | | |l|]|] eqn:E; try (intros Hx; by apply not_elem_of_nil in Hx).
  cbn. intros Hx. pose proof (map_fold_size _ _ _ E) as Hm. pose proof (list_sum_elem _ _ Hx) as Hl. cbn in Hm. lia.
Qed.

Lemma flat_map_eq {A B} (f g : A → list B) l : (∀ x, x ∈ l → f x = g x) → flat_map f l = flat_map g l.
Proof.
  intros H. induction l as [|x l IH]; cbn; [done|]. f_equal; [apply H; by left|apply IH; intros; apply H; by right].
Qed.

Lemma walk_fuel descend f f' v :
  (∀ v x, x ∈ descend v → (json_size x < json_size v)%nat) →
  (json_size v <= f)%nat → (json_size v <= f')%nat → walk descend f v = walk descend f' v.
Proof.
  intros Hd. revert f' v. induction f as [|f IH]; intros f' v Hf Hf'; [destruct v; cbn in Hf; lia|].
  destruct f' as [|f']; [destruct v; cbn in Hf'; lia|]. cbn. f_equal. apply flat_map_eq.
  intros x Hx%Hd. apply IH; lia.
Qed.

(** The fuel is enough: the visit is the node and the visits of its parts. *)
Lemma nodes_unfold descend v :
  (∀ v x, x ∈ descend v → (json_size x < json_size v)%nat) →
  nodes descend v = v :: flat_map (nodes descend) (descend v).
Proof.
  intros Hd. unfold nodes at 1. destruct (json_size v) as [|n] eqn:E; [destruct v; cbn in E; lia|]. cbn. f_equal.
  apply flat_map_eq. intros x Hx%Hd. apply walk_fuel; [done|lia|done].
Qed.

Definition leaf : Type := bool + Z + string + string.

Fixpoint json_tree (v : json) : gen_tree leaf :=
  match v with
  | JNull => GenNode 0 []
  | JBool b => GenLeaf (inl (inl (inl b)))
  | JNumber n => GenLeaf (inl (inl (inr n)))
  | JFloat s => GenLeaf (inl (inr s))
  | JString s => GenLeaf (inr s)
  | JArray l => GenNode 1 (json_tree <$> l)
  | JObject m =>
      GenNode 2 (map_fold (λ k x l, GenNode 3 [GenLeaf (inr k); json_tree x] :: l) [] m)
  end.

Fixpoint tree_json (t : gen_tree leaf) : option json :=
  match t with
  | GenNode 0 [] => Some JNull
  | GenLeaf (inl (inl (inl b))) => Some (JBool b)
  | GenLeaf (inl (inl (inr n))) => Some (JNumber n)
  | GenLeaf (inl (inr s)) => Some (JFloat s)
  | GenLeaf (inr s) => Some (JString s)
  | GenNode 1 l =>
      match (fix go l := match l with
                         | [] => Some []
                         | x :: l => match tree_json x, go l with
                                     | Some v, Some vs => Some (v :: vs)
                                     | _, _ => None
                                     end
                         end) l with
      | Some vs => Some (JArray vs)
      | None => None
      end
  | GenNode 2 l =>
      match (fix go l := match l with
                         | [] => Some (∅ : gmap string json)
                         | GenNode 3 [GenLeaf (inr k); x] :: l =>
                             match tree_json x, go l with
                             | Some v, Some m => Some (<[k := v]> m)
                             | _, _ => None
                             end
                         | _ :: _ => None
                         end) l with
      | Some m => Some (JObject m)
      | None => None
      end
  | _ => None
  end.

Lemma tree_json_tree v : tree_json (json_tree v) = Some v.
Proof.
  induction v as [|b|n|s|s|l IH|m IH] using json_induction; try done.
  - cbn. set (go := fix go l := match l with [] => _ | _ => _ end).
    assert (go (json_tree <$> l) = Some l) as ->; [|done].
    induction IH as [|x l Hx _ IHl]; [done|]. cbn. by rewrite Hx, IHl.
  - cbn [json_tree tree_json]. set (go := fix go l := match l with [] => _ | _ => _ end).
    assert (go (map_fold (λ k x l, GenNode 3 [GenLeaf (inr k); json_tree x] :: l) [] m) = Some m)
      as ->; [|done].
    revert IH. apply (map_fold_weak_ind (λ l m, map_Forall (λ _ v, tree_json (json_tree v) = Some v) m →
                                           go l = Some m)).
    + done.
    + intros k x m' l Hk IHl Hm. cbn.
      rewrite (map_Forall_insert_1_1 _ _ _ _ Hm), IHl; [done|].
      by eapply map_Forall_insert_1_2.
Qed.

Fixpoint pos_text (p : positive) : string :=
  match p with
  | xH => EmptyString
  | xO p => String "0" (pos_text p)
  | xI p => String "1" (pos_text p)
  end.
Fixpoint text_pos (s : string) : positive :=
  match s with
  | EmptyString => xH
  | String c s => if Ascii.eqb c "1" then xI (text_pos s) else xO (text_pos s)
  end.

Lemma text_pos_text p : text_pos (pos_text p) = p.
Proof. induction p as [p IH|p IH|]; cbn; by rewrite ?IH. Qed.

Definition tree_codec : JsonCodec := {|
  json_decode text :=
    match decode (text_pos text) with
    | Some t => match tree_json t with Some v => Ok v | None => Err "invalid document" end
    | None => Err "invalid document"
    end;
  json_encode v := pos_text (encode (json_tree v));
|}.

Lemma tree_codec_laws : @JsonCodecLaws tree_codec.
Proof.
  split. intros v. cbn. by rewrite text_pos_text, decode_encode, tree_json_tree.
Qed.
