(* ===== verification/FileSystem.v ===== *)
(** A file system with crashes.

    Files have live contents and, once synced, durable contents; directory
    entries have a live and a durable version.  A crash may bring back either
    version of each entry, and anything at all for a file whose live contents
    were never synced.  [crash_read] is about a file system whose rename is
    atomic; [torn_read] is about one, such as the FAT of an EFI system
    partition, that may leave anything behind while a renamed entry is not
    synced.  What is on a tmpfs has no durable version: its claims are about
    [read_file] at the moment a process is stopped.  The write protocols of the
    installer are proved over this model. *)

From S2P Require Import Prelude RustStr RustOs.

(** What is not a regular file; the target of a symbolic link is part of its
    directory entry. *)
Inductive FileKind := Directory | Symlink (target : string) | OtherFile.

Inductive Entry :=
| Regular (inode : nat)
| Special (kind : FileKind).

Record Inode := { contents : string; synced : bool }.

Record Fs := {
  inodes : gmap nat Inode;
  dir : gmap string Entry;
  durable : gmap string Entry;
  next_inode : nat;
}.

(** Entries refer to allocated inodes. *)
Definition fs_wf (fs : Fs) : Prop :=
  ∀ p i, dir fs !! p = Some (Regular i) ∨ durable fs !! p = Some (Regular i) →
    (i < next_inode fs)%nat ∧ is_Some (inodes fs !! i).

(** The live contents of a regular file. *)
Definition read_file (fs : Fs) (p : string) : option string :=
  match dir fs !! p with
  | Some (Regular i) =>
      match inodes fs !! i with
      | Some n => Some (contents n)
      | None => None
      end
  | _ => None
  end.

(** What a path may hold after a crash: [None] when there is no file. *)
Definition entry_crash (fs : Fs) (e : option Entry) (r : option string) : Prop :=
  match e with
  | Some (Regular i) =>
      ∃ n s, inodes fs !! i = Some n ∧ r = Some s ∧ (synced n = true → s = contents n)
  | _ => r = None
  end.
Definition crash_read (fs : Fs) (p : string) (r : option string) : Prop :=
  entry_crash fs (dir fs !! p) r ∨ entry_crash fs (durable fs !! p) r.

(** The two versions of a path's entry agree: nothing is left to sync. *)
Definition settled (fs : Fs) (p : string) : Prop := dir fs !! p = durable fs !! p.

(** What a path may hold after a crash where renaming is not atomic: anything,
    nothing included, while the entry is not settled. *)
Definition torn_read (fs : Fs) (p : string) (r : option string) : Prop :=
  crash_read fs p r ∨ ~ settled fs p.

(** The entry a path may have after a crash. *)
Definition crash_entry (fs : Fs) (p : string) (e : option Entry) : Prop :=
  e = dir fs !! p ∨ e = durable fs !! p.

(** * Operations *)

Definition is_directory (e : option Entry) : bool :=
  match e with Some (Special Directory) => true | _ => false end.
Definition is_symlink (e : option Entry) : bool :=
  match e with Some (Special (Symlink _)) => true | _ => false end.

(** [remove_file], which does nothing to a directory. *)
Definition remove_file (p : string) (fs : Fs) : Fs :=
  if is_directory (dir fs !! p) then fs
  else {| inodes := inodes fs; dir := delete p (dir fs); durable := durable fs;
          next_inode := next_inode fs |}.

(** [create_new]: only where there is no entry. *)
Definition create_file (p : string) (fs : Fs) : Fs :=
  {| inodes := <[next_inode fs := {| contents := EmptyString; synced := false |}]> (inodes fs);
     dir := <[p := Regular (next_inode fs)]> (dir fs); durable := durable fs;
     next_inode := S (next_inode fs) |}.

(** A new directory or link. *)
Definition make_special (p : string) (k : FileKind) (fs : Fs) : Fs :=
  {| inodes := inodes fs; dir := <[p := Special k]> (dir fs); durable := durable fs;
     next_inode := next_inode fs |}.

Definition write_inode (i : nat) (s : string) (fs : Fs) : Fs :=
  {| inodes := <[i := {| contents := s; synced := false |}]> (inodes fs);
     dir := dir fs; durable := durable fs; next_inode := next_inode fs |}.

(** [sync_all] on the open file. *)
Definition sync_inode (i : nat) (fs : Fs) : Fs :=
  match inodes fs !! i with
  | Some n =>
      {| inodes := <[i := {| contents := contents n; synced := true |}]> (inodes fs);
         dir := dir fs; durable := durable fs; next_inode := next_inode fs |}
  | None => fs
  end.

Definition rename_file (a b : string) (fs : Fs) : Fs :=
  match dir fs !! a with
  | Some e =>
      {| inodes := inodes fs; dir := <[b := e]> (delete a (dir fs)); durable := durable fs;
         next_inode := next_inode fs |}
  | None => fs
  end.

(** [sync_all] on the directory, for the names the caller touched. *)
Definition sync_name (p : string) (fs : Fs) : Fs :=
  {| inodes := inodes fs; dir := dir fs; durable := partial_alter (λ _, dir fs !! p) p (durable fs);
     next_inode := next_inode fs |}.

(** * Paths

    On paths without a doubled or final separator, the form in which the
    callers build them. *)

(** The parts of [s] before and after the last [c]. *)
Fixpoint split_last (c : ascii) (s : string) : option (string * string) :=
  match s with
  | EmptyString => None
  | String d r =>
      match split_last c r with
      | Some (a, b) => Some (String d a, b)
      | None => if Ascii.eqb c d then Some (EmptyString, r) else None
      end
  end.

(** [path.with_extension(ext)]: the last extension of the file name, which does
    not start at its first byte, is replaced. *)
Definition with_extension (ext p : string) : string :=
  let '(d, name) := match split_last "/" p with
                    | Some (d, name) => (d +:+ "/", name)
                    | None => (EmptyString, p)
                    end in
  let stem := match split_last "." name with
              | Some (s, _) => if is_empty s then name else s
              | None => name
              end in
  d +:+ stem +:+ "." +:+ ext.

(** [path.parent()] as text. *)
Definition parent_dir (p : string) : option string :=
  match split_last "/" p with
  | Some (d, name) =>
      if is_empty name then None else Some (if is_empty d then "/" else d)
  | None => None
  end.

(** [dir.join(name)] *)
Definition join_path (d name : string) : string :=
  match split_last "/" d with
  | Some (_, last) => if is_empty last then d +:+ name else d +:+ "/" +:+ name
  | None => d +:+ "/" +:+ name
  end.

(** A path in that form: [/] and the components. *)
Fixpoint slashed (cs : list string) : string :=
  match cs with
  | [] => EmptyString
  | c :: cs => "/" +:+ c +:+ slashed cs
  end.
Definition norm_path (p : string) : string :=
  match components p with
  | [] => "/"
  | cs => slashed cs
  end.

(** * Lemmas *)

Lemma slashed_app a b : slashed (a ++ b) = slashed a +:+ slashed b.
Proof. induction a as [|c a IH]; cbn [slashed app]; [by rewrite append_nil_l|]. by rewrite IH, !append_assoc. Qed.

Lemma components_app a b : components (a +:+ "/" +:+ b) = components a ++ components b.
Proof.
  unfold components. rewrite append_cons, append_nil_l, split_char_app.
  generalize (split_char "/" a) as l. intros l. induction l as [|x l IH]; [done|].
  cbn [filterb app]. rewrite IH. by destruct (_ && _).
Qed.

(** Below a directory, a normalised path is that of the directory followed by
    the rest. *)
Lemma norm_path_below d rest cs :
  components rest = cs → cs ≠ [] → norm_path (d +:+ "/" +:+ rest) = slashed (components d) +:+ slashed cs.
Proof.
  intros Hr Hc. unfold norm_path. rewrite components_app, Hr.
  destruct (components d ++ cs) eqn:E; [by apply app_nil in E as [_ ?]|]. by rewrite <-E, slashed_app.
Qed.

Lemma split_last_app c a b : contains_char c b = false → split_last c (a +:+ String c b) = Some (a, b).
Proof.
  intros Hb. assert (∀ s, contains_char c s = false → split_last c s = None) as Hn.
  { induction s as [|d s IH]; cbn; [done|]. intros [Hd Hs]%orb_false_iff. rewrite IH by done.
    by rewrite Hd. }
  induction a as [|d a IH]; [rewrite append_nil_l|rewrite append_cons]; cbn.
  - by rewrite Hn, Ascii.eqb_refl.
  - by rewrite IH.
Qed.

Lemma split_last_Some c s a b :
  split_last c s = Some (a, b) → s = a +:+ String c b ∧ contains_char c b = false.
Proof.
  revert a. induction s as [|d s IH]; intros a; cbn; [done|].
  assert (split_last c s = None → contains_char c s = false) as Hnone.
  { clear. induction s as [|e s IH]; cbn; [done|]. destruct (split_last c s) as [[]|]; [done|].
    destruct (Ascii.eqb c e) eqn:E; [done|]. intros _. by rewrite IH. }
  destruct (split_last c s) as [[a' b']|].
  - intros [= <- <-]. destruct (IH a' eq_refl) as [-> ?]. by rewrite append_cons.
  - destruct (Ascii.eqb_spec c d) as [->|]; [|done]. intros [= <- <-]. rewrite append_nil_l. auto.
Qed.

(** The temporary file of an atomic write is another file. *)
Lemma with_extension_ne ext p : contains_char "." ext = true → with_extension ext p ≠ p.
Proof.
  intros Hext. unfold with_extension.
  assert (∃ d name, (match split_last "/" p with
                     | Some (d, name) => (d +:+ "/", name) | None => (EmptyString, p) end)
                    = (d, name) ∧ p = d +:+ name) as (d & name & -> & Hp).
  { destruct (split_last "/" p) as [[d name]|] eqn:E.
    - apply split_last_Some in E as [-> _]. exists (d +:+ "/"), name. split; [done|].
      by rewrite append_assoc, append_cons, append_nil_l.
    - by exists EmptyString, p. }
  rewrite Hp. intros H%append_inj_l.
  destruct (split_last "." name) as [[s e]|] eqn:E.
  - destruct (is_empty s).
    + apply (f_equal String.length) in H. rewrite !slen_append in H. cbn in H. lia.
    + apply split_last_Some in E as [-> He]. apply append_inj_l in H.
      rewrite append_cons, append_nil_l in H. injection H as H. congruence.
  - apply (f_equal String.length) in H. rewrite !slen_append in H. cbn in H. lia.
Qed.

Lemma crash_read_eq fs fs' p r :
  dir fs' !! p = dir fs !! p → durable fs' !! p = durable fs !! p →
  (∀ i, dir fs !! p = Some (Regular i) ∨ durable fs !! p = Some (Regular i) →
        inodes fs' !! i = inodes fs !! i) →
  crash_read fs' p r → crash_read fs p r.
Proof.
  intros Hd Hu Hi. unfold crash_read, entry_crash. rewrite Hd, Hu.
  intros [H|H]; [left|right].
  - destruct (dir fs !! p) as [[i|]|] eqn:E; try done. rewrite <-Hi by auto. done.
  - destruct (durable fs !! p) as [[i|]|] eqn:E; try done. rewrite <-Hi by auto. done.
Qed.

(** * Replacing a file through a temporary one

    The two facts behind every write that fills a temporary file, syncs it and
    renames it over the target. *)

(** The target's entries do not refer to inode [i]. *)
Definition unshared (fs : Fs) (path : string) (i : nat) : Prop :=
  dir fs !! path ≠ Some (Regular i) ∧ durable fs !! path ≠ Some (Regular i).

(** From [fs] to [fs'] only the temporary name and the file [i] behind it have
    changed. *)
Record staged (fs fs' : Fs) (path temporary : string) (i : nat) : Prop := {
  sg_path : dir fs' !! path = dir fs !! path;
  sg_durable : durable fs' = durable fs;
  sg_tmp : dir fs' !! temporary = Some (Regular i);
  sg_next : (i < next_inode fs')%nat ∧ (next_inode fs <= next_inode fs')%nat;
  sg_inodes : ∀ k, k ≠ i → inodes fs' !! k = inodes fs !! k;
  sg_dir : ∀ q, q ≠ temporary → dir fs' !! q = dir fs !! q;
  sg_file : is_Some (inodes fs' !! i);
}.

Lemma fs_wf_remove p fs : fs_wf fs → fs_wf (remove_file p fs).
Proof.
  intros Hw. unfold remove_file. case_match; [done|].
  intros q i [Hq|Hq]; cbn in *; [|by apply (Hw q); right].
  apply lookup_delete_Some in Hq as [_ ?]. by apply (Hw q); left.
Qed.

Lemma fs_wf_special p k fs : fs_wf fs → fs_wf (make_special p k fs).
Proof.
  intros Hw q i Hq. cbn in *. apply (Hw q). destruct Hq as [Hq|Hq]; [|auto].
  destruct (decide (q = p)) as [->|]; [by rewrite lookup_insert_eq in Hq|].
  rewrite lookup_insert_ne in Hq by done. auto.
Qed.

Lemma fs_wf_rename a b fs : fs_wf fs → fs_wf (rename_file a b fs).
Proof.
  intros Hw. unfold rename_file. destruct (dir fs !! a) as [e|] eqn:Ha; [|done].
  intros q k Hqk. cbn in *. destruct (decide (q = b)) as [->|Hq].
  - rewrite lookup_insert_eq in Hqk. destruct Hqk as [[= ->]|Hqk]; [apply (Hw a)|apply (Hw b)]; auto.
  - rewrite lookup_insert_ne in Hqk by done. apply (Hw q).
    destruct Hqk as [Hqk|Hqk]; [|auto]. apply lookup_delete_Some in Hqk as [_ ?]. auto.
Qed.

Lemma remove_crash p path fs x : p ≠ path → crash_read (remove_file p fs) path x → crash_read fs path x.
Proof.
  intros Hne. unfold remove_file. case_match; [done|].
  apply crash_read_eq; cbn; [by rewrite lookup_delete_ne|done|done].
Qed.

Lemma staged_wf fs fs' path temporary i : fs_wf fs → staged fs fs' path temporary i → fs_wf fs'.
Proof.
  intros Hw [_ Hd Ht [Hi1 Hn] Hi Hq Hf] q k Hqk. rewrite Hd in Hqk.
  destruct (decide (k = i)) as [->|Hne]; [done|].
  rewrite Hi by done. destruct (decide (q = temporary)) as [->|Hqt].
  - destruct Hqk as [Hqk|Hqk]; [rewrite Ht in Hqk; congruence|].
    destruct (Hw temporary k); [by right|]. split; [lia|done].
  - rewrite Hq in Hqk by done. destruct (Hw q k Hqk). split; [lia|done].
Qed.

Lemma staged_crash fs fs' path temporary i r :
  unshared fs path i → staged fs fs' path temporary i → crash_read fs' path r → crash_read fs path r.
Proof.
  intros [Hu Hu'] [Hp Hd _ _ Hi _ _]. apply crash_read_eq; [done|by rewrite Hd|].
  intros k Hk. apply Hi. intros ->. destruct Hk; [by apply Hu|by apply Hu'].
Qed.

(** Allocating the temporary file. *)
Lemma staged_create fs path temporary :
  temporary ≠ path → staged fs (create_file temporary fs) path temporary (next_inode fs).
Proof.
  intros Hne. split; cbn; try done.
  - by rewrite lookup_insert_ne.
  - by rewrite lookup_insert_eq.
  - lia.
  - intros k Hk. by rewrite lookup_insert_ne.
  - intros q Hq. by rewrite lookup_insert_ne.
  - rewrite lookup_insert_eq. eauto.
Qed.

Lemma fresh_unshared fs path : fs_wf fs → unshared fs path (next_inode fs).
Proof. intros Hw. split; intros H; destruct (Hw path (next_inode fs)); auto; lia. Qed.

Lemma staged_write fs fs' path temporary i s :
  staged fs fs' path temporary i → staged fs (write_inode i s fs') path temporary i.
Proof.
  intros []. split; cbn; try done.
  - intros k Hk. rewrite lookup_insert_ne by done. auto.
  - rewrite lookup_insert_eq. eauto.
Qed.

Lemma staged_sync fs fs' path temporary i :
  staged fs fs' path temporary i → staged fs (sync_inode i fs') path temporary i.
Proof.
  intros []. unfold sync_inode. destruct (inodes fs' !! i) as [n|] eqn:E; [|by split].
  split; cbn; try done.
  - intros k Hk. rewrite lookup_insert_ne by done. auto.
  - rewrite lookup_insert_eq. eauto.
Qed.

Lemma sync_write_file fs i bytes :
  inodes (sync_inode i (write_inode i bytes fs)) !! i = Some {| contents := bytes; synced := true |}.
Proof. unfold sync_inode. cbn. rewrite lookup_insert_eq. cbn. by rewrite lookup_insert_eq. Qed.

(** After the rename the target is the new file, complete and synced. *)
Record replaced (fs fs' : Fs) (path : string) (i : nat) (bytes : string) : Prop := {
  rp_path : dir fs' !! path = Some (Regular i);
  rp_file : inodes fs' !! i = Some {| contents := bytes; synced := true |};
  rp_durable : durable fs' !! path = durable fs !! path ∨ durable fs' !! path = Some (Regular i);
  rp_inodes : ∀ k, k ≠ i → inodes fs' !! k = inodes fs !! k;
}.

Lemma entry_new fs i bytes r :
  inodes fs !! i = Some {| contents := bytes; synced := true |} →
  entry_crash fs (Some (Regular i)) r → r = Some bytes.
Proof. intros Hf. cbn. rewrite Hf. intros (n & s & [= <-] & -> & Hs). by rewrite Hs. Qed.

Lemma replaced_crash fs fs' path i bytes r :
  unshared fs path i → replaced fs fs' path i bytes →
  crash_read fs' path r → crash_read fs path r ∨ r = Some bytes.
Proof.
  intros [_ Hu] [Hp Hf Hd Hi]. unfold crash_read at 1. rewrite Hp. intros [H|H].
  { right. by eapply entry_new. }
  destruct Hd as [Hd|Hd]; rewrite Hd in H; [|right; by eapply entry_new].
  left. right. unfold entry_crash in *. destruct (durable fs !! path) as [[k|]|] eqn:E; try done.
  rewrite Hi in H; [done|]. congruence.
Qed.

(** Once the directory is synced the old version cannot come back. *)
Lemma replaced_durable fs path i bytes r :
  dir fs !! path = Some (Regular i) → durable fs !! path = Some (Regular i) →
  inodes fs !! i = Some {| contents := bytes; synced := true |} →
  crash_read fs path r → r = Some bytes.
Proof. intros Hp Hd Hf. unfold crash_read. rewrite Hp, Hd. intros [H|H]; by eapply entry_new. Qed.

Lemma replaced_rename fs fs' path temporary i bytes :
  staged fs fs' path temporary i →
  inodes fs' !! i = Some {| contents := bytes; synced := true |} →
  replaced fs (rename_file temporary path fs') path i bytes.
Proof.
  intros [Hp Hd Ht Hn Hi Hq _] Hf. unfold rename_file. rewrite Ht. split; cbn; try done.
  - by rewrite lookup_insert_eq.
  - rewrite Hd. auto.
Qed.

Lemma replaced_wf fs fs' path temporary i :
  fs_wf fs → staged fs fs' path temporary i → fs_wf (rename_file temporary path fs').
Proof. intros Hw Hs. eapply fs_wf_rename, staged_wf; eauto. Qed.

Lemma sync_names_wf p q fs : fs_wf fs → fs_wf (sync_name p (sync_name q fs)).
Proof.
  assert (∀ p fs, fs_wf fs → fs_wf (sync_name p fs)) as H; [|auto].
  intros p' fs' Hw x i Hxi. cbn in *. apply (Hw x). destruct Hxi as [?|Hxi]; [auto|].
  destruct (decide (x = p')) as [->|].
  - rewrite lookup_partial_alter_eq in Hxi. auto.
  - rewrite lookup_partial_alter_ne in Hxi by done. auto.
Qed.

(** ** What a protocol does not touch *)

(** From [fs] to [fs'] only the names [l] and files created since have
    changed. *)
Record framed (l : list string) (fs fs' : Fs) : Prop := {
  fr_dir : ∀ q, q ∉ l → dir fs' !! q = dir fs !! q;
  fr_durable : ∀ q, q ∉ l → durable fs' !! q = durable fs !! q;
  fr_inodes : ∀ k, (k < next_inode fs)%nat → inodes fs' !! k = inodes fs !! k;
  fr_next : (next_inode fs <= next_inode fs')%nat;
}.

Lemma framed_refl l fs : framed l fs fs.
Proof. by split. Qed.

Lemma framed_trans l a b c : framed l a b → framed l b c → framed l a c.
Proof.
  intros [A1 A2 A3 A4] [B1 B2 B3 B4]. split; [| | |lia].
  - intros q Hq. by rewrite B1, A1.
  - intros q Hq. by rewrite B2, A2.
  - intros k Hk. rewrite B3, A3; [done|done|lia].
Qed.

Lemma framed_weaken l l' a b : l ⊆ l' → framed l a b → framed l' a b.
Proof. intros Hl [H1 H2 H3 H4]. split; auto. Qed.

Lemma framed_remove l p fs : p ∈ l → framed l fs (remove_file p fs).
Proof.
  intros Hp. unfold remove_file. case_match; [apply framed_refl|]. split; cbn; try done.
  intros q Hq. rewrite lookup_delete_ne; [done|by intros ->].
Qed.

Lemma framed_create l p fs : p ∈ l → framed l fs (create_file p fs).
Proof.
  intros Hp. split; cbn; try done; [| |lia].
  - intros q Hq. rewrite lookup_insert_ne; [done|by intros ->].
  - intros k Hk. rewrite lookup_insert_ne; [done|lia].
Qed.

Lemma framed_special l p k fs : p ∈ l → framed l fs (make_special p k fs).
Proof. intros Hp. split; cbn; try done. intros q Hq. rewrite lookup_insert_ne; [done|by intros ->]. Qed.

(** Writing and syncing a file created since [fs]. *)
Lemma framed_write l i s fs fs' :
  (next_inode fs <= i)%nat → framed l fs fs' → framed l fs (write_inode i s fs').
Proof. intros Hi []. split; cbn; try done. intros k Hk. rewrite lookup_insert_ne; [auto|lia]. Qed.

Lemma framed_sync l i fs fs' :
  (next_inode fs <= i)%nat → framed l fs fs' → framed l fs (sync_inode i fs').
Proof.
  intros Hi Hf. unfold sync_inode. destruct (inodes fs' !! i); [|done]. destruct Hf.
  split; cbn; try done. intros k Hk. rewrite lookup_insert_ne; [auto|lia].
Qed.

Lemma framed_rename l a b fs : a ∈ l → b ∈ l → framed l fs (rename_file a b fs).
Proof.
  intros Ha Hb. unfold rename_file. destruct (dir fs !! a); [|by split]. split; cbn; try done.
  intros q Hq. rewrite lookup_insert_ne by (by intros ->). rewrite lookup_delete_ne; [done|by intros ->].
Qed.

Lemma framed_sync_name l p fs : p ∈ l → framed l fs (sync_name p fs).
Proof.
  intros Hp. split; cbn; try done. intros q Hq. rewrite lookup_partial_alter_ne; [done|by intros ->].
Qed.

Lemma framed_crash l fs fs' q x :
  fs_wf fs → framed l fs fs' → q ∉ l → crash_read fs' q x → crash_read fs q x.
Proof.
  intros Hw [H1 H2 H3 _] Hq. apply crash_read_eq; [auto|auto|].
  intros i Hi. apply H3. by destruct (Hw q i Hi).
Qed.

Lemma framed_entry l fs fs' q e : framed l fs fs' → q ∉ l → crash_entry fs' q e → crash_entry fs q e.
Proof. intros [H1 H2 _ _] Hq. unfold crash_entry. by rewrite H1, H2. Qed.

Lemma framed_read l fs fs' q :
  fs_wf fs → framed l fs fs' → q ∉ l → read_file fs' q = read_file fs q.
Proof.
  intros Hw [H1 _ H3 _] Hq. unfold read_file. rewrite H1 by done.
  destruct (dir fs !! q) as [[i|]|] eqn:E; [|done|done]. rewrite H3; [done|].
  destruct (Hw q i); auto.
Qed.

(** * Runs *)

(** The states a run goes through, oldest first, and its result. *)
Record Run := { visited : list Fs; final : Fs; outcome : result unit }.

(** A refused operation that never reached the file system. *)
Definition refused (fs : Fs) (e : string) : Run := {| visited := [fs]; final := fs; outcome := Err e |}.

(** Sequencing: the second run starts where a successful first one ended. *)
Definition then_run (r : Run) (k : Fs → Run) : Run :=
  match outcome r with
  | Err _ => r
  | Ok _ =>
      let r' := k (final r) in
      {| visited := visited r ++ visited r'; final := final r'; outcome := outcome r' |}
  end.

(** What an atomic replacement of [path] guarantees. *)
Record write_ok (path bytes : string) (fs : Fs) (r : Run) : Prop := {
  wo_wf : fs_wf (final r);
  wo_crash : ∀ v x, v ∈ visited r → crash_read v path x → crash_read fs path x ∨ x = Some bytes;
  wo_ok : outcome r = Ok tt → read_file (final r) path = Some bytes ∧
          ∀ x, crash_read (final r) path x → x = Some bytes;
}.

Lemma write_ok_refused path bytes fs e : fs_wf fs → write_ok path bytes fs (refused fs e).
Proof. intros Hw. split; cbn; [done| |done]. intros v x ->%list_elem_of_singleton. auto. Qed.

(** A run that stops while only the temporary file has been touched. *)
Lemma write_ok_stop path temporary bytes fs vs fs' i e :
  fs_wf fs → unshared fs path i → Forall (λ v, v = fs ∨ staged fs v path temporary i) vs →
  fs' = fs ∨ staged fs fs' path temporary i →
  write_ok path bytes fs {| visited := vs; final := fs'; outcome := Err e |}.
Proof.
  intros Hw Hu Hvs Hf. split; cbn; [| |done].
  - destruct Hf as [->|Hf]; [done|by eapply staged_wf].
  - intros v x Hv Hx. rewrite Forall_forall in Hvs. left.
    destruct (Hvs v Hv) as [->|Hs]; [done|by eapply staged_crash].
Qed.

(** The last two steps of the protocol: rename, then sync the directory or fail
    to. *)
Lemma write_ok_replace path temporary bytes fs vs fs' i e :
  fs_wf fs → unshared fs path i → Forall (λ v, v = fs ∨ staged fs v path temporary i) vs →
  staged fs fs' path temporary i → inodes fs' !! i = Some {| contents := bytes; synced := true |} →
  let fs4 := rename_file temporary path fs' in
  let fs5 := sync_name path (sync_name temporary fs4) in
  write_ok path bytes fs {| visited := vs ++ [fs4]; final := fs4; outcome := Err e |} ∧
  write_ok path bytes fs {| visited := vs ++ [fs4; fs5]; final := fs5; outcome := Ok tt |}.
Proof.
  intros Hw Hu Hvs Hst Hf fs4 fs5.
  pose proof (replaced_rename _ _ _ _ _ _ Hst Hf) as H4.
  pose proof (replaced_wf _ _ _ _ _ Hw Hst) as Hw4.
  assert (∀ v x, v ∈ vs → crash_read v path x → crash_read fs path x) as Hold.
  { intros v x Hv Hx. rewrite Forall_forall in Hvs.
    destruct (Hvs v Hv) as [->|Hs]; [done|by eapply staged_crash]. }
  assert (replaced fs fs5 path i bytes) as H5.
  { destruct H4 as [R1 R2 R3 R4]. split; cbn; try done. right. by rewrite lookup_partial_alter_eq. }
  split; split; cbn [visited final outcome]; try done.
  - intros v x [Hv|Hv]%elem_of_app Hx; [by left; eapply Hold|].
    apply list_elem_of_singleton in Hv as ->. eapply replaced_crash; [exact Hu|exact H4|exact Hx].
  - by apply sync_names_wf.
  - intros v x [Hv|[->|Hv]%elem_of_cons]%elem_of_app Hx; [by left; eapply Hold| |].
    + eapply replaced_crash; [exact Hu|exact H4|exact Hx].
    + apply list_elem_of_singleton in Hv as ->. eapply replaced_crash; [exact Hu|exact H5|exact Hx].
  - intros _. destruct H5 as [R1 R2 _ _]. unfold read_file. rewrite R1, R2. split; [done|].
    intros x. eapply replaced_durable; [exact R1| |exact R2]. cbn. by rewrite lookup_partial_alter_eq.
Qed.

(** The frame of an atomic write: an older temporary file is removed first, and
    the temporary file is removed again after a failure. *)
Definition with_cleanup (keep_old keep_failed : bool) (temporary : string) (k : Fs → Run) (fs : Fs) : Run :=
  let fs0 := if keep_old then fs else remove_file temporary fs in
  let r := k fs0 in
  match outcome r with
  | Ok _ => {| visited := fs :: fs0 :: visited r; final := final r; outcome := outcome r |}
  | Err _ =>
      let fs' := if keep_failed then final r else remove_file temporary (final r) in
      {| visited := fs :: fs0 :: visited r ++ [fs']; final := fs'; outcome := outcome r |}
  end.

Lemma remove_maybe (b : bool) temporary path fs fs' :
  temporary ≠ path → fs_wf fs → fs' = (if b then fs else remove_file temporary fs) →
  fs_wf fs' ∧ ∀ x, crash_read fs' path x → crash_read fs path x.
Proof.
  intros Hne Hw ->. destruct b; [done|]. split; [by apply fs_wf_remove|].
  intros x. by apply remove_crash.
Qed.

Lemma write_ok_cleanup keep_old keep_failed temporary path bytes k fs :
  temporary ≠ path → fs_wf fs →
  (∀ fs0, fs_wf fs0 → write_ok path bytes fs0 (k fs0) ∧ final (k fs0) ∈ fs0 :: visited (k fs0)) →
  write_ok path bytes fs (with_cleanup keep_old keep_failed temporary k fs).
Proof.
  intros Hne Hw Hk. unfold with_cleanup. set (fs0 := if keep_old then _ else _).
  destruct (remove_maybe keep_old temporary path fs fs0 Hne Hw eq_refl) as [Hw0 Hc0].
  destruct (Hk fs0 Hw0) as [[Hwf Hc Hok] Hin].
  assert (∀ v x, v ∈ fs :: fs0 :: visited (k fs0) → crash_read v path x →
                 crash_read fs path x ∨ x = Some bytes) as Hvis.
  { intros v x [->|[->|Hv]%elem_of_cons]%elem_of_cons Hx; [auto|auto|].
    destruct (Hc v x Hv Hx); auto. }
  destruct (outcome (k fs0)) as [[]|e] eqn:E; [by split; cbn; rewrite ?E|].
  set (fs' := if keep_failed then _ else _).
  destruct (remove_maybe keep_failed temporary path _ fs' Hne Hwf eq_refl) as [Hw' Hc'].
  split; cbn; [done| |done].
  intros v x Hv Hx. rewrite app_comm_cons, app_comm_cons, elem_of_app in Hv.
  destruct Hv as [Hv| ->%list_elem_of_singleton]; [by eapply Hvis|].
  eapply Hvis; [|by apply Hc']. by right.
Qed.

(** ** The whole protocol

    Create a temporary file, write it, sync it, pass a gate, rename it over the
    target and sync the directory; each step may fail with the caller's message. *)

Record ReplaceSteps := {
  st_create : option string;
  st_exists : string;
  st_write : option (string * string);
  st_sync : option string;
  st_gate : Fs → option string;
  st_rename : option string;
  st_sync_dir : option string;
}.

Definition replace_protocol (f : ReplaceSteps) (path temporary data : string) (fs : Fs) : Run :=
  let stop fs vs e := {| visited := vs; final := fs; outcome := Err e |} in
  match st_create f, dir fs !! temporary with
  | Some e, _ => stop fs [] e
  | None, Some _ => stop fs [] (st_exists f)
  | None, None =>
      let i := next_inode fs in
      let fs1 := create_file temporary fs in
      match st_write f with
      | Some (partial, e) => let fs2 := write_inode i partial fs1 in stop fs2 [fs1; fs2] e
      | None =>
          let fs2 := write_inode i data fs1 in
          match st_sync f with
          | Some e => stop fs2 [fs1; fs2] e
          | None =>
              let fs3 := sync_inode i fs2 in
              match st_gate f fs3, st_rename f with
              | Some e, _ | None, Some e => stop fs3 [fs1; fs2; fs3] e
              | None, None =>
                  let fs4 := rename_file temporary path fs3 in
                  match st_sync_dir f with
                  | Some e => stop fs4 ([fs1; fs2; fs3] ++ [fs4]) e
                  | None =>
                      let fs5 := sync_name path (sync_name temporary fs4) in
                      {| visited := [fs1; fs2; fs3] ++ [fs4; fs5]; final := fs5; outcome := Ok tt |}
                  end
              end
          end
      end
  end.

Lemma staged_read fs fs' path temporary i :
  unshared fs path i → staged fs fs' path temporary i → read_file fs' path = read_file fs path.
Proof.
  intros [Hu _] [H1 _ _ _ H5 _ _]. unfold read_file. rewrite H1.
  destruct (dir fs !! path) as [[k|]|] eqn:E; try done. rewrite H5; [done|]. congruence.
Qed.

Lemma remove_read p path fs : p ≠ path → read_file (remove_file p fs) path = read_file fs path.
Proof. intros. unfold read_file, remove_file. destruct (is_directory _); [done|]. cbn. by rewrite lookup_delete_ne. Qed.

(** The protocol is atomic, durable once it reports success, and a reader always
    sees the old or the new contents. *)
Lemma replace_protocol_ok f path temporary data fs :
  fs_wf fs → temporary ≠ path →
  write_ok path data fs (replace_protocol f path temporary data fs) ∧
  final (replace_protocol f path temporary data fs) ∈ fs :: visited (replace_protocol f path temporary data fs) ∧
  (read_file (final (replace_protocol f path temporary data fs)) path = read_file fs path ∨
   read_file (final (replace_protocol f path temporary data fs)) path = Some data).
Proof.
  intros Hw Hne. pose proof (fresh_unshared fs path Hw) as Hu.
  assert (∀ vs fs' e, Forall (λ v, v = fs ∨ staged fs v path temporary (next_inode fs)) vs → fs' ∈ fs :: vs →
    let r := {| visited := vs; final := fs'; outcome := Err e |} in
    write_ok path data fs r ∧ final r ∈ fs :: visited r ∧
    (read_file (final r) path = read_file fs path ∨ read_file (final r) path = Some data)) as Hstop.
  { intros vs fs' e Hvs Hin. rewrite Forall_forall in Hvs.
    assert (fs' = fs ∨ staged fs fs' path temporary (next_inode fs)) as Hf by (apply elem_of_cons in Hin as [->|Hin]; auto).
    split_and!; [by eapply write_ok_stop; [..|apply Forall_forall|]|done|]. left. cbn.
    destruct Hf as [->|Hf]; [done|by eapply staged_read]. }
  unfold replace_protocol. destruct (st_create f); [by apply Hstop; [|left]|].
  destruct (dir fs !! temporary) eqn:Ht; [by apply Hstop; [|left]|].
  pose proof (staged_create fs path temporary Hne) as H1. destruct (st_write f) as [[partial e]|].
  { apply Hstop; [|by right; right; left].
    apply Forall_cons; split; [by right|]. apply Forall_cons; split; [right; by apply staged_write|constructor]. }
  pose proof (staged_write _ _ _ _ _ data H1) as H2.
  destruct (st_sync f).
  { apply Hstop; [|by right; right; left]. do 2 (apply Forall_cons; split; [by right|]). constructor. }
  pose proof (staged_sync _ _ _ _ _ H2) as H3.
  pose proof (sync_write_file (create_file temporary fs) (next_inode fs) data) as Hfile. cbn zeta.
  set (fs3 := sync_inode _ _) in *.
  assert (Forall (λ v, v = fs ∨ staged fs v path temporary (next_inode fs))
            [create_file temporary fs; write_inode (next_inode fs) data (create_file temporary fs); fs3])
    as Hvs by (repeat (apply Forall_cons; split; [by right|]); constructor).
  destruct (st_gate f fs3); [apply Hstop; [done|by do 3 right; left]|].
  destruct (st_rename f); [apply Hstop; [done|by do 3 right; left]|].
  pose proof (replaced_rename _ _ _ _ _ _ H3 Hfile) as [R1 R2 _ _].
  destruct (st_sync_dir f) as [e|]; (split_and!; [|cbn; rewrite !elem_of_cons; auto 10|right; cbn [final];
    unfold read_file; cbn [dir inodes sync_name]; by rewrite R1, R2]).
  - exact (proj1 (write_ok_replace path temporary data fs _ fs3 (next_inode fs) _ Hw Hu Hvs H3 Hfile)).
  - exact (proj2 (write_ok_replace path temporary data fs _ fs3 (next_inode fs) EmptyString Hw Hu Hvs H3 Hfile)).
Qed.

(** The protocol in the frame of [with_cleanup]. *)
Lemma replace_cleanup_ok f keep_old keep_failed path temporary data fs :
  fs_wf fs → temporary ≠ path →
  let r := with_cleanup keep_old keep_failed temporary (replace_protocol f path temporary data) fs in
  write_ok path data fs r ∧ (read_file (final r) path = read_file fs path ∨ read_file (final r) path = Some data).
Proof.
  intros Hw Hne r. split.
  - apply write_ok_cleanup; [done|done|]. intros fs0 Hw0.
    destruct (replace_protocol_ok f path temporary data fs0 Hw0 Hne) as (? & ? & _). done.
  - subst r. unfold with_cleanup. set (fs0 := if keep_old then _ else _).
    destruct (remove_maybe keep_old temporary path fs fs0 Hne Hw eq_refl) as [Hw0 _].
    assert (read_file fs0 path = read_file fs path) as E by (subst fs0; destruct keep_old; [done|by apply remove_read]).
    destruct (replace_protocol_ok f path temporary data fs0 Hw0 Hne) as (_ & _ & Hl). rewrite E in Hl.
    destruct (outcome _); cbn [final]; [done|]. destruct keep_failed; [done|]. by rewrite remove_read.
Qed.

(** A run in which only the names [l] and new files change. *)
Definition run_framed (l : list string) (fs : Fs) (r : Run) : Prop :=
  Forall (framed l fs) (visited r) ∧ framed l fs (final r).

Lemma run_framed_refused l fs e : run_framed l fs (refused fs e).
Proof. split; [constructor; [apply framed_refl|constructor]|apply framed_refl]. Qed.

Lemma run_framed_weaken l l' fs r : l ⊆ l' → run_framed l fs r → run_framed l' fs r.
Proof.
  intros Hl [H1 H2]. split; [|by eapply framed_weaken].
  eapply Forall_impl; [exact H1|]. intros x. by apply framed_weaken.
Qed.

Lemma run_framed_then l fs r k :
  run_framed l fs r → (outcome r = Ok tt → run_framed l (final r) (k (final r))) →
  run_framed l fs (then_run r k).
Proof.
  intros [H1 H2] Hk. unfold then_run. destruct (outcome r) as [[]|]; [|done].
  destruct (Hk eq_refl) as [K1 K2]. split; cbn; [|by eapply framed_trans].
  apply Forall_app. split; [done|]. eapply Forall_impl; [exact K1|]. intros x. by apply framed_trans.
Qed.

Lemma run_framed_cleanup l keep_old keep_failed temporary k fs :
  temporary ∈ l → (∀ fs0, run_framed l fs0 (k fs0)) →
  run_framed l fs (with_cleanup keep_old keep_failed temporary k fs).
Proof.
  intros Ht Hk. unfold with_cleanup. set (fs0 := if keep_old then _ else _).
  assert (framed l fs fs0) as H0.
  { subst fs0. destruct keep_old; [apply framed_refl|by apply framed_remove]. }
  destruct (Hk fs0) as [K1 K2].
  assert (Forall (framed l fs) (fs :: fs0 :: visited (k fs0))) as Hv.
  { constructor; [apply framed_refl|]. constructor; [done|].
    eapply Forall_impl; [exact K1|]. intros x. by apply framed_trans. }
  pose proof (framed_trans _ _ _ _ H0 K2) as Hf.
  destruct (outcome (k fs0)); [done|].
  set (fs' := if keep_failed then _ else _).
  assert (framed l fs fs') as Hf'.
  { subst fs'. destruct keep_failed; [done|]. eapply framed_trans; [exact Hf|by apply framed_remove]. }
  split; cbn; [|done]. rewrite app_comm_cons, app_comm_cons. apply Forall_app.
  split; [done|by constructor].
Qed.

Lemma replace_protocol_framed f path temporary data fs :
  run_framed [path; temporary] fs (replace_protocol f path temporary data fs).
Proof.
  set (l := [path; temporary]). assert (path ∈ l ∧ temporary ∈ l) as [Hp Ht] by set_solver.
  assert (∀ vs fs' o, Forall (framed l fs) vs → framed l fs fs' →
    run_framed l fs {| visited := vs; final := fs'; outcome := o |}) as Hstop by done.
  unfold replace_protocol. destruct (st_create f); [by apply Hstop; [|apply framed_refl]|].
  destruct (dir fs !! temporary); [by apply Hstop; [|apply framed_refl]|].
  assert (framed l fs (create_file temporary fs)) as H1 by (by apply framed_create).
  destruct (st_write f) as [[partial e]|].
  { assert (framed l fs (write_inode (next_inode fs) partial (create_file temporary fs))) by (by apply framed_write).
    apply Hstop; [cbn [app]; by rewrite !Forall_cons|done]. }
  assert (framed l fs (write_inode (next_inode fs) data (create_file temporary fs))) as H2 by (by apply framed_write).
  destruct (st_sync f); [apply Hstop; [cbn [app]; by rewrite !Forall_cons|done]|].
  assert (framed l fs (sync_inode (next_inode fs) (write_inode (next_inode fs) data (create_file temporary fs)))) as H3
    by (by apply framed_sync). cbn zeta. set (fs3 := sync_inode _ _) in *.
  destruct (st_gate f fs3); [apply Hstop; [cbn [app]; by rewrite !Forall_cons|done]|].
  destruct (st_rename f); [apply Hstop; [cbn [app]; by rewrite !Forall_cons|done]|].
  assert (framed l fs (rename_file temporary path fs3)) as H4 by (eapply framed_trans; [exact H3|by apply framed_rename]).
  destruct (st_sync_dir f); [apply Hstop; [cbn [app]; by rewrite !Forall_cons|done]|].
  assert (framed l fs (sync_name path (sync_name temporary (rename_file temporary path fs3)))) as H5
    by (do 2 (eapply framed_trans; [|by apply framed_sync_name]); done).
  apply Hstop; [cbn [app]; by rewrite !Forall_cons|done].
Qed.

(** ** Atomic updates in a sequence of steps *)

(** What [obs] shows of a crash at any moment of the run was possible before it
    or is [new]; after success it is [new]. *)
Definition atomic_to {X} (obs : Fs → X → Prop) (new : X) (fs : Fs) (r : Run) : Prop :=
  (∀ v x, v ∈ visited r → obs v x → obs fs x ∨ x = new) ∧
  (outcome r = Ok tt → ∀ x, obs (final r) x → x = new).

(** Steps that only touch [l] do not change what [obs] shows. *)
Definition unaffected {X} (obs : Fs → X → Prop) (l : list string) : Prop :=
  ∀ a b x, fs_wf a → framed l a b → obs b x → obs a x.

Lemma crash_read_unaffected p l : p ∉ l → unaffected (λ v, crash_read v p) l.
Proof. intros Hp a b x Hw Hf. by apply (framed_crash l). Qed.

Lemma crash_entry_unaffected p l : p ∉ l → unaffected (λ v, crash_entry v p) l.
Proof. intros Hp a b x Hw Hf. by apply (framed_entry l). Qed.

Lemma write_ok_atomic path bytes fs r :
  write_ok path bytes fs r → atomic_to (λ v, crash_read v path) (Some bytes) fs r.
Proof. intros [_ Hc Ho]. split; [done|]. intros H. by apply Ho. Qed.

Lemma atomic_after {X} (obs : Fs → X → Prop) new l fs r k :
  unaffected obs l → fs_wf fs → run_framed l fs r →
  (outcome r = Ok tt → atomic_to obs new (final r) (k (final r))) →
  atomic_to obs new fs (then_run r k).
Proof.
  intros Hu Hw [H1 H2] Hk. rewrite Forall_forall in H1. unfold then_run.
  destruct (outcome r) as [[]|e] eqn:E.
  - destruct (Hk eq_refl) as [K1 K2]. split; cbn; [|done].
    intros v x [Hv|Hv]%elem_of_app Hx; [left; by apply (Hu fs v); auto|].
    destruct (K1 v x Hv Hx) as [?|?]; [left; by apply (Hu fs (final r))|auto].
  - split; [|by rewrite E]. intros v x Hv Hx. left. by apply (Hu fs v); auto.
Qed.

Lemma atomic_before {X} (obs : Fs → X → Prop) new l fs r k :
  unaffected obs l → atomic_to obs new fs r →
  (outcome r = Ok tt → fs_wf (final r) ∧ run_framed l (final r) (k (final r))) →
  atomic_to obs new fs (then_run r k).
Proof.
  intros Hu [H1 H2] Hk. unfold then_run. destruct (outcome r) as [[]|e] eqn:E.
  - destruct (Hk eq_refl) as (Hw & K1 & K2). rewrite Forall_forall in K1. split; cbn.
    + intros v x [Hv|Hv]%elem_of_app Hx; [by eapply H1|].
      right. apply H2; [done|]. by apply (Hu (final r) v); auto.
    + intros _ x Hx. apply H2; [done|]. by eapply (Hu (final r)).
  - split; [done|by rewrite E].
Qed.

Lemma then_run_wf r k :
  fs_wf (final r) → (fs_wf (final r) → fs_wf (final (k (final r)))) → fs_wf (final (then_run r k)).
Proof. intros Hr Hk. unfold then_run. destruct (outcome r); [|done]. by apply Hk. Qed.

(** A path below [d] starts with the same text. *)
Lemma join_path_base d : ∃ a, ∀ x, join_path d x = a +:+ "/" +:+ x.
Proof.
  unfold join_path. destruct (split_last "/" d) as [[a b]|] eqn:E; [|by exists d].
  apply split_last_Some in E as [-> Hb]. destruct (is_empty b) eqn:Eb; [|by exists (a +:+ String "/" b)].
  apply is_empty_true in Eb as ->. exists a. intros x. by rewrite append_assoc.
Qed.

Lemma components_join d x : components (join_path d x) = components d ++ components x.
Proof.
  unfold join_path. destruct (split_last "/" d) as [[a b]|] eqn:E; [|apply components_app].
  apply split_last_Some in E as [-> _]. destruct (is_empty b) eqn:Eb; [|by rewrite <-components_app].
  apply is_empty_true in Eb as ->. rewrite append_assoc. change (String "/" EmptyString +:+ x) with ("/" +:+ x).
  change (String "/" EmptyString) with ("/" +:+ EmptyString). by rewrite !components_app, app_nil_r.
Qed.

Lemma with_extension_below ext d name :
  contains_char "/" name = false →
  with_extension ext (d +:+ "/" +:+ name) = d +:+ "/" +:+ with_extension ext name.
Proof.
  intros Hn. unfold with_extension. rewrite (append_cons "/"), append_nil_l, split_last_app by done.
  assert (split_last "/" name = None) as ->.
  { destruct (split_last "/" name) as [[a b]|] eqn:E; [|done]. apply split_last_Some in E as [-> _].
    rewrite contains_char_app in Hn. cbn in Hn. by rewrite orb_true_r in Hn. }
  by rewrite append_nil_l, append_assoc.
Qed.

Example with_extension_ex :
  with_extension "json.tmp" "/boot/efi/.kyth-install-journal.json"
  = "/boot/efi/.kyth-install-journal.json.tmp"
  ∧ with_extension "json.tmp" "/tmp/.hidden" = "/tmp/.hidden.json.tmp"
  ∧ parent_dir "/boot/efi/x.json" = Some "/boot/efi" ∧ parent_dir "/x" = Some "/".
Proof. by vm_compute. Qed.

(** * Without atomic renames *)

(** The entry of [path] is settled, or the rename is over and the new file is
    what a live read finds. *)
Definition settled_or_new (path bytes : string) (fs : Fs) : Prop :=
  settled fs path ∨ read_file fs path = Some bytes.

Lemma staged_settled fs fs' path temporary i :
  settled fs path → staged fs fs' path temporary i → settled fs' path.
Proof. intros Hs [Hp Hd _ _ _ _ _]. unfold settled in *. by rewrite Hp, Hd. Qed.

Lemma remove_settled_or_new p path bytes fs :
  p ≠ path → settled_or_new path bytes fs → settled_or_new path bytes (remove_file p fs).
Proof.
  intros Hne. unfold remove_file. case_match; [done|]. unfold settled_or_new, settled, read_file. cbn.
  by rewrite lookup_delete_ne.
Qed.

Lemma sync_settled path temporary fs : settled (sync_name path (sync_name temporary fs)) path.
Proof. unfold settled. cbn. by rewrite lookup_partial_alter_eq. Qed.

(** The frame of [with_cleanup] keeps the property at every moment, and a
    settled success. *)
Lemma with_cleanup_settled keep_old keep_failed temporary k path bytes fs :
  temporary ≠ path → settled fs path →
  (∀ fs0, settled fs0 path →
     Forall (settled_or_new path bytes) (visited (k fs0)) ∧ settled_or_new path bytes (final (k fs0)) ∧
     (outcome (k fs0) = Ok tt → settled (final (k fs0)) path)) →
  let r := with_cleanup keep_old keep_failed temporary k fs in
  Forall (settled_or_new path bytes) (visited r) ∧ (outcome r = Ok tt → settled (final r) path).
Proof.
  intros Hne Hs Hk r. subst r. unfold with_cleanup. set (fs0 := if keep_old then _ else _).
  assert (settled fs0 path) as H0.
  { subst fs0. destruct keep_old; [done|]. unfold remove_file. case_match; [done|].
    unfold settled. cbn. by rewrite lookup_delete_ne. }
  destruct (Hk fs0 H0) as (Hv & Hf & Ho). destruct (outcome (k fs0)) as [[]|e]; cbn [visited final outcome].
  - split; [|done]. repeat (apply Forall_cons; split; [by left|]). done.
  - split; [|done]. repeat (apply Forall_cons; split; [by left|]). apply Forall_app. split; [done|].
    apply Forall_singleton. destruct keep_failed; [done|by apply remove_settled_or_new].
Qed.
