(* ===== verification/InstallerPlan.v ===== *)
(** Request normalisation: [installer_plan.rs].

    The daemon turns the frontend's request into an [InstallerPlan] before any
    disk is touched.  The file models the device-path gate every destructive
    target passes through, the Flatpak allowlist and [build_plan], and proves
    that exactly the well-formed requests are accepted. *)

From S2P Require Import Prelude RustStr.

Definition MIN_KYTHOS_GIB : Z := 32.
Definition BYTES_PER_GIB : Z := 1024 * 1024 * 1024.

Record InstallerPlanInput := {
  in_disk : string;
  in_install_mode : string;
  in_target_partition : string;
  in_resize_partition : string;
  in_resize_gib : Z;            (* i64 *)
  in_free_region_start : Z;     (* i64 *)
  in_free_region_end : Z;       (* i64 *)
  in_target_disk_serial : option string;
  in_target_disk_model : option string;
  in_target_disk_size_bytes : option Z;
  in_flatpaks : list string;
}.

Record InstallerPlan := {
  pl_mode : string;
  pl_disk : string;
  pl_target_partition : option string;
  pl_resize_partition : option string;
  pl_resize_bytes : Z;
  pl_free_region_start : option Z;
  pl_free_region_end : option Z;
  pl_pre_shrink_bytes : option Z;
  pl_target_disk_serial : option string;
  pl_target_disk_model : option string;
  pl_target_disk_size_bytes : option Z;
  pl_flatpaks : list string;
}.

Definition ALLOWED_FLATPAKS : list string := [
  "com.valvesoftware.Steam";
  "com.heroicgameslauncher.hgl";
  "com.discordapp.Discord";
  "org.prismlauncher.PrismLauncher";
  "com.visualstudio.code";
  "io.dbeaver.DBeaverCommunity";
  "io.podman_desktop.PodmanDesktop";
  "org.gimp.GIMP";
  "org.kde.kdenlive";
  "org.blender.Blender";
  "org.audacityteam.Audacity";
  "org.libreoffice.LibreOffice";
  "org.mozilla.firefox";
  "org.mozilla.Thunderbird";
  "org.videolan.VLC";
  "com.spotify.Client";
  "org.telegram.desktop";
  "com.slack.Slack";
  "us.zoom.Zoom";
  "org.keepassxc.KeePassXC";
  "org.gnome.Calculator";
  "org.gnome.TextEditor";
  "io.github.zen_browser.zen";
  "com.github.tchx84.Flatseal";
  "org.flameshot.Flameshot";
  "com.obsproject.Studio";
  "org.inkscape.Inkscape"
].

(** The loop of [validate_flatpaks], over the set [seen] and the output so far. *)
Fixpoint validate_flatpaks_loop (seen : gset string) (valid : list string)
    (ids : list string) : result (list string) :=
  match ids with
  | [] => Ok valid
  | id :: ids =>
      guard! negb (str_in id ALLOWED_FLATPAKS) else ("Unsupported Flatpak app: " +:+ id);
      if decide (id ∈ seen) then validate_flatpaks_loop seen valid ids
      else validate_flatpaks_loop ({[id]} ∪ seen) (valid ++ [id]) ids
  end.

Definition validate_flatpaks (ids : list string) : result (list string) :=
  guard! 64 <? Z.of_nat (length ids) else "too many Flatpak apps requested";
  validate_flatpaks_loop ∅ [] ids.

(** The bytes a device path may hold. *)
Definition device_byte (c : ascii) : bool :=
  is_ascii_alphanumeric c || byte_among "._/+:-" c.

Definition normalize_device_path (raw : string) : option string :=
  let value := trim raw in
  if is_empty value then None
  else
    match
      (if starts_with "/dev/" value then Some value
       else if contains_char "/" value then None
       else Some ("/dev/" +:+ value))
    with
    | None => None
    | Some value =>
        let basename := unwrap_or (strip_prefix "/dev/" value) EmptyString in
        if is_empty basename
           || contains_char "/" basename
           || (4096 <? slen value)
           || contains_str ".." value
           || negb (str_all device_byte value)
        then None
        else Some value
    end.

#[global] Arguments normalize_device_path : simpl never.

Definition required_device (raw message : string) : result string :=
  ok_or (normalize_device_path raw) message.

Definition supported_modes : list string :=
  ["wipe"; "resize_ntfs"; "alongside"; "free_space"; "manual"].

Definition min_gib_text : string := show_int MIN_KYTHOS_GIB.

(** The partition a [resize_ntfs] request names: [resize_partition], or
    [target_partition] when that is blank. *)
Definition resize_source (input : InstallerPlanInput) : string :=
  if is_empty (trim (in_resize_partition input)) then in_target_partition input
  else in_resize_partition input.

Definition plan_target_partition (mode : string) (input : InstallerPlanInput)
    : result (option string) :=
  if String.eqb mode "alongside" then
    let? p := required_device (in_target_partition input)
                "No target partition was selected for alongside installation." in
    Ok (Some p)
  else if String.eqb mode "manual" then Ok (normalize_device_path (in_target_partition input))
  else Ok None.

Definition plan_resize (mode : string) (input : InstallerPlanInput)
    : result (option string * Z) :=
  if String.eqb mode "resize_ntfs" then
    guard! in_resize_gib input <? MIN_KYTHOS_GIB
      else ("NTFS shrink install requires at least " +:+ min_gib_text +:+ " GiB for KythOS.");
    let? p := required_device (resize_source input) "No NTFS partition was selected to shrink." in
    let? b := ok_or (checked_mul64 (wrap64 (in_resize_gib input)) BYTES_PER_GIB)
                "Requested install size is too large to represent." in
    Ok (Some p, b)
  else Ok (None, 0).

Definition plan_free_region (mode : string) (input : InstallerPlanInput)
    : result (option Z * option Z) :=
  if String.eqb mode "free_space" then
    guard! (in_free_region_start input <? 0)
           || (in_free_region_end input <=? in_free_region_start input)
      else "No free space region was selected for installation.";
    let start := wrap64 (in_free_region_start input) in
    let end_ := wrap64 (in_free_region_end input) in
    guard! end_ - start <? MIN_KYTHOS_GIB * BYTES_PER_GIB
      else ("Free space install requires at least " +:+ min_gib_text +:+ " GiB for KythOS.");
    Ok (Some start, Some end_)
  else Ok (None, None).

Definition build_plan (input : InstallerPlanInput) : result InstallerPlan :=
  let mode := to_ascii_lowercase (trim (in_install_mode input)) in
  guard! is_empty mode else "No install mode was selected.";
  guard! negb (str_in mode supported_modes) else ("Unsupported install mode: " +:+ mode);
  let? disk := required_device (in_disk input) "No target disk was selected." in
  let? target_partition := plan_target_partition mode input in
  let? resize := plan_resize mode input in
  let? region := plan_free_region mode input in
  let? flatpaks := validate_flatpaks (in_flatpaks input) in
  Ok {|
    pl_mode := mode;
    pl_disk := disk;
    pl_target_partition := target_partition;
    pl_resize_partition := fst resize;
    pl_resize_bytes := snd resize;
    pl_free_region_start := fst region;
    pl_free_region_end := snd region;
    pl_pre_shrink_bytes := None;
    pl_target_disk_serial := in_target_disk_serial input;
    pl_target_disk_model := in_target_disk_model input;
    pl_target_disk_size_bytes := in_target_disk_size_bytes input;
    pl_flatpaks := flatpaks;
  |}.

(** * Device paths *)

(** What a normalised path is: one component below [/dev], in safe bytes. *)
Definition device_path (v : string) : Prop :=
  ∃ b, v = "/dev/" +:+ b ∧ b ≠ EmptyString ∧ contains_char "/" b = false ∧
       contains_str ".." v = false ∧ str_all device_byte v = true ∧ slen v <= 4096.

Lemma device_byte_not_ws :
  Forall (λ p, str_all device_byte p = false) whitespace ∧
  Forall (λ p, str_all device_byte p = false) (srev <$> whitespace).
Proof. split; repeat (constructor; [done|]); constructor. Qed.

Lemma device_path_trim v : str_all device_byte v = true → trim v = v.
Proof. apply trim_str_all; apply device_byte_not_ws. Qed.

Lemma normalize_device_path_sound raw v :
  normalize_device_path raw = Some v → device_path v.
Proof.
  unfold normalize_device_path. destruct (is_empty (trim raw)); [done|].
  destruct (if starts_with _ _ then _ else _) as [w|] eqn:Hw; [|done].
  assert (∃ b, w = "/dev/" +:+ b) as [b ->].
  { destruct (starts_with "/dev/" (trim raw)) eqn:E; [|destruct (contains_char _ _)];
      simplify_eq; [|eauto].
    by apply starts_with_true in E. }
  rewrite strip_prefix_append. cbn [unwrap_or].
  destruct (_ || _) eqn:E; [done|]. intros [= <-].
  repeat (apply orb_false_iff in E as [E ?]). bool_inv.
  exists b. split; [done|]. rewrite is_empty_false in E. auto.
Qed.

Lemma normalize_device_path_complete v :
  device_path v → normalize_device_path v = Some v.
Proof.
  intros (b & -> & Hb & Hslash & Hdots & Hall & Hlen).
  unfold normalize_device_path. rewrite device_path_trim by done.
  change (is_empty ("/dev/" +:+ b)) with false. cbn iota.
  rewrite starts_with_app, strip_prefix_append. cbn [unwrap_or].
  apply is_empty_false in Hb. rewrite Hb, Hslash, Hdots, Hall.
  destruct (Z.ltb_spec 4096 (slen ("/dev/" +:+ b))); [lia|done].
Qed.

(** The paths the gate accepts unchanged are exactly the device paths, so the
    gate is idempotent and its result stays accepted at every later stage. *)
Lemma normalize_device_path_idemp raw v :
  normalize_device_path raw = Some v → normalize_device_path v = Some v.
Proof. intros H. by eapply normalize_device_path_complete, normalize_device_path_sound. Qed.

#[export] Hint Resolve normalize_device_path_sound normalize_device_path_complete : kyth.

(** * Flatpaks *)

(** The first occurrence of every identifier, in request order. *)
Fixpoint first_occurrences (seen : gset string) (l : list string) : list string :=
  match l with
  | [] => []
  | x :: l => if decide (x ∈ seen) then first_occurrences seen l
              else x :: first_occurrences ({[x]} ∪ seen) l
  end.

Lemma validate_flatpaks_loop_Ok seen valid ids out :
  validate_flatpaks_loop seen valid ids = Ok out ↔
  Forall (λ i, i ∈ ALLOWED_FLATPAKS) ids ∧ out = valid ++ first_occurrences seen ids.
Proof.
  revert seen valid. induction ids as [|i ids IH]; intros seen valid; cbn [validate_flatpaks_loop].
  - cbn. rewrite app_nil_r. split; [intros [= ->]; auto|intros [_ ->]; auto].
  - rewrite Forall_cons, <-(str_in_true i). destruct (str_in i _); cbn [negb first_occurrences].
    + destruct (decide (i ∈ seen)); rewrite IH, <-?app_assoc; cbn; intuition.
    + split; [done|]. intros [[? _] _]. done.
Qed.

Lemma elem_of_first_occurrences seen l x :
  x ∈ first_occurrences seen l ↔ x ∈ l ∧ x ∉ seen.
Proof.
  revert seen. induction l as [|y l IH]; intros seen; cbn; [set_solver|].
  case_decide; rewrite ?elem_of_cons, IH; [set_solver|].
  destruct (decide (x = y)); set_solver.
Qed.

Lemma first_occurrences_NoDup seen l : NoDup (first_occurrences seen l).
Proof.
  revert seen. induction l as [|y l IH]; intros seen; cbn; [constructor|].
  case_decide; [done|]. constructor; [|done]. rewrite elem_of_first_occurrences. set_solver.
Qed.

Lemma flatpaks_facts ids out :
  validate_flatpaks ids = Ok out →
  NoDup out ∧ ∀ x, x ∈ out → x ∈ ALLOWED_FLATPAKS.
Proof.
  unfold validate_flatpaks. intros H. res_inv.
  apply validate_flatpaks_loop_Ok in H as [Hall ->]. rewrite app_nil_l.
  rewrite Forall_forall in Hall. split; [apply first_occurrences_NoDup|].
  intros x. rewrite elem_of_first_occurrences. set_solver.
Qed.

(** An accepted selection is duplicate free, holds exactly the requested
    identifiers and only allowlisted ones, and the bound of 64 entries was
    respected. *)
Theorem validate_flatpaks_spec ids out :
  validate_flatpaks ids = Ok out →
  NoDup out ∧ (∀ x, x ∈ out ↔ x ∈ ids) ∧ (∀ x, x ∈ out → x ∈ ALLOWED_FLATPAKS) ∧
  Z.of_nat (length ids) <= 64.
Proof.
  unfold validate_flatpaks. intros H. res_inv. bool_inv.
  apply validate_flatpaks_loop_Ok in H as [Hall ->]. rewrite app_nil_l.
  rewrite Forall_forall in Hall.
  split_and!; [apply first_occurrences_NoDup| | |done]; intros x;
    rewrite elem_of_first_occurrences; set_solver.
Qed.

(** * Plans *)

(** The integer fields of a decoded request are [i64] values. *)
Definition is_i64 (x : Z) : Prop := - 2 ^ 63 <= x < 2 ^ 63.
Definition input_wf (i : InstallerPlanInput) : Prop :=
  is_i64 (in_resize_gib i) ∧ is_i64 (in_free_region_start i) ∧ is_i64 (in_free_region_end i).

Definition mode_of (i : InstallerPlanInput) : string :=
  to_ascii_lowercase (trim (in_install_mode i)).

Definition min_bytes : Z := MIN_KYTHOS_GIB * BYTES_PER_GIB.

(** The requests an installation may start from. *)
Record request_valid (i : InstallerPlanInput) : Prop := {
  rv_mode : mode_of i ∈ supported_modes;
  rv_disk : is_Some (normalize_device_path (in_disk i));
  rv_alongside : mode_of i = "alongside" → is_Some (normalize_device_path (in_target_partition i));
  rv_resize : mode_of i = "resize_ntfs" →
    MIN_KYTHOS_GIB <= in_resize_gib i ∧ in_resize_gib i * BYTES_PER_GIB <= u64_max ∧
    is_Some (normalize_device_path (resize_source i));
  rv_region : mode_of i = "free_space" →
    0 <= in_free_region_start i ∧
    in_free_region_start i + min_bytes <= in_free_region_end i;
  rv_flatpaks : Z.of_nat (length (in_flatpaks i)) <= 64 ∧
    Forall (λ x, x ∈ ALLOWED_FLATPAKS) (in_flatpaks i);
}.

(** What the storage phases may rely on in a plan. *)
Record plan_wf (i : InstallerPlanInput) (p : InstallerPlan) : Prop := {
  pw_mode : pl_mode p = mode_of i ∧ pl_mode p ∈ supported_modes;
  pw_disk : device_path (pl_disk p);
  pw_target : (pl_mode p = "alongside" → is_Some (pl_target_partition p)) ∧
    (∀ t, pl_target_partition p = Some t →
      device_path t ∧ pl_mode p ∈ ["alongside"; "manual"]);
  pw_resize :
    if String.eqb (pl_mode p) "resize_ntfs" then
      (∃ r, pl_resize_partition p = Some r ∧ device_path r) ∧
      pl_resize_bytes p = in_resize_gib i * BYTES_PER_GIB ∧
      min_bytes <= pl_resize_bytes p <= u64_max
    else pl_resize_partition p = None ∧ pl_resize_bytes p = 0;
  pw_region :
    if String.eqb (pl_mode p) "free_space" then
      pl_free_region_start p = Some (in_free_region_start i) ∧
      pl_free_region_end p = Some (in_free_region_end i) ∧
      0 <= in_free_region_start i ∧
      min_bytes <= in_free_region_end i - in_free_region_start i
    else pl_free_region_start p = None ∧ pl_free_region_end p = None;
  pw_flatpaks : NoDup (pl_flatpaks p) ∧ ∀ x, x ∈ pl_flatpaks p → x ∈ ALLOWED_FLATPAKS;
}.

Lemma plan_target_partition_Ok mode i t :
  plan_target_partition mode i = Ok t ↔
  (mode = "alongside" ∧ is_Some t ∧ t = normalize_device_path (in_target_partition i)) ∨
  (mode = "manual" ∧ t = normalize_device_path (in_target_partition i)) ∨
  (mode ≠ "alongside" ∧ mode ≠ "manual" ∧ t = None).
Proof.
  unfold plan_target_partition, required_device.
  destruct (String.eqb_spec mode "alongside") as [->|?];
    [|destruct (String.eqb_spec mode "manual") as [->|?]].
  - split.
    + intros H. res_inv. left. split_and!; eauto.
    + intros [(_ & [p Hp] & He)|[[? _]|[? _]]]; [|done..]. rewrite <-He, Hp. done.
  - naive_solver.
  - naive_solver.
Qed.

Lemma plan_resize_Ok mode i r :
  is_i64 (in_resize_gib i) →
  plan_resize mode i = Ok r ↔
  (mode = "resize_ntfs" ∧ MIN_KYTHOS_GIB <= in_resize_gib i ∧
     in_resize_gib i * BYTES_PER_GIB <= u64_max ∧
     ∃ p, normalize_device_path (resize_source i) = Some p ∧
          r = (Some p, in_resize_gib i * BYTES_PER_GIB)) ∨
  (mode ≠ "resize_ntfs" ∧ r = (None, 0)).
Proof.
  intros Hi. unfold plan_resize, required_device, is_i64 in *.
  destruct (String.eqb_spec mode "resize_ntfs") as [->|?]; [|naive_solver].
  destruct (Z.ltb_spec (in_resize_gib i) MIN_KYTHOS_GIB) as [Hlt|Hge].
  { split; [done|]. intros [(_ & ? & _)|[? _]]; [lia|done]. }
  assert (wrap64 (in_resize_gib i) = in_resize_gib i) as ->.
  { apply wrap64_small. unfold is_u64, u64_max, MIN_KYTHOS_GIB in *. lia. }
  split.
  - intros H. res_inv. apply checked_mul64_Some in H1 as [-> ?]. left. eauto 10.
  - intros [(_ & _ & Hle & p & Hp & ->)|[? _]]; [|done]. rewrite Hp. cbn.
    unfold checked_mul64. apply Z.leb_le in Hle. by rewrite Hle.
Qed.

Lemma plan_free_region_Ok mode i r :
  is_i64 (in_free_region_start i) → is_i64 (in_free_region_end i) →
  plan_free_region mode i = Ok r ↔
  (mode = "free_space" ∧ 0 <= in_free_region_start i ∧
     in_free_region_start i + min_bytes <= in_free_region_end i ∧
     r = (Some (in_free_region_start i), Some (in_free_region_end i))) ∨
  (mode ≠ "free_space" ∧ r = (None, None)).
Proof.
  intros Hs He. unfold plan_free_region, is_i64, min_bytes in *.
  destruct (String.eqb_spec mode "free_space") as [->|?]; [|naive_solver].
  destruct (Z.ltb_spec (in_free_region_start i) 0) as [Hlt|Hge]; cbn [orb].
  { split; [done|]. intros [(_ & ? & _)|[? _]]; [lia|done]. }
  assert (0 < MIN_KYTHOS_GIB * BYTES_PER_GIB) by done.
  destruct (Z.leb_spec (in_free_region_end i) (in_free_region_start i)).
  { split; [done|]. intros [(_ & ? & ? & _)|[? _]]; [lia|done]. }
  rewrite !wrap64_small by (unfold is_u64, u64_max; lia).
  destruct (Z.ltb_spec (in_free_region_end i - in_free_region_start i)
              (MIN_KYTHOS_GIB * BYTES_PER_GIB)).
  { split; [done|]. intros [(_ & ? & ? & _)|[? _]]; [lia|done]. }
  split; [intros [= <-]; left; split_and!; auto; lia|].
  intros [(_ & _ & _ & ->)|[? _]]; done.
Qed.

(** The stages of [build_plan], each with what it established. *)
Lemma build_plan_inv i p :
  build_plan i = Ok p →
  ∃ t r f, mode_of i ∈ supported_modes ∧
    normalize_device_path (in_disk i) = Some (pl_disk p) ∧
    plan_target_partition (mode_of i) i = Ok t ∧
    plan_resize (mode_of i) i = Ok r ∧
    plan_free_region (mode_of i) i = Ok f ∧
    validate_flatpaks (in_flatpaks i) = Ok (pl_flatpaks p) ∧
    pl_mode p = mode_of i ∧ pl_target_partition p = t ∧
    pl_resize_partition p = fst r ∧ pl_resize_bytes p = snd r ∧
    pl_free_region_start p = fst f ∧ pl_free_region_end p = snd f.
Proof.
  unfold build_plan, required_device. fold (mode_of i). intros H. res_inv. bool_inv.
  do 3 eexists. split_and!; try done. by apply str_in_true.
Qed.

Lemma build_plan_Ok i d t r f l :
  mode_of i ∈ supported_modes → normalize_device_path (in_disk i) = Some d →
  plan_target_partition (mode_of i) i = Ok t → plan_resize (mode_of i) i = Ok r →
  plan_free_region (mode_of i) i = Ok f → validate_flatpaks (in_flatpaks i) = Ok l →
  is_ok (build_plan i) = true.
Proof.
  intros Hm Hd Ht Hr Hf Hl. unfold build_plan, required_device. fold (mode_of i).
  assert (is_empty (mode_of i) = false) as ->.
  { apply is_empty_false. intros E. rewrite E in Hm. set_solver. }
  apply str_in_true in Hm. rewrite Hm, Hd. cbn [negb ok_or rbind].
  by rewrite Ht, Hr, Hf, Hl.
Qed.

(** C27: planning accepts exactly the well-formed requests.  In particular a
    blank or unknown mode is refused instead of defaulting to a disk wipe, and
    a shrink size whose byte count leaves [u64] is refused instead of wrapping. *)
Theorem build_plan_accepts i :
  input_wf i → (is_ok (build_plan i) = true ↔ request_valid i).
Proof.
  intros (Hg & Hs & He). split.
  - rewrite is_ok_spec. intros [p (t & r & f & Hm & Hd & Ht & Hr & Hf & Hl & _)%build_plan_inv].
    apply plan_target_partition_Ok in Ht. apply plan_resize_Ok in Hr; [|done].
    apply plan_free_region_Ok in Hf; [|done..].
    unfold validate_flatpaks in Hl. res_inv. apply validate_flatpaks_loop_Ok in Hl as [? _].
    bool_inv. split; [done|eauto|..|auto]; intros E.
    + destruct Ht as [(_ & Ht & ->)|[[? _]|[? _]]]; congruence.
    + destruct Hr as [(_ & ? & ? & q & ? & _)|[? _]]; [eauto|congruence].
    + destruct Hf as [(_ & ? & ? & _)|[? _]]; [eauto|congruence].
  - intros [Hm [d Hd] Ha Hr Hf [Hn Hall]].
    assert (∃ t, plan_target_partition (mode_of i) i = Ok t) as [t Ht].
    { setoid_rewrite plan_target_partition_Ok.
      destruct (decide (mode_of i = "alongside")) as [E|]; [eauto 10|].
      destruct (decide (mode_of i = "manual")) as [E|]; eauto 10. }
    assert (∃ t, plan_resize (mode_of i) i = Ok t) as [r Hr'].
    { setoid_rewrite plan_resize_Ok; [|done].
      destruct (decide (mode_of i = "resize_ntfs")) as [E|]; [|eauto 10].
      destruct (Hr E) as (? & ? & [q Hq]). eauto 10. }
    assert (∃ t, plan_free_region (mode_of i) i = Ok t) as [f Hf'].
    { setoid_rewrite plan_free_region_Ok; [|done..].
      destruct (decide (mode_of i = "free_space")) as [E|]; [|eauto 10].
      destruct (Hf E). eauto 10. }
    eapply build_plan_Ok; [done..|].
    unfold validate_flatpaks. destruct (Z.ltb_spec 64 (Z.of_nat (length (in_flatpaks i)))); [lia|].
    by apply validate_flatpaks_loop_Ok.
Qed.

(** Every plan handed to the storage phases is well formed: its device
    paths are safe single components below [/dev], its sizes are exact byte
    counts of at least 32 GiB within [u64], and fields of other modes are unset. *)
Theorem build_plan_sound i p : input_wf i → build_plan i = Ok p → plan_wf i p.
Proof.
  intros (Hg & Hs & He)
    (t & r & f & Hm & Hd & Ht & Hr & Hf & Hl & Em & Et & Er & Eb & Es & Ee)%build_plan_inv.
  apply plan_target_partition_Ok in Ht. apply plan_resize_Ok in Hr; [|done].
  apply plan_free_region_Ok in Hf; [|done..]. apply flatpaks_facts in Hl.
  split; rewrite ?Em; [auto|eauto with kyth| | | |done].
  - rewrite Et. destruct Ht as [(-> & ? & ->)|[(-> & ->)|(? & ? & ->)]];
      (split; [done|intros q Hq; split; [by eauto with kyth|set_solver]]).
  - destruct (String.eqb_spec (mode_of i) "resize_ntfs");
      destruct Hr as [(? & ? & ? & q & ? & ->)|[? ->]]; try done.
    cbn in *. unfold min_bytes, BYTES_PER_GIB in *.
    split_and!; [eauto with kyth|done|lia|lia].
  - destruct (String.eqb_spec (mode_of i) "free_space");
      destruct Hf as [(? & ? & ? & ->)|[? ->]]; try done.
    cbn in *. split_and!; [done..|lia].
Qed.

(** ** Witnesses *)

Definition sample_input : InstallerPlanInput := {|
  in_disk := " sda"; in_install_mode := "Resize_NTFS "; in_target_partition := "/dev/sda3";
  in_resize_partition := "  "; in_resize_gib := 40; in_free_region_start := 0;
  in_free_region_end := 0; in_target_disk_serial := None; in_target_disk_model := None;
  in_target_disk_size_bytes := None;
  in_flatpaks := ["org.gimp.GIMP"; "org.videolan.VLC"; "org.gimp.GIMP"] |}.

Definition sample_plan : InstallerPlan := {|
  pl_mode := "resize_ntfs"; pl_disk := "/dev/sda"; pl_target_partition := None;
  pl_resize_partition := Some "/dev/sda3"; pl_resize_bytes := 42949672960;
  pl_free_region_start := None; pl_free_region_end := None; pl_pre_shrink_bytes := None;
  pl_target_disk_serial := None; pl_target_disk_model := None;
  pl_target_disk_size_bytes := None; pl_flatpaks := ["org.gimp.GIMP"; "org.videolan.VLC"] |}.

Example sample_build : build_plan sample_input = Ok sample_plan.
Proof. vm_compute. reflexivity. Qed.

Lemma sample_wf : input_wf sample_input.
Proof. unfold input_wf, is_i64. cbn. lia. Qed.

Lemma build_plan_accepts_witness : request_valid sample_input.
Proof.
  apply (build_plan_accepts sample_input sample_wf). rewrite sample_build. reflexivity.
Defined.

Lemma build_plan_sound_witness : plan_wf sample_input sample_plan.
Proof. exact (build_plan_sound sample_input sample_plan sample_wf sample_build). Defined.

Lemma validate_flatpaks_witness : NoDup ["org.gimp.GIMP"; "org.videolan.VLC"].
Proof.
  apply (validate_flatpaks_spec ["org.gimp.GIMP"; "org.videolan.VLC"; "org.gimp.GIMP"]).
  vm_compute. reflexivity.
Defined.

(** Malformed requests fail closed. *)
Example blank_mode_refused i :
  in_install_mode i = "  " → build_plan i = Err "No install mode was selected.".
Proof. intros E. unfold build_plan. by rewrite E. Qed.

Example dev_itself_refused :
  normalize_device_path "/dev" = None ∧ normalize_device_path "/dev/" = None ∧
  normalize_device_path "/dev/../sda" = None ∧ normalize_device_path "/dev/mapper/x" = None ∧
  normalize_device_path "sda;id" = None.
Proof. by vm_compute. Qed.
