(* ===== verification/StorageModel.v ===== *)
(** Disk inventory: the data model and disk-level queries of
    [installer_storage.rs].

    The source works on [lsblk --json] and [findmnt --json] snapshots.  Their
    JSON decoding is serde's; here it is the operation of the classes
    [LsblkDecoder] and [FindmntDecoder], and everything the installer computes
    from a decoded snapshot is defined below: the mount table, device ancestry,
    the protected disks and the inventory of installable disks. *)

From S2P Require Import Prelude RustStr.

Definition EFI_PART_GUID : string := "c12a7328-f81f-11d2-ba4b-00a0c93ec93b".
Definition MIN_KYTHOS_BYTES : Z := 32 * 1024 * 1024 * 1024.
Definition NTFS_MIN_BYTES : Z := (64 + 32) * 1024 * 1024 * 1024.
Definition BIOS_BOOT_GUID : string := "21686148-6449-6e6f-744e-656564454649".
Definition GPT_RESERVE_BYTES : Z := 1024 * 1024.
Definition WINDOWS_DATA_GUID : string := "ebd0a0a2-b9e5-4433-87c0-68b6b72699c7".

(** * Snapshots *)

Record DeviceAttrs := {
  d_name : option string;
  d_partn : option Z;              (* u32 *)
  d_size : option Z;               (* u64 *)
  d_type : option string;
  d_pkname : option string;
  d_fstype : option string;
  d_parttype : option string;
  d_label : option string;
  d_model : option string;
  d_mountpoint : option string;
  d_mountpoints : option (list (option string));
  d_start : option Z;              (* u64 *)
  d_ro : option bool;
  d_rm : option bool;
  d_rota : option bool;
  d_tran : option string;
  d_pttype : option string;
  d_serial : option string;
  d_partuuid : option string;
}.

(** [LsblkDevice]: the attributes and the [children] field. *)
Inductive LsblkDevice :=
| Device (attrs : DeviceAttrs) (children : list LsblkDevice).

Definition attrs (d : LsblkDevice) : DeviceAttrs := match d with Device a _ => a end.
Definition children (d : LsblkDevice) : list LsblkDevice := match d with Device _ c => c end.

(** [LsblkSnapshot { blockdevices }] *)
Definition LsblkSnapshot : Type := list LsblkDevice.

(** serde's typed decoding of an lsblk document. *)
Class LsblkDecoder := { decode_lsblk : string → result LsblkSnapshot }.

Definition parse_snapshot `{LsblkDecoder} (input : string) : result LsblkSnapshot :=
  map_err (λ e, "invalid lsblk snapshot: " +:+ e) (decode_lsblk input).

(** The devices of a snapshot in the order a recursive walk visits them. *)
Fixpoint subtree (d : LsblkDevice) : list LsblkDevice :=
  match d with
  | Device _ cs => d :: flat_map subtree cs
  end.
Definition all_devices (s : LsblkSnapshot) : list LsblkDevice := flat_map subtree s.

(** * The mount table *)

Inductive FindmntEntry :=
| Mount (target source : string) (mounts : list FindmntEntry).

Class FindmntDecoder := { decode_findmnt : string → result (list FindmntEntry) }.

(** [MountTable { entries }]: (target, source) pairs. *)
Definition MountTable : Type := list (string * string).

Definition PROTECTED_MOUNT_TARGETS : list string :=
  ["/"; "/boot"; "/boot/efi"; "/sysroot"; "/run/initramfs/live"; "/run/initramfs/iso"].
Definition PROTECTED_MOUNT_SUBTREES : list string := ["/run/initramfs"; "/run/media"].

Fixpoint collect_mounts (e : FindmntEntry) (table : MountTable) : MountTable :=
  match e with
  | Mount target source cs =>
      let table := if starts_with "/dev/" source then table ++ [(target, source)] else table in
      fold_left (λ t c, collect_mounts c t) cs table
  end.

Definition parse_mounts `{FindmntDecoder} (output : string) : result MountTable :=
  let? tree := map_err (λ e, "could not parse findmnt output: " +:+ e) (decode_findmnt output) in
  Ok (fold_left (λ t e, collect_mounts e t) tree []).

Fixpoint sources_loop (matches : string → bool) (seen : gset string) (sources : list string)
    (entries : MountTable) : list string :=
  match entries with
  | [] => sources
  | (target, source) :: entries =>
      if matches target && bool_decide (source ∉ seen)
      then sources_loop matches ({[source]} ∪ seen) (sources ++ [source]) entries
      else sources_loop matches seen sources entries
  end.
Definition sources_matching (t : MountTable) (matches : string → bool) : list string :=
  sources_loop matches ∅ [] t.

Definition sources_at (t : MountTable) (target : string) : list string :=
  sources_matching t (λ candidate, String.eqb candidate target).

Definition sources_under (t : MountTable) (prefix : string) : list string :=
  sources_matching t (λ candidate,
    String.eqb candidate prefix || starts_with (prefix +:+ "/") candidate).

Definition protected_sources (t : MountTable) : list string :=
  flat_map (sources_at t) PROTECTED_MOUNT_TARGETS ++
  flat_map (sources_under t) PROTECTED_MOUNT_SUBTREES.

Definition current_source (t : MountTable) : option string := head (sources_at t "/").

(** * Device paths *)

(** The bytes of a device path; unlike the request gate this one also accepts
    the mapper paths lsblk reports. *)
Definition device_byte (c : ascii) : bool :=
  is_ascii_alphanumeric c || byte_among "._/+:-" c.

Definition valid_device_name (basename : string) : bool :=
  negb (is_empty basename) &&
  (negb (contains_char "/" basename) ||
   match strip_prefix "mapper/" basename with
   | Some mapper_name => negb (is_empty mapper_name) && negb (contains_char "/" mapper_name)
   | None => false
   end).

Definition normalize_device_path (raw : string) : option string :=
  let value := trim raw in
  if is_empty value then None
  else
    let value := if starts_with "/dev/" value then value else "/dev/" +:+ value in
    let basename := unwrap_or (strip_prefix "/dev/" value) EmptyString in
    if negb (starts_with "/dev/" value)
       || negb (valid_device_name basename)
       || contains_str ".." value
       || negb (str_all device_byte value)
    then None
    else Some value.

#[global] Arguments normalize_device_path : simpl never.

(** [entry.name.as_deref().and_then(normalize_device_path)] *)
Definition device_name (d : LsblkDevice) : option string :=
  match d_name (attrs d) with
  | Some n => normalize_device_path n
  | None => None
  end.

(** [device.device_type.as_deref() == Some(t)] *)
Definition has_type (t : string) (d : LsblkDevice) : bool :=
  match d_type (attrs d) with
  | Some ty => String.eqb ty t
  | None => false
  end.

(** The top-level disk entry of a snapshot with a given normalised name. *)
Definition is_disk_named (disk : string) (d : LsblkDevice) : bool :=
  match device_name d with
  | Some n => String.eqb n disk && has_type "disk" d
  | None => false
  end.

(** * Ancestry *)

(** One insertion of the walk of [device_ancestry]. *)
Definition ancestry_entry (m : gmap string (string * option string)) (d : LsblkDevice)
    : gmap string (string * option string) :=
  match device_name d with
  | Some name =>
      let parent := match d_pkname (attrs d) with
                    | Some p => normalize_device_path p
                    | None => None
                    end in
      <[name := (unwrap_or (d_type (attrs d)) EmptyString, parent)]> m
  | None => m
  end.

Fixpoint ancestry_walk (d : LsblkDevice) (m : gmap string (string * option string))
    : gmap string (string * option string) :=
  match d with
  | Device _ cs => fold_left (λ m c, ancestry_walk c m) cs (ancestry_entry m d)
  end.

Definition device_ancestry `{LsblkDecoder} (input : string)
    : result (gmap string (string * option string)) :=
  let? snapshot := parse_snapshot input in
  Ok (fold_left (λ m d, ancestry_walk d m) snapshot ∅).

(** The [while let] loop of [parent_disk_in_snapshot]; [None] when the fuel
    runs out, which [parent_loop_total] excludes. *)
Fixpoint parent_loop (devices : gmap string (string * option string)) (fuel : nat)
    (seen : gset string) (current : option string) : option (option string) :=
  match current with
  | None => Some None
  | Some device =>
      match fuel with
      | O => None
      | S fuel =>
          if decide (device ∈ seen) then Some None
          else match devices !! device with
               | None => Some None
               | Some (device_type, parent) =>
                   if String.eqb device_type "disk" then Some (Some device)
                   else parent_loop devices fuel ({[device]} ∪ seen) parent
               end
      end
  end.

Definition parent_disk (devices : gmap string (string * option string)) (source : string)
    : option string :=
  match parent_loop devices (S (size devices)) ∅ (normalize_device_path source) with
  | Some r => r
  | None => None
  end.

Definition parent_disk_in_snapshot `{LsblkDecoder} (input source : string)
    : result (option string) :=
  let? devices := device_ancestry input in
  Ok (parent_disk devices source).

(** * The inventory *)

Record DiskRecord := {
  dr_name : string;
  dr_size_bytes : Z;
  dr_model : string;
  dr_ssd : bool;
  dr_transport : string;
  dr_removable : bool;
  dr_partition_table : string;
  dr_current : bool;
}.

Definition disk_record (protected : list string) (current_disk : option string)
    (d : LsblkDevice) : option DiskRecord :=
  match device_name d with
  | None => None
  | Some name =>
      let a := attrs d in
      let size_bytes := unwrap_or (d_size a) 0 in
      if (size_bytes =? 0) || unwrap_or (d_ro a) false || str_in name protected then None
      else Some {|
        dr_name := name;
        dr_size_bytes := size_bytes;
        dr_model := trim (unwrap_or (d_model a) "Unknown drive");
        dr_ssd := negb (unwrap_or (d_rota a) false);
        dr_transport := unwrap_or (d_tran a) EmptyString;
        dr_removable := unwrap_or (d_rm a) false;
        dr_partition_table := to_ascii_lowercase (unwrap_or (d_pttype a) EmptyString);
        dr_current := match current_disk with Some c => String.eqb c name | None => false end;
      |}
  end.

Definition parse_disks `{LsblkDecoder} (input : string) (protected : list string)
    (current_disk : option string) : result (list DiskRecord) :=
  let? snapshot := parse_snapshot input in
  Ok (filter_map (disk_record protected current_disk) (filterb (has_type "disk") snapshot)).

(** The loop collecting the disks below the protected mount sources. *)
Fixpoint protected_disks `{LsblkDecoder} (ancestry : string) (sources : list string)
    (protected : gset string) : result (gset string) :=
  match sources with
  | [] => Ok protected
  | source :: sources =>
      let? disk := parent_disk_in_snapshot ancestry source in
      protected_disks ancestry sources
        (match disk with Some d => {[d]} ∪ protected | None => protected end)
  end.

Definition runtime_disks_from_snapshots `{LsblkDecoder} (disk_snapshot ancestry_snapshot : string)
    (protected_sources : list string) (current_source : option string) : result (list DiskRecord) :=
  let? protected := protected_disks ancestry_snapshot protected_sources ∅ in
  let? current_disk :=
    match current_source with
    | Some source => parent_disk_in_snapshot ancestry_snapshot source
    | None => Ok None
    end in
  parse_disks disk_snapshot (elements protected) current_disk.

(** * Disk identity *)

Record DiskIdentity := {
  id_serial : option string;
  id_model : option string;
  id_size_bytes : option Z;
}.

Definition verify_disk_identity_in_snapshot `{LsblkDecoder} (input disk : string)
    (expected : DiskIdentity) : result unit :=
  let? disk := ok_or (normalize_device_path disk) "disk identity query has an invalid disk" in
  let? snapshot := parse_snapshot input in
  let? device := ok_or (find_first (is_disk_named disk) snapshot)
                   "target disk was not present in disk identity probe" in
  let a := attrs device in
  guard! match id_serial expected with
         | Some expected_serial =>
             let actual := trim (unwrap_or (d_serial a) EmptyString) in
             is_empty actual || negb (eq_ignore_ascii_case actual (trim expected_serial))
         | None => false
         end
    else "target disk serial number does not match the selected disk; refusing to proceed";
  guard! match id_model expected with
         | Some expected_model =>
             let actual := trim (unwrap_or (d_model a) EmptyString) in
             is_empty actual || negb (String.eqb actual (trim expected_model))
         | None => false
         end
    else "target disk model does not match the selected disk; refusing to proceed";
  guard! match id_size_bytes expected with
         | Some expected_size => negb (unwrap_or (d_size a) 0 =? expected_size)
         | None => false
         end
    else "target disk size does not match the selected disk; refusing to proceed";
  Ok tt.

(** The closure [nonempty] of [read_disk_identity]. *)
Definition nonempty (value : option string) : option string :=
  match value with
  | Some v => if is_empty (trim v) then None else Some (trim v)
  | None => None
  end.

(** [read_disk_identity] and [verify_disk_identity] run the same lsblk probe;
    [probe disk] is the decoded standard output or the failure they report. *)
Section identity_probe.
Context `{LsblkDecoder} (probe : string → result string).

Definition verify_disk_identity (disk : string) (expected : DiskIdentity) : result unit :=
  let? disk := ok_or (normalize_device_path disk) "disk identity query has an invalid disk" in
  let? snapshot := probe disk in
  verify_disk_identity_in_snapshot snapshot disk expected.

Definition read_disk_identity (disk : string) : result DiskIdentity :=
  let? disk := ok_or (normalize_device_path disk) "disk identity query has an invalid disk" in
  let? snapshot := probe disk in
  let? parsed := parse_snapshot snapshot in
  let? device := ok_or (find_first (is_disk_named disk) parsed)
                   "target disk was not present in disk identity probe" in
  Ok {| id_serial := nonempty (d_serial (attrs device));
        id_model := nonempty (d_model (attrs device));
        id_size_bytes := d_size (attrs device) |}.
End identity_probe.

Definition disk_metadata `{LsblkDecoder} (input disk : string) : result (Z * bool) :=
  let? snapshot := parse_snapshot input in
  let? target := ok_or (normalize_device_path disk) "invalid disk path for storage query" in
  ok_or
    (find_map (λ d,
       if is_disk_named target d
       then Some (unwrap_or (d_size (attrs d)) 0,
                  eq_ignore_ascii_case (unwrap_or (d_pttype (attrs d)) EmptyString) "gpt")
       else None) snapshot)
    "storage query did not return the selected disk".

(** * Induction over snapshots *)

Section nested_induction.
Context (P : LsblkDevice → Prop) (Q : FindmntEntry → Prop).
Context (HP : ∀ a cs, Forall P cs → P (Device a cs)).
Context (HQ : ∀ t s cs, Forall Q cs → Q (Mount t s cs)).

Definition device_ind : ∀ d, P d :=
  fix go d := match d with
              | Device a cs => HP a cs
                  ((fix gos cs := match cs return Forall P cs with
                                  | [] => Forall_nil_2 P
                                  | c :: cs => Forall_cons_2 P c cs (go c) (gos cs)
                                  end) cs)
              end.

Definition mount_ind : ∀ e, Q e :=
  fix go e := match e with
              | Mount t s cs => HQ t s cs
                  ((fix gos cs := match cs return Forall Q cs with
                                  | [] => Forall_nil_2 Q
                                  | c :: cs => Forall_cons_2 Q c cs (go c) (gos cs)
                                  end) cs)
              end.
End nested_induction.

(** * Mount table lemmas *)

(** Every mount of a findmnt tree, block device or not. *)
Fixpoint mount_entries (e : FindmntEntry) : list (string * string) :=
  match e with
  | Mount target source cs => (target, source) :: flat_map mount_entries cs
  end.

Definition on_block_device (m : string * string) : bool := starts_with "/dev/" (snd m).

Lemma filterb_app {A} (f : A → bool) l k : filterb f (l ++ k) = filterb f l ++ filterb f k.
Proof. induction l as [|a l IH]; cbn; [done|]. case_match; cbn; by rewrite IH. Qed.

Lemma collect_mounts_list cs t :
  Forall (λ e, ∀ t, collect_mounts e t = t ++ filterb on_block_device (mount_entries e)) cs →
  fold_left (λ t c, collect_mounts c t) cs t =
  t ++ filterb on_block_device (flat_map mount_entries cs).
Proof.
  intros H. revert t. induction H as [|c cs Hc _ IH]; intros t; cbn; [by rewrite app_nil_r|].
  by rewrite IH, Hc, filterb_app, app_assoc.
Qed.

Lemma collect_mounts_eq e t :
  collect_mounts e t = t ++ filterb on_block_device (mount_entries e).
Proof.
  revert t. induction e as [target source cs IH] using mount_ind. intros t. cbn.
  rewrite collect_mounts_list by done. unfold on_block_device at 2. cbn.
  case_match; cbn; by rewrite <-?app_assoc.
Qed.

Lemma parse_mounts_Ok `{FindmntDecoder} output tree :
  decode_findmnt output = Ok tree →
  parse_mounts output = Ok (filterb on_block_device (flat_map mount_entries tree)).
Proof.
  intros E. unfold parse_mounts. rewrite E. cbn. f_equal.
  rewrite collect_mounts_list; [done|].
  apply Forall_forall. intros e _ t. apply collect_mounts_eq.
Qed.

Lemma elem_of_sources_loop ms seen out t s :
  s ∈ sources_loop ms seen out t ↔
  s ∈ out ∨ (s ∉ seen ∧ ∃ target, (target, s) ∈ t ∧ ms target = true).
Proof.
  revert seen out. induction t as [|[u v] t IH]; intros seen out; cbn [sources_loop].
  { set_solver. }
  setoid_rewrite elem_of_cons.
  destruct (ms u) eqn:Hu; cbn [andb]; [case_bool_decide|].
  all: rewrite IH, ?elem_of_app, ?list_elem_of_singleton, ?elem_of_union, ?elem_of_singleton.
  - destruct (decide (s = v)) as [->|]; naive_solver.
  - destruct (decide (s = v)) as [->|]; naive_solver.
  - naive_solver congruence.
Qed.

Lemma elem_of_sources_matching t ms s :
  s ∈ sources_matching t ms ↔ ∃ target, (target, s) ∈ t ∧ ms target = true.
Proof. unfold sources_matching. rewrite elem_of_sources_loop. set_solver. Qed.

(** The mount points whose backing devices must survive. *)
Definition protected_target (target : string) : Prop :=
  target ∈ PROTECTED_MOUNT_TARGETS ∨
  ∃ prefix, prefix ∈ PROTECTED_MOUNT_SUBTREES ∧
    (target = prefix ∨ ∃ rest, target = prefix +:+ "/" +:+ rest).

Lemma elem_of_flat_map {A B} (f : A → list B) l b :
  b ∈ flat_map f l ↔ ∃ a, a ∈ l ∧ b ∈ f a.
Proof.
  rewrite list_elem_of_In, in_flat_map. setoid_rewrite list_elem_of_In. done.
Qed.

Lemma elem_of_protected_sources t s :
  s ∈ protected_sources t ↔ ∃ target, (target, s) ∈ t ∧ protected_target target.
Proof.
  unfold protected_sources, protected_target. rewrite elem_of_app, !elem_of_flat_map.
  unfold sources_at, sources_under. setoid_rewrite elem_of_sources_matching.
  setoid_rewrite orb_true_iff. setoid_rewrite String.eqb_eq. setoid_rewrite starts_with_true.
  setoid_rewrite append_assoc. split.
  - intros [(p & Hp & target & Ht & ->)|(p & Hp & target & Ht & Hc)]; [eauto|].
    exists target. split; [done|]. right. exists p. naive_solver.
  - intros (target & Ht & [Hp|(p & Hp & Hc)]); [left; eauto|].
    right. exists p. split; [done|]. exists target. naive_solver.
Qed.

(** * Device paths *)

Definition storage_path (v : string) : Prop :=
  ∃ b, v = "/dev/" +:+ b ∧ valid_device_name b = true ∧
       contains_str ".." v = false ∧ str_all device_byte v = true.

Lemma storage_byte_not_ws :
  Forall (λ p, str_all device_byte p = false) whitespace ∧
  Forall (λ p, str_all device_byte p = false) (srev <$> whitespace).
Proof. split; repeat (constructor; [done|]); constructor. Qed.

Lemma storage_path_complete v : storage_path v → normalize_device_path v = Some v.
Proof.
  intros (b & -> & Hb & Hd & Ha). unfold normalize_device_path.
  rewrite (trim_str_all device_byte) by (done || apply storage_byte_not_ws).
  change (is_empty ("/dev/" +:+ b)) with false. cbv zeta.
  by rewrite !starts_with_app, strip_prefix_append; cbn [unwrap_or]; rewrite Hb, Hd, Ha.
Qed.

Lemma storage_path_sound raw v : normalize_device_path raw = Some v → storage_path v.
Proof.
  unfold normalize_device_path. destruct (is_empty _); [done|]. cbv zeta.
  set (w := if starts_with _ _ then _ else _).
  assert (∃ b, w = "/dev/" +:+ b) as [b Hb].
  { subst w. destruct (starts_with "/dev/" (trim raw)) eqn:E; [|eauto].
    by apply starts_with_true in E. }
  rewrite Hb, strip_prefix_append. cbn [unwrap_or].
  destruct (_ || _) eqn:E; [done|]. intros [= <-].
  repeat (apply orb_false_iff in E as [E ?]). bool_inv. exists b. auto.
Qed.

Lemma storage_normalize_idemp raw v :
  normalize_device_path raw = Some v → normalize_device_path v = Some v.
Proof. intros H. by eapply storage_path_complete, storage_path_sound. Qed.
#[export] Hint Resolve storage_path_sound storage_path_complete storage_normalize_idemp : kyth.

(** * Ancestry lemmas *)

Section ancestry.
Context (devices : gmap string (string * option string)).

(** [chain n d e]: following [n] parent links from [d] over devices that are
    not disks ends at the disk [e]. *)
Inductive chain : nat → string → string → Prop :=
| chain_disk d p : devices !! d = Some ("disk", p) → chain 0 d d
| chain_up n d ty p e :
    devices !! d = Some (ty, Some p) → ty ≠ "disk" → chain n p e → chain (S n) d e.

Lemma chain_det n d e n' e' : chain n d e → chain n' d e' → n = n' ∧ e = e'.
Proof.
  intros H. revert n' e'. induction H as [d p Hd|n d ty p e Hd Hty _ IH]; intros n' e' H';
    inversion H'; simplify_eq; [done|].
  match goal with H : chain _ _ _ |- _ => apply IH in H as [-> ->] end. done.
Qed.

(** The fuel [S (size devices)] is enough: each iteration adds a device of the
    map to [seen]. *)
Lemma parent_loop_total fuel seen current :
  seen ⊆ dom devices → (size devices < fuel + size seen)%nat →
  ∃ r, parent_loop devices fuel seen current = Some r.
Proof.
  revert seen current. induction fuel as [|fuel IH]; intros seen current Hsub Hf;
    destruct current as [d|]; cbn; eauto.
  - apply subseteq_size in Hsub. rewrite size_dom in Hsub. lia.
  - case_decide; [eauto|]. destruct (devices !! d) as [[ty p]|] eqn:E; [|eauto].
    case_match; [eauto|]. apply IH.
    + apply elem_of_dom_2 in E. set_solver.
    + rewrite size_union by set_solver. rewrite size_singleton. lia.
Qed.

Lemma parent_loop_sound fuel seen d e :
  parent_loop devices fuel seen (Some d) = Some (Some e) → ∃ n, chain n d e.
Proof.
  revert seen d. induction fuel as [|fuel IH]; intros seen d; cbn; [done|].
  case_decide; [done|]. destruct (devices !! d) as [[ty p]|] eqn:E; [|done].
  destruct (String.eqb_spec ty "disk") as [->|Hty].
  - intros [= <-]. exists 0%nat. by econstructor.
  - destruct p as [p|]; [|by destruct fuel]. intros [n Hn]%IH. exists (S n). by econstructor.
Qed.

(** Devices already visited have longer chains, so the cycle check never cuts
    a chain that reaches a disk. *)
Lemma parent_loop_complete n fuel seen d e :
  chain n d e → (n < fuel)%nat →
  (∀ x, x ∈ seen → ∃ m, (n < m)%nat ∧ chain m x e) →
  parent_loop devices fuel seen (Some d) = Some (Some e).
Proof.
  intros H. revert fuel seen. induction H as [d p Hd|n d ty p e Hd Hty Hc IH];
    intros fuel seen Hf Hseen; (destruct fuel as [|fuel]; [lia|]); cbn.
  - rewrite decide_False, Hd; [done|].
    intros (m & Hm & Hc)%Hseen. inversion Hc; simplify_eq; lia.
  - rewrite decide_False, Hd.
    2:{ intros (m & Hm & Hc')%Hseen.
        destruct (chain_det _ _ _ _ _ Hc' (chain_up _ _ _ _ _ Hd Hty Hc)); lia. }
    destruct (String.eqb_spec ty "disk"); [done|]. apply IH; [lia|].
    intros x [->%elem_of_singleton|(m & Hm & Hx)%Hseen]%elem_of_union.
    + exists (S n). split; [lia|]. by econstructor.
    + exists m. split; [lia|done].
Qed.

Lemma chain_length n d e : chain n d e → (n < S (size devices))%nat.
Proof.
  intros H.
  assert (∀ s : gset string, (∀ x, x ∈ s → ∃ m, (n < m)%nat ∧ chain m x e) →
            s ⊆ dom devices → (S n + size s <= size devices)%nat) as Hgen.
  { induction H as [d p Hd|n d ty p e Hd Hty Hc IH]; intros s Hs Hsub.
    - assert (d ∉ s). { intros (m & Hm & Hx)%Hs. inversion Hx; simplify_eq; lia. }
      assert ({[d]} ∪ s ⊆ dom devices) as Hle%subseteq_size.
      { apply elem_of_dom_2 in Hd. set_solver. }
      rewrite size_union, size_singleton, size_dom in Hle by set_solver. lia.
    - assert (d ∉ s).
      { intros (m & Hm & Hx)%Hs.
        destruct (chain_det _ _ _ _ _ Hx (chain_up _ _ _ _ _ Hd Hty Hc)). lia. }
      assert (S n + size ({[d]} ∪ s) <= size devices)%nat.
      { apply IH.
        - intros x [->%elem_of_singleton|(m & Hm & Hx)%Hs]%elem_of_union;
            [exists (S n)|exists m]; (split; [lia|]); [by econstructor|done].
        - apply elem_of_dom_2 in Hd. set_solver. }
      rewrite size_union, size_singleton in * by set_solver. lia. }
  specialize (Hgen ∅ ltac:(set_solver) ltac:(set_solver)). rewrite size_empty in Hgen. lia.
Qed.

Lemma parent_disk_Some source e :
  parent_disk devices source = Some e ↔
  ∃ d n, normalize_device_path source = Some d ∧ chain n d e.
Proof.
  unfold parent_disk. destruct (normalize_device_path source) as [d|] eqn:E; cbn [parent_loop].
  2:{ split; [done|]. naive_solver. }
  split.
  - intros H. destruct (parent_loop devices (S (size devices)) ∅ (Some d)) as [r|] eqn:Hl;
      [|by cbn in Hl; rewrite Hl in H].
    assert (r = Some e) as -> by (cbn in Hl; rewrite Hl in H; done).
    apply parent_loop_sound in Hl as [n Hn]. eauto.
  - intros (d' & n & [= <-] & Hc). pose proof (chain_length _ _ _ Hc).
    pose proof (parent_loop_complete n (S (size devices)) ∅ d e Hc ltac:(lia) ltac:(set_solver)) as Hl.
    cbn in Hl. by rewrite Hl.
Qed.
End ancestry.

(** The ancestry walk always terminates, and resolves a mount source to a
    disk exactly when following parent links from it reaches that disk, cycles
    in the reported tree included. *)
Theorem parent_disk_correct devices source e :
  (∃ r, parent_loop devices (S (size devices)) ∅ (normalize_device_path source) = Some r) ∧
  (parent_disk devices source = Some e ↔
   ∃ d n, normalize_device_path source = Some d ∧ chain devices n d e).
Proof.
  split; [|apply parent_disk_Some].
  apply parent_loop_total; [set_solver|]. rewrite size_empty. lia.
Qed.

(** * Inventory lemmas *)

Section inventory.
Context `{LsblkDecoder}.

Lemma parse_snapshot_Ok input s : parse_snapshot input = Ok s ↔ decode_lsblk input = Ok s.
Proof. apply map_err_Ok. Qed.

Lemma protected_disks_Ok anc sources acc out :
  protected_disks anc sources acc = Ok out →
  ∀ d, d ∈ out ↔ d ∈ acc ∨
    ∃ source, source ∈ sources ∧ parent_disk_in_snapshot anc source = Ok (Some d).
Proof.
  revert acc. induction sources as [|s sources IH]; intros acc; cbn.
  { intros [= <-]. set_solver. }
  rewrite rbind_Ok. intros (r & Hr & Hp) d. rewrite (IH _ Hp d).
  setoid_rewrite elem_of_cons. destruct r as [e|]; split.
  - intros [[->%elem_of_singleton|Hd]%elem_of_union|(x & Hx & Hd)]; eauto.
  - intros [Hd|(x & [->|Hx] & Hd)]; [set_solver| |eauto].
    rewrite Hr in Hd. left. set_solver.
  - intros [Hd|(x & Hx & Hd)]; eauto.
  - intros [Hd|(x & [->|Hx] & Hd)]; [by left| |eauto]. by rewrite Hr in Hd.
Qed.

Lemma disk_record_Some protected cur d r :
  disk_record protected cur d = Some r →
  device_name d = Some (dr_name r) ∧ dr_name r ∉ protected ∧
  dr_size_bytes r = unwrap_or (d_size (attrs d)) 0 ∧ dr_size_bytes r ≠ 0 ∧
  d_ro (attrs d) ≠ Some true ∧ (dr_current r = true ↔ cur = Some (dr_name r)).
Proof.
  unfold disk_record. destruct (device_name d) as [n|]; [|done].
  destruct (_ || _) eqn:E; [done|]. intros [= <-]. cbn.
  repeat (apply orb_false_iff in E as [E ?]). bool_inv.
  rewrite str_in_false in *. split_and!; [done..| |].
  - intros Hro. by rewrite Hro in *.
  - destruct cur as [c|]; [|done]. rewrite String.eqb_eq. naive_solver.
Qed.

(** What the guard takes from the inventory. *)
Lemma runtime_facts disk_snapshot ancestry psources csource records r :
  runtime_disks_from_snapshots disk_snapshot ancestry psources csource = Ok records →
  r ∈ records →
  (∃ snap d, decode_lsblk disk_snapshot = Ok snap ∧ d ∈ snap ∧ is_disk_named (dr_name r) d = true ∧
     d_ro (attrs d) ≠ Some true ∧ d_size (attrs d) = Some (dr_size_bytes r) ∧ dr_size_bytes r ≠ 0) ∧
  (∀ source d, source ∈ psources → parent_disk_in_snapshot ancestry source = Ok (Some d) →
     dr_name r ≠ d) ∧
  (dr_current r = true ↔
     ∃ source, csource = Some source ∧
       parent_disk_in_snapshot ancestry source = Ok (Some (dr_name r))).
Proof.
  unfold runtime_disks_from_snapshots, parse_disks.
  rewrite rbind_Ok. intros (prot & Hprot & Hk).
  apply rbind_Ok in Hk as (cur & Hcur & Hk).
  apply rbind_Ok in Hk as (snap & Hsnap%parse_snapshot_Ok & [= <-]).
  intros (d & (Hd & Ht)%elem_of_filterb & Hr)%elem_of_filter_map.
  apply disk_record_Some in Hr as (Hn & Hp & Hs & Hz & Hro & Hc).
  split_and!.
  - exists snap, d. split_and!; try done.
    + unfold is_disk_named. by rewrite Hn, String.eqb_refl, Ht.
    + destruct (d_size (attrs d)); cbn in Hs; congruence.
  - intros source e Hsrc He <-. apply Hp. rewrite elem_of_elements.
    apply (protected_disks_Ok _ _ _ _ Hprot). eauto.
  - rewrite Hc. destruct csource as [source|]; simplify_eq.
    + split; [intros ->; eauto|intros (? & [= <-] & E); congruence].
    + split; [done|naive_solver].
Qed.

(** * Devices and the disks that back them *)

(** [d] is a disk of the reported tree, or following the parents that lsblk
    reports from [d] leads to the disk [e]. *)
Inductive backed_by (tree : LsblkSnapshot) : string → string → Prop :=
| backed_disk d x : x ∈ all_devices tree → device_name x = Some d → has_type "disk" x = true → backed_by tree d d
| backed_up d x q p e : x ∈ all_devices tree → device_name x = Some d → has_type "disk" x = false →
    d_pkname (attrs x) = Some q → normalize_device_path q = Some p → backed_by tree p e → backed_by tree d e.

(** No device is reported at two places of the tree. *)
Definition listed_once (tree : LsblkSnapshot) : Prop := NoDup (filter_map device_name (all_devices tree)).

Lemma ancestry_walk_list d m : ancestry_walk d m = fold_left ancestry_entry (subtree d) m.
Proof.
  revert m. induction d as [a cs IH] using device_ind; intros m. cbn [ancestry_walk subtree fold_left].
  generalize (ancestry_entry m (Device a cs)) as m'. clear m. induction cs as [|c cs IHcs]; intros m; [done|].
  cbn [fold_left flat_map]. rewrite fold_left_app. apply Forall_cons in IH as [Hc Hcs]. rewrite Hc. by apply IHcs.
Qed.
Lemma ancestry_walks_list tree m : fold_left (λ m d, ancestry_walk d m) tree m = fold_left ancestry_entry (all_devices tree) m.
Proof.
  revert m. induction tree as [|d tree IH]; intros m; [done|]. cbn [fold_left]. unfold all_devices. cbn [flat_map].
  rewrite fold_left_app, ancestry_walk_list. apply IH.
Qed.

Lemma ancestry_entries_keep l m d : d ∉ filter_map device_name l → fold_left ancestry_entry l m !! d = m !! d.
Proof.
  revert m. induction l as [|x l IH]; intros m; [done|]. cbn [fold_left filter_map]. unfold ancestry_entry at 2.
  destruct (device_name x) as [n|]; [|apply IH]. intros [Hne Hl]%not_elem_of_cons. rewrite IH by done. by apply lookup_insert_ne.
Qed.
Lemma ancestry_entries_lookup l m d x :
  NoDup (filter_map device_name l) → x ∈ l → device_name x = Some d →
  fold_left ancestry_entry l m !! d
  = Some (unwrap_or (d_type (attrs x)) EmptyString, match d_pkname (attrs x) with Some p => normalize_device_path p | None => None end).
Proof.
  revert m. induction l as [|y l IH]; intros m; [by intros _ []%elem_of_nil|]. cbn [fold_left filter_map].
  intros Hnd [->|Hin]%elem_of_cons Hx.
  - rewrite Hx in Hnd. apply NoDup_cons in Hnd as [Hd _]. rewrite ancestry_entries_keep by done. unfold ancestry_entry.
    rewrite Hx. apply lookup_insert_eq.
  - apply IH; [|done..]. destruct (device_name y); [by apply NoDup_cons in Hnd as [_ ?]|done].
Qed.

Lemma backed_parent_disk anc tree source d e :
  decode_lsblk anc = Ok tree → listed_once tree → normalize_device_path source = Some d → backed_by tree d e →
  parent_disk_in_snapshot anc source = Ok (Some e).
Proof.
  intros Ht Hnd Hs Hb. unfold parent_disk_in_snapshot, device_ancestry.
  rewrite (proj2 (parse_snapshot_Ok anc tree) Ht). cbn [rbind]. f_equal. apply parent_disk_Some. exists d.
  rewrite ancestry_walks_list. cut (∃ n, chain (fold_left ancestry_entry (all_devices tree) ∅) n d e); [intros [n Hn]; by exists n|].
  clear Hs. induction Hb as [d x Hx Hn Hty|d x q p e Hx Hn Hty Hq Hp _ (n & IH)]; unfold has_type in Hty.
  - exists 0%nat. eapply chain_disk. rewrite (ancestry_entries_lookup _ _ d x) by done.
    destruct (d_type (attrs x)); [|done]. apply String.eqb_eq in Hty as ->. done.
  - exists (S n). eapply chain_up; [| |exact IH].
    + rewrite (ancestry_entries_lookup _ _ d x) by done. by rewrite Hq, Hp.
    + destruct (d_type (attrs x)); [by apply String.eqb_neq|done].
Qed.

(** A disk in the runtime inventory is a writable, non-empty disk of the
    probe, and no protected mount source resolves to it. *)
Theorem runtime_disks_safe disk_snapshot ancestry psources csource records r :
  runtime_disks_from_snapshots disk_snapshot ancestry psources csource = Ok records →
  r ∈ records →
  (∃ snap d, decode_lsblk disk_snapshot = Ok snap ∧ d ∈ snap ∧ is_disk_named (dr_name r) d = true ∧
     d_ro (attrs d) ≠ Some true ∧ d_size (attrs d) = Some (dr_size_bytes r) ∧ dr_size_bytes r ≠ 0) ∧
  (∀ source d, source ∈ psources → parent_disk_in_snapshot ancestry source = Ok (Some d) →
     dr_name r ≠ d) ∧
  (dr_current r = true ↔
     ∃ source, csource = Some source ∧
       parent_disk_in_snapshot ancestry source = Ok (Some (dr_name r))).
Proof. apply runtime_facts. Qed.

(** * Identity lemmas *)

Lemma nonempty_Some v w : nonempty v = Some w → ∃ u, v = Some u ∧ w = trim u ∧ is_empty w = false.
Proof. destruct v as [u|]; cbn; [|done]. destruct (is_empty (trim u)) eqn:E; naive_solver. Qed.

(** An identity captured from a probe verifies against the same probe, so a
    disk that reports no serial or model does not fail against itself. *)
Theorem disk_identity_roundtrip (probe : string → result string) disk id :
  read_disk_identity probe disk = Ok id → verify_disk_identity probe disk id = Ok tt.
Proof.
  unfold read_disk_identity, verify_disk_identity, verify_disk_identity_in_snapshot.
  intros Hr. res_inv.
  match goal with Hn : normalize_device_path disk = Some ?n |- _ =>
    rewrite Hn; cbn [ok_or rbind]; pose proof (storage_normalize_idemp _ _ Hn) as Hi end.
  match goal with Hp : probe _ = Ok _ |- _ => rewrite Hp end. cbn [rbind].
  rewrite Hi. cbn [ok_or rbind].
  match goal with Hp : parse_snapshot _ = Ok _ |- _ => rewrite Hp end. cbn [rbind].
  match goal with Hf : find_first _ _ = Some _ |- _ => rewrite Hf end. cbn [ok_or rbind].
  cbv zeta. cbn [id_serial id_model id_size_bytes].
  match goal with |- context [attrs ?d] => set (a := attrs d) end.
  assert (∀ v : option string, match nonempty v with
    | Some e => is_empty (trim (unwrap_or v EmptyString)) = false ∧ trim (unwrap_or v EmptyString) = trim e
    | None => True end) as Hne.
  { intros v. destruct (nonempty v) as [w|] eqn:E; [|done].
    apply nonempty_Some in E as (u & -> & -> & E). cbn. by rewrite trim_idemp. }
  pose proof (Hne (d_serial a)) as Hs. pose proof (Hne (d_model a)) as Hm.
  destruct (nonempty (d_serial a)) as [es|], (nonempty (d_model a)) as [em|];
    cbv zeta; try (destruct Hs as [-> ->]; rewrite eq_ignore_ascii_case_refl);
    try (destruct Hm as [-> ->]; rewrite String.eqb_refl); cbn [orb negb];
    (destruct (d_size a); cbn [unwrap_or]; [by rewrite Z.eqb_refl|done]).
Qed.

(** Verification fails closed.  When it accepts, the probe holds the disk
    and every identity field known at selection time is reported again with the
    same value. *)
Theorem verify_disk_identity_sound (probe : string → result string) disk id :
  verify_disk_identity probe disk id = Ok tt →
  ∃ n text snap d, normalize_device_path disk = Some n ∧ probe n = Ok text ∧
    decode_lsblk text = Ok snap ∧ d ∈ snap ∧ is_disk_named n d = true ∧
    (∀ s, id_serial id = Some s → ∃ t, d_serial (attrs d) = Some t ∧ trim t ≠ EmptyString ∧
       to_ascii_lowercase (trim t) = to_ascii_lowercase (trim s)) ∧
    (∀ m, id_model id = Some m → ∃ t, d_model (attrs d) = Some t ∧ trim t ≠ EmptyString ∧
       trim t = trim m) ∧
    (∀ z, id_size_bytes id = Some z → unwrap_or (d_size (attrs d)) 0 = z).
Proof.
  unfold verify_disk_identity, verify_disk_identity_in_snapshot.
  rewrite rbind_Ok. intros (n & Hn%ok_or_Ok & Hk).
  apply rbind_Ok in Hk as (text & Ht & Hk).
  rewrite (storage_normalize_idemp _ _ Hn) in Hk. cbn [ok_or rbind] in Hk.
  apply rbind_Ok in Hk as (snap & Hs%parse_snapshot_Ok & Hk).
  apply rbind_Ok in Hk as (d & [Hd Hdn]%ok_or_Ok%find_first_Some & Hk).
  cbv zeta in Hk. guard_inv Hk as Es. guard_inv Hk as Em. guard_inv Hk as Ez.
  exists n, text, snap, d. split_and!; try done.
  - intros s Hs'. rewrite Hs' in Es. destruct (d_serial (attrs d)) as [t|]; [|done].
    apply orb_false_iff in Es as [?%is_empty_false Hq]. bool_inv.
    exists t. split_and!; [done..|]. by apply String.eqb_eq.
  - intros m Hm. rewrite Hm in Em. destruct (d_model (attrs d)) as [t|]; [|done].
    apply orb_false_iff in Em as [?%is_empty_false Hq]. bool_inv.
    exists t. split_and!; [done..|]. by apply String.eqb_eq.
  - intros z Hz. rewrite Hz in Ez. by bool_inv.
Qed.
End inventory.

(** * A concrete machine

    An internal disk with an ESP, a Windows volume and an empty partition, and
    the live medium the session runs from. *)

Definition blank : DeviceAttrs := {|
  d_name := None; d_partn := None; d_size := None; d_type := None; d_pkname := None;
  d_fstype := None; d_parttype := None; d_label := None; d_model := None;
  d_mountpoint := None; d_mountpoints := None; d_start := None; d_ro := None; d_rm := None;
  d_rota := None; d_tran := None; d_pttype := None; d_serial := None; d_partuuid := None |}.

Definition GiB : Z := 2 ^ 30.

Definition sample_part (name : string) (num start size : Z) (fs parttype : string)
    (mounts : list string) : LsblkDevice :=
  Device {|
    d_name := Some name; d_partn := Some num; d_size := Some size; d_type := Some "part";
    d_pkname := Some "/dev/sda"; d_fstype := Some fs; d_parttype := Some parttype;
    d_label := None; d_model := None; d_mountpoint := None;
    d_mountpoints := Some (Some <$> mounts); d_start := Some (start / 512); d_ro := Some false;
    d_rm := None; d_rota := None; d_tran := None; d_pttype := None; d_serial := None;
    d_partuuid := Some (String.append "ab-0" (show_int num)) |} [].

Definition sample_disk : LsblkDevice :=
  Device {|
    d_name := Some "/dev/sda"; d_partn := None; d_size := Some (500 * GiB); d_type := Some "disk";
    d_pkname := None; d_fstype := None; d_parttype := None; d_label := None;
    d_model := Some "Kyth SSD "; d_mountpoint := None; d_mountpoints := None; d_start := None;
    d_ro := Some false; d_rm := Some false; d_rota := Some false; d_tran := Some "nvme";
    d_pttype := Some "gpt"; d_serial := Some " S3RIAL"; d_partuuid := None |}
  [ sample_part "/dev/sda1" 1 (2 ^ 20) (2 ^ 29) "vfat" (to_ascii_lowercase EFI_PART_GUID) ["/boot/efi"];
    sample_part "/dev/sda2" 2 GiB (200 * GiB) "ntfs" WINDOWS_DATA_GUID [];
    sample_part "/dev/sda3" 3 (201 * GiB) (100 * GiB) "" "0fc63daf-8483-4772-8e79-3d69d8477de4" [] ].

Definition sample_live : LsblkDevice :=
  Device {|
    d_name := Some "/dev/sdb"; d_partn := None; d_size := Some (16 * GiB); d_type := Some "disk";
    d_pkname := None; d_fstype := None; d_parttype := None; d_label := None; d_model := None;
    d_mountpoint := None; d_mountpoints := None; d_start := None; d_ro := Some false;
    d_rm := Some true; d_rota := None; d_tran := Some "usb"; d_pttype := Some "gpt";
    d_serial := None; d_partuuid := None |}
  [ Device {|
      d_name := Some "/dev/sdb1"; d_partn := Some 1; d_size := Some (8 * GiB); d_type := Some "part";
      d_pkname := Some "/dev/sdb"; d_fstype := Some "iso9660"; d_parttype := None; d_label := None;
      d_model := None; d_mountpoint := Some "/run/initramfs/live"; d_mountpoints := None;
      d_start := Some 64; d_ro := None; d_rm := None; d_rota := None; d_tran := None;
      d_pttype := None; d_serial := None; d_partuuid := None |} [] ].

Definition sample_snapshot : LsblkSnapshot := [sample_disk; sample_live].

Definition sample_mounts : list FindmntEntry :=
  [Mount "/" "overlay"
     [Mount "/run/initramfs/live" "/dev/sdb1" []; Mount "/boot/efi" "tmpfs" []]].

Definition sample_decoder : LsblkDecoder := {| decode_lsblk _ := Ok sample_snapshot |}.
Definition sample_findmnt : FindmntDecoder := {| decode_findmnt _ := Ok sample_mounts |}.

Definition sample_record : DiskRecord := {|
  dr_name := "/dev/sda"; dr_size_bytes := 500 * GiB; dr_model := "Kyth SSD"; dr_ssd := true;
  dr_transport := "nvme"; dr_removable := false; dr_partition_table := "gpt"; dr_current := false |}.

Example sample_inventory :
  @runtime_disks_from_snapshots sample_decoder "disks" "tree" ["/dev/sdb1"] None
  = Ok [sample_record].
Proof. vm_compute. reflexivity. Qed.

Lemma runtime_disks_safe_witness :
  (∀ source d, source ∈ ["/dev/sdb1"] →
     @parent_disk_in_snapshot sample_decoder "tree" source = Ok (Some d) →
     dr_name sample_record ≠ d) ∧
  @parent_disk_in_snapshot sample_decoder "tree" "/dev/sdb1" = Ok (Some "/dev/sdb").
Proof.
  split; [|vm_compute; reflexivity].
  exact (proj1 (proj2 (@runtime_disks_safe sample_decoder "disks" "tree" ["/dev/sdb1"] None
           [sample_record] sample_record sample_inventory (list_elem_of_here _ _)))).
Defined.

Definition sample_probe (disk : string) : result string := Ok ("identity of " +:+ disk).
Definition sample_identity : DiskIdentity :=
  {| id_serial := Some "S3RIAL"; id_model := Some "Kyth SSD"; id_size_bytes := Some (500 * GiB) |}.

Example sample_read :
  @read_disk_identity sample_decoder sample_probe "sda" = Ok sample_identity.
Proof. vm_compute. reflexivity. Qed.

Lemma disk_identity_roundtrip_witness :
  @verify_disk_identity sample_decoder sample_probe "sda" sample_identity = Ok tt.
Proof.
  exact (@disk_identity_roundtrip sample_decoder sample_probe "sda" sample_identity sample_read).
Defined.

Lemma verify_disk_identity_sound_witness :
  ∃ n text snap d, normalize_device_path "/dev/sda" = Some n ∧ sample_probe n = Ok text ∧
    @decode_lsblk sample_decoder text = Ok snap ∧ d ∈ snap ∧ is_disk_named n d = true.
Proof.
  destruct (@verify_disk_identity_sound sample_decoder sample_probe "/dev/sda"
              {| id_serial := Some "s3rial "; id_model := None; id_size_bytes := Some (500 * GiB) |}
              ltac:(vm_compute; reflexivity))
    as (n & text & snap & d & H1 & H2 & H3 & H4 & H5 & _).
  exists n, text, snap, d. auto.
Defined.

(** A different disk under the same path is refused. *)
Example swapped_disk_refused :
  is_ok (@verify_disk_identity sample_decoder sample_probe "/dev/sda"
           {| id_serial := Some "OTHER"; id_model := None; id_size_bytes := None |}) = false.
Proof. vm_compute. reflexivity. Qed.
