(* ===== verification/Partitions.v ===== *)
(** Partition discovery and the format gates: the partition-level half of
    [installer_storage.rs].

    Records for the UI, the fresh probe taken right before a destructive step,
    the content gate that keeps other systems' data, the resolution of the EFI
    system partition and the storage preflight.  The theorems relate them: what
    the UI offers is what the commit path accepts, and the preflight names the
    same ESP the installer later mounts. *)

From S2P Require Import Prelude RustStr StorageModel.

Record PartitionRecord := {
  pr_name : string;
  pr_size_bytes : Z;
  pr_start_bytes : Z;
  pr_fstype : string;
  pr_label : string;
  pr_parttype : string;
  pr_mountpoints : list string;
  pr_efi : bool;
  pr_current : bool;
  pr_in_use : bool;
  pr_read_only : bool;
  pr_alongside_candidate : bool;
  pr_ntfs_resize_candidate : bool;
}.

Record PartitionProbe := {
  pb_name : string;
  pb_number : Z;
  pb_size_bytes : Z;
  pb_start_bytes : Z;
  pb_fstype : string;
  pb_label : string;
  pb_partuuid : string;
  pb_efi : bool;
  pb_current : bool;
  pb_in_use : bool;
  pb_read_only : bool;
}.

Definition valid_sector_size (sector_size : Z) : result unit :=
  guard! negb (is_power_of_two sector_size)
         || negb ((512 <=? sector_size) && (sector_size <=? 4096))
    else "storage query returned an unsupported sector size";
  Ok tt.

Definition mountpoints (d : LsblkDevice) : list string :=
  match d_mountpoints (attrs d) with
  | Some values => filter_map id values
  | None => match d_mountpoint (attrs d) with Some m => [m] | None => [] end
  end.

Fixpoint descendant_mountpoints (d : LsblkDevice) : list string :=
  match d with
  | Device _ cs => flat_map (λ c, mountpoints c ++ descendant_mountpoints c) cs
  end.

(** * The content gate *)

Definition FOREIGN_DATA_FSTYPES : list string :=
  ["ntfs"; "ntfs3"; "bitlocker"; "apfs"; "hfsplus"; "hfs"; "exfat"].

Definition foreign_data_reason (fstype label role : string) : option string :=
  let label := trim label in
  let labeled := if is_empty label then EmptyString else " labeled " +:+ show_debug label in
  if str_in fstype FOREIGN_DATA_FSTYPES then
    Some ("The selected " +:+ role +:+ " holds a " +:+ fstype +:+ " filesystem" +:+ labeled +:+
          " and installing there would destroy its contents. Back up its data, or choose an empty partition, unallocated space, or the Windows-shrink option.")
  else if negb (is_empty fstype)
          && negb (String.eqb fstype "btrfs" && eq_ignore_ascii_case label "kythos") then
    Some ("The selected " +:+ role +:+ " contains a " +:+ fstype +:+ " filesystem" +:+ labeled +:+
          " that may hold data, and installing there would format it. Back up its contents, clear the partition first, or choose a different target.")
  else None.

Definition no_foreign_data (fstype label role : string) : bool :=
  match foreign_data_reason fstype label role with Some _ => false | None => true end.

(** * Partition records *)

Definition lower_field (o : option string) : string := to_ascii_lowercase (unwrap_or o EmptyString).

(** The record the walk of [parse_partitions] pushes for a partition device. *)
Definition partition_record (d : LsblkDevice) : option PartitionRecord :=
  if negb (has_type "part" d) then None
  else match device_name d with
  | None => None
  | Some name =>
      let a := attrs d in
      let size_bytes := unwrap_or (d_size a) 0 in
      let fstype := lower_field (d_fstype a) in
      let parttype := lower_field (d_parttype a) in
      let mounts := mountpoints d ++ descendant_mountpoints d in
      let efi := String.eqb parttype EFI_PART_GUID
                 || (String.eqb fstype "vfat" && str_in "/boot/efi" mounts) in
      let current := negb (bool_decide (mounts = [])) in
      let in_use := negb (bool_decide (length (children d) = 0%nat)) in
      let read_only := unwrap_or (d_ro a) false in
      let replaceable := (MIN_KYTHOS_BYTES <=? size_bytes)
                         && negb efi && negb current && negb in_use && negb read_only in
      let is_windows := str_in fstype ["ntfs"; "ntfs3"] in
      let label := unwrap_or (d_label a) EmptyString in
      Some {|
        pr_name := name;
        pr_size_bytes := size_bytes;
        pr_start_bytes := sat_mul64 (unwrap_or (d_start a) 0) 512;
        pr_fstype := fstype;
        pr_label := label;
        pr_parttype := parttype;
        pr_mountpoints := mounts;
        pr_efi := efi;
        pr_current := current;
        pr_in_use := in_use;
        pr_read_only := read_only;
        pr_alongside_candidate := replaceable && no_foreign_data fstype label EmptyString;
        pr_ntfs_resize_candidate := replaceable && is_windows && (NTFS_MIN_BYTES <=? size_bytes);
      |}
  end.

Definition parse_partitions `{LsblkDecoder} (input : string) (sector_size : Z)
    : result (list PartitionRecord) :=
  check! valid_sector_size sector_size;
  let? snapshot := parse_snapshot input in
  Ok (filter_map partition_record (all_devices snapshot)).

(** * The fresh probe *)

(** The probe of a device that is the wanted partition. *)
Definition probe_of (d : LsblkDevice) : option PartitionProbe :=
  match device_name d, d_partn (attrs d) with
  | Some name, Some number =>
      let a := attrs d in
      let fstype := lower_field (d_fstype a) in
      let mounts := mountpoints d in
      let efi := match d_parttype a with
                 | Some p => eq_ignore_ascii_case p EFI_PART_GUID
                 | None => false
                 end || (String.eqb fstype "vfat" && str_in "/boot/efi" mounts) in
      Some {|
        pb_name := name;
        pb_number := number;
        pb_size_bytes := unwrap_or (d_size a) 0;
        pb_start_bytes := sat_mul64 (unwrap_or (d_start a) 0) 512;
        pb_fstype := fstype;
        pb_label := unwrap_or (d_label a) EmptyString;
        pb_partuuid := unwrap_or (d_partuuid a) EmptyString;
        pb_efi := efi;
        pb_current := negb (bool_decide (mounts = []));
        pb_in_use := negb (bool_decide (length (children d) = 0%nat));
        pb_read_only := unwrap_or (d_ro a) false;
      |}
  | _, _ => None
  end.

Definition is_part_named (wanted : string) (d : LsblkDevice) : bool :=
  has_type "part" d &&
  match device_name d with Some n => String.eqb n wanted | None => false end.

Fixpoint find_partition (wanted : string) (d : LsblkDevice) : option PartitionProbe :=
  match d with
  | Device _ cs =>
      if is_part_named wanted d then probe_of d
      else find_map (find_partition wanted) cs
  end.

Definition partition_probe_from_snapshot `{LsblkDecoder} (input disk partition : string)
    (sector_size : Z) : result PartitionProbe :=
  check! valid_sector_size sector_size;
  let? disk := ok_or (normalize_device_path disk) "partition query has an invalid disk" in
  let? partition := ok_or (normalize_device_path partition)
                      "partition query has an invalid partition" in
  let? snapshot := parse_snapshot input in
  let? root := ok_or (find_first (is_disk_named disk) snapshot)
                 "target disk was not present in partition probe" in
  ok_or (find_partition partition root) "selected partition was not present on the target disk".

(** * The format gates *)

Definition validate_replace_target `{LsblkDecoder} (input disk partition role : string)
    (sector_size : Z) : result PartitionProbe :=
  let? probe := partition_probe_from_snapshot input disk partition sector_size in
  guard! pb_efi probe
    else ("The EFI system partition cannot be used as the KythOS " +:+ role +:+ ".");
  guard! pb_current probe || pb_in_use probe || pb_read_only probe
    else ("The selected " +:+ role +:+ " is mounted, read-only, or has active encrypted/LVM mappings.");
  guard! pb_size_bytes probe <? MIN_KYTHOS_BYTES
    else ("The " +:+ role +:+ " is too small. At least " +:+
          show_int (MIN_KYTHOS_BYTES / (1024 * 1024 * 1024)) +:+ " GiB is required.");
  match foreign_data_reason (pb_fstype probe) (pb_label probe) role with
  | Some reason => Err reason
  | None => Ok probe
  end.

Definition validate_format_target `{LsblkDecoder} (input disk partition : string)
    (sector_size : Z) : result PartitionProbe :=
  let? probe := partition_probe_from_snapshot input disk partition sector_size in
  guard! pb_efi probe else "The EFI system partition cannot be formatted.";
  guard! pb_current probe || pb_in_use probe || pb_read_only probe
    else "The selected partition is mounted, read-only, or has active mappings; refusing to format it.";
  Ok probe.

(** * The EFI system partition *)

Record EfiPartition := { efi_name : string; efi_mounted_at : option string }.

Definition first_safe_mountpoint (mounts : list string) : option string :=
  find_first (λ m, starts_with "/" m && negb (contains_str ".." m) && negb (contains_str "//" m))
    mounts.

Definition mounted_at_boot_efi (e : EfiPartition) : bool :=
  match efi_mounted_at e with Some m => String.eqb m "/boot/efi" | None => false end.

Definition resolve_esp (candidates : list EfiPartition) : result (option EfiPartition) :=
  match candidates with
  | [] => Ok None
  | [efi] => Ok (Some efi)
  | _ =>
      match filterb mounted_at_boot_efi candidates with
      | [efi] => Ok (Some efi)
      | _ => Err "target disk has multiple EFI system partitions; refusing to select one arbitrarily"
      end
  end.

Definition on_selected_disk (name disk : string) : bool :=
  match strip_prefix disk name with
  | Some suffix =>
      negb (is_empty suffix) &&
      str_all is_ascii_digit (unwrap_or (strip_prefix "p" suffix) suffix)
  | None => false
  end.

Definition efi_of (p : PartitionRecord) : EfiPartition :=
  {| efi_name := pr_name p; efi_mounted_at := first_safe_mountpoint (pr_mountpoints p) |}.

(** The suffix test of the filter closure is that of [on_selected_disk]. *)
Definition efi_partition_from_snapshot `{LsblkDecoder} (input disk : string) (sector_size : Z)
    : result (option EfiPartition) :=
  let? disk := ok_or (normalize_device_path disk) "EFI partition query has an invalid disk" in
  let? parts := parse_partitions input sector_size in
  resolve_esp (map efi_of (filterb (λ p, pr_efi p && on_selected_disk (pr_name p) disk) parts)).

(** * Root partition, partition identity, new partitions *)

Definition btrfs_name (d : LsblkDevice) : option string :=
  match d_fstype (attrs d) with
  | Some f => if eq_ignore_ascii_case f "btrfs" then device_name d else None
  | None => None
  end.

Definition root_partition_from_snapshot `{LsblkDecoder} (input disk : string) : result string :=
  let? disk := ok_or (normalize_device_path disk) "root partition query has an invalid disk" in
  let? snapshot := parse_snapshot input in
  let? root := ok_or (find_first (is_disk_named disk) snapshot)
                 "target disk was not present in root partition probe" in
  match filter_map btrfs_name (subtree root) with
  | [partition] => Ok partition
  | [] => Err "target disk has no Btrfs root partition after bootc installation"
  | _ => Err "target disk has multiple Btrfs partitions; refusing to guess which one contains the installed root"
  end.

(** One device of the walk of [partuuid_for_partition_number]; a later match
    replaces an earlier one. *)
Definition partuuid_step (disk : string) (part_num : Z) (found : option string)
    (d : LsblkDevice) : option string :=
  if has_type "part" d && bool_decide (d_partn (attrs d) = Some part_num) then
    match device_name d with
    | Some name =>
        if on_selected_disk name disk then nonempty (d_partuuid (attrs d)) else found
    | None => found
    end
  else found.

Definition partuuid_for_partition_number `{LsblkDecoder} (input disk : string) (part_num : Z)
    : result string :=
  let? disk := ok_or (normalize_device_path disk) "partition identity query has an invalid disk" in
  guard! part_num =? 0 else "partition number must be positive";
  let? snapshot := parse_snapshot input in
  ok_or (fold_left (partuuid_step disk part_num) (all_devices snapshot) None)
    "partition identity was not present in the fresh probe".

Definition GEOMETRY_TOLERANCE : Z := 1024 * 1024.

Definition geometry_matches (start_bytes size_bytes : Z) (p : PartitionRecord) : bool :=
  (abs_diff (pr_start_bytes p) start_bytes <=? GEOMETRY_TOLERANCE) &&
  (abs_diff (pr_size_bytes p) size_bytes <=? GEOMETRY_TOLERANCE).

Definition new_partition_from_snapshots `{LsblkDecoder} (before after : string)
    (start_bytes size_bytes sector_size : Z) : result string :=
  guard! (start_bytes =? 0) || (size_bytes =? 0) else "new partition geometry must be positive";
  let? prior := parse_partitions before sector_size in
  let prior : gset string := list_to_set (map pr_name prior) in
  let? parts := parse_partitions after sector_size in
  match map pr_name
          (filterb (geometry_matches start_bytes size_bytes)
             (filterb (λ p, bool_decide (pr_name p ∉ prior)) parts)) with
  | [name] => Ok name
  | [] => Err "new partition was not visible at the requested geometry"
  | _ => Err "multiple new partitions matched the requested geometry"
  end.

Definition has_bios_boot_partition `{LsblkDecoder} (input : string) (sector_size : Z)
    : result bool :=
  let? parts := parse_partitions input sector_size in
  Ok (existsb (λ p, eq_ignore_ascii_case (pr_parttype p) BIOS_BOOT_GUID) parts).

Definition validate_alongside_bios_boot `{LsblkDecoder} (input disk : string) (uefi_boot : bool)
    (sector_size : Z) : result unit :=
  if uefi_boot then Ok tt
  else
    let? meta := disk_metadata input disk in
    if negb (snd meta) then Ok tt
    else
      let? disk := ok_or (normalize_device_path disk) "BIOS boot query has an invalid disk" in
      let? parts := parse_partitions input sector_size in
      if existsb (λ p, on_selected_disk (pr_name p) disk
                       && eq_ignore_ascii_case (pr_parttype p) BIOS_BOOT_GUID) parts
      then Ok tt
      else Err "Legacy BIOS on GPT requires a 1 MiB BIOS boot partition for GRUB. Create a 1 MiB partition with the bios_grub flag in the manual partition editor, or use free-space/NTFS-shrink install which creates it automatically. Without it GRUB falls back to blocklists, which Btrfs rejects.".

(** * Storage preflight *)

Record StoragePreflight := {
  sp_disk : string;
  sp_esp_present : bool;
  sp_esp_name : string;
  sp_windows_present : bool;
  sp_bitlocker_locked : bool;
  sp_checked_partitions : Z;
}.

Definition looks_windows (p : PartitionRecord) : bool :=
  str_in (pr_fstype p) ["ntfs"; "ntfs3"]
  || String.eqb (pr_parttype p) WINDOWS_DATA_GUID
  || contains_str "windows" (to_ascii_lowercase (pr_label p)).

Definition looks_bitlocked (p : PartitionRecord) : bool :=
  String.eqb (pr_fstype p) "bitlocker"
  || (str_in (pr_fstype p) ["ntfs"; "ntfs3"] && pr_in_use p).

(** One iteration of the loop: the preflight so far and the ESP candidates. *)
Definition preflight_step (disk : string) (acc : StoragePreflight * list EfiPartition)
    (p : PartitionRecord) : StoragePreflight * list EfiPartition :=
  let '(pf, esps) := acc in
  if negb (on_selected_disk (pr_name p) disk) then acc
  else
    ({| sp_disk := sp_disk pf;
        sp_esp_present := sp_esp_present pf;
        sp_esp_name := sp_esp_name pf;
        sp_windows_present := sp_windows_present pf || looks_windows p;
        sp_bitlocker_locked := sp_bitlocker_locked pf || looks_bitlocked p;
        sp_checked_partitions := sp_checked_partitions pf + 1 |},
     if pr_efi p then esps ++ [efi_of p] else esps).

Definition storage_preflight_from_snapshot `{LsblkDecoder} (input disk : string) (sector_size : Z)
    : result StoragePreflight :=
  let? disk := ok_or (normalize_device_path disk) "storage preflight has an invalid disk" in
  let init := {| sp_disk := disk; sp_esp_present := false; sp_esp_name := EmptyString;
                 sp_windows_present := false; sp_bitlocker_locked := false;
                 sp_checked_partitions := 0 |} in
  let? parts := parse_partitions input sector_size in
  let '(pf, esps) := fold_left (preflight_step disk) parts (init, []) in
  let? esp := resolve_esp esps in
  Ok (match esp with
      | Some e =>
          {| sp_disk := sp_disk pf; sp_esp_present := true; sp_esp_name := efi_name e;
             sp_windows_present := sp_windows_present pf;
             sp_bitlocker_locked := sp_bitlocker_locked pf;
             sp_checked_partitions := sp_checked_partitions pf |}
      | None => pf
      end).

Definition validate_storage_preflight (pf : StoragePreflight) (install_mode : string) : result unit :=
  guard! sp_bitlocker_locked pf
    else "This disk has a locked BitLocker volume. Suspend or disable BitLocker in Windows (manage-bde -off) and wait for decryption before installing.";
  guard! negb (String.eqb install_mode "wipe") && negb (sp_esp_present pf)
    else "No EFI System Partition was found on the target disk. The installer preserves the existing ESP instead of formatting it; select a disk with an ESP or erase the disk.";
  Ok tt.

(** * Lemmas *)

Lemma device_name_fixed d n : device_name d = Some n → normalize_device_path n = Some n.
Proof. unfold device_name. destruct (d_name (attrs d)); [|done]. eauto with kyth. Qed.

Lemma elem_of_subtree_refl d : d ∈ subtree d.
Proof. destruct d; cbn. set_solver. Qed.

Lemma elem_of_subtree_child a cs c d : c ∈ cs → d ∈ subtree c → d ∈ subtree (Device a cs).
Proof. intros Hc Hd. cbn. right. apply elem_of_flat_map. eauto. Qed.

Lemma elem_of_all_devices s root d : root ∈ s → d ∈ subtree root → d ∈ all_devices s.
Proof. intros Hr Hd. apply elem_of_flat_map. eauto. Qed.

(** The search returns the probe of a matching device of the subtree. *)
Lemma find_partition_Some wanted root p :
  find_partition wanted root = Some p →
  ∃ d, d ∈ subtree root ∧ is_part_named wanted d = true ∧ probe_of d = Some p.
Proof.
  induction root as [a cs IH] using device_ind. cbn [find_partition].
  destruct (is_part_named wanted (Device a cs)) eqn:E.
  - intros Hp. eauto using elem_of_subtree_refl.
  - intros (c & Hc & Hf)%find_map_Some. rewrite Forall_forall in IH.
    destruct (IH c Hc Hf) as (d & Hd & ? & ?). eauto using elem_of_subtree_child.
Qed.

Lemma probe_of_Some d p :
  probe_of d = Some p →
  device_name d = Some (pb_name p) ∧ d_partn (attrs d) = Some (pb_number p) ∧
  pb_size_bytes p = unwrap_or (d_size (attrs d)) 0 ∧
  pb_start_bytes p = sat_mul64 (unwrap_or (d_start (attrs d)) 0) 512 ∧
  pb_fstype p = lower_field (d_fstype (attrs d)) ∧
  pb_label p = unwrap_or (d_label (attrs d)) EmptyString ∧
  (pb_current p = true ↔ mountpoints d ≠ []) ∧ (pb_in_use p = true ↔ children d ≠ []) ∧
  (pb_read_only p = true ↔ d_ro (attrs d) = Some true) ∧
  pb_partuuid p = unwrap_or (d_partuuid (attrs d)) EmptyString.
Proof.
  unfold probe_of. destruct (device_name d), (d_partn (attrs d)); try done.
  intros [= <-]. cbn. split_and!; try done; rewrite ?negb_true_iff, ?bool_decide_eq_false.
  - done.
  - destruct (children d); naive_solver.
  - destruct (d_ro (attrs d)) as [[]|]; naive_solver.
Qed.

Section probes.
Context `{LsblkDecoder}.

Lemma partition_probe_Ok input disk partition ss p :
  partition_probe_from_snapshot input disk partition ss = Ok p →
  ∃ n w snap root d,
    normalize_device_path disk = Some n ∧ normalize_device_path partition = Some w ∧
    decode_lsblk input = Ok snap ∧ root ∈ snap ∧ is_disk_named n root = true ∧
    d ∈ subtree root ∧ is_part_named w d = true ∧ probe_of d = Some p ∧ pb_name p = w.
Proof.
  unfold partition_probe_from_snapshot. rewrite rbind_Ok. intros (_ & _ & Hk).
  apply rbind_Ok in Hk as (n & Hn%ok_or_Ok & Hk).
  apply rbind_Ok in Hk as (w & Hw%ok_or_Ok & Hk).
  apply rbind_Ok in Hk as (snap & Hs%parse_snapshot_Ok & Hk).
  apply rbind_Ok in Hk as (root & [Hroot Hdn]%ok_or_Ok%find_first_Some & Hk).
  apply ok_or_Ok, find_partition_Some in Hk as (d & Hd & Hpn & Hpr).
  exists n, w, snap, root, d. split_and!; try done.
  unfold is_part_named in Hpn. apply probe_of_Some in Hpr as [Hname _].
  rewrite Hname in Hpn. bool_inv. by apply String.eqb_eq in Hpn.
Qed.

(** The content gate accepts an empty partition or a previous KythOS root. *)
Lemma foreign_data_reason_None fstype label role :
  foreign_data_reason fstype label role = None ↔
  fstype = EmptyString ∨ (fstype = "btrfs" ∧ eq_ignore_ascii_case (trim label) "kythos" = true).
Proof.
  unfold foreign_data_reason. destruct (str_in fstype FOREIGN_DATA_FSTYPES) eqn:E.
  - split; [done|]. apply str_in_true in E. intros [->|[-> _]]; set_solver.
  - destruct (is_empty fstype) eqn:Ee; cbn [negb andb].
    + apply is_empty_true in Ee. naive_solver.
    + apply is_empty_false in Ee. destruct (String.eqb_spec fstype "btrfs") as [->|Hb]; cbn [andb].
      * destruct (eq_ignore_ascii_case _ _); naive_solver.
      * naive_solver.
Qed.

(** What a partition must be before the guided install formats it. *)
Record replaceable (p : PartitionProbe) : Prop := {
  rp_not_esp : pb_efi p = false;
  rp_unmounted : pb_current p = false;
  rp_unstacked : pb_in_use p = false;
  rp_writable : pb_read_only p = false;
  rp_size : MIN_KYTHOS_BYTES <= pb_size_bytes p;
  rp_content : pb_fstype p = EmptyString ∨
    (pb_fstype p = "btrfs" ∧ eq_ignore_ascii_case (trim (pb_label p)) "kythos" = true);
}.

Lemma validate_replace_target_Ok input disk partition role ss p :
  validate_replace_target input disk partition role ss = Ok p ↔
  partition_probe_from_snapshot input disk partition ss = Ok p ∧ replaceable p.
Proof.
  unfold validate_replace_target. rewrite rbind_Ok. split.
  - intros (q & Hq & Hk). guard_inv Hk as E1. guard_inv Hk as E2. guard_inv Hk as E3.
    destruct (foreign_data_reason _ _ _) eqn:E4; [done|]. injection Hk as ->.
    apply foreign_data_reason_None in E4. bool_inv.
    split; [done|]. split; auto.
  - intros [Hp [He Hc Hi Hr Hs Hf]]. exists p. split; [done|].
    rewrite He, Hc, Hi, Hr. cbn [orb]. apply Z.ltb_ge in Hs. rewrite Hs.
    rewrite (proj2 (foreign_data_reason_None _ _ _) Hf). done.
Qed.

(** The gate before formatting accepts a partition exactly when the fresh
    probe finds it below the selected disk and it is not the ESP, not mounted,
    not stacked, writable, at least 32 GiB, and empty or a previous KythOS
    root. *)
Theorem replace_target_gate input disk partition role ss p :
  validate_replace_target input disk partition role ss = Ok p →
  replaceable p ∧
  ∃ n w snap root d, normalize_device_path disk = Some n ∧
    normalize_device_path partition = Some w ∧ decode_lsblk input = Ok snap ∧
    root ∈ snap ∧ is_disk_named n root = true ∧ d ∈ subtree root ∧
    device_name d = Some w ∧ has_type "part" d = true ∧
    mountpoints d = [] ∧ children d = [] ∧ pb_name p = w.
Proof.
  intros [Hp Hr]%validate_replace_target_Ok. split; [done|].
  apply partition_probe_Ok in Hp
    as (n & w & snap & root & d & Hn & Hw & Hs & Hroot & Hdn & Hd & Hpn & Hpr & Hname).
  exists n, w, snap, root, d. destruct Hr as [_ Hc Hi _ _ _].
  apply probe_of_Some in Hpr as (Hdev & _ & _ & _ & _ & _ & Hcur & Huse & _).
  unfold is_part_named in Hpn. bool_inv.
  split_and!; try done; [congruence| |].
  - destruct (mountpoints d); [done|]. rewrite (proj2 Hcur) in Hc; done.
  - destruct (children d); [done|]. rewrite (proj2 Huse) in Hi; done.
Qed.
End probes.

(** * UI records and the commit path *)

(** No two partition devices of a snapshot carry the same name. *)
Definition part_name (d : LsblkDevice) : option string :=
  if has_type "part" d then device_name d else None.
Definition unique_partitions (s : LsblkSnapshot) : Prop :=
  NoDup (filter_map part_name (all_devices s)).

Lemma partition_record_Some d r :
  partition_record d = Some r → has_type "part" d = true ∧ device_name d = Some (pr_name r).
Proof.
  unfold partition_record. destruct (has_type "part" d); cbn [negb]; [|done].
  destruct (device_name d); [|done]. by intros [= <-].
Qed.

(** On one device, the flag shown by the UI is the gate of the commit path. *)
Lemma alongside_candidate_spec d r p :
  partition_record d = Some r → probe_of d = Some p →
  (pr_alongside_candidate r = true ↔ replaceable p).
Proof.
  unfold partition_record, probe_of. destruct (has_type "part" d); cbn [negb]; [|done].
  destruct (device_name d) as [n|]; [|done]. destruct (d_partn (attrs d)); [|done].
  intros [= <-] [= <-]. cbn [pr_alongside_candidate]. unfold no_foreign_data.
  set (a := attrs d). set (fstype := lower_field (d_fstype a)).
  assert (String.eqb (lower_field (d_parttype a)) EFI_PART_GUID =
          match d_parttype a with Some p => eq_ignore_ascii_case p EFI_PART_GUID | None => false end)
    as ->. { by destruct (d_parttype a). }
  set (guid := match d_parttype a with Some _ => _ | None => _ end).
  rewrite !andb_true_iff, !negb_true_iff, Z.leb_le, !negb_false_iff, !bool_decide_eq_true.
  split.
  - intros [((((Hs & He) & Hm) & Hc) & Hro) Hf].
    destruct (foreign_data_reason fstype _ _) eqn:E; [done|].
    apply foreign_data_reason_None in E. apply app_eq_nil in Hm as [Hm Hd].
    rewrite Hm, Hd in He. apply orb_false_iff in He as [He _].
    split; cbn; fold a fstype guid; rewrite ?Hm; try done.
    + rewrite He. cbn. by rewrite andb_false_r.
    + by rewrite bool_decide_eq_true_2.
  - intros [He Hm Hc Hr Hs Hf]. cbn in *. fold a fstype guid in He, Hf, Hr, Hs.
    bool_inv. rewrite Hm in He |- *.
    assert (children d = []) as Hch by (by destruct (children d)).
    assert (descendant_mountpoints d = []) as ->.
    { destruct d as [? cs]. cbn in Hch. by subst cs. }
    rewrite (proj2 (foreign_data_reason_None _ _ _) Hf).
    split_and!; try done. rewrite H. exact He.
Qed.

Section agreement.
Context `{LsblkDecoder}.

(** The UI offers a partition for replacement exactly when the commit path
    will accept it: same snapshot, same verdict. *)
Theorem alongside_offer_agrees input ss snap records r disk p role :
  decode_lsblk input = Ok snap → unique_partitions snap →
  parse_partitions input ss = Ok records → r ∈ records →
  partition_probe_from_snapshot input disk (pr_name r) ss = Ok p →
  (pr_alongside_candidate r = true ↔
   validate_replace_target input disk (pr_name r) role ss = Ok p).
Proof.
  intros Hsnap Huniq Hrec Hr Hp. rewrite validate_replace_target_Ok.
  unfold parse_partitions in Hrec. apply rbind_Ok in Hrec as (_ & _ & Hrec).
  apply rbind_Ok in Hrec as (snap' & Hs'%parse_snapshot_Ok & [= <-]).
  assert (snap' = snap) as -> by congruence.
  apply elem_of_filter_map in Hr as (d & Hd & Hrd).
  pose proof Hp as (n & w & snap' & root & d' & Hn & Hw & Hs & Hroot & Hdn & Hd' & Hpn & Hpr & Hname)
    %partition_probe_Ok.
  assert (snap' = snap) as -> by congruence.
  destruct (partition_record_Some _ _ Hrd) as [Hty Hdn'].
  unfold is_part_named in Hpn. apply andb_true_iff in Hpn as [Hty' _].
  assert (d = d') as <-.
  { destruct (probe_of_Some _ _ Hpr) as [Hdp _].
    pose proof (device_name_fixed _ _ Hdn').
    eapply (filter_map_NoDup_inj part_name); [exact Huniq|done|by eapply elem_of_all_devices|..];
      unfold part_name; [by rewrite Hty|]. rewrite Hty'. congruence. }
  rewrite (alongside_candidate_spec _ _ _ Hrd Hpr). tauto.
Qed.

(** The loop of the preflight gathers the same ESP candidates as the query. *)
Lemma preflight_loop disk parts pf esps :
  fold_left (preflight_step disk) parts (pf, esps) =
  ({| sp_disk := sp_disk pf;
      sp_esp_present := sp_esp_present pf;
      sp_esp_name := sp_esp_name pf;
      sp_windows_present := sp_windows_present pf ||
        existsb (λ p, on_selected_disk (pr_name p) disk && looks_windows p) parts;
      sp_bitlocker_locked := sp_bitlocker_locked pf ||
        existsb (λ p, on_selected_disk (pr_name p) disk && looks_bitlocked p) parts;
      sp_checked_partitions := sp_checked_partitions pf +
        Z.of_nat (length (filterb (λ p, on_selected_disk (pr_name p) disk) parts)) |},
   esps ++ map efi_of (filterb (λ p, pr_efi p && on_selected_disk (pr_name p) disk) parts)).
Proof.
  revert pf esps. induction parts as [|p parts IH]; intros pf esps; cbn.
  { rewrite !orb_false_r, Z.add_0_r, app_nil_r. by destruct pf. }
  destruct (on_selected_disk (pr_name p) disk) eqn:E; cbn; rewrite ?andb_true_r, ?andb_false_r.
  - rewrite IH. cbn. rewrite !orb_assoc. destruct (pr_efi p); cbn;
      rewrite <-?app_assoc; (do 2 f_equal; lia).
  - by rewrite IH.
Qed.

Definition esp_view (pf : StoragePreflight) : option string :=
  if sp_esp_present pf then Some (sp_esp_name pf) else None.

Lemma preflight_esp_eq input disk ss n :
  normalize_device_path disk = Some n →
  rmap esp_view (storage_preflight_from_snapshot input disk ss) =
  rmap (option_map efi_name) (efi_partition_from_snapshot input disk ss).
Proof.
  intros Hn. unfold storage_preflight_from_snapshot, efi_partition_from_snapshot.
  rewrite Hn. cbn [ok_or rbind]. destruct (parse_partitions input ss) as [parts|e]; [|done].
  cbn [rbind]. rewrite preflight_loop. cbn [app].
  destruct (resolve_esp _) as [[e|]|e]; done.
Qed.

(** The preflight and the ESP query resolve to the same partition: both
    fail on an ambiguous disk, and otherwise the preflight names exactly the ESP
    the installer later mounts. *)
Theorem preflight_esp_agrees input disk ss n :
  normalize_device_path disk = Some n →
  rmap esp_view (storage_preflight_from_snapshot input disk ss) =
  rmap (option_map efi_name) (efi_partition_from_snapshot input disk ss).
Proof. apply preflight_esp_eq. Qed.

(** A preflight that passes on a disk found no locked BitLocker volume on
    it and, unless the whole disk is erased, an ESP to preserve; every partition
    of the disk was looked at. *)
Theorem preflight_gate input disk ss pf mode n :
  normalize_device_path disk = Some n →
  storage_preflight_from_snapshot input disk ss = Ok pf →
  validate_storage_preflight pf mode = Ok tt →
  ∃ parts, parse_partitions input ss = Ok parts ∧
    (∀ p, p ∈ parts → on_selected_disk (pr_name p) n = true →
       pr_fstype p ≠ "bitlocker" ∧ (pr_in_use p = true → pr_fstype p ∉ ["ntfs"; "ntfs3"])) ∧
    (mode ≠ "wipe" → ∃ e, efi_partition_from_snapshot input disk ss = Ok (Some e) ∧
       efi_name e = sp_esp_name pf).
Proof.
  intros Hn Hpf Hv. pose proof (f_equal (rmap esp_view) Hpf) as Hag.
  rewrite (preflight_esp_eq _ _ _ _ Hn) in Hag. unfold validate_storage_preflight in Hv.
  guard_inv Hv as Hb. guard_inv Hv as He.
  unfold storage_preflight_from_snapshot in Hpf. rewrite Hn in Hpf. cbn [ok_or rbind] in Hpf.
  apply rbind_Ok in Hpf as (parts & Hparts & Hpf). rewrite preflight_loop in Hpf. cbn [app] in Hpf.
  apply rbind_Ok in Hpf as (o & Ho & [= Hpf]).
  exists parts. split; [done|]. split.
  - intros p Hp Hon.
    assert (looks_bitlocked p = false) as Hl.
    { assert (existsb (λ p, on_selected_disk (pr_name p) n && looks_bitlocked p) parts = false) as Hx.
      { destruct o; rewrite <-Hpf in Hb; exact Hb. }
      rewrite existsb_not_elem_of in Hx. specialize (Hx p Hp). by rewrite Hon in Hx. }
    unfold looks_bitlocked in Hl. apply orb_false_iff in Hl as [Hl1 Hl2].
    split; [by apply String.eqb_neq|]. intros Hin. rewrite Hin, andb_true_r in Hl2.
    by apply str_in_false.
  - intros Hm. destruct (String.eqb_spec mode "wipe"); [done|]. cbn in He. bool_inv.
    destruct (efi_partition_from_snapshot input disk ss) as [[e|]|err]; cbn in Hag;
      unfold esp_view in Hag; rewrite He in Hag; try done.
    exists e. split; [done|]. by injection Hag.
Qed.

(** A newly created partition is recognised only when it is unambiguous:
    the reported name was absent before, sits within one MiB of the requested
    geometry, and no other new partition does. *)
Theorem new_partition_unique before after start size ss name :
  new_partition_from_snapshots before after start size ss = Ok name →
  ∃ prior parts r, parse_partitions before ss = Ok prior ∧ parse_partitions after ss = Ok parts ∧
    r ∈ parts ∧ pr_name r = name ∧ name ∉ map pr_name prior ∧
    Z.abs (pr_start_bytes r - start) <= 2 ^ 20 ∧ Z.abs (pr_size_bytes r - size) <= 2 ^ 20 ∧
    ∀ r', r' ∈ parts → pr_name r' ∉ map pr_name prior →
      geometry_matches start size r' = true → r' = r.
Proof.
  unfold new_partition_from_snapshots. intros Hk. guard_inv Hk as Hz.
  apply rbind_Ok in Hk as (prior & Hprior & Hk). apply rbind_Ok in Hk as (parts & Hparts & Hk).
  set (cands := filterb _ (filterb _ parts)) in Hk.
  assert (∃ r, cands = [r] ∧ pr_name r = name) as (r & Hc & Hname).
  { destruct cands as [|r [|? ?]]; [done| |done]. injection Hk as <-. eauto. }
  assert (∀ x, x ∈ cands ↔ (x ∈ parts ∧ pr_name x ∉ map pr_name prior) ∧
            geometry_matches start size x = true) as Hin.
  { intros x. subst cands. rewrite !elem_of_filterb, bool_decide_eq_true.
    rewrite elem_of_list_to_set. done. }
  rewrite Hc in Hin. destruct (proj1 (Hin r)) as [[Hr Hnew] Hg]; [set_solver|].
  exists prior, parts, r. rewrite <-Hname.
  pose proof Hg as Hg'. unfold geometry_matches, abs_diff, GEOMETRY_TOLERANCE in Hg'. bool_inv.
  split_and!; [done..|lia|lia|]. intros r' ? ? ?.
  apply list_elem_of_singleton, Hin. done.
Qed.
End agreement.

(** ** Witnesses on the concrete machine *)

Section witnesses.
#[local] Existing Instance sample_decoder.

Definition sample_target : PartitionProbe := {|
  pb_name := "/dev/sda3"; pb_number := 3; pb_size_bytes := 100 * GiB;
  pb_start_bytes := 201 * GiB; pb_fstype := ""; pb_label := ""; pb_partuuid := "ab-03";
  pb_efi := false; pb_current := false; pb_in_use := false; pb_read_only := false |}.

Example sample_target_accepted :
  validate_replace_target "lsblk" "/dev/sda" "sda3" "target partition" 512 = Ok sample_target.
Proof. vm_compute. reflexivity. Qed.

Lemma replace_target_gate_witness : replaceable sample_target.
Proof.
  exact (proj1 (replace_target_gate "lsblk" "/dev/sda" "sda3" "target partition" 512
                  sample_target sample_target_accepted)).
Defined.

Definition sample_target_record : PartitionRecord := {|
  pr_name := "/dev/sda3"; pr_size_bytes := 100 * GiB; pr_start_bytes := 201 * GiB;
  pr_fstype := ""; pr_label := ""; pr_parttype := "0fc63daf-8483-4772-8e79-3d69d8477de4";
  pr_mountpoints := []; pr_efi := false; pr_current := false; pr_in_use := false;
  pr_read_only := false; pr_alongside_candidate := true; pr_ntfs_resize_candidate := false |}.

Definition sample_parts : list PartitionRecord :=
  filter_map partition_record (all_devices sample_snapshot).

Lemma alongside_offer_agrees_witness :
  pr_alongside_candidate sample_target_record = true ↔
  validate_replace_target "lsblk" "sda" "/dev/sda3" "root" 512 = Ok sample_target.
Proof.
  apply (alongside_offer_agrees "lsblk" 512 sample_snapshot sample_parts sample_target_record
           "sda" sample_target "root").
  - reflexivity.
  - apply (bool_decide_unpack _). vm_compute. exact I.
  - reflexivity.
  - do 2 right. left.
  - vm_compute. reflexivity.
Defined.

Lemma preflight_esp_agrees_witness :
  rmap esp_view (storage_preflight_from_snapshot "lsblk" "sda" 512) = Ok (Some "/dev/sda1").
Proof.
  rewrite (preflight_esp_agrees "lsblk" "sda" 512 "/dev/sda" ltac:(vm_compute; reflexivity)).
  vm_compute. reflexivity.
Defined.

Definition sample_preflight : StoragePreflight := {|
  sp_disk := "/dev/sda"; sp_esp_present := true; sp_esp_name := "/dev/sda1";
  sp_windows_present := true; sp_bitlocker_locked := false; sp_checked_partitions := 3 |}.

Lemma preflight_gate_witness :
  ∃ e, efi_partition_from_snapshot "lsblk" "sda" 512 = Ok (Some e) ∧ efi_name e = "/dev/sda1".
Proof.
  destruct (preflight_gate "lsblk" "sda" 512 sample_preflight "alongside" "/dev/sda"
              ltac:(vm_compute; reflexivity) ltac:(vm_compute; reflexivity)
              ltac:(vm_compute; reflexivity)) as (parts & _ & _ & He).
  apply He. discriminate.
Defined.
End witnesses.

(** Before and after adding the third partition. *)
Definition growing_decoder : LsblkDecoder := {| decode_lsblk s :=
  if String.eqb s "after" then Ok sample_snapshot
  else Ok [Device (attrs sample_disk) (take 2 (children sample_disk))] |}.

Lemma new_partition_unique_witness :
  ∃ prior parts r, @parse_partitions growing_decoder "before" 512 = Ok prior ∧
    @parse_partitions growing_decoder "after" 512 = Ok parts ∧
    r ∈ parts ∧ pr_name r = "/dev/sda3" ∧ "/dev/sda3" ∉ map pr_name prior.
Proof.
  destruct (@new_partition_unique growing_decoder "before" "after" (201 * GiB) (100 * GiB) 512
              "/dev/sda3" ltac:(vm_compute; reflexivity))
    as (prior & parts & r & H1 & H2 & H3 & H4 & H5 & _).
  exists prior, parts, r. auto.
Defined.
