(* ===== verification/FreeRegions.v ===== *)
(** Unallocated space: [free_regions], [append_region] and
    [contains_free_region] of [installer_storage.rs].

    The scan sorts the partitions of the selected disk and collects the gaps
    between them that are large enough for an installation.  The theorems say
    that no region it offers touches a partition, and that it misses no aligned
    gap of the required size. *)

From S2P Require Import Prelude RustStr StorageModel Partitions.

Record FreeRegionRecord := {
  fr_start_bytes : Z;
  fr_end_bytes : Z;
  fr_size_bytes : Z;
}.

Definition REGION_ALIGN_BYTES : Z := 1024 * 1024.

Definition append_region (regions : list FreeRegionRecord) (start end_ sector_size required : Z)
    : list FreeRegionRecord :=
  let align := Z.max sector_size REGION_ALIGN_BYTES in
  let aligned_start := wrap64 (div_ceil start align * align) in
  let aligned_end := end_ / align * align in
  if (aligned_start <? aligned_end) && (required <=? aligned_end - aligned_start) then
    regions ++ [{| fr_start_bytes := aligned_start;
                   fr_end_bytes := aligned_end;
                   fr_size_bytes := aligned_end - aligned_start |}]
  else regions.

(** The sector-rounded span of a partition; [None] is the early return for a
    partition that does not fit the disk. *)
Definition partition_span (disk_size sector_size : Z) (p : PartitionRecord) : option (Z * Z) :=
  if (pr_size_bytes p =? 0)
     || (disk_size <? pr_start_bytes p)
     || (sat_sub64 disk_size (pr_start_bytes p) <? pr_size_bytes p)
  then None
  else
    let start := pr_start_bytes p / sector_size * sector_size in
    let size := pr_size_bytes p / sector_size * sector_size in
    if (size =? 0) || (sat_sub64 disk_size size <? start) then None
    else Some (start, start + size).

Fixpoint collect_spans (disk_size sector_size : Z) (spans : list (Z * Z))
    (parts : list PartitionRecord) : option (list (Z * Z)) :=
  match parts with
  | [] => Some spans
  | p :: parts =>
      match partition_span disk_size sector_size p with
      | Some s => collect_spans disk_size sector_size (spans ++ [s]) parts
      | None => None
      end
  end.

(** [spans.sort_unstable()]: the derived order of pairs is lexicographic, and
    equal pairs are indistinguishable. *)
Definition span_le (a b : Z * Z) : Prop := fst a < fst b ∨ (fst a = fst b ∧ snd a <= snd b).
#[export] Instance span_le_dec : RelDecision span_le.
Proof. intros a b. unfold span_le. apply _. Defined.

Definition scan_step (sector_size required : Z) (acc : Z * list FreeRegionRecord)
    (span : Z * Z) : Z * list FreeRegionRecord :=
  let '(cursor, regions) := acc in
  let '(start, end_) := span in
  (Z.max cursor end_,
   if cursor <? start then append_region regions cursor start sector_size required else regions).

Definition free_regions `{LsblkDecoder} (disk_snapshot disk : string) (sector_size : Z)
    : result (list FreeRegionRecord) :=
  check! valid_sector_size sector_size;
  let? meta := disk_metadata disk_snapshot disk in
  let '(disk_size, is_gpt) := meta in
  if disk_size <=? sat_mul64 GPT_RESERVE_BYTES 2 then Ok []
  else
    let? partitions := parse_partitions disk_snapshot sector_size in
    let has_bios_boot :=
      existsb (λ p, eq_ignore_ascii_case (pr_parttype p) BIOS_BOOT_GUID) partitions in
    let required := MIN_KYTHOS_BYTES + (if is_gpt && negb has_bios_boot then GPT_RESERVE_BYTES else 0) in
    let? selected_disk := ok_or (normalize_device_path disk) "invalid disk path for storage query" in
    match collect_spans disk_size sector_size []
            (filterb (λ p, on_selected_disk (pr_name p) selected_disk) partitions) with
    | None => Ok []
    | Some spans =>
        let usable_end := disk_size - GPT_RESERVE_BYTES in
        let '(cursor, regions) :=
          fold_left (scan_step sector_size required) (merge_sort span_le spans)
            (GPT_RESERVE_BYTES, []) in
        Ok (if cursor <? usable_end
            then append_region regions cursor usable_end sector_size required
            else regions)
    end.

Definition contains_free_region `{LsblkDecoder} (input disk : string) (start end_ sector_size : Z)
    : result bool :=
  if end_ <=? start then Ok false
  else
    let? regions := free_regions input disk sector_size in
    Ok (existsb (λ r, (fr_start_bytes r <=? start) && (end_ <=? fr_end_bytes r)) regions).

(** * The scan *)

Lemma sector_size_bounds ss : valid_sector_size ss = Ok tt → 512 <= ss <= 4096.
Proof.
  unfold valid_sector_size. intros H. guard_inv H as E. bool_inv. lia.
Qed.

(** The scan as a function of the cursor, without the accumulator. *)
Section scan.
Context (ss required usable_end : Z).

Fixpoint gaps (cursor : Z) (spans : list (Z * Z)) : list FreeRegionRecord :=
  match spans with
  | [] => if cursor <? usable_end then append_region [] cursor usable_end ss required else []
  | (start, end_) :: spans =>
      (if cursor <? start then append_region [] cursor start ss required else [])
      ++ gaps (Z.max cursor end_) spans
  end.

Lemma append_region_app regions start end_ :
  append_region regions start end_ ss required =
  regions ++ append_region [] start end_ ss required.
Proof. unfold append_region. case_match; cbn; by rewrite ?app_nil_r. Qed.

Lemma scan_gaps spans cursor regions :
  (let '(c, rs) := fold_left (scan_step ss required) spans (cursor, regions) in
   if c <? usable_end then append_region rs c usable_end ss required else rs)
  = regions ++ gaps cursor spans.
Proof.
  revert cursor regions. induction spans as [|[s e] spans IH]; intros cursor regions; cbn.
  - case_match; [by rewrite append_region_app|by rewrite app_nil_r].
  - rewrite IH. case_match; [rewrite append_region_app|]; by rewrite ?app_assoc, ?app_nil_r.
Qed.

Context (Hss : 512 <= ss <= 4096).

Lemma elem_of_append_region cursor e g :
  0 <= cursor → e + MiB <= 2 ^ 64 → cursor < e →
  g ∈ append_region [] cursor e ss required ↔
  fr_start_bytes g = div_ceil cursor MiB * MiB ∧ fr_end_bytes g = e / MiB * MiB ∧
  fr_size_bytes g = fr_end_bytes g - fr_start_bytes g ∧
  fr_start_bytes g < fr_end_bytes g ∧ required <= fr_size_bytes g.
Proof.
  intros Hc He Hce. unfold append_region.
  replace (Z.max ss REGION_ALIGN_BYTES) with MiB by (unfold MiB, REGION_ALIGN_BYTES; lia).
  destruct (align_up_spec cursor MiB) as [_ Hup]; [done|].
  rewrite wrap64_small by (unfold is_u64, u64_max, MiB in *; lia).
  destruct (_ && _) eqn:E; cbn [app].
  - bool_inv. rewrite list_elem_of_singleton. split; [intros ->; cbn; lia|].
    destruct g as [a b c]; cbn. intros (-> & -> & -> & _). done.
  - split; [set_solver|]. intros (-> & -> & -> & Hlt & Hreq). exfalso.
    apply andb_false_iff in E as [?|?]; bool_inv; lia.
Qed.

(** Spans of the disk, in the order of the scan. *)
Definition spans_ok (limit : Z) (spans : list (Z * Z)) : Prop :=
  Forall (λ s, 0 <= fst s < snd s ∧ snd s <= limit) spans ∧ StronglySorted span_le spans.

Definition clear_of (a b : Z) (s : Z * Z) : Prop := b <= fst s ∨ snd s <= a.

Lemma gaps_sound limit spans cursor g :
  spans_ok limit spans → 0 <= cursor → usable_end <= limit → limit + MiB <= 2 ^ 64 →
  g ∈ gaps cursor spans →
  cursor <= fr_start_bytes g ∧ fr_start_bytes g < fr_end_bytes g ∧ fr_end_bytes g <= limit ∧
  (fr_end_bytes g <= usable_end ∨ Exists (λ s, fr_end_bytes g <= fst s) spans) ∧
  (MiB | fr_start_bytes g) ∧ (MiB | fr_end_bytes g) ∧
  fr_size_bytes g = fr_end_bytes g - fr_start_bytes g ∧ required <= fr_size_bytes g ∧
  Forall (clear_of (fr_start_bytes g) (fr_end_bytes g)) spans.
Proof.
  intros [Hall Hsort] Hc0 Hul Hlim. revert cursor Hc0.
  induction Hsort as [|[s e] spans Hsort IH Hle]; intros cursor Hc0; cbn.
  - case_match; [|set_solver]. bool_inv. rewrite elem_of_append_region by lia.
    destruct (align_up_spec cursor MiB) as [? ?]; [done|].
    destruct (align_down_spec usable_end MiB) as [? ?]; [done|].
    intros (-> & -> & -> & ? & ?). split_and!; auto; lia.
  - apply Forall_cons in Hall as [Hse Hall]. cbn in Hse. rewrite elem_of_app. intros [Hg|Hg].
    + case_match; [|set_solver]. bool_inv. apply elem_of_append_region in Hg; [|lia..].
      destruct (align_up_spec cursor MiB) as [? ?]; [done|].
      destruct (align_down_spec s MiB) as [? ?]; [done|].
      destruct Hg as (-> & -> & -> & ? & ?). split_and!; auto; [lia..|right; left; cbn; lia|].
      constructor; [left; cbn; lia|].
      eapply Forall_impl; [exact Hle|]. intros [s' e']. unfold span_le, clear_of. cbn. lia.
    + apply IH in Hg; [|done|lia]. destruct Hg as (? & ? & ? & Hend & ? & ? & ? & ? & ?).
      split_and!; auto; [lia|destruct Hend; [by left|right; by right]|]. constructor; [right; cbn; lia|done].
Qed.

(** A gap that covers an aligned interval of the required size is offered. *)
Lemma append_region_hit cursor e a b :
  0 <= cursor <= a → a < b → b <= e → e + MiB <= 2 ^ 64 →
  (MiB | a) → (MiB | b) → required <= b - a →
  ∃ g, g ∈ append_region [] cursor e ss required ∧ fr_start_bytes g <= a ∧ b <= fr_end_bytes g.
Proof.
  intros Hca Hab Hbe Hlim Ha Hb Hreq.
  pose proof (align_up_least cursor MiB a ltac:(done) Ha ltac:(lia)).
  pose proof (align_down_greatest e MiB b ltac:(done) Hb Hbe).
  exists {| fr_start_bytes := div_ceil cursor MiB * MiB; fr_end_bytes := e / MiB * MiB;
            fr_size_bytes := e / MiB * MiB - div_ceil cursor MiB * MiB |}.
  rewrite elem_of_append_region by lia. cbn. lia.
Qed.

Lemma gaps_complete limit spans cursor a b :
  Forall (λ s, 0 <= fst s < snd s ∧ snd s <= limit) spans →
  0 <= cursor <= a → a < b → b <= usable_end → usable_end <= limit → limit + MiB <= 2 ^ 64 →
  (MiB | a) → (MiB | b) → required <= b - a → Forall (clear_of a b) spans →
  ∃ g, g ∈ gaps cursor spans ∧ fr_start_bytes g <= a ∧ b <= fr_end_bytes g.
Proof.
  intros Hall Hca Hab Hbu Hul Hlim Ha Hb Hreq Hclear.
  revert cursor Hca. induction spans as [|[s e] spans IH]; intros cursor Hca; cbn.
  - destruct (Z.ltb_spec cursor usable_end); [|lia]. apply append_region_hit; auto; lia.
  - apply Forall_cons in Hall as [Hse Hall], Hclear as [Hcl Hclear]. cbn in Hse.
    destruct Hcl as [Hbs|Hea]; cbn in *.
    + destruct (Z.ltb_spec cursor s); [|lia].
      destruct (append_region_hit cursor s a b) as (g & Hg & ?); auto; [lia|].
      exists g. set_solver.
    + destruct (IH Hall Hclear (Z.max cursor e)) as (g & Hg & ?); [lia|]. exists g. set_solver.
Qed.
End scan.

(** * Spans *)

(** The byte range of a partition, and the geometry lsblk reports for a healthy
    disk: sector-aligned and inside it. *)
Definition part_range (p : PartitionRecord) : Z * Z :=
  (pr_start_bytes p, pr_start_bytes p + pr_size_bytes p).
Definition sector_aligned (ss : Z) (p : PartitionRecord) : Prop :=
  (ss | pr_start_bytes p) ∧ (ss | pr_size_bytes p).

Lemma align_down_id x m : 0 < m → (m | x) → x / m * m = x.
Proof. intros Hm [k ->]. by rewrite Z.div_mul by lia. Qed.

Lemma partition_span_Some size ss p s :
  0 < ss → 0 <= pr_start_bytes p → 0 <= pr_size_bytes p →
  partition_span size ss p = Some s →
  0 <= fst s < snd s ∧ snd s <= size ∧ (sector_aligned ss p → s = part_range p).
Proof.
  intros Hss H1 H2. unfold partition_span, sat_sub64.
  case_match eqn:E1; [done|]. cbv zeta. case_match eqn:E2; [done|].
  intros [= <-]. bool_inv.
  destruct (align_down_spec (pr_start_bytes p) ss Hss) as [_ ?].
  destruct (align_down_spec (pr_size_bytes p) ss Hss) as [_ ?].
  assert (0 <= pr_start_bytes p / ss * ss).
  { apply Z.mul_nonneg_nonneg; [|lia]. apply Z.div_pos; lia. }
  assert (0 <= pr_size_bytes p / ss * ss).
  { apply Z.mul_nonneg_nonneg; [|lia]. apply Z.div_pos; lia. }
  cbn [fst snd]. split_and!; [lia..|]. intros [Ha Hb].
  unfold part_range. by rewrite !align_down_id.
Qed.

Lemma partition_span_start size ss p s :
  0 < ss → partition_span size ss p = Some s → fst s <= pr_start_bytes p.
Proof.
  intros Hss. unfold partition_span. case_match; [done|]. cbv zeta. case_match; [done|]. intros [= <-].
  cbn [fst]. destruct (align_down_spec (pr_start_bytes p) ss Hss) as [_ ?]. lia.
Qed.

Lemma partition_span_fits size ss p :
  0 < ss → sector_aligned ss p → 0 <= pr_start_bytes p → 0 < pr_size_bytes p →
  pr_start_bytes p + pr_size_bytes p <= size → partition_span size ss p = Some (part_range p).
Proof.
  intros Hss [Ha Hb] H1 H2 H3. unfold partition_span, sat_sub64, part_range.
  rewrite !align_down_id by done.
  repeat match goal with |- context [?x =? ?y] => destruct (Z.eqb_spec x y); [lia|] end.
  repeat match goal with |- context [?x <? ?y] => destruct (Z.ltb_spec x y); [lia|] end.
  done.
Qed.

Lemma collect_spans_Some size ss parts acc spans :
  collect_spans size ss acc parts = Some spans →
  ∃ l, spans = acc ++ l ∧ Forall2 (λ p s, partition_span size ss p = Some s) parts l.
Proof.
  revert acc. induction parts as [|p parts IH]; intros acc; cbn.
  - intros [= <-]. exists []. by rewrite app_nil_r.
  - destruct (partition_span size ss p) as [s|] eqn:E; [|done].
    intros (l & -> & Hl)%IH. exists (s :: l). rewrite <-app_assoc. auto.
Qed.

Lemma collect_spans_fits size ss parts acc :
  Forall (λ p, partition_span size ss p = Some (part_range p)) parts →
  collect_spans size ss acc parts = Some (acc ++ map part_range parts).
Proof.
  intros H. revert acc. induction H as [|p parts Hp _ IH]; intros acc; cbn; [by rewrite app_nil_r|].
  rewrite Hp, IH. by rewrite <-app_assoc.
Qed.

#[export] Instance span_le_total : Total span_le.
Proof. intros [a b] [c d]. unfold span_le. cbn. lia. Qed.
#[export] Instance span_le_trans : Transitive span_le.
Proof. intros [a b] [c d] [e f]. unfold span_le. cbn. lia. Qed.

(** * Soundness and completeness *)

(** Typed decoding: serde only yields sizes and starts that fit [u64]. *)
Class LsblkDecoderLaws `{LsblkDecoder} := {
  decode_u64 input snap d :
    decode_lsblk input = Ok snap → d ∈ all_devices snap →
    is_u64 (unwrap_or (d_size (attrs d)) 0) ∧ is_u64 (unwrap_or (d_start (attrs d)) 0)
}.

Section free_space.
Context `{LsblkDecoderLaws}.

Lemma parse_partitions_nonneg input ss parts p :
  parse_partitions input ss = Ok parts → p ∈ parts →
  0 <= pr_start_bytes p ∧ 0 <= pr_size_bytes p.
Proof.
  unfold parse_partitions. intros Hk Hp. apply rbind_Ok in Hk as (_ & _ & Hk).
  apply rbind_Ok in Hk as (snap & Hs%parse_snapshot_Ok & [= <-]).
  apply elem_of_filter_map in Hp as (d & Hd & Hrd).
  destruct (decode_u64 _ _ _ Hs Hd) as [Hz Hst].
  unfold partition_record in Hrd. destruct (negb _); [done|].
  destruct (device_name d); [|done]. injection Hrd as <-. cbn.
  unfold is_u64, sat_mul64, u64_max in *. lia.
Qed.

Definition required_bytes (is_gpt : bool) (parts : list PartitionRecord) : Z :=
  MIN_KYTHOS_BYTES +
  (if is_gpt && negb (existsb (λ p, eq_ignore_ascii_case (pr_parttype p) BIOS_BOOT_GUID) parts)
   then GPT_RESERVE_BYTES else 0).

Definition disk_parts (n : string) (parts : list PartitionRecord) : list PartitionRecord :=
  filterb (λ p, on_selected_disk (pr_name p) n) parts.

(** The value [free_regions] returns once the spans are known. *)
Lemma free_regions_eq input disk ss size gpt parts n :
  valid_sector_size ss = Ok tt → disk_metadata input disk = Ok (size, gpt) →
  parse_partitions input ss = Ok parts → normalize_device_path disk = Some n →
  free_regions input disk ss =
  if size <=? 2 * MiB then Ok []
  else Ok (match collect_spans size ss [] (disk_parts n parts) with
           | None => []
           | Some spans =>
               gaps ss (required_bytes gpt parts) (size - MiB) MiB (merge_sort span_le spans)
           end).
Proof.
  intros Hss Hm Hp Hn. unfold free_regions. rewrite Hss, Hm. cbn [rbind].
  change (sat_mul64 GPT_RESERVE_BYTES 2) with (2 * MiB). case_match; [done|].
  rewrite Hp, Hn. cbn [rbind ok_or]. fold (required_bytes gpt parts) (disk_parts n parts).
  destruct (collect_spans _ _ _ _) as [spans|]; [|done].
  rewrite <-(app_nil_l (gaps _ _ _ _ _)), <-scan_gaps.
  change GPT_RESERVE_BYTES with MiB. by destruct (fold_left _ _ _).
Qed.

Lemma free_regions_inv input disk ss regions :
  free_regions input disk ss = Ok regions →
  valid_sector_size ss = Ok tt ∧
  ∃ size gpt, disk_metadata input disk = Ok (size, gpt) ∧
    (regions = [] ∨ ∃ parts n, parse_partitions input ss = Ok parts ∧
       normalize_device_path disk = Some n ∧ 2 * MiB < size).
Proof.
  unfold free_regions. intros Hk. apply rbind_Ok in Hk as ([] & Hss & Hk). split; [done|].
  apply rbind_Ok in Hk as ([size gpt] & Hm & Hk). exists size, gpt. split; [done|].
  case_match eqn:E; [left; congruence|]. right.
  apply rbind_Ok in Hk as (parts & Hp & Hk). apply rbind_Ok in Hk as (n & Hn%ok_or_Ok & Hk).
  exists parts, n. split_and!; [done..|]. by apply Z.leb_gt in E.
Qed.

(** C36: no free region offered for installation touches a partition or a
    partition table.  On a disk whose size leaves room for an alignment in [u64],
    every region is aligned to 1 MiB, starts after the 1 MiB of the primary table,
    ends before the 1 MiB reserved for the backup table (or, where a partition
    starts inside that reserve, before the start of a partition), is at least the
    required size, and is disjoint from every partition of the disk whose start
    and size are multiples of the sector size. *)
Theorem free_regions_sound input disk ss regions g size gpt :
  free_regions input disk ss = Ok regions → g ∈ regions →
  disk_metadata input disk = Ok (size, gpt) → size + MiB <= 2 ^ 64 →
  ∃ n parts, normalize_device_path disk = Some n ∧ parse_partitions input ss = Ok parts ∧
    (MiB | fr_start_bytes g) ∧ (MiB | fr_end_bytes g) ∧
    MiB <= fr_start_bytes g < fr_end_bytes g ∧ fr_end_bytes g <= size ∧
    (fr_end_bytes g <= size - MiB ∨
     ∃ p, p ∈ parts ∧ on_selected_disk (pr_name p) n = true ∧ fr_end_bytes g <= pr_start_bytes p) ∧
    fr_size_bytes g = fr_end_bytes g - fr_start_bytes g ∧
    required_bytes gpt parts <= fr_size_bytes g ∧
    ∀ p, p ∈ parts → on_selected_disk (pr_name p) n = true → sector_aligned ss p →
      fr_end_bytes g <= pr_start_bytes p ∨ pr_start_bytes p + pr_size_bytes p <= fr_start_bytes g.
Proof.
  intros Hr Hg Hm Hlim.
  destruct (free_regions_inv _ _ _ _ Hr) as (Hss & size' & gpt' & Hm' & Hcase).
  assert (size' = size ∧ gpt' = gpt) as [-> ->] by (rewrite Hm in Hm'; by simplify_eq).
  destruct Hcase as [->|(parts & n & Hp & Hn & Hsz)]; [set_solver|].
  pose proof (sector_size_bounds _ Hss) as Hb.
  rewrite (free_regions_eq _ _ _ _ _ _ _ Hss Hm Hp Hn) in Hr.
  destruct (Z.leb_spec size (2 * MiB)); [lia|].
  destruct (collect_spans _ _ _ _) as [spans|] eqn:Hc; [|injection Hr as <-; set_solver].
  injection Hr as <-. apply collect_spans_Some in Hc as (l & Hl & Hspans). rewrite app_nil_l in Hl. subst l.
  assert (∀ p, p ∈ disk_parts n parts → ∃ s, s ∈ spans ∧ partition_span size ss p = Some s) as Hps.
  { intros p Hin. apply list_elem_of_lookup in Hin as [i Hi].
    destruct (Forall2_lookup_l _ _ _ _ _ Hspans Hi) as (s & Hs & ?).
    exists s. split; [by eapply list_elem_of_lookup_2|done]. }
  assert (Forall (λ s, 0 <= fst s < snd s ∧ snd s <= size) spans) as Hall.
  { apply Forall_forall. intros s Hin. apply list_elem_of_lookup in Hin as [i Hi].
    destruct (Forall2_lookup_r _ _ _ _ _ Hspans Hi) as (p & Hpi & Hsp).
    apply list_elem_of_lookup_2, elem_of_filterb in Hpi as [Hpi _].
    destruct (parse_partitions_nonneg _ _ _ _ Hp Hpi).
    destruct (partition_span_Some size ss p s) as (? & ? & _); auto; lia. }
  eapply (gaps_sound ss (required_bytes gpt parts) (size - MiB) Hb size) in Hg;
    [|split; [by rewrite merge_sort_Permutation|by apply StronglySorted_merge_sort; apply _]
     |unfold MiB; lia|unfold MiB; lia|done].
  destruct Hg as (? & ? & ? & Hend & ? & ? & ? & ? & Hclear).
  exists n, parts. split_and!; try done.
  { destruct Hend as [?|Hex]; [by left|right]. rewrite merge_sort_Permutation, Exists_exists in Hex.
    destruct Hex as (s & Hin & Hle). apply list_elem_of_lookup in Hin as [i Hi].
    destruct (Forall2_lookup_r _ _ _ _ _ Hspans Hi) as (p & Hpi & Hsp).
    apply list_elem_of_lookup_2, elem_of_filterb in Hpi as [Hpi Hon]. exists p. split_and!; [done|done|].
    apply partition_span_start in Hsp; lia. }
  intros p Hpin Hon Hal.
  destruct (Hps p) as (s & Hs & Hsp); [by apply elem_of_filterb|].
  destruct (parse_partitions_nonneg _ _ _ _ Hp Hpin).
  destruct (partition_span_Some size ss p s) as (? & ? & Heq); auto; [lia|].
  rewrite merge_sort_Permutation, Forall_forall in Hclear. specialize (Hclear s Hs).
  rewrite (Heq Hal) in Hclear. exact Hclear.
Qed.

(** Nothing is missed.  On a disk whose partitions are sector-aligned and
    inside it, every aligned interval of the required size between the two
    partition-table reserves that touches no partition is accepted as free. *)
Theorem free_space_complete input disk ss size gpt parts n a b :
  valid_sector_size ss = Ok tt → disk_metadata input disk = Ok (size, gpt) →
  size + MiB <= 2 ^ 64 → parse_partitions input ss = Ok parts →
  normalize_device_path disk = Some n →
  Forall (λ p, sector_aligned ss p ∧ 0 < pr_size_bytes p ∧
               pr_start_bytes p + pr_size_bytes p <= size) (disk_parts n parts) →
  (MiB | a) → (MiB | b) → MiB <= a → b <= size - MiB → required_bytes gpt parts <= b - a →
  Forall (λ p, b <= pr_start_bytes p ∨ pr_start_bytes p + pr_size_bytes p <= a) (disk_parts n parts) →
  contains_free_region input disk a b ss = Ok true.
Proof.
  intros Hss Hm Hlim Hp Hn Hgeo Ha Hb HMa Hbs Hreq Hclear.
  pose proof (sector_size_bounds _ Hss) as Hsb.
  assert (0 < required_bytes gpt parts) as Hpos.
  { unfold required_bytes, MIN_KYTHOS_BYTES, GPT_RESERVE_BYTES. case_match; lia. }
  assert (∀ p, p ∈ disk_parts n parts → partition_span size ss p = Some (part_range p)
            ∧ 0 <= pr_start_bytes p ∧ 0 < pr_size_bytes p
            ∧ pr_start_bytes p + pr_size_bytes p <= size) as Hfit.
  { intros p Hin. rewrite Forall_forall in Hgeo. destruct (Hgeo p Hin) as (? & ? & ?).
    apply elem_of_filterb in Hin as [Hin _].
    destruct (parse_partitions_nonneg _ _ _ _ Hp Hin).
    split_and!; try done. apply partition_span_fits; auto; lia. }
  unfold contains_free_region. destruct (Z.leb_spec b a); [lia|].
  rewrite (free_regions_eq _ _ _ _ _ _ _ Hss Hm Hp Hn).
  destruct (Z.leb_spec size (2 * MiB)); [lia|].
  rewrite collect_spans_fits by (apply Forall_forall; intros p Hin; by apply Hfit).
  cbn [app rbind]. f_equal. apply existsb_elem_of.
  set (spans := merge_sort span_le (map part_range (disk_parts n parts))).
  assert (Forall (λ s, 0 <= fst s < snd s ∧ snd s <= size) spans) as Hspans.
  { unfold spans. rewrite merge_sort_Permutation. apply Forall_map, Forall_forall.
    intros p Hin. cbn. destruct (Hfit p Hin). lia. }
  assert (Forall (clear_of a b) spans) as Hsc.
  { unfold spans. rewrite merge_sort_Permutation. by apply Forall_map. }
  destruct (gaps_complete ss (required_bytes gpt parts) (size - MiB) Hsb size spans MiB a b)
    as (g & Hg & Hlo & Hhi); auto; [unfold MiB in *; lia..|].
  exists g. split; [done|]. apply andb_true_iff. split; by apply Z.leb_le.
Qed.
End free_space.

(** ** Witnesses on the concrete machine *)

Section witnesses.
#[local] Existing Instance sample_decoder.

#[local] Instance sample_laws : LsblkDecoderLaws.
Proof.
  constructor. intros input snap d [= <-] Hd.
  set (ok d := (0 <=? unwrap_or (d_size (attrs d)) 0) && (unwrap_or (d_size (attrs d)) 0 <=? u64_max)
            && (0 <=? unwrap_or (d_start (attrs d)) 0) && (unwrap_or (d_start (attrs d)) 0 <=? u64_max)).
  assert (forallb ok (all_devices sample_snapshot) = true) as Hall by (vm_compute; reflexivity).
  rewrite forallb_forall in Hall. apply list_elem_of_In, Hall in Hd.
  unfold ok in Hd. bool_inv. unfold is_u64. lia.
Qed.

Definition sample_region : FreeRegionRecord := {|
  fr_start_bytes := 301 * GiB; fr_end_bytes := 500 * GiB - MiB; fr_size_bytes := 199 * GiB - MiB |}.

Example sample_regions : free_regions "lsblk" "/dev/sda" 512 = Ok [sample_region].
Proof. vm_compute. reflexivity. Qed.

Lemma free_regions_sound_witness :
  ∃ n parts, normalize_device_path "/dev/sda" = Some n ∧ parse_partitions "lsblk" 512 = Ok parts ∧
    required_bytes true parts <= fr_size_bytes sample_region ∧
    (fr_end_bytes sample_region <= 500 * GiB - MiB ∨
     ∃ p, p ∈ parts ∧ on_selected_disk (pr_name p) n = true ∧ fr_end_bytes sample_region <= pr_start_bytes p).
Proof.
  destruct (free_regions_sound "lsblk" "/dev/sda" 512 [sample_region] sample_region (500 * GiB) true
              sample_regions (list_elem_of_here _ _) ltac:(vm_compute; reflexivity)
              ltac:(vm_compute; discriminate)) as (n & parts & H1 & H2 & _ & _ & _ & _ & H4 & _ & H3 & _).
  exists n, parts. auto.
Defined.

Definition healthy (p : PartitionRecord) : bool :=
  (pr_start_bytes p mod 512 =? 0) && (pr_size_bytes p mod 512 =? 0) && (0 <? pr_size_bytes p)
  && (pr_start_bytes p + pr_size_bytes p <=? 500 * GiB).

Lemma free_space_complete_witness :
  contains_free_region "lsblk" "/dev/sda" (310 * GiB) (400 * GiB) 512 = Ok true.
Proof.
  apply (free_space_complete "lsblk" "/dev/sda" 512 (500 * GiB) true sample_parts "/dev/sda").
  - reflexivity.
  - vm_compute. reflexivity.
  - vm_compute. discriminate.
  - reflexivity.
  - vm_compute. reflexivity.
  - apply Forall_forall. intros p Hp%list_elem_of_In.
    assert (forallb healthy (disk_parts "/dev/sda" sample_parts) = true) as Hall
      by (vm_compute; reflexivity).
    rewrite forallb_forall in Hall. apply Hall in Hp. unfold healthy in Hp. bool_inv.
    unfold sector_aligned. rewrite <-!Z.mod_divide by discriminate. auto.
  - exists (310 * 1024). reflexivity.
  - exists (400 * 1024). reflexivity.
  - vm_compute. discriminate.
  - vm_compute. discriminate.
  - vm_compute. discriminate.
  - repeat (constructor; [right; vm_compute; discriminate|]). constructor.
Defined.
End witnesses.

(** The bound on the disk size is needed: within the last MiB of the address
    space rounding up wraps to zero and the gap appears to start at the front of
    the disk. *)
Example append_region_wraps :
  append_region [] (2 ^ 64 - MiB + 1) (2 ^ 64 - 512) 512 MIN_KYTHOS_BYTES
  = [{| fr_start_bytes := 0; fr_end_bytes := 2 ^ 64 - MiB; fr_size_bytes := 2 ^ 64 - MiB |}].
Proof. vm_compute. reflexivity. Qed.
