(* ===== verification/InstallerGuard.v ===== *)
(** Last-moment guards for the selected disk: [installer_guard.rs].

    The disk lease and raw-device lock taken around every mutation, and the
    re-probe of ancestry, live mounts and disk identity immediately before it.
    The theorems: while a lease is held no second installer gets one for the
    same block device, and a disk that passes the guard carries no mount of the
    live session. *)

From S2P Require Import Prelude RustStr StorageModel.
From S2P Require InstallerPlan.

(** [crate::installer_plan::normalize_device_path(disk).ok_or_else(...)] *)
Definition normalized (disk : string) : result string :=
  ok_or (InstallerPlan.normalize_device_path disk) "selected disk is not a safe device path".

(** * Locks *)

(** [fs::Metadata] of an opened device node. *)
Record DeviceMeta := { dm_block : bool; dm_rdev : Z; dm_dev : Z; dm_ino : Z }.

(** [fs::Metadata] of the lease directory and of a lease file. *)
Record FileMeta := {
  fm_is_dir : bool; fm_is_file : bool; fm_uid : Z; fm_nlink : Z; fm_mode : Z }.

(** What the file system answers to the calls of [acquire_lock_pair_in]. *)
Record LockOs := {
  os_open_device : string → result unit;
  os_device_meta : string → result DeviceMeta;
  os_create_dir : result unit;           (* [Ok] also when it already exists *)
  os_dir_meta : result FileMeta;
  os_open_lease : string → result unit;
  os_lease_meta : string → result FileMeta;
  os_euid : Z;
}.

(** The exclusive [flock]s held: leases by lease file, device locks by the
    inode of the device node. *)
Record Locks := { lk_leases : gset string; lk_devices : gset (Z * Z) }.

Definition no_locks : Locks := {| lk_leases := ∅; lk_devices := ∅ |}.

(** The lease of a device: aliases of one block device share it. *)
Definition lease_key (m : DeviceMeta) : string :=
  if dm_block m then "block-" +:+ show_int (dm_rdev m) +:+ ".lock"
  else "file-" +:+ show_int (dm_dev m) +:+ "-" +:+ show_int (dm_ino m) +:+ ".lock".

Definition in_use_message (disk : string) : string :=
  "another process is using " +:+ disk +:+ "; close other installers and retry".

(** The locks a successful acquisition holds. *)
Record LockPair := { lp_lease : string; lp_device : Z * Z }.

(** [bypass_allowed] is false in release builds.  A failed acquisition drops
    both files, and with them any lock already taken. *)
Definition acquire_lock_pair_in (os : LockOs) (bypass_allowed : bool) (disk : string)
    (st : Locks) : Locks * result LockPair :=
  match os_open_device os disk with
  | Err e => (st, Err ("could not lock " +:+ disk +:+ " for exclusive use: " +:+ e))
  | Ok tt =>
  match os_device_meta os disk with
  | Err e => (st, Err ("could not identify " +:+ disk +:+ ": " +:+ e))
  | Ok meta =>
  let key := lease_key meta in
  let device := (dm_dev meta, dm_ino meta) in
  match os_create_dir os with
  | Err e => (st, Err ("could not create disk lease directory: " +:+ e))
  | Ok tt =>
  match os_dir_meta os with
  | Err e => (st, Err ("could not inspect disk lease directory: " +:+ e))
  | Ok dir =>
  if negb (fm_is_dir dir) || negb (fm_uid dir =? os_euid os)
     || negb (Z.land (fm_mode dir) 18 =? 0)
  then (st, Err "disk lease directory must be owned by the installer and not writable by others")
  else
  match os_open_lease os key with
  | Err e => (st, Err ("could not open operation lease for " +:+ disk +:+ ": " +:+ e))
  | Ok tt =>
  match os_lease_meta os key with
  | Err e => (st, Err ("could not inspect operation lease: " +:+ e))
  | Ok lease =>
  if negb (fm_is_file lease) || negb (fm_uid lease =? os_euid os)
     || negb (fm_nlink lease =? 1) || negb (Z.land (fm_mode lease) 18 =? 0)
  then (st, Err "disk operation lease must be a private installer-owned regular file")
  else
  let lock_failed := bool_decide (key ∈ lk_leases st) in
  if lock_failed && negb bypass_allowed then (st, Err (in_use_message disk))
  else
  let device_lock_failed := bool_decide (device ∈ lk_devices st) in
  if device_lock_failed && negb bypass_allowed then (st, Err (in_use_message disk))
  else
    ({| lk_leases := {[key]} ∪ lk_leases st; lk_devices := {[device]} ∪ lk_devices st |},
     Ok {| lp_lease := key; lp_device := device |})
  end end end end end end.

(** [acquire_mutation_lock_in]: the pair is kept in a [DiskLock]. *)
Definition acquire_mutation_lock_in (os : LockOs) (bypass : bool) (disk : string) (st : Locks)
    : Locks * result LockPair :=
  acquire_lock_pair_in os bypass disk st.

(** [acquire_disk_lock_in]: the raw-device lock is released before bootc runs,
    the lease stays. *)
Definition acquire_disk_lock_in (os : LockOs) (bypass : bool) (disk : string) (st : Locks)
    : Locks * result string :=
  match acquire_lock_pair_in os bypass disk st with
  | (st, Ok p) =>
      ({| lk_leases := lk_leases st; lk_devices := lk_devices st ∖ {[lp_device p]} |},
       Ok (lp_lease p))
  | (st, Err e) => (st, Err e)
  end.

Definition acquire_disk_lock (os : LockOs) (bypass : bool) (disk : string) (st : Locks)
    : Locks * result LockPair :=
  match normalized disk with
  | Ok disk => acquire_mutation_lock_in os bypass disk st
  | Err e => (st, Err e)
  end.

Definition acquire_bootc_disk_lock (os : LockOs) (bypass : bool) (disk : string) (st : Locks)
    : Locks * result string :=
  match normalized disk with
  | Ok disk => acquire_disk_lock_in os bypass disk st
  | Err e => (st, Err e)
  end.

(** Dropping a [DiskLock] closes both files. *)
Definition drop_disk_lock (p : LockPair) (st : Locks) : Locks :=
  {| lk_leases := lk_leases st ∖ {[lp_lease p]}; lk_devices := lk_devices st ∖ {[lp_device p]} |}.
Definition drop_lease (key : string) (st : Locks) : Locks :=
  {| lk_leases := lk_leases st ∖ {[key]}; lk_devices := lk_devices st |}.

(** * The target guard *)

Definition validate_target_snapshots `{LsblkDecoder} (disk_snapshot ancestry_snapshot : string)
    (protected_sources : list string) (current_source : option string) (disk : string)
    : result unit :=
  let? disk := normalized disk in
  let? records := runtime_disks_from_snapshots disk_snapshot ancestry_snapshot
                    protected_sources current_source in
  match find_first (λ r, String.eqb (dr_name r) disk) records with
  | None => Err ("selected disk " +:+ disk +:+ " is unavailable, read-only, or protected by a live mount")
  | Some record =>
      guard! dr_current record
        else ("selected disk " +:+ disk +:+ " is the current live-session disk");
      Ok tt
  end.

(** The commands [validate_target_disk_inner] runs: two lsblk probes, one
    findmnt call, and the identity probe of a disk. *)
Record GuardProbes := {
  gp_disks : result string;
  gp_ancestry : result string;
  gp_mounts : result string;
  gp_identity : string → result string;
}.

Definition validate_target_disk_inner `{LsblkDecoder, FindmntDecoder} (probes : GuardProbes)
    (disk : string) (expected : option DiskIdentity) : result unit :=
  let? disk := normalized disk in
  check! match expected with
         | Some expected => verify_disk_identity (gp_identity probes) disk expected
         | None => Ok tt
         end;
  let? disk_snapshot := gp_disks probes in
  let? ancestry_snapshot := gp_ancestry probes in
  let? mounts_text := gp_mounts probes in
  let? mounts := parse_mounts mounts_text in
  validate_target_snapshots disk_snapshot ancestry_snapshot
    (protected_sources mounts) (current_source mounts) disk.

Definition validate_target_disk `{LsblkDecoder, FindmntDecoder} (probes : GuardProbes)
    (disk : string) : result unit := validate_target_disk_inner probes disk None.
Definition validate_target_disk_with_identity `{LsblkDecoder, FindmntDecoder}
    (probes : GuardProbes) (disk : string) (expected : DiskIdentity) : result unit :=
  validate_target_disk_inner probes disk (Some expected).

(** * Lease exclusion *)

Lemma acquire_lock_pair_Ok os disk st st' p :
  acquire_lock_pair_in os false disk st = (st', Ok p) →
  ∃ m, os_device_meta os disk = Ok m ∧ lp_lease p = lease_key m ∧
    lp_device p = (dm_dev m, dm_ino m) ∧
    lp_lease p ∉ lk_leases st ∧ lp_device p ∉ lk_devices st ∧
    st' = {| lk_leases := {[lp_lease p]} ∪ lk_leases st;
             lk_devices := {[lp_device p]} ∪ lk_devices st |}.
Proof.
  unfold acquire_lock_pair_in. intros H. repeat case_match; simplify_eq.
  eexists. rewrite !andb_true_r in *. bool_inv. eauto 10.
Qed.

Lemma acquire_lock_pair_held os disk st m :
  os_device_meta os disk = Ok m → lease_key m ∈ lk_leases st →
  ∃ e, acquire_lock_pair_in os false disk st = (st, Err e).
Proof.
  intros Hm Hk. unfold acquire_lock_pair_in. rewrite Hm.
  rewrite (bool_decide_eq_true_2 _ Hk). cbn [andb negb]. repeat case_match; eauto.
Qed.

(** A held lease excludes every other installer of the same disk.  After
    a mutation lock or a bootc lease is taken, acquiring either kind for any
    path whose device has the same lease fails and changes nothing, until the
    lease is dropped. *)
Theorem lease_exclusive os disk disk' st st1 st2 p key m' :
  acquire_mutation_lock_in os false disk st = (st1, Ok p) →
  acquire_disk_lock_in os false disk st = (st2, Ok key) →
  os_device_meta os disk' = Ok m' → lease_key m' = lp_lease p →
  key = lp_lease p ∧
  (∃ e, acquire_mutation_lock_in os false disk' st1 = (st1, Err e)) ∧
  (∃ e, acquire_disk_lock_in os false disk' st1 = (st1, Err e)) ∧
  (∃ e, acquire_mutation_lock_in os false disk' st2 = (st2, Err e)) ∧
  (∃ e, acquire_disk_lock_in os false disk' st2 = (st2, Err e)) ∧
  drop_disk_lock p st1 = st ∧ drop_lease key st2 = st.
Proof.
  unfold acquire_mutation_lock_in, acquire_disk_lock_in. intros H1 H2 Hm Hk. rewrite H1 in H2.
  destruct (acquire_lock_pair_Ok _ _ _ _ _ H1) as (m & Ho & El & Ed & Hl & Hd & ->).
  simplify_eq. cbn.
  edestruct (acquire_lock_pair_held os disk' {| lk_leases := {[lp_lease p]} ∪ lk_leases st;
    lk_devices := {[lp_device p]} ∪ lk_devices st |}) as [e1 E1]; [done|cbn; set_solver|].
  edestruct (acquire_lock_pair_held os disk' {| lk_leases := {[lp_lease p]} ∪ lk_leases st;
    lk_devices := ({[lp_device p]} ∪ lk_devices st) ∖ {[lp_device p]} |}) as [e2 E2];
    [done|cbn; set_solver|].
  rewrite E1, E2. split_and!; eauto.
  - destruct st as [ls ds]. unfold drop_disk_lock. cbn in *. f_equal; set_solver.
  - destruct st as [ls ds]. unfold drop_lease. cbn in *. f_equal; set_solver.
Qed.

(** * Soundness of the guard *)

Section guard.
Context `{LsblkDecoder, FindmntDecoder}.

Lemma validate_target_snapshots_Ok ds anc psources csource disk :
  validate_target_snapshots ds anc psources csource disk = Ok tt →
  ∃ n records r, InstallerPlan.normalize_device_path disk = Some n ∧
    runtime_disks_from_snapshots ds anc psources csource = Ok records ∧
    r ∈ records ∧ dr_name r = n ∧ dr_current r = false.
Proof.
  unfold validate_target_snapshots, normalized. intros Hk.
  apply rbind_Ok in Hk as (n & Hn%ok_or_Ok & Hk). apply rbind_Ok in Hk as (rs & Hrs & Hk).
  destruct (find_first _ rs) as [r|] eqn:Hf; [|done]. guard_inv Hk as Hc.
  apply find_first_Some in Hf as [Hr He%String.eqb_eq]. eauto 10.
Qed.

Lemma storage_normalize_path v w : InstallerPlan.device_path v → StorageModel.normalize_device_path v = Some w → v = w.
Proof.
  intros (b & -> & _ & _ & _ & Hall & _). unfold StorageModel.normalize_device_path. rewrite InstallerPlan.device_path_trim by done.
  change (is_empty ("/dev/" +:+ b)) with false. rewrite starts_with_app. cbv zeta. case_match; [done|]. by intros [= <-].
Qed.

(** Every field of the identity that was known at selection time is reported
    again: the serial number and the model present and equal up to surrounding
    white space (the serial number also up to case), the size equal. *)
Definition same_disk (id : DiskIdentity) (d : LsblkDevice) : Prop :=
  (∀ s, id_serial id = Some s → ∃ t, d_serial (attrs d) = Some t ∧ trim t ≠ EmptyString ∧
     to_ascii_lowercase (trim t) = to_ascii_lowercase (trim s)) ∧
  (∀ m, id_model id = Some m → ∃ t, d_model (attrs d) = Some t ∧ trim t ≠ EmptyString ∧ trim t = trim m) ∧
  (∀ z, id_size_bytes id = Some z → unwrap_or (d_size (attrs d)) 0 = z).

(** C1: a disk that passes the guard is a writable disk of the fresh probe, and it
    backs no device that is mounted at a protected place (the root, boot and ESP
    mounts, the live image, removable media): when the ancestry probe reports every
    device at one place, and the mount source is the plain path of a device, the
    reported parents do not lead from that device to the disk.  When an identity was
    recorded at selection time, a fresh probe of the disk reports the same serial
    number, model and size, as far as they were known. *)
Theorem target_guard_sound probes disk expected :
  validate_target_disk_inner probes disk expected = Ok tt →
  ∃ n ds anc mt snap tree d,
    InstallerPlan.normalize_device_path disk = Some n ∧
    gp_disks probes = Ok ds ∧ decode_lsblk ds = Ok snap ∧ gp_ancestry probes = Ok anc ∧
    gp_mounts probes = Ok mt ∧ decode_findmnt mt = Ok tree ∧
    d ∈ snap ∧ is_disk_named n d = true ∧ d_ro (attrs d) ≠ Some true ∧
    (∀ devices target source m, decode_lsblk anc = Ok devices → listed_once devices →
       (target, source) ∈ flat_map mount_entries tree → starts_with "/dev/" source = true → protected_target target →
       StorageModel.normalize_device_path source = Some m → ¬ backed_by devices m n) ∧
    (∀ id, expected = Some id → ∃ text probed d', gp_identity probes n = Ok text ∧ decode_lsblk text = Ok probed ∧
       d' ∈ probed ∧ is_disk_named n d' = true ∧ same_disk id d').
Proof.
  unfold validate_target_disk_inner, normalized. intros Hk.
  apply rbind_Ok in Hk as (n & Hn%ok_or_Ok & Hk). apply rbind_Ok in Hk as ([] & Hid & Hk).
  apply rbind_Ok in Hk as (ds & Hds & Hk). apply rbind_Ok in Hk as (anc & Hanc & Hk).
  apply rbind_Ok in Hk as (mt & Hmt & Hk). apply rbind_Ok in Hk as (table & Htab & Hk).
  assert (∃ tree, decode_findmnt mt = Ok tree) as [tree Htree].
  { unfold parse_mounts in Htab. apply rbind_Ok in Htab as (t & Ht%map_err_Ok & _). eauto. }
  rewrite (parse_mounts_Ok _ _ Htree) in Htab. injection Htab as <-.
  apply validate_target_snapshots_Ok in Hk as (n' & rs & r & Hn' & Hrs & Hr & Hname & Hcur).
  rewrite (InstallerPlan.normalize_device_path_idemp _ _ Hn) in Hn'. injection Hn' as <-.
  destruct (runtime_facts _ _ _ _ _ _ Hrs Hr) as [(snap & d & Hs & Hd & Hdn & Hro & _) [Hprot _]].
  rewrite Hname in *.
  exists n, ds, anc, mt, snap, tree, d. split_and!; try done.
  - intros devices target source m Hdev Honce Hin Hslash Hpt Hm Hb. eapply Hprot; [|by eapply backed_parent_disk|done].
    apply elem_of_protected_sources. exists target. split; [|done]. by apply elem_of_filterb.
  - intros id ->. apply verify_disk_identity_sound in Hid as (n' & text & probed & d' & Hn' & Hp & Hdec & Hin & Hname' & Hsame).
    assert (n' = n) as -> by (symmetry; by eapply storage_normalize_path; [eapply InstallerPlan.normalize_device_path_sound|]).
    by exists text, probed, d'.
Qed.
End guard.

(** ** Witnesses *)

Definition sample_os : LockOs := {|
  os_open_device _ := Ok tt;
  os_device_meta disk :=
    if String.eqb disk "/dev/sda" then Ok {| dm_block := true; dm_rdev := 2048; dm_dev := 6; dm_ino := 310 |}
    else if String.eqb disk "/dev/disk0" then Ok {| dm_block := true; dm_rdev := 2048; dm_dev := 6; dm_ino := 999 |}
    else Err "No such file or directory";
  os_create_dir := Ok tt;
  os_dir_meta := Ok {| fm_is_dir := true; fm_is_file := false; fm_uid := 0; fm_nlink := 2; fm_mode := 448 |};
  os_open_lease _ := Ok tt;
  os_lease_meta _ := Ok {| fm_is_dir := false; fm_is_file := true; fm_uid := 0; fm_nlink := 1; fm_mode := 384 |};
  os_euid := 0 |}.

Definition sample_pair : LockPair := {| lp_lease := "block-2048.lock"; lp_device := (6, 310) |}.

Lemma lease_exclusive_witness :
  ∃ e, acquire_disk_lock_in sample_os false "/dev/disk0"
         {| lk_leases := {["block-2048.lock"]} ∪ ∅; lk_devices := {[(6, 310)]} ∪ ∅ |}
       = ({| lk_leases := {["block-2048.lock"]} ∪ ∅; lk_devices := {[(6, 310)]} ∪ ∅ |}, Err e).
Proof.
  apply (lease_exclusive sample_os "/dev/sda" "/dev/disk0" no_locks
    {| lk_leases := {["block-2048.lock"]} ∪ ∅; lk_devices := {[(6, 310)]} ∪ ∅ |}
    {| lk_leases := {["block-2048.lock"]} ∪ ∅; lk_devices := ({[(6, 310)]} ∪ ∅) ∖ {[(6, 310)]} |}
    sample_pair "block-2048.lock"
    {| dm_block := true; dm_rdev := 2048; dm_dev := 6; dm_ino := 999 |}); reflexivity.
Defined.

Definition sample_guard_probes : GuardProbes := {|
  gp_disks := Ok "disks"; gp_ancestry := Ok "tree"; gp_mounts := Ok "mounts";
  gp_identity := sample_probe |}.

(** The [i]th device of the sample, whose parent is the [j]th. *)
Lemma sample_backed i j x y d q e :
  all_devices sample_snapshot !! i = Some x → all_devices sample_snapshot !! j = Some y →
  device_name x = Some d → has_type "disk" x = false → d_pkname (attrs x) = Some q → StorageModel.normalize_device_path q = Some e →
  device_name y = Some e → has_type "disk" y = true → backed_by sample_snapshot d e.
Proof.
  intros Hx%list_elem_of_lookup_2 Hy%list_elem_of_lookup_2 ? ? ? ? ? ?. eapply (backed_up _ _ x); [done..|]. by eapply (backed_disk _ _ y).
Qed.

Lemma target_guard_sound_witness :
  (∀ m, StorageModel.normalize_device_path "/dev/sdb1" = Some m → ¬ backed_by sample_snapshot m "/dev/sda")
  ∧ backed_by sample_snapshot "/dev/sdb1" "/dev/sdb"
  ∧ ∃ d, d ∈ sample_snapshot ∧ is_disk_named "/dev/sda" d = true ∧ same_disk sample_identity d.
Proof.
  destruct (@target_guard_sound sample_decoder sample_findmnt sample_guard_probes "sda"
              (Some sample_identity) ltac:(vm_compute; reflexivity))
    as (n & ds & anc & mt & snap & tree & d & Hn & _ & _ & Ha & _ & Ht & _ & _ & _ & Hb & Hid).
  vm_compute in Hn. injection Hn as <-. injection Ht as <-. split; [|split].
  - intros m Hm. apply (Hb sample_snapshot "/run/initramfs/live" "/dev/sdb1" m); [reflexivity| | |reflexivity| |exact Hm].
    + apply (bool_decide_unpack _). vm_compute. exact I.
    + apply (bool_decide_unpack _). vm_compute. exact I.
    + left. apply (bool_decide_unpack _). vm_compute. exact I.
  - eapply sample_backed with (i := 5%nat) (j := 4%nat) (q := "/dev/sdb"); vm_compute; reflexivity.
  - destruct (Hid _ eq_refl) as (text & probed & d' & _ & Hdec & Hin & Hname & Hsame). injection Hdec as <-. by exists d'.
Defined.

(** A root filesystem in a Btrfs subvolume: findmnt prints the subvolume behind the
    device, which is no device path, and the disk it lives on passes. *)
Definition subvolume_mounts : FindmntDecoder := {| decode_findmnt _ := Ok [Mount "/" "/dev/sda3[/root]" []] |}.
Example subvolume_root_unprotected :
  StorageModel.normalize_device_path "/dev/sda3[/root]" = None
  ∧ @validate_target_disk sample_decoder subvolume_mounts sample_guard_probes "/dev/sda" = Ok tt
  ∧ backed_by sample_snapshot "/dev/sda3" "/dev/sda".
Proof.
  split_and!; [by vm_compute..|]. eapply sample_backed with (i := 3%nat) (j := 0%nat) (q := "/dev/sda"); vm_compute; reflexivity.
Qed.

(** The live medium itself is refused. *)
Example live_medium_refused :
  is_ok (@validate_target_disk sample_decoder sample_findmnt sample_guard_probes "/dev/sdb") = false.
Proof. vm_compute. reflexivity. Qed.

(** An array over two disks is listed below each member, the last entry wins, and
    the disk of the other member passes although the root lives on it. *)
Definition raid_device (name type : string) (parent : option string) (children : list LsblkDevice) : LsblkDevice :=
  Device {|
    d_name := Some name; d_partn := None; d_size := Some (500 * GiB); d_type := Some type; d_pkname := parent;
    d_fstype := None; d_parttype := None; d_label := None; d_model := None; d_mountpoint := None; d_mountpoints := None;
    d_start := None; d_ro := Some false; d_rm := None; d_rota := None; d_tran := None; d_pttype := None; d_serial := None;
    d_partuuid := None |} children.
Definition raid_member (disk part : string) : LsblkDevice :=
  raid_device disk "disk" None [raid_device part "part" (Some disk) [raid_device "/dev/md0" "raid1" (Some part) []]].
Definition raid_decoder : LsblkDecoder :=
  {| decode_lsblk _ := Ok [raid_member "/dev/sda" "/dev/sda1"; raid_member "/dev/sdb" "/dev/sdb1"] |}.
Definition raid_mounts : FindmntDecoder := {| decode_findmnt _ := Ok [Mount "/" "/dev/md0" []] |}.
Example raid_member_unprotected :
  @validate_target_disk raid_decoder raid_mounts sample_guard_probes "/dev/sda" = Ok tt
  ∧ is_ok (@validate_target_disk raid_decoder raid_mounts sample_guard_probes "/dev/sdb") = false.
Proof. by vm_compute. Qed.
