(* ===== verification/InstallerDisk.v ===== *)
(** Typed disk operations: [installer_disk.rs].

    Every privileged disk request is a value of [DiskOperationInput]; it is
    turned into one fixed executable and argument vector, after the probes that
    confirm the partition is still the selected one.  The theorems bound what
    can ever be executed: the programs, the shape of the arguments, the
    partition identity behind every destructive operation, and the arithmetic of
    partition ends. *)

From S2P Require Import Prelude RustStr RustOs StorageModel Partitions.
From S2P Require Import InstallerPlan.

Definition MAX_LABEL_BYTES : Z := 128.
Definition MAX_PATH_BYTES : Z := 4096.
Definition DEFAULT_SECTOR_SIZE : Z := 512.

Inductive DiskOperationInput :=
| BackupTable (disk backup_path : string)
| RestoreTable (disk backup_path : string)
| CreateLabel (disk table_type : string)
| CreatePartition (disk : string) (start size : Z) (fs label : string) (sector_size : Z)
| CreateUnformattedPartition (disk : string) (start size : Z) (label : string) (sector_size : Z)
| DeletePartition (disk : string) (part_num : Z) (expected_partuuid : string)
| ResizePartition (disk : string) (part_num start new_size sector_size : Z)
    (expected_partuuid : string)
| FilesystemCheck (device : string)
| FilesystemResize (device fs : string) (new_size_bytes : Z) (stage : string)
| MountFilesystem (device mountpoint : string) (options : list string) (bind : bool)
| UnmountFilesystem (mountpoint : string) (recursive lazy : bool)
| SetPartitionFlag (disk : string) (part_num : Z) (flag : string) (enabled : bool)
    (expected_partuuid : string)
| FormatFilesystem (device fs label expected_disk : string)
| BtrfsSubvolumeCreate (mountpoint name : string)
| BtrfsSubvolumeSetDefault (mountpoint name : string)
| EnsureDirectory (path : string).

Definition backup_path_of (op : DiskOperationInput) : option string :=
  match op with
  | BackupTable _ backup_path => Some backup_path
  | _ => None
  end.

Record DiskPlan := {
  argv : list string;
  timeout_seconds : Z;
  needs_confirmation : bool;
}.

(** * Validators *)

Definition required_device (raw label : string) : result string :=
  ok_or
    (match InstallerPlan.normalize_device_path raw with
     | Some value =>
         if (5 <? slen value) && negb (contains_str "//" value) then Some value else None
     | None => None
     end)
    (label +:+ " must be a safe device path.").

Definition path_byte (c : ascii) : bool :=
  is_ascii_alphanumeric c || byte_among "/._+:-" c.

Definition safe_absolute_path (raw label : string) : result string :=
  let value := trim raw in
  guard! is_empty value || (MAX_PATH_BYTES <? slen value) || negb (starts_with "/" value)
         || contains_str ".." value || contains_str "//" value || negb (str_all path_byte value)
    else (label +:+ " must be an absolute safe path.");
  Ok value.

Definition safe_mountpoint (raw : string) : result string := safe_absolute_path raw "mount point".

Definition safe_btrfs_subvolume_name (raw : string) : result string :=
  let name := trim raw in
  guard! negb (str_in name ["@"; "@home"]) else "unsupported Btrfs subvolume name";
  Ok name.

Definition option_byte (c : ascii) : bool :=
  is_ascii_alphanumeric c || byte_among "=:._+@-" c.

Definition safe_mount_options (options : list string) : result (list string) :=
  guard! 8 <? Z.of_nat (length options) else "mount options are too numerous";
  rmap_list (λ option,
    guard! is_empty option || (128 <? slen option) || negb (str_all option_byte option)
      else "mount options contain unsupported characters";
    Ok option) options.

Definition safe_label (raw : string) : result string :=
  guard! (MAX_LABEL_BYTES <? slen raw) || has_control raw
    else "partition label is empty or contains unsafe characters.";
  Ok raw.

Definition normalized_name (raw : string) : string := to_ascii_lowercase (trim raw).

Definition safe_partuuid (raw : string) : result string :=
  let value := trim raw in
  guard! is_empty value || (128 <? slen value)
         || negb (str_all (λ c, is_ascii_hexdigit c || Ascii.eqb c "-") value)
    else "expected partition UUID is invalid.";
  Ok value.

(** * Probes *)

Class DiskProbes := {
  lsblk_snapshot : option string → string → result string;
  logical_sector_size : string → result Z;
  partition_table_type : string → result string;
}.

(** [impl DiskProbes for OsDiskProbes]: the three read-only commands. *)
Definition os_lsblk_snapshot `{Runner} (disk : option string) (columns : string) : result string :=
  probe_text "/usr/bin/lsblk"
    (["--json"; "--bytes"; "--paths"; "--output"; columns]
     ++ match disk with Some d => [d] | None => [] end)
    (λ e, "could not probe disk state: " +:+ e)
    "disk state probe failed." "disk state probe was not UTF-8.".

Definition os_logical_sector_size `{Runner} (disk : string) : result Z :=
  let? text := probe_text "/usr/bin/blockdev" ["--getss"; disk]
                 (λ e, "could not probe sector size: " +:+ e)
                 "sector size probe failed." "sector size probe was not UTF-8." in
  let? size := ok_or (parse_u64 (trim text)) "sector size probe returned an invalid value." in
  guard! negb (is_power_of_two size) || negb ((512 <=? size) && (size <=? 4096))
    else "storage probe returned an unsupported sector size.";
  Ok size.

Definition probe_partition_table_type `{Runner} (disk : string) : result string :=
  let? disk := required_device disk "disk" in
  let? text := probe_text "/usr/bin/lsblk" ["--nodeps"; "--noheadings"; "--output"; "PTTYPE"; disk]
                 (λ e, "could not probe partition table type: " +:+ e)
                 "partition table type probe failed." "partition table type probe was not UTF-8." in
  let table_type := to_ascii_lowercase (trim text) in
  guard! negb (str_in table_type ["gpt"; "dos"])
    else "disk has no recognized partition table; refusing to back it up.";
  Ok table_type.

Definition OsDiskProbes `{Runner} : DiskProbes := {|
  lsblk_snapshot := os_lsblk_snapshot;
  logical_sector_size := os_logical_sector_size;
  partition_table_type := probe_partition_table_type;
|}.

(** [sfdisk_binary], over the existence test of a path. *)
Definition sfdisk_binary (exists_path : string → bool) : result string :=
  ok_or (find_first exists_path ["/usr/sbin/sfdisk"; "/usr/bin/sfdisk"])
    "sfdisk is required for MBR partition table backup but is not installed.".

(** * Plans *)

Definition plan (argv : list string) (timeout : Z) : DiskPlan :=
  {| argv := argv; timeout_seconds := timeout; needs_confirmation := false |}.
Definition confirmed_plan (argv : list string) (timeout : Z) : DiskPlan :=
  {| argv := argv; timeout_seconds := timeout; needs_confirmation := true |}.

Definition quoted (s : string) : string := quote +:+ s +:+ quote.

Definition table_backup_plan (disk backup_path table_type : string) (sfdisk : option string)
    : result DiskPlan :=
  if String.eqb table_type "gpt" then
    let? path := safe_absolute_path backup_path "backup path" in
    let? disk := required_device disk "disk" in
    Ok (plan ["/usr/sbin/sgdisk"; "--backup"; path; disk] 30)
  else if String.eqb table_type "dos" then
    let? sfdisk := ok_or sfdisk
      "sfdisk is required for MBR partition table backup but is not installed." in
    let? disk := required_device disk "disk" in
    let? path := safe_absolute_path backup_path "backup path" in
    Ok (plan ["/bin/sh"; "-c";
              "exec " +:+ sfdisk +:+ " --dump " +:+ quoted "$1" +:+ " > " +:+ quoted "$2";
              "kyth-sfdisk-dump"; disk; path] 30)
  else Err ("unsupported partition table type: " +:+ table_type).

Definition table_restore_plan (disk backup_path table_type : string) (sfdisk : option string)
    : result DiskPlan :=
  if String.eqb table_type "gpt" then
    let? path := safe_absolute_path backup_path "backup path" in
    let? disk := required_device disk "disk" in
    Ok (plan ["/usr/sbin/sgdisk"; "--load-backup"; path; disk] 60)
  else if String.eqb table_type "dos" then
    let? sfdisk := ok_or sfdisk
      "sfdisk is required for MBR partition table restore but is not installed." in
    let? disk := required_device disk "disk" in
    let? path := safe_absolute_path backup_path "backup path" in
    Ok (plan ["/bin/sh"; "-c";
              "exec " +:+ sfdisk +:+ " --force " +:+ quoted "$1" +:+ " < " +:+ quoted "$2";
              "kyth-sfdisk-load"; disk; path] 60)
  else Err ("unsupported partition table type: " +:+ table_type).

Definition PARTITION_ALIGN_BYTES : Z := 1024 * 1024.

Definition partition_end (start size sector_size : Z) : result Z :=
  guard! (sector_size =? 0) || negb (is_power_of_two sector_size)
         || negb ((512 <=? sector_size) && (sector_size <=? 4096))
    else "partition sector size is unsupported.";
  let align := Z.max sector_size PARTITION_ALIGN_BYTES in
  guard! (start =? 0) || (size <? align) else "partition start or size is invalid.";
  guard! negb (start mod align =? 0) || negb (size mod align =? 0)
    else "partition geometry is not aligned to 1 MiB.";
  ok_or (checked_add64 start (size - sector_size)) "partition geometry overflows.".

Definition parted_device (disk : string) (args : list string) (timeout : Z) : result DiskPlan :=
  let? disk := required_device disk "disk" in
  Ok (plan (["/usr/sbin/parted"; "-s"; disk] ++ args) timeout).

Definition interactive_parted_device (disk : string) (args : list string) (timeout : Z)
    : result DiskPlan :=
  let? disk := required_device disk "disk" in
  Ok (confirmed_plan (["/usr/sbin/parted"; "---pretend-input-tty"; disk] ++ args) timeout).

Definition build_mkfs_plan (device fs label : string) : result DiskPlan :=
  let? device := required_device device "filesystem device" in
  let fs := normalized_name fs in
  let? label := safe_label label in
  let? command :=
    (if String.eqb fs "btrfs" then Ok ("/usr/sbin/mkfs.btrfs", ["-f"])
     else if String.eqb fs "ext4" then Ok ("/usr/sbin/mkfs.ext4", ["-F"])
     else if String.eqb fs "xfs" then Ok ("/usr/sbin/mkfs.xfs", ["-f"])
     else if String.eqb fs "fat32" then Ok ("/usr/sbin/mkfs.fat", ["-F32"])
     else if String.eqb fs "linux-swap" then Ok ("/usr/sbin/mkswap", [])
     else Err ("unsupported filesystem type: " +:+ fs)) in
  let '(binary, args) := command in
  let args := if is_empty label then args
              else args ++ [if String.eqb fs "fat32" then "-n" else "-L"; label] in
  Ok (plan (binary :: args ++ [device]) (if String.eqb fs "btrfs" then 300 else 120)).

Definition mkfs_columns : string :=
  "NAME,SIZE,TYPE,FSTYPE,PARTTYPE,PARTN,LABEL,MOUNTPOINT,MOUNTPOINTS,START,RO,PKNAME".

Definition build_filesystem_resize (device fs : string) (new_size_bytes : Z) (stage : string)
    : result DiskPlan :=
  let? device := required_device device "filesystem device" in
  guard! new_size_bytes =? 0 else "filesystem resize size must be positive.";
  let fs := normalized_name fs in
  let stage := normalized_name stage in
  let ntfs := str_in fs ["ntfs"; "ntfs3"] in
  if ntfs && String.eqb stage "check" then
    Ok (plan ["/usr/sbin/ntfsresize"; "--check"; device] 240)
  else if ntfs && String.eqb stage "info" then
    Ok (plan ["/usr/sbin/ntfsresize"; "--info"; device] 120)
  else if ntfs && String.eqb stage "dry_run" then
    Ok (plan ["/usr/sbin/ntfsresize"; "--no-action"; "--size"; show_int new_size_bytes; device] 240)
  else if ntfs && String.eqb stage "resize" then
    Ok (confirmed_plan ["/usr/sbin/ntfsresize"; "--size"; show_int new_size_bytes; device] 1800)
  else if str_in fs ["ext2"; "ext3"; "ext4"] && String.eqb stage "resize" then
    Ok (plan ["/usr/sbin/resize2fs"; device; show_int (Z.max 1 (new_size_bytes / 1024)) +:+ "K"] 1800)
  else if String.eqb fs "btrfs" && String.eqb stage "resize" then
    Ok (plan ["/usr/sbin/btrfs"; "filesystem"; "resize"; show_int new_size_bytes; device] 1800)
  else Err ("unsupported filesystem resize operation: " +:+ fs +:+ "/" +:+ stage).

Definition build_delete_partition (disk : string) (part_num : Z) : result DiskPlan :=
  guard! part_num =? 0 else "partition number must be positive.";
  parted_device disk ["rm"; show_int part_num] 60.

Definition build_resize_partition (disk : string) (part_num start new_size sector_size : Z)
    : result DiskPlan :=
  guard! part_num =? 0 else "partition number must be positive.";
  let? end_ := partition_end start new_size sector_size in
  interactive_parted_device disk
    ["unit"; "B"; "resizepart"; show_int part_num; show_int end_ +:+ "B"] 120.

Definition build_set_partition_flag (disk : string) (part_num : Z) (flag : string) (enabled : bool)
    : result DiskPlan :=
  guard! part_num =? 0 else "partition number must be positive.";
  let flag := normalized_name flag in
  guard! negb (str_in flag ["bios_grub"; "esp"]) else ("unsupported partition flag: " +:+ flag);
  parted_device disk ["set"; show_int part_num; flag; if enabled then "on" else "off"] 60.

Section with_probes.
Context `{LsblkDecoder, DiskProbes} (exists_path : string → bool).

Definition assert_partition_identity (disk : string) (part_num : Z) (expected_partuuid : string)
    : result unit :=
  let? expected := safe_partuuid expected_partuuid in
  let? disk := required_device disk "disk" in
  let? snapshot := lsblk_snapshot (Some disk) "NAME,PARTN,PARTUUID,TYPE" in
  let? actual := partuuid_for_partition_number snapshot disk part_num in
  guard! negb (eq_ignore_ascii_case actual expected)
    else "partition identity changed since selection; refusing to operate on a different partition.";
  Ok tt.

Definition build_mkfs (device fs label expected_disk : string) : result DiskPlan :=
  let? device := required_device device "filesystem device" in
  let? expected_disk := required_device expected_disk "expected disk" in
  let? snapshot := lsblk_snapshot None mkfs_columns in
  let? parent := parent_disk_in_snapshot snapshot device in
  let? disk := ok_or parent "mkfs target is not on a known disk." in
  guard! negb (String.eqb disk expected_disk)
    else "mkfs target is not on the install plan's selected disk; refusing to format.";
  let? sector_size := logical_sector_size disk in
  let? _ := validate_format_target snapshot disk device sector_size in
  build_mkfs_plan device fs label.

(** The sfdisk path a table operation needs: only for an MBR table. *)
Definition sfdisk_for (table_type : string) : result (option string) :=
  if String.eqb table_type "dos" then rmap Some (sfdisk_binary exists_path) else Ok None.

Definition build_plan_with_probes (input : DiskOperationInput) : result DiskPlan :=
  match input with
  | BackupTable disk backup_path =>
      let? table_type := partition_table_type disk in
      let? sfdisk := sfdisk_for table_type in
      table_backup_plan disk backup_path table_type sfdisk
  | RestoreTable disk backup_path =>
      let? table_type := partition_table_type disk in
      let? sfdisk := sfdisk_for table_type in
      table_restore_plan disk backup_path table_type sfdisk
  | CreateLabel disk table_type =>
      let table_type := normalized_name table_type in
      guard! negb (str_in table_type ["gpt"; "msdos"])
        else ("unsupported partition table type: " +:+ table_type);
      parted_device disk ["mklabel"; table_type] 30
  | CreatePartition disk start size fs label sector_size =>
      let fs := normalized_name fs in
      guard! negb (str_in fs ["btrfs"; "ext4"; "xfs"; "fat32"; "linux-swap"])
        else ("unsupported filesystem type: " +:+ fs);
      let? label := safe_label label in
      let? end_ := partition_end start size sector_size in
      parted_device disk
        ["unit"; "B"; "mkpart"; if is_empty label then "partition" else label; fs;
         show_int start +:+ "B"; show_int end_ +:+ "B"] 120
  | CreateUnformattedPartition disk start size label sector_size =>
      let? end_ := partition_end start size sector_size in
      let? label := safe_label label in
      parted_device disk
        ["unit"; "B"; "mkpart"; label; show_int start +:+ "B"; show_int end_ +:+ "B"] 120
  | DeletePartition disk part_num expected_partuuid =>
      check! assert_partition_identity disk part_num expected_partuuid;
      build_delete_partition disk part_num
  | ResizePartition disk part_num start new_size sector_size expected_partuuid =>
      check! assert_partition_identity disk part_num expected_partuuid;
      build_resize_partition disk part_num start new_size sector_size
  | FilesystemCheck device =>
      let? device := required_device device "filesystem device" in
      Ok (plan ["/usr/sbin/e2fsck"; "-f"; "-y"; device] 600)
  | FilesystemResize device fs new_size_bytes stage =>
      build_filesystem_resize device fs new_size_bytes stage
  | MountFilesystem device mountpoint options bind =>
      let? device := if bind then safe_absolute_path device "mount source"
                     else required_device device "filesystem device" in
      let? mountpoint := safe_mountpoint mountpoint in
      let? options := safe_mount_options options in
      let flags := if bind then ["--bind"]
                   else match options with [] => [] | _ => ["-o"; join "," options] end in
      Ok (plan (["/usr/sbin/mount"] ++ flags ++ [device; mountpoint]) 30)
  | UnmountFilesystem mountpoint recursive lazy =>
      let? mountpoint := safe_mountpoint mountpoint in
      Ok (plan (["/usr/sbin/umount"] ++ (if recursive then ["-R"] else [])
                ++ (if lazy then ["-l"] else []) ++ [mountpoint]) 30)
  | SetPartitionFlag disk part_num flag enabled expected_partuuid =>
      check! assert_partition_identity disk part_num expected_partuuid;
      build_set_partition_flag disk part_num flag enabled
  | FormatFilesystem device fs label expected_disk => build_mkfs device fs label expected_disk
  | BtrfsSubvolumeCreate mountpoint name =>
      let? mountpoint := safe_mountpoint mountpoint in
      let? name := safe_btrfs_subvolume_name name in
      Ok (plan ["/usr/sbin/btrfs"; "subvolume"; "create"; mountpoint +:+ "/" +:+ name] 60)
  | BtrfsSubvolumeSetDefault mountpoint name =>
      let? mountpoint := safe_mountpoint mountpoint in
      let? name := safe_btrfs_subvolume_name name in
      Ok (plan ["/usr/sbin/btrfs"; "subvolume"; "set-default"; mountpoint +:+ "/" +:+ name] 60)
  | EnsureDirectory path =>
      let? path := safe_absolute_path path "directory path" in
      Ok (plan ["/usr/bin/mkdir"; "-p"; path] 30)
  end.
End with_probes.

(** [build_plan]: the production probes. *)
Definition build_disk_plan `{LsblkDecoder, Runner} (exists_path : string → bool)
    (input : DiskOperationInput) : result DiskPlan :=
  @build_plan_with_probes _ OsDiskProbes exists_path input.

(** * Partition geometry *)

Definition sector_sizes : list Z := [512; 1024; 2048; 4096].

Lemma sector_sizes_spec ss :
  (is_power_of_two ss && (512 <=? ss) && (ss <=? 4096)) = true ↔ ss ∈ sector_sizes.
Proof.
  split.
  - intros Hs. bool_inv.
    assert (forallb (λ x, implb (is_power_of_two x) (bool_decide (x ∈ sector_sizes)))
              (seqZ 512 3585) = true) as Hall by (vm_compute; reflexivity).
    rewrite forallb_forall in Hall. specialize (Hall ss).
    rewrite <-list_elem_of_In, elem_of_seqZ in Hall. specialize (Hall ltac:(lia)).
    replace (is_power_of_two ss) with true in Hall by congruence.
    by apply bool_decide_eq_true in Hall.
  - unfold sector_sizes. rewrite !elem_of_cons, elem_of_nil. intros Hs. by destruct_or! Hs; subst.
Qed.

(** What a request for a partition must satisfy for its end to be computed. *)
Record geometry_ok (start size ss : Z) : Prop := {
  ge_sector : ss ∈ sector_sizes;
  ge_start : 0 < start;
  ge_size : 0 < size;
  ge_start_aligned : (MiB | start);
  ge_size_aligned : (MiB | size);
  ge_fits : start + (size - ss) <= u64_max;
}.

Lemma sector_divides ss : ss ∈ sector_sizes → (ss | MiB) ∧ 512 <= ss <= 4096.
Proof.
  unfold sector_sizes. rewrite !elem_of_cons, elem_of_nil.
  intros Hs. destruct_or! Hs; try subst; try done; (split; [by apply Z.mod_divide|lia]).
Qed.

Lemma partition_end_Ok start size ss e :
  is_u64 start → is_u64 size →
  partition_end start size ss = Ok e ↔ geometry_ok start size ss ∧ e = start + (size - ss).
Proof.
  unfold is_u64. intros Hu1 Hu2. unfold partition_end, PARTITION_ALIGN_BYTES.
  replace ((ss =? 0) || _ || _) with (negb (bool_decide (ss ∈ sector_sizes))).
  2:{ destruct (decide (ss ∈ sector_sizes)) as [Hs|Hs].
      - rewrite bool_decide_true by done. pose proof (sector_divides _ Hs) as [_ ?].
        apply sector_sizes_spec in Hs. rewrite <-andb_assoc in Hs.
        apply andb_true_iff in Hs as [-> ->]. destruct (Z.eqb_spec ss 0); [lia|done].
      - rewrite bool_decide_false by done. rewrite <-sector_sizes_spec, <-andb_assoc in Hs.
        destruct (is_power_of_two ss), (_ && _); try done; by rewrite ?orb_true_r. }
  case_bool_decide as Hs; cbn [negb]; [|split; [done|by intros [[] _]]].
  destruct (sector_divides ss Hs) as [Hdiv Hb].
  replace (Z.max ss (1024 * 1024)) with MiB by (unfold MiB; lia).
  destruct (Z.eqb_spec start 0); cbn [orb]; [split; [done|intros [[] _]; lia]|].
  destruct (Z.ltb_spec size MiB).
  { split; [done|]. intros [[_ _ ? _ [k ?] _] _]. unfold MiB in *. nia. }
  destruct (Z.eqb_spec (start mod MiB) 0) as [Ha%Z.mod_divide|Ha]; [|done|]; cbn [negb orb].
  2:{ split; [done|]. intros [[_ _ _ Hd _ _] _]. by apply Z.mod_divide in Hd. }
  destruct (Z.eqb_spec (size mod MiB) 0) as [Ha'%Z.mod_divide|Ha']; [|done|]; cbn [negb orb].
  2:{ split; [done|]. intros [[_ _ _ _ Hd _] _]. by apply Z.mod_divide in Hd. }
  rewrite ok_or_Ok, checked_add64_Some. split.
  - intros [-> ?]. split; [split; auto; unfold MiB in *; lia|done].
  - intros [[] ->]. done.
Qed.

(** The end handed to parted is computed exactly when the sector size is one
    of the four supported ones, start and size are positive multiples of 1 MiB
    and the partition ends within the [u64] range; it is then the first byte of
    the partition's last sector, sector-aligned and past the start. *)
Theorem partition_end_exact start size ss e :
  is_u64 start → is_u64 size → partition_end start size ss = Ok e →
  geometry_ok start size ss ∧ e + ss = start + size ∧ (ss | e) ∧ (MiB | e + ss) ∧
  start < e <= u64_max.
Proof.
  intros Hu1 Hu2 [Hg ->]%partition_end_Ok; [|done..]. pose proof Hg as [Hs ? ? Hd1 Hd2 ?].
  destruct (sector_divides ss Hs) as [Hdiv Hb]. destruct Hd2 as [k Hk].
  assert (MiB <= size) by (unfold MiB in *; nia).
  split_and!; try done; try (unfold MiB in *; lia).
  - apply Z.divide_add_r; [by etransitivity|]. apply Z.divide_sub_r; [|done].
    transitivity MiB; [done|by exists k].
  - replace (start + (size - ss) + ss) with (start + size) by lia.
    apply Z.divide_add_r; [done|by exists k].
Qed.

(** * Identity behind the destructive operations *)

(** The partition [part_num] of [disk] in a snapshot, with its PARTUUID. *)
Definition is_partition_number (disk : string) (part_num : Z) (d : LsblkDevice) : Prop :=
  has_type "part" d = true ∧ d_partn (attrs d) = Some part_num ∧
  ∃ name, device_name d = Some name ∧ on_selected_disk name disk = true.

Lemma partuuid_fold disk n ds acc v :
  fold_left (partuuid_step disk n) ds acc = Some v →
  acc = Some v ∨
  ∃ d, d ∈ ds ∧ is_partition_number disk n d ∧ nonempty (d_partuuid (attrs d)) = Some v.
Proof.
  revert acc. induction ds as [|d ds IH]; intros acc; cbn [fold_left]; [auto|].
  intros [Hs|(d' & ? & ? & ?)]%IH; [|right; exists d'; set_solver].
  unfold partuuid_step in Hs. destruct (_ && _) eqn:E; [|by left].
  destruct (device_name d) as [name|] eqn:En; [|by left].
  destruct (on_selected_disk name disk) eqn:Eo; [|by left].
  right. exists d. bool_inv. split; [set_solver|]. split; [|done]. split_and!; eauto.
Qed.

(** The partition number of an operation that names one, with the PARTUUID the
    caller selected. *)
Definition numbered_target (op : DiskOperationInput) : option (string * Z * string) :=
  match op with
  | DeletePartition disk n uuid | ResizePartition disk n _ _ _ uuid
  | SetPartitionFlag disk n _ _ uuid => Some (disk, n, uuid)
  | _ => None
  end.

(** A path the request gate accepts is a fixed point of the inventory's
    normalisation, so both layers name the device alike. *)
Lemma request_path_known raw v :
  InstallerPlan.normalize_device_path raw = Some v →
  StorageModel.normalize_device_path v = Some v.
Proof.
  intros (b & -> & Hb & Hslash & Hdots & Hall & _)%normalize_device_path_sound.
  apply storage_path_complete. exists b. split_and!; try done.
  unfold valid_device_name. apply is_empty_false in Hb. by rewrite Hb, Hslash.
Qed.

Lemma required_device_Ok raw label v :
  required_device raw label = Ok v → InstallerPlan.normalize_device_path raw = Some v.
Proof.
  unfold required_device. rewrite ok_or_Ok.
  destruct (InstallerPlan.normalize_device_path raw); [|done]. case_match; naive_solver.
Qed.

Section gates.
Context `{LsblkDecoder, DiskProbes} (exists_path : string → bool).

Lemma assert_partition_identity_Ok disk n uuid :
  assert_partition_identity disk n uuid = Ok tt →
  ∃ dev text snap d u, required_device disk "disk" = Ok dev ∧
    lsblk_snapshot (Some dev) "NAME,PARTN,PARTUUID,TYPE" = Ok text ∧
    decode_lsblk text = Ok snap ∧ d ∈ all_devices snap ∧
    is_partition_number dev n d ∧ d_partuuid (attrs d) = Some u ∧
    eq_ignore_ascii_case (trim u) (trim uuid) = true ∧ n ≠ 0.
Proof.
  unfold assert_partition_identity, safe_partuuid. rewrite rbind_Ok. intros (x & Hx & Hk).
  guard_inv Hx as E. injection Hx as <-.
  apply rbind_Ok in Hk as (dev & Hdev & Hk). apply rbind_Ok in Hk as (text & Ht & Hk).
  apply rbind_Ok in Hk as (actual & Ha & Hk). guard_inv Hk as Hm.
  unfold partuuid_for_partition_number in Ha.
  apply rbind_Ok in Ha as (dd & Hdd%ok_or_Ok & Ha). guard_inv Ha as Hn.
  apply rbind_Ok in Ha as (snap & Hs%parse_snapshot_Ok & Ha).
  apply ok_or_Ok, partuuid_fold in Ha as [?|(d & Hd & Hp & Hu)]; [done|].
  apply nonempty_Some in Hu as (u & Hu & -> & _). bool_inv.
  apply required_device_Ok in Hdev as Hnorm. apply request_path_known in Hnorm.
  assert (dd = dev) as -> by congruence.
  exists dev, text, snap, d, u. split_and!; done.
Qed.

(** Deleting, resizing or flagging partition [n] is planned only if a fresh
    probe of that disk shows a partition with number [n] on it whose PARTUUID
    is, up to case, the one the caller selected, and [n] is not 0. *)
Theorem partition_identity_gate op disk n uuid p :
  numbered_target op = Some (disk, n, uuid) →
  build_plan_with_probes exists_path op = Ok p →
  n ≠ 0 ∧
  ∃ dev text snap d u, InstallerPlan.normalize_device_path disk = Some dev ∧
    lsblk_snapshot (Some dev) "NAME,PARTN,PARTUUID,TYPE" = Ok text ∧
    decode_lsblk text = Ok snap ∧ d ∈ all_devices snap ∧
    is_partition_number dev n d ∧ d_partuuid (attrs d) = Some u ∧
    eq_ignore_ascii_case (trim u) (trim uuid) = true ∧ dev ∈ argv p ∧ show_int n ∈ argv p.
Proof.
  intros Ht Hp.
  assert (assert_partition_identity disk n uuid = Ok tt ∧
          ∃ dev, required_device disk "disk" = Ok dev ∧ dev ∈ argv p ∧ show_int n ∈ argv p)
    as [Hid (dev' & Hdev' & Hin & Hin')].
  { destruct op; simplify_eq/=; apply rbind_Ok in Hp as ([] & Hid & Hp); (split; [done|]).
    - unfold build_delete_partition, parted_device in Hp. guard_inv Hp as E. res_inv.
      eexists. split_and!; [done|cbn; set_solver..].
    - unfold build_resize_partition, interactive_parted_device in Hp. guard_inv Hp as E. res_inv.
      eexists. split_and!; [done|cbn; set_solver..].
    - unfold build_set_partition_flag, parted_device in Hp. guard_inv Hp as E. res_inv.
      all: eexists; split_and!; [done|cbn; set_solver..]. }
  apply assert_partition_identity_Ok in Hid as (dev & text & snap & d & u & Hdev & Hrest).
  assert (dev' = dev) as -> by congruence. apply required_device_Ok in Hdev.
  split; [tauto|]. exists dev, text, snap, d, u. tauto.
Qed.

(** A filesystem is created only on a partition that a fresh probe of the
    whole system shows below the install plan's own disk and that is not the
    EFI system partition, not mounted, not the base of a mapping and writable;
    the device is the last argument of the command. *)
Theorem format_gate device fs label expected p :
  build_plan_with_probes exists_path (FormatFilesystem device fs label expected) = Ok p →
  ∃ w disk text snap root d, InstallerPlan.normalize_device_path device = Some w ∧
    InstallerPlan.normalize_device_path expected = Some disk ∧
    lsblk_snapshot None mkfs_columns = Ok text ∧ decode_lsblk text = Ok snap ∧
    parent_disk_in_snapshot text w = Ok (Some disk) ∧ root ∈ snap ∧
    is_disk_named disk root = true ∧ d ∈ subtree root ∧
    device_name d = Some w ∧ has_type "part" d = true ∧
    mountpoints d = [] ∧ children d = [] ∧ d_ro (attrs d) ≠ Some true ∧
    last (argv p) = Some w.
Proof.
  cbn [build_plan_with_probes]. unfold build_mkfs. rewrite rbind_Ok. intros (w & Hw & Hk).
  apply rbind_Ok in Hk as (disk & Hdisk & Hk). apply rbind_Ok in Hk as (text & Ht & Hk).
  apply rbind_Ok in Hk as (par & Hpar & Hk). apply rbind_Ok in Hk as (disk' & Hd'%ok_or_Ok & Hk).
  subst par. guard_inv Hk as Heq. bool_inv. apply String.eqb_eq in Heq as ->.
  apply rbind_Ok in Hk as (ss & _ & Hk). apply rbind_Ok in Hk as (probe & Hv & Hk).
  unfold validate_format_target in Hv. apply rbind_Ok in Hv as (q & Hq & Hv).
  guard_inv Hv as E1. guard_inv Hv as E2. injection Hv as ->.
  apply partition_probe_Ok in Hq
    as (n & w' & snap & root & d & Hn & Hw' & Hs & Hroot & Hdn & Hd & Hpn & Hpr & Hname).
  apply required_device_Ok in Hw as Hww, Hdisk. apply request_path_known in Hww as Hfix.
  apply request_path_known in Hdisk as Hfix'. simplify_eq.
  apply probe_of_Some in Hpr as (Hdev & _ & _ & _ & _ & _ & Hcur & Huse & Hro & _).
  unfold is_part_named in Hpn. bool_inv.
  exists (pb_name probe), n, text, snap, root, d. split_and!; try done.
  - destruct (mountpoints d); [done|].
    assert (pb_current probe = true) by (by apply Hcur). congruence.
  - destruct (children d); [done|].
    assert (pb_in_use probe = true) by (by apply Huse). congruence.
  - intros Hr%Hro. congruence.
  - unfold build_mkfs_plan in Hk. apply rbind_Ok in Hk as (v & Hv%required_device_Ok & Hk).
    assert (v = pb_name probe) as -> by (apply normalize_device_path_idemp in Hww; congruence).
    res_inv; cbn [argv plan]; by rewrite app_comm_cons, last_snoc.
Qed.
End gates.

(** * What can be executed *)

Definition trusted_programs : list string :=
  ["/usr/sbin/sgdisk"; "/bin/sh"; "/usr/sbin/parted"; "/usr/sbin/mkfs.btrfs";
   "/usr/sbin/mkfs.ext4"; "/usr/sbin/mkfs.xfs"; "/usr/sbin/mkfs.fat"; "/usr/sbin/mkswap";
   "/usr/sbin/e2fsck"; "/usr/sbin/ntfsresize"; "/usr/sbin/resize2fs"; "/usr/sbin/btrfs";
   "/usr/sbin/mount"; "/usr/sbin/umount"; "/usr/bin/mkdir"].

(** The four shell scripts, two for each place sfdisk can be installed. *)
Definition sfdisk_scripts : list string :=
  sfdisk ← ["/usr/sbin/sfdisk"; "/usr/bin/sfdisk"];
  ["exec " +:+ sfdisk +:+ " --dump " +:+ quoted "$1" +:+ " > " +:+ quoted "$2";
   "exec " +:+ sfdisk +:+ " --force " +:+ quoted "$1" +:+ " < " +:+ quoted "$2"].

(** Bytes without meaning to a shell: no space, quote, dollar, redirection,
    separator, wildcard or control character among them. *)
Definition arg_byte (c : ascii) : bool :=
  is_ascii_alphanumeric c || byte_among "/._+:-=,@" c.

(** The one free text an operation carries. *)
Definition free_text (op : DiskOperationInput) : option string :=
  match op with
  | CreatePartition _ _ _ _ label _ | CreateUnformattedPartition _ _ _ label _
  | FormatFilesystem _ _ label _ => Some label
  | _ => None
  end.

Definition arg_ok (op : DiskOperationInput) (a : string) : Prop :=
  str_all arg_byte a = true ∨ a ∈ sfdisk_scripts ∨
  (free_text op = Some a ∧ slen a <= 128 ∧ has_control a = false).

Definition absolute_path (v : string) : Prop :=
  starts_with "/" v = true ∧ contains_str ".." v = false ∧ str_all path_byte v = true ∧
  slen v <= 4096.

Definition shell_call (args : list string) : Prop :=
  ∃ script tag dev path, args = ["-c"; script; tag; dev; path] ∧ script ∈ sfdisk_scripts ∧
    tag ∈ ["kyth-sfdisk-dump"; "kyth-sfdisk-load"] ∧ device_path dev ∧ absolute_path path.

Definition plan_closed (op : DiskOperationInput) (p : DiskPlan) : Prop :=
  ∃ program args, argv p = program :: args ∧ program ∈ trusted_programs ∧
    (program = "/bin/sh" → shell_call args) ∧ Forall (arg_ok op) args.

Create HintDb kyth_arg.

Lemma alnum_arg_byte c : is_ascii_alphanumeric c = true → arg_byte c = true.
Proof. unfold arg_byte. by intros ->. Qed.

Lemma path_arg_byte c : path_byte c = true → arg_byte c = true.
Proof. destruct c as [[] [] [] [] [] [] [] []]; vm_compute; auto. Qed.

Lemma required_device_arg raw label v : required_device raw label = Ok v → str_all arg_byte v = true.
Proof.
  intros (b & _ & _ & _ & _ & Ha & _)%required_device_Ok%normalize_device_path_sound.
  eapply str_all_impl; [|exact Ha]. intros c; destruct c as [[] [] [] [] [] [] [] []]; vm_compute; auto.
Qed.

Lemma safe_absolute_path_Ok raw label v :
  safe_absolute_path raw label = Ok v → v = trim raw ∧ absolute_path v.
Proof.
  unfold safe_absolute_path. intros Hv. guard_inv Hv as E. injection Hv as <-. bool_inv.
  repeat match goal with E : (_ || _) = false |- _ => apply orb_false_iff in E as [? E] end.
  bool_inv. unfold absolute_path, MAX_PATH_BYTES in *. auto.
Qed.

Lemma safe_absolute_path_arg raw label v :
  safe_absolute_path raw label = Ok v → str_all arg_byte v = true.
Proof.
  intros (_ & _ & _ & Ha & _)%safe_absolute_path_Ok. eapply str_all_impl, Ha. apply path_arg_byte.
Qed.

Lemma show_int_arg n : str_all arg_byte (show_int n) = true.
Proof.
  apply str_all_show_int; [|done]. intros c.
  destruct c as [[] [] [] [] [] [] [] []]; vm_compute; auto.
Qed.

Lemma append_arg a b :
  str_all arg_byte a = true → str_all arg_byte b = true → str_all arg_byte (a +:+ b) = true.
Proof. rewrite str_all_app. by intros -> ->. Qed.

Lemma listed_arg x l :
  negb (str_in x l) = false → forallb (str_all arg_byte) l = true → str_all arg_byte x = true.
Proof.
  intros Hx%negb_false_iff%str_in_true Hl. rewrite forallb_forall in Hl.
  by apply Hl, list_elem_of_In.
Qed.

Lemma join_arg l : Forall (λ a, str_all arg_byte a = true) l → str_all arg_byte (join "," l) = true.
Proof.
  induction 1 as [|a l Ha _ IH]; [done|]. destruct l as [|b l]; [done|].
  change (join "," (a :: b :: l)) with (a +:+ "," +:+ join "," (b :: l)). auto using append_arg.
Qed.

#[export] Hint Extern 1 (str_all arg_byte (_ +:+ _) = true) => apply append_arg : kyth_arg.

Lemma safe_mount_options_arg options out :
  safe_mount_options options = Ok out → Forall (λ a, str_all arg_byte a = true) out.
Proof.
  unfold safe_mount_options. intros Ho. guard_inv Ho as E. apply rmap_list_Ok in Ho.
  clear E. induction Ho as [|a b l k Ha _ IH]; constructor; [|done].
  guard_inv Ha as E. injection Ha as <-. bool_inv. eapply str_all_impl; [|eassumption].
  intros c; destruct c as [[] [] [] [] [] [] [] []]; vm_compute; auto.
Qed.

Lemma safe_label_arg op raw label :
  free_text op = Some raw → safe_label raw = Ok label → arg_ok op label.
Proof.
  unfold safe_label, MAX_LABEL_BYTES. intros Hf Hl. guard_inv Hl as E. injection Hl as <-.
  bool_inv. right; right. auto.
Qed.

Lemma bytes_arg op a : str_all arg_byte a = true → arg_ok op a.
Proof. by left. Qed.

Lemma subvolume_arg raw name : safe_btrfs_subvolume_name raw = Ok name → str_all arg_byte name = true.
Proof.
  unfold safe_btrfs_subvolume_name. intros Hn. guard_inv Hn as E. injection Hn as <-.
  by eapply listed_arg.
Qed.

(** A word that came out of one of the validators. *)
Ltac checked_word v :=
  match goal with
  | H : required_device _ _ = Ok v |- _ => exact (required_device_arg _ _ _ H)
  | H : safe_absolute_path _ _ = Ok v |- _ => exact (safe_absolute_path_arg _ _ _ H)
  | H : safe_btrfs_subvolume_name _ = Ok v |- _ => exact (subvolume_arg _ _ H)
  end.

#[export] Hint Resolve bytes_arg : kyth_arg.
#[export] Hint Extern 0 (str_all arg_byte ?v = true) => checked_word v : kyth_arg.
#[export] Hint Extern 1 (arg_ok _ ?v) =>
  match goal with H : safe_label _ = Ok v |- _ => refine (safe_label_arg _ _ _ _ H); reflexivity end : kyth_arg.
#[export] Hint Extern 1 (Forall _ ?o) =>
  match goal with H : safe_mount_options _ = Ok o |- _ => exact (safe_mount_options_arg _ _ H) end : kyth_arg.
#[export] Hint Extern 1 (str_all arg_byte (join _ _) = true) => apply join_arg : kyth_arg.
#[export] Hint Extern 1 (str_all arg_byte (show_int _) = true) => apply show_int_arg : kyth_arg.

(** Closes the obligations of a plan whose program and arguments are a literal
    list of checked words. *)
Ltac closed_words :=
  match goal with
  | |- Forall _ [] => constructor
  | |- Forall _ (_ :: _) => apply Forall_cons; split; [|closed_words]
  | |- Forall _ (_ ++ _) => apply Forall_app; split; closed_words
  | |- Forall _ (if ?b then _ else _) => destruct b; closed_words
  | |- _ => idtac
  end;
  match goal with
  | |- arg_ok _ (String _ _) => by left
  | |- arg_ok _ _ => try (solve [eauto 6 with kyth_arg])
  | |- _ => try assumption
  end.
Ltac closed_plan :=
  eexists _, _; split; [reflexivity|]; split; [by apply str_in_true|]; split; [done|]; closed_words.

Lemma parted_closed op disk args timeout p :
  Forall (arg_ok op) args →
  parted_device disk args timeout = Ok p ∨ interactive_parted_device disk args timeout = Ok p →
  plan_closed op p.
Proof.
  intros Ha [Hp|Hp]; unfold parted_device, interactive_parted_device in Hp;
    apply rbind_Ok in Hp as (d & Hd & [= <-]); closed_plan.
Qed.

Lemma mkfs_closed device fs label expected w p :
  build_mkfs_plan w fs label = Ok p →
  plan_closed (FormatFilesystem device fs label expected) p.
Proof.
  unfold build_mkfs_plan. rewrite rbind_Ok. intros (d & Hd & Hk).
  apply rbind_Ok in Hk as (l & Hl & Hk). apply rbind_Ok in Hk as ([binary args] & Hc & [= <-]).
  assert (binary ∈ trusted_programs ∧ binary ≠ "/bin/sh" ∧
          Forall (arg_ok (FormatFilesystem device fs label expected)) args) as (Hb & Hn & Hargs).
  { res_inv; (split; [by apply str_in_true|split; [done|closed_words]]). }
  eexists binary, _. split; [reflexivity|]. split; [done|]. split; [done|].
  destruct (is_empty l); closed_words.
  apply bytes_arg. clear Hc. by case_match.
Qed.

Lemma resize_closed op device fs size stage p :
  build_filesystem_resize device fs size stage = Ok p → plan_closed op p.
Proof.
  unfold build_filesystem_resize. rewrite rbind_Ok. intros (d & Hd & Hk).
  guard_inv Hk as Hz. cbv zeta in Hk.
  repeat (match type of Hk with (if ?b then _ else _) = _ => destruct b end;
          [injection Hk as <-; closed_plan|]).
  discriminate.
Qed.

Lemma script_listed sfdisk exists_path t :
  sfdisk_for exists_path t = Ok (Some sfdisk) →
  ("exec " +:+ sfdisk +:+ " --dump " +:+ quoted "$1" +:+ " > " +:+ quoted "$2") ∈ sfdisk_scripts ∧
  ("exec " +:+ sfdisk +:+ " --force " +:+ quoted "$1" +:+ " < " +:+ quoted "$2") ∈ sfdisk_scripts.
Proof.
  unfold sfdisk_for. destruct (String.eqb t "dos"); [|done].
  rewrite rmap_Ok. intros (s & Hs & [= ->]).
  unfold sfdisk_binary in Hs. apply ok_or_Ok, find_first_Some in Hs as [Hs _].
  apply elem_of_cons in Hs as [->|Hs]; [|apply list_elem_of_singleton in Hs as ->];
    split; vm_compute; repeat (apply list_elem_of_here || apply list_elem_of_further).
Qed.

Lemma backup_closed op disk path t exists_path sfdisk p :
  sfdisk_for exists_path t = Ok sfdisk →
  table_backup_plan disk path t sfdisk = Ok p ∨ table_restore_plan disk path t sfdisk = Ok p →
  plan_closed op p.
Proof.
  intros Hs Hp.
  destruct (String.eqb_spec t "gpt") as [->|Hg].
  { destruct Hp as [Hp|Hp]; cbn in Hp; res_inv; closed_plan. }
  destruct (String.eqb_spec t "dos") as [->|Hd].
  2:{ unfold table_backup_plan, table_restore_plan in Hp.
      apply String.eqb_neq in Hg, Hd. rewrite Hg, Hd in Hp. naive_solver. }
  destruct sfdisk as [sfdisk|]; [|destruct Hp; done].
  apply script_listed in Hs as [Hdump Hload].
  destruct Hp as [Hp|Hp]; cbn in Hp; apply rbind_Ok in Hp as (d & Hd & Hp);
    apply rbind_Ok in Hp as (v & Hv & [= <-]);
    (eexists _, _; split; [reflexivity|]; split; [by apply str_in_true|]; split; [intros _|]).
  all: try (eexists _, _, d, v; split_and!; [reflexivity|done|set_solver| |];
            [by eapply normalize_device_path_sound, required_device_Ok
            |by apply safe_absolute_path_Ok in Hv as [_ ?]]).
  all: apply Forall_cons; split; [by left|]; apply Forall_cons; split; [by right; left|]; closed_words.
Qed.

(** C25: whatever the request and the probes, an accepted disk plan runs one of a
    fixed list of programs; the shell is only ever run with one of the two fixed
    sfdisk scripts and a validated device and path as positional parameters; and
    every other argument is free of shell metacharacters and control characters
    or is the request's label, which holds no control character. *)
Theorem disk_plan_closed `{LsblkDecoder, DiskProbes} exists_path op p :
  build_plan_with_probes exists_path op = Ok p → plan_closed op p.
Proof.
  destruct op; cbn [build_plan_with_probes]; intros Hp.
  - apply rbind_Ok in Hp as (t & _ & Hp). apply rbind_Ok in Hp as (s & Hs & Hp).
    eauto using backup_closed.
  - apply rbind_Ok in Hp as (t & _ & Hp). apply rbind_Ok in Hp as (s & Hs & Hp).
    eauto using backup_closed.
  - guard_inv Hp as Ht. eapply parted_closed; [|by left]. closed_words.
    apply bytes_arg. by eapply listed_arg.
  - guard_inv Hp as Hf. apply rbind_Ok in Hp as (l & Hl & Hp). apply rbind_Ok in Hp as (e & He & Hp).
    eapply parted_closed; [|by left]. closed_words.
    + case_match; [by left|by eapply safe_label_arg].
    + apply bytes_arg. by eapply listed_arg.
  - apply rbind_Ok in Hp as (e & He & Hp). apply rbind_Ok in Hp as (l & Hl & Hp).
    eapply parted_closed; [|by left]. closed_words.
  - apply rbind_Ok in Hp as (_ & _ & Hp). unfold build_delete_partition in Hp. guard_inv Hp as Hn.
    eapply parted_closed; [|by left]. closed_words.
  - apply rbind_Ok in Hp as (_ & _ & Hp). unfold build_resize_partition in Hp. guard_inv Hp as Hn.
    apply rbind_Ok in Hp as (e & He & Hp). eapply parted_closed; [|by right]. closed_words.
  - apply rbind_Ok in Hp as (d & Hd & [= <-]). closed_plan.
  - by eapply resize_closed.
  - apply rbind_Ok in Hp as (d & Hd & Hp). apply rbind_Ok in Hp as (m & Hm & Hp).
    apply rbind_Ok in Hp as (o & Ho & [= <-]). unfold safe_mountpoint in Hm.
    assert (str_all arg_byte d = true) by (destruct bind; eauto with kyth_arg). closed_plan.
  - apply rbind_Ok in Hp as (m & Hm & [= <-]). unfold safe_mountpoint in Hm. closed_plan.
  - apply rbind_Ok in Hp as (_ & _ & Hp). unfold build_set_partition_flag in Hp. guard_inv Hp as Hn.
    guard_inv Hp as Hf. eapply parted_closed; [|by left]. closed_words.
    + apply bytes_arg. by eapply listed_arg.
    + by case_match; left.
  - unfold build_mkfs in Hp. apply rbind_Ok in Hp as (w & _ & Hp).
    apply rbind_Ok in Hp as (e & _ & Hp). apply rbind_Ok in Hp as (text & _ & Hp).
    apply rbind_Ok in Hp as (par & _ & Hp). apply rbind_Ok in Hp as (disk & _ & Hp).
    guard_inv Hp as Hd. apply rbind_Ok in Hp as (ss & _ & Hp).
    apply rbind_Ok in Hp as (probe & _ & Hp). by eapply mkfs_closed.
  - apply rbind_Ok in Hp as (m & Hm & Hp). apply rbind_Ok in Hp as (n & Hn & [= <-]).
    unfold safe_mountpoint in Hm. closed_plan.
  - apply rbind_Ok in Hp as (m & Hm & Hp). apply rbind_Ok in Hp as (n & Hn & [= <-]).
    unfold safe_mountpoint in Hm. closed_plan.
  - apply rbind_Ok in Hp as (d & Hd & [= <-]). closed_plan.
Qed.

(** A partition-table backup that can be planned can be restored: with the
    same probes the restore of that disk from that file is planned too, with the
    same tool, device and file. *)
Theorem table_backup_restorable `{LsblkDecoder, DiskProbes} exists_path disk path p :
  build_plan_with_probes exists_path (BackupTable disk path) = Ok p →
  ∃ q dev file, build_plan_with_probes exists_path (RestoreTable disk path) = Ok q ∧
    InstallerPlan.normalize_device_path disk = Some dev ∧ file = trim path ∧
    ((argv p = ["/usr/sbin/sgdisk"; "--backup"; file; dev] ∧
      argv q = ["/usr/sbin/sgdisk"; "--load-backup"; file; dev]) ∨
     ∃ sfdisk, sfdisk_binary exists_path = Ok sfdisk ∧
      argv p = ["/bin/sh"; "-c";
        "exec " +:+ sfdisk +:+ " --dump " +:+ quoted "$1" +:+ " > " +:+ quoted "$2";
        "kyth-sfdisk-dump"; dev; file] ∧
      argv q = ["/bin/sh"; "-c";
        "exec " +:+ sfdisk +:+ " --force " +:+ quoted "$1" +:+ " < " +:+ quoted "$2";
        "kyth-sfdisk-load"; dev; file]).
Proof.
  cbn [build_plan_with_probes]. rewrite rbind_Ok. intros (t & Ht & Hp). rewrite Ht. cbn [rbind].
  apply rbind_Ok in Hp as (s & Hs & Hp). rewrite Hs. cbn [rbind].
  unfold table_backup_plan, table_restore_plan, sfdisk_for in *.
  destruct (String.eqb t "gpt").
  - apply rbind_Ok in Hp as (v & Hv & Hp). apply rbind_Ok in Hp as (d & Hd & [= <-]).
    rewrite Hv, Hd. apply safe_absolute_path_Ok in Hv as [-> _]. apply required_device_Ok in Hd.
    eexists _, d, (trim path). split_and!; [reflexivity|done|done|]. by left.
  - destruct (String.eqb t "dos"); [|done]. apply rmap_Ok in Hs as (sf & Hsf & <-).
    apply rbind_Ok in Hp as (sf' & [= <-] & Hp).
    apply rbind_Ok in Hp as (d & Hd & Hp). apply rbind_Ok in Hp as (v & Hv & [= <-]).
    cbn [ok_or rbind]. rewrite Hv, Hd. apply safe_absolute_path_Ok in Hv as [-> _].
    apply required_device_Ok in Hd. eexists _, d, (trim path). split_and!; [reflexivity|done|done|]. right. by exists sf.
Qed.

(** The operations whose tool asks before it destroys data. *)
Definition prompts (op : DiskOperationInput) : bool :=
  match op with
  | ResizePartition _ _ _ _ _ _ => true
  | FilesystemResize _ fs _ stage =>
      str_in (normalized_name fs) ["ntfs"; "ntfs3"] && String.eqb (normalized_name stage) "resize"
  | _ => false
  end.

Lemma resize_prompts device fs size stage p :
  build_filesystem_resize device fs size stage = Ok p →
  needs_confirmation p = prompts (FilesystemResize device fs size stage).
Proof.
  unfold build_filesystem_resize. rewrite rbind_Ok. intros (d & Hd & Hk). guard_inv Hk as Hz.
  cbn [prompts]. cbv zeta in Hk.
  destruct (str_in (normalized_name fs) ["ntfs"; "ntfs3"]) eqn:En; cbn [andb] in *.
  - assert (str_in (normalized_name fs) ["ext2"; "ext3"; "ext4"] = false ∧
            String.eqb (normalized_name fs) "btrfs" = false) as [Hext Hbt].
    { apply str_in_true in En. apply elem_of_cons in En as [->|En]; [done|].
      by apply list_elem_of_singleton in En as ->. }
    rewrite Hext, Hbt in Hk. cbn [andb] in Hk.
    destruct (String.eqb_spec (normalized_name stage) "check") as [->|]; [by injection Hk as <-|].
    destruct (String.eqb_spec (normalized_name stage) "info") as [->|]; [by injection Hk as <-|].
    destruct (String.eqb_spec (normalized_name stage) "dry_run") as [->|]; [by injection Hk as <-|].
    destruct (String.eqb_spec (normalized_name stage) "resize") as [_|]; [by injection Hk as <-|done].
  - destruct (_ && _); [by injection Hk as <-|]. destruct (_ && _); [by injection Hk as <-|done].
Qed.

(** An automatic confirmation is attached to exactly the two operations
    whose tool prompts, resizing a partition and shrinking NTFS. *)
Theorem confirmation_exact `{LsblkDecoder, DiskProbes} exists_path op p :
  build_plan_with_probes exists_path op = Ok p → needs_confirmation p = prompts op.
Proof.
  destruct op; cbn [build_plan_with_probes]; intros Hp;
    try (by apply resize_prompts in Hp);
    unfold table_backup_plan, table_restore_plan, build_delete_partition, build_resize_partition,
      build_set_partition_flag, build_mkfs, build_mkfs_plan, parted_device,
      interactive_parted_device in Hp; cbn zeta in Hp;
    repeat match type of Hp with
    | rbind _ _ = Ok _ => apply rbind_Ok in Hp as ([] & _ & Hp) || apply rbind_Ok in Hp as (? & _ & Hp)
    | (if ?b then _ else _) = Ok _ => destruct b
    | Err _ = Ok _ => discriminate Hp
    | Ok _ = Ok _ => injection Hp as <-
    end; reflexivity.
Qed.

(** * Witnesses *)

#[local] Existing Instance sample_decoder.
#[local] Instance sample_probes : DiskProbes := {|
  lsblk_snapshot _ _ := Ok "lsblk";
  logical_sector_size _ := Ok 512;
  partition_table_type _ := Ok "dos";
|}.
Definition sfdisk_present (p : string) : bool := String.eqb p "/usr/bin/sfdisk".

Lemma partition_end_exact_witness :
  partition_end (2 * MiB) (3 * MiB) 4096 = Ok (5 * MiB - 4096) ∧
  geometry_ok (2 * MiB) (3 * MiB) 4096.
Proof.
  split; [vm_compute; reflexivity|].
  apply (partition_end_exact (2 * MiB) (3 * MiB) 4096 (5 * MiB - 4096));
    [split; vm_compute; discriminate|split; vm_compute; discriminate|vm_compute; reflexivity].
Defined.

Definition sample_delete : DiskOperationInput := DeletePartition "sda" 3 "AB-03".
Definition sample_delete_plan : DiskPlan :=
  {| argv := ["/usr/sbin/parted"; "-s"; "/dev/sda"; "rm"; "3"];
     timeout_seconds := 60; needs_confirmation := false |}.

Example sample_delete_accepted :
  build_plan_with_probes sfdisk_present sample_delete = Ok sample_delete_plan.
Proof. vm_compute. reflexivity. Qed.

Lemma partition_identity_gate_witness :
  ∃ dev text snap d u, InstallerPlan.normalize_device_path "sda" = Some dev ∧
    lsblk_snapshot (Some dev) "NAME,PARTN,PARTUUID,TYPE" = Ok text ∧
    decode_lsblk text = Ok snap ∧ d ∈ all_devices snap ∧
    is_partition_number dev 3 d ∧ d_partuuid (attrs d) = Some u ∧
    eq_ignore_ascii_case (trim u) (trim "AB-03") = true ∧ dev ∈ argv sample_delete_plan ∧
    show_int 3 ∈ argv sample_delete_plan.
Proof.
  exact (proj2 (partition_identity_gate sfdisk_present sample_delete "sda" 3 "AB-03"
                  sample_delete_plan eq_refl sample_delete_accepted)).
Defined.

(** The same request after the partitions were renumbered. *)
Example renumbered_refused :
  is_ok (build_plan_with_probes sfdisk_present (DeletePartition "sda" 2 "AB-03")) = false.
Proof. vm_compute. reflexivity. Qed.

Definition sample_format : DiskOperationInput :=
  FormatFilesystem "/dev/sda3" "Btrfs" "kythos" "/dev/sda".
Definition sample_format_plan : DiskPlan :=
  {| argv := ["/usr/sbin/mkfs.btrfs"; "-f"; "-L"; "kythos"; "/dev/sda3"];
     timeout_seconds := 300; needs_confirmation := false |}.
Example sample_format_accepted :
  build_plan_with_probes sfdisk_present sample_format = Ok sample_format_plan.
Proof. vm_compute. reflexivity. Qed.

Lemma format_gate_witness :
  ∃ w disk, InstallerPlan.normalize_device_path "/dev/sda3" = Some w ∧
    parent_disk_in_snapshot "lsblk" w = Ok (Some disk).
Proof.
  destruct (format_gate sfdisk_present "/dev/sda3" "Btrfs" "kythos" "/dev/sda" sample_format_plan
              sample_format_accepted)
    as (w & disk & text & snap & root & d & Hw & _ & [= <-] & _ & Hp & _).
  exists w, disk. auto.
Defined.

(** The ESP, a mounted partition and another disk's partition are refused. *)
Example format_refused :
  (λ op, is_ok (build_plan_with_probes sfdisk_present op)) <$>
    [FormatFilesystem "/dev/sda1" "btrfs" "" "/dev/sda"; FormatFilesystem "/dev/sdb1" "btrfs" "" "/dev/sdb";
     FormatFilesystem "/dev/sda3" "btrfs" "" "/dev/sdb"] = [false; false; false].
Proof. vm_compute. reflexivity. Qed.

Lemma disk_plan_closed_witness : plan_closed sample_format sample_format_plan.
Proof. exact (disk_plan_closed sfdisk_present _ _ sample_format_accepted). Defined.

Definition sample_backup_plan : DiskPlan :=
  {| argv := ["/bin/sh"; "-c";
       "exec /usr/bin/sfdisk --dump " +:+ quoted "$1" +:+ " > " +:+ quoted "$2";
       "kyth-sfdisk-dump"; "/dev/sda"; "/run/backup.sfdisk"];
     timeout_seconds := 30; needs_confirmation := false |}.

Example sample_backup_accepted :
  build_plan_with_probes sfdisk_present (BackupTable "sda" "/run/backup.sfdisk")
  = Ok sample_backup_plan.
Proof. vm_compute. reflexivity. Qed.

Lemma table_backup_restorable_witness :
  ∃ q, build_plan_with_probes sfdisk_present (RestoreTable "sda" "/run/backup.sfdisk") = Ok q.
Proof.
  destruct (table_backup_restorable sfdisk_present "sda" "/run/backup.sfdisk" sample_backup_plan
              sample_backup_accepted) as (q & dev & file & Hq & _).
  exists q. exact Hq.
Defined.

Lemma confirmation_exact_witness :
  needs_confirmation sample_format_plan = prompts sample_format.
Proof. exact (confirmation_exact sfdisk_present _ _ sample_format_accepted). Defined.

(** The label check accepts the empty label its message speaks of, and the
    unformatted request passes it on as an empty argument. *)
Example empty_label_passed_on :
  rmap argv (build_plan_with_probes sfdisk_present
               (CreateUnformattedPartition "sda" MiB MiB "" 512))
  = Ok ["/usr/sbin/parted"; "-s"; "/dev/sda"; "unit"; "B"; "mkpart"; ""; "1048576B"; "2096640B"].
Proof. vm_compute. reflexivity. Qed.
