(* ===== verification/InstallerRuntime.v ===== *)
(** The externally visible job lifecycle: [installer_runtime.rs].

    [RuntimeCoordinator] keeps one [RuntimeState] behind a mutex; every method
    is one critical section, here a function from the state to the new state or
    an error that leaves it unchanged.  The theorems are over arbitrary
    sequences of calls. *)

From S2P Require Import Prelude RustStr Json.

Inductive Lifecycle := Idle | Validated | Partitioning | Installing | Done | Failed.
Inductive Phase := Prepare | Storage | Image | Configure | SecureBoot | Complete.

#[export] Instance lifecycle_eq_dec : EqDecision Lifecycle.
Proof. solve_decision. Defined.
#[export] Instance phase_eq_dec : EqDecision Phase.
Proof. solve_decision. Defined.

(** [RuntimeSnapshot] and [RuntimeState] have the same fields. *)
Record RuntimeSnapshot := {
  lifecycle : Lifecycle;
  phase : Phase;
  cancel_requested : bool;
}.

#[export] Instance snapshot_eq_dec : EqDecision RuntimeSnapshot.
Proof. solve_decision. Defined.

Definition runtime_default : RuntimeSnapshot :=
  {| lifecycle := Idle; phase := Prepare; cancel_requested := false |}.

(** [matches!(state.lifecycle, ...)] *)
Definition lifecycle_in (l : list Lifecycle) (s : RuntimeSnapshot) : bool :=
  bool_decide (lifecycle s ∈ l).

Definition claim_start (s : RuntimeSnapshot) : result RuntimeSnapshot :=
  guard! lifecycle_in [Validated; Partitioning; Installing] s
    else "An installation is already running.";
  Ok {| lifecycle := Validated; phase := Prepare; cancel_requested := false |}.

Definition start_accepted (s : RuntimeSnapshot) : result RuntimeSnapshot :=
  guard! negb (lifecycle_in [Validated] s) else "installer start response arrived out of order";
  Ok {| lifecycle := Installing; phase := phase s; cancel_requested := cancel_requested s |}.

Definition start_rejected (s : RuntimeSnapshot) : result RuntimeSnapshot :=
  Ok (if lifecycle_in [Validated] s
      then {| lifecycle := Idle; phase := phase s; cancel_requested := false |}
      else s).

Definition claim_cancel (s : RuntimeSnapshot) : result RuntimeSnapshot :=
  guard! negb (lifecycle_in [Validated; Installing] s) else "No installation is running to cancel.";
  Ok {| lifecycle := lifecycle s; phase := phase s; cancel_requested := true |}.

Definition cancel_rejected (s : RuntimeSnapshot) : result RuntimeSnapshot :=
  Ok {| lifecycle := lifecycle s; phase := phase s; cancel_requested := false |}.

Definition phase_name (p : Phase) : string :=
  match p with
  | Prepare => "prepare"
  | Storage => "storage"
  | Image => "image"
  | Configure => "configure"
  | SecureBoot => "secure_boot"
  | Complete => "complete"
  end.

Definition phase_order (p : Phase) : Z :=
  match p with
  | Prepare => 0
  | Storage => 1
  | Image => 2
  | Configure => 3
  | SecureBoot => 4
  | Complete => 5
  end.

(** The snake-case names serde accepts. *)
Definition parse_phase (name : string) : result Phase :=
  if String.eqb name "prepare" then Ok Prepare
  else if String.eqb name "storage" then Ok Storage
  else if String.eqb name "image" then Ok Image
  else if String.eqb name "configure" then Ok Configure
  else if String.eqb name "secure_boot" then Ok SecureBoot
  else if String.eqb name "complete" then Ok Complete
  else Err "installer phase event has an unknown phase".

Definition phase_event (event : json) (s : RuntimeSnapshot) : result RuntimeSnapshot :=
  let? name := ok_or (field as_str "phase" event) "installer phase event has no phase" in
  guard! negb (str_in name ["prepare"; "storage"; "image"; "configure"; "secure_boot"; "complete"])
    else "installer phase event has an unknown phase";
  guard! lifecycle_in [Idle] s else "installer phase event arrived before start";
  let? next := parse_phase name in
  guard! phase_order next <? phase_order (phase s)
    else ("installer phase moved backwards: " +:+ phase_name (phase s) +:+ " -> " +:+ phase_name next);
  guard! lifecycle_in [Done; Failed] s
    else "installer phase event arrived after a terminal event";
  Ok {| lifecycle := lifecycle s; phase := next; cancel_requested := cancel_requested s |}.

Definition done_event (s : RuntimeSnapshot) : result RuntimeSnapshot :=
  guard! negb (lifecycle_in [Installing; Validated] s)
    else "installer done event arrived out of order";
  Ok {| lifecycle := Done; phase := Complete; cancel_requested := false |}.

Definition error_event (s : RuntimeSnapshot) : result RuntimeSnapshot :=
  guard! lifecycle_in [Idle; Done; Failed] s else "installer error event arrived out of order";
  Ok {| lifecycle := Failed; phase := phase s; cancel_requested := false |}.

Definition event (e : json) (s : RuntimeSnapshot) : result RuntimeSnapshot :=
  match field as_str "type" e with
  | Some t =>
      if String.eqb t "phase" then phase_event e s
      else if String.eqb t "done" then done_event s
      else if String.eqb t "error" then error_event s
      else Ok s
  | None => Ok s
  end.

(** * Sequences of calls *)

Inductive Call :=
| ClaimStart
| StartAccepted
| StartRejected
| ClaimCancel
| CancelRejected
| Event (e : json).

Definition invoke (c : Call) : RuntimeSnapshot → result RuntimeSnapshot :=
  match c with
  | ClaimStart => claim_start
  | StartAccepted => start_accepted
  | StartRejected => start_rejected
  | ClaimCancel => claim_cancel
  | CancelRejected => cancel_rejected
  | Event e => event e
  end.

(** A refused call leaves the state as it was. *)
Definition run_call (s : RuntimeSnapshot) (c : Call) : RuntimeSnapshot :=
  match invoke c s with
  | Ok s' => s'
  | Err _ => s
  end.

Definition run_calls (s : RuntimeSnapshot) (cs : list Call) : RuntimeSnapshot :=
  fold_left run_call cs s.

(** * Properties *)

(** Between two starts the coordinator only moves forward. *)
Definition rank (l : Lifecycle) : Z :=
  match l with
  | Validated => 0
  | Partitioning | Installing => 1
  | Done | Failed | Idle => 2
  end.

(** The state reachable from a fresh coordinator. *)
Record runtime_ok (s : RuntimeSnapshot) : Prop := {
  rt_lifecycle : lifecycle s ≠ Partitioning;
  rt_cancel : cancel_requested s = true → lifecycle s = Validated ∨ lifecycle s = Installing;
  rt_done : lifecycle s = Done → phase s = Complete;
}.

Lemma lifecycle_in_true l s : lifecycle_in l s = true ↔ lifecycle s ∈ l.
Proof. unfold lifecycle_in. apply bool_decide_eq_true. Qed.

Lemma lifecycle_in_false l s : lifecycle_in l s = false ↔ lifecycle s ∉ l.
Proof. unfold lifecycle_in. apply bool_decide_eq_false. Qed.

(** Case analysis on membership in a literal list of lifecycles. *)
Ltac listed := rewrite ?elem_of_cons, ?elem_of_nil in *; intuition congruence.

(** What each accepted call does to the lifecycle and the phase. *)
Lemma phase_event_Ok e s s' :
  phase_event e s = Ok s' →
  lifecycle s' = lifecycle s ∧ cancel_requested s' = cancel_requested s ∧
  lifecycle s ∉ [Idle; Done; Failed] ∧ phase_order (phase s) <= phase_order (phase s').
Proof.
  unfold phase_event. rewrite rbind_Ok. intros (name & _ & Hk).
  guard_inv Hk as E1. guard_inv Hk as E2. apply rbind_Ok in Hk as (next & _ & Hk).
  guard_inv Hk as E3. guard_inv Hk as E4. injection Hk as <-.
  apply lifecycle_in_false in E2, E4. bool_inv. set_solver.
Qed.

Lemma event_Ok e s s' :
  event e s = Ok s' →
  s' = s ∨ phase_event e s = Ok s' ∨
  (lifecycle s ∈ [Installing; Validated] ∧
   s' = {| lifecycle := Done; phase := Complete; cancel_requested := false |}) ∨
  (lifecycle s ∉ [Idle; Done; Failed] ∧
   s' = {| lifecycle := Failed; phase := phase s; cancel_requested := false |}).
Proof.
  unfold event. destruct (field as_str "type" e) as [t|]; [|naive_solver].
  repeat case_match; intros Hk; auto.
  - unfold done_event in Hk. guard_inv Hk as E. injection Hk as <-.
    apply negb_false_iff, lifecycle_in_true in E. auto.
  - unfold error_event in Hk. guard_inv Hk as E. injection Hk as <-.
    apply lifecycle_in_false in E. auto.
  - injection Hk as <-. auto.
Qed.

Lemma runtime_ok_preserved c s s' : runtime_ok s → invoke c s = Ok s' → runtime_ok s'.
Proof.
  intros [Hl Hc Hd]. destruct c as [| | | | |e]; cbn [invoke]; intros Hk.
  - unfold claim_start in Hk. guard_inv Hk as E. injection Hk as <-. by split; cbn.
  - unfold start_accepted in Hk. guard_inv Hk as E. injection Hk as <-. split; cbn; auto; done.
  - unfold start_rejected in Hk. injection Hk as <-. case_match; split; cbn; auto; done.
  - unfold claim_cancel in Hk. guard_inv Hk as E. injection Hk as <-.
    apply negb_false_iff, lifecycle_in_true in E. split; cbn; auto. set_solver.
  - unfold cancel_rejected in Hk. injection Hk as <-. split; cbn; auto; done.
  - apply event_Ok in Hk as [->|[Hp|[[H1 ->]|[H1 ->]]]]; [done| | |]; [|split; cbn; done..].
    apply phase_event_Ok in Hp as (H1 & H2 & H3 & H4). split; rewrite ?H1, ?H2; auto.
    intros ?. set_solver.
Qed.

Lemma runtime_ok_run s cs : runtime_ok s → runtime_ok (run_calls s cs).
Proof.
  revert s. induction cs as [|c cs IH]; intros s Hs; cbn; [done|]. apply IH.
  unfold run_call. destruct (invoke c s) eqn:E; [|done]. eauto using runtime_ok_preserved.
Qed.

(** Whatever calls and events arrive in whatever order, the coordinator never
    reports a partitioning lifecycle, reports a pending cancellation only while
    an installation is validated or running, and reports success only in the
    final phase. *)
Theorem runtime_reachable_ok cs : runtime_ok (run_calls runtime_default cs).
Proof. apply runtime_ok_run. by split; cbn. Qed.

(** Until the next [claim_start] neither the lifecycle nor the phase ever
    moves back, and a finished installation (done or failed) keeps its outcome
    and phase, whatever calls and events arrive. *)
Theorem runtime_forward s cs :
  ClaimStart ∉ cs →
  rank (lifecycle s) <= rank (lifecycle (run_calls s cs)) ∧
  phase_order (phase s) <= phase_order (phase (run_calls s cs)) ∧
  (lifecycle s ∈ [Done; Failed] → lifecycle (run_calls s cs) = lifecycle s ∧
                                  phase (run_calls s cs) = phase s).
Proof.
  revert s. induction cs as [|c cs IH]; intros s Hn; cbn; [split_and!; auto; lia|].
  assert (rank (lifecycle s) <= rank (lifecycle (run_call s c)) ∧
          phase_order (phase s) <= phase_order (phase (run_call s c)) ∧
          (lifecycle s ∈ [Done; Failed] → lifecycle (run_call s c) = lifecycle s ∧
                                          phase (run_call s c) = phase s)) as (H1 & H2 & H3).
  { unfold run_call. destruct (invoke c s) as [s'|] eqn:E; [|split_and!; auto; lia].
    destruct c as [| | | | |e]; cbn [invoke] in E; [by destruct Hn; left| | | | |].
    - unfold start_accepted in E. guard_inv E as F. injection E as <-.
      apply negb_false_iff, lifecycle_in_true in F. cbn. split_and!; [|lia|listed].
      assert (lifecycle s = Validated) as -> by listed. done.
    - unfold start_rejected in E. injection E as <-.
      destruct (lifecycle_in [Validated] s) eqn:F; cbn; [|split_and!; auto; lia].
      apply lifecycle_in_true in F. assert (lifecycle s = Validated) as -> by listed.
      split_and!; [done|lia|listed].
    - unfold claim_cancel in E. guard_inv E as F. injection E as <-. cbn. split_and!; auto; lia.
    - injection E as <-. cbn. split_and!; auto; lia.
    - apply event_Ok in E as [->|[Hp|[[F ->]|[F ->]]]]; cbn.
      + split_and!; auto; lia.
      + apply phase_event_Ok in Hp as (-> & _ & ? & ?). split_and!; [lia|done|listed].
      + split_and!; [destruct (lifecycle s); cbn; lia|destruct (phase s); cbn; lia|listed].
      + split_and!; [destruct (lifecycle s); cbn; lia|lia|listed]. }
  destruct (IH (run_call s c)) as (I1 & I2 & I3).
  { intros ?. apply Hn. by right. }
  change (fold_left run_call cs (run_call s c)) with (run_calls (run_call s c) cs).
  split_and!; [lia|lia|]. intros Hl. destruct (H3 Hl) as [E1 E2]. destruct I3; [congruence|].
  split; congruence.
Qed.

(** * Witness *)

Definition phase_json (p : Phase) : json :=
  jobject [("type", JString "phase"); ("phase", JString (phase_name p))].

Lemma runtime_forward_witness :
  lifecycle (run_calls {| lifecycle := Failed; phase := Storage; cancel_requested := false |}
               [Event (phase_json Image); ClaimCancel; Event (jobject [("type", JString "done")])])
  = Failed.
Proof.
  refine (proj1 (proj2 (proj2 (runtime_forward
    {| lifecycle := Failed; phase := Storage; cancel_requested := false |}
    [Event (phase_json Image); ClaimCancel; Event (jobject [("type", JString "done")])] _)) _)).
  - intros H. repeat (apply elem_of_cons in H as [H|H]; [discriminate|]). by apply elem_of_nil in H.
  - cbn. right. left.
Defined.

Example runtime_run :
  run_calls runtime_default
    [ClaimStart; StartAccepted; Event (phase_json Storage); ClaimCancel; Event (phase_json Prepare)]
  = {| lifecycle := Installing; phase := Storage; cancel_requested := true |}.
Proof. vm_compute. reflexivity. Qed.
