(* ===== verification/InstallerJob.v ===== *)
(** The job supervisor: [installer_job.rs].

    One worker thread owns an installation; request threads start it, cancel it
    and read its event history.  Every critical section of the job mutex is one
    function on [JobState]; the threads between their critical sections are the
    [owner] (the thread holding the job slot: the starting request, then the
    worker) and the cancel requests that have released the mutex but not yet set
    the token.  [act] is one atomic action of any thread, so the reachable
    configurations are all interleavings.  A ghost trace records what happened,
    and the main theorem is that every trace is a run of the small abstract
    automaton [spec_step]. *)

From S2P Require Import Prelude RustStr Json InstallerRuntime.

Definition CANCELLATION_MESSAGE : string :=
  "Installation cancelled by user. Disk changes may have already started.".
Definition MAX_EVENT_HISTORY : nat := 1024.
Definition PHASES : list Phase := [Prepare; Storage; Image; Configure; SecureBoot; Complete].

Inductive JobEventKind :=
| EvPhase (p : Phase)
| EvDone (mok_state : option string) (requires_reboot_confirmation : option bool)
| EvError (message : string) (p : option Phase) (cancelled : bool).

Record JobEvent := { ev_id : Z; ev_kind : JobEventKind }.

Record EventReplay := {
  rep_events : list JobEvent;
  rep_next_event_id : Z;
  rep_reset_required : bool;
}.

Record JobSnapshot := {
  snap_job_id : option Z;
  snap_runtime : RuntimeSnapshot;
  snap_worker_active : bool;
  snap_terminal_event_id : option Z;
}.

Record StartReceipt := { rc_job_id : Z; rc_first_event_id : Z }.

(** A token is an index into the store of shared cancellation flags. *)
Definition Token : Type := nat.

Record JobState := {
  next_job_id : Z;
  next_event_id : Z;
  job_id : option Z;
  runtime : RuntimeSnapshot;
  cancellation : option Token;
  worker_active : bool;
  worker_id : option nat;
  terminal_event_id : option Z;
  history : list JobEvent;
}.

Definition job_default : JobState := {|
  next_job_id := 0; next_event_id := 0; job_id := None; runtime := runtime_default;
  cancellation := None; worker_active := false; worker_id := None; terminal_event_id := None;
  history := [];
|}.

(** * Critical sections *)

(** The claim of [JobSupervisor::start]; [token] is the freshly allocated one. *)
Definition start_claim (token : Token) (st : JobState) : result (JobState * StartReceipt) :=
  guard! worker_active st else "An installation is already running.";
  let job := sat_add64 (next_job_id st) 1 in
  Ok ({| next_job_id := job;
         next_event_id := next_event_id st;
         job_id := Some job;
         runtime := {| lifecycle := Validated; phase := Prepare; cancel_requested := false |};
         cancellation := Some token;
         worker_active := true;
         worker_id := None;
         terminal_event_id := None;
         history := history st |},
      {| rc_job_id := job; rc_first_event_id := sat_add64 (next_event_id st) 1 |}).

(** The two failure paths of [start], after the claim. *)
Definition start_failed (st : JobState) : JobState := {|
  next_job_id := next_job_id st;
  next_event_id := next_event_id st;
  job_id := job_id st;
  runtime := {| lifecycle := Failed; phase := phase (runtime st); cancel_requested := false |};
  cancellation := None;
  worker_active := false;
  worker_id := None;
  terminal_event_id := terminal_event_id st;
  history := history st;
|}.

(** The critical section of [cancel], with the token to set afterwards. *)
Definition cancel_request (st : JobState) : result (JobState * option Token) :=
  guard! negb (worker_active st) else "No installation is running to cancel.";
  Ok ({| next_job_id := next_job_id st;
         next_event_id := next_event_id st;
         job_id := job_id st;
         runtime := {| lifecycle := lifecycle (runtime st); phase := phase (runtime st);
                       cancel_requested := true |};
         cancellation := cancellation st;
         worker_active := worker_active st;
         worker_id := worker_id st;
         terminal_event_id := terminal_event_id st;
         history := history st |}, cancellation st).

Definition snapshot (st : JobState) : JobSnapshot := {|
  snap_job_id := job_id st;
  snap_runtime := runtime st;
  snap_worker_active := worker_active st;
  snap_terminal_event_id := terminal_event_id st;
|}.

Definition replay_locked (st : JobState) (last_event_id : Z) : EventReplay := {|
  rep_events := filterb (λ e, last_event_id <? ev_id e) (history st);
  rep_next_event_id := next_event_id st;
  rep_reset_required :=
    match history st with
    | e :: _ => sat_add64 last_event_id 1 <? ev_id e
    | [] => false
    end;
|}.

(** [while history.len() > MAX_EVENT_HISTORY { history.pop_front() }] *)
Fixpoint trim_history (h : list JobEvent) : list JobEvent :=
  if (MAX_EVENT_HISTORY <? length h)%nat then
    match h with
    | _ :: r => trim_history r
    | [] => []
    end
  else h.

Definition append_event (kind : JobEventKind) (st : JobState) : JobState :=
  let id := sat_add64 (next_event_id st) 1 in {|
  next_job_id := next_job_id st;
  next_event_id := id;
  job_id := job_id st;
  runtime := runtime st;
  cancellation := cancellation st;
  worker_active := worker_active st;
  worker_id := worker_id st;
  terminal_event_id := terminal_event_id st;
  history := trim_history (history st ++ [{| ev_id := id; ev_kind := kind |}]);
|}.

(** The check every critical section of a worker starts with. *)
Definition owns (job : Z) (st : JobState) : bool :=
  bool_decide (job_id st = Some job) && worker_active st.

(** The first critical section of [run_worker]. *)
Definition worker_begin (thread : nat) (st : JobState) : JobState := {|
  next_job_id := next_job_id st;
  next_event_id := next_event_id st;
  job_id := job_id st;
  runtime := {| lifecycle := Installing; phase := phase (runtime st);
                cancel_requested := cancel_requested (runtime st) |};
  cancellation := cancellation st;
  worker_active := worker_active st;
  worker_id := Some thread;
  terminal_event_id := terminal_event_id st;
  history := history st;
|}.

(** Publishing a phase, inside the loop of [run_worker]. *)
Definition worker_phase (p : Phase) (st : JobState) : JobState :=
  append_event (EvPhase p) {|
    next_job_id := next_job_id st;
    next_event_id := next_event_id st;
    job_id := job_id st;
    runtime := {| lifecycle := lifecycle (runtime st); phase := p;
                  cancel_requested := cancel_requested (runtime st) |};
    cancellation := cancellation st;
    worker_active := worker_active st;
    worker_id := worker_id st;
    terminal_event_id := terminal_event_id st;
    history := history st;
  |}.

(** Releasing the slot with a terminal event; the common part of the success
    path and of [finish_terminal]. *)
Definition release (rt : RuntimeSnapshot) (kind : JobEventKind) (st : JobState) : JobState :=
  let st' := append_event kind {|
    next_job_id := next_job_id st;
    next_event_id := next_event_id st;
    job_id := job_id st;
    runtime := rt;
    cancellation := None;
    worker_active := false;
    worker_id := None;
    terminal_event_id := terminal_event_id st;
    history := history st;
  |} in {|
  next_job_id := next_job_id st';
  next_event_id := next_event_id st';
  job_id := job_id st';
  runtime := runtime st';
  cancellation := cancellation st';
  worker_active := worker_active st';
  worker_id := worker_id st';
  terminal_event_id := Some (next_event_id st');
  history := history st';
|}.

Definition finish_terminal (kind : JobEventKind) (st : JobState) : JobState :=
  release {| lifecycle := Failed; phase := phase (runtime st); cancel_requested := false |} kind st.

Definition worker_done (mok_state : option string) (st : JobState) : JobState :=
  let requires := bool_decide (mok_state = Some "staged") || bool_decide (mok_state = Some "pending") in
  release {| lifecycle := Done; phase := Complete; cancel_requested := false |}
    (EvDone mok_state (if requires then Some true else None)) st.

(** [wait_for_events]: each wake-up brings whether time was left before the
    wait, the state afterwards and whether the wait timed out; [None] while the
    caller is still waiting. *)
Fixpoint wait_for_events (st : JobState) (last_event_id : Z)
    (wakeups : list (bool * JobState * bool)) : option EventReplay :=
  let replay := replay_locked st last_event_id in
  if negb (bool_decide (length (rep_events replay) = 0%nat)) || rep_reset_required replay
  then Some replay
  else match wakeups with
       | [] => None
       | (remaining, next_state, timed_out) :: wakeups =>
           if negb remaining then Some replay
           else if timed_out then Some (replay_locked next_state last_event_id)
           else wait_for_events next_state last_event_id wakeups
       end.

Fixpoint wait_for_terminal (st : JobState) (wakeups : list (bool * JobState * bool))
    : option JobSnapshot :=
  if negb (worker_active st) then Some (snapshot st)
  else match wakeups with
       | [] => None
       | (remaining, next_state, timed_out) :: wakeups =>
           if negb remaining then Some (snapshot st)
           else if timed_out then Some (snapshot next_state)
           else wait_for_terminal next_state wakeups
       end.

(** * Threads *)

(** What [execute_phase] did: [catch_unwind] turns a panic into an error. *)
Inductive Outcome :=
| Returned (r : result unit)
| Panicked (payload : option string).

(** The [Debug] form of a phase. *)
Definition phase_debug (p : Phase) : string :=
  match p with
  | Prepare => "Prepare"
  | Storage => "Storage"
  | Image => "Image"
  | Configure => "Configure"
  | SecureBoot => "SecureBoot"
  | Complete => "Complete"
  end.

Definition phase_result (p : Phase) (o : Outcome) : result unit :=
  match o with
  | Returned r => r
  | Panicked m =>
      Err ("executor panicked during " +:+ phase_debug p +:+ ": " +:+ unwrap_or m "executor panicked")
  end.

(** Where the thread that holds the slot stands. *)
Inductive Owner :=
| Starting (job : Z)                                       (* before [record_job_started] *)
| Spawning (job : Z)                                       (* before [thread::spawn] *)
| WBegin (job : Z)
| WCheck (job : Z) (t : Token) (p : Phase) (rest : list Phase)
| WEnter (job : Z) (t : Token) (p : Phase) (rest : list Phase)
| WExecute (job : Z) (t : Token) (p : Phase) (rest : list Phase)
| WSettle (job : Z) (t : Token) (p : Phase) (rest : list Phase) (r : result unit)
| WCancelling (job : Z) (p : Phase)                        (* before [finish_cancelled] *)
| WFailing (job : Z) (p : Phase) (e : string)              (* before [finish_error] *)
| WComplete (job : Z) (t : Token).                         (* after the loop *)

(** The head of the [for phase in PHASES] loop. *)
Definition next_phase (job : Z) (t : Token) (rest : list Phase) : Owner :=
  match rest with
  | [] => WComplete job t
  | p :: rest => WCheck job t p rest
  end.

(** What the environment decides in one action of the owner. *)
Record Choice := {
  ch_recorded : result unit;          (* [record_job_started] *)
  ch_spawned : result unit;           (* [thread::spawn] *)
  ch_outcome : Outcome;               (* [execute_phase] *)
  ch_mok : option string;             (* [success_mok_state] *)
  ch_thread : nat;                    (* the worker's thread id *)
}.

(** Ghost observations. *)
Inductive Obs :=
| ObStart (job : Z)
| ObAbort
| ObCancel
| ObRan (p : Phase) (r : result unit)
| ObEvent (k : JobEventKind).

Record Config := {
  job : JobState;
  flags : list bool;
  owners : list Owner;
  setters : list Token;
  trace : list Obs;
}.

Definition config_default : Config :=
  {| job := job_default; flags := []; owners := []; setters := []; trace := [] |}.

Definition is_cancelled (c : Config) (t : Token) : bool :=
  match flags c !! t with Some b => b | None => false end.

Definition with_job (st : JobState) (obs : list Obs) (c : Config) : Config :=
  {| job := st; flags := flags c; owners := owners c; setters := setters c; trace := trace c ++ obs |}.

(** [state.cancellation.clone().unwrap_or_default()] *)
Definition clone_token (c : Config) : Config * Token :=
  match cancellation (job c) with
  | Some t => (c, t)
  | None =>
      ({| job := job c; flags := flags c ++ [false]; owners := owners c; setters := setters c;
          trace := trace c |}, length (flags c))
  end.

Definition finish (job_ : Z) (kind : JobEventKind) (c : Config) : Config :=
  if owns job_ (job c) then with_job (finish_terminal kind (job c)) [ObEvent kind] c else c.

(** One atomic action of the slot's thread: the rest of [start], then
    [run_worker].  [None] is the end of the thread. *)
Definition run_owner (ch : Choice) (c : Config) (o : Owner) : Config * option Owner :=
  match o with
  | Starting j =>
      match ch_recorded ch with
      | Ok _ => (c, Some (Spawning j))
      | Err _ => (with_job (start_failed (job c)) [ObAbort] c, None)
      end
  | Spawning j =>
      match ch_spawned ch with
      | Ok _ => (c, Some (WBegin j))
      | Err _ => (with_job (start_failed (job c)) [ObAbort] c, None)
      end
  | WBegin j =>
      if owns j (job c) then
        let c' := with_job (worker_begin (ch_thread ch) (job c)) [] c in
        let '(c'', t) := clone_token c' in
        (c'', Some (next_phase j t PHASES))
      else (c, None)
  | WCheck j t p rest =>
      if is_cancelled c t then (c, Some (WCancelling j p)) else (c, Some (WEnter j t p rest))
  | WEnter j t p rest =>
      if owns j (job c) then
        (with_job (worker_phase p (job c)) [ObEvent (EvPhase p)] c, Some (WExecute j t p rest))
      else (c, None)
  | WExecute j t p rest =>
      let r := phase_result p (ch_outcome ch) in
      (with_job (job c) [ObRan p r] c, Some (WSettle j t p rest r))
  | WSettle j t p rest r =>
      if is_cancelled c t then (c, Some (WCancelling j p))
      else match r with
           | Err e => (c, Some (WFailing j p e))
           | Ok _ => (c, Some (next_phase j t rest))
           end
  | WCancelling j p => (finish j (EvError CANCELLATION_MESSAGE (Some p) true) c, None)
  | WFailing j p e => (finish j (EvError e (Some p) false) c, None)
  | WComplete j t =>
      if owns j (job c) then
        if cancel_requested (runtime (job c)) || is_cancelled c t then
          (c, Some (WCancelling j Complete))
        else
          let st := worker_done (ch_mok ch) (job c) in
          let requires := bool_decide (ch_mok ch = Some "staged")
                          || bool_decide (ch_mok ch = Some "pending") in
          (with_job st [ObEvent (EvDone (ch_mok ch) (if requires then Some true else None))] c, None)
      else (c, None)
  end.

Inductive Action :=
| AStart                            (* a [start] request reaches its claim *)
| ACancel                           (* a [cancel] request reaches its critical section *)
| ASet (i : nat)                    (* the [i]th cancel request sets its token *)
| AOwner (i : nat) (ch : Choice).   (* the [i]th slot thread acts *)

Definition option_list {A} (o : option A) : list A := match o with Some a => [a] | None => [] end.

(** One atomic action of the system; [None] when there is no such thread.  A
    refused request changes nothing. *)
Definition act (a : Action) (c : Config) : option Config :=
  match a with
  | AStart =>
      match start_claim (length (flags c)) (job c) with
      | Ok (st, r) =>
          Some {| job := st; flags := flags c ++ [false];
                  owners := owners c ++ [Starting (rc_job_id r)];
                  setters := setters c; trace := trace c ++ [ObStart (rc_job_id r)] |}
      | Err _ => Some c
      end
  | ACancel =>
      match cancel_request (job c) with
      | Ok (st, t) =>
          Some {| job := st; flags := flags c; owners := owners c;
                  setters := setters c ++ option_list t; trace := trace c ++ [ObCancel] |}
      | Err _ => Some c
      end
  | ASet i =>
      match setters c !! i with
      | Some t =>
          Some {| job := job c; flags := <[t := true]> (flags c); owners := owners c;
                  setters := delete i (setters c); trace := trace c |}
      | None => None
      end
  | AOwner i ch =>
      match owners c !! i with
      | Some o =>
          let '(c', o') := run_owner ch c o in
          Some {| job := job c'; flags := flags c';
                  owners := take i (owners c) ++ option_list o' ++ drop (S i) (owners c);
                  setters := setters c'; trace := trace c' |}
      | None => None
      end
  end.

Fixpoint act_all (acts : list Action) (c : Config) : option Config :=
  match acts with
  | [] => Some c
  | a :: acts => match act a c with Some c' => act_all acts c' | None => None end
  end.

(** All interleavings. *)
Definition reachable (c : Config) : Prop := ∃ acts, act_all acts config_default = Some c.

(** * The abstract job *)

Inductive Pos :=
| Ready (rest : list Phase)
| Running (p : Phase) (rest : list Phase)
| Broken (p : Phase) (e : string).

(** The specification automaton: idle, or one job with the acknowledged
    cancellation and its position in the phase list. *)
Inductive Spec :=
| SIdle
| SActive (cancelled : bool) (pos : Pos).

Definition spec_step (s : Spec) (o : Obs) : option Spec :=
  match s, o with
  | SIdle, ObStart _ => Some (SActive false (Ready PHASES))
  | SActive _ (Ready rest), ObAbort => if bool_decide (rest = PHASES) then Some SIdle else None
  | SActive _ pos, ObCancel => Some (SActive true pos)
  | SActive c (Ready (p :: rest)), ObEvent (EvPhase q) =>
      if bool_decide (p = q) then Some (SActive c (Running p rest)) else None
  | SActive c (Running p rest), ObRan q r =>
      if bool_decide (p = q) then
        Some (SActive c (match r with Ok _ => Ready rest | Err e => Broken p e end))
      else None
  | SActive true pos, ObEvent (EvError m (Some _) true) =>
      match pos with
      | Running _ _ => None
      | _ => if String.eqb m CANCELLATION_MESSAGE then Some SIdle else None
      end
  | SActive _ (Broken p e), ObEvent (EvError m (Some q) false) =>
      if bool_decide (p = q) && String.eqb e m then Some SIdle else None
  | SActive false (Ready []), ObEvent (EvDone _ _) => Some SIdle
  | _, _ => None
  end.

Fixpoint spec_run (s : Spec) (os : list Obs) : option Spec :=
  match os with
  | [] => Some s
  | o :: os => match spec_step s o with Some s' => spec_run s' os | None => None end
  end.

(** * The invariant *)

Definition owner_job (o : Owner) : Z :=
  match o with
  | Starting j | Spawning j | WBegin j | WCheck j _ _ _ | WEnter j _ _ _ | WExecute j _ _ _
  | WSettle j _ _ _ _ | WCancelling j _ | WFailing j _ _ | WComplete j _ => j
  end.

Definition owner_token (o : Owner) : option Token :=
  match o with
  | WCheck _ t _ _ | WEnter _ t _ _ | WExecute _ t _ _ | WSettle _ t _ _ _ | WComplete _ t => Some t
  | _ => None
  end.

(** Where the abstract job stands for an owner, given the acknowledged
    cancellation. *)
Definition pos_ok (cancelled : bool) (o : Owner) (pos : Pos) : Prop :=
  match o with
  | Starting _ | Spawning _ | WBegin _ => pos = Ready PHASES
  | WCheck _ _ p rest | WEnter _ _ p rest => pos = Ready (p :: rest)
  | WExecute _ _ p rest => pos = Running p rest
  | WSettle _ _ p rest r => pos = match r with Ok _ => Ready rest | Err e => Broken p e end
  | WCancelling _ _ =>
      cancelled = true ∧ match pos with Running _ _ => False | _ => True end
  | WFailing _ p e => pos = Broken p e
  | WComplete _ _ => pos = Ready []
  end.

(** The slot is owned: its one thread, its token and the abstract state. *)
Record owned (c : Config) (o : Owner) (t : Token) (pos : Pos) : Prop := {
  ow_active : worker_active (job c) = true;
  ow_owners : owners c = [o];
  ow_job : job_id (job c) = Some (owner_job o);
  ow_token : cancellation (job c) = Some t;
  ow_owner_token : owner_token o = None ∨ owner_token o = Some t;
  ow_live : (t < length (flags c))%nat;
  ow_flag : is_cancelled c t = true ∨ t ∈ setters c → cancel_requested (runtime (job c)) = true;
  ow_spec : spec_run SIdle (trace c) = Some (SActive (cancel_requested (runtime (job c))) pos);
  ow_pos : pos_ok (cancel_requested (runtime (job c))) o pos;
}.

Record free (c : Config) : Prop := {
  fr_inactive : worker_active (job c) = false;
  fr_owners : owners c = [];
  fr_spec : spec_run SIdle (trace c) = Some SIdle;
}.

Definition slot_inv (c : Config) : Prop :=
  (∀ t, t ∈ setters c → (t < length (flags c))%nat) ∧
  (free c ∨ ∃ o t pos, owned c o t pos).

Lemma spec_run_app s a b :
  spec_run s (a ++ b) = match spec_run s a with Some s' => spec_run s' b | None => None end.
Proof. revert s. induction a as [|o a IH]; intros s; cbn; [done|]. by destruct (spec_step s o). Qed.

Lemma spec_run_snoc s a o s' :
  spec_run s a = Some s' → spec_run s (a ++ [o]) = spec_step s' o.
Proof. intros H. rewrite spec_run_app, H. cbn. by destruct (spec_step s' o). Qed.

Lemma spec_cancel b pos : spec_step (SActive b pos) ObCancel = Some (SActive true pos).
Proof. destruct pos as [[]| |]; by destruct b. Qed.

Lemma spec_cancelled pos q :
  match pos with Running _ _ => False | _ => True end →
  spec_step (SActive true pos) (ObEvent (EvError CANCELLATION_MESSAGE (Some q) true)) = Some SIdle.
Proof. by destruct pos as [[]| |]. Qed.

Lemma spec_failed b p e :
  spec_step (SActive b (Broken p e)) (ObEvent (EvError e (Some p) false)) = Some SIdle.
Proof. destruct b; cbn; by rewrite bool_decide_true, String.eqb_refl. Qed.

Lemma spec_enter b p rest :
  spec_run (SActive b (Ready (p :: rest))) [ObEvent (EvPhase p)] = Some (SActive b (Running p rest)).
Proof. destruct b; cbn; by rewrite bool_decide_true. Qed.

Lemma spec_ran b p rest r :
  spec_run (SActive b (Running p rest)) [ObRan p r]
  = Some (SActive b (match r with Ok _ => Ready rest | Err e => Broken p e end)).
Proof. destruct b; cbn; by rewrite bool_decide_true. Qed.

Lemma owned_owns c o t pos : owned c o t pos → owns (owner_job o) (job c) = true.
Proof. intros []. unfold owns. rewrite bool_decide_true by done. done. Qed.

Lemma pos_cancel c o pos : pos_ok c o pos → pos_ok true o pos.
Proof. destruct o; cbn; tauto. Qed.

Lemma next_phase_job j t rest : owner_job (next_phase j t rest) = j.
Proof. by destruct rest. Qed.
Lemma next_phase_token j t rest : owner_token (next_phase j t rest) = Some t.
Proof. by destruct rest. Qed.
Lemma next_phase_pos c j t rest : pos_ok c (next_phase j t rest) (Ready rest).
Proof. by destruct rest. Qed.

(** Requests. *)
Lemma start_preserves c c' : slot_inv c → act AStart c = Some c' → slot_inv c'.
Proof.
  intros [Hs Hc]. cbn [act]. unfold start_claim.
  destruct (worker_active (job c)) eqn:Ha; intros [= <-]; [by split|].
  destruct Hc as [[_ Ho Hsp]|(o & t & pos & Hw)]; [|destruct Hw; congruence].
  split; cbn.
  { intros t Ht%Hs. rewrite length_app. cbn. lia. }
  right. exists (Starting (sat_add64 (next_job_id (job c)) 1)), (length (flags c)), (Ready PHASES).
  split; cbn; try done.
  - by rewrite Ho.
  - by left.
  - rewrite length_app. cbn. lia.
  - unfold is_cancelled. cbn. rewrite lookup_app_r, Nat.sub_diag by lia. cbn.
    intros [?|?%Hs]; [done|lia].
  - by rewrite (spec_run_snoc _ _ _ _ Hsp).
Qed.

Lemma cancel_preserves c c' : slot_inv c → act ACancel c = Some c' → slot_inv c'.
Proof.
  intros [Hs Hc]. cbn [act]. unfold cancel_request.
  destruct (worker_active (job c)) eqn:Ha; cbn [negb]; intros [= <-]; [|by split].
  destruct Hc as [[? _ _]|(o & t & pos & Hw)]; [congruence|].
  destruct Hw as [Ha' Ho Hj Ht Hot Hl Hf Hsp Hp]. rewrite Ht. cbn [option_list].
  split; cbn.
  { intros t' [?%Hs| ->%list_elem_of_singleton]%elem_of_app; done. }
  right. exists o, t, pos. split; cbn; try done.
  - rewrite (spec_run_snoc _ _ _ _ Hsp). apply spec_cancel.
  - by eapply pos_cancel.
Qed.

Lemma set_preserves i c c' : slot_inv c → act (ASet i) c = Some c' → slot_inv c'.
Proof.
  intros [Hs Hc]. cbn [act]. destruct (setters c !! i) as [t0|] eqn:Hi; [|done]. intros [= <-].
  assert (t0 ∈ setters c) as Hin by (by eapply list_elem_of_lookup_2).
  assert (∀ t, t ∈ delete i (setters c) → t ∈ setters c) as Hdel.
  { intros t. apply list_elem_of_delete_inv. }
  split; cbn.
  { intros t Ht%Hdel%Hs. by rewrite length_insert. }
  destruct Hc as [[]|(o & t & pos & [Ha' Ho Hj Ht Hot Hl Hf Hsp Hp])]; [left; by split|].
  right. exists o, t, pos. split; cbn; try done.
  - by rewrite length_insert.
  - unfold is_cancelled in *. cbn. intros [H|H]; [|by apply Hf; right; apply Hdel].
    destruct (decide (t0 = t)) as [->|Hne]; [by apply Hf; right|].
    rewrite list_lookup_insert_ne in H by done. by apply Hf; left.
Qed.

Definition set_owners (os : list Owner) (c : Config) : Config :=
  {| job := job c; flags := flags c; owners := os; setters := setters c; trace := trace c |}.

(** An action of the owner that changes only its own position. *)
Lemma owner_moves c o t pos o' :
  owned c o t pos → owner_job o' = owner_job o →
  owner_token o' = None ∨ owner_token o' = Some t →
  pos_ok (cancel_requested (runtime (job c))) o' pos →
  owned (set_owners [o'] c) o' t pos.
Proof. intros [] Hj Ht Hp. split; cbn; auto; congruence. Qed.

(** An action that changes the job state but neither the slot nor the
    cancellation, and records [obs]. *)
Lemma owner_emits c o t pos o' pos' st obs :
  owned c o t pos → worker_active st = true → job_id st = job_id (job c) →
  cancellation st = cancellation (job c) →
  cancel_requested (runtime st) = cancel_requested (runtime (job c)) →
  owner_job o' = owner_job o → owner_token o' = None ∨ owner_token o' = Some t →
  spec_run (SActive (cancel_requested (runtime st)) pos) obs
    = Some (SActive (cancel_requested (runtime st)) pos') →
  pos_ok (cancel_requested (runtime st)) o' pos' →
  owned (set_owners [o'] (with_job st obs c)) o' t pos'.
Proof.
  intros [] Ha Hj Hc Hr Hoj Hot Hs Hp. split; cbn; auto; try congruence.
  - intros H. rewrite Hr. by apply ow_flag0.
  - by rewrite spec_run_app, ow_spec0, <-Hr, Hs.
Qed.

(** An action that releases the slot. *)
Lemma owner_releases c o t pos st ob :
  owned c o t pos → worker_active st = false →
  spec_step (SActive (cancel_requested (runtime (job c))) pos) ob = Some SIdle →
  free (set_owners [] (with_job st [ob] c)).
Proof. intros [] Ha Hs. split; cbn; auto. by rewrite (spec_run_snoc _ _ _ _ ow_spec0). Qed.

(** What one action of the owner leads to. *)
Definition after (c' : Config) (o' : option Owner) : Prop :=
  match o' with
  | None => free (set_owners [] c')
  | Some o' => ∃ t pos, owned (set_owners [o'] c') o' t pos
  end.

Lemma run_owner_after ch c o t pos c' o' :
  owned c o t pos → run_owner ch c o = (c', o') →
  after c' o' ∧ flags c' = flags c ∧ setters c' = setters c.
Proof.
  intros Hw. pose proof (owned_owns _ _ _ _ Hw) as Hown. pose proof Hw as [_ _ _ Htok Hot _ Hf _ Hp].
  destruct o as [j|j|j|j t' p rest|j t' p rest|j t' p rest|j t' p rest r|j p|j p e|j t'];
    cbn [run_owner owner_job owner_token pos_ok] in *.
  - destruct (ch_recorded ch); intros [= <- <-]; (split; [|done]); cbn [after].
    + exists t, pos. by apply (owner_moves c (Starting j)); auto.
    + subst pos. eapply (owner_releases c (Starting j)); [done|done|]. by destruct (cancel_requested _).
  - destruct (ch_spawned ch); intros [= <- <-]; (split; [|done]); cbn [after].
    + exists t, pos. by apply (owner_moves c (Spawning j)); auto.
    + subst pos. eapply (owner_releases c (Spawning j)); [done|done|]. by destruct (cancel_requested _).
  - rewrite Hown. unfold clone_token. cbn [with_job worker_begin job cancellation]. rewrite Htok.
    intros [= <- <-]. split; [|done]. exists t, pos. subst pos.
    eapply (owner_emits c (WBegin j) t (Ready PHASES)); try done.
    + by destruct Hw.
    + by right.
  - destruct Hot as [?|[= ->]]; [done|].
    destruct (is_cancelled c t) eqn:E; intros [= <- <-]; (split; [|done]); exists t, pos;
      eapply (owner_moves c (WCheck j t p rest)); cbn; auto.
    subst pos. split; [by apply Hf; left|done].
  - destruct Hot as [?|[= ->]]; [done|]. rewrite Hown. intros [= <- <-]. split; [|done].
    exists t, (Running p rest). subst pos.
    eapply (owner_emits c (WEnter j t p rest)); try done;
      [by destruct Hw|by right|apply spec_enter].
  - destruct Hot as [?|[= ->]]; [done|]. intros [= <- <-]. split; [|done]. subst pos.
    eexists t, _. eapply (owner_emits c (WExecute j t p rest)); try done;
      [by destruct Hw|by right|apply spec_ran].
  - destruct Hot as [?|[= ->]]; [done|]. destruct (is_cancelled c t) eqn:E.
    + intros [= <- <-]. split; [|done]. exists t, pos.
      eapply (owner_moves c (WSettle j t p rest r)); cbn; auto.
      split; [by apply Hf; left|]. subst pos. by destruct r.
    + destruct r as [u|e]; intros [= <- <-]; (split; [|done]); exists t, pos.
      * eapply (owner_moves c (WSettle j t p rest (Ok u)));
          rewrite ?next_phase_job, ?next_phase_token; auto. subst pos. apply next_phase_pos.
      * eapply (owner_moves c (WSettle j t p rest (Err e))); cbn; auto.
  - unfold finish. rewrite Hown. intros [= <- <-]. split; [|done]. destruct Hp as [Hc Hpos].
    eapply (owner_releases c (WCancelling j p)); [done|done|]. rewrite Hc. by apply spec_cancelled.
  - unfold finish. rewrite Hown. intros [= <- <-]. split; [|done]. subst pos.
    eapply (owner_releases c (WFailing j p e)); [done|done|]. apply spec_failed.
  - destruct Hot as [?|[= ->]]; [done|]. rewrite Hown.
    destruct (cancel_requested (runtime (job c)) || is_cancelled c t) eqn:E;
      intros [= <- <-]; (split; [|done]).
    + exists t, pos. eapply (owner_moves c (WComplete j t)); cbn; auto. subst pos. split; [|done].
      apply orb_true_iff in E as [E|E]; [done|by apply Hf; left].
    + subst pos. apply orb_false_iff in E as [E _].
      eapply (owner_releases c (WComplete j t)); [done|done|]. by rewrite E.
Qed.

Lemma owner_preserves i ch c c' : slot_inv c → act (AOwner i ch) c = Some c' → slot_inv c'.
Proof.
  intros [Hs Hc]. cbn [act]. destruct (owners c !! i) as [o0|] eqn:Hi; [|done].
  destruct Hc as [[_ Ho _]|(o & t & pos & Hw)]; [by rewrite Ho in Hi|].
  pose proof (ow_owners _ _ _ _ Hw) as Ho. rewrite Ho in Hi.
  assert (i = 0%nat ∧ o0 = o) as [-> ->] by (destruct i; cbn in Hi; naive_solver).
  destruct (run_owner ch c o) as [c1 o'] eqn:Hr. intros [= <-].
  apply (run_owner_after _ _ _ _ _ _ _ Hw) in Hr as (Ha & Hf & Hse). rewrite Ho.
  cbn [take drop app]. rewrite app_nil_r.
  split; cbn; [rewrite Hf, Hse; apply Hs|].
  destruct o' as [o'|]; cbn [after option_list] in *.
  - right. destruct Ha as (t' & pos' & Ha). by exists o', t', pos'.
  - by left.
Qed.

Lemma act_slot a c c' : slot_inv c → act a c = Some c' → slot_inv c'.
Proof. destruct a; eauto using start_preserves, cancel_preserves, set_preserves, owner_preserves. Qed.

Lemma act_all_inv (P : Config → Prop) acts c c' :
  (∀ a c c', P c → act a c = Some c' → P c') → P c → act_all acts c = Some c' → P c'.
Proof.
  intros HP. revert c. induction acts as [|a acts IH]; intros c Hc; cbn; [by intros [= <-]|].
  destruct (act a c) eqn:E; [eauto|done].
Qed.

Lemma reachable_slot c : reachable c → slot_inv c.
Proof.
  intros [acts H]. eapply act_all_inv; [exact act_slot| |exact H]. split; cbn; [set_solver|].
  left. by split.
Qed.

(** * The history *)

(** The events of a trace, and their numbering from 1 (saturating). *)
Fixpoint events (os : list Obs) : list JobEventKind :=
  match os with
  | [] => []
  | ObEvent k :: os => k :: events os
  | _ :: os => events os
  end.

Definition nth_id (i : nat) : Z := Z.min (Z.of_nat i + 1) u64_max.
Definition numbered (ks : list JobEventKind) : list JobEvent :=
  imap (λ i k, {| ev_id := nth_id i; ev_kind := k |}) ks.

Lemma events_app a b : events (a ++ b) = events a ++ events b.
Proof. induction a as [|[] a IH]; cbn; [done|..]; by rewrite IH. Qed.

(** An observation that is no event leaves the events alone. *)
Ltac quiet := rewrite events_app; cbn [events]; rewrite app_nil_r.

Lemma numbered_snoc ks k :
  numbered (ks ++ [k]) = numbered ks ++ [{| ev_id := nth_id (length ks); ev_kind := k |}].
Proof. unfold numbered. rewrite imap_app. cbn. by rewrite Nat.add_0_r. Qed.

Lemma length_numbered ks : length (numbered ks) = length ks.
Proof. apply length_imap. Qed.

Lemma trim_history_drop h : trim_history h = drop (length h - MAX_EVENT_HISTORY) h.
Proof.
  induction h as [|e h IH]; [done|]. cbn [trim_history].
  destruct (Nat.ltb_spec MAX_EVENT_HISTORY (length (e :: h))) as [Hl|Hl].
  - rewrite IH. cbn [length] in *. by replace (S (length h) - MAX_EVENT_HISTORY)%nat
      with (S (length h - MAX_EVENT_HISTORY)) by lia.
  - by replace (length (e :: h) - MAX_EVENT_HISTORY)%nat with 0%nat by lia.
Qed.

Definition retained {A} (l : list A) : list A := drop (length l - MAX_EVENT_HISTORY) l.

(** Appending to the retained suffix and trimming it is retaining the longer
    list. *)
Lemma retained_snoc (l : list JobEvent) e : trim_history (retained l ++ [e]) = retained (l ++ [e]).
Proof.
  rewrite trim_history_drop. unfold retained. rewrite !length_app, length_drop. cbn [length].
  destruct (decide (length l <= MAX_EVENT_HISTORY)%nat) as [Hl|Hl].
  - replace (length l - MAX_EVENT_HISTORY)%nat with 0%nat by lia.
    rewrite drop_0. f_equal; lia.
  - rewrite <-drop_app_le by lia. rewrite drop_drop. f_equal; lia.
Qed.

(** The state and the trace agree on the events. *)
Definition history_inv (c : Config) : Prop :=
  next_event_id (job c) = Z.min (Z.of_nat (length (events (trace c)))) u64_max ∧
  history (job c) = retained (numbered (events (trace c))) ∧
  (terminal_event_id (job c) = None ∨
   worker_active (job c) = false ∧ terminal_event_id (job c) = Some (next_event_id (job c)) ∧
   ∃ ks k, events (trace c) = ks ++ [k] ∧ match k with EvPhase _ => False | _ => True end).

(** Appending one event keeps the agreement. *)
Lemma append_history ks st k :
  next_event_id st = Z.min (Z.of_nat (length ks)) u64_max →
  history st = retained (numbered ks) →
  next_event_id (append_event k st) = Z.min (Z.of_nat (length (ks ++ [k]))) u64_max ∧
  history (append_event k st) = retained (numbered (ks ++ [k])).
Proof.
  intros Hn Hh. cbn. rewrite Hn, Hh, length_app. cbn.
  assert (sat_add64 (Z.min (Z.of_nat (length ks)) u64_max) 1 = nth_id (length ks)) as ->
    by (unfold sat_add64, nth_id, u64_max; lia).
  split; [unfold nth_id; lia|]. by rewrite retained_snoc, numbered_snoc.
Qed.

Lemma run_owner_history ch c o t pos :
  owned c o t pos → history_inv c → history_inv (fst (run_owner ch c o)).
Proof.
  intros Hw Hi. pose proof (owned_owns _ _ _ _ Hw) as Hown.
  pose proof (ow_active _ _ _ _ Hw) as Hact. pose proof Hi as (Hn & Hh & Hterm).
  assert (terminal_event_id (job c) = None) as Ht.
  { destruct Hterm as [?|[? _]]; [done|congruence]. }
  destruct o as [j|j|j|j t' p rest|j t' p rest|j t' p rest|j t' p rest r|j p|j p e|j t'];
    cbn [run_owner owner_job] in *; unfold finish; rewrite ?Hown.
  - case_match; cbn [fst]; [done|]. unfold history_inv. cbn. quiet. auto.
  - case_match; cbn [fst]; [done|]. unfold history_inv. cbn. quiet. auto.
  - unfold clone_token. cbn [with_job job worker_begin cancellation]. rewrite (ow_token _ _ _ _ Hw).
    unfold history_inv. cbn. rewrite app_nil_r. auto.
  - by case_match.
  - unfold history_inv, with_job. cbn [fst job trace].
    rewrite events_app. split_and!; [by apply append_history..|by left].
  - unfold history_inv. cbn. quiet. auto.
  - repeat case_match; done.
  - unfold history_inv, with_job, finish_terminal, release. cbn [fst job trace].
    rewrite events_app. split_and!; [by apply append_history..|right; cbn].
    split_and!; [done|done|by eexists _, _].
  - unfold history_inv, with_job, finish_terminal, release. cbn [fst job trace].
    rewrite events_app. split_and!; [by apply append_history..|right; cbn].
    split_and!; [done|done|by eexists _, _].
  - case_match; [done|]. unfold history_inv, with_job, worker_done, release. cbn [fst job trace].
    rewrite events_app. split_and!; [by apply append_history..|right; cbn].
    split_and!; [done|done|by eexists _, _].
Qed.

Lemma act_history a c c' :
  slot_inv c ∧ history_inv c → act a c = Some c' → slot_inv c' ∧ history_inv c'.
Proof.
  intros [Hs Hi] Ha. split; [by eapply act_slot|].
  destruct a as [| |i|i ch]; cbn [act] in Ha.
  - unfold start_claim in Ha. destruct (worker_active (job c)); injection Ha as <-; [done|].
    destruct Hi as (Hn & Hh & _). unfold history_inv. cbn. quiet. auto.
  - unfold cancel_request in Ha.
    destruct (worker_active (job c)) eqn:E; cbn [negb] in Ha; injection Ha as <-; [|done].
    destruct Hi as (Hn & Hh & Ht). unfold history_inv. cbn. quiet.
    split_and!; auto. destruct Ht as [?|[? _]]; [auto|congruence].
  - destruct (setters c !! i); [|done]. by injection Ha as <-.
  - destruct (owners c !! i) as [o0|] eqn:Ho; [|done].
    destruct Hs as [_ [[_ He _]|(o & t & pos & Hw)]]; [by rewrite He in Ho|].
    rewrite (ow_owners _ _ _ _ Hw) in Ho.
    assert (o0 = o) as -> by (destruct i; cbn in Ho; naive_solver).
    pose proof (run_owner_history ch _ _ _ _ Hw Hi) as Hr.
    destruct (run_owner ch c o) as [c1 o']. by injection Ha as <-.
Qed.

Lemma reachable_history c : reachable c → history_inv c.
Proof.
  intros [acts H]. eapply (act_all_inv (λ c, slot_inv c ∧ history_inv c)); [exact act_history| |exact H].
  split.
  - split; cbn; [set_solver|]. left. by split.
  - split_and!; [done|done|by left].
Qed.

(** Consecutive numbering from [n + 1]. *)
Fixpoint consecutive (n : Z) (l : list JobEvent) : Prop :=
  match l with
  | [] => True
  | e :: l => ev_id e = n + 1 ∧ consecutive (n + 1) l
  end.

Lemma consecutive_drop n k l : consecutive n l → consecutive (n + Z.of_nat k) (drop k l).
Proof.
  revert n k. induction l as [|e l IH]; intros n [|k]; cbn [drop]; try done.
  - intros H. by replace (n + Z.of_nat 0) with n by lia.
  - intros [_ H]. replace (n + Z.of_nat (S k)) with (n + 1 + Z.of_nat k) by lia. auto.
Qed.

Lemma consecutive_lookup n l i e : consecutive n l → l !! i = Some e → ev_id e = n + 1 + Z.of_nat i.
Proof.
  revert n i. induction l as [|e' l IH]; intros n [|i]; cbn; try done.
  - intros [? _] [= ->]. lia.
  - intros [_ Hl] Hi. rewrite (IH _ _ Hl Hi). lia.
Qed.

Lemma consecutive_filter n last l :
  consecutive n l → filterb (λ e, last <? ev_id e) l = drop (Z.to_nat (last - n)) l.
Proof.
  revert n. induction l as [|e l IH]; intros n; cbn [filterb consecutive]; [by rewrite drop_nil|].
  intros [He Hl]. rewrite (IH _ Hl), He. destruct (Z.ltb_spec last (n + 1)).
  - replace (Z.to_nat (last - n)) with 0%nat by lia.
    by replace (Z.to_nat (last - (n + 1))) with 0%nat by lia.
  - by replace (Z.to_nat (last - n)) with (S (Z.to_nat (last - (n + 1)))) by lia.
Qed.

Lemma numbered_consecutive ks : Z.of_nat (length ks) <= u64_max → consecutive 0 (numbered ks).
Proof.
  assert (∀ ks j, Z.of_nat (j + length ks) <= u64_max →
            consecutive (Z.of_nat j)
              (imap (λ i k, {| ev_id := nth_id (j + i); ev_kind := k |}) ks)) as H.
  { clear ks. induction ks as [|k ks IH]; intros j Hj; [done|].
    rewrite imap_cons. cbn [consecutive ev_id length] in *. split; [unfold nth_id; lia|].
    replace (Z.of_nat j + 1) with (Z.of_nat (S j)) by lia.
    erewrite imap_ext; [apply (IH (S j)); lia|]. intros i k' _. cbn.
    by replace (j + S i)%nat with (S (j + i)) by lia. }
  intros Hks. specialize (H ks 0%nat Hks). exact H.
Qed.

(** What a subscriber gets: the events after [last], in order, from the oldest
    retained one on. *)
Lemma replay_events c last :
  reachable c → 0 <= last → Z.of_nat (length (events (trace c))) < u64_max →
  let all := numbered (events (trace c)) in
  let k := (length all - MAX_EVENT_HISTORY)%nat in
  rep_events (replay_locked (job c) last) = drop (Nat.max k (Z.to_nat last)) all ∧
  (rep_reset_required (replay_locked (job c) last) = true ↔ last < Z.of_nat k).
Proof.
  intros (_ & Hh & _)%reachable_history Hlast Hmax all k.
  assert (consecutive 0 all) as Hc by (apply numbered_consecutive; lia).
  apply (consecutive_drop 0 k) in Hc as Hk. cbn [rep_events rep_reset_required replay_locked].
  assert (history (job c) = drop k all) as Hd by exact Hh. rewrite Hd. split.
  - rewrite (consecutive_filter _ _ _ Hk), drop_drop. f_equal. lia.
  - assert (length all = length (events (trace c))) as Hlen by apply length_numbered.
    unfold MAX_EVENT_HISTORY in *.
    destruct (drop k all) as [|e r] eqn:E.
    + apply (f_equal length) in E. rewrite length_drop in E. cbn in E. split; [done|]. lia.
    + destruct Hk as [-> _]. rewrite Z.ltb_lt. unfold sat_add64. lia.
Qed.

(** A replay never loses or reorders an event silently.  As long as the
    event counter has not saturated, a subscriber that has seen the events up to
    [last] and gets no reset gets exactly all later events, in order and
    numbered consecutively; a reset is signalled exactly when an event after
    [last] has been dropped from the history. *)
Theorem replay_exact c last :
  reachable c → 0 <= last → Z.of_nat (length (events (trace c))) < u64_max →
  let all := numbered (events (trace c)) in
  let r := replay_locked (job c) last in
  (rep_reset_required r = false → rep_events r = drop (Z.to_nat last) all) ∧
  (rep_reset_required r = true ↔ ∃ e, e ∈ all ∧ last < ev_id e ∧ e ∉ rep_events r) ∧
  (length (rep_events r) <= MAX_EVENT_HISTORY)%nat.
Proof.
  intros Hr Hlast Hmax all r. pose proof (replay_events c last Hr Hlast Hmax) as [He Hreset].
  fold all r in He, Hreset.
  assert (consecutive 0 all) as Hc by (apply numbered_consecutive; lia). split_and!.
  - intros Hf. rewrite He. f_equal. rewrite Hf in Hreset. 
    destruct (Z.ltb_spec last (Z.of_nat (length all - MAX_EVENT_HISTORY))) as [Hl|]; [|lia].
    apply Hreset in Hl. done.
  - rewrite Hreset, He. split.
    + intros Hl. assert (Z.to_nat last < length all)%nat as [e Ha]%lookup_lt_is_Some_2 by lia.
      exists e. pose proof (consecutive_lookup _ _ _ _ Hc Ha) as Hid.
      split_and!; [by eapply list_elem_of_lookup_2|lia|]. intros [i Hi]%list_elem_of_lookup.
      rewrite lookup_drop in Hi. pose proof (consecutive_lookup _ _ _ _ Hc Hi). lia.
    + intros (e & [i Hi]%list_elem_of_lookup & Hid & Hn).
      pose proof (consecutive_lookup _ _ _ _ Hc Hi).
      destruct (decide (Nat.max (length all - MAX_EVENT_HISTORY) (Z.to_nat last) <= i)%nat); [|lia].
      destruct Hn. apply list_elem_of_lookup.
      exists (i - Nat.max (length all - MAX_EVENT_HISTORY) (Z.to_nat last))%nat.
      rewrite lookup_drop. rewrite <-Hi. f_equal. lia.
  - rewrite He, length_drop. lia.
Qed.

(** * What the supervisor guarantees *)

(** C2: every interleaving of start requests, cancel requests and the worker is
    a run of the abstract job: one job at a time, phases in order, an error
    event only for the phase that failed and with its error (a panic included),
    a cancelled event only after an acknowledged cancellation and never in the
    middle of a phase, [done] only with no cancellation acknowledged, and exactly
    one terminal event.  The slot is taken exactly while the abstract job is
    active, by exactly one thread. *)
Theorem job_refines_spec c :
  reachable c →
  ∃ s, spec_run SIdle (trace c) = Some s ∧
    (worker_active (job c) = true ↔ s ≠ SIdle) ∧
    (worker_active (job c) = true ↔ length (owners c) = 1%nat) ∧
    (length (owners c) <= 1)%nat.
Proof.
  intros [_ [[Ha Ho Hs]|(o & t & pos & [Ha Ho _ _ _ _ _ Hs _])]]%reachable_slot.
  - exists SIdle. rewrite Ha, Ho. split_and!; [done|by split|by split|cbn; lia].
  - eexists. split; [exact Hs|]. rewrite Ha, Ho. split_and!; [by split|by split|cbn; lia].
Qed.

(** Steps of the automaton while no new job starts. *)
Definition is_start (o : Obs) : bool := match o with ObStart _ => true | _ => false end.

Lemma spec_step_active b pos o s :
  spec_step (SActive b pos) o = Some s →
  is_start o = false ∧
  (s = SIdle ∨ ∃ b' pos', s = SActive b' pos' ∧ (b = true → b' = true)) ∧
  (b = true → ∀ m r, o ≠ ObEvent (EvDone m r)).
Proof.
  destruct b, pos as [[|p rest]|p rest|p e], o as [j| | |q res|[q|m r|m [q|] []]];
    cbn; intros H; repeat case_match; simplify_eq; split_and!; eauto 10.
Qed.

Lemma spec_idle_step o s : spec_step SIdle o = Some s → is_start o = true.
Proof. by destruct o. Qed.

(** After an acknowledged cancellation and without a new start, [done] is not a
    step. *)
Lemma spec_cancelled_run os s m r :
  spec_run s os ≠ None → (s = SIdle ∨ ∃ pos, s = SActive true pos) →
  (∀ o, o ∈ os → is_start o = false) → ObEvent (EvDone m r) ∉ os.
Proof.
  revert s. induction os as [|o os IH]; intros s Hr Hs Hn; [set_solver|].
  cbn in Hr. destruct (spec_step s o) as [s'|] eqn:E; [|done].
  assert (is_start o = false) as Ho by (apply Hn; left).
  destruct Hs as [->|[pos ->]].
  { apply spec_idle_step in E. congruence. }
  apply spec_step_active in E as (_ & Hs' & Hd).
  intros [Heq|Hin]%elem_of_cons; [by destruct (Hd eq_refl m r)|].
  eapply (IH s'); [done| |by intros o' ?; apply Hn; right|done].
  destruct Hs' as [->|(b' & pos' & -> & Hb)]; [by left|]. rewrite Hb by done. eauto.
Qed.

(** A cancellation the supervisor acknowledged is never followed by [done]
    for that job, wherever the worker was when it arrived: between the two
    another job must have been started. *)
Theorem cancel_never_done c pre mid post m r :
  reachable c → trace c = pre ++ ObCancel :: mid ++ ObEvent (EvDone m r) :: post →
  ∃ j, ObStart j ∈ mid.
Proof.
  intros [_ Hinv]%reachable_slot Ht.
  assert (∃ s, spec_run SIdle (trace c) = Some s) as [s Hs].
  { destruct Hinv as [[]|(o & t & pos & [])]; eauto. }
  destruct (decide (Exists (λ o, is_start o = true) mid)) as [Hx|Hx].
  { apply Exists_exists in Hx as ([] & Hin & ?); try done. eauto. }
  rewrite Ht, spec_run_app in Hs. destruct (spec_run SIdle pre) as [s0|]; [|done].
  cbn in Hs. destruct (spec_step s0 ObCancel) as [s1|] eqn:E; [|done].
  assert (∃ pos, s1 = SActive true pos) as [pos ->].
  { destruct s0 as [|b pos]; [done|]. rewrite spec_cancel in E. naive_solver. }
  rewrite (cons_middle _ mid post), app_assoc, spec_run_app in Hs.
  destruct (spec_run (SActive true pos) (mid ++ [ObEvent (EvDone m r)])) as [s2|] eqn:E2; [|done].
  destruct (spec_cancelled_run (mid ++ [ObEvent (EvDone m r)]) (SActive true pos) m r).
  - by rewrite E2.
  - eauto.
  - intros o [Ho|Ho]%elem_of_app.
    + destruct (is_start o) eqn:F; [|done]. destruct Hx. apply Exists_exists. eauto.
    + by apply list_elem_of_singleton in Ho as ->.
  - apply elem_of_app. right. by apply list_elem_of_singleton.
Qed.

(** The phases a trace segment ran successfully, in order. *)
Fixpoint ok_phases (os : list Obs) : list Phase :=
  match os with
  | [] => []
  | ObRan p (Ok _) :: os => p :: ok_phases os
  | _ :: os => ok_phases os
  end.

Lemma ok_phases_app a b : ok_phases (a ++ b) = ok_phases a ++ ok_phases b.
Proof. induction a as [|[j| | |p []|k] a IH]; cbn; [done|..]; by rewrite IH. Qed.

Definition pos_phases (pos : Pos) (ran : list Phase) : Prop :=
  match pos with
  | Ready rest => ran ++ rest = PHASES
  | Running p rest => ran ++ p :: rest = PHASES
  | Broken _ _ => True
  end.

Lemma spec_active_history os b pos :
  spec_run SIdle os = Some (SActive b pos) →
  ∃ pre j mid, os = pre ++ ObStart j :: mid ∧ forallb (λ o, negb (is_start o)) mid = true ∧
    pos_phases pos (ok_phases mid).
Proof.
  revert b pos. induction os as [|o os IH] using rev_ind; intros b pos; [done|].
  rewrite spec_run_app. destruct (spec_run SIdle os) as [[|b0 pos0]|] eqn:E; cbn [spec_run]; [| |done].
  - destruct o as [j| | | |]; try done. intros [= <- <-].
    exists os, j, []. by split_and!.
  - destruct (IH _ _ eq_refl) as (pre & j & mid & -> & Hmid & Hpos).
    destruct (spec_step (SActive b0 pos0) o) as [s|] eqn:Es; [|done]. intros [= ->].
    pose proof (spec_step_active _ _ _ _ Es) as (Hst & _ & _).
    exists pre, j, (mid ++ [o]). split_and!.
    + by rewrite <-app_assoc.
    + rewrite forallb_app, Hmid. cbn. by rewrite Hst.
    + rewrite ok_phases_app.
      destruct b0, pos0 as [[|p rest]|p rest|p e], o as [j'| | |q [u|e']|[q|m r|m [q|] []]];
        cbn in *; repeat case_match; simplify_eq; cbn in *; bool_inv; subst;
        rewrite ?app_nil_r, <-?app_assoc in *; auto.
Qed.

(** [done] is reported only after the current job ran each of the six phases
    successfully, once and in order. *)
Theorem done_after_all_phases c pre m r :
  reachable c → trace c = pre ++ [ObEvent (EvDone m r)] →
  ∃ pre' j mid, pre = pre' ++ ObStart j :: mid ∧
    forallb (λ o, negb (is_start o)) mid = true ∧ ok_phases mid = PHASES.
Proof.
  intros [_ Hinv]%reachable_slot Ht.
  assert (∃ s, spec_run SIdle (trace c) = Some s) as [s Hs].
  { destruct Hinv as [[]|(o & t & pos & [])]; eauto. }
  rewrite Ht, spec_run_app in Hs. destruct (spec_run SIdle pre) as [[|b pos]|] eqn:E; try done.
  assert (pos = Ready []) as ->.
  { destruct b, pos as [[]| |]; done. }
  apply spec_active_history in E as (pre' & j & mid & -> & Hmid & Hpos).
  exists pre', j, mid. split_and!; [done|done|]. cbn in Hpos. by rewrite app_nil_r in Hpos.
Qed.

(** The snapshot's terminal event is in the history: once a job has ended
    with a terminal event id, replaying from just before that id yields exactly
    one event, the terminal one, and no reset. *)
Theorem terminal_reported c i :
  reachable c → Z.of_nat (length (events (trace c))) < u64_max →
  snap_terminal_event_id (snapshot (job c)) = Some i →
  snap_worker_active (snapshot (job c)) = false ∧
  ∃ k, rep_events (replay_locked (job c) (i - 1)) = [{| ev_id := i; ev_kind := k |}] ∧
    rep_reset_required (replay_locked (job c) (i - 1)) = false ∧
    match k with EvPhase _ => False | _ => True end.
Proof.
  intros Hr Hmax Hi. cbn [snap_terminal_event_id snap_worker_active snapshot] in *.
  destruct (reachable_history c Hr) as (Hn & _ & Ht).
  destruct Ht as [?|(Ha & Hid & ks & k & Hks & Hk)]; [congruence|]. split; [done|]. exists k.
  assert (i = Z.of_nat (length ks) + 1) as ->.
  { rewrite Hks, length_app in Hn, Hmax. cbn in Hn, Hmax.
    assert (i = next_event_id (job c)) as -> by congruence. lia. }
  destruct (replay_events c (Z.of_nat (length ks) + 1 - 1)) as [He Hreset]; [done|lia|done|].
  rewrite length_numbered, Hks, length_app in He, Hreset. cbn [length] in He, Hreset.
  unfold MAX_EVENT_HISTORY in *. split_and!; [|by apply not_true_iff_false; rewrite Hreset; lia|done].
  rewrite He, numbered_snoc, drop_app_length'.
  - unfold nth_id. rewrite Hks, length_app in Hmax. cbn in Hmax. repeat f_equal. lia.
  - rewrite length_numbered. lia.
Qed.

(** ** Progress *)

(** Actions the owner still has to take at most. *)
Definition budget (o : Owner) : nat :=
  match o with
  | Starting _ => 29
  | Spawning _ => 28
  | WBegin _ => 27
  | WCheck _ _ _ rest => 6 + 4 * length rest
  | WEnter _ _ _ rest => 5 + 4 * length rest
  | WExecute _ _ _ rest => 4 + 4 * length rest
  | WSettle _ _ _ rest (Ok _) => 3 + 4 * length rest
  | WSettle _ _ _ _ (Err _) => 2
  | WComplete _ _ => 2
  | WCancelling _ _ | WFailing _ _ _ => 1
  end.

Lemma next_phase_budget j t rest : budget (next_phase j t rest) = (2 + 4 * length rest)%nat.
Proof. destruct rest; cbn; lia. Qed.

Lemma run_owner_budget ch c o c' o' :
  run_owner ch c o = (c', Some o') → (budget o' < budget o)%nat.
Proof.
  destruct o as [j|j|j|j t' p rest|j t' p rest|j t' p rest|j t' p rest r|j p|j p e|j t'];
    cbn [run_owner]; repeat case_match; intros; simplify_eq;
    rewrite ?next_phase_budget; cbn; repeat case_match; lia.
Qed.

Lemma act_owner_slot ch c o t pos c' :
  slot_inv c → owned c o t pos → act (AOwner 0 ch) c = Some c' →
  slot_inv c' ∧ (free c' ∨ ∃ o' t' pos', owned c' o' t' pos' ∧ (budget o' < budget o)%nat).
Proof.
  intros Hs Hw Ha. split; [by eapply act_slot|].
  cbn [act] in Ha. rewrite (ow_owners _ _ _ _ Hw) in Ha. cbn in Ha.
  destruct (run_owner ch c o) as [c1 o'] eqn:Hr. injection Ha as <-. rewrite app_nil_r.
  pose proof (run_owner_after _ _ _ _ _ _ _ Hw Hr) as (Haft & _).
  destruct o' as [o'|]; cbn [after option_list] in *.
  - right. destruct Haft as (t' & pos' & Haft). exists o', t', pos'. split; [exact Haft|].
    by eapply run_owner_budget.
  - left. exact Haft.
Qed.

Lemma act_owner_total ch c o t pos :
  owned c o t pos → is_Some (act (AOwner 0 ch) c).
Proof.
  intros Hw. cbn [act]. rewrite (ow_owners _ _ _ _ Hw). cbn. destruct (run_owner ch c o). eauto.
Qed.

(** The slot is always released.  From every reachable state in which a job
    is active, and whatever the callbacks return (an error, a panic, a failed
    spawn), at most 29 actions of the slot's own thread free the slot, with no
    help from any other thread; so a job cannot wedge the supervisor as long as
    its callbacks return. *)
Theorem slot_released c (chs : list Choice) :
  reachable c → (29 <= length chs)%nat →
  ∃ n c', (n <= 29)%nat ∧ act_all (AOwner 0 <$> take n chs) c = Some c' ∧
    worker_active (job c') = false ∧ owners c' = [].
Proof.
  intros Hr%reachable_slot Hlen.
  assert (∀ b chs c, slot_inv c → (b <= length chs)%nat →
            (free c ∨ ∃ o t pos, owned c o t pos ∧ (budget o <= b)%nat) →
            ∃ n c', (n <= b)%nat ∧ act_all (AOwner 0 <$> take n chs) c = Some c' ∧ free c') as H.
  { clear. induction b as [|b IH]; intros chs c Hs Hlen [Hf|(o & t & pos & Hw & Hb)].
    - by exists 0%nat, c.
    - destruct o; cbn in Hb; repeat case_match; lia.
    - exists 0%nat, c. split_and!; [lia|done|done].
    - destruct chs as [|ch chs]; cbn in Hlen; [lia|].
      destruct (act_owner_total ch _ _ _ _ Hw) as [c1 Hc1].
      destruct (act_owner_slot _ _ _ _ _ _ Hs Hw Hc1) as [Hs1 Hn1].
      destruct (IH chs c1 Hs1) as (n & c' & Hn & Ha & Hf); [lia| |].
      { destruct Hn1 as [?|(o' & t' & pos' & ? & ?)]; [by left|right].
        exists o', t', pos'. split; [done|lia]. }
      exists (S n), c'. split_and!; [lia| |done]. cbn [take fmap list_fmap act_all]. by rewrite Hc1. }
  destruct (H 29%nat chs c Hr Hlen) as (n & c' & Hn & Ha & [H1 H2 _]).
  { destruct Hr as [_ [?|(o & t & pos & Hw)]]; [by left|right]. exists o, t, pos. split; [done|].
    pose proof (ow_spec _ _ _ _ Hw) as Hs. pose proof (ow_pos _ _ _ _ Hw) as Hp.
    assert (∀ rest ran, ran ++ rest = PHASES → (length rest <= 6)%nat) as Hl.
    { intros rest ran E. apply (f_equal length) in E. rewrite length_app in E. cbn in E. lia. }
    apply spec_active_history in Hs as (pre & j & mid & _ & _ & Hph).
    destruct o as [j'|j'|j'|j' t' p rest|j' t' p rest|j' t' p rest|j' t' p rest r|j' p|j' p e|j' t'];
      cbn [pos_ok budget] in *; try lia; subst; cbn [pos_phases] in Hph;
      try (apply Hl in Hph; cbn in Hph; lia).
    destruct r; cbn [pos_phases] in Hph; [apply Hl in Hph; lia|lia]. }
  exists n, c'. auto.
Qed.

(** * Waiting *)

(** The states a waiter sees. *)
Definition seen (st : JobState) (wakeups : list (bool * JobState * bool)) : list JobState :=
  st :: ((λ w, snd (fst w)) <$> wakeups).

Lemma has_news st last :
  negb (bool_decide (length (rep_events (replay_locked st last)) = 0%nat))
  || rep_reset_required (replay_locked st last) = true ↔
  rep_events (replay_locked st last) ≠ [] ∨ rep_reset_required (replay_locked st last) = true.
Proof.
  rewrite orb_true_iff, negb_true_iff, bool_decide_eq_false.
  destruct (rep_events _); cbn; intuition congruence.
Qed.

(** A subscriber's wait returns the replay of a state it saw, with a new
    event or a reset unless the time ran out; it keeps waiting only if none of
    the states it saw had any news. *)
Theorem wait_for_events_correct st last wakeups :
  match wait_for_events st last wakeups with
  | Some r =>
      (∃ st', st' ∈ seen st wakeups ∧ r = replay_locked st' last) ∧
      (rep_events r ≠ [] ∨ rep_reset_required r = true ∨
       ∃ w, w ∈ wakeups ∧ (fst (fst w) = false ∨ snd w = true))
  | None => ∀ st', st' ∈ seen st wakeups →
      rep_events (replay_locked st' last) = [] ∧ rep_reset_required (replay_locked st' last) = false
  end.
Proof.
  revert st. induction wakeups as [|[[rem nxt] tmo] wakeups IH]; intros st; cbn [wait_for_events];
    (destruct (negb _ || _) eqn:E;
     [apply has_news in E; split; [exists st; split; [left|done]|tauto]|
      apply not_true_iff_false in E; rewrite has_news in E]).
  - intros st' ->%list_elem_of_singleton. destruct (rep_events _), (rep_reset_required _);
      intuition congruence.
  - destruct rem; cbn [negb]; [destruct tmo|].
    + split; [exists nxt; split; [right; left|done]|]. right; right. eexists. split; [left|]. by right.
    + specialize (IH nxt). destruct (wait_for_events nxt last wakeups) as [r|].
      * destruct IH as [(st' & Hst & ->) Hr]. split; [exists st'; split; [by right|done]|].
        destruct Hr as [?|[?|(w & ? & ?)]]; [auto..|]. right; right. exists w. split; [by right|done].
      * intros st' [->|Hst]%elem_of_cons; [|by apply IH].
        destruct (rep_events _), (rep_reset_required _); intuition congruence.
    + split; [exists st; split; [left|done]|]. right; right. eexists. split; [left|]. by left.
Qed.

(** * Witnesses *)

Definition ok_choice (o : Outcome) : Choice := {|
  ch_recorded := Ok tt; ch_spawned := Ok tt; ch_outcome := o; ch_mok := Some "staged"; ch_thread := 7 |}.
Definition owner_ok : Action := AOwner 0 (ok_choice (Returned (Ok tt))).

(** A job that runs to completion. *)
Definition success_acts : list Action := AStart :: replicate 28 owner_ok.
(** A cancellation acknowledged after the last phase returned and before the
    worker records success; its token is set later still. *)
Definition late_cancel_acts : list Action :=
  AStart :: replicate 27 owner_ok ++ [ACancel; owner_ok; ASet 0; owner_ok].
(** A job whose second phase panics. *)
Definition panic_acts : list Action :=
  AStart :: replicate 9 owner_ok ++ [AOwner 0 (ok_choice (Panicked (Some "boom"))); owner_ok; owner_ok].

Definition after_acts (acts : list Action) : Config :=
  match act_all acts config_default with Some c => c | None => config_default end.

Lemma after_acts_reachable acts :
  is_Some (act_all acts config_default) → reachable (after_acts acts).
Proof. intros [c Hc]. exists acts. unfold after_acts. by rewrite Hc. Defined.

Lemma success_reachable : reachable (after_acts success_acts).
Proof. apply after_acts_reachable. vm_compute. eauto. Defined.

Example success_events :
  events (trace (after_acts success_acts))
  = (EvPhase <$> PHASES) ++ [EvDone (Some "staged") (Some true)]
  ∧ owners (after_acts success_acts) = [].
Proof. vm_compute. by split. Qed.

Example late_cancel_events :
  events (trace (after_acts late_cancel_acts))
  = (EvPhase <$> PHASES) ++ [EvError CANCELLATION_MESSAGE (Some Complete) true].
Proof. vm_compute. reflexivity. Qed.

Example panic_events :
  events (trace (after_acts panic_acts))
  = [EvPhase Prepare; EvPhase Storage;
     EvError "executor panicked during Storage: boom" (Some Storage) false].
Proof. vm_compute. reflexivity. Qed.

Lemma job_refines_spec_witness :
  ∃ s, spec_run SIdle (trace (after_acts success_acts)) = Some s.
Proof.
  destruct (job_refines_spec _ success_reachable) as (s & Hs & _). exists s. exact Hs.
Defined.

Lemma replay_exact_witness :
  rep_events (replay_locked (job (after_acts success_acts)) 5)
  = drop 5 (numbered (events (trace (after_acts success_acts)))).
Proof.
  refine (proj1 (replay_exact _ 5 success_reachable _ _) _);
    [discriminate|vm_compute; reflexivity|vm_compute; reflexivity].
Defined.

(** Two jobs: the first is cancelled, the second completes. *)
Definition two_jobs_acts : list Action :=
  AStart :: ACancel :: ASet 0 :: replicate 5 owner_ok ++ success_acts.

Lemma two_jobs_reachable : reachable (after_acts two_jobs_acts).
Proof. apply after_acts_reachable. vm_compute. eauto. Defined.

Lemma cancel_never_done_witness :
  ∃ j, ObStart j ∈ drop 2 (take 16 (trace (after_acts two_jobs_acts))).
Proof.
  refine (cancel_never_done _ [ObStart 1]
            (drop 2 (take 16 (trace (after_acts two_jobs_acts)))) [] (Some "staged") (Some true)
            two_jobs_reachable _).
  vm_compute. reflexivity.
Defined.

Lemma done_after_all_phases_witness :
  ∃ pre' j mid, take 13 (trace (after_acts success_acts)) = pre' ++ ObStart j :: mid ∧
    forallb (λ o, negb (is_start o)) mid = true ∧ ok_phases mid = PHASES.
Proof.
  refine (done_after_all_phases _ (take 13 (trace (after_acts success_acts)))
            (Some "staged") (Some true) success_reachable _).
  vm_compute. reflexivity.
Defined.

Lemma terminal_reported_witness :
  ∃ k, rep_events (replay_locked (job (after_acts success_acts)) (7 - 1))
       = [{| ev_id := 7; ev_kind := k |}].
Proof.
  destruct (terminal_reported _ 7 success_reachable) as (_ & k & Hk & _);
    [vm_compute; reflexivity|vm_compute; reflexivity|]. exists k. exact Hk.
Defined.

Lemma slot_released_witness :
  ∃ n c', (n <= 29)%nat ∧
    act_all (AOwner 0 <$> take n (replicate 29 (ok_choice (Panicked None))))
      (after_acts [AStart]) = Some c' ∧ worker_active (job c') = false ∧ owners c' = [].
Proof.
  apply (slot_released (after_acts [AStart]) (replicate 29 (ok_choice (Panicked None)))).
  - apply after_acts_reachable. vm_compute. eauto.
  - cbn. lia.
Defined.
