(* ===== verification/JobRegistry.v ===== *)
(** The daemon's job registry: [NativeJobRegistry] of [installer_daemon.rs].

    The registry holds the supervisor of the current installation behind a
    mutex.  Each start builds a new supervisor, so the supervisor's counters
    start over with every job; the theorems state what that means for the job
    ids the cancel requests are checked against. *)

From S2P Require Import Prelude RustStr Json InstallerRuntime InstallerJob.

(** [active: Mutex<Option<NativeSupervisor>>]: the configuration of the active
    supervisor, its worker thread included. *)
Definition Registry : Type := option Config.

(** The worker's and the starting thread's answers to the callbacks of [start]. *)
Definition start_supervisor (ch : Choice) (c : Config) : result (Config * StartReceipt) :=
  match start_claim (length (flags c)) (job c) with
  | Err e => Err e
  | Ok (_, receipt) =>
      match ch_recorded ch, ch_spawned ch with
      | Ok _, Ok _ =>
          match act_all [AStart; AOwner 0 ch; AOwner 0 ch] c with
          | Some c' => Ok (c', receipt)
          | None => Err "installer job state is unavailable"
          end
      | Err e, _ => Err ("could not persist installer job correlation: " +:+ e)
      | _, Err e => Err ("could not start installer worker: " +:+ e)
      end
  end.

(** [NativeJobRegistry::start]; [executor] is what
    [NativePhaseExecutor::from_request] returned. *)
Definition registry_start (executor : result unit) (ch : Choice) (reg : Registry)
    : result (Registry * StartReceipt) :=
  guard! match reg with
         | Some c => snap_worker_active (snapshot (job c))
         | None => false
         end else "An installation is already running.";
  check! executor;
  let? started := start_supervisor ch config_default in
  Ok (Some (fst started), snd started).

(** [NativeJobRegistry::cancel], up to the moment the supervisor has
    acknowledged it; setting the token is a later action of the supervisor. *)
Definition registry_cancel (id : Z) (reg : Registry) : result Registry :=
  let? c := ok_or reg "No installation is running to cancel." in
  let active := snap_job_id (snapshot (job c)) in
  guard! negb (bool_decide (active = Some id))
    else ("Cancel refused: job_id " +:+ show_int id +:+
          " does not match the active installation (job_id " +:+
          match active with Some i => show_int i | None => "none" end +:+ ").");
  let? _ := cancel_request (job c) in
  match act ACancel c with
  | Some c' => Ok (Some c')
  | None => Ok (Some c)
  end.

Definition registry_replay (last_event_id : Z) (reg : Registry) : option EventReplay :=
  match reg with
  | Some c => Some (replay_locked (job c) last_event_id)
  | None => None
  end.

Definition registry_snapshot (reg : Registry) : option JobSnapshot :=
  match reg with
  | Some c => Some (snapshot (job c))
  | None => None
  end.

(** * What the registry guarantees *)

Definition registry_active (reg : Registry) : bool :=
  match reg with
  | Some c => worker_active (job c)
  | None => false
  end.

Lemma start_supervisor_Ok ch c r :
  start_supervisor ch config_default = Ok (c, r) →
  r = {| rc_job_id := 1; rc_first_event_id := 1 |} ∧
  act_all [AStart; AOwner 0 ch; AOwner 0 ch] config_default = Some c ∧
  job_id (job c) = Some 1 ∧ worker_active (job c) = true ∧ owners c = [WBegin 1].
Proof.
  unfold start_supervisor. cbn [start_claim worker_active job_default job config_default].
  destruct (ch_recorded ch) as [u|e] eqn:E1; [|done].
  destruct (ch_spawned ch) as [u'|e] eqn:E2; [|done].
  destruct (act_all _ config_default) as [c'|] eqn:E; [|done]. intros [= <- <-].
  split_and!; [done|done|..];
    cbn in E; rewrite E1 in E; cbn in E; rewrite E2 in E; cbn in E; by injection E as <-.
Qed.

Lemma registry_start_Ok executor ch reg reg' r :
  registry_start executor ch reg = Ok (reg', r) →
  registry_active reg = false ∧ executor = Ok tt ∧
  ∃ c, reg' = Some c ∧ start_supervisor ch config_default = Ok (c, r).
Proof.
  unfold registry_start. intros Hk. guard_inv Hk as E.
  apply rbind_Ok in Hk as ([] & -> & Hk). apply rbind_Ok in Hk as ([c r'] & Hs & [= <- <-]).
  split_and!; [by destruct reg|done|]. by exists c.
Qed.

(** The registry starts an installation only when none is active, and the
    started supervisor is in a reachable state with its one worker about to
    run. *)
Theorem registry_start_exclusive executor ch reg reg' r :
  registry_start executor ch reg = Ok (reg', r) →
  registry_active reg = false ∧ registry_active reg' = true ∧
  ∃ c, reg' = Some c ∧ reachable c ∧ owners c = [WBegin (rc_job_id r)].
Proof.
  intros (Ha & _ & c & -> & Hs)%registry_start_Ok.
  apply start_supervisor_Ok in Hs as (-> & Hact & _ & Hw & Ho).
  split_and!; [done|done|]. exists c. split_and!; [done|by eexists|done].
Qed.

(** Every installation the registry starts has job id 1, so the job id a
    cancel request names does not tell installations apart: a cancel that was
    meant for a finished installation is accepted and acknowledged for the one
    that is running now. *)
Theorem stale_cancel_accepted executor ch reg reg1 r executor' ch' reg2 reg3 r' :
  registry_start executor ch reg = Ok (reg1, r) →
  registry_start executor' ch' reg2 = Ok (reg3, r') →
  rc_job_id r = rc_job_id r' ∧
  ∃ c, registry_cancel (rc_job_id r) reg3 = Ok (Some c) ∧
    cancel_requested (runtime (job c)) = true ∧ worker_active (job c) = true.
Proof.
  intros (_ & _ & c1 & _ & H1)%registry_start_Ok (_ & _ & c2 & -> & H2)%registry_start_Ok.
  apply start_supervisor_Ok in H1 as (-> & _). apply start_supervisor_Ok in H2 as (-> & _ & Hj & Hw & _).
  split; [done|]. unfold registry_cancel, cancel_request. cbn. rewrite Hj, bool_decide_true by done.
  cbn. unfold cancel_request. rewrite Hw. cbn. eexists. split; [reflexivity|]. by cbn.
Qed.

(** A subscriber that reconnects with the last event id of an earlier
    installation is served by the new supervisor's numbering: events of the new
    job with ids up to that number are withheld, and no reset is signalled. *)
Lemma stale_subscription_skips c last :
  reachable c → Z.of_nat (length (events (trace c))) <= last →
  (length (events (trace c)) <= MAX_EVENT_HISTORY)%nat →
  registry_replay last (Some c) = Some {| rep_events := []; rep_next_event_id :=
    Z.of_nat (length (events (trace c))); rep_reset_required := false |}.
Proof.
  intros Hr Hlast Hshort. cbn. unfold MAX_EVENT_HISTORY in Hshort.
  destruct (replay_events c last Hr) as [He Hreset]; [lia|unfold u64_max; lia|].
  destruct (reachable_history c Hr) as (Hn & _).
  rewrite length_numbered in He, Hreset. unfold MAX_EVENT_HISTORY in *.
  rewrite drop_ge in He by (rewrite length_numbered; lia).
  unfold replay_locked in *. cbn [rep_events rep_reset_required] in *. f_equal. f_equal.
  - done.
  - rewrite Hn. unfold u64_max. lia.
  - apply not_true_iff_false. rewrite Hreset. lia.
Qed.

(** A cancel that names another id than the active one is refused, and a
    refused cancel changes nothing. *)
Lemma registry_cancel_bound id reg reg' :
  registry_cancel id reg = Ok reg' →
  ∃ c c', reg = Some c ∧ reg' = Some c' ∧ job_id (job c) = Some id ∧
    worker_active (job c) = true ∧ cancel_requested (runtime (job c')) = true ∧
    trace c' = trace c ++ [ObCancel] ∧ owners c' = owners c.
Proof.
  unfold registry_cancel. rewrite rbind_Ok. intros (c & Hc%ok_or_Ok & Hk). guard_inv Hk as E.
  bool_inv. apply rbind_Ok in Hk as ([st t] & Hcr & Hk). cbn [act] in Hk. rewrite Hcr in Hk.
  unfold cancel_request in Hcr. guard_inv Hcr as F. injection Hcr as <- <-. injection Hk as <-.
  bool_inv. exists c. eexists. split_and!; try done.
Qed.

(** * Witnesses *)

Definition go : Choice := ok_choice (Returned (Ok tt)).
Definition first_job : Config := after_acts [AStart; owner_ok; owner_ok].

Example first_start : registry_start (Ok tt) go None
  = Ok (Some first_job, {| rc_job_id := 1; rc_first_event_id := 1 |}).
Proof. vm_compute. reflexivity. Qed.

Example second_start : registry_start (Ok tt) go (Some (after_acts success_acts))
  = Ok (Some first_job, {| rc_job_id := 1; rc_first_event_id := 1 |}).
Proof. vm_compute. reflexivity. Qed.

Lemma registry_start_exclusive_witness :
  registry_active (Some (after_acts success_acts)) = false.
Proof. exact (proj1 (registry_start_exclusive _ _ _ _ _ second_start)). Defined.

Lemma stale_cancel_accepted_witness :
  ∃ c, registry_cancel 1 (Some first_job) = Ok (Some c) ∧
    cancel_requested (runtime (job c)) = true ∧ worker_active (job c) = true.
Proof. exact (proj2 (stale_cancel_accepted _ _ _ _ _ _ _ _ _ _ first_start second_start)). Defined.

(** A new installation at its third phase, and a client that left the previous
    one at its seventh event. *)
Definition third_phase : Config := after_acts (AStart :: replicate 15 owner_ok).

Lemma stale_subscription_skips_witness :
  length (events (trace third_phase)) = 3%nat ∧
  registry_replay 7 (Some third_phase)
  = Some {| rep_events := []; rep_next_event_id := 3; rep_reset_required := false |}.
Proof.
  split; [vm_compute; reflexivity|].
  refine (stale_subscription_skips third_phase 7 _ _ _);
    [apply after_acts_reachable; vm_compute; eauto|vm_compute; discriminate|vm_compute; lia].
Defined.

Lemma registry_cancel_bound_witness :
  ∃ c c', Some first_job = Some c ∧ job_id (job c) = Some 1 ∧
    cancel_requested (runtime (job c')) = true.
Proof.
  destruct (registry_cancel 1 (Some first_job)) as [reg'|e] eqn:E; [|vm_compute in E; discriminate].
  destruct (registry_cancel_bound 1 (Some first_job) reg' E)
    as (c & c' & Hc & _ & Hj & _ & Hr & _). exists c, c'. auto.
Defined.
