(* ===== verification/DurableJournal.v ===== *)
(** The crash-recovery journal: [installer_durable_journal.rs].

    The journal is one JSON file, rewritten atomically on every record.  Every
    file operation can fail, as chosen by the fault records; a write returns all
    the file-system states it goes through, so a crash at any point can be
    examined.  The theorems are about what a later boot finds: the old or the new
    journal (or, where renaming is not atomic, anything in the moment between the
    rename and the directory's sync), records that are only ever added or closed,
    and merges that keep every completion. *)

From S2P Require Import Prelude RustStr RustOs Json FileSystem.

Definition JOURNAL_FILE_NAME : string := ".kyth-install-journal.json".
Definition SCHEMA_VERSION : Z := 1.
Definition MAX_JOURNAL_BYTES : Z := 1024 * 1024.

Inductive OpState := Started | Completed.

Record JournalOp := { op_name : string; op_started : Z; op_completed : option Z }.

(** [JournalState] has the one field [ops]. *)
Definition JournalState : Type := list JournalOp.

Definition is_completed (op : JournalOp) : bool :=
  match op_completed op with Some _ => true | None => false end.

Definition completed (j : JournalState) (name : string) : bool :=
  existsb (λ op, String.eqb (op_name op) name && is_completed op) j.

Definition started (j : JournalState) (name : string) : bool :=
  existsb (λ op, String.eqb (op_name op) name) j.

Definition op_byte (c : ascii) : bool :=
  is_ascii_lowercase c || is_ascii_digit c || Ascii.eqb c "_".

Definition validated_op_name (op : string) : result string :=
  let name := trim op in
  guard! is_empty name || (64 <? slen name) else "journal operation name must be 1-64 characters";
  guard! negb (str_all op_byte name)
    else ("journal operation name is not a safe identifier: " +:+ show_debug name);
  Ok name.

Definition safe_directory (d label : string) : result unit :=
  guard! negb (is_absolute d) || has_parent_dir d
    else (label +:+ " must be an absolute path without parent traversal");
  Ok tt.

(** * Reading *)

(** The operating-system errors of one read. *)
Record ReadFaults := { rf_inspect : option string; rf_read : option string }.
Definition no_read_faults : ReadFaults := {| rf_inspect := None; rf_read := None |}.

Definition read_regular_file (f : ReadFaults) (path : string) (fs : Fs) : result string :=
  let inspect e := "could not inspect " +:+ path +:+ ": " +:+ e in
  match rf_inspect f, dir fs !! path with
  | Some e, _ => Err (inspect e)
  | None, None => Err (inspect "No such file or directory (os error 2)")
  | None, Some (Special _) => Err (path +:+ " is missing or not a regular file")
  | None, Some (Regular i) =>
      let? text := ok_or (read_file fs path) (inspect "No such file or directory (os error 2)") in
      guard! MAX_JOURNAL_BYTES <? slen text
        else (path +:+ " is too large to be an install journal");
      match rf_read f with
      | Some e => Err ("could not read " +:+ path +:+ ": " +:+ e)
      | None => Ok text
      end
  end.

Definition load_entry (entry : json) : result JournalOp :=
  let? name := ok_or (field as_str "name" entry) "install journal entry has no name" in
  let? name := validated_op_name name in
  let? started := ok_or (field as_u64 "started" entry)
    ("install journal entry " +:+ show_debug name +:+ " has no start timestamp") in
  Ok {| op_name := name; op_started := started; op_completed := field as_u64 "completed" entry |}.

Definition load_document (value : json) : result JournalState :=
  guard! negb (bool_decide (field as_u64 "schema_version" value = Some SCHEMA_VERSION))
    else "install journal has an unsupported schema";
  rmap_list load_entry (unwrap_or (field as_array "ops" value) []).

Definition load `{JsonCodec} (f : ReadFaults) (path : string) (fs : Fs) : result JournalState :=
  let? raw := read_regular_file f path fs in
  let? value := map_err (λ e, "install journal is invalid: " +:+ e) (json_decode raw) in
  load_document value.

(** * Writing *)

(** The operating-system errors of one atomic write; a failed write leaves any
    part of the bytes behind. *)
Record WriteFaults := {
  wf_remove : bool;
  wf_create : option string;
  wf_write : option (string * string);
  wf_sync : option string;
  wf_rename : option string;
  wf_sync_dir : option string;
  wf_cleanup : bool;
}.
Definition no_write_faults : WriteFaults :=
  {| wf_remove := false; wf_create := None; wf_write := None; wf_sync := None; wf_rename := None;
     wf_sync_dir := None; wf_cleanup := false |}.

(** The closure of [write_atomically], over the opened or unopened temporary. *)
Definition write_closure (f : WriteFaults) (path temporary bytes : string) (fs : Fs) : Run :=
  let stop fs vs e := {| visited := vs; final := fs; outcome := Err e |} in
  match wf_create f, dir fs !! temporary with
  | Some e, _ => stop fs [] ("could not create temporary journal: " +:+ e)
  | None, Some _ => stop fs [] "could not create temporary journal: File exists (os error 17)"
  | None, None =>
      let i := next_inode fs in
      let fs1 := create_file temporary fs in
      match wf_write f with
      | Some (partial, e) =>
          let fs2 := write_inode i partial fs1 in
          stop fs2 [fs1; fs2] ("could not write journal: " +:+ e)
      | None =>
          let fs2 := write_inode i bytes fs1 in
          match wf_sync f with
          | Some e => stop fs2 [fs1; fs2] ("could not sync journal: " +:+ e)
          | None =>
              let fs3 := sync_inode i fs2 in
              match wf_rename f with
              | Some e => stop fs3 [fs1; fs2; fs3] ("could not replace journal: " +:+ e)
              | None =>
                  let fs4 := rename_file temporary path fs3 in
                  match wf_sync_dir f with
                  | Some e => stop fs4 [fs1; fs2; fs3; fs4] ("could not sync journal directory: " +:+ e)
                  | None =>
                      let fs5 := sync_name path (sync_name temporary fs4) in
                      {| visited := [fs1; fs2; fs3; fs4; fs5]; final := fs5; outcome := Ok tt |}
                  end
              end
          end
      end
  end.

Definition write_atomically (f : WriteFaults) (path bytes : string) (fs : Fs) : Run :=
  let refuse e := {| visited := [fs]; final := fs; outcome := Err e |} in
  match ok_or (parent_dir path) "journal path has no parent directory" with
  | Err e => refuse e
  | Ok parent =>
      match safe_directory parent "journal directory" with
      | Err e => refuse e
      | Ok _ =>
          let temporary := with_extension "json.tmp" path in
          with_cleanup (wf_remove f) (wf_cleanup f) temporary (write_closure f path temporary bytes) fs
      end
  end.

Definition op_json (op : JournalOp) : json :=
  jobject [("name", JString (op_name op)); ("started", JNumber (op_started op));
           ("completed", jopt (op_completed op))].

Definition journal_json (j : JournalState) : json :=
  jobject [("schema_version", JNumber SCHEMA_VERSION); ("ops", JArray (op_json <$> j))].

Record StateFaults := { sf_write1 : WriteFaults; sf_read1 : ReadFaults;
                        sf_write2 : WriteFaults; sf_read2 : ReadFaults }.
Definition no_state_faults : StateFaults :=
  {| sf_write1 := no_write_faults; sf_read1 := no_read_faults;
     sf_write2 := no_write_faults; sf_read2 := no_read_faults |}.

Definition write_state `{JsonCodec} (f : StateFaults) (path : string) (j : JournalState) (fs : Fs)
    : Run :=
  let bytes := json_encode (journal_json j) in
  let w1 := write_atomically (sf_write1 f) path bytes fs in
  match outcome w1 with
  | Err _ => w1
  | Ok _ =>
      if match load (sf_read1 f) path (final w1) with
         | Ok reloaded => (length reloaded =? length j)%nat
         | Err _ => false
         end
      then w1
      else
        let w2 := write_atomically (sf_write2 f) path bytes (final w1) in
        let vs := visited w1 ++ visited w2 in
        match outcome w2 with
        | Err _ => {| visited := vs; final := final w2; outcome := outcome w2 |}
        | Ok _ =>
            {| visited := vs; final := final w2; outcome :=
               let? reloaded := map_err
                 (λ e, "install journal failed verification after write: " +:+ e)
                 (load (sf_read2 f) path (final w2)) in
               guard! negb (length reloaded =? length j)%nat
                 else ("install journal record count mismatch after write: expected " +:+
                       show_int (Z.of_nat (length j)) +:+ ", found " +:+
                       show_int (Z.of_nat (length reloaded)));
               Ok tt |}
        end
  end.

(** * Records *)

(** Closing the most recent open record of that name: the reversed search of
    [record]. *)
Fixpoint close_first (name : string) (now : Z) (ops : list JournalOp) : option (list JournalOp) :=
  match ops with
  | [] => None
  | op :: ops =>
      if String.eqb (op_name op) name && negb (is_completed op)
      then Some ({| op_name := op_name op; op_started := op_started op; op_completed := Some now |} :: ops)
      else match close_first name now ops with
           | Some ops' => Some (op :: ops')
           | None => None
           end
  end.

Definition apply_record (name : string) (state : OpState) (now : Z) (j : JournalState) : JournalState :=
  match state with
  | Started => j ++ [{| op_name := name; op_started := now; op_completed := None |}]
  | Completed =>
      match close_first name now (rev j) with
      | Some ops => rev ops
      | None => j ++ [{| op_name := name; op_started := now; op_completed := Some now |}]
      end
  end.

Definition record `{JsonCodec} (rd : ReadFaults) (f : StateFaults) (now : result Z) (path op : string)
    (state : OpState) (fs : Fs) : Run :=
  match (let? name := validated_op_name op in
         let? t := map_err (λ e, "could not determine journal timestamp: " +:+ e) now in
         let? j := load rd path fs in
         Ok (apply_record name state t j)) with
  | Err e => refused fs e
  | Ok j => write_state f path j fs
  end.

(** * Relocation *)

Definition merge_step (merged : JournalState) (op : JournalOp) : JournalState :=
  if existsb (λ staged, String.eqb (op_name staged) (op_name op) && is_completed staged) merged
  then merged
  else merged ++ [op].

Definition merge_journal_states (staging existing : JournalState) : JournalState :=
  fold_left merge_step existing staging.

(** [relocate]; [mkdir] is [create_dir_all], [inspect] the metadata error other
    than a missing file. *)
Definition relocate `{JsonCodec} (mkdir : result unit) (inspect : option string)
    (rd_src rd_dest : ReadFaults) (f : StateFaults) (path dest : string) (fs : Fs) : Run :=
  if same_path dest path then {| visited := [fs]; final := fs; outcome := Ok tt |}
  else
    match (let? parent := ok_or (parent_dir dest) "journal destination has no parent directory" in
           check! safe_directory parent "journal destination directory";
           check! map_err (λ e, "could not create journal destination " +:+ parent +:+ ": " +:+ e) mkdir;
           let? staging := load rd_src path fs in
           match inspect, dir fs !! dest with
           | Some e, _ => Err ("could not inspect journal destination " +:+ dest +:+ ": " +:+ e)
           | None, None => Ok staging
           | None, Some _ =>
               match load rd_dest dest fs with
               | Ok existing => Ok (merge_journal_states staging existing)
               | Err _ => Ok staging
               end
           end) with
    | Err e => refused fs e
    | Ok merged => write_state f dest merged fs
    end.

(** [open]: [mkdir] and [real_dir] are the two directory checks, [inspect] the
    metadata error of the journal other than a missing file. *)
Definition open_journal `{JsonCodec} (mkdir : result unit) (real_dir : result bool)
    (inspect : option string) (rd : ReadFaults) (f : StateFaults)
    (esp_mount : option string) (target_root : string) (fs : Fs) : Run * string :=
  let d := unwrap_or esp_mount target_root in
  let path := join_path d JOURNAL_FILE_NAME in
  match (check! safe_directory d "journal directory";
         check! map_err (λ e, "could not create journal directory " +:+ d +:+ ": " +:+ e) mkdir;
         let? real := map_err (λ e, "could not inspect journal directory " +:+ d +:+ ": " +:+ e) real_dir in
         guard! negb real else ("journal directory is not a real directory: " +:+ d);
         match inspect with
         | Some e => Err ("could not inspect journal " +:+ path +:+ ": " +:+ e)
         | None => Ok tt
         end) with
  | Err e => (refused fs e, path)
  | Ok _ =>
      match dir fs !! path with
      | None => (write_state f path [] fs, path)
      | Some (Special _) => (refused fs ("journal path is not a regular file: " +:+ path), path)
      | Some (Regular _) =>
          ({| visited := [fs]; final := fs; outcome := rmap (λ _, tt) (load rd path fs) |}, path)
      end
  end.

(** * The atomic write *)

Lemma write_closure_ok f path temporary bytes fs :
  fs_wf fs → temporary ≠ path → write_ok path bytes fs (write_closure f path temporary bytes fs).
Proof.
  intros Hw Hne. unfold write_closure. pose proof (fresh_unshared fs path Hw) as Hu.
  destruct (wf_create f); [by apply (write_ok_stop path temporary _ _ _ _ (next_inode fs)); auto|].
  destruct (dir fs !! temporary) eqn:Ht;
    [by apply (write_ok_stop path temporary _ _ _ _ (next_inode fs)); auto|].
  pose proof (staged_create fs path temporary Hne) as H1.
  destruct (wf_write f) as [[partial e]|].
  { pose proof (staged_write _ _ _ _ _ partial H1) as H2. eapply write_ok_stop; eauto. }
  pose proof (staged_write _ _ _ _ _ bytes H1) as H2.
  destruct (wf_sync f); [eapply write_ok_stop; eauto|].
  pose proof (staged_sync _ _ _ _ _ H2) as H3.
  pose proof (sync_write_file (create_file temporary fs) (next_inode fs) bytes) as Hfile.
  set (fs3 := sync_inode _ _) in *.
  assert (Forall (λ v, v = fs ∨ staged fs v path temporary (next_inode fs))
            [create_file temporary fs; write_inode (next_inode fs) bytes (create_file temporary fs); fs3])
    as Hvs by (repeat (apply Forall_cons; split; [by right|]); constructor).
  destruct (wf_rename f); [by eapply write_ok_stop; eauto|].
  destruct (wf_sync_dir f) as [e|].
  - exact (proj1 (write_ok_replace path temporary bytes fs _ fs3 (next_inode fs) _ Hw Hu Hvs H3 Hfile)).
  - exact (proj2 (write_ok_replace path temporary bytes fs _ fs3 (next_inode fs) "" Hw Hu Hvs H3 Hfile)).
Qed.

Lemma write_atomically_ok f path bytes fs :
  fs_wf fs → write_ok path bytes fs (write_atomically f path bytes fs).
Proof.
  intros Hw. unfold write_atomically.
  pose proof (λ e, write_ok_refused path bytes fs e Hw) as Hre.
  destruct (ok_or (parent_dir path) _) as [parent|]; [|apply Hre].
  destruct (safe_directory parent _) as [[]|]; [|apply Hre].
  assert (with_extension "json.tmp" path ≠ path) as Hne by (by apply with_extension_ne).
  apply write_ok_cleanup; [done|done|]. intros fs0 Hw0. split; [by apply write_closure_ok|].
  unfold write_closure. repeat case_match; cbn; rewrite !elem_of_cons; auto 10.
Qed.

(** The entry of the journal is unsettled only after the rename, while a live
    read already finds the new text, and a success has settled it. *)
Lemma write_closure_settled f path temporary bytes fs :
  temporary ≠ path → settled fs path →
  let r := write_closure f path temporary bytes fs in
  Forall (settled_or_new path bytes) (visited r) ∧ settled_or_new path bytes (final r) ∧
  (outcome r = Ok tt → settled (final r) path).
Proof.
  intros Hne Hs r. subst r. unfold write_closure.
  assert (settled_or_new path bytes fs) as H0 by by left.
  destruct (wf_create f); [by split_and!|]. destruct (dir fs !! temporary) eqn:Ht; [by split_and!|].
  pose proof (staged_create fs path temporary Hne) as H1.
  assert (∀ v, staged fs v path temporary (next_inode fs) → settled_or_new path bytes v) as Hst
    by (left; by eapply staged_settled).
  destruct (wf_write f) as [[partial e]|].
  { pose proof (staged_write _ _ _ _ _ partial H1) as H2. split_and!; [|by apply Hst|done].
    repeat (apply Forall_cons; split; [by apply Hst|]). done. }
  pose proof (staged_write _ _ _ _ _ bytes H1) as H2.
  pose proof (staged_sync _ _ _ _ _ H2) as H3.
  pose proof (sync_write_file (create_file temporary fs) (next_inode fs) bytes) as Hfile.
  pose proof (replaced_rename _ _ _ _ _ _ H3 Hfile) as [Hp Hf _ _].
  set (fs4 := rename_file _ _ _) in *.
  assert (∀ v, dir v = dir fs4 → inodes v = inodes fs4 → settled_or_new path bytes v) as Hnew.
  { intros v Ed Ei. right. unfold read_file. by rewrite Ed, Ei, Hp, Hf. }
  destruct (wf_sync f), (wf_rename f), (wf_sync_dir f); cbn [visited final outcome];
    split_and!; auto using sync_settled; try done;
    repeat (apply Forall_cons; split; [by auto|]); done.
Qed.

Lemma write_atomically_settled f path bytes fs :
  settled fs path →
  let r := write_atomically f path bytes fs in
  Forall (settled_or_new path bytes) (visited r) ∧ (outcome r = Ok tt → settled (final r) path).
Proof.
  intros Hs r. subst r. unfold write_atomically.
  assert (Forall (settled_or_new path bytes) [fs]) as H1 by (apply Forall_singleton; by left).
  destruct (ok_or (parent_dir path) _) as [parent|]; [|done].
  destruct (safe_directory parent _) as [[]|]; [|done].
  assert (with_extension "json.tmp" path ≠ path) as Hne by (by apply with_extension_ne).
  apply with_cleanup_settled; [done|done|]. intros fs0 H0. by apply write_closure_settled.
Qed.

(** A journal write is atomic and durable.  Whatever operations fail, a crash
    at any moment of the write leaves at the journal's path something that was
    already possible before it or the complete new contents, never a torn file;
    and once the write has reported success every crash leaves exactly the new
    contents. *)
Theorem journal_write_crash_safe f path bytes fs :
  fs_wf fs →
  (∀ v x, v ∈ visited (write_atomically f path bytes fs) → crash_read v path x →
          crash_read fs path x ∨ x = Some bytes) ∧
  (outcome (write_atomically f path bytes fs) = Ok tt →
   ∀ x, crash_read (final (write_atomically f path bytes fs)) path x → x = Some bytes).
Proof.
  intros Hw. destruct (write_atomically_ok f path bytes fs Hw) as [_ Hc Ho]. split; [done|].
  intros H. by apply Ho.
Qed.

(** * Journal documents *)

Definition op_wf (op : JournalOp) : Prop :=
  validated_op_name (op_name op) = Ok (op_name op) ∧ is_u64 (op_started op) ∧
  ∀ t, op_completed op = Some t → is_u64 t.

Lemma validated_op_name_idemp raw name :
  validated_op_name raw = Ok name → validated_op_name name = Ok name.
Proof.
  unfold validated_op_name. intros H. guard_inv H as E1. guard_inv H as E2. injection H as <-.
  rewrite trim_idemp, E1, E2. done.
Qed.

Lemma load_entry_wf entry op : load_entry entry = Ok op → op_wf op.
Proof.
  unfold load_entry. rewrite rbind_Ok. intros (raw & _ & Hk).
  apply rbind_Ok in Hk as (name & Hn & Hk). apply rbind_Ok in Hk as (t & Ht%ok_or_Ok & [= <-]).
  split_and!; cbn.
  - by eapply validated_op_name_idemp.
  - unfold field in Ht. destruct (jget "started" entry); [|done]. by apply as_u64_range in Ht as [_ ?].
  - intros t' Hc. unfold field in Hc. destruct (jget "completed" entry); [|done].
    by apply as_u64_range in Hc as [_ ?].
Qed.

Lemma load_document_wf v j : load_document v = Ok j → Forall op_wf j.
Proof.
  unfold load_document. intros H. guard_inv H as E. apply rmap_list_Ok in H. clear E.
  induction H as [|a b l k Ha _ IH]; constructor; [by eapply load_entry_wf|done].
Qed.

Lemma load_op_json op : op_wf op → load_entry (op_json op) = Ok op.
Proof.
  intros (Hn & Hs & Hc). destruct op as [n t c]. cbn in *.
  unfold load_entry, op_json, field, jobject, jget. cbn [list_to_map foldr fst snd op_name op_started op_completed].
  cbn -[insert lookup as_u64]. rewrite lookup_insert_eq. cbn -[insert lookup as_u64].
  rewrite Hn. cbn -[insert lookup as_u64].
  rewrite lookup_insert_ne, lookup_insert_eq by done. rewrite (as_u64_number t Hs). cbn -[insert lookup as_u64].
  rewrite lookup_insert_ne, lookup_insert_ne, lookup_insert_eq by done.
  destruct c as [u|]; cbn [jopt]; [|done]. by rewrite (as_u64_number u (Hc u eq_refl)).
Qed.

Lemma load_journal_json j : Forall op_wf j → load_document (journal_json j) = Ok j.
Proof.
  intros Hj. unfold load_document, journal_json, field, jobject, jget.
  cbn -[insert lookup as_u64]. rewrite lookup_insert_eq.
  rewrite (as_u64_number SCHEMA_VERSION) by (split; vm_compute; discriminate).
  rewrite bool_decide_true by done. cbn -[insert lookup].
  rewrite lookup_insert_ne, lookup_insert_eq by done. cbn -[insert lookup].
  apply rmap_list_Ok. induction Hj; constructor; [by apply load_op_json|done].
Qed.

(** * Records survive *)

Section journal.
Context `{JsonCodecLaws}.

Lemma read_regular_Ok f path fs text :
  read_regular_file f path fs = Ok text →
  read_file fs path = Some text ∧ slen text <= MAX_JOURNAL_BYTES ∧
  read_regular_file no_read_faults path fs = Ok text.
Proof.
  unfold read_regular_file. destruct (rf_inspect f); [done|]. cbn.
  destruct (dir fs !! path) as [[i|]|]; try done.
  rewrite rbind_Ok. intros (t & Ht%ok_or_Ok & Hk). guard_inv Hk as E.
  destruct (rf_read f); [done|]. injection Hk as <-. rewrite Ht. cbn. rewrite E. bool_inv. done.
Qed.

Lemma load_Ok f path fs j :
  load f path fs = Ok j →
  Forall op_wf j ∧ load no_read_faults path fs = Ok j ∧
  ∃ text v, read_file fs path = Some text ∧ slen text <= MAX_JOURNAL_BYTES ∧
    json_decode text = Ok v ∧ load_document v = Ok j.
Proof.
  unfold load. rewrite rbind_Ok. intros (raw & Hr & Hk).
  apply read_regular_Ok in Hr as (Hf & Hs & Hn). apply rbind_Ok in Hk as (v & Hv%map_err_Ok & Hk).
  split_and!; [by eapply load_document_wf| |by exists raw, v]. by rewrite Hn; cbn; rewrite Hv.
Qed.

(** A file that holds a printed journal and loads at all loads as that journal. *)
Lemma load_printed f path fs j k :
  Forall op_wf j → read_file fs path = Some (json_encode (journal_json j)) →
  load f path fs = Ok k → load no_read_faults path fs = Ok j ∧ k = j.
Proof.
  intros Hj Hr Hk. apply load_Ok in Hk as (_ & Hn & text & v & Ht & _ & Hv & Hd).
  assert (text = json_encode (journal_json j)) as -> by congruence.
  rewrite json_roundtrip in Hv. injection Hv as <-. rewrite load_journal_json in Hd by done.
  injection Hd as ->. done.
Qed.

Lemma write_state_ok f path j fs :
  fs_wf fs → Forall op_wf j →
  write_ok path (json_encode (journal_json j)) fs (write_state f path j fs) ∧
  (outcome (write_state f path j fs) = Ok tt →
   load no_read_faults path (final (write_state f path j fs)) = Ok j).
Proof.
  intros Hw Hj. unfold write_state. set (bytes := json_encode (journal_json j)).
  pose proof (write_atomically_ok (sf_write1 f) path bytes fs Hw) as W1.
  set (w1 := write_atomically (sf_write1 f) path bytes fs) in *.
  destruct (outcome w1) as [[]|e] eqn:O1; [|split; [done|congruence]].
  destruct W1 as [Hw1 Hc1 Hok1]. destruct (Hok1 O1) as (Hr1 & Hd1).
  destruct (load (sf_read1 f) path (final w1)) as [k|] eqn:L1; [destruct (_ =? _)%nat|].
  { split; [by split|]. intros _. by eapply load_printed. }
  all: pose proof (write_atomically_ok (sf_write2 f) path bytes (final w1) Hw1) as W2;
    set (w2 := write_atomically (sf_write2 f) path bytes (final w1)) in *;
    destruct W2 as [Hw2 Hc2 Hok2];
    assert (∀ v x, v ∈ visited w1 ++ visited w2 → crash_read v path x →
                   crash_read fs path x ∨ x = Some bytes) as Hvis
      by (intros v x [Hv|Hv]%elem_of_app Hx; [by eapply Hc1|];
          destruct (Hc2 v x Hv Hx) as [?%Hd1|?]; auto);
    (destruct (outcome w2) as [[]|e'] eqn:O2; cbn [outcome final];
     [|split; [by split; cbn|done]]);
    destruct (Hok2 eq_refl) as (Hr2 & Hd2);
    (split; [split; cbn; [done|done|intros _; done]|]);
    intros Hk; apply rbind_Ok in Hk as (k' & Hk'%map_err_Ok & _); by eapply load_printed.
Qed.

Lemma write_state_settled f path j fs :
  settled fs path →
  let r := write_state f path j fs in
  Forall (settled_or_new path (json_encode (journal_json j))) (visited r) ∧
  (outcome r = Ok tt → settled (final r) path).
Proof.
  intros Hs r. subst r. unfold write_state. set (bytes := json_encode (journal_json j)).
  destruct (write_atomically_settled (sf_write1 f) path bytes fs Hs) as [V1 O1].
  set (w1 := write_atomically (sf_write1 f) path bytes fs) in *.
  destruct (outcome w1) as [[]|e] eqn:E1; [|by rewrite E1]. specialize (O1 eq_refl).
  case_match; [done|].
  destruct (write_atomically_settled (sf_write2 f) path bytes (final w1) O1) as [V2 O2].
  set (w2 := write_atomically (sf_write2 f) path bytes (final w1)) in *.
  destruct (outcome w2) as [[]|e'] eqn:E2; cbn [visited final outcome];
    (split; [by apply Forall_app|]); [intros _; by apply O2|done].
Qed.

Definition is_open (name : string) (op : JournalOp) : bool :=
  String.eqb (op_name op) name && negb (is_completed op).
Definition close (now : Z) (op : JournalOp) : JournalOp :=
  {| op_name := op_name op; op_started := op_started op; op_completed := Some now |}.

Lemma close_first_Some name now l l' :
  close_first name now l = Some l' →
  ∃ a op b, l = a ++ op :: b ∧ l' = a ++ close now op :: b ∧ is_open name op = true ∧
    Forall (λ o, is_open name o = false) a.
Proof.
  revert l'. induction l as [|op l IH]; intros l'; cbn [close_first]; [done|].
  fold (is_open name op). destruct (is_open name op) eqn:E.
  - intros [= <-]. by exists [], op, l.
  - destruct (close_first name now l) as [k|]; [|done]. intros [= <-].
    destruct (IH k eq_refl) as (a & o & b & -> & -> & Ho & Ha). exists (op :: a), o, b.
    split_and!; [done|done|done|by constructor].
Qed.

Lemma close_first_None name now l :
  close_first name now l = None ↔ Forall (λ o, is_open name o = false) l.
Proof.
  induction l as [|op l IH]; cbn [close_first]; [by split|].
  fold (is_open name op). rewrite Forall_cons, <-IH.
  destruct (is_open name op); [by split; [|intros [? _]]|].
  destruct (close_first name now l); split; try done; by intros [_ ?].
Qed.

(** What a record does to the list: it appends one record or closes one, the
    last open one of that name. *)
Lemma apply_record_cases name state t j :
  (apply_record name state t j = j ++ [{| op_name := name; op_started := t; op_completed := None |}] ∧
   state = Started) ∨
  (apply_record name state t j = j ++ [{| op_name := name; op_started := t; op_completed := Some t |}] ∧
   state = Completed ∧ Forall (λ o, is_open name o = false) j) ∨
  ∃ a op b, state = Completed ∧ j = a ++ op :: b ∧ apply_record name state t j = a ++ close t op :: b ∧
    is_open name op = true ∧ Forall (λ o, is_open name o = false) b.
Proof.
  destruct state; cbn [apply_record]; [by left|right].
  destruct (close_first name t (rev j)) as [ops|] eqn:E.
  - right. apply close_first_Some in E as (a & op & b & Hj & -> & Ho & Ha).
    exists (rev b), op, (rev a).
    assert (j = rev (a ++ op :: b)) as -> by (by rewrite <-Hj, rev_involutive).
    rewrite !rev_app_distr. cbn. rewrite <-!app_assoc. cbn. split_and!; try done. by apply Forall_rev.
  - left. apply close_first_None in E. split_and!; [done|done|].
    rewrite <-(rev_involutive j). by apply Forall_rev.
Qed.

Lemma apply_record_wf name state t j :
  Forall op_wf j → validated_op_name name = Ok name → is_u64 t → Forall op_wf (apply_record name state t j).
Proof.
  intros Hj Hn Ht.
  destruct (apply_record_cases name state t j) as [[-> _]|[[-> _]|(a & op & b & _ & -> & -> & _)]].
  - apply Forall_app. split; [done|]. apply Forall_singleton. by split_and!; cbn.
  - apply Forall_app. split; [done|]. apply Forall_singleton. split_and!; cbn; [done|done|].
    by intros ? [= <-].
  - rewrite Forall_app, Forall_cons in Hj |- *. destruct Hj as (? & (? & ? & ?) & ?).
    split; [done|]. split; [|done]. split_and!; [done|done|]. by intros ? [= <-].
Qed.

Lemma record_inv rd f t path op state fs :
  outcome (record rd f (Ok t) path op state fs) = Ok tt →
  ∃ name j, validated_op_name op = Ok name ∧ load rd path fs = Ok j ∧
    record rd f (Ok t) path op state fs = write_state f path (apply_record name state t j) fs.
Proof.
  unfold record. destruct (validated_op_name op) as [name|]; [|done]. cbn.
  destruct (load rd path fs) as [j|]; [|done]. cbn. eauto.
Qed.

(** A journal record that reports success is in the journal and survives a
    crash: the file then loads as the earlier journal with the record applied,
    and so does whatever any later crash leaves. *)
Theorem record_durable rd f t path op state fs :
  fs_wf fs → is_u64 t → outcome (record rd f (Ok t) path op state fs) = Ok tt →
  ∃ name j, validated_op_name op = Ok name ∧ load rd path fs = Ok j ∧
    load no_read_faults path (final (record rd f (Ok t) path op state fs))
      = Ok (apply_record name state t j) ∧
    ∀ x, crash_read (final (record rd f (Ok t) path op state fs)) path x →
      x = Some (json_encode (journal_json (apply_record name state t j))).
Proof.
  intros Hw Ht Hok. destruct (record_inv _ _ _ _ _ _ _ Hok) as (name & j & Hn & Hj & Hr).
  exists name, j. rewrite Hr in Hok |- *. pose proof (load_Ok _ _ _ _ Hj) as (Hjw & _).
  destruct (write_state_ok f path (apply_record name state t j) fs) as [W L]; [done| |].
  { eauto using apply_record_wf, validated_op_name_idemp. }
  destruct W as [_ _ Hd]. split_and!; [done|done|by apply L|by apply Hd].
Qed.

(** What a journal's path holds after the record: the printed journal with the
    record applied. *)
Definition recorded rd path op state t fs (x : option string) : Prop :=
  ∃ name j, validated_op_name op = Ok name ∧ load rd path fs = Ok j ∧
    x = Some (json_encode (journal_json (apply_record name state t j))).

(** A journal that does not load is left as it is. *)
Lemma record_refused rd f now path op state fs e :
  load rd path fs = Err e →
  (∃ e', outcome (record rd f now path op state fs) = Err e') ∧
  final (record rd f now path op state fs) = fs ∧ visited (record rd f now path op state fs) = [fs].
Proof.
  intros He. unfold record. destruct (validated_op_name op) as [name|]; cbn; [|by eauto].
  destruct now as [t|]; cbn; [|by eauto]. rewrite He. cbn. eauto.
Qed.

(** C26: records and crashes.  (1) Where renaming is atomic, a crash in the
    middle of a record, whatever fails, leaves at the journal's path something
    it could hold before or the journal with the record applied.  (2) Where it
    is not, as on the FAT of an EFI system partition, and nothing of the journal's
    entry is unsynced at the start, that is still what a crash
    leaves unless it falls between the rename and the end of the directory's
    sync, when a live read already finds the new journal; and a record that
    reports success is there whatever crash follows.  (3) A journal that does
    not load, be it torn or vanished, is never written to: the record is
    refused and nothing changes. *)
Theorem record_crash_safe rd f t path op state fs :
  fs_wf fs → is_u64 t →
  let r := record rd f (Ok t) path op state fs in
  (∀ v x, v ∈ visited r → crash_read v path x →
     crash_read fs path x ∨ recorded rd path op state t fs x) ∧
  (settled fs path →
   (∀ v x, v ∈ visited r → torn_read v path x →
      crash_read fs path x ∨ recorded rd path op state t fs x ∨
      (~ settled v path ∧ recorded rd path op state t fs (read_file v path))) ∧
   (outcome r = Ok tt → ∀ x, torn_read (final r) path x → recorded rd path op state t fs x)) ∧
  (∀ e, load rd path fs = Err e → (∃ e', outcome r = Err e') ∧ final r = fs ∧ visited r = [fs]).
Proof.
  intros Hw Ht r.
  destruct (load rd path fs) as [j|] eqn:Hj.
  2:{ destruct (record_refused rd f (Ok t) path op state fs _ Hj) as ((e' & He) & Hf & Hv).
      fold r in He, Hf, Hv. rewrite Hv, Hf, He. split_and!; [|intros Hs; split; [|done]|eauto].
      - intros v x ->%list_elem_of_singleton. auto.
      - intros v x ->%list_elem_of_singleton [?|?]; [auto|done]. }
  pose proof (load_Ok _ _ _ _ Hj) as (Hjw & _). subst r. unfold record.
  destruct (validated_op_name op) as [name|] eqn:Hn; cbn; rewrite ?Hj; cbn.
  2:{ split_and!; [|intros Hs; split; [|done]|done].
      - intros v x ->%list_elem_of_singleton. auto.
      - intros v x ->%list_elem_of_singleton [?|?]; [auto|done]. }
  assert (∀ x, x = Some (json_encode (journal_json (apply_record name state t j))) →
    recorded rd path op state t fs x) as Hrec by (intros x ->; exists name, j; done).
  destruct (write_state_ok f path (apply_record name state t j) fs) as [[_ Hc Ho] _]; [done| |].
  { eauto using apply_record_wf, validated_op_name_idemp. }
  split_and!; [|intros Hs|done].
  - intros v x Hv Hx. destruct (Hc v x Hv Hx); auto.
  - destruct (write_state_settled f path (apply_record name state t j) fs Hs) as [Vs Os].
    rewrite Forall_forall in Vs. split.
    + intros v x Hv [Hx|Hx]; [destruct (Hc v x Hv Hx); auto|].
      destruct (Vs v Hv) as [?|?]; [done|auto].
    + intros Hok x [Hx|Hx]; [apply Hrec; by apply Ho|]. by destruct Hx; apply Os.
Qed.

(** Every operation keeps the file system well formed. *)
Lemma record_wf rd f t path op state fs :
  fs_wf fs → is_u64 t → fs_wf (final (record rd f (Ok t) path op state fs)).
Proof.
  intros Hw Ht. unfold record. destruct (validated_op_name op) as [name|] eqn:Hn; [|done]. cbn.
  destruct (load rd path fs) as [j|] eqn:Hj; [|done]. cbn.
  pose proof (load_Ok _ _ _ _ Hj) as (Hjw & _).
  apply (write_state_ok f path (apply_record name state t j) fs); [done|].
  eauto using apply_record_wf, validated_op_name_idemp.
Qed.

Lemma open_wf mkdir real_dir inspect rd f esp target fs :
  fs_wf fs → fs_wf (final (fst (open_journal mkdir real_dir inspect rd f esp target fs))).
Proof.
  intros Hw. unfold open_journal. cbv zeta. case_match; [|done].
  destruct (dir fs !! _) as [[]|]; [done|done|]. by apply write_state_ok.
Qed.
End journal.

(** * Records are only added or closed *)

Definition kept (o o' : JournalOp) : Prop :=
  op_name o' = op_name o ∧ op_started o' = op_started o ∧
  ∀ t, op_completed o = Some t → op_completed o' = Some t.

Definition extends (j j' : JournalState) : Prop := ∃ a b, j' = a ++ b ∧ Forall2 kept j a.

Lemma kept_all j : Forall2 kept j j.
Proof. induction j; constructor; [by split_and!|done]. Qed.

Lemma is_open_spec name op : is_open name op = true ↔ op_name op = name ∧ op_completed op = None.
Proof.
  unfold is_open, is_completed. rewrite andb_true_iff, String.eqb_eq.
  destruct (op_completed op); naive_solver.
Qed.

(** Recording never loses history.  Every earlier record keeps its place,
    name and start time, and its completion once it has one; afterwards exactly
    the recorded name is additionally started and, for a completion,
    completed. *)
Theorem record_append_only name state t j :
  extends j (apply_record name state t j) ∧
  (∀ n, started (apply_record name state t j) n = started j n || String.eqb name n) ∧
  (∀ n, completed (apply_record name state t j) n
        = completed j n || (String.eqb name n && match state with Completed => true | _ => false end)).
Proof.
  unfold started, completed.
  destruct (apply_record_cases name state t j)
    as [[-> ->]|[(-> & -> & _)|(a & op & b & -> & -> & -> & [Hn Hc]%is_open_spec & _)]].
  - split_and!.
    + exists j, [{| op_name := name; op_started := t; op_completed := None |}]. split; [done|].
      apply kept_all.
    + intros n. rewrite existsb_app. cbn. by rewrite orb_false_r.
    + intros n. rewrite existsb_app. cbn. by rewrite !andb_false_r, !orb_false_r.
  - split_and!.
    + exists j, [{| op_name := name; op_started := t; op_completed := Some t |}]. split; [done|].
      apply kept_all.
    + intros n. rewrite existsb_app. cbn. by rewrite orb_false_r.
    + intros n. rewrite existsb_app. cbn. by rewrite !andb_true_r, !orb_false_r.
  - split_and!.
    + exists (a ++ close t op :: b), []. split; [by rewrite app_nil_r|].
      apply Forall2_app; [|constructor].
      * apply kept_all.
      * split_and!; [done|done|congruence].
      * apply kept_all.
    + intros n. rewrite !existsb_app. cbn. rewrite Hn.
      destruct (String.eqb name n), (existsb _ a), (existsb _ b); done.
    + intros n. rewrite !existsb_app. cbn. unfold is_completed at 2 4. cbn. rewrite Hn, Hc.
      destruct (String.eqb name n), (existsb _ a), (existsb _ b); done.
Qed.

(** * Merging *)

Lemma merge_step_facts merged op n :
  completed (merge_step merged op) n
    = completed merged n || (String.eqb (op_name op) n && is_completed op) ∧
  started (merge_step merged op) n = started merged n || String.eqb (op_name op) n.
Proof.
  unfold merge_step, completed, started.
  destruct (existsb _ merged) eqn:E; [|by rewrite !existsb_app; cbn; rewrite !orb_false_r].
  apply existsb_elem_of in E as (o & Ho & [En Ec]%andb_true_iff). apply String.eqb_eq in En.
  destruct (String.eqb_spec (op_name op) n) as [<-|]; [|by rewrite !orb_false_r].
  split; symmetry.
  - transitivity true; [|symmetry]; [|apply existsb_elem_of; exists o; split; [done|]].
    + apply orb_true_iff. left. apply existsb_elem_of. exists o. split; [done|].
      by rewrite En, String.eqb_refl, Ec.
    + by rewrite En, String.eqb_refl, Ec.
  - transitivity true; [by rewrite orb_true_r|symmetry].
    apply existsb_elem_of. exists o. split; [done|]. by rewrite En, String.eqb_refl.
Qed.

Lemma merge_facts staging existing n :
  completed (merge_journal_states staging existing) n = completed staging n || completed existing n ∧
  started (merge_journal_states staging existing) n = started staging n || started existing n.
Proof.
  unfold merge_journal_states. revert staging. induction existing as [|op existing IH]; intros staging.
  { cbn. by rewrite !orb_false_r. }
  cbn [fold_left]. destruct (IH (merge_step staging op)) as [-> ->].
  destruct (merge_step_facts staging op n) as [-> ->].
  unfold completed, started. cbn [existsb]. by rewrite !orb_assoc.
Qed.

Lemma merge_Forall (P : JournalOp → Prop) staging existing :
  Forall P staging → Forall P existing → Forall P (merge_journal_states staging existing).
Proof.
  unfold merge_journal_states. intros Hs He. revert staging Hs.
  induction He as [|op existing Hop _ IH]; intros staging Hs; [done|]. cbn. apply IH.
  unfold merge_step. case_match; [done|]. apply Forall_app. by split; [|constructor].
Qed.

(** Merging two journals loses no operation and no completion: an operation
    is started (completed) in the merged journal exactly if it is in one of the
    two. *)
Theorem merge_keeps_completions staging existing n :
  completed (merge_journal_states staging existing) n = completed staging n || completed existing n ∧
  started (merge_journal_states staging existing) n = started staging n || started existing n.
Proof. apply merge_facts. Qed.

(** A relocation that reports success leaves at the destination a journal
    with every completion of the staging journal and, if the destination already
    held a readable one, every completion of that too; so a retry never repeats
    an operation that an earlier run completed. *)
Theorem relocate_keeps_completions `{JsonCodecLaws} mkdir inspect rd_src rd_dest f path dest fs :
  fs_wf fs → same_path dest path = false →
  outcome (relocate mkdir inspect rd_src rd_dest f path dest fs) = Ok tt →
  ∃ staging j, load rd_src path fs = Ok staging ∧
    load no_read_faults dest (final (relocate mkdir inspect rd_src rd_dest f path dest fs)) = Ok j ∧
    (∀ n, completed staging n = true → completed j n = true) ∧
    (∀ existing n, dir fs !! dest ≠ None → load rd_dest dest fs = Ok existing →
       completed existing n = true → completed j n = true).
Proof.
  intros Hw Hne. unfold relocate. rewrite Hne.
  destruct (let? parent := _ in _) as [merged|e] eqn:E; [|done].
  apply rbind_Ok in E as (parent & _ & E). apply rbind_Ok in E as (_ & _ & E).
  apply rbind_Ok in E as (_ & _ & E). apply rbind_Ok in E as (staging & Hst & E).
  pose proof (load_Ok _ _ _ _ Hst) as (Hsw & _).
  destruct inspect; [done|].
  assert (Forall op_wf merged ∧ (∀ n, completed staging n = true → completed merged n = true) ∧
          ∀ existing n, dir fs !! dest ≠ None → load rd_dest dest fs = Ok existing →
            completed existing n = true → completed merged n = true) as (Hmw & H1 & H2).
  { destruct (dir fs !! dest); [|by injection E as <-].
    destruct (load rd_dest dest fs) as [existing|] eqn:Hd; injection E as <-; [|by split_and!].
    pose proof (load_Ok _ _ _ _ Hd) as (Hew & _). split_and!; [by apply merge_Forall| |].
    - intros n Hn. by rewrite (proj1 (merge_facts _ _ _)), Hn.
    - intros ? n _ [= <-] Hn. by rewrite (proj1 (merge_facts _ _ _)), Hn, orb_true_r. }
  intros Ho. exists staging, merged.
  destruct (write_state_ok f dest merged fs Hw Hmw) as [_ Hl]. split_and!; auto.
Qed.

(** * Witnesses *)

#[local] Existing Instance tree_codec.
#[local] Existing Instance tree_codec_laws.

Definition efi_journal : string := "/boot/efi/.kyth-install-journal.json".
Definition empty_fs : Fs := {| inodes := ∅; dir := ∅; durable := ∅; next_inode := 0 |}.

Lemma empty_fs_wf : fs_wf empty_fs.
Proof. intros p i [H|H]; done. Qed.

(** A fresh journal on the EFI system partition. *)
Definition opened : Fs :=
  final (fst (open_journal (Ok tt) (Ok true) None no_read_faults no_state_faults
                (Some "/boot/efi") "/mnt" empty_fs)).

Lemma opened_wf : fs_wf opened.
Proof. apply open_wf, empty_fs_wf. Qed.

Example open_then_load : load no_read_faults efi_journal opened = Ok [].
Proof. vm_compute. reflexivity. Qed.

(** The rename of the first write fails. *)
Definition rename_fails : WriteFaults :=
  {| wf_remove := false; wf_create := None; wf_write := None; wf_sync := None;
     wf_rename := Some "Read-only file system"; wf_sync_dir := None; wf_cleanup := false |}.

Lemma journal_write_crash_safe_witness :
  ∀ x, crash_read (final (write_atomically no_write_faults efi_journal "new" opened)) efi_journal x →
       x = Some "new".
Proof.
  refine (proj2 (journal_write_crash_safe no_write_faults efi_journal "new" opened opened_wf) _).
  vm_compute. reflexivity.
Defined.

Example failed_rename_keeps_journal :
  load no_read_faults efi_journal (final (write_atomically rename_fails efi_journal "new" opened))
  = Ok [].
Proof. vm_compute. reflexivity. Qed.

Definition shrink_started : Run :=
  record no_read_faults no_state_faults (Ok 1700) efi_journal "ntfs_shrink" Started opened.

Lemma u64_1700 : is_u64 1700.
Proof. split; vm_compute; discriminate. Qed.

Lemma record_durable_witness :
  ∃ name j, validated_op_name "ntfs_shrink" = Ok name ∧ load no_read_faults efi_journal opened = Ok j ∧
    load no_read_faults efi_journal (final shrink_started) = Ok (apply_record name Started 1700 j) ∧
    ∀ x, crash_read (final shrink_started) efi_journal x →
      x = Some (json_encode (journal_json (apply_record name Started 1700 j))).
Proof.
  refine (record_durable no_read_faults no_state_faults 1700 efi_journal "ntfs_shrink" Started opened
            opened_wf u64_1700 _).
  vm_compute. reflexivity.
Defined.

(** The state of a record at the moment the temporary file has been created. *)
Definition half_written : Fs := nth 2 (visited shrink_started) empty_fs.

Lemma half_written_visited : half_written ∈ visited shrink_started.
Proof. apply list_elem_of_In, nth_In. vm_compute. lia. Qed.

Lemma half_written_crash : crash_read half_written efi_journal (Some (json_encode (journal_json []))).
Proof. left. vm_compute. do 2 eexists. split; [reflexivity|]. split; [reflexivity|]. done. Qed.

(** Two crashes of that record on the EFI system partition: while the temporary
    file is being filled, and after the success; and a record in a journal that
    has vanished. *)
Lemma record_crash_safe_witness :
  (crash_read opened efi_journal (Some (json_encode (journal_json []))) ∨
   recorded no_read_faults efi_journal "ntfs_shrink" Started 1700 opened
     (Some (json_encode (journal_json [])))) ∧
  (∀ x, torn_read (final shrink_started) efi_journal x →
     recorded no_read_faults efi_journal "ntfs_shrink" Started 1700 opened x) ∧
  final (record no_read_faults no_state_faults (Ok 1700) efi_journal "ntfs_shrink" Started empty_fs)
    = empty_fs.
Proof.
  destruct (record_crash_safe no_read_faults no_state_faults 1700 efi_journal "ntfs_shrink" Started
              opened opened_wf u64_1700) as (H1 & H2 & _).
  destruct (record_crash_safe no_read_faults no_state_faults 1700 efi_journal "ntfs_shrink" Started
              empty_fs empty_fs_wf u64_1700) as (_ & _ & H3).
  split; [|split].
  - exact (H1 half_written _ half_written_visited half_written_crash).
  - apply H2; [vm_compute; reflexivity|vm_compute; reflexivity].
  - eapply H3. vm_compute. reflexivity.
Defined.

(** A journal with a started record that a torn rename made vanish is refused by
    a record, as the documentation says, but opening it again resets it. *)
Example vanished_journal_reopened :
  let vanished := remove_file efi_journal (final shrink_started) in
  rmap (λ j, started j "ntfs_shrink") (load no_read_faults efi_journal (final shrink_started)) = Ok true ∧
  load no_read_faults efi_journal
    (final (fst (open_journal (Ok tt) (Ok true) None no_read_faults no_state_faults
                   (Some "/boot/efi") "/mnt" vanished))) = Ok [].
Proof. by vm_compute. Qed.

Definition root_journal : string := "/mnt/.kyth-install-journal.json".

(** The journal moved from the ESP to the target root. *)
Definition moved : Run :=
  relocate (Ok tt) None no_read_faults no_read_faults no_state_faults efi_journal root_journal
    (final shrink_started).

Lemma shrink_started_wf : fs_wf (final shrink_started).
Proof. apply record_wf; [apply opened_wf|apply u64_1700]. Qed.

Lemma relocate_keeps_completions_witness :
  ∃ staging j, load no_read_faults efi_journal (final shrink_started) = Ok staging ∧
    load no_read_faults root_journal (final moved) = Ok j.
Proof.
  destruct (relocate_keeps_completions (Ok tt) None no_read_faults no_read_faults no_state_faults
              efi_journal root_journal (final shrink_started) shrink_started_wf)
    as (staging & j & H1 & H2 & _); [reflexivity|vm_compute; reflexivity|].
  exists staging, j. split; [exact H1|exact H2].
Defined.

Definition done_op (name : string) : JournalOp :=
  {| op_name := name; op_started := 1; op_completed := Some 2 |}.
Definition open_op (name : string) : JournalOp :=
  {| op_name := name; op_started := 3; op_completed := None |}.

(** A destination record is dropped although the staging journal knows nothing
    of that operation: the second run of an operation, interrupted after an
    earlier run of it had completed, disappears. *)
Example merge_drops_destination_record :
  merge_journal_states [] [done_op "ntfs_shrink"; open_op "ntfs_shrink"] = [done_op "ntfs_shrink"].
Proof. reflexivity. Qed.

(** A document without a list of records loads as an empty journal. *)
Example missing_ops_load_empty :
  load_document (jobject [("schema_version", JNumber 1)]) = Ok [] ∧
  load_document (jobject [("schema_version", JNumber 1); ("ops", JString "torn")]) = Ok [].
Proof. by vm_compute. Qed.
