(* ===== verification/InstallerTransaction.v ===== *)
(** The transaction marker and its reading in Rescue mode:
    [installer_transaction.rs] and the classification part of
    [installer_recovery.rs].

    The installer keeps one JSON file per installation in a private directory
    on a tmpfs and rewrites it atomically; Rescue mode decodes it and tells the user
    whether the target may be booted.  The serde-generated decoder and the
    pretty printer are parameters. *)

From S2P Require Import Prelude RustStr RustOs Json FileSystem.

(** * Guidance *)

Record RecoveryGuidance := {
  rg_status : string;
  rg_severity : string;
  rg_message : string;
  rg_bootable : bool;
}.

(** The dash of the source's text, in UTF-8. *)
Definition em_dash : string := bytes [226; 128; 148]%N.

Definition GUIDANCE : list (string * string * string * bool) := [
  ("", "unknown", "No install transaction recorded. Do not assume the disk is bootable.", false);
  ("started", "incomplete",
   "Install started but storage did not finish. Stay in this live session.", false);
  ("prepared", "incomplete",
   "Install prepared a plan but storage did not finish. Stay in this live session.", false);
  ("storage_complete", "unbootable",
   "The image is on disk but the installed system is not configured yet. Continue or rescue from this live session "
   +:+ em_dash +:+ " do not reboot into the target.", false);
  ("image_installed", "unbootable",
   "Legacy journal: image written, configure unknown. Treat the target as not bootable until configure_complete.",
   false);
  ("configure_started", "unbootable",
   "Configuring the installed system was interrupted. Continue from this live session "
   +:+ em_dash +:+ " the target is not bootable yet.", false);
  ("configure_complete", "almost",
   "The installed system is configured. Secure Boot enrollment may still be pending "
   +:+ em_dash +:+ " check MOK staging before reboot.", false);
  ("secure_boot_staged", "ready",
   "Secure Boot enrollment is staged. Reboot and enroll the MOK if the firmware prompts.", true);
  ("complete", "ready", "Install finished. The target should be bootable.", true);
  ("failed", "failed", "Install failed. Use the log tail and transaction details below.", false)].

Definition rescue_guidance (status : option string) : RecoveryGuidance :=
  let status := unwrap_or status EmptyString in
  match find_first (λ e, String.eqb (fst (fst (fst e))) status) GUIDANCE with
  | Some (_, severity, message, bootable) =>
      {| rg_status := status; rg_severity := severity; rg_message := message; rg_bootable := bootable |}
  | None =>
      {| rg_status := status; rg_severity := "unknown";
         rg_message := "Unrecognized transaction status " +:+ show_debug status
                       +:+ ". Do not assume the disk is bootable.";
         rg_bootable := false |}
  end.

(** ** The bootc summary *)

(** [s.chars().take(n)]: the bytes of the first [n] characters; a byte
    [10xxxxxx] continues a character. *)
Fixpoint take_chars (n : nat) (s : string) : string :=
  match s with
  | EmptyString => EmptyString
  | String c s =>
      if byte_in 128 191 c then String c (take_chars n s)
      else match n with
           | O => EmptyString
           | S n => String c (take_chars n s)
           end
  end.

(** [a.or_else(|| b)] *)
Definition or_else {A} (a b : option A) : option A :=
  match a with Some _ => a | None => b end.

Definition text_of (v : option json) : string :=
  match v with
  | Some x => unwrap_or (as_str x) EmptyString
  | None => EmptyString
  end.

(** One deployment of the loop. *)
Definition deployment_step (acc : string * string) (deployment : json) : string * string :=
  match deployment with
  | JObject _ =>
      let '(booted, staged) := acc in
      let image := text_of (or_else (jget "image" deployment) (jget "id" deployment)) in
      (if is_empty booted && bool_decide (field as_bool "booted" deployment = Some true)
       then image else booted,
       if is_empty staged && bool_decide (field as_bool "staged" deployment = Some true)
       then image else staged)
  | _ => acc
  end.

(** [bootc_status_summary], with the parsed document if the text parses. *)
Definition bootc_status_summary `{JsonCodec} (raw : string) : json :=
  match json_decode raw with
  | Err _ => jobject [("booted", JString EmptyString); ("staged", JString EmptyString)]
  | Ok value =>
      let status := unwrap_or (jget "status" value) value in
      let booted := text_of (or_else (or_else (jget "booted" status) (jget "bootedImage" status))
                               (jget "booted" value)) in
      let staged := text_of (or_else (or_else (jget "staged" status) (jget "stagedImage" status))
                               (jget "staged" value)) in
      let '(booted, staged) :=
        match field as_array "deployments" value with
        | Some deployments => fold_left deployment_step deployments (booted, staged)
        | None => (booted, staged)
        end in
      jobject [("booted", JString (take_chars 256 booted)); ("staged", JString (take_chars 256 staged))]
  end.

(** * The transaction state *)

Record TransactionSource := {
  src_kind : string;
  src_digest : string;
  src_verified : bool;
  src_target_ref : string;
}.

Record TransactionState := {
  ts_schema_version : Z;
  ts_transaction_id : string;
  ts_job_id : option Z;
  ts_updated_at : string;
  ts_status : string;
  ts_phase : string;
  ts_lifecycle : string;
  ts_install_mode : string;
  ts_disk : string;
  ts_target_partition : string;
  ts_source : TransactionSource;
  ts_checks : list json;
  ts_partition_steps : list json;
  ts_message : string;
  ts_recovery_required : bool;
}.

(** [serde_json::to_value]: one member per field. *)
Definition source_json (s : TransactionSource) : json :=
  jobject [("kind", JString (src_kind s)); ("digest", JString (src_digest s));
           ("verified", JBool (src_verified s)); ("target_ref", JString (src_target_ref s))].

Definition state_fields (s : TransactionState) : gmap string json :=
  list_to_map [
    ("schema_version", JNumber (ts_schema_version s));
    ("transaction_id", JString (ts_transaction_id s));
    ("job_id", jopt (ts_job_id s));
    ("updated_at", JString (ts_updated_at s));
    ("status", JString (ts_status s));
    ("phase", JString (ts_phase s));
    ("lifecycle", JString (ts_lifecycle s));
    ("install_mode", JString (ts_install_mode s));
    ("disk", JString (ts_disk s));
    ("target_partition", JString (ts_target_partition s));
    ("source", source_json (ts_source s));
    ("checks", JArray (ts_checks s));
    ("partition_steps", JArray (ts_partition_steps s));
    ("message", JString (ts_message s));
    ("recovery_required", JBool (ts_recovery_required s))].

(** The serde code of the two types: the pretty printer and the derived
    decoder. *)
Class TransactionCodec := {
  json_pretty : json → string;
  decode_state : string → result TransactionState;
}.

Definition state_wf (s : TransactionState) : Prop :=
  0 <= ts_schema_version s < 2 ^ 32 ∧ ∀ n, ts_job_id s = Some n → is_u64 n.

(** A state that serde_json prints, with the newline the writer adds, is read
    back as the same state. *)
Class TransactionCodecLaws `{TransactionCodec} := {
  state_roundtrip s :
    state_wf s → decode_state (json_pretty (JObject (state_fields s)) +:+ bytes [10]%N) = Ok s;
}.

Record DecodedTransaction := { dt_state : TransactionState; dt_guidance : RecoveryGuidance }.

Definition decode `{TransactionCodec} (input : string) : result DecodedTransaction :=
  let? state := map_err (λ e, "invalid transaction state: " +:+ e) (decode_state input) in
  guard! negb (ts_schema_version state =? 1)
    else ("unsupported transaction state schema: " +:+ show_int (ts_schema_version state));
  Ok {| dt_state := state; dt_guidance := rescue_guidance (Some (ts_status state)) |}.

(** * The path *)

Definition TRANSACTION_BASE : string := "/run/kyth-installer".
Definition TRANSACTION_SUBDIR : string := "txn".

Definition accepted_transaction_base_dir (path : string) : option string :=
  if list_prefix (components TRANSACTION_BASE) (components path) then Some TRANSACTION_BASE else None.

Definition safe_transaction_path (raw : string) : result string :=
  let path := trim raw in
  guard! negb (is_absolute path) || (4096 <? slen path) || has_parent_dir path
    else "transaction path must be an absolute safe path";
  let? base := ok_or (accepted_transaction_base_dir path)
    ("transaction path must be a file under " +:+ TRANSACTION_BASE +:+ "/" +:+ TRANSACTION_SUBDIR) in
  let subdir := join_path base TRANSACTION_SUBDIR in
  guard! negb (bool_decide (parent_components path = Some (components subdir)))
         || bool_decide (file_name path = None)
    else ("transaction path must be a file directly under " +:+ TRANSACTION_BASE +:+ "/" +:+ TRANSACTION_SUBDIR);
  Ok path.

(** * The durable writer *)

(** The outcome of [create_dir] on the parent and of what follows it. *)
Inductive CreateDir :=
| Created (secured : result unit)
| ParentMissing (made secured : result unit)
| AlreadyExists (real_directory : result bool)
| CreateFailed (e : string).

Definition prepare_directory (d : CreateDir) : result unit :=
  let secure := map_err (λ e, "could not secure transaction directory: " +:+ e) in
  match d with
  | Created secured => secure secured
  | ParentMissing made secured =>
      check! map_err (λ e, "could not create transaction directory: " +:+ e) made;
      secure secured
  | AlreadyExists real =>
      let? real := map_err (λ e, "could not inspect transaction directory: " +:+ e) real in
      guard! negb real else "transaction directory must be a real directory";
      Ok tt
  | CreateFailed e => Err ("could not create transaction directory: " +:+ e)
  end.

(** [path.extension()] *)
Definition extension (p : string) : option string :=
  match split_last "." (match split_last "/" p with Some (_, name) => name | None => p end) with
  | Some (s, e) => if is_empty s then None else Some e
  | None => None
  end.

Record TxnFaults := {
  tf_dir : CreateDir;
  tf_open : option string;
  tf_write : option (string * string);    (* what was written, and the message of the failing step *)
  tf_sync : option string;
  tf_secure : option string;
  tf_rename : option string;
  tf_sync_dir : option string;
}.
Definition no_txn_faults : TxnFaults :=
  {| tf_dir := AlreadyExists (Ok true); tf_open := None; tf_write := None; tf_sync := None;
     tf_secure := None; tf_rename := None; tf_sync_dir := None |}.

(** Opening the temporary file: created, or truncated when it is there. *)
Definition open_truncate (p : string) (fs : Fs) : option (Fs * nat) :=
  match dir fs !! p with
  | None => Some (create_file p fs, next_inode fs)
  | Some (Regular i) => Some (write_inode i EmptyString fs, i)
  | Some (Special _) => None
  end.

(** From the opened temporary file on. *)
Definition write_opened (f : TxnFaults) (path temporary text : string) (fs1 : Fs) (i : nat) : Run :=
  let stop fs vs e := {| visited := vs; final := fs; outcome := Err e |} in
  match tf_write f with
  | Some (partial, e) => let fs2 := write_inode i partial fs1 in stop fs2 [fs1; fs2] e
  | None =>
      let fs2 := write_inode i text fs1 in
      match tf_sync f with
      | Some e => stop fs2 [fs1; fs2] ("could not sync transaction state: " +:+ e)
      | None =>
          let fs3 := sync_inode i fs2 in
          match tf_secure f, tf_rename f with
          | Some e, _ => stop fs3 [fs1; fs2; fs3] ("could not secure transaction state: " +:+ e)
          | None, Some e => stop fs3 [fs1; fs2; fs3] ("could not replace transaction state: " +:+ e)
          | None, None =>
              let fs4 := rename_file temporary path fs3 in
              match tf_sync_dir f with
              | Some e => stop fs4 ([fs1; fs2; fs3] ++ [fs4]) e
              | None =>
                  let fs5 := sync_name path (sync_name temporary fs4) in
                  {| visited := [fs1; fs2; fs3] ++ [fs4; fs5]; final := fs5; outcome := Ok tt |}
              end
          end
      end
  end.

Definition temporary_path (path : string) : string :=
  with_extension (unwrap_or (extension path) "json" +:+ ".tmp") path.

Definition write_json `{TransactionCodec} (f : TxnFaults) (path : string) (value : json) (fs : Fs) : Run :=
  match parent_components path with
  | None => refused fs "transaction path has no parent directory"
  | Some _ =>
      match prepare_directory (tf_dir f) with
      | Err e => refused fs e
      | Ok _ =>
          match dir fs !! path with
          | Some (Special _) => refused fs "transaction path must be a regular file"
          | _ =>
              match tf_open f, open_truncate (temporary_path path) fs with
              | Some e, _ => refused fs ("could not open temporary transaction state: " +:+ e)
              | None, None =>
                  refused fs ("could not open temporary transaction state: " +:+
                    if is_directory (dir fs !! temporary_path path) then "Is a directory (os error 21)"
                    else "Too many levels of symbolic links (os error 40)")
              | None, Some (fs1, i) =>
                  let text := json_pretty value +:+ bytes [10]%N in
                  let r := write_opened f path (temporary_path path) text fs1 i in
                  {| visited := fs :: visited r; final := final r; outcome := outcome r |}
              end
          end
      end
  end.

Definition write_request `{TransactionCodec} (f : TxnFaults) (path : string) (state : TransactionState)
    (fs : Fs) : Run :=
  match safe_transaction_path path with
  | Err e => refused fs e
  | Ok p => write_json f p (JObject (state_fields state)) fs
  end.

Definition failure_fields (state : TransactionState) (message : string) : gmap string json :=
  <["recovery_required" := JBool true]>
    (<["message" := JString message]>
      (<["lifecycle" := JString "failed"]>
        (<["status" := JString "failed"]> (state_fields state)))).

Definition write_failure_summary `{TransactionCodec} (f : TxnFaults) (path : string)
    (state : TransactionState) (message : string) (fs : Fs) : Run :=
  match safe_transaction_path path with
  | Err e => refused fs e
  | Ok p => write_json f p (JObject (failure_fields state message)) fs
  end.

(** * Properties *)

(** ** Where transaction files may be *)

Lemma components_base : components TRANSACTION_BASE = ["run"; "kyth-installer"].
Proof. reflexivity. Qed.

Lemma components_not_dots p c : c ∈ components p → c ≠ EmptyString ∧ c ≠ ".".
Proof.
  unfold components. rewrite elem_of_filterb. intros [_ [Ha Hb]%andb_true_iff].
  apply negb_true_iff in Ha, Hb. apply is_empty_false in Ha. by apply String.eqb_neq in Hb.
Qed.

(** A transaction path is accepted exactly if, trimmed, it is an absolute
    path of at most 4096 bytes without parent components that names a file
    directly in the installer's private transaction directory; no other file of
    the system can be written through it. *)
Theorem safe_transaction_path_exact raw p :
  safe_transaction_path raw = Ok p ↔
  p = trim raw ∧ is_absolute p = true ∧ slen p <= 4096 ∧
  ∃ name, components p = ["run"; "kyth-installer"; "txn"; name] ∧ name ≠ "..".
Proof.
  unfold safe_transaction_path, accepted_transaction_base_dir, has_parent_dir. split.
  - intros H. guard_inv H as E1. apply rbind_Ok in H as (base & Hb & H).
    destruct (list_prefix _ _) eqn:Hp; [injection Hb as <-|done]. guard_inv H as E2. injection H as <-.
    bool_inv. apply str_in_false in E1.
    split_and!; [done|done|done|].
    apply list_prefix_spec in Hp as [c Hc]. rewrite components_base in Hc.
    unfold parent_components in *. rewrite Hc in *. cbn in Hc |- *.
    change (components (join_path TRANSACTION_BASE TRANSACTION_SUBDIR))
      with ["run"; "kyth-installer"; "txn"] in *.
    destruct c as [|x [|y [|z c]]]; cbn in *; try congruence.
    assert (x = "txn") as -> by congruence. exists y. split; [done|]. intros ->. apply E1. set_solver.
  - intros (-> & Ha & Hl & name & Hc & Hn).
    assert (str_in ".." (components (trim raw)) = false) as Hs.
    { rewrite Hc. apply str_in_false. set_solver. }
    rewrite Ha, Hs. cbn [negb orb]. destruct (Z.ltb_spec 4096 (slen (trim raw))); [lia|]. cbn [orb].
    rewrite Hc. rewrite components_base. cbn.
    unfold parent_components, file_name. rewrite Hc. cbn.
    apply String.eqb_neq in Hn. by rewrite Hn.
Qed.

(** ** What Rescue mode reports *)

Lemma guidance_listed status e :
  find_first (λ e, String.eqb (fst (fst (fst e))) status) GUIDANCE = Some e →
  e ∈ GUIDANCE ∧ fst (fst (fst e)) = status.
Proof. intros [He Hs%String.eqb_eq]%find_first_Some. done. Qed.

Lemma guidance_bootable status :
  rg_bootable (rescue_guidance (Some status)) = true ↔ status ∈ ["secure_boot_staged"; "complete"].
Proof.
  unfold rescue_guidance. cbn [unwrap_or].
  destruct (find_first _ GUIDANCE) as [[[[st sev] msg] b]|] eqn:E.
  - apply guidance_listed in E as [He Hs]. cbn in *. subst st. unfold GUIDANCE in He.
    repeat (apply elem_of_cons in He as [He|He]; [injection He as -> -> -> ->; split; [by try set_solver|];
      rewrite !elem_of_cons, elem_of_nil; intros Hx; by destruct_or! Hx|]).
    by apply elem_of_nil in He.
  - cbn. split; [done|]. rewrite !elem_of_cons, elem_of_nil. intros Hx.
    by destruct_or! Hx; subst.
Qed.

(** Rescue mode calls the target bootable exactly for the two statuses after
    the installation was finished or its Secure Boot enrollment staged; every
    other decoded state, an unknown status included, is reported as not
    bootable, and a state of another schema is not decoded at all. *)
Theorem decode_bootable `{TransactionCodec} text d :
  decode text = Ok d →
  ts_schema_version (dt_state d) = 1 ∧ decode_state text = Ok (dt_state d) ∧
  (rg_bootable (dt_guidance d) = true ↔
   ts_status (dt_state d) ∈ ["secure_boot_staged"; "complete"]).
Proof.
  unfold decode. rewrite rbind_Ok. intros (s & Hs%map_err_Ok & Hk). guard_inv Hk as E.
  injection Hk as <-. bool_inv. cbn. split_and!; [done|done|apply guidance_bootable].
Qed.

(** ** The writer *)

(** A leftover temporary file is not a hard link of the marker. *)
Definition tmp_unshared (fs : Fs) (path : string) : Prop :=
  ∀ i, dir fs !! temporary_path path = Some (Regular i) → unshared fs path i.

Lemma temporary_path_ne path : temporary_path path ≠ path.
Proof.
  apply with_extension_ne. rewrite contains_char_app. apply orb_true_iff. by right.
Qed.

Lemma open_truncate_staged path fs fs1 i :
  fs_wf fs → tmp_unshared fs path → open_truncate (temporary_path path) fs = Some (fs1, i) →
  unshared fs path i ∧ staged fs fs1 path (temporary_path path) i.
Proof.
  intros Hw Hu. unfold open_truncate. destruct (dir fs !! temporary_path path) as [[k|]|] eqn:E;
    intros [= <- <-].
  - split; [by apply Hu|]. destruct (Hw (temporary_path path) k) as [Hk Hf]; [by left|].
    apply staged_write. by split.
  - split; [by apply fresh_unshared|apply staged_create, temporary_path_ne].
Qed.

Lemma write_opened_ok f path text fs fs1 i :
  fs_wf fs → unshared fs path i → staged fs fs1 path (temporary_path path) i →
  write_ok path text fs (write_opened f path (temporary_path path) text fs1 i).
Proof.
  intros Hw Hu H1. unfold write_opened.
  destruct (tf_write f) as [[partial e]|].
  { pose proof (staged_write _ _ _ _ _ partial H1) as H2. eapply write_ok_stop; eauto. }
  pose proof (staged_write _ _ _ _ _ text H1) as H2.
  destruct (tf_sync f); [eapply write_ok_stop; eauto|].
  pose proof (staged_sync _ _ _ _ _ H2) as H3. pose proof (sync_write_file fs1 i text) as Hfile.
  set (fs3 := sync_inode _ _) in *.
  assert (Forall (λ v, v = fs ∨ staged fs v path (temporary_path path) i)
            [fs1; write_inode i text fs1; fs3]) as Hvs
    by (repeat (apply Forall_cons; split; [by right|]); constructor).
  destruct (tf_secure f); [by eapply write_ok_stop; eauto|].
  destruct (tf_rename f); [by eapply write_ok_stop; eauto|].
  destruct (tf_sync_dir f) as [e|].
  - exact (proj1 (write_ok_replace path _ text fs _ fs3 i _ Hw Hu Hvs H3 Hfile)).
  - exact (proj2 (write_ok_replace path _ text fs _ fs3 i "" Hw Hu Hvs H3 Hfile)).
Qed.

Lemma write_json_ok `{TransactionCodec} f path value fs :
  fs_wf fs → tmp_unshared fs path →
  write_ok path (json_pretty value +:+ bytes [10]%N) fs (write_json f path value fs).
Proof.
  intros Hw Hu. unfold write_json.
  pose proof (λ e, write_ok_refused path (json_pretty value +:+ bytes [10]%N) fs e Hw) as Hre.
  destruct (parent_components path); [|apply Hre]. destruct (prepare_directory _); [|apply Hre].
  destruct (dir fs !! path) as [[j|k]|]; [|apply Hre|]; (destruct (tf_open f); [apply Hre|]);
    (destruct (open_truncate (temporary_path path) fs) as [[fs1 i]|] eqn:E; [|apply Hre]);
    apply open_truncate_staged in E as [Hui Hst]; [|done|done| |done|done];
    destruct (write_opened_ok f path (json_pretty value +:+ bytes [10]%N) fs fs1 i Hw Hui Hst) as [W1 W2 W3];
    (split; cbn; [done| |done]); intros v x [->|Hv]%elem_of_cons Hx; (by left) || by eapply W2.
Qed.

(** At every moment of a write a reader finds the earlier file or the complete
    new text. *)
Definition old_or_new (path text : string) (fs v : Fs) : Prop :=
  read_file v path = read_file fs path ∨ read_file v path = Some text.

Lemma write_opened_live f path text fs fs1 i :
  unshared fs path i → staged fs fs1 path (temporary_path path) i →
  Forall (old_or_new path text fs) (visited (write_opened f path (temporary_path path) text fs1 i)).
Proof.
  intros Hu H1. unfold write_opened.
  assert (∀ v, staged fs v path (temporary_path path) i → old_or_new path text fs v) as Hst
    by (left; by eapply staged_read).
  destruct (tf_write f) as [[partial e]|].
  { pose proof (staged_write _ _ _ _ _ partial H1) as H2. repeat (apply Forall_cons; split; [by auto|]). done. }
  pose proof (staged_write _ _ _ _ _ text H1) as H2.
  pose proof (staged_sync _ _ _ _ _ H2) as H3. pose proof (sync_write_file fs1 i text) as Hfile.
  pose proof (replaced_rename _ _ _ _ _ _ H3 Hfile) as [Hp Hf _ _]. set (fs4 := rename_file _ _ _) in *.
  assert (∀ v, dir v = dir fs4 → inodes v = inodes fs4 → old_or_new path text fs v) as Hnew.
  { intros v Ed Ei. right. unfold read_file. by rewrite Ed, Ei, Hp, Hf. }
  destruct (tf_sync f), (tf_secure f), (tf_rename f), (tf_sync_dir f); cbn [visited app];
    repeat (apply Forall_cons; split; [by auto|]); done.
Qed.

Lemma write_json_live `{TransactionCodec} f path value fs :
  fs_wf fs → tmp_unshared fs path →
  Forall (old_or_new path (json_pretty value +:+ bytes [10]%N) fs) (visited (write_json f path value fs)).
Proof.
  intros Hw Hu. unfold write_json.
  assert (∀ e, Forall (old_or_new path (json_pretty value +:+ bytes [10]%N) fs) (visited (refused fs e))) as Hre
    by (intros e; apply Forall_singleton; by left).
  destruct (parent_components path); [|apply Hre]. destruct (prepare_directory _); [|apply Hre].
  destruct (dir fs !! path) as [[j|k]|]; [|apply Hre|]; (destruct (tf_open f); [apply Hre|]);
    (destruct (open_truncate (temporary_path path) fs) as [[fs1 i]|] eqn:E; [|apply Hre]);
    apply open_truncate_staged in E as [Hui Hst]; [|done|done| |done|done];
    (apply Forall_cons; split; [by left|by apply write_opened_live]).
Qed.

(** The marker with the failure recorded. *)
Definition failed_state (s : TransactionState) (message : string) : TransactionState := {|
  ts_schema_version := ts_schema_version s;
  ts_transaction_id := ts_transaction_id s;
  ts_job_id := ts_job_id s;
  ts_updated_at := ts_updated_at s;
  ts_status := "failed";
  ts_phase := ts_phase s;
  ts_lifecycle := "failed";
  ts_install_mode := ts_install_mode s;
  ts_disk := ts_disk s;
  ts_target_partition := ts_target_partition s;
  ts_source := ts_source s;
  ts_checks := ts_checks s;
  ts_partition_steps := ts_partition_steps s;
  ts_message := message;
  ts_recovery_required := true;
|}.

(** Overwriting the four members of the document is updating the four fields. *)
Lemma failure_fields_eq s message : failure_fields s message = state_fields (failed_state s message).
Proof.
  unfold failure_fields, state_fields. apply map_eq. intros k.
  assert (∀ (m : gmap string json) a v, <[a := v]> m !! k = if decide (a = k) then Some v else m !! k)
    as Hins by (intros; apply lookup_insert).
  cbn [list_to_map foldr fst snd failed_state ts_schema_version ts_transaction_id ts_job_id ts_updated_at
       ts_status ts_phase ts_lifecycle ts_install_mode ts_disk ts_target_partition ts_source ts_checks
       ts_partition_steps ts_message ts_recovery_required]. cbn -[insert lookup].
  rewrite !Hins. repeat (case_decide; [by subst|]). done.
Qed.

(** C38: the marker of a transaction of schema 1 is never half a failure summary
    (unless a leftover temporary file is a hard link of it).
    It is on a tmpfs, so what counts is what a reader finds while the system
    runs, also when the writer is killed: at every moment of the write that is
    the earlier marker or the complete summary, whatever fails; and once the
    write has reported success it is the summary.  The summary decodes as the
    transaction with the failure recorded, every other field unchanged, and is
    reported as failed and not bootable. *)
Theorem failure_summary_complete `{TransactionCodecLaws} f path state message fs p :
  fs_wf fs → safe_transaction_path path = Ok p → tmp_unshared fs p →
  state_wf state → ts_schema_version state = 1 →
  let r := write_failure_summary f path state message fs in
  let reads_failed x := ∃ text d, x = Some text ∧ decode text = Ok d ∧
    dt_state d = failed_state state message ∧
    rg_severity (dt_guidance d) = "failed" ∧ rg_bootable (dt_guidance d) = false in
  (∀ v, v ∈ visited r → read_file v p = read_file fs p ∨ reads_failed (read_file v p)) ∧
  (outcome r = Ok tt → reads_failed (read_file (final r) p)).
Proof.
  intros Hw Hp Hu Hs Hv r reads_failed.
  assert (r = write_json f p (JObject (failure_fields state message)) fs) as Hr
    by (unfold r, write_failure_summary; by rewrite Hp).
  destruct (write_json_ok f p (JObject (failure_fields state message)) fs Hw Hu) as [_ _ Ho].
  pose proof (write_json_live f p (JObject (failure_fields state message)) fs Hw Hu) as Hlive.
  rewrite failure_fields_eq in Hlive, Ho. rewrite Forall_forall in Hlive.
  assert (∀ x, x = Some (json_pretty (JObject (state_fields (failed_state state message)))
                         +:+ bytes [10]%N) → reads_failed x) as Hread.
  { intros x ->. eexists _, _. split; [done|]. unfold decode. rewrite state_roundtrip by done.
    cbn. rewrite Hv. cbn. by split_and!. }
  rewrite failure_fields_eq in Hr. rewrite Hr. split.
  - intros v Hin. destruct (Hlive v Hin) as [?|?]; auto.
  - intros Hok. apply Hread. by destruct (Ho Hok).
Qed.

(** * Witnesses *)

Fixpoint drop_last (s : string) : string :=
  match s with
  | EmptyString => EmptyString
  | String c r => match r with EmptyString => EmptyString | _ => String c (drop_last r) end
  end.

Lemma drop_last_newline s c : drop_last (s +:+ String c EmptyString) = s.
Proof.
  induction s as [|d s IH]; [done|]. rewrite append_cons. cbn.
  destruct s as [|e s]; [done|]. rewrite append_cons in IH |- *. by rewrite IH.
Qed.

(** A decoder for objects with every member present. *)
Definition source_of_json (v : json) : option TransactionSource :=
  match field as_str "kind" v, field as_str "digest" v, field as_bool "verified" v,
        field as_str "target_ref" v with
  | Some k, Some d, Some b, Some t =>
      Some {| src_kind := k; src_digest := d; src_verified := b; src_target_ref := t |}
  | _, _, _, _ => None
  end.

Definition jopt_of (v : json) : option (option Z) :=
  match v with
  | JNull => Some None
  | JNumber n => Some (Some n)
  | _ => None
  end.

Definition jnumber_of (v : json) : option Z := match v with JNumber n => Some n | _ => None end.

Definition state_of_json (v : json) : option TransactionState :=
  match field jnumber_of "schema_version" v, field as_str "transaction_id" v, field jopt_of "job_id" v,
        field as_str "updated_at" v, field as_str "status" v, field as_str "phase" v,
        field as_str "lifecycle" v, field as_str "install_mode" v, field as_str "disk" v,
        field as_str "target_partition" v, field source_of_json "source" v, field as_array "checks" v,
        field as_array "partition_steps" v, field as_str "message" v, field as_bool "recovery_required" v with
  | Some a, Some b, Some c, Some d, Some e, Some f, Some g, Some h, Some i, Some j, Some k, Some l,
    Some m, Some n, Some o =>
      Some {| ts_schema_version := a; ts_transaction_id := b; ts_job_id := c; ts_updated_at := d;
              ts_status := e; ts_phase := f; ts_lifecycle := g; ts_install_mode := h; ts_disk := i;
              ts_target_partition := j; ts_source := k; ts_checks := l; ts_partition_steps := m;
              ts_message := n; ts_recovery_required := o |}
  | _, _, _, _, _, _, _, _, _, _, _, _, _, _, _ => None
  end.

Lemma field_insert {A} (f : json → option A) k x m : field f k (JObject (<[k := x]> m)) = f x.
Proof. unfold field, jget. by rewrite lookup_insert_eq. Qed.
Lemma field_insert_ne {A} (f : json → option A) k k' x m :
  k' ≠ k → field f k (JObject (<[k' := x]> m)) = field f k (JObject m).
Proof. intros. unfold field, jget. by rewrite lookup_insert_ne. Qed.

(** Evaluates the members of a literal object. *)
Ltac fields :=
  repeat match goal with
  | |- context [field ?f ?k (JObject (<[?k := _]> _))] => rewrite (field_insert f k)
  | |- context [field ?f ?k (JObject (<[?k' := _]> _))] => rewrite (field_insert_ne f k k') by done
  end.

Lemma source_of_source s : source_of_json (source_json s) = Some s.
Proof.
  unfold source_of_json, source_json, jobject. cbn [list_to_map foldr fst snd]. cbn -[insert field].
  fields. by destruct s.
Qed.

Lemma state_of_state s : state_of_json (JObject (state_fields s)) = Some s.
Proof.
  unfold state_of_json, state_fields. cbn -[insert field].
  fields. cbn -[source_of_json source_json]. rewrite source_of_source.
  destruct s as [a b c d e f g h i j k l m n o]. cbn. by destruct c.
Qed.

#[local] Instance sample_txn_codec : TransactionCodec := {|
  json_pretty := @json_encode tree_codec;
  decode_state text :=
    match @json_decode tree_codec (drop_last text) with
    | Ok v => match state_of_json v with Some s => Ok s | None => Err "missing field" end
    | Err e => Err e
    end;
|}.

#[local] Instance sample_txn_laws : TransactionCodecLaws.
Proof.
  split. intros s _. cbn [decode_state json_pretty sample_txn_codec].
  change (bytes [10]%N) with (String "010" EmptyString). rewrite drop_last_newline.
  rewrite (@json_roundtrip _ tree_codec_laws). by rewrite state_of_state.
Qed.

Definition sample_state : TransactionState := {|
  ts_schema_version := 1; ts_transaction_id := "t-1"; ts_job_id := Some 1; ts_updated_at := "now";
  ts_status := "storage_complete"; ts_phase := "configure"; ts_lifecycle := "installing";
  ts_install_mode := "erase"; ts_disk := "/dev/sda"; ts_target_partition := "";
  ts_source := {| src_kind := "oci"; src_digest := "sha256:0"; src_verified := true; src_target_ref := "r" |};
  ts_checks := []; ts_partition_steps := [JString "mkfs"]; ts_message := ""; ts_recovery_required := false |}.

Definition sample_path : string := "/run/kyth-installer/txn/transaction.json".
Definition blank_fs : Fs := {| inodes := ∅; dir := ∅; durable := ∅; next_inode := 0 |}.

Lemma failure_summary_complete_witness :
  outcome (write_failure_summary no_txn_faults sample_path sample_state "disk full" blank_fs) = Ok tt ∧
  ∃ text d,
    read_file (final (write_failure_summary no_txn_faults sample_path sample_state "disk full" blank_fs)) sample_path
      = Some text ∧ decode text = Ok d ∧
    dt_state d = failed_state sample_state "disk full" ∧
    rg_severity (dt_guidance d) = "failed" ∧ rg_bootable (dt_guidance d) = false.
Proof.
  split; [vm_compute; reflexivity|].
  refine (proj2 (failure_summary_complete no_txn_faults sample_path sample_state "disk full" blank_fs
                   sample_path _ _ _ _ _) _).
  - intros p i [H|H]; done.
  - vm_compute. reflexivity.
  - intros i Hi. done.
  - split; [split; [discriminate|reflexivity]|]. intros n [= <-]. split; vm_compute; discriminate.
  - reflexivity.
  - vm_compute. reflexivity.
Defined.

Definition sample_text : string :=
  json_pretty (JObject (state_fields sample_state)) +:+ bytes [10]%N.

Lemma decode_bootable_witness :
  decode sample_text
    = Ok {| dt_state := sample_state; dt_guidance := rescue_guidance (Some "storage_complete") |} ∧
  (rg_bootable (rescue_guidance (Some "storage_complete")) = true ↔
   "storage_complete" ∈ ["secure_boot_staged"; "complete"]).
Proof.
  split; [vm_compute; reflexivity|].
  refine (proj2 (proj2 (decode_bootable sample_text
    {| dt_state := sample_state; dt_guidance := rescue_guidance (Some "storage_complete") |} _))).
  vm_compute. reflexivity.
Defined.

Example transaction_paths :
  is_ok (safe_transaction_path "/run/kyth-installer/txn/../daemon.sock") = false ∧
  is_ok (safe_transaction_path "/run/kyth-installer/token") = false ∧
  is_ok (safe_transaction_path "/run/kyth-installer-evil/txn/x") = false ∧
  safe_transaction_path " /run/kyth-installer//txn/./x.json " = Ok "/run/kyth-installer//txn/./x.json".
Proof. by vm_compute. Qed.

Example summary_ex :
  @bootc_status_summary {| json_decode _ := Ok (jobject
      [("deployments", JArray [jobject [("id", JString "ostree:1"); ("booted", JBool true)];
                               JString "noise"; jobject [("image", JString "ostree:2"); ("staged", JBool true)]])]);
     json_encode _ := EmptyString |} EmptyString
  = jobject [("booted", JString "ostree:1"); ("staged", JString "ostree:2")].
Proof. vm_compute. reflexivity. Qed.
