(* ===== verification/Configuration.v ===== *)
(** Configuring the installed system: [installer_configuration.rs].

    The plan of configuration files, the single installed deployment they go
    to, the atomic writes that apply them, and the fstab: validated lines,
    appends, snapshot and rollback.  File operations run over the crash model of
    FileSystem.v; permission bits are not part of it, so setting them is only a
    step that may fail. *)

From S2P Require Import Prelude RustStr RustOs FileSystem.

(** * Validated values *)

Definition MAX_FSTAB_LINE_BYTES : Z := 4096.

Record ConfigurationInput := {
  ci_target_root : string;
  ci_hostname : string;
  ci_timezone : string;
  ci_locale : string;
  ci_keymap : string;
}.

Record ConfigWrite := { cw_path : string; cw_content : string; cw_mode : Z }.

Record ConfigurationPlan := {
  cp_target_root : string;
  cp_writes : list ConfigWrite;
  cp_localtime_target : string;
  cp_executor : string;
}.

Definition default_locale : string := "en_US.UTF-8".
Definition default_keymap : string := "us".

Definition component_byte (allow_slash : bool) (c : ascii) : bool :=
  is_ascii_alphanumeric c || byte_among "._@+-" c || (allow_slash && Ascii.eqb c "/").

Definition safe_component (value label : string) (allow_slash : bool) : result string :=
  let value := trim value in
  guard! is_empty value || (4096 <? slen value) || contains_str ".." value
    else (label +:+ " is empty or unsafe.");
  guard! negb (str_all (component_byte allow_slash) value)
    else (label +:+ " contains unsupported characters.");
  Ok value.

(** The first and the last byte of a nonempty text. *)
Definition first_byte (s : string) : option ascii :=
  match s with String c _ => Some c | EmptyString => None end.
Definition last_byte (s : string) : option ascii := first_byte (srev s).

Definition hostname_byte (c : ascii) : bool := is_ascii_alphanumeric c || Ascii.eqb c "-".

Definition valid_hostname (value : string) : bool :=
  negb (is_empty value) && (slen value <=? 63)
  && negb (bool_decide (first_byte value = Some "-"%char))
  && negb (bool_decide (last_byte value = Some "-"%char))
  && str_all hostname_byte value.

Definition root_byte (c : ascii) : bool := is_ascii_alphanumeric c || byte_among "/._+:-" c.

Definition safe_root (value : string) : result string :=
  let value := trim value in
  guard! negb (starts_with "/" value) || contains_str ".." value || (4096 <? slen value)
    else "target root must be an absolute safe path.";
  guard! negb (str_all root_byte value) else "target root contains unsupported characters.";
  Ok value.

Definition safe_absolute_path (raw label : string) : result string :=
  let value := trim raw in
  guard! is_empty value || (4096 <? slen value) || negb (starts_with "/" value)
         || contains_str ".." value || contains_str "//" value || negb (str_all root_byte value)
    else (label +:+ " must be an absolute safe path.");
  Ok value.

(** * The plan *)

Definition build_plan (input : ConfigurationInput) : result ConfigurationPlan :=
  let? target_root := safe_root (ci_target_root input) in
  let hostname := trim (ci_hostname input) in
  guard! negb (valid_hostname hostname)
    else "hostname must be 1-63 letters, digits or '-', and cannot start or end with '-'.";
  let? timezone := safe_component (ci_timezone input) "timezone" true in
  guard! starts_with "/" timezone || ends_with "/" timezone || contains_str "//" timezone
    else "timezone must be a relative zoneinfo path.";
  let? locale := safe_component (ci_locale input) "locale" false in
  let? keymap := safe_component (ci_keymap input) "keymap" false in
  let etc := target_root +:+ "/etc" in
  Ok {| cp_target_root := target_root;
        cp_writes := [
          {| cw_path := etc +:+ "/hostname"; cw_content := hostname +:+ newline; cw_mode := 420 |};
          {| cw_path := etc +:+ "/locale.conf"; cw_content := "LANG=" +:+ locale +:+ newline;
             cw_mode := 420 |};
          {| cw_path := etc +:+ "/vconsole.conf"; cw_content := "KEYMAP=" +:+ keymap +:+ newline;
             cw_mode := 420 |}];
        cp_localtime_target := "/usr/share/zoneinfo/" +:+ timezone;
        cp_executor := "kyth-installer-exec" |}.

(** ** The deployment *)

(** An entry of the deployment directory: its name, whether it and its [etc]
    are real directories, and whether the path is UTF-8. *)
Record DeployEntry := {
  de_name : string;
  de_real_dir : bool;
  de_real_etc : bool;
  de_utf8 : bool;
}.

Definition deploy_path (deployments : string) (e : DeployEntry) : string :=
  join_path deployments (de_name e).

Definition find_deploy_root (read_dir : string → result (list (result DeployEntry)))
    (physical_root : string) : result string :=
  let? root := safe_root physical_root in
  let deployments := join_path root "ostree/deploy/default/deploy" in
  let? entries := map_err
    (λ e, "Installed deployment could not be located for final configuration: " +:+ e)
    (read_dir deployments) in
  let? entries := rmap_list (map_err (λ e, "could not list deployments: " +:+ e)) entries in
  match filterb (λ e, de_real_dir e && de_real_etc e) entries with
  | [] => Err "Installed deployment could not be located for final configuration."
  | [only] =>
      guard! negb (de_utf8 only) else "installed deployment path is not valid UTF-8";
      Ok (deploy_path deployments only)
  | many =>
      Err ("Multiple ostree deployments found under " +:+ root +:+ " (" +:+
           show_int (Z.of_nat (length many)) +:+ "); refusing to guess which one to configure.")
  end.

Definition retarget (old_etc deploy_root : string) (w : ConfigWrite) : result ConfigWrite :=
  let? file := ok_or (strip_prefix old_etc (cw_path w))
    "configuration write is outside the planned /etc" in
  Ok {| cw_path := deploy_root +:+ "/etc/" +:+ file; cw_content := cw_content w; cw_mode := cw_mode w |}.

Definition for_deployment (plan : ConfigurationPlan) (deploy_root : string) : result ConfigurationPlan :=
  let? deploy_root := safe_root deploy_root in
  let old_etc := cp_target_root plan +:+ "/etc/" in
  let? writes := rmap_list (retarget old_etc deploy_root) (cp_writes plan) in
  Ok {| cp_target_root := deploy_root; cp_writes := writes;
        cp_localtime_target := cp_localtime_target plan; cp_executor := cp_executor plan |}.

(** * Writing *)

(** The operating-system errors of one replacement; [pf_stat] hides the metadata
    of the target, a failed write leaves any part of the bytes behind. *)
Record ReplaceFaults := {
  pf_parent : option string;
  pf_stat : bool;
  pf_remove : bool;
  pf_create : option string;
  pf_write : option (string * string);
  pf_sync : option string;
  pf_secure : option string;
  pf_rename : option string;
  pf_sync_dir : option string;
  pf_cleanup : bool;
}.
Definition no_replace_faults : ReplaceFaults :=
  {| pf_parent := None; pf_stat := false; pf_remove := false; pf_create := None; pf_write := None;
     pf_sync := None; pf_secure := None; pf_rename := None; pf_sync_dir := None; pf_cleanup := false |}.

Definition ENOENT : string := "No such file or directory (os error 2)".
Definition EEXIST : string := "File exists (os error 17)".
Definition EISDIR : string := "Is a directory (os error 21)".

(** The closure of [write_replacing]. *)
Definition replace_closure (f : ReplaceFaults) (path temporary contents : string) (fs : Fs) : Run :=
  let stop fs vs e := {| visited := vs; final := fs; outcome := Err e |} in
  match pf_create f, dir fs !! temporary with
  | Some e, _ => stop fs [] ("could not create temporary configuration: " +:+ e)
  | None, Some _ => stop fs [] ("could not create temporary configuration: " +:+ EEXIST)
  | None, None =>
      let i := next_inode fs in
      let fs1 := create_file temporary fs in
      match pf_write f with
      | Some (partial, e) =>
          let fs2 := write_inode i partial fs1 in
          stop fs2 [fs1; fs2] ("could not write temporary configuration: " +:+ e)
      | None =>
          let fs2 := write_inode i contents fs1 in
          match pf_sync f with
          | Some e => stop fs2 [fs1; fs2] ("could not sync temporary configuration: " +:+ e)
          | None =>
              let fs3 := sync_inode i fs2 in
              let refuse e := stop fs3 [fs1; fs2; fs3] e in
              match pf_secure f, pf_rename f, is_directory (dir fs3 !! path) with
              | Some e, _, _ => refuse ("could not secure temporary configuration: " +:+ e)
              | None, Some e, _ => refuse ("could not replace configuration file: " +:+ e)
              | None, None, true => refuse ("could not replace configuration file: " +:+ EISDIR)
              | None, None, false =>
                  let fs4 := rename_file temporary path fs3 in
                  match pf_sync_dir f with
                  | Some e =>
                      stop fs4 ([fs1; fs2; fs3] ++ [fs4]) ("could not sync configuration directory: " +:+ e)
                  | None =>
                      let fs5 := sync_name path (sync_name temporary fs4) in
                      {| visited := [fs1; fs2; fs3] ++ [fs4; fs5]; final := fs5; outcome := Ok tt |}
                  end
              end
          end
      end
  end.

Definition write_replacing (f : ReplaceFaults) (path contents : string) (fs : Fs) : Run :=
  match (let? parent := ok_or (parent_dir path) "configuration file has no parent directory" in
         let? entry := match pf_parent f, dir fs !! parent with
                       | Some e, _ => Err ("could not inspect configuration directory: " +:+ e)
                       | None, None => Err ("could not inspect configuration directory: " +:+ ENOENT)
                       | None, Some e => Ok e
                       end in
         guard! negb (is_directory (Some entry)) else "configuration parent must be a real directory";
         guard! negb (pf_stat f) && is_directory (dir fs !! path) else "configuration path is a directory";
         Ok tt) with
  | Err e => refused fs e
  | Ok _ =>
      let temporary := with_extension "kyth-tmp" path in
      with_cleanup (pf_remove f) (pf_cleanup f) temporary (replace_closure f path temporary contents) fs
  end.

(** ** Applying a plan *)

Definition EARLY_ACCOUNTS_UNIT : string := "[Unit]
Description=Ensure KythOS system accounts are visible in /etc
DefaultDependencies=no
After=ostree-remount.service
Before=dbus.socket dbus-broker.service sockets.target plasmalogin.service systemd-udevd.service systemd-udevd-control.socket systemd-udevd-kernel.socket systemd-tmpfiles-setup.service

[Service]
Type=oneshot
ExecStart=/usr/libexec/kyth-fix-system-accounts
RemainAfterExit=yes

[Install]
WantedBy=sysinit.target
".

(** The errors of applying a plan; the functions are by path. *)
Record ApplyFaults := {
  ap_etc : option string;
  ap_inspect : string → option string;
  ap_mkdir : string → option string;
  ap_write : string → ReplaceFaults;
  ap_localtime_stat : bool;
  ap_localtime_remove : bool;
  ap_symlink : option string;
  ap_rename : option string;
  ap_open_dir : option string;
  ap_sync_dir : option string;
}.
Definition no_apply_faults : ApplyFaults :=
  {| ap_etc := None; ap_inspect := λ _, None; ap_mkdir := λ _, None; ap_write := λ _, no_replace_faults;
     ap_localtime_stat := false; ap_localtime_remove := false; ap_symlink := None; ap_rename := None;
     ap_open_dir := None; ap_sync_dir := None |}.

(** One directory of the loop: kept, created or refused. *)
Definition ensure_directory (f : ApplyFaults) (directory : string) (fs : Fs) : Run :=
  match ap_inspect f directory, dir fs !! directory with
  | Some e, _ => refused fs ("could not inspect boot ordering directory: " +:+ e)
  | None, Some (Special Directory) => {| visited := [fs]; final := fs; outcome := Ok tt |}
  | None, Some _ => refused fs "boot ordering directory must be a real directory"
  | None, None =>
      match ap_mkdir f directory with
      | Some e => refused fs ("could not create boot ordering directory: " +:+ e)
      | None =>
          let fs' := make_special directory Directory fs in
          {| visited := [fs; fs']; final := fs'; outcome := Ok tt |}
      end
  end.

Definition apply_boot_ordering_fix (f : ApplyFaults) (target_root : string) (fs : Fs) : Run :=
  match (let? root := safe_root target_root in
         let etc := norm_path (root +:+ "/etc") in
         let? entry := match ap_etc f, dir fs !! etc with
                       | Some e, _ => Err ("could not inspect installed etc: " +:+ e)
                       | None, None => Err ("could not inspect installed etc: " +:+ ENOENT)
                       | None, Some e => Ok e
                       end in
         guard! negb (is_directory (Some entry)) else "installed etc must be a real directory";
         Ok root) with
  | Err e => refused fs e
  | Ok root =>
      then_run (ensure_directory f (norm_path (root +:+ "/etc/systemd")) fs) (λ fs1,
      then_run (ensure_directory f (norm_path (root +:+ "/etc/systemd/system")) fs1) (λ fs2,
      let unit_path := norm_path (root +:+ "/etc/systemd/system/kyth-system-accounts.service") in
      write_replacing (ap_write f unit_path) unit_path EARLY_ACCOUNTS_UNIT fs2))
  end.

Fixpoint apply_writes (f : ApplyFaults) (writes : list ConfigWrite) (fs : Fs) : Run :=
  match writes with
  | [] => {| visited := [fs]; final := fs; outcome := Ok tt |}
  | w :: writes =>
      let path := norm_path (cw_path w) in
      then_run (write_replacing (ap_write f path) path (cw_content w) fs) (apply_writes f writes)
  end.

Definition localtime_path (target_root : string) : string := norm_path (target_root +:+ "/etc/localtime").

(** The swap of the time-zone link. *)
Definition set_localtime (f : ApplyFaults) (localtime target : string) (fs : Fs) : Run :=
  if negb (ap_localtime_stat f) && is_directory (dir fs !! localtime)
  then refused fs "installed localtime path is a directory"
  else
    let temporary := with_extension "kyth-localtime.tmp" localtime in
    let fs0 := if ap_localtime_remove f then fs else remove_file temporary fs in
    let stop fs' vs e := {| visited := fs :: vs; final := fs'; outcome := Err e |} in
    match ap_symlink f, dir fs0 !! temporary with
    | Some e, _ => stop fs0 [fs0] ("could not stage installed timezone: " +:+ e)
    | None, Some _ => stop fs0 [fs0] ("could not stage installed timezone: " +:+ EEXIST)
    | None, None =>
        let fs1 := make_special temporary (Symlink target) fs0 in
        match ap_rename f, is_directory (dir fs1 !! localtime) with
        | Some e, _ => stop fs1 [fs0; fs1] ("could not set installed timezone: " +:+ e)
        | None, true => stop fs1 [fs0; fs1] ("could not set installed timezone: " +:+ EISDIR)
        | None, false =>
            let fs2 := rename_file temporary localtime fs1 in
            match ap_open_dir f, ap_sync_dir f with
            | Some e, _ => stop fs2 [fs0; fs1; fs2] ("could not open installed etc directory: " +:+ e)
            | None, Some e => stop fs2 [fs0; fs1; fs2] ("could not sync installed etc directory: " +:+ e)
            | None, None =>
                let fs3 := sync_name localtime (sync_name temporary fs2) in
                {| visited := [fs; fs0; fs1; fs2; fs3]; final := fs3; outcome := Ok tt |}
            end
        end
    end.

Definition apply_plan (f : ApplyFaults) (plan : ConfigurationPlan) (fs : Fs) : Run :=
  then_run (apply_boot_ordering_fix f (cp_target_root plan) fs) (λ fs1,
  then_run (apply_writes f (cp_writes plan) fs1) (λ fs2,
  set_localtime f (localtime_path (cp_target_root plan)) (cp_localtime_target plan) fs2)).

(** * The fstab *)

Definition safe_fstab_path (raw : string) : result string :=
  let? path := safe_root raw in
  guard! negb (ends_with "/etc/fstab" path) else "fstab path must point to an installed /etc/fstab";
  Ok path.

Definition is_ascii_control (c : ascii) : bool := byte_in 0 31 c || byte_in 127 127 c.
Definition uuid_byte (c : ascii) : bool := is_ascii_hexdigit c || Ascii.eqb c "-".
Definition fstype_byte (c : ascii) : bool := is_ascii_alphanumeric c || byte_among "._-" c.
Definition fstab_option_byte (c : ascii) : bool := is_ascii_alphanumeric c || byte_among "=,:._+@-" c.

(** The content of a line: without its final newline. *)
Definition line_content (line : string) : string := unwrap_or (strip_suffix newline line) line.

Definition fstab_fields_ok (f0 f1 f2 f3 f4 f5 : string) : bool :=
  negb ((slen f0 <=? 5)
        || negb (str_all uuid_byte (unwrap_or (strip_prefix "UUID=" f0) EmptyString))
        || (negb (String.eqb f1 "none") && negb (is_ok (safe_absolute_path f1 "fstab mount point")))
        || negb (str_all fstype_byte f2)
        || negb (str_all fstab_option_byte f3)
        || negb (String.eqb f4 "0")
        || negb (str_in f5 ["0"; "2"])).

Definition validate_fstab_line (line : string) : result unit :=
  guard! is_empty line || (MAX_FSTAB_LINE_BYTES <? slen line) || negb (ends_with newline line)
    else "fstab entry must be one bounded line";
  guard! negb (str_all (λ c, negb (is_ascii_control c)) (line_content line))
    else "fstab entry contains control characters";
  match split_whitespace line with
  | [f0; f1; f2; f3; f4; f5] =>
      guard! negb (starts_with "UUID=" f0) else "fstab entry has an unsupported shape";
      guard! negb (fstab_fields_ok f0 f1 f2 f3 f4 f5) else "fstab entry contains unsupported values";
      Ok tt
  | _ => Err "fstab entry has an unsupported shape"
  end.

(** [line.split_whitespace().next()] *)
Definition first_word (line : string) : option string := head (split_whitespace line).

(** The errors of an append; [af_unreadable] makes the comparison with the
    existing entries impossible (an error, or text that is not UTF-8). *)
Record AppendFaults := {
  af_unreadable : bool;
  af_open : option string;
  af_metadata : option string;
  af_last : option (option string);       (* the last byte: an error, or a short read *)
  af_separate : option string;
  af_write : option (string * string);
  af_flush : option string;
  af_sync : option string;
}.
Definition no_append_faults : AppendFaults :=
  {| af_unreadable := false; af_open := None; af_metadata := None; af_last := None; af_separate := None;
     af_write := None; af_flush := None; af_sync := None |}.

(** What separates the new line from the old contents. *)
Definition separator (old : string) : string :=
  if is_empty old || bool_decide (last_byte old = Some "010"%char) then EmptyString else newline.

(** From the opened file on. *)
Definition append_opened (f : AppendFaults) (line old : string) (i : nat) (fs : Fs) : Run :=
  let stop fs' vs e := {| visited := vs; final := fs'; outcome := Err e |} in
  match af_metadata f, (if is_empty old then None else af_last f),
        (if is_empty (separator old) then None else af_separate f) with
  | Some e, _, _ => stop fs [fs] ("could not inspect installed fstab: " +:+ e)
  | None, Some (Some e), _ => stop fs [fs] ("could not inspect installed fstab ending: " +:+ e)
  | None, Some None, _ => stop fs [fs] "could not inspect installed fstab ending"
  | None, None, Some e => stop fs [fs] ("could not separate installed fstab entries: " +:+ e)
  | None, None, None =>
      let fs1 := if is_empty (separator old) then fs else write_inode i (old +:+ separator old) fs in
      match af_write f with
      | Some (partial, e) =>
          let fs2 := write_inode i (old +:+ separator old +:+ partial) fs1 in
          stop fs2 [fs; fs1; fs2] ("could not append installed fstab: " +:+ e)
      | None =>
          let fs2 := write_inode i (old +:+ separator old +:+ line) fs1 in
          match af_flush f, af_sync f with
          | Some e, _ => stop fs2 [fs; fs1; fs2] ("could not flush installed fstab: " +:+ e)
          | None, Some e => stop fs2 [fs; fs1; fs2] ("could not sync installed fstab: " +:+ e)
          | None, None =>
              let fs3 := sync_inode i fs2 in
              {| visited := [fs; fs1; fs2; fs3]; final := fs3; outcome := Ok tt |}
          end
      end
  end.

Definition open_error (k : FileKind) : string :=
  match k with
  | Directory => EISDIR
  | Symlink _ => "Too many levels of symbolic links (os error 40)"
  | OtherFile => "No such device or address (os error 6)"
  end.

Definition append_fstab (f : AppendFaults) (raw line : string) (fs : Fs) : Run :=
  match (let? path := safe_fstab_path raw in
         check! validate_fstab_line line;
         guard! is_symlink (dir fs !! norm_path path) else "fstab path must not be a symlink";
         Ok (norm_path path)) with
  | Err e => refused fs e
  | Ok path =>
      let new_uuid := unwrap_or (first_word line) EmptyString in
      let existing := if af_unreadable f then None else read_file fs path in
      if match existing with
         | Some text => existsb (λ l, bool_decide (first_word l = Some new_uuid)) (lines text)
         | None => false
         end
      then {| visited := [fs]; final := fs; outcome := Ok tt |}
      else
        match af_open f, dir fs !! path with
        | Some e, _ => refused fs ("could not open installed fstab: " +:+ e)
        | None, Some (Special k) => refused fs ("could not open installed fstab: " +:+ open_error k)
        | None, None =>
            let r := append_opened f line EmptyString (next_inode fs) (create_file path fs) in
            {| visited := fs :: visited r; final := final r; outcome := outcome r |}
        | None, Some (Regular i) =>
            append_opened f line (unwrap_or (read_file fs path) EmptyString) i fs
        end
  end.

(** ** Snapshot and rollback *)

Record FstabSnapshot := { sn_path : string; sn_content : option string; sn_mode : Z }.

(** The metadata of the fstab, with its permission bits, and its contents; the
    errors other than a missing file. *)
Record SnapshotFaults := { sp_inspect : option string; sp_mode : Z; sp_read : option string }.

Definition snapshot_fstab (f : SnapshotFaults) (raw : string) (fs : Fs) : result FstabSnapshot :=
  let? path := safe_absolute_path raw "fstab path" in
  match sp_inspect f, dir fs !! norm_path path with
  | Some e, _ => Err ("could not inspect fstab: " +:+ e)
  | None, Some (Special (Symlink _)) => Err "fstab path must not be a symlink"
  | None, Some (Special _) => Err "fstab path must be a regular file"
  | None, Some (Regular _) =>
      let? content := match sp_read f with
                      | Some e => Err ("could not snapshot fstab: " +:+ e)
                      | None => ok_or (read_file fs (norm_path path)) ("could not snapshot fstab: " +:+ ENOENT)
                      end in
      Ok {| sn_path := path; sn_content := Some content; sn_mode := Z.land (sp_mode f) 511 |}
  | None, None => Ok {| sn_path := path; sn_content := None; sn_mode := 420 |}
  end.

Record RestoreFaults := {
  rs_parent : option string;
  rs_stat : bool;
  rs_remove : option string;
  rs_create : option string;
  rs_write : option (string * string);
  rs_flush : option string;
  rs_sync : option string;
  rs_secure : option string;
  rs_rename : option string;
  rs_open_dir : option string;
  rs_sync_dir : option string;
}.
Definition no_restore_faults : RestoreFaults :=
  {| rs_parent := None; rs_stat := false; rs_remove := None; rs_create := None; rs_write := None;
     rs_flush := None; rs_sync := None; rs_secure := None; rs_rename := None; rs_open_dir := None;
     rs_sync_dir := None |}.

(** Syncing the directory at the end. *)
Definition restore_sync (f : RestoreFaults) (path temporary : string) (fs : Fs) : Run :=
  match rs_open_dir f, rs_sync_dir f with
  | Some e, _ => refused fs ("could not open fstab directory: " +:+ e)
  | None, Some e => refused fs ("could not sync fstab directory: " +:+ e)
  | None, None =>
      let fs' := sync_name path (sync_name temporary fs) in
      {| visited := [fs; fs']; final := fs'; outcome := Ok tt |}
  end.

(** Writing the old contents to the temporary file and renaming it. *)
Definition restore_content (f : RestoreFaults) (path temporary content : string) (fs : Fs) : Run :=
  let stop fs' vs e := {| visited := vs; final := fs'; outcome := Err e |} in
  match rs_create f, dir fs !! temporary with
  | Some e, _ => stop fs [fs] ("could not create fstab rollback: " +:+ e)
  | None, Some _ => stop fs [fs] ("could not create fstab rollback: " +:+ EEXIST)
  | None, None =>
      let i := next_inode fs in
      let fs1 := create_file temporary fs in
      match rs_write f with
      | Some (partial, e) =>
          let fs2 := write_inode i partial fs1 in
          stop fs2 [fs; fs1; fs2] ("could not write fstab rollback: " +:+ e)
      | None =>
          let fs2 := write_inode i content fs1 in
          match rs_flush f, rs_sync f with
          | Some e, _ => stop fs2 [fs; fs1; fs2] ("could not flush fstab rollback: " +:+ e)
          | None, Some e => stop fs2 [fs; fs1; fs2] ("could not sync fstab rollback: " +:+ e)
          | None, None =>
              let fs3 := sync_inode i fs2 in
              match rs_secure f, rs_rename f, is_directory (dir fs3 !! path) with
              | Some e, _, _ => stop fs3 [fs; fs1; fs2; fs3] ("could not secure fstab rollback: " +:+ e)
              | None, Some e, _ => stop fs3 [fs; fs1; fs2; fs3] ("could not install fstab rollback: " +:+ e)
              | None, None, true => stop fs3 [fs; fs1; fs2; fs3] ("could not install fstab rollback: " +:+ EISDIR)
              | None, None, false =>
                  let fs4 := rename_file temporary path fs3 in
                  {| visited := [fs; fs1; fs2; fs3; fs4]; final := fs4; outcome := Ok tt |}
              end
          end
      end
  end.

(** Removing the changed fstab first. *)
Definition restore_remove (f : RestoreFaults) (path : string) (fs : Fs) : Run :=
  if rs_stat f then {| visited := [fs]; final := fs; outcome := Ok tt |}
  else
    match dir fs !! path, rs_remove f with
    | None, _ => {| visited := [fs]; final := fs; outcome := Ok tt |}
    | Some (Special Directory), _ => refused fs "cannot roll back fstab over a directory"
    | Some _, Some e => refused fs ("could not remove changed fstab: " +:+ e)
    | Some _, None =>
        let fs' := remove_file path fs in
        {| visited := [fs; fs']; final := fs'; outcome := Ok tt |}
    end.

Definition restore_fstab (f : RestoreFaults) (snapshot : FstabSnapshot) (fs : Fs) : Run :=
  let path := norm_path (sn_path snapshot) in
  let temporary := with_extension "kyth-rollback.tmp" path in
  match (let? parent := ok_or (parent_dir path) "fstab path has no parent directory" in
         let? entry := match rs_parent f, dir fs !! parent with
                       | Some e, _ => Err ("could not inspect fstab directory: " +:+ e)
                       | None, None => Err ("could not inspect fstab directory: " +:+ ENOENT)
                       | None, Some e => Ok e
                       end in
         guard! negb (is_directory (Some entry)) else "fstab parent must be a real directory";
         Ok tt) with
  | Err e => refused fs e
  | Ok _ =>
      then_run (restore_remove f path fs) (λ fs1,
      then_run (match sn_content snapshot with
                | Some content => restore_content f path temporary content fs1
                | None => {| visited := [fs1]; final := fs1; outcome := Ok tt |}
                end) (restore_sync f path temporary))
  end.

(** * The atomic replacement *)

Lemma replace_closure_ok f path temporary contents fs :
  fs_wf fs → temporary ≠ path → write_ok path contents fs (replace_closure f path temporary contents fs).
Proof.
  intros Hw Hne. unfold replace_closure. pose proof (fresh_unshared fs path Hw) as Hu.
  destruct (pf_create f); [by apply (write_ok_stop path temporary _ _ _ _ (next_inode fs)); auto|].
  destruct (dir fs !! temporary) eqn:Ht;
    [by apply (write_ok_stop path temporary _ _ _ _ (next_inode fs)); auto|].
  pose proof (staged_create fs path temporary Hne) as H1.
  destruct (pf_write f) as [[partial e]|].
  { pose proof (staged_write _ _ _ _ _ partial H1) as H2. eapply write_ok_stop; eauto. }
  pose proof (staged_write _ _ _ _ _ contents H1) as H2.
  destruct (pf_sync f); [eapply write_ok_stop; eauto|].
  pose proof (staged_sync _ _ _ _ _ H2) as H3.
  pose proof (sync_write_file (create_file temporary fs) (next_inode fs) contents) as Hfile.
  set (fs3 := sync_inode _ _) in *.
  assert (Forall (λ v, v = fs ∨ staged fs v path temporary (next_inode fs))
            [create_file temporary fs; write_inode (next_inode fs) contents (create_file temporary fs); fs3])
    as Hvs by (repeat (apply Forall_cons; split; [by right|]); constructor).
  destruct (pf_secure f); [by eapply write_ok_stop; eauto|].
  destruct (pf_rename f); [by eapply write_ok_stop; eauto|].
  destruct (is_directory _); [by eapply write_ok_stop; eauto|].
  destruct (pf_sync_dir f) as [e|].
  - exact (proj1 (write_ok_replace path temporary contents fs _ fs3 (next_inode fs) _ Hw Hu Hvs H3 Hfile)).
  - exact (proj2 (write_ok_replace path temporary contents fs _ fs3 (next_inode fs) "" Hw Hu Hvs H3 Hfile)).
Qed.

Lemma write_replacing_ok f path contents fs :
  fs_wf fs → with_extension "kyth-tmp" path ≠ path →
  write_ok path contents fs (write_replacing f path contents fs).
Proof.
  intros Hw Hne. unfold write_replacing. destruct (let? parent := _ in _); [|by apply write_ok_refused].
  apply write_ok_cleanup; [done|done|]. intros fs0 Hw0. split; [by apply replace_closure_ok|].
  unfold replace_closure. repeat case_match; cbn; rewrite !elem_of_cons; auto 10.
Qed.

Lemma write_replacing_framed f path contents fs :
  run_framed [path; with_extension "kyth-tmp" path] fs (write_replacing f path contents fs).
Proof.
  unfold write_replacing. destruct (let? parent := _ in _); [|apply run_framed_refused].
  set (tmp := with_extension "kyth-tmp" path). set (l := [path; tmp]).
  assert (path ∈ l ∧ tmp ∈ l) as [Hp Ht] by (subst l; rewrite !elem_of_cons; auto).
  apply run_framed_cleanup; [done|]. intros fs0. unfold replace_closure.
  pose proof (framed_refl l fs0) as H0. pose proof (framed_create l tmp fs0 Ht) as H1.
  pose proof (λ s, framed_write l (next_inode fs0) s _ _ (le_n _) H1) as H2.
  pose proof (λ s, framed_sync l (next_inode fs0) _ _ (le_n _) (H2 s)) as H3.
  pose proof (λ s, framed_trans l _ _ _ (H3 s) (framed_rename l tmp path _ Ht Hp)) as H4.
  pose proof (λ s, framed_trans l _ _ _ (H4 s)
    (framed_trans l _ _ _ (framed_sync_name l tmp _ Ht) (framed_sync_name l path _ Hp))) as H5.
  repeat case_match; split; cbn; auto 10 using Forall_cons_2, Forall_nil_2.
Qed.

(** * The plan *)

Lemma safe_root_idemp raw v : safe_root raw = Ok v → safe_root v = Ok v.
Proof.
  unfold safe_root. intros H. guard_inv H as H1. guard_inv H as H2. injection H as <-.
  by rewrite trim_idemp, H1, H2.
Qed.

Lemma retarget_etc a d name content mode :
  retarget (a +:+ "/etc/") d {| cw_path := (a +:+ "/etc") +:+ "/" +:+ name; cw_content := content; cw_mode := mode |}
  = Ok {| cw_path := (d +:+ "/etc") +:+ "/" +:+ name; cw_content := content; cw_mode := mode |}.
Proof.
  unfold retarget. cbn [cw_path cw_content cw_mode].
  replace ((a +:+ "/etc") +:+ "/" +:+ name) with ((a +:+ "/etc/") +:+ name) by (by rewrite !append_assoc).
  rewrite strip_prefix_append. cbn. by rewrite !append_assoc.
Qed.

(** Moving a configuration plan to the deployment is planning for the
    deployment: whenever the deployment root is acceptable, the retargeted plan
    is the plan the same request gives with that root, so nothing is written
    outside the deployment's own /etc. *)
Theorem for_deployment_is_replan input plan d :
  build_plan input = Ok plan →
  for_deployment plan d
  = build_plan {| ci_target_root := d; ci_hostname := ci_hostname input; ci_timezone := ci_timezone input;
                  ci_locale := ci_locale input; ci_keymap := ci_keymap input |}.
Proof.
  unfold build_plan. intros H. apply rbind_Ok in H as (root & _ & H). guard_inv H as Hh.
  apply rbind_Ok in H as (tz & Htz & H). guard_inv H as Hz.
  apply rbind_Ok in H as (locale & Hl & H). apply rbind_Ok in H as (keymap & Hk & H). injection H as <-.
  unfold for_deployment. cbn [ci_target_root ci_hostname ci_timezone ci_locale ci_keymap
    cp_target_root cp_writes cp_localtime_target cp_executor].
  destruct (safe_root d) as [d'|]; [|done]. cbn [rbind]. rewrite Hh, Htz. cbn [rbind]. rewrite Hz, Hl.
  cbn [rbind]. rewrite Hk. cbn [rbind rmap_list].
  rewrite (retarget_etc root d' "hostname"). cbn [rbind].
  rewrite (retarget_etc root d' "locale.conf"). cbn [rbind].
  rewrite (retarget_etc root d' "vconsole.conf"). done.
Qed.

(** ** Where a plan writes *)

(** The file names below the normalised root. *)
Definition below (root rest : string) : string := slashed (components root) +:+ rest.

Lemma below_inj root a b : below root a = below root b → a = b.
Proof. apply append_inj_l. Qed.

Lemma norm_below root rest :
  slashed (components rest) = "/" +:+ rest → components rest ≠ [] →
  norm_path (root +:+ "/" +:+ rest) = below root ("/" +:+ rest).
Proof. intros Hs Hne. unfold below. rewrite (norm_path_below root rest (components rest)) by done. by rewrite Hs. Qed.

Lemma below_extension ext root d name :
  contains_char "/" name = false →
  with_extension ext (below root (d +:+ "/" +:+ name)) = below root (d +:+ "/" +:+ with_extension ext name).
Proof. intros Hn. unfold below. rewrite <-append_assoc. rewrite with_extension_below by done. by rewrite append_assoc. Qed.

(** Inequality and absence of names below one root. *)
Ltac below_neq :=
  repeat match goal with
    | |- _ ∉ [] => apply not_elem_of_nil
    | |- _ ∉ _ :: _ => apply not_elem_of_cons
    | |- _ ∧ _ => split
    | |- below _ _ ≠ below _ _ => intros ?%below_inj; discriminate
    end.

Definition etc_file (root name : string) : string := below root ("/etc/" +:+ name).

Lemma norm_etc root name s :
  s = "/etc/" +:+ name → slashed (components ("etc/" +:+ name)) = "/" +:+ "etc/" +:+ name →
  norm_path (root +:+ s) = etc_file root name.
Proof.
  intros -> Hs. unfold etc_file. change ("/etc/" +:+ name) with ("/" +:+ "etc/" +:+ name).
  apply norm_below; [done|]. intros H. by rewrite H in Hs.
Qed.

Definition boot_names (root : string) : list string :=
  [etc_file root "systemd"; etc_file root "systemd/system";
   etc_file root "systemd/system/kyth-system-accounts.service";
   etc_file root "systemd/system/kyth-system-accounts.kyth-tmp"].

Lemma ensure_directory_facts f d l fs :
  d ∈ l → run_framed l fs (ensure_directory f d fs) ∧
  (fs_wf fs → fs_wf (final (ensure_directory f d fs))).
Proof.
  intros Hd. unfold ensure_directory.
  pose proof (framed_refl l fs) as H0. pose proof (framed_special l d Directory fs Hd) as H1.
  repeat case_match;
    (split; [split; cbn; auto using Forall_cons_2, Forall_nil_2|cbn; auto using fs_wf_special]).
Qed.

Lemma apply_boot_facts f root fs :
  safe_root root = Ok root →
  run_framed (boot_names root) fs (apply_boot_ordering_fix f root fs) ∧
  (fs_wf fs → fs_wf (final (apply_boot_ordering_fix f root fs))).
Proof.
  intros Hr. unfold apply_boot_ordering_fix. rewrite Hr. cbn [rbind].
  destruct (let? entry := _ in _) as [r|] eqn:E.
  2:{ split; [apply run_framed_refused|done]. }
  apply rbind_Ok in E as (entry & _ & E). guard_inv E as Hd. injection E as <-.
  rewrite (norm_etc root "systemd" "/etc/systemd"), (norm_etc root "systemd/system" "/etc/systemd/system"),
    (norm_etc root "systemd/system/kyth-system-accounts.service"
       "/etc/systemd/system/kyth-system-accounts.service") by done.
  assert (Forall (λ d, d ∈ boot_names root) (boot_names root)) as Hin by by apply Forall_forall.
  inversion_clear Hin as [|? ? I1 Hin']. inversion_clear Hin' as [|? ? I2 _].
  assert (with_extension "kyth-tmp" (etc_file root "systemd/system/kyth-system-accounts.service")
          = etc_file root "systemd/system/kyth-system-accounts.kyth-tmp") as Htmp.
  { exact (below_extension "kyth-tmp" root "/etc/systemd/system" "kyth-system-accounts.service" eq_refl). }
  assert (etc_file root "systemd/system/kyth-system-accounts.kyth-tmp"
          ≠ etc_file root "systemd/system/kyth-system-accounts.service") as Hne
    by (unfold etc_file; below_neq).
  split.
  - apply run_framed_then; [by apply ensure_directory_facts|intros _].
    apply run_framed_then; [by apply ensure_directory_facts|intros _].
    eapply run_framed_weaken; [|apply write_replacing_framed].
    rewrite Htmp. intros x. rewrite !elem_of_cons. unfold boot_names. rewrite !elem_of_cons. intuition.
  - intros Hw. apply then_run_wf; [by eapply ensure_directory_facts|intros Hw1].
    apply then_run_wf; [by eapply ensure_directory_facts|intros Hw2].
    apply (write_replacing_ok _ _ _ _ Hw2). by rewrite Htmp.
Qed.

Lemma set_localtime_framed f localtime target fs :
  run_framed [localtime; with_extension "kyth-localtime.tmp" localtime] fs
    (set_localtime f localtime target fs).
Proof.
  unfold set_localtime. set (tmp := with_extension _ _). set (l := [localtime; tmp]).
  assert (localtime ∈ l ∧ tmp ∈ l) as [Hp Ht] by (subst l; rewrite !elem_of_cons; auto).
  case_match; [apply run_framed_refused|]. set (fs0 := if ap_localtime_remove f then _ else _).
  pose proof (framed_refl l fs) as Hrefl.
  assert (framed l fs fs0) as H0.
  { subst fs0. destruct (ap_localtime_remove f); [done|by apply framed_remove]. }
  pose proof (framed_trans l _ _ _ H0 (framed_special l tmp (Symlink target) fs0 Ht)) as H1.
  pose proof (framed_trans l _ _ _ H1 (framed_rename l tmp localtime _ Ht Hp)) as H2.
  pose proof (framed_trans l _ _ _ H2
    (framed_trans l _ _ _ (framed_sync_name l tmp _ Ht) (framed_sync_name l localtime _ Hp))) as H3.
  repeat case_match; split; cbn; auto 10 using Forall_cons_2, Forall_nil_2.
Qed.

Lemma set_localtime_atomic f localtime target fs :
  atomic_to (λ v, crash_entry v localtime) (Some (Special (Symlink target))) fs
    (set_localtime f localtime target fs).
Proof.
  unfold set_localtime. set (tmp := with_extension _ _).
  assert (tmp ≠ localtime) as Hne by by apply with_extension_ne.
  case_match.
  { split; [|done]. intros v x ->%list_elem_of_singleton. auto. }
  set (fs0 := if ap_localtime_remove f then _ else _).
  assert (localtime ∉ [tmp]) as Hl by (rewrite list_elem_of_singleton; congruence).
  assert (tmp ∈ [tmp]) as Ht by by apply list_elem_of_singleton.
  assert (framed [tmp] fs fs0) as H0.
  { subst fs0. destruct (ap_localtime_remove f); [apply framed_refl|by apply framed_remove]. }
  pose proof (framed_trans _ _ _ _ H0 (framed_special [tmp] tmp (Symlink target) fs0 Ht)) as H1.
  pose proof (λ e, framed_entry [tmp] fs fs0 localtime e H0 Hl) as E0.
  pose proof (λ e, framed_entry [tmp] fs _ localtime e H1 Hl) as E1.
  set (fs1 := make_special tmp (Symlink target) fs0) in *.
  set (fs2 := rename_file tmp localtime fs1). set (fs3 := sync_name localtime (sync_name tmp fs2)).
  assert (dir fs2 !! localtime = Some (Special (Symlink target)) ∧ durable fs2 = durable fs1) as [D2 U2].
  { subst fs2 fs1. unfold rename_file. cbn. rewrite lookup_insert_eq. cbn. by rewrite lookup_insert_eq. }
  assert (∀ e, crash_entry fs2 localtime e →
               crash_entry fs localtime e ∨ e = Some (Special (Symlink target))) as E2.
  { intros e [->| ->]; [by right|]. left. apply E1. right. by rewrite U2. }
  assert (∀ e, crash_entry fs3 localtime e → e = Some (Special (Symlink target))) as E3.
  { intros e [->| ->]; subst fs3; cbn; [done|]. by rewrite lookup_partial_alter_eq. }
  repeat case_match; (split; cbn; [|try done; intros _; auto]);
    intros v x Hv Hx; rewrite !elem_of_cons in Hv;
    repeat destruct Hv as [->|Hv]; auto; by apply not_elem_of_nil in Hv.
Qed.

Lemma set_localtime_wf f localtime target fs :
  fs_wf fs → fs_wf (final (set_localtime f localtime target fs)).
Proof.
  intros Hw. unfold set_localtime. case_match; [done|].
  set (fs0 := if ap_localtime_remove f then _ else _).
  assert (fs_wf fs0) as H0 by (subst fs0; case_match; auto using fs_wf_remove).
  repeat case_match; cbn; auto using fs_wf_special, fs_wf_rename, sync_names_wf.
Qed.

(** The names a write touches. *)
Definition write_name (w : ConfigWrite) : string := norm_path (cw_path w).
Definition touched (w : ConfigWrite) : list string :=
  [write_name w; with_extension "kyth-tmp" (write_name w)].
Definition separate_tmp (w : ConfigWrite) : Prop := with_extension "kyth-tmp" (write_name w) ≠ write_name w.

Lemma apply_writes_framed f ws fs : run_framed (flat_map touched ws) fs (apply_writes f ws fs).
Proof.
  revert fs. induction ws as [|w ws IH]; intros fs; cbn [apply_writes flat_map].
  { split; [constructor; [apply framed_refl|constructor]|apply framed_refl]. }
  apply run_framed_then.
  - eapply run_framed_weaken; [|apply write_replacing_framed]. intros x Hx. apply elem_of_app. by left.
  - intros _. eapply run_framed_weaken; [|apply IH]. intros x Hx. apply elem_of_app. by right.
Qed.

Lemma apply_writes_wf f ws fs : Forall separate_tmp ws → fs_wf fs → fs_wf (final (apply_writes f ws fs)).
Proof.
  intros Hs. revert fs. induction Hs as [|w ws Hw _ IH]; intros fs Hfs; cbn [apply_writes]; [done|].
  apply then_run_wf; [|apply IH]. by apply write_replacing_ok.
Qed.

Lemma apply_writes_atomic f pre w post fs :
  fs_wf fs → Forall separate_tmp (pre ++ w :: post) → write_name w ∉ flat_map touched (pre ++ post) →
  atomic_to (λ v, crash_read v (write_name w)) (Some (cw_content w)) fs (apply_writes f (pre ++ w :: post) fs).
Proof.
  revert fs. induction pre as [|u pre IH]; intros fs Hw Hs Hn; cbn [app apply_writes flat_map] in *.
  - inversion_clear Hs as [|? ? Hsw Hsp].
    pose proof (write_replacing_ok (ap_write f (write_name w)) (write_name w) (cw_content w) fs Hw Hsw) as Hok.
    apply (atomic_before _ _ (flat_map touched post)); [by apply crash_read_unaffected| |].
    + by apply write_ok_atomic.
    + intros _. split; [apply Hok|apply apply_writes_framed].
  - inversion_clear Hs as [|? ? Hsu Hsp]. rewrite not_elem_of_app in Hn. destruct Hn as [Hnu Hn].
    apply (atomic_after _ _ (touched u)); [by apply crash_read_unaffected|done| |].
    + apply write_replacing_framed.
    + intros _. apply IH; [|done|done]. by apply write_replacing_ok.
Qed.

(** The three files of a plan. *)
Definition etc_write (root name content : string) : ConfigWrite :=
  {| cw_path := (root +:+ "/etc") +:+ "/" +:+ name; cw_content := content; cw_mode := 420 |}.

Lemma build_plan_shape input plan :
  build_plan input = Ok plan →
  safe_root (cp_target_root plan) = Ok (cp_target_root plan) ∧
  ∃ hostname locale keymap, cp_writes plan =
    [etc_write (cp_target_root plan) "hostname" hostname; etc_write (cp_target_root plan) "locale.conf" locale;
     etc_write (cp_target_root plan) "vconsole.conf" keymap].
Proof.
  unfold build_plan. intros H. apply rbind_Ok in H as (root & Hr & H). guard_inv H as Hh.
  apply rbind_Ok in H as (tz & Htz & H). guard_inv H as Hz.
  apply rbind_Ok in H as (locale & Hl & H). apply rbind_Ok in H as (keymap & Hk & H). injection H as <-.
  split; [by eapply safe_root_idemp|]. do 3 eexists. reflexivity.
Qed.

Lemma etc_write_name root name content :
  slashed (components ("etc/" +:+ name)) = "/" +:+ "etc/" +:+ name →
  write_name (etc_write root name content) = etc_file root name.
Proof.
  intros Hs. unfold write_name, etc_write. cbn [cw_path]. rewrite append_assoc. by apply norm_etc.
Qed.

Lemma etc_extension ext root name :
  contains_char "/" name = false → with_extension ext (etc_file root name) = etc_file root (with_extension ext name).
Proof. intros Hn. exact (below_extension ext root "/etc" name Hn). Qed.

Lemma touched_etc root name content :
  slashed (components ("etc/" +:+ name)) = "/" +:+ "etc/" +:+ name → contains_char "/" name = false →
  touched (etc_write root name content) = [etc_file root name; etc_file root (with_extension "kyth-tmp" name)].
Proof. intros Hs Hn. unfold touched. by rewrite etc_write_name, etc_extension. Qed.

Lemma plan_files input plan :
  build_plan input = Ok plan →
  Forall separate_tmp (cp_writes plan) ∧
  flat_map touched (cp_writes plan)
  = etc_file (cp_target_root plan) <$>
      ["hostname"; "hostname.kyth-tmp"; "locale.conf"; "locale.kyth-tmp"; "vconsole.conf"; "vconsole.kyth-tmp"].
Proof.
  intros (_ & h & l & k & ->)%build_plan_shape. split.
  - repeat (apply Forall_cons; split); [..|constructor]; unfold separate_tmp;
      rewrite etc_write_name, etc_extension by done; unfold etc_file; below_neq.
  - cbn [flat_map]. by rewrite !touched_etc.
Qed.

Lemma plan_split input plan w :
  build_plan input = Ok plan → w ∈ cp_writes plan →
  ∃ name pre post, cp_writes plan = pre ++ w :: post ∧ write_name w = etc_file (cp_target_root plan) name ∧
    name ∈ ["hostname"; "locale.conf"; "vconsole.conf"] ∧ write_name w ∉ flat_map touched (pre ++ post).
Proof.
  intros (_ & h & l & k & Hw)%build_plan_shape. rewrite Hw, !elem_of_cons.
  intros [->|[->|[->|[]%not_elem_of_nil]]].
  - exists "hostname", [], [etc_write (cp_target_root plan) "locale.conf" l; etc_write (cp_target_root plan) "vconsole.conf" k].
    cbn [app flat_map]. rewrite etc_write_name, !touched_etc by done. cbn [app].
    split_and!; [done|done|rewrite !elem_of_cons; auto|unfold etc_file; below_neq].
  - exists "locale.conf", [etc_write (cp_target_root plan) "hostname" h], [etc_write (cp_target_root plan) "vconsole.conf" k].
    cbn [app flat_map]. rewrite etc_write_name, !touched_etc by done. cbn [app].
    split_and!; [done|done|rewrite !elem_of_cons; auto|unfold etc_file; below_neq].
  - exists "vconsole.conf", [etc_write (cp_target_root plan) "hostname" h; etc_write (cp_target_root plan) "locale.conf" l], [].
    cbn [app flat_map]. rewrite etc_write_name, !touched_etc by done. cbn [app].
    split_and!; [done|done|rewrite !elem_of_cons; auto|unfold etc_file; below_neq].
Qed.

Lemma apply_plan_atomic f input plan fs :
  fs_wf fs → build_plan input = Ok plan →
  (∀ w, w ∈ cp_writes plan →
     atomic_to (λ v, crash_read v (norm_path (cw_path w))) (Some (cw_content w)) fs (apply_plan f plan fs)) ∧
  atomic_to (λ v, crash_entry v (localtime_path (cp_target_root plan)))
    (Some (Special (Symlink (cp_localtime_target plan)))) fs (apply_plan f plan fs).
Proof.
  intros Hw Hp. destruct (plan_files _ _ Hp) as [Hsep Hnames].
  destruct (build_plan_shape _ _ Hp) as [Hroot _]. set (root := cp_target_root plan) in *.
  destruct (apply_boot_facts f root fs Hroot) as [Hbf Hbw]. specialize (Hbw Hw).
  assert (localtime_path root = etc_file root "localtime") as Hlt by by apply norm_etc.
  split.
  - intros w Hin. destruct (plan_split _ _ _ Hp Hin) as (name & pre & post & Heq & Hname & Hn & Hd).
    fold (write_name w). unfold apply_plan. fold root.
    apply (atomic_after _ _ (boot_names root)); [|done|done|intros _].
    { apply crash_read_unaffected. rewrite Hname. fold root. rewrite !elem_of_cons in Hn.
      destruct Hn as [->|[->|[->|[]%not_elem_of_nil]]]; unfold boot_names, etc_file; below_neq. }
    apply (atomic_before _ _ [etc_file root "localtime"; etc_file root "localtime.kyth-localtime.tmp"]).
    + apply crash_read_unaffected. rewrite Hname. fold root. rewrite !elem_of_cons in Hn.
      destruct Hn as [->|[->|[->|[]%not_elem_of_nil]]]; unfold etc_file; below_neq.
    + rewrite Heq in Hsep |- *. by apply apply_writes_atomic.
    + intros _. split; [by apply apply_writes_wf|]. rewrite Hlt.
      pose proof (set_localtime_framed f (etc_file root "localtime") (cp_localtime_target plan)) as Hf.
      rewrite etc_extension in Hf by done. apply Hf.
  - unfold apply_plan. fold root. rewrite Hlt.
    apply (atomic_after _ _ (boot_names root)); [|done|done|intros _].
    { apply crash_entry_unaffected. unfold boot_names, etc_file. below_neq. }
    apply (atomic_after _ _ (flat_map touched (cp_writes plan))); [|done|apply apply_writes_framed|].
    + apply crash_entry_unaffected. rewrite Hnames. cbn [fmap list_fmap]. unfold etc_file. below_neq.
    + intros _. apply set_localtime_atomic.
Qed.

(** Applying a configuration plan is atomic for each file.  Whatever
    operations fail, a crash at any moment leaves each planned file, and the
    time-zone link, as it could have been before or complete and new; after a
    reported success a crash leaves only the new files and the new link. *)
Theorem apply_plan_crash_safe f input plan fs :
  fs_wf fs → build_plan input = Ok plan →
  (∀ w, w ∈ cp_writes plan →
     atomic_to (λ v, crash_read v (norm_path (cw_path w))) (Some (cw_content w)) fs (apply_plan f plan fs)) ∧
  atomic_to (λ v, crash_entry v (localtime_path (cp_target_root plan)))
    (Some (Special (Symlink (cp_localtime_target plan)))) fs (apply_plan f plan fs).
Proof. apply apply_plan_atomic. Qed.

(** * The fstab *)

(** What a valid line is made of. *)
Record fstab_entry (line : string) (fields : string * string * string * string * string * string) : Prop := {
  fe_line : line = line_content line +:+ newline;
  fe_text : str_all (λ c, negb (is_ascii_control c)) (line_content line) = true;
  fe_words : split_whitespace line
             = let '(f0, f1, f2, f3, f4, f5) := fields in [f0; f1; f2; f3; f4; f5];
  fe_uuid : let '(f0, _, _, _, _, _) := fields in
            ∃ u, f0 = "UUID=" +:+ u ∧ u ≠ EmptyString ∧ str_all uuid_byte u = true;
  fe_mount : let '(_, f1, _, _, _, _) := fields in
             f1 = "none" ∨ ∃ p, safe_absolute_path f1 "fstab mount point" = Ok p;
  fe_pass : let '(_, _, _, _, f4, f5) := fields in f4 = "0" ∧ f5 ∈ ["0"; "2"];
}.

Lemma validate_fstab_line_Ok line :
  validate_fstab_line line = Ok tt → ∃ fields, fstab_entry line fields.
Proof.
  unfold validate_fstab_line. intros H. guard_inv H as H1. guard_inv H as H2.
  destruct (split_whitespace line) as [|f0 [|f1 [|f2 [|f3 [|f4 [|f5 [|]]]]]]] eqn:E; try done.
  guard_inv H as H3. guard_inv H as H4. bool_inv.
  exists (f0, f1, f2, f3, f4, f5). unfold fstab_fields_ok in H4.
  bool_inv. assert (line = line_content line +:+ newline) as Hl.
  { unfold line_content. destruct (strip_suffix newline line) as [r|] eqn:S; [by apply strip_suffix_Some in S|].
    match goal with H : ends_with newline line = true |- _ => apply ends_with_true in H as [r ->] end.
    rewrite (proj2 (strip_suffix_Some newline _ r)) in S by done. done. }
  split; try done.
  - match goal with H : starts_with "UUID=" f0 = true |- _ => apply starts_with_true in H as [u ->] end.
    exists u. rewrite strip_prefix_append in *. split_and!; [done| |done].
    intros ->. done.
  - destruct (String.eqb_spec f1 "none"); [by left|right]. cbn in *.
    destruct (safe_absolute_path f1 _) as [p|]; [by exists p|done].
  - split; [by apply String.eqb_eq|by apply str_in_true].
Qed.

Lemma no_control_line s :
  str_all (λ c, negb (is_ascii_control c)) s = true → contains_char "010" s = false ∧ strip_cr s = s.
Proof.
  intros Hs. assert (∀ c, is_ascii_control c = true → contains_char c s = false) as Hc.
  { intros c Hc. induction s as [|d s IH]; cbn in *; [done|].
    apply andb_true_iff in Hs as [Hd Hs]. rewrite IH by done. rewrite orb_false_r.
    destruct (Ascii.eqb_spec c d) as [->|]; [|done]. by rewrite Hc in Hd. }
  split; [by apply Hc|]. unfold strip_cr. destruct (strip_suffix _ s) as [r|] eqn:E; [|done].
  apply strip_suffix_Some in E. specialize (Hc "013"%char eq_refl). rewrite E, contains_char_app in Hc.
  by rewrite orb_true_r in Hc.
Qed.

Lemma last_byte_newline s : last_byte s = Some "010"%char ↔ ends_with newline s = true.
Proof.
  unfold last_byte, ends_with. change (srev newline) with (String "010" EmptyString).
  unfold starts_with. destruct (srev s) as [|d r]; [done|]. cbn [first_byte strip_prefix].
  destruct (Ascii.eqb_spec "010" d) as [<-|Hd]; split; congruence.
Qed.

(** A valid line becomes one more line of the file. *)
Lemma append_lines old line fields :
  fstab_entry line fields → lines (old +:+ separator old +:+ line) = lines old ++ [line_content line].
Proof.
  intros [Hl Ht _ _ _ _]. destruct (no_control_line _ Ht) as [Hn Hcr]. rewrite Hl at 1.
  set (c := line_content line) in *. unfold separator.
  destruct (is_empty old) eqn:He.
  { apply is_empty_true in He as ->. cbn [orb]. rewrite !append_nil_l, lines_closed.
    rewrite split_char_single by done. cbn. by rewrite Hcr. }
  apply is_empty_false in He. cbn [orb]. case_bool_decide as Hb.
  - apply last_byte_newline, ends_with_true in Hb as [o ->].
    rewrite append_nil_l, append_assoc, lines_snoc, lines_closed by done. by rewrite Hcr.
  - rewrite lines_snoc, Hcr by done. rewrite lines_open; [done|done|].
    destruct (ends_with newline old) eqn:E; [|done]. by apply last_byte_newline in E.
Qed.

Lemma append_opened_Ok f line old i fs :
  outcome (append_opened f line old i fs) = Ok tt →
  let fs' := final (append_opened f line old i fs) in
  dir fs' = dir fs ∧ durable fs' = durable fs ∧
  inodes fs' !! i = Some {| contents := old +:+ separator old +:+ line; synced := true |}.
Proof.
  unfold append_opened. destruct (af_metadata f); [done|].
  destruct (if is_empty old then None else af_last f) as [[]|]; [done|done|].
  destruct (if is_empty (separator old) then None else af_separate f); [done|].
  destruct (af_write f) as [[]|]; [done|]. destruct (af_flush f); [done|]. destruct (af_sync f); [done|].
  intros _. cbn [final]. set (fs1 := if is_empty (separator old) then fs else _).
  assert (dir fs1 = dir fs ∧ durable fs1 = durable fs) as [D U] by (subst fs1; by case_match).
  unfold sync_inode. cbn [inodes write_inode]. rewrite lookup_insert_eq. cbn. by rewrite lookup_insert_eq.
Qed.

Lemma append_fstab_Ok f raw line fs :
  outcome (append_fstab f raw line fs) = Ok tt →
  ∃ path, safe_fstab_path raw = Ok path ∧ validate_fstab_line line = Ok tt ∧
    let p := norm_path path in
    let old := unwrap_or (read_file fs p) EmptyString in
    let fs' := final (append_fstab f raw line fs) in
    (fs' = fs ∧ ∃ l, l ∈ lines old ∧ first_word l = first_word line) ∨
    (∃ new, read_file fs' p = Some new ∧ lines new = lines old ++ [line_content line] ∧
       (dir fs !! p ≠ None → dir fs !! p = durable fs !! p → ∀ x, crash_read fs' p x → x = Some new)).
Proof.
  unfold append_fstab. destruct (let? path := _ in _) as [p|] eqn:E; [|done].
  apply rbind_Ok in E as (path & Hp & E). apply rbind_Ok in E as ([] & Hv & E). guard_inv E as Hl.
  injection E as <-. set (p := norm_path path).
  destruct (validate_fstab_line_Ok line Hv) as [fields Hf].
  intros Ho. exists path. split_and!; [done|done|]. cbv zeta. fold p. revert Ho.
  destruct (match (if af_unreadable f then None else _) with Some _ => _ | None => _ end) eqn:Hd.
  - intros _. left. split; [done|]. destruct (af_unreadable f); [done|].
    destruct (read_file fs p) as [text|]; [|done]. cbn [unwrap_or].
    apply existsb_elem_of in Hd as (l & Hin & Hw%bool_decide_eq_true). exists l. split; [done|].
    rewrite Hw. destruct Hf as [_ _ Hwords _ _ _]. destruct fields as [[[[[f0 f1] f2] f3] f4] f5].
    unfold first_word. by rewrite Hwords.
  - destruct (af_open f); [done|]. destruct (dir fs !! p) as [[i|k]|] eqn:He; [|done|].
    + intros Ho. right. apply append_opened_Ok in Ho. cbv zeta in Ho. destruct Ho as (D & U & I).
      set (old := unwrap_or (read_file fs p) EmptyString) in *.
      exists (old +:+ separator old +:+ line). split_and!.
      * unfold read_file. by rewrite D, He, I.
      * by eapply append_lines.
      * intros _ Hdu x. apply (replaced_durable _ _ i); [by rewrite D|by rewrite U, <-Hdu|done].
    + cbn [outcome final]. intros Ho. right. apply append_opened_Ok in Ho as (D & U & I).
      exists (EmptyString +:+ separator EmptyString +:+ line). split_and!.
      * unfold read_file. rewrite D. cbn. by rewrite lookup_insert_eq, I.
      * unfold read_file. rewrite He. by eapply append_lines.
      * done.
Qed.

(** Appending to the fstab.  Success means the line was valid and the file
    either already had an entry with the same UUID, and is unchanged, or has
    exactly one more line, the given one, whatever the old file ended with; and
    if the file itself was durable before, every later crash leaves the complete
    new file. *)
Theorem append_fstab_spec f raw line fs :
  outcome (append_fstab f raw line fs) = Ok tt →
  ∃ path, safe_fstab_path raw = Ok path ∧ validate_fstab_line line = Ok tt ∧
    let p := norm_path path in
    let old := unwrap_or (read_file fs p) EmptyString in
    let fs' := final (append_fstab f raw line fs) in
    (fs' = fs ∧ ∃ l, l ∈ lines old ∧ first_word l = first_word line) ∨
    (∃ new, read_file fs' p = Some new ∧ lines new = lines old ++ [line_content line] ∧
       (dir fs !! p ≠ None → dir fs !! p = durable fs !! p → ∀ x, crash_read fs' p x → x = Some new)).
Proof. apply append_fstab_Ok. Qed.

(** ** Rollback *)

Lemma then_run_Ok r k :
  outcome (then_run r k) = Ok tt →
  outcome r = Ok tt ∧ outcome (k (final r)) = Ok tt ∧ final (then_run r k) = final (k (final r)).
Proof. unfold then_run. destruct (outcome r) as [[]|] eqn:E; [|congruence]. auto. Qed.

Lemma restore_remove_Ok f path fs :
  rs_stat f = false → outcome (restore_remove f path fs) = Ok tt →
  dir (final (restore_remove f path fs)) !! path = None.
Proof.
  intros Hs. unfold restore_remove. rewrite Hs. destruct (dir fs !! path) as [[i|k]|] eqn:E; [| |done].
  - destruct (rs_remove f); [done|]. intros _. cbn. unfold remove_file. rewrite E. cbn.
    by rewrite lookup_delete_eq.
  - destruct k; [done| |]; (destruct (rs_remove f); [done|]); intros _; cbn; unfold remove_file; rewrite E; cbn;
      by rewrite lookup_delete_eq.
Qed.

Lemma restore_content_Ok f path temporary content fs :
  temporary ≠ path → outcome (restore_content f path temporary content fs) = Ok tt →
  let fs' := final (restore_content f path temporary content fs) in
  ∃ i, dir fs' !! path = Some (Regular i) ∧ inodes fs' !! i = Some {| contents := content; synced := true |}.
Proof.
  intros Hne. unfold restore_content. destruct (rs_create f); [done|].
  destruct (dir fs !! temporary); [done|]. destruct (rs_write f) as [[]|]; [done|].
  destruct (rs_flush f); [done|]. destruct (rs_sync f); [done|]. destruct (rs_secure f); [done|].
  destruct (rs_rename f); [done|]. destruct (is_directory _); [done|]. intros _. cbn [final].
  set (i := next_inode fs). exists i.
  pose proof (staged_sync _ _ _ _ _ (staged_write _ _ _ _ _ content (staged_create fs path temporary Hne))) as Hs.
  destruct (replaced_rename _ _ _ _ _ content Hs (sync_write_file _ _ _)) as [R1 R2 _ _]. done.
Qed.

Lemma snapshot_content f raw fs s :
  snapshot_fstab f raw fs = Ok s → sn_content s = read_file fs (norm_path (sn_path s)).
Proof.
  unfold snapshot_fstab. intros H. apply rbind_Ok in H as (path & _ & H).
  destruct (sp_inspect f); [done|]. destruct (dir fs !! norm_path path) as [[i|[]]|] eqn:E; [|done..|].
  - apply rbind_Ok in H as (c & Hc & H). injection H as <-. cbn. destruct (sp_read f); [done|].
    by apply ok_or_Ok in Hc.
  - injection H as <-. cbn. unfold read_file. by rewrite E.
Qed.

(** Rolling back to a snapshot restores the fstab: after a successful rollback
    the file has the contents of the snapshot, or is absent if it was absent
    then, and every later crash leaves exactly that. *)
Theorem snapshot_restore_roundtrip sf rf raw fs0 s fs1 :
  snapshot_fstab sf raw fs0 = Ok s → rs_stat rf = false → outcome (restore_fstab rf s fs1) = Ok tt →
  let p := norm_path (sn_path s) in
  let fs' := final (restore_fstab rf s fs1) in
  read_file fs' p = read_file fs0 p ∧ ∀ x, crash_read fs' p x → x = read_file fs0 p.
Proof.
  intros Hsn Hst. cbv zeta. rewrite <-(snapshot_content _ _ _ _ Hsn). unfold restore_fstab.
  set (p := norm_path (sn_path s)). set (tmp := with_extension _ p).
  assert (tmp ≠ p) as Hne by by apply with_extension_ne.
  destruct (let? parent := _ in _); [|done].
  intros (Hr & Ho & ->)%then_run_Ok. apply then_run_Ok in Ho as (Hc & Hy & ->).
  pose proof (restore_remove_Ok _ _ _ Hst Hr) as Hgone.
  set (fs2 := final (restore_remove rf p fs1)) in *.
  set (fs3 := final (match sn_content s with Some _ => _ | None => _ end)) in *.
  assert (dir (final (restore_sync rf p tmp fs3)) !! p = dir fs3 !! p ∧
          durable (final (restore_sync rf p tmp fs3)) !! p = dir fs3 !! p ∧
          inodes (final (restore_sync rf p tmp fs3)) = inodes fs3) as (D & U & I).
  { unfold restore_sync in *. destruct (rs_open_dir rf); [done|]. destruct (rs_sync_dir rf); [done|].
    cbn. by rewrite lookup_partial_alter_eq. }
  destruct (sn_content s) as [content|].
  - apply restore_content_Ok in Hc as (i & H1 & H2); [|done]. fold fs3 in H1, H2. split.
    + unfold read_file. by rewrite D, H1, I, H2.
    + intros x. apply (replaced_durable _ _ i); [by rewrite D|by rewrite U|by rewrite I].
  - subst fs3. cbn [final] in *. split; [unfold read_file; by rewrite D, Hgone|].
    intros x. unfold crash_read. rewrite D, U, Hgone. by intros [H|H].
Qed.

(** The rollback is not atomic.  It removes the fstab before it creates the
    file that replaces it, so every rollback to existing contents passes through
    a state in which a crash leaves no fstab at all; and if the temporary file
    cannot be created, for example because an interrupted earlier rollback left
    one behind, the rollback fails with the fstab gone. *)
Theorem rollback_can_lose_fstab f s fs parent content i :
  let p := norm_path (sn_path s) in
  parent_dir p = Some parent → dir fs !! parent = Some (Special Directory) →
  dir fs !! p = Some (Regular i) → sn_content s = Some content →
  rs_parent f = None → rs_stat f = false → rs_remove f = None →
  (∃ v, v ∈ visited (restore_fstab f s fs) ∧ crash_read v p None) ∧
  (rs_create f ≠ None ∨ dir fs !! with_extension "kyth-rollback.tmp" p ≠ None →
   ∃ e, outcome (restore_fstab f s fs) = Err e ∧ dir (final (restore_fstab f s fs)) !! p = None).
Proof.
  intros p Hpar Hdir Hp Hc H1 H2 H3. unfold restore_fstab. fold p. rewrite Hpar, H1. cbn [ok_or rbind].
  rewrite Hdir. cbn [rbind is_directory negb]. set (tmp := with_extension _ p).
  assert (restore_remove f p fs
          = {| visited := [fs; remove_file p fs]; final := remove_file p fs; outcome := Ok tt |}) as ->.
  { unfold restore_remove. by rewrite H2, Hp, H3. }
  rewrite Hc. assert (dir (remove_file p fs) !! p = None) as Hgone.
  { unfold remove_file. rewrite Hp. cbn. by rewrite lookup_delete_eq. }
  split.
  - exists (remove_file p fs). split; [|left; by rewrite Hgone].
    cbn. apply elem_of_cons. right. by left.
  - intros Hcr. cbn [then_run outcome final].
    assert (tmp ≠ p) as Hne by by apply with_extension_ne.
    assert (dir (remove_file p fs) !! tmp = dir fs !! tmp) as Ht.
    { unfold remove_file. rewrite Hp. cbn. by rewrite lookup_delete_ne. }
    assert (∃ e, restore_content f p tmp content (remove_file p fs)
                 = {| visited := [remove_file p fs]; final := remove_file p fs; outcome := Err e |}) as [e ->].
    { unfold restore_content. rewrite Ht. destruct (rs_create f); [eauto|].
      destruct (dir fs !! tmp) eqn:E; [eauto|]. destruct Hcr; done. }
    exists e. done.
Qed.

(** * Witnesses *)

Definition sample_input : ConfigurationInput :=
  {| ci_target_root := "/mnt/target/"; ci_hostname := " kyth-box "; ci_timezone := "Europe/Berlin";
     ci_locale := default_locale; ci_keymap := default_keymap |}.

Definition sample_plan : ConfigurationPlan :=
  {| cp_target_root := "/mnt/target/";
     cp_writes := [etc_write "/mnt/target/" "hostname" ("kyth-box" +:+ newline);
                   etc_write "/mnt/target/" "locale.conf" ("LANG=en_US.UTF-8" +:+ newline);
                   etc_write "/mnt/target/" "vconsole.conf" ("KEYMAP=us" +:+ newline)];
     cp_localtime_target := "/usr/share/zoneinfo/Europe/Berlin"; cp_executor := "kyth-installer-exec" |}.

Lemma sample_plan_built : build_plan sample_input = Ok sample_plan.
Proof. vm_compute. reflexivity. Qed.

Lemma for_deployment_is_replan_witness :
  for_deployment sample_plan "/mnt/target/ostree/deploy/default/deploy/ab.0"
  = build_plan {| ci_target_root := "/mnt/target/ostree/deploy/default/deploy/ab.0"; ci_hostname := " kyth-box ";
                  ci_timezone := "Europe/Berlin"; ci_locale := default_locale; ci_keymap := default_keymap |}.
Proof.
  exact (for_deployment_is_replan sample_input sample_plan "/mnt/target/ostree/deploy/default/deploy/ab.0"
           sample_plan_built).
Defined.

(** A target with an empty /etc. *)
Definition target_fs : Fs :=
  make_special "/mnt/target/etc" Directory {| inodes := ∅; dir := ∅; durable := ∅; next_inode := 0 |}.

Lemma target_fs_wf : fs_wf target_fs.
Proof. apply fs_wf_special. intros p i [H|H]; done. Qed.

Definition applied : Run := apply_plan no_apply_faults sample_plan target_fs.

Lemma apply_plan_crash_safe_witness :
  outcome applied = Ok tt ∧
  (∀ x, crash_read (final applied) "/mnt/target/etc/hostname" x → x = Some ("kyth-box" +:+ newline)) ∧
  ∀ e, crash_entry (final applied) "/mnt/target/etc/localtime" e →
    e = Some (Special (Symlink "/usr/share/zoneinfo/Europe/Berlin")).
Proof.
  destruct (apply_plan_crash_safe no_apply_faults sample_input sample_plan target_fs target_fs_wf
              sample_plan_built) as [Hw Hl].
  assert (outcome applied = Ok tt) as Ho by (vm_compute; reflexivity).
  split; [exact Ho|]. split.
  - exact (proj2 (Hw (etc_write "/mnt/target/" "hostname" ("kyth-box" +:+ newline))
                     (list_elem_of_here _ _)) Ho).
  - exact (proj2 Hl Ho).
Defined.

Definition fstab_name : string := "/mnt/target/etc/fstab".
Definition root_line : string := "UUID=ab12-34 / btrfs subvol=@ 0 0" +:+ newline.
Definition data_line : string := "UUID=cd /data ext4 defaults 0 2" +:+ newline.

(** An fstab with the root entry and no final newline. *)
Definition fstab_fs : Fs :=
  sync_name fstab_name (sync_inode 0 (write_inode 0 "UUID=ab12-34 / btrfs subvol=@ 0 0" (create_file fstab_name target_fs))).

Lemma append_fstab_spec_witness :
  ∃ path, safe_fstab_path fstab_name = Ok path ∧ validate_fstab_line data_line = Ok tt ∧
    ((final (append_fstab no_append_faults fstab_name data_line fstab_fs) = fstab_fs ∧
      ∃ l, l ∈ lines (unwrap_or (read_file fstab_fs (norm_path path)) EmptyString)
           ∧ first_word l = first_word data_line) ∨
     (∃ new, read_file (final (append_fstab no_append_faults fstab_name data_line fstab_fs)) (norm_path path)
             = Some new ∧
        lines new = lines (unwrap_or (read_file fstab_fs (norm_path path)) EmptyString)
                    ++ [line_content data_line] ∧
        (dir fstab_fs !! norm_path path ≠ None →
         dir fstab_fs !! norm_path path = durable fstab_fs !! norm_path path →
         ∀ x, crash_read (final (append_fstab no_append_faults fstab_name data_line fstab_fs)) (norm_path path) x →
              x = Some new))).
Proof.
  refine (append_fstab_spec no_append_faults fstab_name data_line fstab_fs _). vm_compute. reflexivity.
Defined.

Example append_separates :
  read_file (final (append_fstab no_append_faults fstab_name data_line fstab_fs)) fstab_name
  = Some ("UUID=ab12-34 / btrfs subvol=@ 0 0" +:+ newline +:+ data_line).
Proof. vm_compute. reflexivity. Qed.

(** The comparison with existing entries looks at the UUID only: another mount of
    a file system that is already listed is accepted and not written. *)
Example append_skips_other_mount :
  let home := "UUID=ab12-34 /var/home btrfs subvol=@home,compress=zstd:1 0 0" +:+ newline in
  outcome (append_fstab no_append_faults fstab_name home fstab_fs) = Ok tt ∧
  read_file (final (append_fstab no_append_faults fstab_name home fstab_fs)) fstab_name
  = Some "UUID=ab12-34 / btrfs subvol=@ 0 0".
Proof. vm_compute. done. Qed.

Definition sample_snapshot : FstabSnapshot :=
  {| sn_path := fstab_name; sn_content := Some "UUID=ab12-34 / btrfs subvol=@ 0 0"; sn_mode := 420 |}.

Definition changed_fs : Fs := final (append_fstab no_append_faults fstab_name data_line fstab_fs).

Lemma snapshot_restore_roundtrip_witness :
  read_file (final (restore_fstab no_restore_faults sample_snapshot changed_fs)) fstab_name
    = read_file fstab_fs fstab_name ∧
  ∀ x, crash_read (final (restore_fstab no_restore_faults sample_snapshot changed_fs)) fstab_name x →
       x = read_file fstab_fs fstab_name.
Proof.
  refine (snapshot_restore_roundtrip {| sp_inspect := None; sp_mode := 33188; sp_read := None |}
            no_restore_faults fstab_name fstab_fs sample_snapshot changed_fs _ eq_refl _);
    vm_compute; reflexivity.
Defined.

(** A temporary file left behind by an interrupted rollback. *)
Definition leftover_fs : Fs := create_file "/mnt/target/etc/fstab.kyth-rollback.tmp" fstab_fs.

Lemma rollback_can_lose_fstab_witness :
  ∃ e, outcome (restore_fstab no_restore_faults sample_snapshot leftover_fs) = Err e ∧
       dir (final (restore_fstab no_restore_faults sample_snapshot leftover_fs)) !! fstab_name = None.
Proof.
  refine (proj2 (rollback_can_lose_fstab no_restore_faults sample_snapshot leftover_fs "/mnt/target/etc"
                   "UUID=ab12-34 / btrfs subvol=@ 0 0" 0 eq_refl eq_refl eq_refl eq_refl eq_refl eq_refl eq_refl) _).
  right. vm_compute. discriminate.
Defined.
