(* ===== verification/Probes.v ===== *)
(** Read-only probes and the mount registry: [installer_probe.rs],
    [installer_mount.rs] and the bounded child process of
    [installer_stream.rs] the probes run in.

    A child process is what the supervising loop can observe of it: for each
    iteration whether cancellation was requested, what the wait call returned,
    and how long the thread slept beyond the 50 ms it asked for. *)

From S2P Require Import Prelude RustStr RustOs.

(** * Supervising loops

    A loop that polls until an iteration has a verdict. *)

Fixpoint poll_until {A} (verdict : nat → option A) (fuel n : nat) : option A :=
  match fuel with
  | O => None
  | S fuel =>
      match verdict n with
      | Some r => Some r
      | None => poll_until verdict fuel (S n)
      end
  end.

(** Every iteration sleeps at least [period], so this many are enough. *)
Definition poll_fuel (period timeout : Z) : nat := S (S (Z.to_nat (timeout / period))).

Lemma poll_until_Some {A} (verdict : nat → option A) period timeout fuel n :
  (∀ k, verdict k = None → period * Z.of_nat k < timeout) →
  timeout <= period * (Z.of_nat n + Z.of_nat fuel - 1) → (0 < fuel)%nat →
  ∃ k r, (n <= k < n + fuel)%nat ∧ poll_until verdict fuel n = Some r ∧
    verdict k = Some r ∧ ∀ j, (n <= j < k)%nat → verdict j = None.
Proof.
  intros Hv. revert n. induction fuel as [|fuel IH]; intros n Ht Hf; [lia|]. cbn [poll_until].
  destruct (verdict n) as [r|] eqn:E.
  - exists n, r. split_and!; [lia|lia|done|done|lia].
  - apply Hv in E as Hn. destruct (IH (S n)) as (k & r & Hk & Hl & Hr & Hj);
      [by replace (Z.of_nat (S n) + Z.of_nat fuel) with (Z.of_nat n + Z.of_nat (S fuel)) by lia| |].
    { destruct fuel; [|lia]. cbn [Z.of_nat] in *. lia. }
    exists k, r. split_and!; [lia|lia|done|done|]. intros j Hjk.
    destruct (decide (j = n)) as [->|]; [done|]. apply Hj. lia.
Qed.

(** The loop as a whole: it returns what the first deciding iteration says. *)
Lemma poll_until_decides {A} (verdict : nat → option A) period timeout :
  0 < period → 0 <= timeout → (∀ k, verdict k = None → period * Z.of_nat k < timeout) →
  ∃ n r, Z.of_nat n <= timeout / period + 1 ∧ poll_until verdict (poll_fuel period timeout) 0 = Some r ∧
    verdict n = Some r ∧ ∀ k, (k < n)%nat → verdict k = None.
Proof.
  intros Hp Ht Hv. unfold poll_fuel.
  assert (0 <= timeout / period) as Hq by (apply Z.div_pos; lia).
  pose proof (Z.div_mod timeout period ltac:(lia)) as Hd. pose proof (Z.mod_pos_bound timeout period Hp) as Hm.
  destruct (poll_until_Some verdict period timeout (S (S (Z.to_nat (timeout / period)))) 0 Hv)
    as (k & r & Hk & Hl & Hr & Hj); [nia|lia|].
  exists k, r. split_and!; [lia|done|done|]. intros j Hjk. apply Hj. lia.
Qed.

(** * A child process with a deadline *)

Inductive Poll :=
| Exited (output : result CommandOutput)     (* the child has exited; its collected output *)
| StillRunning
| WaitError (e : string).

Record Child := {
  ch_spawn : result unit;
  ch_cancel : nat → bool;
  ch_poll : nat → Poll;
  ch_oversleep : nat → nat;
}.

Fixpoint elapsed (c : Child) (n : nat) : Z :=
  match n with
  | O => 0
  | S n => elapsed c n + 50 + Z.of_nat (ch_oversleep c n)
  end.

(** The message of a failed exit. *)
Definition exit_message (operation : string) (code : option Z) : string :=
  operation +:+ " failed with exit code " +:+ show_int (unwrap_or code 1).

(** What iteration [n] returns, if it does not go on; times in milliseconds. *)
Definition verdict (c : Child) (timeout : Z) (operation : string) (n : nat) : option (result string) :=
  if ch_cancel c n then Some (Err (operation +:+ " cancelled"))
  else
    match ch_poll c n with
    | Exited (Err e) => Some (Err ("could not collect " +:+ operation +:+ " output: " +:+ e))
    | Exited (Ok output) =>
        Some (guard! negb (success output) else (exit_message operation (co_code output));
              guard! negb (co_utf8 output) else (operation +:+ " returned non-UTF-8 output");
              Ok (co_stdout output))
    | StillRunning =>
        if elapsed c n <? timeout then None
        else Some (Err (operation +:+ " timed out after " +:+ show_int (timeout / 1000) +:+ " seconds"))
    | WaitError e => Some (Err ("could not wait for " +:+ operation +:+ ": " +:+ e))
    end.

Definition run_output_timeout (c : Child) (timeout : Z) (operation : string) : result string :=
  check! map_err (λ e, "could not spawn " +:+ operation +:+ ": " +:+ e) (ch_spawn c);
  match poll_until (verdict c timeout operation) (poll_fuel 50 timeout) 0 with
  | Some r => r
  | None => Err EmptyString
  end.

(** * Probes *)

Definition probe_byte (c : ascii) : bool := is_ascii_alphanumeric c || byte_among "/_-." c.

Definition device_path (raw : string) : result string :=
  let value := trim raw in
  guard! negb (starts_with "/dev/" value) || (slen value <=? 5) || contains_str ".." value
         || contains_str "//" value || negb (str_all probe_byte value)
    else "UUID probe device must be a safe /dev path";
  Ok value.

Definition uuid_argv (device : string) : result (list string) :=
  let? device := device_path device in
  Ok ["/usr/bin/blkid"; "-s"; "UUID"; "-o"; "value"; device].

Definition STORAGE_PROBE_COLUMNS : string :=
  "NAME,SIZE,TYPE,FSTYPE,PARTTYPE,PARTN,LABEL,MOUNTPOINT,MOUNTPOINTS,START,RO".

Definition storage_probe_argv (disk : option string) : result (list string) :=
  let argv := ["/usr/bin/lsblk"; "--json"; "--bytes"; "--paths"; "--output"; STORAGE_PROBE_COLUMNS] in
  match disk with
  | Some disk => let? disk := device_path disk in Ok (argv ++ [disk])
  | None => Ok argv
  end.

Definition bitlocker_probe_argv (device : string) : result (list string) :=
  let? device := device_path device in
  Ok ["/usr/bin/blkid"; "-o"; "value"; "-s"; "TYPE"; device].

Definition hex_dash (c : ascii) : bool := is_ascii_hexdigit c || Ascii.eqb c "-".

(** The child that runs a command. *)
Class Children := { child_of : list string → Child }.

Definition lookup_uuid `{Children} (device : string) : result string :=
  let? argv := uuid_argv device in
  let? output := run_output_timeout (child_of argv) 30000 "filesystem UUID probe" in
  let uuid := trim output in
  guard! is_empty uuid || (128 <? slen uuid) || negb (str_all hex_dash uuid)
    else "filesystem UUID probe returned an invalid value";
  Ok uuid.

(** * The mount registry *)

(** [MountRegistry] has the one field [stack]. *)
Definition MountRegistry : Type := list string.

Definition register (path : string) (stack : MountRegistry) : MountRegistry :=
  if str_in path stack then stack else stack ++ [path].

(** Removing the last occurrence. *)
Fixpoint remove_first (path : string) (l : list string) : list string :=
  match l with
  | [] => []
  | x :: l => if String.eqb x path then l else x :: remove_first path l
  end.
Definition release (path : string) (stack : MountRegistry) : MountRegistry :=
  rev (remove_first path (rev stack)).

Definition clear (_ : MountRegistry) : MountRegistry := [].
Definition cleanup_order (stack : MountRegistry) : list string * MountRegistry := (rev stack, clear stack).

(** * Properties *)

Lemma elapsed_bound c n : 50 * Z.of_nat n <= elapsed c n.
Proof. induction n as [|n IH]; cbn [elapsed]; lia. Qed.

Lemma verdict_None c timeout operation n :
  verdict c timeout operation n = None → 50 * Z.of_nat n < timeout.
Proof.
  unfold verdict. destruct (ch_cancel c n); [done|]. destruct (ch_poll c n) as [[]| |]; [done|done| |done].
  destruct (Z.ltb_spec (elapsed c n) timeout); [|done]. pose proof (elapsed_bound c n). lia.
Qed.

(** A probe always ends.  Whatever the child does, the supervising loop
    returns, at the first iteration that sees a cancellation, an exit, a wait
    error or the deadline, what that iteration reports; a child that neither
    exits nor is cancelled is given up after at most one iteration per 50 ms of
    the timeout, plus one. *)
Theorem run_output_terminates c timeout operation :
  ch_spawn c = Ok tt → 0 <= timeout →
  ∃ n, Z.of_nat n <= timeout / 50 + 1 ∧
    verdict c timeout operation n = Some (run_output_timeout c timeout operation) ∧
    ∀ k, (k < n)%nat → verdict c timeout operation k = None.
Proof.
  intros Hs Ht. unfold run_output_timeout. rewrite Hs. cbn [map_err rbind].
  destruct (poll_until_decides (verdict c timeout operation) 50 timeout) as (k & r & Hk & -> & Hv & Hj);
    [lia|done|apply verdict_None|]. by exists k.
Qed.

Lemma lookup_uuid_Ok `{Children} device uuid :
  lookup_uuid device = Ok uuid → uuid ≠ EmptyString ∧ str_all hex_dash uuid = true ∧ trim uuid = uuid.
Proof.
  unfold lookup_uuid. intros Hk. apply rbind_Ok in Hk as (argv & _ & Hk).
  apply rbind_Ok in Hk as (out & _ & Hk). guard_inv Hk as Hu. injection Hk as <-. bool_inv.
  split_and!; [by apply is_empty_false|done|apply trim_idemp].
Qed.

(** ** The registry *)

Lemma NoDup_rev_list (l : list string) : NoDup l → NoDup (rev l).
Proof. intros H. by rewrite <-Permutation_rev. Qed.
Lemma elem_of_rev (x : string) l : x ∈ rev l ↔ x ∈ l.
Proof. by rewrite <-Permutation_rev. Qed.

Lemma remove_first_sub path l x : x ∈ remove_first path l → x ∈ l.
Proof.
  induction l as [|y l IH]; cbn; [done|]. destruct (String.eqb y path); rewrite !elem_of_cons; intuition.
Qed.

Lemma remove_first_NoDup path l : NoDup l → NoDup (remove_first path l) ∧ path ∉ remove_first path l.
Proof.
  induction 1 as [|y l Hy Hl [IH1 IH2]]; cbn; [split; [constructor|apply not_elem_of_nil]|].
  destruct (String.eqb_spec y path) as [->|Hne]; [done|]. split.
  - constructor; [|done]. by intros ?%remove_first_sub.
  - rewrite not_elem_of_cons. auto.
Qed.

(** One call of the registry. *)
Inductive MountCall := Register (path : string) | Release (path : string) | Clear.
Definition mount_call (stack : MountRegistry) (c : MountCall) : MountRegistry :=
  match c with
  | Register path => register path stack
  | Release path => release path stack
  | Clear => clear stack
  end.

(** After any calls, every registered mount is in the registry once, the one
    just registered is cleaned up first unless it was registered before, and a
    released one is no longer cleaned up. *)
Theorem mount_registry_lifo calls path :
  let stack := fold_left mount_call calls [] in
  NoDup stack ∧ path ∉ release path stack ∧
  (path ∉ stack → fst (cleanup_order (register path stack)) = path :: fst (cleanup_order stack)) ∧
  snd (cleanup_order stack) = [].
Proof.
  cbv zeta. assert (NoDup (fold_left mount_call calls [])) as Hn.
  { assert (∀ s, NoDup s → NoDup (fold_left mount_call calls s)) as H; [|apply H; constructor].
    induction calls as [|c calls IH]; intros s Hs; [done|]. cbn. apply IH. destruct c as [q|q|]; cbn.
    - unfold register. destruct (str_in q s) eqn:E; [done|]. apply str_in_false in E.
      apply NoDup_app. split_and!; [done| |by apply NoDup_singleton].
      intros x Hx ->%list_elem_of_singleton. done.
    - by apply NoDup_rev_list, remove_first_NoDup, NoDup_rev_list.
    - constructor. }
  split_and!; [done| | |done].
  - unfold release. rewrite elem_of_rev. by apply remove_first_NoDup, NoDup_rev_list.
  - intros Hp. unfold register. apply str_in_false in Hp as ->. cbn. by rewrite rev_app_distr.
Qed.

(** * Witnesses *)

(** A child that never exits. *)
Definition stuck_child : Child :=
  {| ch_spawn := Ok tt; ch_cancel := λ _, false; ch_poll := λ _, StillRunning; ch_oversleep := λ _, 7%nat |}.

Example stuck_child_times_out :
  run_output_timeout stuck_child 30000 "filesystem UUID probe"
  = Err "filesystem UUID probe timed out after 30 seconds".
Proof. vm_compute. reflexivity. Qed.

Lemma run_output_terminates_witness :
  ∃ n, Z.of_nat n <= 30000 / 50 + 1 ∧
    verdict stuck_child 30000 "probe" n = Some (run_output_timeout stuck_child 30000 "probe") ∧
    ∀ k, (k < n)%nat → verdict stuck_child 30000 "probe" k = None.
Proof. exact (run_output_terminates stuck_child 30000 "probe" eq_refl ltac:(lia)). Defined.

Example registry_ex :
  fold_left mount_call [Register "/target"; Register "/target/home"; Register "/target"; Release "/target"] []
  = ["/target/home"].
Proof. reflexivity. Qed.
