(* ===== verification/ManualMounts.v ===== *)
(** Mounting the user's own partitions: [installer_manual.rs] and
    [installer_alongside.rs].

    The rows of the manual filesystem matrix are validated against fresh probes
    into prepared rows, which are then mounted and appended to the fstab one by
    one; a failing row unmounts what the run mounted.  The commands that change
    the system are external: the model issues them to a shell that may answer
    anything, and keeps the log of commands and answers, over which the
    properties are stated. *)

From S2P Require Import Prelude RustStr RustOs InstallerPlan StorageModel Partitions FileSystem Configuration Probes.

(** * Commands *)

(** A command that was run: its words, and the spawn error or the exit code. *)
Record Event := { ev_argv : list string; ev_result : result (option Z) }.

(** The system the commands run on; its answers depend on what was run
    before. *)
Class Shell := {
  sh_exec : list Event → list string → result (option Z);
  sh_symlink : list Event → string → bool;
  sh_mkdir : list Event → string → result unit;
  sh_append : list Event → AppendFaults;
}.

(** The log (latest last), the installed fstab's file system and the mount
    targets of the current run. *)
Record MState := { ms_log : list Event; ms_fs : Fs; ms_mounted : list string }.

Definition M (A : Type) : Type := ST MState A.

Definition exec `{Shell} (argv : list string) : M (result (option Z)) :=
  λ s, let r := sh_exec (ms_log s) argv in
       (Ok r, {| ms_log := ms_log s ++ [{| ev_argv := argv; ev_result := r |}]; ms_fs := ms_fs s;
                 ms_mounted := ms_mounted s |}).

(** [status()] and [status.success()] *)
Definition status_success (code : option Z) : bool := bool_decide (code = Some 0).

Definition umount_argv (target : string) : list string := ["/usr/bin/umount"; "-R"; "-l"; target].

(** * Validation *)

Definition manual_path_byte (c : ascii) : bool := is_ascii_alphanumeric c || byte_among "/._+:-" c.

Definition safe_path (value label : string) : result string :=
  let value := trim value in
  guard! is_empty value || negb (starts_with "/" value) || contains_str ".." value
         || contains_str "//" value || str_in "." (split_char "/" value) || negb (str_all manual_path_byte value)
    else (label +:+ " must be an absolute safe path");
  Ok value.

Definition manual_device_byte (c : ascii) : bool := is_ascii_alphanumeric c || byte_among "/._-" c.

Definition safe_device (value : string) : result string :=
  let value := trim value in
  let basename := unwrap_or (strip_prefix "/dev/" value) EmptyString in
  let valid_name :=
    negb (is_empty basename)
    && (negb (contains_char "/" basename)
        || match strip_prefix "mapper/" basename with
           | Some name => negb (is_empty name) && negb (contains_char "/" name)
           | None => false
           end) in
  guard! negb (starts_with "/dev/" value) || negb valid_name || contains_str ".." value
         || contains_str "//" value || negb (str_all manual_device_byte value)
    else "manual partition must be a safe /dev path";
  Ok value.

Definition safe_uuid (value : string) : result string :=
  let value := trim value in
  guard! is_empty value || negb (str_all uuid_byte value) else "manual filesystem UUID is invalid";
  Ok value.

(** [safe_uuid(detected).is_ok_and(|d| d.eq_ignore_ascii_case(supplied))] *)
Definition uuid_matches (detected supplied : string) : bool :=
  match safe_uuid detected with
  | Ok d => eq_ignore_ascii_case d supplied
  | Err _ => false
  end.

Definition verified_uuid (supplied detected_uuid detected_partuuid : string) : result string :=
  let? supplied := safe_uuid supplied in
  let matches_uuid := uuid_matches detected_uuid supplied in
  let matches_partuuid := negb (is_empty (trim detected_partuuid)) && uuid_matches detected_partuuid supplied in
  guard! negb matches_uuid && negb matches_partuuid
    else "manual filesystem UUID does not match its selected partition";
  Ok supplied.

Definition normalized_fs (value : string) : result string :=
  let v := to_ascii_lowercase (trim value) in
  if String.eqb v "btrfs" then Ok "btrfs"
  else if String.eqb v "ext4" then Ok "ext4"
  else if String.eqb v "xfs" then Ok "xfs"
  else if str_in v ["linux-swap"; "swap"] then Ok "linux-swap"
  else Err "unsupported manual filesystem type".

Definition normalize_mountpoint (value fs : string) (allow_reserved : bool) : result string :=
  let? mountpoint :=
    if String.eqb fs "linux-swap" then
      guard! negb (String.eqb (trim value) "swap") else "swap filesystems must use the swap mount point";
      Ok "swap"
    else
      guard! String.eqb (trim value) "swap" else "the swap mount point requires a swap filesystem";
      safe_path value "manual mount point" in
  let mountpoint := if 1 <? slen mountpoint then trim_end_matches "/" mountpoint else mountpoint in
  guard! negb allow_reserved && negb (String.eqb fs "linux-swap")
         && str_in mountpoint ["/"; "/boot"; "/boot/efi"]
    else "manual mount point is reserved";
  Ok mountpoint.

Definition normalized_mountpoint (value fs : string) : result string := normalize_mountpoint value fs false.

(** The two sets after a successful claim. *)
Definition claim_assignment (mountpoint device : string) (seen_mountpoints seen_partitions : gset string)
    : result (gset string * gset string) :=
  guard! bool_decide (mountpoint ∈ seen_mountpoints)
    else ("manual mount point " +:+ mountpoint +:+ " is assigned more than once");
  guard! bool_decide (device ∈ seen_partitions)
    else ("manual partition " +:+ device +:+ " has multiple mount assignments");
  Ok ({[mountpoint]} ∪ seen_mountpoints, {[device]} ∪ seen_partitions).

Definition mount_target (root fstab_mountpoint : string) : string :=
  if String.eqb fstab_mountpoint "/var" || starts_with "/var/" fstab_mountpoint
  then root +:+ "/ostree/deploy/default/var" +:+ unwrap_or (strip_prefix "/var" fstab_mountpoint) EmptyString
  else root +:+ fstab_mountpoint.

(** ** Probes of the selected disk *)

Definition fresh_partition_snapshot `{Runner} (disk : string) : result string :=
  probe_text "/usr/bin/lsblk"
    ["--json"; "--bytes"; "--paths"; "--output";
     "NAME,SIZE,TYPE,FSTYPE,PARTTYPE,PARTN,LABEL,MOUNTPOINT,MOUNTPOINTS,START,RO,PARTUUID,PKNAME"; disk]
    (λ e, "could not probe manual install disk: " +:+ e)
    "manual install disk probe failed" "manual install disk probe was not UTF-8".

Definition logical_sector_size `{Runner} (disk : string) : result Z :=
  let? text := probe_text "/usr/bin/blockdev" ["--getss"; disk]
    (λ e, "could not probe sector size: " +:+ e)
    "sector size probe failed" "sector size probe was not UTF-8" in
  let? size := ok_or (parse_u64 (trim text)) "sector size probe returned an invalid value" in
  guard! negb (is_power_of_two size) || negb ((512 <=? size) && (size <=? 4096))
    else "storage probe returned an unsupported sector size";
  Ok size.

(** * Preparing the rows *)

Record ManualMountInput := { mm_partition : string; mm_mountpoint : string; mm_fstype : string; mm_uuid : string }.
Record ManualMountsInput := {
  mi_config_root : string;
  mi_fstab_path : string;
  mi_disk : string;
  mi_mounts : list ManualMountInput;
}.
Record ManualMountsResult := { mr_configured : nat; mr_skipped : nat }.

(** The tuple of a prepared row. *)
Record Row := { rw_device : string; rw_fs : string; rw_mountpoint : string; rw_line : string }.

(** The accumulators of the validation loop. *)
Record Prepared := {
  pr_rows : list Row;
  pr_mountpoints : gset string;
  pr_partitions : gset string;
  pr_uuids : gset string;
  pr_skipped : nat;
}.
Definition nothing_prepared : Prepared :=
  {| pr_rows := []; pr_mountpoints := ∅; pr_partitions := ∅; pr_uuids := ∅; pr_skipped := 0 |}.

Definition fstab_mountpoint (mountpoint : string) : string :=
  if String.eqb mountpoint "/home" then "/var/home" else mountpoint.

Definition row_line (uuid fs mountpoint : string) : string :=
  if String.eqb fs "linux-swap" then "UUID=" +:+ uuid +:+ " none swap defaults 0 0" +:+ newline
  else
    let pass := if String.eqb fs "btrfs" then "0" else "2" in
    let options := if String.eqb fs "btrfs" then "defaults,compress=zstd:1" else "defaults" in
    "UUID=" +:+ uuid +:+ " " +:+ mountpoint +:+ " " +:+ fs +:+ " " +:+ options +:+ " 0 " +:+ pass +:+ newline.

Definition prepare_row `{LsblkDecoder} `{Children} (snapshot disk : string) (sector_size : Z)
    (acc : Prepared) (mount : ManualMountInput) : result Prepared :=
  let? device := safe_device (mm_partition mount) in
  let? probe := map_err
    (λ e, "manual partition " +:+ device +:+ " failed its safety re-probe: " +:+ e)
    (partition_probe_from_snapshot snapshot disk device sector_size) in
  guard! pb_current probe
    else ("manual partition " +:+ device +:+ " is mounted; unmount it before installing");
  guard! pb_in_use probe
    else ("manual partition " +:+ device +:+ " has active mappings stacked on it");
  guard! pb_read_only probe else ("manual partition " +:+ device +:+ " is read-only");
  let? detected_uuid := lookup_uuid device in
  let? uuid := verified_uuid (mm_uuid mount) detected_uuid (pb_partuuid probe) in
  if bool_decide (uuid ∈ pr_uuids acc) then
    Ok {| pr_rows := pr_rows acc; pr_mountpoints := pr_mountpoints acc; pr_partitions := pr_partitions acc;
          pr_uuids := pr_uuids acc; pr_skipped := S (pr_skipped acc) |}
  else
    let? fs := normalized_fs (mm_fstype mount) in
    let? mountpoint := normalized_mountpoint (mm_mountpoint mount) fs in
    let mountpoint := fstab_mountpoint mountpoint in
    let? claimed := claim_assignment mountpoint device (pr_mountpoints acc) (pr_partitions acc) in
    Ok {| pr_rows := pr_rows acc ++ [{| rw_device := device; rw_fs := fs; rw_mountpoint := mountpoint;
                                        rw_line := row_line uuid fs mountpoint |}];
          pr_mountpoints := fst claimed; pr_partitions := snd claimed;
          pr_uuids := {[uuid]} ∪ pr_uuids acc; pr_skipped := pr_skipped acc |}.

Fixpoint prepare_rows `{LsblkDecoder} `{Children} (snapshot disk : string) (sector_size : Z)
    (acc : Prepared) (mounts : list ManualMountInput) : result Prepared :=
  match mounts with
  | [] => Ok acc
  | mount :: mounts =>
      let? acc := prepare_row snapshot disk sector_size acc mount in
      prepare_rows snapshot disk sector_size acc mounts
  end.

(** * Applying the rows *)

Definition push_mounted (target : string) : M unit :=
  λ s, (Ok tt, {| ms_log := ms_log s; ms_fs := ms_fs s; ms_mounted := ms_mounted s ++ [target] |}).

(** [append_fstab] on the installed fstab. *)
Definition append_line `{Shell} (fstab line : string) : M unit :=
  λ s, let r := append_fstab (sh_append (ms_log s)) fstab line (ms_fs s) in
       (outcome r, {| ms_log := ms_log s; ms_fs := final r; ms_mounted := ms_mounted s |}).

Definition mount_argv (fs device target : string) : list string :=
  ["/usr/bin/mount"; "-t"; fs; device; target].

(** The mount part of a row. *)
Definition mount_row `{Shell} (root device fs mountpoint : string) : M unit :=
  let target := mount_target root mountpoint in
  do! link <- (λ s, (Ok (sh_symlink (ms_log s) target), s));
  require! (guard! link else "manual mountpoint is a symlink"; Ok tt);
  do! made <- (λ s, (Ok (sh_mkdir (ms_log s) target), s));
  require! map_err (λ e, "could not create manual mountpoint: " +:+ e) made;
  do! probe <- exec ["/usr/bin/findmnt"; "--noheadings"; "--mountpoint"; target];
  do! code <- m_lift (map_err (λ e, "could not check existing manual mount: " +:+ e) probe);
  require! (guard! negb (status_success code) && negb (bool_decide (code = Some 1))
              else "could not determine whether the manual mount point is already mounted"; Ok tt);
  do! _ <- (if status_success code then
              do! unmounted <- exec (umount_argv target);
              do! code <- m_lift (map_err (λ e, "could not unmount existing manual mount: " +:+ e) unmounted);
              m_lift (guard! negb (status_success code) else "could not unmount existing manual mount"; Ok tt)
            else m_ret tt);
  do! mounted <- exec (mount_argv fs device target);
  do! code <- m_lift (map_err (λ e, "could not mount manual filesystem: " +:+ e) mounted);
  require! (guard! negb (status_success code)
              else ("could not mount manual filesystem on " +:+ mountpoint); Ok tt);
  push_mounted target.

Definition apply_mount_row `{Shell} (root fstab : string) (row : Row) : M unit :=
  do! _ <- (if String.eqb (rw_fs row) "linux-swap" then m_ret tt
            else mount_row root (rw_device row) (rw_fs row) (rw_mountpoint row));
  append_line fstab (rw_line row).

Fixpoint rollback_mounts `{Shell} (targets : list string) : M unit :=
  match targets with
  | [] => m_ret tt
  | target :: targets =>
      do! _ <- exec (umount_argv target);
      rollback_mounts targets
  end.

Fixpoint apply_rows `{Shell} (root fstab : string) (rows : list Row) (configured : nat) : M nat :=
  match rows with
  | [] => m_ret configured
  | row :: rows =>
      λ s, match apply_mount_row root fstab row s with
           | (Err e, s') =>
               let '(_, s'') := rollback_mounts (rev (ms_mounted s')) s' in (Err e, s'')
           | (Ok _, s') => apply_rows root fstab rows (S configured) s'
           end
  end.

(** Everything before the first row is applied; [real_root] is the metadata of
    the root. *)
Definition prepare `{Runner} `{LsblkDecoder} `{Children} (real_root : string → result bool)
    (input : ManualMountsInput) : result (string * string * Prepared) :=
  let? root := safe_path (mi_config_root input) "config root" in
  let? real := map_err (λ e, "could not inspect manual install root: " +:+ e) (real_root root) in
  guard! negb real else "manual install root must be a real directory";
  let? fstab := safe_path (mi_fstab_path input) "fstab path" in
  guard! negb (bool_decide (file_name fstab = Some "fstab"))
         || negb (bool_decide (parent_file_name fstab = Some "etc"))
    else "fstab path must point to installed /etc/fstab";
  let? disk := safe_device (mi_disk input) in
  let? snapshot := fresh_partition_snapshot disk in
  let? sector_size := logical_sector_size disk in
  let? prepared := prepare_rows snapshot disk sector_size nothing_prepared (mi_mounts input) in
  Ok (root, fstab, prepared).

Definition apply `{Runner} `{LsblkDecoder} `{Children} `{Shell} (real_root : string → result bool)
    (input : ManualMountsInput) : M ManualMountsResult :=
  do! p <- m_lift (prepare real_root input);
  do! _ <- (λ s, (Ok tt, {| ms_log := ms_log s; ms_fs := ms_fs s; ms_mounted := [] |}));
  let '(root, fstab, prepared) := p in
  do! configured <- apply_rows root fstab (pr_rows prepared) 0;
  m_ret {| mr_configured := configured; mr_skipped := pr_skipped prepared |}.

(** * The alongside home *)

Record AlongsideHomeInput := { ah_config_root : string; ah_target_device : string; ah_fstab_path : string }.
Record AlongsideHomeResult := { ar_mounted : bool; ar_fstab_written : bool }.

(** [safe_path] of [installer_alongside.rs]. *)
Definition safe_home_path (raw label : string) : result string :=
  let value := trim raw in
  guard! is_empty value || negb (starts_with "/" value) || contains_str ".." value
         || contains_str "//" value || negb (str_all manual_path_byte value)
    else (label +:+ " must be an absolute safe path");
  Ok value.

Definition safe_home_device (raw : string) : result string :=
  ok_or (InstallerPlan.normalize_device_path raw) "target device must be a safe /dev path".

Definition validate (input : AlongsideHomeInput) : result (string * string * string) :=
  let? root := safe_home_path (ah_config_root input) "config root" in
  let? device := safe_home_device (ah_target_device input) in
  let? fstab := safe_home_path (ah_fstab_path input) "fstab path" in
  guard! negb (bool_decide (file_name fstab = Some "fstab"))
         || negb (bool_decide (parent_file_name fstab = Some "etc"))
    else "fstab path must point to installed /etc/fstab";
  Ok (root, device, fstab).

Definition detach_home `{Shell} (home : string) : M unit :=
  do! _ <- exec (umount_argv home);
  m_ret tt.

Definition persist_home_fstab `{Shell} (fstab line home : string) : M AlongsideHomeResult :=
  λ s, match append_line fstab line s with
       | (Ok _, s') => (Ok {| ar_mounted := true; ar_fstab_written := true |}, s')
       | (Err e, s') =>
           let '(_, s'') := detach_home home s' in
           (Err ("could not write the @home fstab entry: " +:+ e), s'')
       end.

Definition home_line (uuid : string) : string :=
  "UUID=" +:+ uuid +:+ " /var/home btrfs subvol=@home,compress=zstd:1 0 0" +:+ newline.

Definition home_mount_argv (device home : string) : list string :=
  ["/usr/bin/mount"; "-o"; "subvol=@home"; device; home].

Definition apply_home `{Children} `{Shell} (input : AlongsideHomeInput) : M AlongsideHomeResult :=
  do! v <- m_lift (validate input);
  let '(root, device, fstab) := v in
  let home := join_path root "ostree/deploy/default/var/home" in
  do! link <- (λ s, (Ok (sh_symlink (ms_log s) home), s));
  require! (guard! link else "alongside home path is a symlink"; Ok tt);
  do! made <- (λ s, (Ok (sh_mkdir (ms_log s) home), s));
  require! map_err (λ e, "could not create alongside home mountpoint: " +:+ e) made;
  do! _ <- exec (umount_argv home);
  do! mounted <- exec (home_mount_argv device home);
  do! code <- m_lift (map_err (λ e, "could not mount alongside home: " +:+ e) mounted);
  require! (guard! negb (status_success code) else "could not mount alongside home"; Ok tt);
  match lookup_uuid device with
  | Err e => do! _ <- detach_home home; m_lift (Err e)
  | Ok uuid => persist_home_fstab fstab (home_line uuid) home
  end.

(** * The prepared rows *)

Section prepared.
Context `{LsblkDecoder} `{Children}.
Variables (snapshot disk : string) (sector_size : Z).

(** What validation established for a row and the UUID it writes. *)
Record row_ok (m : ManualMountInput) (uuid : string) (r : Row) : Prop := {
  ro_device : safe_device (mm_partition m) = Ok (rw_device r);
  ro_probe : ∃ probe detected,
    partition_probe_from_snapshot snapshot disk (rw_device r) sector_size = Ok probe ∧
    pb_current probe = false ∧ pb_in_use probe = false ∧ pb_read_only probe = false ∧
    lookup_uuid (rw_device r) = Ok detected ∧
    verified_uuid (mm_uuid m) detected (pb_partuuid probe) = Ok uuid;
  ro_fs : normalized_fs (mm_fstype m) = Ok (rw_fs r);
  ro_mountpoint : ∃ mp, normalized_mountpoint (mm_mountpoint m) (rw_fs r) = Ok mp ∧
                        rw_mountpoint r = fstab_mountpoint mp;
  ro_line : rw_line r = row_line uuid (rw_fs r) (rw_mountpoint r);
}.

Record prepared_ok (mounts : list ManualMountInput) (us : list string) (p : Prepared) : Prop := {
  po_rows : Forall2 (λ r u, ∃ m, m ∈ mounts ∧ row_ok m u r) (pr_rows p) us;
  po_uuids : NoDup us ∧ ∀ u, u ∈ us → u ∈ pr_uuids p;
  po_devices : NoDup (rw_device <$> pr_rows p) ∧ ∀ d, d ∈ rw_device <$> pr_rows p → d ∈ pr_partitions p;
  po_mountpoints : NoDup (rw_mountpoint <$> pr_rows p) ∧
                   ∀ d, d ∈ rw_mountpoint <$> pr_rows p → d ∈ pr_mountpoints p;
  po_count : (length (pr_rows p) + pr_skipped p = length mounts)%nat;
}.

Lemma NoDup_snoc (l : list string) x : NoDup l → x ∉ l → NoDup (l ++ [x]).
Proof.
  intros Hl Hx. apply NoDup_app. split_and!; [done| |apply NoDup_singleton].
  by intros y Hy ->%list_elem_of_singleton.
Qed.

(** A list that stays duplicate-free because the set it is recorded in is
    checked first. *)
Lemma tracked_snoc (l : list string) (seen : gset string) x :
  NoDup l ∧ (∀ y, y ∈ l → y ∈ seen) → x ∉ seen →
  NoDup (l ++ [x]) ∧ ∀ y, y ∈ l ++ [x] → y ∈ {[x]} ∪ seen.
Proof.
  intros [Hl Hs] Hx. split; [apply NoDup_snoc; auto|].
  intros y [Hy| ->%list_elem_of_singleton]%elem_of_app; set_solver.
Qed.

Lemma rows_weaken mounts m rows us :
  Forall2 (λ r u, ∃ m, m ∈ mounts ∧ row_ok m u r) rows us →
  Forall2 (λ r u, ∃ m', m' ∈ mounts ++ [m] ∧ row_ok m' u r) rows us.
Proof.
  intros H'. eapply Forall2_impl; [exact H'|]. intros r u (m' & Hm & Hr). exists m'.
  split; [apply elem_of_app; by left|done].
Qed.

Lemma prepare_row_ok mounts us p m p' :
  prepared_ok mounts us p → prepare_row snapshot disk sector_size p m = Ok p' →
  ∃ us', prepared_ok (mounts ++ [m]) us' p'.
Proof.
  intros [Hr Hu Hd Hm Hn] Hp. unfold prepare_row in Hp.
  apply rbind_Ok in Hp as (device & Hdev & Hp). apply rbind_Ok in Hp as (probe & Hpr%map_err_Ok & Hp).
  guard_inv Hp as H1. guard_inv Hp as H2. guard_inv Hp as H3.
  apply rbind_Ok in Hp as (detected & Hdet & Hp). apply rbind_Ok in Hp as (uuid & Hv & Hp).
  case_bool_decide as Hin.
  { injection Hp as <-. exists us. split; cbn; [by apply rows_weaken|done..|]. rewrite length_app. cbn. lia. }
  apply rbind_Ok in Hp as (fs & Hf & Hp). apply rbind_Ok in Hp as (mp & Hmp & Hp).
  apply rbind_Ok in Hp as ([mps parts] & Hc & Hp). injection Hp as <-.
  unfold claim_assignment in Hc. guard_inv Hc as C1. guard_inv Hc as C2. injection Hc as <- <-. bool_inv.
  exists (us ++ [uuid]). split; cbn [pr_rows pr_uuids pr_partitions pr_mountpoints pr_skipped fst snd].
  - apply Forall2_app; [by apply rows_weaken|]. constructor; [|constructor]. exists m.
    split; [apply elem_of_app; right; by left|]. split; cbn; eauto 10.
  - by apply tracked_snoc.
  - rewrite fmap_app. by apply tracked_snoc.
  - rewrite fmap_app. by apply tracked_snoc.
  - rewrite !length_app. cbn. lia.
Qed.

Lemma prepare_rows_ok mounts done us p p' :
  prepared_ok done us p → prepare_rows snapshot disk sector_size p mounts = Ok p' →
  ∃ us', prepared_ok (done ++ mounts) us' p'.
Proof.
  revert done us p. induction mounts as [|m mounts IH]; intros done us p Hp; cbn [prepare_rows].
  { intros [= <-]. exists us. by rewrite app_nil_r. }
  intros (p1 & H1 & H2)%rbind_Ok. destruct (prepare_row_ok _ _ _ _ _ Hp H1) as [us1 Hp1].
  destruct (IH _ _ _ Hp1 H2) as [us' Hok]. exists us'. by rewrite <-app_assoc in Hok.
Qed.

Lemma nothing_prepared_ok : prepared_ok [] [] nothing_prepared.
Proof.
  assert (NoDup (@nil string)) as Hn by constructor.
  split; cbn; [apply Forall2_nil_2|..]; try done; (split; [done|]; intros u Hu; by apply not_elem_of_nil in Hu).
Qed.

End prepared.

(** ** Mount points *)

(** What an fstab mount point must satisfy. *)
Record mountpoint_ok (mp : string) : Prop := {
  mk_abs : starts_with "/" mp = true;
  mk_dots : contains_str ".." mp = false;
  mk_slashes : contains_str "//" mp = false;
  mk_bytes : str_all manual_path_byte mp = true;
}.

Lemma mountpoint_trimmed mp :
  mountpoint_ok mp → mountpoint_ok (if 1 <? slen mp then trim_end_matches "/" mp else mp).
Proof.
  intros Hmp. destruct (Z.ltb_spec 1 (slen mp)) as [Hl|]; [|done].
  destruct (trim_end_matches_spec "/" mp) as (q & Hs & Hq). set (t := trim_end_matches "/" mp) in *.
  destruct Hmp as [Ha Hd Hsl Hb]. rewrite Hs in Ha, Hd, Hsl, Hb, Hl.
  rewrite str_all_app in Hb. apply andb_true_iff in Hb as [Hb _].
  split; [| | |done].
  - destruct t as [|c t].
    + exfalso. rewrite append_nil_l in *. destruct q as [|c [|d q]]; cbn in Hl; [lia|lia|].
      cbn [str_all] in Hq. apply andb_true_iff in Hq as [Hc%Ascii.eqb_eq Hq].
      apply andb_true_iff in Hq as [Hd'%Ascii.eqb_eq _]. subst c d. done.
    + apply starts_with_true in Ha as [r Hr]. rewrite !append_cons in Hr. injection Hr as -> _.
      apply starts_with_true. by exists t.
  - destruct (contains_str ".." t) eqn:E; [|done]. by rewrite (contains_str_prefix _ _ q E) in Hd.
  - destruct (contains_str "//" t) eqn:E; [|done]. by rewrite (contains_str_prefix _ _ q E) in Hsl.
Qed.

Lemma normalized_mountpoint_Ok value fs mp :
  normalized_mountpoint value fs = Ok mp →
  if String.eqb fs "linux-swap" then mp = "swap"
  else mountpoint_ok mp ∧ mp ∉ ["/"; "/boot"; "/boot/efi"].
Proof.
  unfold normalized_mountpoint, normalize_mountpoint. intros Hk.
  apply rbind_Ok in Hk as (m & Hm & Hk). guard_inv Hk as Hr. injection Hk as <-.
  destruct (String.eqb fs "linux-swap"); cbn [negb andb] in Hr.
  - guard_inv Hm as Hs. by injection Hm as <-.
  - guard_inv Hm as Hs. split; [|by apply str_in_false].
    unfold safe_path in Hm. guard_inv Hm as Hp. injection Hm as <-. bool_inv.
    by apply mountpoint_trimmed.
Qed.

Lemma fstab_mountpoint_ok mp : mountpoint_ok mp → mountpoint_ok (fstab_mountpoint mp).
Proof. unfold fstab_mountpoint. destruct (String.eqb mp "/home"); [by split|done]. Qed.

(** ** The fstab line of a row *)

Lemma bytes_graphic (f : ascii → bool) s :
  (∀ c, f c = true → graphic c = true) → str_all f s = true → str_all graphic s = true.
Proof. apply str_all_impl. Qed.

Lemma path_byte_graphic c : manual_path_byte c = true → graphic c = true.
Proof. by destruct c as [[] [] [] [] [] [] [] []]. Qed.
Lemma uuid_byte_graphic c : uuid_byte c = true → graphic c = true.
Proof. by destruct c as [[] [] [] [] [] [] [] []]. Qed.
Lemma graphic_not_control c : graphic c = true → negb (is_ascii_control c) = true.
Proof. by destruct c as [[] [] [] [] [] [] [] []]. Qed.

(** The words of a row's line. *)
Definition row_words (uuid fs mountpoint : string) : list string :=
  if String.eqb fs "linux-swap" then ["UUID=" +:+ uuid; "none"; "swap"; "defaults"; "0"; "0"]
  else ["UUID=" +:+ uuid; mountpoint; fs;
        if String.eqb fs "btrfs" then "defaults,compress=zstd:1" else "defaults"; "0";
        if String.eqb fs "btrfs" then "0" else "2"].

Lemma row_line_spaced uuid fs mp : row_line uuid fs mp = spaced (row_words uuid fs mp).
Proof.
  unfold row_line, row_words. destruct (String.eqb fs "linux-swap"); cbn [spaced].
  - by rewrite append_assoc.
  - by destruct (String.eqb fs "btrfs"); rewrite !append_assoc.
Qed.

Lemma spaced_content ws :
  ws ≠ [] → Forall (λ w, str_all graphic w = true) ws →
  ∃ c, spaced ws = c +:+ newline ∧ str_all (λ c, negb (is_ascii_control c)) c = true.
Proof.
  intros Hne Hw. induction Hw as [|w ws Hg Hws IH]; [done|].
  apply (str_all_impl _ (λ c, negb (is_ascii_control c)) _ graphic_not_control) in Hg.
  destruct ws as [|w' ws]; [by exists w|].
  destruct IH as (c & Hc & Ht); [done|]. exists (w +:+ " " +:+ c).
  change (spaced (w :: w' :: ws)) with (w +:+ " " +:+ spaced (w' :: ws)). rewrite Hc, !append_assoc.
  split; [done|]. rewrite !str_all_app, Hg, Ht. done.
Qed.

Definition manual_filesystems : list string := ["btrfs"; "ext4"; "xfs"; "linux-swap"].

Lemma normalized_fs_Ok value fs : normalized_fs value = Ok fs → fs ∈ manual_filesystems.
Proof.
  unfold normalized_fs, manual_filesystems. rewrite !elem_of_cons.
  repeat case_match; intros; simplify_eq; auto 10.
Qed.

Lemma row_words_graphic uuid fs mp :
  str_all uuid_byte uuid = true → fs ∈ manual_filesystems →
  (fs = "linux-swap" ∨ mountpoint_ok mp) →
  Forall (λ w, w ≠ EmptyString ∧ str_all graphic w = true) (row_words uuid fs mp).
Proof.
  intros Hu Hf Hm. apply (bytes_graphic _ _ uuid_byte_graphic) in Hu.
  assert (∀ u, str_all graphic u = true → "UUID=" +:+ u ≠ EmptyString ∧ str_all graphic ("UUID=" +:+ u) = true)
    as HU by (intros u Hg; by rewrite str_all_app, Hg).
  unfold row_words, manual_filesystems in *. rewrite !elem_of_cons in Hf.
  destruct Hm as [->|[Ha _ _ Hb]].
  - cbn. repeat (constructor; [by auto|]). constructor.
  - apply (bytes_graphic _ _ path_byte_graphic) in Hb.
    assert (mp ≠ EmptyString) as Hne by (by intros ->).
    destruct Hf as [->|[->|[->|[->|[]%not_elem_of_nil]]]]; cbn;
      (repeat (constructor; [by auto|]); constructor).
Qed.

Lemma path_byte_not_ws :
  Forall (λ p, str_all manual_path_byte p = false) whitespace ∧
  Forall (λ p, str_all manual_path_byte p = false) (srev <$> whitespace).
Proof. split; repeat (constructor; [done|]); constructor. Qed.

Lemma mountpoint_fstab mp label :
  mountpoint_ok mp → slen mp <= 4096 → safe_absolute_path mp label = Ok mp.
Proof.
  intros [Ha Hd Hs Hb] Hl. unfold safe_absolute_path. change root_byte with manual_path_byte.
  rewrite (trim_str_all manual_path_byte) by (done || apply path_byte_not_ws).
  rewrite Ha, Hd, Hs, Hb, (proj2 (Z.ltb_ge _ _)) by done. by destruct mp.
Qed.

Lemma fields_ok uuid f1 f2 f3 f5 :
  uuid ≠ EmptyString → str_all uuid_byte uuid = true →
  (f1 = "none" ∨ safe_absolute_path f1 "fstab mount point" = Ok f1) →
  str_all fstype_byte f2 = true → str_all fstab_option_byte f3 = true → str_in f5 ["0"; "2"] = true →
  fstab_fields_ok ("UUID=" +:+ uuid) f1 f2 f3 "0" f5 = true.
Proof.
  intros Hne Hu H1 H2 H3 H5. unfold fstab_fields_ok. rewrite strip_prefix_append. cbn [unwrap_or].
  rewrite Hu, H2, H3, H5. assert (5 < slen ("UUID=" +:+ uuid)) as Hl.
  { rewrite slen_append. destruct uuid; [done|]. change (String.length "UUID=") with 5%nat.
    cbn [String.length]. lia. }
  rewrite (proj2 (Z.leb_gt _ _) Hl). destruct H1 as [->|H1]; [done|]. rewrite H1.
  by destruct (String.eqb f1 "none").
Qed.

(** Validation of the lines the rows write. *)
Lemma row_line_valid uuid fs mp :
  uuid ≠ EmptyString → str_all uuid_byte uuid = true → fs ∈ manual_filesystems →
  (fs = "linux-swap" ∨ mountpoint_ok mp) → slen (row_line uuid fs mp) <= MAX_FSTAB_LINE_BYTES →
  validate_fstab_line (row_line uuid fs mp) = Ok tt.
Proof.
  intros Hne Hu Hf Hm Hlen. pose proof (row_words_graphic uuid fs mp Hu Hf Hm) as Hw.
  assert (row_words uuid fs mp ≠ []) as Hnn by (unfold row_words; by case_match).
  rewrite row_line_spaced in *.
  destruct (spaced_content (row_words uuid fs mp) Hnn) as (c & Hc & Ht).
  { eapply Forall_impl; [exact Hw|]. by intros w [_ ?]. }
  unfold validate_fstab_line. rewrite split_spaced by done.
  replace (line_content (spaced (row_words uuid fs mp))) with c.
  2:{ unfold line_content. by rewrite Hc, (proj2 (strip_suffix_Some newline _ c)). }
  rewrite Ht. rewrite (proj2 (Z.ltb_ge _ _)) by done.
  assert (is_empty (spaced (row_words uuid fs mp)) = false ∧ ends_with newline (spaced (row_words uuid fs mp)) = true)
    as [-> ->].
  { rewrite Hc. split; [by destruct c|]. apply ends_with_true. by exists c. }
  cbn [orb negb].
  pose proof (starts_with_app "UUID=" uuid) as HU.
  assert (fs ≠ "linux-swap" → slen mp <= 4096) as Hmp.
  { intros Hn%String.eqb_neq. unfold row_words in Hlen. rewrite Hn in Hlen. cbn [spaced] in Hlen.
    rewrite !slen_append in Hlen. unfold MAX_FSTAB_LINE_BYTES in Hlen. lia. }
  unfold row_words, manual_filesystems in *. rewrite !elem_of_cons in Hf.
  destruct Hf as [->|[->|[->|[->|[]%not_elem_of_nil]]]]; cbn [String.eqb Ascii.eqb Bool.eqb];
    rewrite HU; cbn [negb]; rewrite fields_ok; try done; try (by left);
    right; (destruct Hm as [?|Hm]; [done|]); apply mountpoint_fstab; auto.
Qed.

Lemma verified_uuid_Ok supplied detected partuuid u :
  verified_uuid supplied detected partuuid = Ok u →
  u ≠ EmptyString ∧ str_all uuid_byte u = true ∧
  (uuid_matches detected u = true ∨ uuid_matches partuuid u = true).
Proof.
  unfold verified_uuid. intros Hk. apply rbind_Ok in Hk as (s & Hs & Hk). guard_inv Hk as Hm.
  injection Hk as ->. unfold safe_uuid in Hs. guard_inv Hs as Hu. injection Hs as <-. bool_inv.
  split_and!; [by apply is_empty_false|done|].
  destruct (uuid_matches detected (trim supplied)); [by left|right].
  destruct (negb (is_empty (trim partuuid))); cbn in Hm; [|done]. by apply negb_false_iff in Hm.
Qed.

Lemma row_ok_valid `{LsblkDecoder} `{Children} snapshot disk ss m u r :
  row_ok snapshot disk ss m u r → slen (rw_line r) <= MAX_FSTAB_LINE_BYTES →
  validate_fstab_line (rw_line r) = Ok tt.
Proof.
  intros [_ (probe & detected & _ & _ & _ & _ & _ & Hv) Hf (mp & Hmp & Heq) Hl]. rewrite Hl.
  apply verified_uuid_Ok in Hv as (Hne & Hu & _).
  intros Hlen. apply row_line_valid; [done|done|by eapply normalized_fs_Ok| |done].
  apply normalized_mountpoint_Ok in Hmp. destruct (String.eqb_spec (rw_fs r) "linux-swap"); [by left|right].
  rewrite Heq. apply fstab_mountpoint_ok, Hmp.
Qed.

(** Preparing the manual mounts.  If the whole table is accepted, each
    prepared row belongs to a requested one whose partition a fresh probe found
    on the selected disk, unmounted, without stacked mappings and writable, with
    the selected UUID confirmed; no partition, mount point or UUID is used twice;
    every requested row is prepared or counted as skipped; and every line that
    will be appended passes the fstab validation unless it is longer than the
    limit. *)
Theorem manual_rows_sound `{LsblkDecoder} `{Children} snapshot disk ss mounts p :
  prepare_rows snapshot disk ss nothing_prepared mounts = Ok p →
  ∃ us, Forall2 (λ r u, ∃ m, m ∈ mounts ∧ row_ok snapshot disk ss m u r) (pr_rows p) us ∧
    NoDup us ∧ NoDup (rw_device <$> pr_rows p) ∧ NoDup (rw_mountpoint <$> pr_rows p) ∧
    (length (pr_rows p) + pr_skipped p = length mounts)%nat ∧
    ∀ r, r ∈ pr_rows p → slen (rw_line r) <= MAX_FSTAB_LINE_BYTES → validate_fstab_line (rw_line r) = Ok tt.
Proof.
  intros Hp. destruct (prepare_rows_ok _ _ _ mounts [] [] _ _ (nothing_prepared_ok _ _ _) Hp)
    as [us [Hr [Hu _] [Hd _] [Hm _] Hn]].
  exists us. split_and!; try done. intros r [i Hi]%list_elem_of_lookup.
  destruct (Forall2_lookup_l _ _ _ _ _ Hr Hi) as (u & _ & m & _ & Hok). by eapply row_ok_valid.
Qed.

(** * Applying *)

Section apply.
Context `{Shell}.

(** The targets of the successful mounts among the events. *)
Definition mounted_target (ev : Event) : option string :=
  match ev_argv ev, ev_result ev with
  | ["/usr/bin/mount"; "-t"; _; _; target], Ok (Some 0) => Some target
  | _, _ => None
  end.
Definition mounted_by (evs : list Event) : list string := filter_map mounted_target evs.

(** A step that ran [evs]: they are logged, and exactly the targets they mounted
    are remembered. *)
Record ran (s s' : MState) (evs : list Event) : Prop := {
  rn_log : ms_log s' = ms_log s ++ evs;
  rn_mounted : ms_mounted s' = ms_mounted s ++ mounted_by evs;
}.

Lemma ran_nil s : ran s s [].
Proof. split; by rewrite app_nil_r. Qed.

Lemma ran_trans s1 s2 s3 a b : ran s1 s2 a → ran s2 s3 b → ran s1 s3 (a ++ b).
Proof.
  intros [A1 A2] [B1 B2]. split; [by rewrite B1, A1, app_assoc|].
  unfold mounted_by in *. by rewrite B2, A2, filter_map_app, app_assoc.
Qed.

(** A command that is not a mount. *)
Lemma ran_exec s argv r s1 :
  exec argv s = (r, s1) → (∀ res, mounted_target {| ev_argv := argv; ev_result := res |} = None) →
  ∃ res, r = Ok res ∧ ran s s1 [{| ev_argv := argv; ev_result := res |}] ∧ ms_fs s1 = ms_fs s.
Proof.
  unfold exec. intros [= <- <-] Hn. eexists. split; [done|]. split; [|done].
  split; cbn; [done|]. rewrite Hn. by rewrite app_nil_r.
Qed.

Definition mounted_event (fs device target : string) : Event :=
  {| ev_argv := mount_argv fs device target; ev_result := Ok (Some 0) |}.

(** The last steps of [mount_row]: the mount, and remembering it. *)
Lemma mount_and_push fs device target mp s o s' :
  (do! mounted <- exec (mount_argv fs device target);
   do! code <- m_lift (map_err (λ e, "could not mount manual filesystem: " +:+ e) mounted);
   require! (guard! negb (status_success code)
               else ("could not mount manual filesystem on " +:+ mp); Ok tt);
   push_mounted target) s = (o, s') →
  ∃ evs, ran s s' evs ∧ ms_fs s' = ms_fs s ∧ (o = Ok tt → mounted_event fs device target ∈ evs).
Proof.
  unfold m_bind, exec, m_lift, push_mounted. set (r := sh_exec (ms_log s) (mount_argv fs device target)).
  assert (∀ e, ran s {| ms_log := ms_log s ++ [e]; ms_fs := ms_fs s; ms_mounted := ms_mounted s |} [e] ∨
               mounted_target e ≠ None) as Hran.
  { intros e. destruct (mounted_target e) eqn:E; [by right|left]. split; cbn; [done|].
    by rewrite E, app_nil_r. }
  destruct r as [code|e] eqn:Er; cbn [map_err].
  2:{ intros [= <- <-]. eexists. split; [|split; [done|discriminate]].
      destruct (Hran {| ev_argv := mount_argv fs device target; ev_result := Err e |}) as [Hr|Hr];
        [exact Hr|by cbn in Hr]. }
  unfold status_success. case_bool_decide as Hc; cbn [negb].
  - subst code. intros [= <- <-]. eexists. split; [|split; [done|]].
    + split; cbn; [reflexivity|reflexivity].
    + intros _. by left.
  - intros [= <- <-]. eexists. split; [|split; [done|discriminate]].
    destruct (Hran {| ev_argv := mount_argv fs device target; ev_result := Ok code |}) as [Hr|Hr]; [exact Hr|].
    exfalso. apply Hr. cbn. destruct code as [[]|]; done.
Qed.

Lemma mount_row_ran root device fs mp s o s' :
  mount_row root device fs mp s = (o, s') →
  ∃ evs, ran s s' evs ∧ ms_fs s' = ms_fs s ∧
    (o = Ok tt → mounted_event fs device (mount_target root mp) ∈ evs).
Proof.
  unfold mount_row. set (target := mount_target root mp).
  assert (∀ e : string, Err e = @Ok unit tt → mounted_event fs device target ∈ @nil Event) as Hno by done.
  intros [(l & s1 & [= <- <-] & Hk)|(e & [=] & _)]%m_bind_inv.
  apply m_bind_inv in Hk as [([] & s1 & [_ ->]%m_lift_inv & Hk)|(e & [_ ->]%m_lift_inv & ->)].
  2:{ exists []. split; [apply ran_nil|done]. }
  apply m_bind_inv in Hk as [(made & s1 & [= <- <-] & Hk)|(e & [=] & _)].
  apply m_bind_inv in Hk as [([] & s1 & [_ ->]%m_lift_inv & Hk)|(e & [_ ->]%m_lift_inv & ->)].
  2:{ exists []. split; [apply ran_nil|done]. }
  apply m_bind_inv in Hk as [(probe & s1 & H1 & Hk)|(e & [=] & _)].
  apply ran_exec in H1 as (res & [= <-] & R1 & F1); [|done].
  apply m_bind_inv in Hk as [(code & s2 & [_ ->]%m_lift_inv & Hk)|(e & [_ ->]%m_lift_inv & ->)];
    [|eexists; split; [exact R1|done]].
  apply m_bind_inv in Hk as [([] & s2 & [_ ->]%m_lift_inv & Hk)|(e & [_ ->]%m_lift_inv & ->)];
    [|eexists; split; [exact R1|done]].
  set (evs1 := [_]) in R1.
  apply m_bind_inv in Hk as [(u & s2 & H2 & Hk)|(e & H2 & ->)].
  - assert (∃ evs2, ran s1 s2 evs2 ∧ ms_fs s2 = ms_fs s1) as (evs2 & R2 & F2).
    { destruct (status_success code); [|injection H2 as _ <-; eauto using ran_nil].
      apply m_bind_inv in H2 as [(um & s3 & H3 & H2)|(e & [=] & _)].
      apply ran_exec in H3 as (res2 & [= <-] & R2 & F2); [|done].
      apply m_bind_inv in H2 as [(c2 & s4 & [_ ->]%m_lift_inv & [_ ->]%m_lift_inv)|(e & _ & [=])]. eauto. }
    apply mount_and_push in Hk as (evs3 & R3 & F3 & Hm).
    exists (evs1 ++ evs2 ++ evs3). split; [eauto using ran_trans|]. split; [congruence|].
    intros Ho. rewrite !elem_of_app. auto.
  - destruct (status_success code); [|done].
    apply m_bind_inv in H2 as [(um & s3 & H3 & H2)|(e' & [=] & _)].
    apply ran_exec in H3 as (res2 & [= <-] & R2 & F2); [|done].
    apply m_bind_inv in H2 as [(c2 & s4 & [_ ->]%m_lift_inv & [_ ->]%m_lift_inv)|(e' & [_ ->]%m_lift_inv & _)];
      (eexists; split; [eapply ran_trans; [exact R1|exact R2]|split; [congruence|done]]).
Qed.

(** The text of the installed fstab. *)
Definition fstab_lines (fstab : string) (s : MState) : list string :=
  lines (unwrap_or (read_file (ms_fs s) (norm_path fstab)) EmptyString).

(** The line itself, or an entry for the same UUID. *)
Definition listed (ls : list string) (line : string) : Prop :=
  ∃ l, l ∈ ls ∧ (l = line_content line ∨ first_word l = first_word line).

Lemma append_line_spec fstab line s o s' :
  append_line fstab line s = (o, s') →
  ran s s' [] ∧
  (o = Ok tt → ∃ path, safe_fstab_path fstab = Ok path ∧ listed (fstab_lines path s') line ∧
     fstab_lines path s ⊆ fstab_lines path s').
Proof.
  unfold append_line. intros [= <- <-]. split; [split; cbn; by rewrite app_nil_r|].
  intros Ho. apply append_fstab_Ok in Ho as (path & Hp & _ & Hk). exists path. split; [done|].
  unfold fstab_lines. cbn [ms_fs]. destruct Hk as [[-> (l & Hl & Hw)]|(new & -> & Hn & _)].
  - split; [|done]. exists l. auto.
  - cbn [unwrap_or]. rewrite Hn. split.
    + exists (line_content line). split; [|by left]. apply elem_of_app. right. by left.
    + intros x Hx. apply elem_of_app. by left.
Qed.

(** What is in place after a row has been applied. *)
Definition row_applied (root path : string) (row : Row) (evs : list Event) (s : MState) : Prop :=
  listed (fstab_lines path s) (rw_line row) ∧
  (rw_fs row ≠ "linux-swap" →
   mounted_event (rw_fs row) (rw_device row) (mount_target root (rw_mountpoint row)) ∈ evs).

Lemma apply_mount_row_spec root fstab row s o s' :
  apply_mount_row root fstab row s = (o, s') →
  ∃ evs, ran s s' evs ∧
    (o = Ok tt → ∃ path, safe_fstab_path fstab = Ok path ∧ row_applied root path row evs s' ∧
       fstab_lines path s ⊆ fstab_lines path s').
Proof.
  unfold apply_mount_row. intros [([] & s1 & H1 & Hk)|(e & H1 & ->)]%m_bind_inv.
  - assert (∃ evs, ran s s1 evs ∧ ms_fs s1 = ms_fs s ∧
              (rw_fs row ≠ "linux-swap" →
               mounted_event (rw_fs row) (rw_device row) (mount_target root (rw_mountpoint row)) ∈ evs))
      as (evs & R1 & F1 & Hm).
    { destruct (String.eqb_spec (rw_fs row) "linux-swap") as [E|E].
      - injection H1 as <-. exists []. split; [apply ran_nil|done].
      - apply mount_row_ran in H1 as (evs & ? & ? & ?). exists evs. auto. }
    apply append_line_spec in Hk as [R2 Hf]. exists evs.
    split; [rewrite <-(app_nil_r evs); by eapply ran_trans|]. intros Ho.
    destruct (Hf Ho) as (path & Hp & Hl & Hs). exists path. unfold fstab_lines at 1. rewrite <-F1. done.
  - destruct (String.eqb_spec (rw_fs row) "linux-swap") as [E|E]; [done|].
    apply mount_row_ran in H1 as (evs & ? & ? & ?). exists evs. done.
Qed.

Lemma rollback_spec targets s o s' :
  rollback_mounts targets s = (o, s') →
  ∃ rb, ms_log s' = ms_log s ++ rb ∧ ev_argv <$> rb = umount_argv <$> targets.
Proof.
  revert s. induction targets as [|t ts IH]; intros s; cbn [rollback_mounts].
  { intros [= _ <-]. exists []. by rewrite app_nil_r. }
  intros [(r & s1 & [= _ <-] & Hk)|(e & [=] & _)]%m_bind_inv.
  apply IH in Hk as (rb & Hl & Ha). eexists. rewrite Hl. cbn [ms_log].
  rewrite <-app_assoc. split; [reflexivity|]. cbn. by rewrite Ha.
Qed.

Lemma listed_mono ls ls' line : ls ⊆ ls' → listed ls line → listed ls' line.
Proof. intros Hs (l & Hl & Hw). exists l. auto. Qed.

Lemma apply_rows_spec root fstab rows configured s o s' :
  apply_rows root fstab rows configured s = (o, s') →
  match o with
  | Ok n => n = (configured + length rows)%nat ∧ ∃ evs, ran s s' evs ∧
      (rows ≠ [] → is_ok (safe_fstab_path fstab) = true) ∧
      ∀ path, safe_fstab_path fstab = Ok path →
        fstab_lines path s ⊆ fstab_lines path s' ∧ ∀ row, row ∈ rows → row_applied root path row evs s'
  | Err _ => ∃ evs rb, ms_log s' = ms_log s ++ evs ++ rb ∧
      ev_argv <$> rb = umount_argv <$> rev (ms_mounted s ++ mounted_by evs)
  end.
Proof.
  revert configured s. induction rows as [|row rows IH]; intros configured s; cbn [apply_rows].
  { intros [= <- <-]. split; [cbn; lia|]. exists []. split_and!; [apply ran_nil|done|].
    intros path _. split; [done|]. by intros row ?%not_elem_of_nil. }
  destruct (apply_mount_row root fstab row s) as [o1 s1] eqn:E1.
  apply apply_mount_row_spec in E1 as (evs1 & R1 & Hf). destruct o1 as [[]|e].
  - intros Hk. apply IH in Hk. destruct (Hf eq_refl) as (path & Hp & [Hl Hm] & Hs).
    destruct o as [n|e].
    + destruct Hk as [-> (evs2 & R2 & _ & Hr)]. destruct (Hr path Hp) as [Hs2 Hr2].
      split; [cbn; lia|]. exists (evs1 ++ evs2).
      split_and!; [by eapply ran_trans|by rewrite Hp|]. intros path' Hp'. rewrite Hp in Hp'. injection Hp' as <-.
      split; [by intros x Hx; apply Hs2, Hs|].
      intros r [->|Hin]%elem_of_cons.
      * split; [by eapply listed_mono|]. intros Hn. apply elem_of_app. auto.
      * destruct (Hr2 r Hin) as [? Hev]. split; [done|]. intros Hn. apply elem_of_app. auto.
    + destruct Hk as (evs2 & rb & Hl2 & Ha). exists (evs1 ++ evs2), rb.
      destruct R1 as [L1 M1]. rewrite Hl2, L1, <-!app_assoc. split; [done|].
      rewrite Ha, M1. unfold mounted_by. by rewrite filter_map_app, app_assoc.
  - destruct (rollback_mounts (rev (ms_mounted s1)) s1) as [o2 s2] eqn:E2. intros [= <- <-].
    apply rollback_spec in E2 as (rb & Hl & Ha). exists evs1, rb. destruct R1 as [L1 M1].
    rewrite Hl, L1, <-app_assoc. split; [done|]. by rewrite Ha, M1.
Qed.

End apply.

Section manual.
Context `{Runner} `{LsblkDecoder} `{Children} `{Shell}.

Lemma apply_inv real_root input s o s' :
  apply real_root input s = (o, s') →
  (∃ e, prepare real_root input = Err e ∧ o = Err e ∧ s' = s) ∨
  ∃ root fstab p o1, prepare real_root input = Ok (root, fstab, p) ∧
    apply_rows root fstab (pr_rows p) 0 {| ms_log := ms_log s; ms_fs := ms_fs s; ms_mounted := [] |} = (o1, s') ∧
    o = match o1 with
        | Ok n => Ok {| mr_configured := n; mr_skipped := pr_skipped p |}
        | Err e => Err e
        end.
Proof.
  unfold apply. intros [(p & s1 & [Hp ->]%m_lift_inv & Hk)|(e & [Hp ->]%m_lift_inv & ->)]%m_bind_inv.
  2:{ left. by exists e. }
  right. apply m_bind_inv in Hk as [([] & s1 & [= <-] & Hk)|(e & [=] & _)].
  destruct p as [[root fstab] p]. exists root, fstab, p.
  apply m_bind_inv in Hk as [(n & s2 & Hr & [= <- <-])|(e & Hr & ->)]; [exists (Ok n)|exists (Err e)]; done.
Qed.

(** A manual-mount run that fails takes its mounts back: the last commands it
    runs are unmounts of exactly the targets it had mounted, the latest first,
    and nothing is mounted after them. *)
Theorem manual_failure_rolls_back real_root input s e s' :
  apply real_root input s = (Err e, s') →
  ∃ evs rb, ms_log s' = ms_log s ++ evs ++ rb ∧ ev_argv <$> rb = umount_argv <$> rev (mounted_by evs).
Proof.
  intros [(e' & _ & _ & ->)|(root & fstab & p & o1 & _ & Hr & Ho)]%apply_inv.
  { exists [], []. by rewrite app_nil_r. }
  apply apply_rows_spec in Hr. destruct o1 as [n|e1]; [done|]. exact Hr.
Qed.

(** A manual-mount run that succeeds is complete: every prepared row is
    counted, its partition was mounted at its place in the target with its
    filesystem (swap excepted), and the installed fstab has its line or an entry
    with the same UUID. *)
Theorem manual_success_complete real_root input s r s' :
  apply real_root input s = (Ok r, s') →
  ∃ root fstab p evs, prepare real_root input = Ok (root, fstab, p) ∧ ms_log s' = ms_log s ++ evs ∧
    mr_configured r = length (pr_rows p) ∧ mr_skipped r = pr_skipped p ∧
    (pr_rows p ≠ [] → is_ok (safe_fstab_path fstab) = true) ∧
    ∀ path row, safe_fstab_path fstab = Ok path → row ∈ pr_rows p → row_applied root path row evs s'.
Proof.
  intros [(e' & _ & [=] & _)|(root & fstab & p & o1 & Hp & Hr & Ho)]%apply_inv.
  destruct o1 as [n|e1]; [|done]. injection Ho as ->.
  apply apply_rows_spec in Hr as [-> (evs & [Hl _] & Hok & Hrows)].
  exists root, fstab, p, evs. split_and!; try done. intros path row Hpath Hin.
  by destruct (Hrows path Hpath) as [_ ?]; auto.
Qed.

End manual.

(** ** The alongside home *)

Section home.
Context `{Children} `{Shell}.

Definition home_of (root : string) : string := join_path root "ostree/deploy/default/var/home".
Definition home_event (device home : string) : Event :=
  {| ev_argv := home_mount_argv device home; ev_result := Ok (Some 0) |}.

Lemma persist_home_spec fstab line home s o s' :
  persist_home_fstab fstab line home s = (o, s') →
  ∃ evs, ms_log s' = ms_log s ++ evs ∧
    match o with
    | Ok r => ar_fstab_written r = true ∧ ∃ path, safe_fstab_path fstab = Ok path ∧ listed (fstab_lines path s') line
    | Err _ => ∃ res, last evs = Some {| ev_argv := umount_argv home; ev_result := res |}
    end.
Proof.
  unfold persist_home_fstab. destruct (append_line fstab line s) as [o1 s1] eqn:E.
  apply append_line_spec in E as [[L1 _] Hf]. destruct o1 as [[]|e].
  - intros [= <- <-]. exists []. split; [done|]. split; [done|].
    destruct (Hf eq_refl) as (path & ? & ? & _). eauto.
  - cbn. intros [= <- <-]. cbn [ms_log]. rewrite L1, app_nil_r. eexists. split; [done|]. eexists. done.
Qed.

(** What follows a successful mount. *)
Lemma home_finish device fstab home s o s' :
  match lookup_uuid device with
  | Err e => do! _ <- detach_home home; m_lift (Err e)
  | Ok uuid => persist_home_fstab fstab (home_line uuid) home
  end s = (o, s') →
  ∃ evs, ms_log s' = ms_log s ++ evs ∧
    match o with
    | Ok r => ar_fstab_written r = true ∧ ∃ uuid path, lookup_uuid device = Ok uuid ∧
        safe_fstab_path fstab = Ok path ∧ listed (fstab_lines path s') (home_line uuid)
    | Err _ => ∃ res, last evs = Some {| ev_argv := umount_argv home; ev_result := res |}
    end.
Proof.
  destruct (lookup_uuid device) as [uuid|e] eqn:Hu.
  - intros (evs & Hl & Ho)%persist_home_spec. exists evs. split; [done|]. destruct o; [|done].
    destruct Ho as [? (path & ? & ?)]. split; [done|]. by exists uuid, path.
  - intros [([] & s3 & Hd & [<- ->]%m_lift_inv)|(e' & Hd & ->)]%m_bind_inv; [|done].
    cbn in Hd. injection Hd as <-. eexists. split; [reflexivity|]. eexists. done.
Qed.

Lemma last_app_Some {A} (a b : list A) x : last b = Some x → last (a ++ b) = Some x.
Proof. intros [l ->]%last_Some. by rewrite app_assoc, last_snoc. Qed.

(** The shared home of an alongside install.  Success means the home subvolume
    was mounted and the fstab has its line or an entry for the same UUID; after a
    failure the home is not left mounted: either its mount never succeeded, or
    the last command of the run detaches it. *)
Theorem home_fails_closed input s o s' :
  apply_home input s = (o, s') →
  ∃ evs, ms_log s' = ms_log s ++ evs ∧
    match o with
    | Ok r => ar_fstab_written r = true ∧
        ∃ root device fstab uuid path, validate input = Ok (root, device, fstab) ∧
          lookup_uuid device = Ok uuid ∧ home_event device (home_of root) ∈ evs ∧
          safe_fstab_path fstab = Ok path ∧ listed (fstab_lines path s') (home_line uuid)
    | Err _ => ∀ root device fstab, validate input = Ok (root, device, fstab) →
        home_event device (home_of root) ∈ evs →
        ∃ res, last evs = Some {| ev_argv := umount_argv (home_of root); ev_result := res |}
    end.
Proof.
  unfold apply_home. intros [([[root device] fstab] & s1 & [Hv ->]%m_lift_inv & Hk)|(e & [Hv ->]%m_lift_inv & ->)]%m_bind_inv.
  2:{ exists []. rewrite app_nil_r. split; [done|]. by intros ? ? ? _ ?%not_elem_of_nil. }
  fold (home_of root) in Hk. set (home := home_of root) in *.
  assert (∀ evs : list Event, ms_log s' = ms_log s ++ evs → (∀ ev, ev ∈ evs → ev ≠ home_event device home) →
            ∃ evs, ms_log s' = ms_log s ++ evs ∧
              ∀ root0 device0 fstab0, validate input = Ok (root0, device0, fstab0) →
                home_event device0 (home_of root0) ∈ evs →
                ∃ res, last evs = Some {| ev_argv := umount_argv (home_of root0); ev_result := res |}) as Hnone.
  { intros evs Hl Hn. exists evs. split; [done|]. intros ? ? ? Hv' Hin. rewrite Hv in Hv'.
    injection Hv' as <- <- <-. by destruct (Hn _ Hin). }
  apply m_bind_inv in Hk as [(l & s1 & [= <- <-] & Hk)|(e & [=] & _)].
  apply m_bind_inv in Hk as [([] & s1 & [_ ->]%m_lift_inv & Hk)|(e & [_ ->]%m_lift_inv & ->)].
  2:{ apply (Hnone []); [by rewrite app_nil_r|]. by intros ev ?%not_elem_of_nil. }
  apply m_bind_inv in Hk as [(made & s1 & [= <- <-] & Hk)|(e & [=] & _)].
  apply m_bind_inv in Hk as [([] & s1 & [_ ->]%m_lift_inv & Hk)|(e & [_ ->]%m_lift_inv & ->)].
  2:{ apply (Hnone []); [by rewrite app_nil_r|]. by intros ev ?%not_elem_of_nil. }
  apply m_bind_inv in Hk as [(um & s1 & [= <- <-] & Hk)|(e & [=] & _)].
  apply m_bind_inv in Hk as [(mo & s2 & [= <- <-] & Hk)|(e & [=] & _)].
  cbn [ms_log ms_fs ms_mounted] in Hk. set (u := {| ev_argv := umount_argv home; ev_result := _ |}) in Hk.
  rewrite <-app_assoc in Hk. set (r := sh_exec (ms_log s ++ [u]) _) in *.
  set (evs := [u] ++ [{| ev_argv := home_mount_argv device home; ev_result := r |}]) in Hk.
  assert (r ≠ Ok (Some 0) → ∀ ev, ev ∈ evs → ev ≠ home_event device home) as Hfail.
  { intros Hr ev Hin Heq. subst ev evs. rewrite elem_of_app, !list_elem_of_singleton in Hin.
    destruct Hin as [Hin|Hin]; unfold home_event in Hin; [discriminate|]. congruence. }
  apply m_bind_inv in Hk as [(code & s3 & [Hc ->]%m_lift_inv & Hk)|(e & [Hc ->]%m_lift_inv & ->)].
  2:{ apply (Hnone evs); [done|]. apply Hfail. intros ->. done. }
  apply m_bind_inv in Hk as [([] & s3 & [Hs ->]%m_lift_inv & Hk)|(e & [Hs ->]%m_lift_inv & ->)].
  2:{ apply (Hnone evs); [done|]. apply Hfail. intros ->. injection Hc as <-. done. }
  destruct r as [code'|]; [|done]. injection Hc as ->. unfold status_success in Hs.
  case_bool_decide as Hz; [subst code|done].
  apply home_finish in Hk as (evs2 & Hl & Ho). cbn [ms_log] in Hl. exists (evs ++ evs2).
  split; [by rewrite Hl, app_assoc|]. destruct o as [res|e].
  - destruct Ho as [? (uuid & path & ? & ? & ?)]. split; [done|]. exists root, device, fstab, uuid, path.
    split_and!; try done. apply elem_of_app. left. right. by left.
  - intros ? ? ? Hv' _. rewrite Hv in Hv'. injection Hv' as <- <- <-. destruct Ho as [res Hres].
    exists res. by apply last_app_Some.
Qed.

End home.

(** * Witnesses *)

Section witnesses.
#[local] Existing Instance sample_decoder.

(** blkid reports the same UUID for every device. *)
#[local] Instance sample_children : Children := {| child_of _ := {|
  ch_spawn := Ok tt; ch_cancel := λ _, false; ch_oversleep := λ _, 0%nat;
  ch_poll := λ n, match n with
                  | O => StillRunning
                  | _ => Exited (Ok {| co_code := Some 0; co_stdout := "CD-45" +:+ newline; co_utf8 := true |})
                  end |} |}.

#[local] Instance sample_runner : Runner := {| run_command program _ :=
  Ok {| co_code := Some 0; co_stdout := if String.eqb program "/usr/bin/lsblk" then "lsblk" else "512";
        co_utf8 := true |} |}.

Definition exec_ok (_ : list Event) (argv : list string) : result (option Z) :=
  Ok (Some (if bool_decide (head argv = Some "/usr/bin/findmnt") then 1 else 0)).

Definition good_shell : Shell := {| sh_exec := exec_ok; sh_symlink _ _ := false; sh_mkdir _ _ := Ok tt;
  sh_append _ := no_append_faults |}.

(** The fstab cannot be opened. *)
Definition readonly_shell : Shell := {| sh_exec := exec_ok; sh_symlink _ _ := false; sh_mkdir _ _ := Ok tt;
  sh_append _ := {| af_unreadable := false; af_open := Some "Read-only file system (os error 30)";
                    af_metadata := None; af_last := None; af_separate := None; af_write := None;
                    af_flush := None; af_sync := None |} |}.

Definition data_mount (uuid : string) : ManualMountInput :=
  {| mm_partition := "/dev/sda3"; mm_mountpoint := "/home/"; mm_fstype := "EXT4"; mm_uuid := uuid |}.

Definition manual_input (uuid : string) : ManualMountsInput :=
  {| mi_config_root := "/mnt/target"; mi_fstab_path := "/mnt/target/etc/fstab"; mi_disk := "/dev/sda";
     mi_mounts := [data_mount uuid] |}.

Definition start_state : MState := {| ms_log := []; ms_fs := fstab_fs; ms_mounted := [] |}.
Definition real_dir (_ : string) : result bool := Ok true.

Definition sample_row (uuid : string) : Row :=
  {| rw_device := "/dev/sda3"; rw_fs := "ext4"; rw_mountpoint := "/var/home";
     rw_line := "UUID=" +:+ uuid +:+ " /var/home ext4 defaults 0 2" +:+ newline |}.

Definition sample_prepared : Prepared :=
  {| pr_rows := [sample_row "cd-45"]; pr_mountpoints := {["/var/home"]} ∪ ∅;
     pr_partitions := {["/dev/sda3"]} ∪ ∅; pr_uuids := {["cd-45"]} ∪ ∅; pr_skipped := 1 |}.

Lemma sample_prepared_rows :
  prepare_rows "lsblk" "/dev/sda" 512 nothing_prepared [data_mount "cd-45"; data_mount "cd-45"]
  = Ok sample_prepared.
Proof. vm_compute. reflexivity. Qed.

Lemma manual_rows_sound_witness :
  ∃ us, Forall2 (λ r u, ∃ m, m ∈ [data_mount "cd-45"; data_mount "cd-45"] ∧ row_ok "lsblk" "/dev/sda" 512 m u r)
          (pr_rows sample_prepared) us ∧
    NoDup us ∧ NoDup (rw_device <$> pr_rows sample_prepared) ∧
    NoDup (rw_mountpoint <$> pr_rows sample_prepared) ∧
    (length (pr_rows sample_prepared) + pr_skipped sample_prepared = 2)%nat ∧
    ∀ r, r ∈ pr_rows sample_prepared → slen (rw_line r) <= MAX_FSTAB_LINE_BYTES →
         validate_fstab_line (rw_line r) = Ok tt.
Proof. exact (manual_rows_sound "lsblk" "/dev/sda" 512 _ sample_prepared sample_prepared_rows). Defined.

(** The selected value is the PARTUUID, not the filesystem UUID that blkid
    reports: it is accepted, and written as if it were the filesystem UUID. *)
Example partuuid_written_as_uuid :
  prepare_rows "lsblk" "/dev/sda" 512 nothing_prepared [data_mount "ab-03"]
  = Ok {| pr_rows := [sample_row "ab-03"]; pr_mountpoints := {["/var/home"]} ∪ ∅;
          pr_partitions := {["/dev/sda3"]} ∪ ∅; pr_uuids := {["ab-03"]} ∪ ∅; pr_skipped := 0 |}
  ∧ lookup_uuid "/dev/sda3" = Ok "CD-45".
Proof. by vm_compute. Qed.

(** Two spellings of one UUID are not recognised as duplicates. *)
Example uuid_dedup_is_case_sensitive :
  prepare_rows "lsblk" "/dev/sda" 512 nothing_prepared [data_mount "cd-45"; data_mount "CD-45"]
  = Err "manual mount point /var/home is assigned more than once".
Proof. by vm_compute. Qed.

Definition home_target : string := "/mnt/target/ostree/deploy/default/var/home".

Lemma manual_failure_rolls_back_witness :
  ∃ evs rb, ms_log (snd (apply (H2 := readonly_shell) real_dir (manual_input "cd-45") start_state)) = evs ++ rb ∧
    ev_argv <$> rb = umount_argv <$> rev (mounted_by evs).
Proof.
  refine (manual_failure_rolls_back (H2 := readonly_shell) real_dir (manual_input "cd-45") start_state
            "could not open installed fstab: Read-only file system (os error 30)" _ _).
  vm_compute. reflexivity.
Defined.

Example failed_run_log :
  ev_argv <$> ms_log (snd (apply (H2 := readonly_shell) real_dir (manual_input "cd-45") start_state))
  = [["/usr/bin/findmnt"; "--noheadings"; "--mountpoint"; home_target];
     mount_argv "ext4" "/dev/sda3" home_target; umount_argv home_target].
Proof. vm_compute. reflexivity. Qed.

Lemma manual_success_complete_witness :
  ∃ root fstab p evs, prepare real_dir (manual_input "cd-45") = Ok (root, fstab, p) ∧
    ms_log (snd (apply (H2 := good_shell) real_dir (manual_input "cd-45") start_state)) = evs ∧
    1%nat = length (pr_rows p).
Proof.
  destruct (manual_success_complete (H2 := good_shell) real_dir (manual_input "cd-45") start_state
              {| mr_configured := 1; mr_skipped := 0 |}
              (snd (apply (H2 := good_shell) real_dir (manual_input "cd-45") start_state)))
    as (root & fstab & p & evs & Hp & Hl & Hc & _); [vm_compute; reflexivity|].
  exists root, fstab, p, evs. split; [exact Hp|]. split; [exact Hl|exact Hc].
Defined.

Definition home_input : AlongsideHomeInput :=
  {| ah_config_root := "/mnt/target"; ah_target_device := "sda3"; ah_fstab_path := "/mnt/target/etc/fstab" |}.

Definition failed_home : result AlongsideHomeResult * MState :=
  apply_home (H0 := readonly_shell) home_input start_state.

Lemma home_fails_closed_witness :
  ∃ evs, ms_log (snd failed_home) = evs ∧
    ∀ root device fstab, validate home_input = Ok (root, device, fstab) →
      home_event device (home_of root) ∈ evs →
      ∃ res, last evs = Some {| ev_argv := umount_argv (home_of root); ev_result := res |}.
Proof.
  refine (home_fails_closed (H0 := readonly_shell) home_input start_state
            (Err "could not write the @home fstab entry: could not open installed fstab: Read-only file system (os error 30)")
            (snd failed_home) _).
  vm_compute. reflexivity.
Defined.

End witnesses.
