(* ===== verification/PartitionEdits.v ===== *)
(** The partition editor's journal: the model half of [installer_journal.rs].

    Edits are queued in a journal, validated against a snapshot of the disk by
    replaying them on a map of allocated regions, and projected into mounts.
    The theorems say what an accepted journal guarantees of the layout it leads
    to, and that operation identities stay unique. *)

From S2P Require Import Prelude RustStr Json InstallerPlan StorageModel Partitions ManualMounts.

(** * The journal *)

Record PartitionOperation := { po_kind : string; po_params : json; po_index : Z }.

Record PartitionJournal := {
  pj_disk : string;
  pj_ops : list PartitionOperation;
  pj_committed : bool;
  pj_root_partition : option string;
  pj_irreversible_completed : bool;
  pj_disk_model : option string;
  pj_disk_serial : option string;
  pj_disk_size_bytes : option Z;
}.

Definition with_ops (ops : list PartitionOperation) (j : PartitionJournal) : PartitionJournal :=
  {| pj_disk := pj_disk j; pj_ops := ops; pj_committed := pj_committed j;
     pj_root_partition := pj_root_partition j; pj_irreversible_completed := pj_irreversible_completed j;
     pj_disk_model := pj_disk_model j; pj_disk_serial := pj_disk_serial j;
     pj_disk_size_bytes := pj_disk_size_bytes j |}.

(** The three fields a commit or a rollback decides. *)
Definition with_outcome (committed : bool) (root : option string) (irreversible : bool) (j : PartitionJournal)
    : PartitionJournal :=
  {| pj_disk := pj_disk j; pj_ops := pj_ops j; pj_committed := committed;
     pj_root_partition := root; pj_irreversible_completed := irreversible;
     pj_disk_model := pj_disk_model j; pj_disk_serial := pj_disk_serial j;
     pj_disk_size_bytes := pj_disk_size_bytes j |}.

(** [PartitionJournal::new]; [identity] is [read_disk_identity]. *)
Definition new (identity : string → result DiskIdentity) (disk : string) : result PartitionJournal :=
  let? disk := ok_or (InstallerPlan.normalize_device_path disk) "Invalid disk path for journal." in
  let id := match identity disk with
            | Ok id => id
            | Err _ => {| id_serial := None; id_model := None; id_size_bytes := None |}
            end in
  Ok {| pj_disk := disk; pj_ops := []; pj_committed := false; pj_root_partition := None;
        pj_irreversible_completed := false; pj_disk_model := id_model id; pj_disk_serial := id_serial id;
        pj_disk_size_bytes := id_size_bytes id |}.

(** [iter.max()] of the identities; [usize] is 64 bits wide. *)
Fixpoint max_index (ops : list PartitionOperation) : option Z :=
  match ops with
  | [] => None
  | op :: ops => Some (match max_index ops with Some m => Z.max (po_index op) m | None => po_index op end)
  end.

Definition next_index (ops : list PartitionOperation) : Z :=
  match max_index ops with Some last => sat_add64 last 1 | None => 0 end.

Definition add_op (kind : string) (params : json) (j : PartitionJournal) : Z * PartitionJournal :=
  let index := next_index (pj_ops j) in
  (index, with_ops (pj_ops j ++ [{| po_kind := kind; po_params := params; po_index := index |}]) j).

Fixpoint remove_index (index : Z) (ops : list PartitionOperation) : option (list PartitionOperation) :=
  match ops with
  | [] => None
  | op :: ops =>
      if po_index op =? index then Some ops
      else match remove_index index ops with Some ops' => Some (op :: ops') | None => None end
  end.

Definition remove_op (index : Z) (j : PartitionJournal) : bool * PartitionJournal :=
  match remove_index index (pj_ops j) with
  | Some ops => (true, with_ops ops j)
  | None => (false, j)
  end.

Definition clear (j : PartitionJournal) : PartitionJournal := with_ops [] j.

Definition pending (j : PartitionJournal) : list PartitionOperation := pj_ops j.

(** A refused root leaves the journal as it was. *)
Definition mark_committed (root : option string) (j : PartitionJournal) : result unit * PartitionJournal :=
  match root with
  | None => (Ok tt, with_outcome true None (pj_irreversible_completed j) j)
  | Some value =>
      match InstallerPlan.normalize_device_path value with
      | Some p => (Ok tt, with_outcome true (Some p) (pj_irreversible_completed j) j)
      | None => (Err "Invalid root partition for journal.", j)
      end
  end.

Definition rollback_metadata (j : PartitionJournal) : result unit * PartitionJournal :=
  if pj_committed j then
    (Err "Partition changes have already been committed and cannot be rolled back.", j)
  else (Ok tt, with_outcome false None false (clear j)).

(** * Parameters of an operation *)

Definition value_string (params : json) (key : string) : string :=
  trim (unwrap_or (field as_str key params) EmptyString).

Definition value_i64 (params : json) (key : string) (default : Z) : Z :=
  match jget key params with
  | Some (JString s) => unwrap_or (parse_i64 s) default
  | Some v => unwrap_or (as_i64 v) default
  | None => default
  end.

Definition value_u64 (params : json) (key : string) (default : Z) : Z :=
  match jget key params with
  | Some (JString s) => unwrap_or (parse_u64 s) default
  | Some v => unwrap_or (as_u64 v) default
  | None => default
  end.

Definition is_efi_mountpoint (mountpoint : string) : bool :=
  String.eqb (trim_end_matches "/" (trim mountpoint)) "/boot/efi".

Definition mount_fs (filesystem : string) : string :=
  let fs := to_ascii_lowercase filesystem in
  if String.eqb fs "swap" then "linux-swap"
  else if str_in fs ["fat"; "vfat"] then "fat32"
  else fs.

Definition validated_mountpoint (raw filesystem : string) : result string :=
  if is_empty raw then Ok EmptyString
  else
    let fs := mount_fs filesystem in
    let? mountpoint := normalize_mountpoint raw fs true in
    if is_efi_mountpoint mountpoint then
      guard! negb (String.eqb fs "fat32") else "EFI mount point requires a FAT32 filesystem";
      Ok mountpoint
    else
      guard! negb (str_in fs ["btrfs"; "ext4"; "xfs"; "linux-swap"])
        else ("filesystem " +:+ fs +:+ " cannot be mounted by the Kyth installer");
      Ok mountpoint.

(** * Shrink attestations *)

Definition IRREVERSIBLE_WARNING : string :=
  "This operation cannot be undone: shrinking, deleting, or reformatting a partition destroys data the installer cannot restore. Verify the target, connect AC power, and keep a GPT backup on external media before committing.".

Definition path_on_external_media (path : string) : bool :=
  let path := trim path in
  if negb (starts_with "/" path) || contains_str ".." path then false
  else starts_with "/run/media/" path || starts_with "/mnt/" path.

Definition attested (params : json) (key : string) : bool :=
  match jget key params with Some (JBool true) => true | _ => false end.

(** An error that is reported under a condition. *)
Definition when (b : bool) (message : string) : list string := if b then [message] else [].

Definition validate_shrink_preconditions (fstype : string) (params : json) : list string :=
  let backup := value_string params "gpt_backup_path" in
  (if is_empty backup then
     ["Shrink partition: a GPT backup file path is required before this shrink commits. " +:+ IRREVERSIBLE_WARNING]
   else when (negb (path_on_external_media backup))
     ("Shrink partition: GPT backup " +:+ show_debug backup +:+
      " must be on external media (/run/media/…, /mnt/…) — a backup on the disk being shrunk is lost with it. "
      +:+ IRREVERSIBLE_WARNING))
  ++ when (str_in fstype ["ntfs"; "ntfs3"] && negb (attested params "ntfs_verified_clean"))
       ("Shrink partition: the NTFS dirty bit must be re-verified clear immediately pre-shrink (Windows may have run since the probe). "
        +:+ IRREVERSIBLE_WARNING)
  ++ when (negb (attested params "on_ac_power"))
       ("Shrink partition: AC power must be confirmed online before this shrink commits — losing power mid-shrink cannot be undone. "
        +:+ IRREVERSIBLE_WARNING).

(** The distinct external backup files the resize operations name, in order. *)
Definition backup_of (op : PartitionOperation) : option string :=
  if String.eqb (po_kind op) "resize" then
    match field as_str "gpt_backup_path" (po_params op) with
    | Some path => if is_empty (trim path) then None else Some (trim path)
    | None => None
    end
  else None.

Definition external_backup_paths (j : PartitionJournal) : list string :=
  first_occurrences ∅ (filter_map backup_of (pj_ops j)).

(** * Validation *)

(** [(start, end, filesystem)] of a region; [i64] offsets. *)
Record Region := { rg_start : Z; rg_end : Z; rg_fs : string }.

(** The variables of the replay. *)
Record Layout := {
  ly_errors : list string;
  ly_mounts : gmap string string;
  ly_allocated : gmap string Region;
  ly_table : string;
  ly_primary : Z;
}.

Definition report (errors : list string) (l : Layout) : Layout :=
  {| ly_errors := ly_errors l ++ errors; ly_mounts := ly_mounts l; ly_allocated := ly_allocated l;
     ly_table := ly_table l; ly_primary := ly_primary l |}.

Definition part_region (p : PartitionRecord) : Region :=
  {| rg_start := u64_as_i64 (pr_start_bytes p);
     rg_end := u64_as_i64 (sat_add64 (pr_start_bytes p) (pr_size_bytes p));
     rg_fs := pr_fstype p |}.

Definition initial_regions (parts : list PartitionRecord) : gmap string Region :=
  fold_left (λ m p, <[pr_name p := part_region p]> m) parts ∅.

Definition canonical_table (table_type : string) : string :=
  let table := to_ascii_lowercase table_type in
  if String.eqb table "dos" then "msdos" else table.

Definition table_errors (table : string) : list string :=
  when (negb (str_in table ["gpt"; "msdos"; "dos"])) ("Unsupported partition table type: " +:+ table +:+ ".").

Definition initial_layout (parts : list PartitionRecord) (table_type : string) : Layout :=
  let table := canonical_table table_type in
  {| ly_errors := table_errors table; ly_mounts := ∅; ly_allocated := initial_regions parts;
     ly_table := table; ly_primary := if String.eqb table "msdos" then Z.of_nat (length parts) else 0 |}.

Fixpoint last_mountpoints_loop (m : gmap string Z) (ops : list PartitionOperation) : gmap string Z :=
  match ops with
  | [] => m
  | op :: ops =>
      let partition := value_string (po_params op) "partition" in
      last_mountpoints_loop
        (if String.eqb (po_kind op) "set_mountpoint" && negb (is_empty partition)
         then <[partition := po_index op]> m else m) ops
  end.
Definition last_mountpoint_indices (j : PartitionJournal) : gmap string Z := last_mountpoints_loop ∅ (pj_ops j).

(** The test of the two overlap loops: a sane region that meets [start, end). *)
Definition overlaps (start end_ : Z) (r : Region) : bool :=
  (0 <=? rg_start r) && (rg_start r <? rg_end r) && (start <? rg_end r) && (rg_start r <? end_).

(** The first region, in the map's order, the loop stops at. *)
Definition overlapping (start end_ : Z) (skip : option string) (m : gmap string Region) : option string :=
  fst <$> find_first (λ e, negb (bool_decide (Some (fst e) = skip)) && overlaps start end_ (snd e)) (map_to_list m).

Definition assigned_to_other (mount : string) (partition : option string) (m : gmap string string) : bool :=
  existsb (λ e, negb (bool_decide (Some (fst e) = partition)) && String.eqb (snd e) mount) (map_to_list m).

Definition validate_new_table (params : json) (l : Layout) : Layout :=
  let value := value_string params "table_type" in
  let table := canonical_table (if is_empty value then "gpt" else value) in
  {| ly_errors := ly_errors l ++ table_errors table;
     ly_mounts := ∅;
     ly_allocated :=
       if String.eqb table "gpt" then
         {["automatic BIOS boot partition" :=
             {| rg_start := 1024 * 1024; rg_end := 2 * 1024 * 1024; rg_fs := "bios_grub" |}]}
       else ∅;
     ly_table := table;
     ly_primary := 0 |}.

Definition created_key (index : Z) : string := "new:" +:+ show_int index.

(** The mount point an operation asks for, and the error of a refused one. *)
Definition requested_mount (what : string) (params : json) (fs : string) : string * list string :=
  match validated_mountpoint (value_string params "mountpoint") fs with
  | Ok mount => (mount, [])
  | Err e => (EmptyString, [what +:+ ": " +:+ e +:+ "."])
  end.

Definition create_errors (disk : string) (disk_size : Z) (start size end_ : Z) (l : Layout) : list string :=
  when ((start <=? 0) || (size <=? 0)) "Create partition: invalid start or size."
  ++ (if (0 <? start) && (0 <? size) then
        when (negb (Z.rem start 512 =? 0) || negb (Z.rem size 512 =? 0))
          "Create partition: start and size must align to 512-byte sectors."
        ++ when ((0 <? disk_size) && (disk_size <? i64_as_u64 end_))
             ("Create partition: new partition extends past the end of " +:+ disk +:+ ".")
      else [])
  ++ (if (0 <=? start) && (0 <=? size) then
        match overlapping start end_ None (ly_allocated l) with
        | Some name => ["New partition overlaps with existing region (" +:+ name +:+ ")."]
        | None => []
        end
      else [])
  ++ when (String.eqb (ly_table l) "msdos" && (4 <=? ly_primary l))
       "MBR (msdos) partition tables support at most 4 primary partitions, and this installer does not create extended/logical partitions. Use a GPT table instead, or remove a partition from this layout.".

Definition validate_create (disk : string) (disk_size : Z) (op : PartitionOperation) (l : Layout) : Layout :=
  let params := po_params op in
  let start := value_i64 params "start_bytes" (-1) in
  let size := value_i64 params "size_bytes" (-1) in
  let fs := to_ascii_lowercase (value_string params "fs_type") in
  let '(mount, mount_errors) := requested_mount "Create partition" params fs in
  let end_ := sat_add_i64 start size in
  let key := created_key (po_index op) in
  {| ly_errors := ly_errors l ++ mount_errors ++ create_errors disk disk_size start size end_ l
       ++ when (String.eqb mount "/" && negb (String.eqb fs "btrfs"))
            "Root partition (/) must use the Btrfs filesystem."
       ++ when (String.eqb mount "/boot/efi" && negb (String.eqb fs "fat32"))
            "EFI System Partition (/boot/efi) must use FAT32."
       ++ when (negb (is_empty mount) && assigned_to_other mount None (ly_mounts l))
            ("Mount point " +:+ mount +:+ " is assigned more than once.");
     ly_mounts := if is_empty mount then ly_mounts l else <[key := mount]> (ly_mounts l);
     ly_allocated := <[key := {| rg_start := start; rg_end := end_; rg_fs := fs |}]> (ly_allocated l);
     ly_table := ly_table l;
     ly_primary := if String.eqb (ly_table l) "msdos" then ly_primary l + 1 else ly_primary l |}.

(** The errors of a resize: the attestations, which alone keep it valid, and
    the others. *)
Definition resize_attestations (params : json) (r : Region) : list string :=
  let new_size := value_i64 params "new_size_bytes" (-1) in
  let current_size := sat_sub_i64 (rg_end r) (rg_start r) in
  if (0 <? new_size) && ((current_size <=? 0) || (new_size <? current_size))
  then validate_shrink_preconditions (rg_fs r) params else [].

Definition resize_errors (disk : string) (disk_size : Z) (partition : string) (params : json) (r : Region)
    (l : Layout) : list string :=
  let new_size := value_i64 params "new_size_bytes" (-1) in
  let current_size := sat_sub_i64 (rg_end r) (rg_start r) in
  if new_size <=? 0 then ["Resize partition: invalid new size."]
  else
    let new_end := sat_add_i64 (rg_start r) new_size in
    when (negb (Z.rem new_size 512 =? 0)) "Resize partition: new size must align to 512-byte sectors."
    ++ when ((0 <? current_size) && (current_size <? new_size))
         "Resize partition: growing filesystems is not supported by this operation."
    ++ when ((0 <? disk_size) && (disk_size <? i64_as_u64 new_end))
         ("Resize partition: new size for " +:+ partition +:+ " extends past the end of " +:+ disk +:+ ".")
    ++ match overlapping (rg_start r) new_end (Some partition) (ly_allocated l) with
       | Some name => ["Resize partition: new size for " +:+ partition +:+
                       " would overlap with existing region (" +:+ name +:+ ")."]
       | None => []
       end.

Definition validate_resize (disk : string) (disk_size : Z) (partition : string) (params : json) (r : Region)
    (l : Layout) : Layout :=
  let errors := resize_errors disk disk_size partition params r l in
  let l := report (resize_attestations params r ++ errors) l in
  match errors with
  | [] =>
      {| ly_errors := ly_errors l; ly_mounts := ly_mounts l;
         ly_allocated :=
           <[partition := {| rg_start := rg_start r;
                             rg_end := sat_add_i64 (rg_start r) (value_i64 params "new_size_bytes" (-1));
                             rg_fs := rg_fs r |}]> (ly_allocated l);
         ly_table := ly_table l; ly_primary := ly_primary l |}
  | _ => l
  end.

Definition validate_set_mountpoint (partition : string) (params : json) (r : Region) (l : Layout) : Layout :=
  let fs := rg_fs r in
  let '(mount, mount_errors) := requested_mount "Set mount point" params fs in
  let errors := mount_errors
    ++ when (String.eqb mount "/" && negb (String.eqb fs "btrfs"))
         "Root partition (/) must use the Btrfs filesystem."
    ++ when (String.eqb mount "/boot/efi" && negb (str_in fs ["fat"; "fat32"; "vfat"]))
         "EFI System Partition (/boot/efi) must use FAT32."
    ++ when (negb (is_empty mount) && assigned_to_other mount (Some partition) (ly_mounts l))
         ("Mount point " +:+ mount +:+ " is assigned more than once.") in
  let l := report errors l in
  match errors with
  | [] =>
      {| ly_errors := ly_errors l;
         ly_mounts := if is_empty mount then delete partition (ly_mounts l)
                      else <[partition := mount]> (ly_mounts l);
         ly_allocated := ly_allocated l; ly_table := ly_table l; ly_primary := ly_primary l |}
  | _ => l
  end.

Definition validate_delete (partition : string) (l : Layout) : Layout :=
  {| ly_errors := ly_errors l; ly_mounts := delete partition (ly_mounts l);
     ly_allocated := delete partition (ly_allocated l); ly_table := ly_table l;
     ly_primary := if String.eqb (ly_table l) "msdos" then sat_sub64 (ly_primary l) 1 else ly_primary l |}.

Definition validate_format (partition : string) (params : json) (r : Region) (l : Layout) : Layout :=
  {| ly_errors := ly_errors l; ly_mounts := ly_mounts l;
     ly_allocated :=
       <[partition := {| rg_start := rg_start r; rg_end := rg_end r;
                         rg_fs := to_ascii_lowercase (value_string params "fs_type") |}]> (ly_allocated l);
     ly_table := ly_table l; ly_primary := ly_primary l |}.

(** The operations on an existing partition. *)
Definition validate_existing (disk : string) (disk_size : Z) (op : PartitionOperation) (l : Layout) : Layout :=
  let params := po_params op in
  match InstallerPlan.normalize_device_path (value_string params "partition") with
  | None => report [po_kind op +:+ ": partition does not belong to " +:+ disk +:+ "."] l
  | Some partition =>
      match ly_allocated l !! partition with
      | None => report [po_kind op +:+ ": " +:+ partition +:+ " is not present on " +:+ disk +:+ "."] l
      | Some r =>
          if String.eqb (po_kind op) "resize" then validate_resize disk disk_size partition params r l
          else if String.eqb (po_kind op) "set_mountpoint" then validate_set_mountpoint partition params r l
          else if String.eqb (po_kind op) "delete" then validate_delete partition l
          else validate_format partition params r l
      end
  end.

(** A mount assignment that a later one for the same partition replaces. *)
Definition superseded (last : gmap string Z) (op : PartitionOperation) : bool :=
  let partition := value_string (po_params op) "partition" in
  String.eqb (po_kind op) "set_mountpoint" && negb (is_empty partition)
  && negb (bool_decide (last !! partition = Some (po_index op))).

Definition validate_op (disk : string) (disk_size : Z) (last : gmap string Z) (l : Layout)
    (op : PartitionOperation) : Layout :=
  if superseded last op then l
  else if String.eqb (po_kind op) "new_table" then validate_new_table (po_params op) l
  else if String.eqb (po_kind op) "create" then validate_create disk disk_size op l
  else if str_in (po_kind op) ["delete"; "format"; "resize"; "set_mountpoint"]
  then validate_existing disk disk_size op l
  else report ["Unsupported partition operation: " +:+ po_kind op +:+ "."] l.

(** The layout after the first operations of the journal. *)
Definition replay (j : PartitionJournal) (parts : list PartitionRecord) (table_type : string) (disk_size : Z)
    (ops : list PartitionOperation) : Layout :=
  fold_left (validate_op (pj_disk j) disk_size (last_mountpoint_indices j)) ops (initial_layout parts table_type).

Definition roots (m : gmap string string) : list string :=
  filter_map (λ e, if String.eqb (snd e) "/" then Some (fst e) else None) (map_to_list m).

Definition root_errors (m : gmap string string) : list string :=
  match roots m with
  | [] => ["No root partition (/) configured. Mount at least one partition as '/' with Btrfs."]
  | [_] => []
  | _ => ["Exactly one root partition (/) must be configured."]
  end.

(** The first operation that touches a partition in use. *)
Fixpoint in_use_errors (last : gmap string Z) (part : PartitionRecord) (ops : list PartitionOperation)
    : list string :=
  match ops with
  | [] => []
  | op :: ops =>
      let raw := value_string (po_params op) "partition" in
      if negb (bool_decide (InstallerPlan.normalize_device_path raw = Some (pr_name part)))
      then in_use_errors last part ops
      else if str_in (po_kind op) ["delete"; "format"; "resize"] then
        ["Cannot modify " +:+ pr_name part +:+ " — it is currently mounted or in use."]
      else if String.eqb (po_kind op) "set_mountpoint"
              && String.eqb (value_string (po_params op) "mountpoint") "/"
              && bool_decide (last !! raw = Some (po_index op)) then
        ["Cannot set " +:+ pr_name part +:+ " as the root partition — it is currently mounted or in use."]
      else in_use_errors last part ops
  end.

Definition validate (j : PartitionJournal) (parts : list PartitionRecord) (table_type : string) (disk_size : Z)
    : list string :=
  match pj_ops j with
  | [] => ["No partition operations have been added."]
  | ops =>
      let l := replay j parts table_type disk_size ops in
      ly_errors l ++ root_errors (ly_mounts l)
      ++ flat_map (λ p, in_use_errors (last_mountpoint_indices j) p ops)
           (filterb (λ p, pr_current p || pr_in_use p) parts)
  end.

(** [validate_request] *)
Definition validate_request (j : PartitionJournal) (parts : list PartitionRecord) (table_type : string)
    (disk_size : Z) : json :=
  let errors := validate j parts table_type disk_size in
  jobject [("valid", JBool (bool_decide (errors = []))); ("errors", JArray (JString <$> errors))].

(** * Projections of a committed journal *)

Record ManualMount := { jm_partition : string; jm_mountpoint : string; jm_fstype : string }.

(** What the loop over the operations collects. *)
Record Projection := {
  pn_assignments : gmap string string;
  pn_formats : gmap string string;
  pn_created : gset string;
}.
Definition no_projection : Projection := {| pn_assignments := ∅; pn_formats := ∅; pn_created := ∅ |}.

(** An empty mount point takes the assignment away. *)
Definition assign (partition mountpoint : string) (m : gmap string string) : gmap string string :=
  if is_empty mountpoint then delete partition m else <[partition := mountpoint]> m.

Definition is_object (v : json) : bool := match v with JObject _ => true | _ => false end.

Definition project_op (acc : Projection) (op : PartitionOperation) : result Projection :=
  let params := po_params op in
  let kind := po_kind op in
  guard! negb (is_object params) && str_in kind ["create"; "set_mountpoint"; "delete"; "format"]
    else "Committed partition journal contains malformed operations.";
  let partition := value_string params "partition" in
  let mountpoint := value_string params "mountpoint" in
  let fs := value_string params "fs_type" in
  Ok
    (if String.eqb kind "new_table" then no_projection
     else if String.eqb kind "create" then
       if is_empty partition then acc
       else {| pn_assignments := assign partition mountpoint (pn_assignments acc);
               pn_formats := if is_empty fs then pn_formats acc else <[partition := fs]> (pn_formats acc);
               pn_created := {[partition]} ∪ pn_created acc |}
     else if String.eqb kind "set_mountpoint" then
       if is_empty partition then acc
       else {| pn_assignments := assign partition mountpoint (pn_assignments acc);
               pn_formats := pn_formats acc; pn_created := pn_created acc |}
     else if String.eqb kind "delete" then
       {| pn_assignments := delete partition (pn_assignments acc);
          pn_formats := delete partition (pn_formats acc);
          pn_created := pn_created acc ∖ {[partition]} |}
     else if String.eqb kind "format" then
       if negb (is_empty partition) && negb (is_empty fs)
       then {| pn_assignments := pn_assignments acc; pn_formats := <[partition := fs]> (pn_formats acc);
               pn_created := pn_created acc |}
       else acc
     else acc).

Fixpoint project_ops (acc : Projection) (ops : list PartitionOperation) : result Projection :=
  match ops with
  | [] => Ok acc
  | op :: ops => let? acc := project_op acc op in project_ops acc ops
  end.

(** [discovered.get(partition)]: the last record of that name. *)
Definition discovered (parts : list PartitionRecord) (partition : string) : option PartitionRecord :=
  fold_left (λ m p, <[pr_name p := p]> m) parts (∅ : gmap string PartitionRecord) !! partition.

Definition reserved_mount (mountpoint : string) : bool :=
  is_empty mountpoint || str_in mountpoint ["/"; "/boot/efi"].

Definition mount_fstype (parts : list PartitionRecord) (formats : gmap string string) (partition : string)
    : string :=
  let fstype := match formats !! partition with
                | Some fs => Some fs
                | None => pr_fstype <$> discovered parts partition
                end in
  match fstype with
  | Some fs => if is_empty fs then "btrfs" else fs
  | None => "btrfs"
  end.

Fixpoint collect_manual (parts : list PartitionRecord) (pn : Projection) (assigned : gset string)
    (entries : list (string * string)) : result (list ManualMount) :=
  match entries with
  | [] => Ok []
  | (partition, mountpoint) :: entries =>
      if reserved_mount mountpoint then collect_manual parts pn assigned entries
      else
        guard! bool_decide (discovered parts partition = None) && negb (bool_decide (partition ∈ pn_created pn))
          else ("Manual mount target " +:+ partition +:+ " disappeared after partition commit.");
        guard! bool_decide (mountpoint ∈ assigned)
          else ("Manual mount point " +:+ mountpoint +:+ " is assigned more than once.");
        let? mounts := collect_manual parts pn ({[mountpoint]} ∪ assigned) entries in
        Ok ({| jm_partition := partition; jm_mountpoint := mountpoint;
               jm_fstype := mount_fstype parts (pn_formats pn) partition |} :: mounts)
  end.

Definition manual_mounts (j : PartitionJournal) (parts : list PartitionRecord) : result (list ManualMount) :=
  if negb (pj_committed j) then Ok []
  else
    guard! is_empty (trim (pj_disk j)) else "Committed partition journal has no target disk.";
    let? pn := project_ops no_projection (pj_ops j) in
    collect_manual parts pn ∅ (btree_entries (pn_assignments pn)).

Definition root_step (m : gmap string string) (op : PartitionOperation) : gmap string string :=
  let partition := InstallerPlan.normalize_device_path (value_string (po_params op) "partition") in
  if String.eqb (po_kind op) "new_table" then ∅
  else if str_in (po_kind op) ["create"; "set_mountpoint"] then
    assign (unwrap_or partition (created_key (po_index op))) (value_string (po_params op) "mountpoint") m
  else if String.eqb (po_kind op) "delete" then
    match partition with Some p => delete p m | None => m end
  else m.

Definition root_partition (j : PartitionJournal) : option string :=
  match filter_map InstallerPlan.normalize_device_path (roots (fold_left root_step (pj_ops j) ∅)) with
  | [root] => Some root
  | _ => None
  end.

(** * Operation identities *)

(** The staging calls. *)
Inductive StageCall :=
| AddOp (kind : string) (params : json)
| RemoveOp (index : Z)
| Clear
| Rollback.

Definition stage (j : PartitionJournal) (c : StageCall) : PartitionJournal :=
  match c with
  | AddOp kind params => snd (add_op kind params j)
  | RemoveOp index => snd (remove_op index j)
  | Clear => clear j
  | Rollback => snd (rollback_metadata j)
  end.

Definition indices (j : PartitionJournal) : list Z := po_index <$> pj_ops j.

Lemma max_index_spec ops m :
  max_index ops = Some m → m ∈ po_index <$> ops ∧ ∀ i, i ∈ po_index <$> ops → i <= m.
Proof.
  revert m. induction ops as [|op ops IH]; intros m; cbn; [done|].
  destruct (max_index ops) as [m'|] eqn:E; intros [= <-].
  - destruct (IH _ eq_refl) as [Hin Hle]. split.
    + destruct (Z.max_spec (po_index op) m') as [[_ ->]|[_ ->]]; [by right|by left].
    + intros i [->|Hi]%elem_of_cons; [|specialize (Hle i Hi)]; lia.
  - destruct ops; [|cbn in E; by destruct (max_index ops)].
    split; [by left|]. intros i [->|Hi]%elem_of_cons; [done|]. by apply not_elem_of_nil in Hi.
Qed.

(** Increasing identities below [n]. *)
Definition ids_below (n : Z) (ids : list Z) : Prop :=
  StronglySorted Z.lt ids ∧ Forall (λ i, 0 <= i < n) ids.

Lemma sorted_snoc (ids : list Z) x :
  StronglySorted Z.lt ids → Forall (λ i, i < x) ids → StronglySorted Z.lt (ids ++ [x]).
Proof.
  induction 1 as [|i ids Hs IH Hi]; cbn; intros Hx.
  - constructor; constructor.
  - apply Forall_cons in Hx as [Hix Hx]. constructor; [auto|]. apply Forall_app_2; auto.
Qed.

Lemma remove_index_spec i ops ops' :
  StronglySorted Z.lt (po_index <$> ops) → remove_index i ops = Some ops' →
  ops' = filterb (λ op, negb (po_index op =? i)) ops.
Proof.
  revert ops'. induction ops as [|op ops IH]; intros ops'; cbn; [done|].
  intros [Hs Hlt]%StronglySorted_inv. destruct (Z.eqb_spec (po_index op) i) as [<-|Hne]; cbn.
  - intros [= <-]. clear IH Hs. induction ops as [|o ops IH]; cbn in *; [done|].
    apply Forall_cons in Hlt as [Hlt' Hlt]. destruct (Z.eqb_spec (po_index o) (po_index op)); [lia|].
    cbn. f_equal. auto.
  - destruct (remove_index i ops); [|done]. intros [= <-]. f_equal. auto.
Qed.

Lemma ids_filter n f ops : ids_below n (po_index <$> ops) → ids_below n (po_index <$> filterb f ops).
Proof.
  intros [Hs Hb]. induction ops as [|op ops IH]; [done|]. cbn in *.
  apply StronglySorted_inv in Hs as [Hs Hlt]. apply Forall_cons in Hb as [Hb0 Hb].
  destruct (IH Hs Hb) as [Hs' Hb']. case_match; [|done]. split; cbn; constructor; auto.
  apply Forall_forall. intros i (o & -> & [Ho _]%elem_of_filterb)%list_elem_of_fmap.
  rewrite Forall_forall in Hlt. apply Hlt. by apply list_elem_of_fmap_2.
Qed.

Lemma next_index_fresh n ops :
  ids_below n (po_index <$> ops) → 0 <= n <= u64_max →
  0 <= next_index ops <= n ∧ Forall (λ i, i < next_index ops) (po_index <$> ops).
Proof.
  intros [_ Hb] Hn. unfold next_index. destruct (max_index ops) as [m|] eqn:E.
  - apply max_index_spec in E as [Hin Hle]. rewrite Forall_forall in Hb.
    pose proof (Hb m Hin). cbn beta in *. unfold sat_add64. split; [lia|].
    apply Forall_forall. intros i Hi. pose proof (Hle i Hi). lia.
  - destruct ops; [|cbn in E; by destruct (max_index ops)]. cbn. split; [lia|constructor].
Qed.

Lemma stage_ids n j c :
  0 <= n < u64_max → ids_below n (indices j) → ids_below (n + 1) (indices (stage j c)).
Proof.
  intros Hn Hj.
  assert (∀ ops, ids_below n (po_index <$> ops) → ids_below (n + 1) (po_index <$> ops)) as Hup.
  { intros ops [Hs Hb]. split; [done|]. eapply Forall_impl; [exact Hb|]. cbn. lia. }
  destruct c as [kind params|i| |]; cbn.
  - unfold indices in *. cbn. rewrite fmap_app. cbn.
    destruct (next_index_fresh n (pj_ops j) Hj ltac:(lia)) as [H1 H2]. destruct Hj as [Hs Hb].
    split; [by apply sorted_snoc|]. apply Forall_app_2.
    + eapply Forall_impl; [exact Hb|]. cbn. lia.
    + constructor; [lia|constructor].
  - unfold remove_op. destruct (remove_index i (pj_ops j)) as [ops|] eqn:E; cbn; [|by apply Hup].
    apply Hup. cbn. rewrite (remove_index_spec _ _ _ (proj1 Hj) E). by apply ids_filter.
  - split; constructor.
  - unfold rollback_metadata. destruct (pj_committed j); cbn; [by apply Hup|]. split; constructor.
Qed.

(** Staging any sequence of calls keeps the identities of the queued operations
    increasing, hence unique, and the identity an append returns is above every
    queued one; removing by identity takes away exactly that operation.  The
    bound is the range of [usize]: an append saturates only after 2^64 calls. *)
Theorem operation_ids_unique (j : PartitionJournal) (calls : list StageCall) :
  pj_ops j = [] → Z.of_nat (length calls) < u64_max →
  let j' := fold_left stage calls j in
  StronglySorted Z.lt (indices j')
  ∧ (∀ kind params, Forall (λ i, i < fst (add_op kind params j')) (indices j'))
  ∧ ∀ i, pj_ops (snd (remove_op i j')) = filterb (λ op, negb (po_index op =? i)) (pj_ops j').
Proof.
  intros Hj Hlen j'.
  assert (∀ n j0, ids_below n (indices j0) → 0 <= n → n + Z.of_nat (length calls) < u64_max →
            ids_below (n + Z.of_nat (length calls)) (indices (fold_left stage calls j0))) as Hrun.
  { clear. induction calls as [|c calls IH]; intros n j0 H0 Hn Hb; cbn -[Z.of_nat] in *.
    - by rewrite Z.add_0_r.
    - replace (n + Z.of_nat (S (length calls))) with ((n + 1) + Z.of_nat (length calls)) by lia.
      apply IH; [|lia..]. apply stage_ids; [lia|done]. }
  assert (ids_below (Z.of_nat (length calls)) (indices j')) as Hids.
  { apply (Hrun 0 j); [|lia..]. unfold indices. rewrite Hj. split; constructor. }
  split_and!; [apply Hids| |].
  - intros kind params. cbn. apply (next_index_fresh _ _ Hids). lia.
  - intros i. unfold remove_op. destruct (remove_index i (pj_ops j')) as [ops|] eqn:E; cbn.
    + by eapply remove_index_spec; [apply Hids|].
    + clear -E. induction (pj_ops j') as [|op ops IH]; cbn in *; [done|].
      destruct (Z.eqb_spec (po_index op) i); [done|]. cbn. f_equal. apply IH.
      by destruct (remove_index i ops).
Qed.

(** * What an accepted journal guarantees *)

(** A region the overlap loops take into account. *)
Definition sane (r : Region) : Prop := 0 <= rg_start r < rg_end r.
Definition clear_regions (r r' : Region) : Prop := rg_end r <= rg_start r' ∨ rg_end r' <= rg_start r.

Record layout_ok (l : Layout) : Prop := {
  lo_disjoint : ∀ k k' r r', k ≠ k' → ly_allocated l !! k = Some r → ly_allocated l !! k' = Some r' →
                sane r → sane r' → clear_regions r r';
  lo_present : ∀ k mp, ly_mounts l !! k = Some mp → is_Some (ly_allocated l !! k);
  lo_distinct : ∀ k k' mp, ly_mounts l !! k = Some mp → ly_mounts l !! k' = Some mp → k = k';
}.

Lemma when_nil b m : when b m = [] ↔ b = false.
Proof. by destruct b. Qed.

Lemma overlapping_None start end_ skip m :
  overlapping start end_ skip m = None →
  ∀ k r, m !! k = Some r → Some k ≠ skip → start < end_ → sane r → rg_end r <= start ∨ end_ <= rg_start r.
Proof.
  unfold overlapping. intros E%fmap_None k r Hk Hs Hlt Hr.
  destruct (decide (rg_end r <= start ∨ end_ <= rg_start r)) as [|Hn]; [done|].
  assert (is_Some (find_first (λ e, negb (bool_decide (Some e.1 = skip)) && overlaps start end_ e.2)
            (map_to_list m))) as [x Hx]; [|congruence].
  apply (find_first_is_Some _ _ (k, r)); [by apply elem_of_map_to_list|]. cbn.
  rewrite bool_decide_false by done. unfold overlaps, sane in *. cbn. rewrite !andb_true_iff, !Z.leb_le, !Z.ltb_lt.
  lia.
Qed.

Lemma assigned_to_other_false mount partition m :
  assigned_to_other mount partition m = false →
  ∀ k, m !! k = Some mount → Some k = partition.
Proof.
  unfold assigned_to_other. rewrite existsb_not_elem_of. intros Hf k Hk.
  specialize (Hf (k, mount)). cbn in Hf. rewrite String.eqb_refl, andb_true_r in Hf.
  rewrite elem_of_map_to_list in Hf. specialize (Hf Hk). bool_inv. done.
Qed.

(** Adding or moving one region that meets no other. *)
Lemma insert_region_disjoint (m : gmap string Region) key r :
  (∀ k k' r r', k ≠ k' → m !! k = Some r → m !! k' = Some r' → sane r → sane r' → clear_regions r r') →
  (∀ k r', k ≠ key → m !! k = Some r' → sane r → sane r' → clear_regions r r') →
  ∀ k k' r1 r2, k ≠ k' → <[key := r]> m !! k = Some r1 → <[key := r]> m !! k' = Some r2 →
    sane r1 → sane r2 → clear_regions r1 r2.
Proof.
  intros Hm Hr k k' r1 r2 Hne H1 H2 Hs1 Hs2.
  apply lookup_insert_Some in H1 as [[<- <-]|[Hk H1]]; apply lookup_insert_Some in H2 as [[<- <-]|[Hk' H2]].
  - done.
  - by apply (Hr k').
  - destruct (Hr k r1) as [?|?]; [done..| |]; unfold clear_regions; auto.
  - by apply (Hm k k').
Qed.

Lemma requested_mount_nil what params fs mount :
  requested_mount what params fs = (mount, []) →
  validated_mountpoint (value_string params "mountpoint") fs = Ok mount.
Proof. unfold requested_mount. by destruct (validated_mountpoint _ _); intros [= <-]. Qed.

Lemma clear_sym r r' : clear_regions r r' → clear_regions r' r.
Proof. unfold clear_regions. tauto. Qed.

Section accepted.
Context (disk : string) (disk_size : Z) (last : gmap string Z).

Lemma validate_create_ok op l :
  layout_ok l → ly_errors (validate_create disk disk_size op l) = [] →
  layout_ok (validate_create disk disk_size op l).
Proof.
  intros [Hd Hp Hi]. unfold validate_create. destruct (requested_mount _ _ _) as [mount merr] eqn:Em.
  set (start := value_i64 _ "start_bytes" _). set (size := value_i64 _ "size_bytes" _). cbn [ly_errors].
  intros (_ & (-> & (Hc & (_ & (_ & Hdup)%app_nil)%app_nil)%app_nil)%app_nil)%app_nil.
  unfold create_errors in Hc. apply app_nil in Hc as (Hpos & (_ & (Hov & _)%app_nil)%app_nil).
  rewrite when_nil in Hpos, Hdup. apply orb_false_iff in Hpos as [Hs%Z.leb_gt Hz%Z.leb_gt].
  destruct (Z.leb_spec 0 start), (Z.leb_spec 0 size); try lia. cbn in Hov.
  destruct (overlapping _ _ _ _) eqn:Hover; [done|].
  split; cbn.
  - apply insert_region_disjoint; [done|]. intros k r' Hk Hl Hsane Hr'.
    unfold sane in Hsane. cbn in Hsane.
    destruct (overlapping_None _ _ _ _ Hover k r' Hl) as [?|?]; [done|lia|done|..]; unfold clear_regions; cbn; lia.
  - intros k mp Hk. destruct (decide (k = created_key (po_index op))) as [->|Hne].
    { by rewrite lookup_insert_eq. }
    rewrite lookup_insert_ne by done. apply (Hp k mp). destruct (is_empty mount); [done|].
    by rewrite lookup_insert_ne in Hk by done.
  - destruct (is_empty mount) eqn:He; [done|]. cbn in Hdup.
    pose proof (assigned_to_other_false _ _ _ Hdup) as Hn.
    intros k k' mp H1 H2.
    apply lookup_insert_Some in H1 as [[<- <-]|[Hk H1]]; apply lookup_insert_Some in H2 as [[<- E]|[Hk' H2]];
      try done; [by apply Hn in H2| subst; by apply Hn in H1|by apply (Hi _ _ mp)].
Qed.

Lemma validate_resize_ok partition params r l :
  layout_ok l → ly_allocated l !! partition = Some r →
  ly_errors (validate_resize disk disk_size partition params r l) = [] →
  layout_ok (validate_resize disk disk_size partition params r l).
Proof.
  intros [Hd Hp Hi] Hr. unfold validate_resize.
  destruct (resize_errors _ _ _ _ _ _) as [|e es] eqn:He.
  2:{ cbn [ly_errors report]. intros E. by destruct (app_nil (ly_errors l) (resize_attestations params r ++ e :: es))
        as [[_ [_ ?]%app_nil] _]. }
  cbn [ly_errors ly_mounts ly_allocated report]. intros _. unfold resize_errors in He.
  destruct (Z.leb_spec (value_i64 params "new_size_bytes" (-1)) 0) as [|Hpos]; [done|].
  apply app_nil in He as (_ & (_ & (_ & Hov)%app_nil)%app_nil). destruct (overlapping _ _ _ _) eqn:Hover; [done|].
  split; cbn.
  - apply insert_region_disjoint; [done|]. intros k r' Hk Hl Hsane Hr'. unfold sane in Hsane. cbn in Hsane.
    destruct (overlapping_None _ _ _ _ Hover k r' Hl) as [?|?]; [congruence|lia|done|..];
      unfold clear_regions; cbn; lia.
  - intros k mp Hk. destruct (decide (k = partition)) as [->|Hne]; [by rewrite lookup_insert_eq|].
    rewrite lookup_insert_ne by done. by apply (Hp k mp).
  - done.
Qed.

Lemma validate_set_mountpoint_ok partition params r l :
  layout_ok l → ly_allocated l !! partition = Some r →
  ly_errors (validate_set_mountpoint partition params r l) = [] →
  layout_ok (validate_set_mountpoint partition params r l).
Proof.
  intros [Hd Hp Hi] Hr. unfold validate_set_mountpoint. destruct (requested_mount _ _ _) as [mount merr].
  destruct (merr ++ _) as [|e es] eqn:He.
  2:{ cbn [ly_errors report]. intros E. by apply app_nil in E as [_ ?]. }
  apply app_nil in He as (_ & (_ & (_ & Hdup)%app_nil)%app_nil). rewrite when_nil in Hdup. intros _.
  split; cbn.
  - done.
  - intros k mp. destruct (is_empty mount).
    + rewrite lookup_delete_Some. intros [_ Hk]. by apply (Hp k mp).
    + rewrite lookup_insert_Some. intros [[<- _]|[_ Hk]]; [by rewrite Hr|by apply (Hp k mp)].
  - destruct (is_empty mount).
    + intros k k' mp. rewrite !lookup_delete_Some. intros [_ H1] [_ H2]. by apply (Hi _ _ mp).
    + cbn in Hdup. pose proof (assigned_to_other_false _ _ _ Hdup) as Hn. intros k k' mp.
      rewrite !lookup_insert_Some. intros [[<- <-]|[Hk H1]] [[<- E]|[Hk' H2]]; try done.
      * apply Hn in H2. congruence.
      * subst. apply Hn in H1. congruence.
      * by apply (Hi _ _ mp).
Qed.

Lemma validate_existing_ok op l :
  layout_ok l → ly_errors (validate_existing disk disk_size op l) = [] →
  layout_ok (validate_existing disk disk_size op l).
Proof.
  intros Hl. unfold validate_existing. destruct (InstallerPlan.normalize_device_path _) as [partition|].
  2:{ cbn [ly_errors report]. intros E. by apply app_nil in E as [_ ?]. }
  destruct (ly_allocated l !! partition) as [r|] eqn:Hr.
  2:{ cbn [ly_errors report]. intros E. by apply app_nil in E as [_ ?]. }
  destruct (String.eqb _ _); [by apply validate_resize_ok|].
  destruct (String.eqb _ _); [by apply validate_set_mountpoint_ok|]. intros _.
  destruct Hl as [Hd Hp Hi]. destruct (String.eqb _ _); split; cbn.
  - intros k k' r1 r2 Hne [_ H1]%lookup_delete_Some [_ H2]%lookup_delete_Some. by apply (Hd k k').
  - intros k mp [Hne Hk]%lookup_delete_Some. rewrite lookup_delete_ne by done. by apply (Hp k mp).
  - intros k k' mp [_ H1]%lookup_delete_Some [_ H2]%lookup_delete_Some. by apply (Hi _ _ mp).
  - apply insert_region_disjoint; [done|]. intros k r' Hk Hl Hs Hs'. by apply (Hd partition k r).
  - intros k mp Hk. destruct (decide (k = partition)) as [->|Hne]; [by rewrite lookup_insert_eq|].
    rewrite lookup_insert_ne by done. by apply (Hp k mp).
  - done.
Qed.

Lemma validate_op_ok op l :
  layout_ok l → ly_errors (validate_op disk disk_size last l op) = [] →
  layout_ok (validate_op disk disk_size last l op).
Proof.
  intros Hl. unfold validate_op. destruct (superseded last op); [done|].
  destruct (String.eqb (po_kind op) "new_table").
  { intros _. unfold validate_new_table. split; cbn; [|by intros; simplify_map_eq..].
    case_match; intros k k' r r' Hne; [|by intros; simplify_map_eq].
    intros [<- _]%lookup_singleton_Some [<- _]%lookup_singleton_Some. done. }
  destruct (String.eqb (po_kind op) "create"); [by apply validate_create_ok|].
  destruct (str_in _ _); [by apply validate_existing_ok|].
  cbn [ly_errors report]. intros E. by apply app_nil in E as [_ ?].
Qed.

(** Errors are only ever added. *)
Lemma validate_op_errors op l : ly_errors (validate_op disk disk_size last l op) = [] → ly_errors l = [].
Proof.
  unfold validate_op, validate_new_table, validate_create, validate_existing, validate_resize,
    validate_set_mountpoint.
  repeat case_match; cbn [ly_errors report validate_delete validate_format]; try done;
    intros E; try by apply app_nil in E as [? _].
Qed.

Lemma replay_errors ops l :
  ly_errors (fold_left (validate_op disk disk_size last) ops l) = [] → ly_errors l = [].
Proof.
  revert l. induction ops as [|op ops IH]; intros l; cbn; [done|].
  intros H%IH. by eapply validate_op_errors.
Qed.

Lemma replay_ok ops l :
  layout_ok l → ly_errors (fold_left (validate_op disk disk_size last) ops l) = [] →
  layout_ok (fold_left (validate_op disk disk_size last) ops l).
Proof.
  revert l. induction ops as [|op ops IH]; intros l Hl He; cbn in *; [done|].
  apply IH; [|done]. apply validate_op_ok; [done|]. by eapply replay_errors.
Qed.
End accepted.

Definition disjoint_parts (parts : list PartitionRecord) : Prop :=
  ∀ p p', p ∈ parts → p' ∈ parts → pr_name p ≠ pr_name p' →
    sane (part_region p) → sane (part_region p') → clear_regions (part_region p) (part_region p').

Lemma initial_regions_Some parts k r :
  initial_regions parts !! k = Some r → ∃ p, p ∈ parts ∧ pr_name p = k ∧ part_region p = r.
Proof.
  unfold initial_regions. rewrite <-fold_left_rev_right.
  assert (∀ p, p ∈ rev parts ↔ p ∈ parts) as Hrev by (intros p; rewrite !list_elem_of_In; symmetry; apply in_rev).
  setoid_rewrite <-Hrev. clear Hrev. induction (rev parts) as [|p l IH]; cbn; [by rewrite lookup_empty|].
  rewrite lookup_insert_Some. intros [[<- <-]|[_ H]].
  - exists p. split; [by left|done].
  - destruct (IH H) as (q & Hq & ?). exists q. split; [by right|done].
Qed.

Lemma initial_layout_ok parts table_type : disjoint_parts parts → layout_ok (initial_layout parts table_type).
Proof.
  intros Hd. split; cbn; [|by intros; simplify_map_eq..].
  intros k k' r r' Hne (p & Hp & <- & <-)%initial_regions_Some (p' & Hp' & <- & <-)%initial_regions_Some.
  by apply Hd.
Qed.

Lemma validate_nil j parts table_type disk_size :
  validate j parts table_type disk_size = [] →
  let l := replay j parts table_type disk_size (pj_ops j) in
  ly_errors l = [] ∧ root_errors (ly_mounts l) = []
  ∧ ∀ p, p ∈ parts → pr_current p || pr_in_use p = true →
      in_use_errors (last_mountpoint_indices j) p (pj_ops j) = [].
Proof.
  unfold validate. destruct (pj_ops j) as [|op ops]; [done|].
  intros (H1 & (H2 & H3)%app_nil)%app_nil. split_and!; [done..|].
  intros p Hp Hu. assert (p ∈ filterb (λ p, pr_current p || pr_in_use p) parts) as Hin.
  { apply elem_of_filterb. done. }
  revert H3 Hin. clear. induction (filterb _ parts) as [|q l IH]; cbn; [intros _ Hin; by apply not_elem_of_nil in Hin|].
  intros [H1 H2]%app_nil [->|Hin]%elem_of_cons; auto.
Qed.

Lemma roots_unique m k :
  roots m = [k] → m !! k = Some "/" ∧ ∀ k', m !! k' = Some "/" → k' = k.
Proof.
  intros E. assert (∀ k', k' ∈ roots m ↔ m !! k' = Some "/") as Hr.
  { intros k'. unfold roots. rewrite elem_of_filter_map. split.
    - intros ([a b] & Hin%elem_of_map_to_list & Hf). cbn in Hf. destruct (String.eqb_spec b "/"); simplify_eq. done.
    - intros Hk. exists (k', "/"). by rewrite elem_of_map_to_list. }
  rewrite E in Hr. split; [apply Hr; by left|]. intros k' Hk'%Hr. by apply list_elem_of_singleton in Hk'.
Qed.

Definition destructive_kinds : list string := ["delete"; "format"; "resize"].

Lemma in_use_untouched last p ops op :
  in_use_errors last p ops = [] → op ∈ ops → po_kind op ∈ destructive_kinds →
  InstallerPlan.normalize_device_path (value_string (po_params op) "partition") ≠ Some (pr_name p).
Proof.
  induction ops as [|o ops IH]; intros He Hin Hk; [by apply not_elem_of_nil in Hin|].
  cbn in He. apply elem_of_cons in Hin as [<-|Hin].
  - case_bool_decide as Hn; cbn in He; [|done].
    assert (str_in (po_kind op) destructive_kinds = true) as E by (by apply str_in_true).
    cbn in E. by rewrite E in He.
  - apply IH; [|done..]. case_bool_decide; cbn in He; [|done]. by repeat case_match.
Qed.

(** C13: the plan that a validated journal stands for.  When the partitions of the
    snapshot are disjoint, the layout that validation replays the journal to has
    disjoint regions, distinct mount points, on regions that exist, and exactly
    one root; and no operation of the journal that deletes, formats or resizes
    names a partition of the snapshot that is mounted or in use.  The layout is the planned one:
    the BIOS boot partition that a commit adds counts with the extent that validation
    reserves for it, and a new table is not held against the partitions in use. *)
Theorem accepted_layout (j : PartitionJournal) parts table_type disk_size :
  disjoint_parts parts → validate j parts table_type disk_size = [] →
  let l := replay j parts table_type disk_size (pj_ops j) in
  layout_ok l
  ∧ (∃ root, ly_mounts l !! root = Some "/" ∧ ∀ k, ly_mounts l !! k = Some "/" → k = root)
  ∧ ∀ p op, p ∈ parts → pr_current p || pr_in_use p = true → op ∈ pj_ops j →
      po_kind op ∈ destructive_kinds →
      InstallerPlan.normalize_device_path (value_string (po_params op) "partition") ≠ Some (pr_name p).
Proof.
  intros Hd Hv l. apply validate_nil in Hv as (He & Hr & Hu). split_and!.
  - apply replay_ok; [by apply initial_layout_ok|done].
  - unfold root_errors in Hr. destruct (roots _) as [|root [|]] eqn:E; [done| |done].
    exists root. by apply roots_unique.
  - intros p op Hp Hin Hop. by apply (in_use_untouched (last_mountpoint_indices j) p (pj_ops j)); [apply Hu|..].
Qed.

(** The layout an operation is checked against, and that it reported nothing. *)
Lemma accepted_step j parts table_type disk_size pre op post :
  validate j parts table_type disk_size = [] → pj_ops j = pre ++ op :: post →
  ly_errors (validate_op (pj_disk j) disk_size (last_mountpoint_indices j)
               (replay j parts table_type disk_size pre) op) = [].
Proof.
  intros (He & _)%validate_nil E. unfold replay in *. rewrite E, fold_left_app in He. cbn in He.
  by apply replay_errors in He.
Qed.

(** On a disk of a known size, every partition an accepted journal creates has a
    positive start and size, whole sectors, and ends within the disk; the i64
    sum of the check does not saturate. *)
Theorem accepted_create_bounds (j : PartitionJournal) parts table_type disk_size op :
  0 < disk_size < i64_max → validate j parts table_type disk_size = [] →
  op ∈ pj_ops j → po_kind op = "create" →
  let start := value_i64 (po_params op) "start_bytes" (-1) in
  let size := value_i64 (po_params op) "size_bytes" (-1) in
  0 < start ∧ 0 < size ∧ (512 | start) ∧ (512 | size) ∧ start + size <= disk_size
  ∧ sat_add_i64 start size = start + size.
Proof.
  intros HD Hv (pre & post & E)%list_elem_of_split Hk start size.
  pose proof (accepted_step _ _ _ _ _ _ _ Hv E) as He. unfold validate_op in He.
  unfold superseded in He. rewrite Hk in He. cbn [String.eqb Ascii.eqb Bool.eqb andb] in He.
  unfold validate_create in He. destruct (requested_mount _ _ _) as [mount merr]. cbn [ly_errors] in He.
  fold start size in He.
  apply app_nil in He as (_ & (_ & (Hc & _)%app_nil)%app_nil). unfold create_errors in Hc.
  apply app_nil in Hc as (Hpos & (Hin & _)%app_nil). rewrite when_nil in Hpos.
  apply orb_false_iff in Hpos as [Hs%Z.leb_gt Hz%Z.leb_gt].
  destruct (Z.ltb_spec 0 start), (Z.ltb_spec 0 size); try lia. cbn in Hin.
  apply app_nil in Hin as [Hal Hend]. rewrite when_nil in Hal, Hend.
  apply orb_false_iff in Hal as [Hal1%negb_false_iff%Z.eqb_eq Hal2%negb_false_iff%Z.eqb_eq].
  destruct (Z.ltb_spec 0 disk_size); [|lia]. cbn in Hend. apply Z.ltb_ge in Hend.
  unfold sat_add_i64, clamp_i64, i64_as_u64, i64_min, i64_max in *.
  rewrite Z.mod_small in Hend by lia.
  split_and!; [done..| | |lia|lia]; by apply Z.rem_divide.
Qed.

Record shrink_attested (fstype : string) (params : json) : Prop := {
  sa_backup : path_on_external_media (value_string params "gpt_backup_path") = true;
  sa_clean : fstype ∈ ["ntfs"; "ntfs3"] → attested params "ntfs_verified_clean" = true;
  sa_power : attested params "on_ac_power" = true;
}.

Lemma validate_shrink_preconditions_nil fstype params :
  validate_shrink_preconditions fstype params = [] ↔ shrink_attested fstype params.
Proof.
  unfold validate_shrink_preconditions. rewrite !app_nil, !when_nil, negb_false_iff.
  destruct (is_empty (value_string params "gpt_backup_path")) eqn:He.
  - split; [by intros (? & _)|]. intros [Hb _ _]. apply is_empty_true in He. by rewrite He in Hb.
  - rewrite when_nil, negb_false_iff. split.
    + intros (Hb & Hn & Hp). split; [done| |done]. intros Hf%str_in_true. rewrite Hf in Hn.
      by apply negb_false_iff in Hn.
    + intros [Hb Hn Hp]. split_and!; [done| |done]. rewrite <-str_in_true in Hn.
      destruct (str_in fstype _); [|done]. by rewrite Hn.
Qed.

(** No accepted journal shrinks a partition without the attestations: a backup
    on external media, mains power, and for NTFS a fresh clean check.  The other
    resizes it contains change no size: growing is refused. *)
Theorem accepted_shrink_attested (j : PartitionJournal) parts table_type disk_size pre op post :
  validate j parts table_type disk_size = [] → pj_ops j = pre ++ op :: post → po_kind op = "resize" →
  ∃ partition r,
    InstallerPlan.normalize_device_path (value_string (po_params op) "partition") = Some partition
    ∧ ly_allocated (replay j parts table_type disk_size pre) !! partition = Some r
    ∧ let new_size := value_i64 (po_params op) "new_size_bytes" (-1) in
      0 < new_size ∧ (512 | new_size)
      ∧ (new_size = sat_sub_i64 (rg_end r) (rg_start r) ∨ shrink_attested (rg_fs r) (po_params op)).
Proof.
  intros Hv E Hk. pose proof (accepted_step _ _ _ _ _ _ _ Hv E) as He. unfold validate_op in He.
  unfold superseded in He. rewrite Hk in He. cbn [String.eqb Ascii.eqb Bool.eqb andb str_in existsb orb] in He.
  unfold validate_existing in He. rewrite Hk in He. cbn [String.eqb Ascii.eqb Bool.eqb andb] in He.
  destruct (InstallerPlan.normalize_device_path _) as [partition|] eqn:Hn.
  2:{ cbn [report ly_errors] in He. by apply app_nil in He as [_ ?]. }
  destruct (ly_allocated _ !! partition) as [r|] eqn:Hr.
  2:{ cbn [report ly_errors] in He. by apply app_nil in He as [_ ?]. }
  exists partition, r. split_and!; [done..|]. unfold validate_resize in He.
  assert (resize_attestations (po_params op) r = []
          ∧ resize_errors (pj_disk j) disk_size partition (po_params op) r
              (replay j parts table_type disk_size pre) = []) as [Ha Hs].
  { destruct (resize_errors _ _ _ _ _ _) as [|e es]; cbn [report ly_errors] in He.
    - by apply app_nil in He as (_ & (? & _)%app_nil).
    - by apply app_nil in He as (_ & (_ & ?)%app_nil). }
  clear He. unfold resize_errors in Hs. unfold resize_attestations in Ha.
  set (new_size := value_i64 _ _ _) in *. set (current := sat_sub_i64 _ _) in *. cbn beta zeta in *.
  destruct (Z.leb_spec new_size 0); [done|]. apply app_nil in Hs as (Hal & (Hg & _)%app_nil).
  rewrite when_nil in Hal, Hg. apply negb_false_iff, Z.eqb_eq in Hal.
  split_and!; [done|by apply Z.rem_divide|].
  destruct (Z.ltb_spec 0 new_size); [|lia]. cbn in Ha.
  destruct ((current <=? 0) || (new_size <? current)) eqn:Hc.
  - right. by apply validate_shrink_preconditions_nil.
  - left. apply orb_false_iff in Hc as [Hc1%Z.leb_gt Hc2%Z.ltb_ge].
    destruct (Z.ltb_spec 0 current); [|lia]. cbn in Hg. apply Z.ltb_ge in Hg. lia.
Qed.

(** * Manual mounts are the last assignments *)

(** What the latest operation that concerns the partition says; the list is the
    journal backwards. *)
Fixpoint latest_mount (partition : string) (later_first : list PartitionOperation) : option string :=
  match later_first with
  | [] => None
  | op :: earlier =>
      let mine := String.eqb (value_string (po_params op) "partition") partition in
      let mountpoint := value_string (po_params op) "mountpoint" in
      if String.eqb (po_kind op) "new_table" then None
      else if str_in (po_kind op) ["create"; "set_mountpoint"] && mine && negb (is_empty partition) then
        if is_empty mountpoint then None else Some mountpoint
      else if String.eqb (po_kind op) "delete" && mine then None
      else latest_mount partition earlier
  end.

Lemma project_ops_app acc a b :
  project_ops acc (a ++ b) = (let? acc := project_ops acc a in project_ops acc b).
Proof.
  revert acc. induction a as [|op a IH]; intros acc; cbn; [done|].
  destruct (project_op acc op); cbn; [apply IH|done].
Qed.

Lemma assign_lookup p mp m q :
  assign p mp m !! q = if String.eqb p q then (if is_empty mp then None else Some mp) else m !! q.
Proof.
  unfold assign. destruct (String.eqb_spec p q) as [->|Hne]; case_match; by simplify_map_eq.
Qed.

Lemma project_op_assignments acc op pn q earlier :
  project_op acc op = Ok pn → pn_assignments acc !! q = latest_mount q earlier →
  pn_assignments pn !! q = latest_mount q (op :: earlier).
Proof.
  unfold project_op. intros Hp Hq. guard_inv Hp as E0. injection Hp as <-. clear E0. cbn [latest_mount str_in existsb].
  set (p := value_string (po_params op) "partition"). set (mp := value_string (po_params op) "mountpoint").
  destruct (String.eqb (po_kind op) "new_table"); [done|].
  destruct (String.eqb_spec (po_kind op) "create") as [Ek|_]; cbn.
  { rewrite Ek. cbn. destruct (is_empty p) eqn:Hp; cbn; rewrite ?assign_lookup;
      destruct (String.eqb_spec p q) as [<-|Hne]; rewrite ?Hp; done. }
  destruct (String.eqb_spec (po_kind op) "set_mountpoint") as [Ek|_]; cbn.
  { rewrite Ek. cbn. destruct (is_empty p) eqn:Hp; cbn; rewrite ?assign_lookup;
      destruct (String.eqb_spec p q) as [<-|Hne]; rewrite ?Hp; done. }
  destruct (String.eqb (po_kind op) "delete"); cbn.
  { destruct (String.eqb_spec p q) as [<-|Hne]; [by rewrite lookup_delete_eq|by rewrite lookup_delete_ne]. }
  by repeat case_match.
Qed.

Lemma project_ops_latest ops pn q :
  project_ops no_projection ops = Ok pn → pn_assignments pn !! q = latest_mount q (rev ops).
Proof.
  revert pn. induction ops as [|op ops IH] using rev_ind; intros pn.
  - intros [= <-]. done.
  - rewrite project_ops_app. intros (acc & Ha & Hb)%rbind_Ok. cbn in Hb.
    apply rbind_Ok in Hb as (pn' & Hb & [= <-]). rewrite rev_app_distr. cbn [rev app].
    eapply project_op_assignments; [done|]. by apply IH.
Qed.

(** The entries the collection keeps, in their order, with distinct mount
    points. *)
Lemma collect_manual_Ok parts pn assigned entries ms :
  collect_manual parts pn assigned entries = Ok ms →
  ((λ m, (jm_partition m, jm_mountpoint m)) <$> ms) = filterb (λ e, negb (reserved_mount (snd e))) entries
  ∧ NoDup (jm_mountpoint <$> ms)
  ∧ Forall (λ m, jm_mountpoint m ∉ assigned
                 ∧ (is_Some (discovered parts (jm_partition m)) ∨ jm_partition m ∈ pn_created pn)) ms.
Proof.
  revert assigned ms. induction entries as [|[p mp] entries IH]; intros assigned ms; cbn [collect_manual filterb].
  { intros [= <-]. split_and!; constructor. }
  cbn [snd]. destruct (reserved_mount mp); cbn [negb]; [by intros H%IH|].
  intros Hk. guard_inv Hk as E1. guard_inv Hk as E2. apply rbind_Ok in Hk as (ms' & H1 & [= <-]).
  apply IH in H1 as (He & Hn & Hf). apply bool_decide_eq_false in E2.
  assert (Forall (λ m, jm_mountpoint m ∉ assigned ∧ jm_mountpoint m ≠ mp
             ∧ (is_Some (discovered parts (jm_partition m)) ∨ jm_partition m ∈ pn_created pn)) ms') as Hf'.
  { eapply Forall_impl; [exact Hf|]. cbn. set_solver. }
  split_and!; cbn.
  - by rewrite He.
  - constructor; [|done]. intros (m & -> & Hm)%list_elem_of_fmap. rewrite Forall_forall in Hf'.
    by destruct (Hf' m Hm) as (_ & ? & _).
  - constructor; cbn; [|eapply Forall_impl; [exact Hf'|]; cbn; tauto]. split; [done|].
    apply andb_false_iff in E1 as [E1%bool_decide_eq_false|E1%negb_false_iff%bool_decide_eq_true]; [left|by right].
    by apply not_eq_None_Some.
Qed.

(** The manual mounts of a committed journal are exactly the last mount
    assignments of the partitions, the root and the EFI mount point left out;
    each partition is on the disk or was created by the journal, and none, and
    no mount point, appears twice. *)
Theorem manual_mounts_exact (j : PartitionJournal) parts ms :
  pj_committed j = true → manual_mounts j parts = Ok ms →
  (∀ p mp, (∃ m, m ∈ ms ∧ jm_partition m = p ∧ jm_mountpoint m = mp)
           ↔ latest_mount p (rev (pj_ops j)) = Some mp ∧ mp ∉ ["/"; "/boot/efi"])
  ∧ NoDup (jm_partition <$> ms) ∧ NoDup (jm_mountpoint <$> ms).
Proof.
  intros Hc. unfold manual_mounts. rewrite Hc. cbn [negb]. intros Hk. guard_inv Hk as Hd.
  apply rbind_Ok in Hk as (pn & Hp & Hk). apply collect_manual_Ok in Hk as (He & Hn & _).
  split_and!; [|apply (f_equal (fmap fst)) in He; rewrite <-list_fmap_compose in He|done].
  - intros p mp. rewrite <-(project_ops_latest _ _ p Hp), <-elem_of_btree_entries.
    transitivity ((p, mp) ∈ (λ m, (jm_partition m, jm_mountpoint m)) <$> ms).
    { rewrite list_elem_of_fmap. split.
      - intros (m & Hm & <- & <-). eauto.
      - intros (m & [= -> ->] & Hm). eauto. }
    rewrite He, elem_of_filterb, elem_of_btree_entries. cbn.
    assert (pn_assignments pn !! p = Some mp → is_empty mp = false) as Hne.
    { rewrite (project_ops_latest _ _ p Hp). generalize (rev (pj_ops j)). intros l. clear.
      induction l as [|op l IH]; cbn [latest_mount]; [done|]. repeat case_match; try done.
      by intros [= <-]. }
    unfold reserved_mount. split.
    + intros [Ha Hr]. split; [done|]. apply negb_true_iff, orb_false_iff in Hr as [_ Hr]. by apply str_in_false.
    + intros [Ha Hr]. split; [done|]. apply negb_true_iff, orb_false_iff. split; [by apply Hne|].
      by apply str_in_false.
  - change (jm_partition <$> ms) with ((fst ∘ (λ m, (jm_partition m, jm_mountpoint m))) <$> ms). rewrite He.
    pose proof (btree_entries_NoDup (pn_assignments pn)) as Hnd. revert Hnd.
    generalize (btree_entries (pn_assignments pn)). intros l. clear.
    induction l as [|e l IH]; cbn; [done|]. intros [Hx Hl]%NoDup_cons. case_match; [|by auto].
    cbn. apply NoDup_cons. split; [|by auto]. intros (e' & Heq & [Hin _]%elem_of_filterb)%list_elem_of_fmap.
    apply Hx. rewrite Heq. by apply list_elem_of_fmap_2.
Qed.

(** * Accepted journals that are not what the messages say

    The root's filesystem is checked when the mount point is assigned: a format
    queued after it may replace Btrfs by anything, and the journal is still
    accepted.  Identities are unique in the queue, but an identity that was the
    highest is given out again after its operation is removed. *)

Definition edit_part (name fs : string) (start size : Z) : PartitionRecord := {|
  pr_name := name; pr_size_bytes := size; pr_start_bytes := start; pr_fstype := fs; pr_label := EmptyString;
  pr_parttype := EmptyString; Partitions.pr_mountpoints := []; pr_efi := false; pr_current := false; pr_in_use := false;
  pr_read_only := false; pr_alongside_candidate := true; pr_ntfs_resize_candidate := false |}.

Definition edit_journal (ops : list (string * list (string * json))) : PartitionJournal :=
  fold_left (λ j e, snd (add_op (fst e) (jobject (snd e)) j)) ops
    {| pj_disk := "/dev/sda"; pj_ops := []; pj_committed := false; pj_root_partition := None;
       pj_irreversible_completed := false; pj_disk_model := None; pj_disk_serial := Some "S1";
       pj_disk_size_bytes := None |}.

Definition late_format : PartitionJournal := edit_journal
  [("set_mountpoint", [("partition", JString "/dev/sda3"); ("mountpoint", JString "/")]);
   ("format", [("partition", JString "/dev/sda3"); ("fs_type", JString "ext4")])].
Definition late_format_parts : list PartitionRecord := [edit_part "/dev/sda3" "btrfs" (96 * GiB) (31 * GiB)].

(** An accepted journal whose only root partition is formatted as ext4. *)
Theorem accepted_root_not_btrfs :
  validate late_format late_format_parts "gpt" (128 * GiB) = []
  ∧ let l := replay late_format late_format_parts "gpt" (128 * GiB) (pj_ops late_format) in
    ly_mounts l !! "/dev/sda3" = Some "/" ∧ (rg_fs <$> ly_allocated l !! "/dev/sda3") = Some "ext4".
Proof. split; [vm_compute; reflexivity|]. vm_compute. split; reflexivity. Qed.

(** A new table is accepted on a disk with a partition in use. *)
Definition busy_part : PartitionRecord := {|
  pr_name := "/dev/sda3"; pr_size_bytes := 31 * GiB; pr_start_bytes := 96 * GiB; pr_fstype := "ext4"; pr_label := EmptyString;
  pr_parttype := EmptyString; Partitions.pr_mountpoints := ["/srv"]; pr_efi := false; pr_current := false; pr_in_use := true;
  pr_read_only := false; pr_alongside_candidate := false; pr_ntfs_resize_candidate := false |}.
Example new_table_over_used_partition :
  validate (edit_journal
    [("new_table", []);
     ("create", [("start_bytes", JNumber (4 * MiB)); ("size_bytes", JNumber (40 * GiB));
                 ("fs_type", JString "btrfs"); ("mountpoint", JString "/")])]) [busy_part] "gpt" (128 * GiB) = [].
Proof. by vm_compute. Qed.

Example highest_id_reused :
  let j := edit_journal [("delete", []); ("format", [])] in
  indices j = [0; 1] ∧ fst (add_op "create" JNull (snd (remove_op 1 j))) = 1.
Proof. by vm_compute. Qed.

(** * Witnesses *)

Definition sample_edits : PartitionJournal := edit_journal
  [("resize", [("partition", JString "sda2"); ("new_size_bytes", JNumber (32 * GiB));
               ("gpt_backup_path", JString "/run/media/usb/sda.gpt"); ("on_ac_power", JBool true);
               ("ntfs_verified_clean", JBool true)]);
   ("create", [("start_bytes", JNumber (96 * GiB)); ("size_bytes", JNumber (31 * GiB));
               ("fs_type", JString "btrfs"); ("mountpoint", JString "/")]);
   ("set_mountpoint", [("partition", JString "/dev/sda1"); ("mountpoint", JString "/boot/efi")]);
   ("set_mountpoint", [("partition", JString "/dev/sda3"); ("mountpoint", JString "/srv")])].
Definition edit_parts : list PartitionRecord :=
  [edit_part "/dev/sda1" "vfat" MiB (512 * MiB); edit_part "/dev/sda2" "ntfs" GiB (64 * GiB);
   edit_part "/dev/sda3" "ext4" (65 * GiB) GiB].

Lemma edit_parts_disjoint : disjoint_parts edit_parts.
Proof.
  unfold disjoint_parts, edit_parts, clear_regions. intros p p'.
  rewrite !elem_of_cons, !elem_of_nil. intros Hp Hp' Hne _ _.
  destruct_or! Hp; destruct_or! Hp'; subst; try done; vm_compute; lia || (left; discriminate) || (right; discriminate).
Qed.

Lemma sample_edits_valid : validate sample_edits edit_parts "gpt" (128 * GiB) = [].
Proof. by vm_compute. Qed.

Lemma operation_ids_unique_witness :
  let j := fold_left stage [AddOp "create" JNull; AddOp "format" JNull; RemoveOp 0; AddOp "delete" JNull]
             (edit_journal []) in
  indices j = [1; 2] ∧ StronglySorted Z.lt (indices j).
Proof.
  split; [by vm_compute|].
  apply (operation_ids_unique (edit_journal []) [AddOp "create" JNull; AddOp "format" JNull; RemoveOp 0; AddOp "delete" JNull]);
    [reflexivity|vm_compute; reflexivity].
Defined.

Lemma accepted_layout_witness : layout_ok (replay sample_edits edit_parts "gpt" (128 * GiB) (pj_ops sample_edits)).
Proof. apply (accepted_layout sample_edits edit_parts "gpt" (128 * GiB) edit_parts_disjoint sample_edits_valid). Defined.

Definition sample_create : PartitionOperation :=
  {| po_kind := "create";
     po_params := jobject [("start_bytes", JNumber (96 * GiB)); ("size_bytes", JNumber (31 * GiB));
                           ("fs_type", JString "btrfs"); ("mountpoint", JString "/")];
     po_index := 1 |}.

Lemma accepted_create_bounds_witness : 96 * GiB + 31 * GiB <= 128 * GiB.
Proof.
  refine (proj1 (proj2 (proj2 (proj2 (proj2
    (accepted_create_bounds sample_edits edit_parts "gpt" (128 * GiB) sample_create _ sample_edits_valid _ eq_refl)))))).
  - vm_compute. split; reflexivity.
  - right. left.
Defined.

Lemma accepted_shrink_attested_witness : ∃ pre op post,
  pj_ops sample_edits = pre ++ op :: post ∧ po_kind op = "resize"
  ∧ ∃ partition r, InstallerPlan.normalize_device_path (value_string (po_params op) "partition") = Some partition
      ∧ ly_allocated (replay sample_edits edit_parts "gpt" (128 * GiB) pre) !! partition = Some r
      ∧ shrink_attested (rg_fs r) (po_params op).
Proof.
  destruct (pj_ops sample_edits) as [|op post] eqn:E; [vm_compute in E; discriminate|].
  assert (po_kind op = "resize") as Hk by (vm_compute in E; injection E as <- _; reflexivity).
  destruct (accepted_shrink_attested sample_edits edit_parts "gpt" (128 * GiB) [] op post sample_edits_valid E Hk)
    as (partition & r & Hp & Hr & _ & _ & Hs).
  exists [], op, post. split_and!; [done..|]. exists partition, r. split_and!; [done..|].
  destruct Hs as [Hs|Hs]; [exfalso|done].
  vm_compute in E. injection E as <- _. vm_compute in Hp. injection Hp as <-. vm_compute in Hr. injection Hr as <-.
  vm_compute in Hs. discriminate.
Defined.

Definition committed_edits : PartitionJournal := with_outcome true (Some "/dev/sda4") true sample_edits.
Definition srv_mount : ManualMount := {| jm_partition := "/dev/sda3"; jm_mountpoint := "/srv"; jm_fstype := "ext4" |}.

Lemma manual_mounts_exact_witness :
  manual_mounts committed_edits edit_parts = Ok [srv_mount]
  ∧ NoDup (jm_mountpoint <$> [srv_mount]).
Proof.
  assert (manual_mounts committed_edits edit_parts = Ok [srv_mount]) as E by (vm_compute; reflexivity).
  split; [exact E|]. apply (manual_mounts_exact committed_edits edit_parts [srv_mount] eq_refl E).
Defined.
