(* ===== verification/PartitionCommit.v ===== *)
(** Committing the partition editor's journal: the execution half of
    [installer_journal.rs].

    A commit validates the journal against fresh probes, stores the table,
    runs one disk tool after the other, and restores the table after a failure
    unless data was already given up.  The tools and probes may answer anything,
    depending on all that was run before; the log of what was run is the
    observable behaviour, over which the properties are stated. *)

From S2P Require Import Prelude RustStr RustOs Json FileSystem InstallerPlan StorageModel Partitions InstallerGuard.
From S2P Require Import InstallerDisk Probes ManualMounts PartitionEdits.

(** * The machine *)

(** A disk tool as its supervising loop sees it. *)
Inductive ToolPoll := ToolExited (code : option Z) | ToolRunning | ToolPollError (e : string).
Record Tool := {
  tl_spawn : result unit;
  tl_confirm : result unit;                (* writing the confirmation to its input *)
  tl_poll : nat → ToolPoll;
  tl_oversleep : nat → nat;
}.

(** How a tool that was started ended. *)
Inductive ToolEnd := Finished (code : option Z) | Killed.

Inductive CommitEvent :=
| Ran (op : DiskOperationInput) (p : DiskPlan) (end_ : ToolEnd)
| Synced (path : string)
| Published (staged target : string)
| Step (kind status target : string)
| Marker (dir stage detail : string)
| Removed (dir : string).

Record SyncFaults := { sy_open : option string; sy_sync : option string;
                       sy_open_dir : option string; sy_sync_dir : option string }.

(** Everything outside the program: what probes, tools and system calls answer
    after the events so far. *)
Class EditOs := {
  eo_runner : list CommitEvent → Runner;
  eo_exists : string → bool;
  eo_tool : list CommitEvent → DiskPlan → Tool;
  eo_now : list CommitEvent → Z;                        (* milliseconds *)
  eo_emit : list CommitEvent → result unit;             (* flushing an event to the client *)
  eo_sync : list CommitEvent → string → SyncFaults;
  eo_rename : list CommitEvent → string → string → result unit;
  eo_canonical : string → result string;
  eo_is_dir : string → bool;
  eo_tempdir : list CommitEvent → option string → result string;
  eo_locks : LockOs;
  eo_guard : GuardProbes;
}.

Record CState := {
  cs_log : list CommitEvent;
  cs_cache : gmap string (Z * json);       (* PARTITION_SNAPSHOT_CACHE *)
  cs_locks : Locks;
  cs_ops : list PartitionOperation;        (* the journal's operations *)
  cs_irreversible : bool;
}.

Definition C (A : Type) : Type := ST CState A.

Definition set_log log s := {| cs_log := log; cs_cache := cs_cache s; cs_locks := cs_locks s; cs_ops := cs_ops s;
                               cs_irreversible := cs_irreversible s |}.
Definition set_cache cache s := {| cs_log := cs_log s; cs_cache := cache; cs_locks := cs_locks s; cs_ops := cs_ops s;
                                   cs_irreversible := cs_irreversible s |}.
Definition set_locks locks s := {| cs_log := cs_log s; cs_cache := cs_cache s; cs_locks := locks; cs_ops := cs_ops s;
                                   cs_irreversible := cs_irreversible s |}.
Definition set_ops ops s := {| cs_log := cs_log s; cs_cache := cs_cache s; cs_locks := cs_locks s; cs_ops := ops;
                               cs_irreversible := cs_irreversible s |}.
Definition set_irreversible s := {| cs_log := cs_log s; cs_cache := cs_cache s; cs_locks := cs_locks s;
                                    cs_ops := cs_ops s; cs_irreversible := true |}.

Definition log (ev : CommitEvent) : C unit := λ s, (Ok tt, set_log (cs_log s ++ [ev]) s).
Definition modify (f : CState → CState) : C unit := λ s, (Ok tt, f s).
Definition asks {A} (f : CState → A) : C A := λ s, (Ok (f s), s).

Section commit.
Context {HL : LsblkDecoder} {HF : FindmntDecoder} {HJ : JsonCodec} {HO : EditOs}.

(** A probe, answered by the machine as it is now. *)
Definition probing {A} (f : Runner → result A) : C A := λ s, (f (eo_runner (cs_log s)), s).

(** * Disk tools *)

Fixpoint tool_elapsed (c : Tool) (n : nat) : Z :=
  match n with
  | O => 0
  | S n => tool_elapsed c n + 100 + Z.of_nat (tl_oversleep c n)
  end.

(** What an iteration of the polling loop decides; the timeout is in seconds. *)
Definition tool_verdict (c : Tool) (timeout : Z) (n : nat) : option (ToolEnd * result unit) :=
  match tl_poll c n with
  | ToolExited code =>
      Some (Finished code,
            if bool_decide (code = Some 0) then Ok tt
            else Err ("disk operation exited with " +:+
                      match code with Some code => show_int code | None => "a signal" end))
  | ToolPollError e => Some (Killed, Err ("could not poll disk operation: " +:+ e))
  | ToolRunning =>
      if timeout * 1000 <=? tool_elapsed c n
      then Some (Killed, Err ("disk operation timed out after " +:+ show_int timeout +:+ " seconds"))
      else None
  end.

(** How a started tool ends, and what is reported. *)
Definition supervise (c : Tool) (p : DiskPlan) : ToolEnd * result unit :=
  match (if needs_confirmation p then tl_confirm c else Ok tt) with
  | Err e => (Killed, Err ("could not confirm disk operation: " +:+ e))
  | Ok _ =>
      match poll_until (tool_verdict c (timeout_seconds p)) (poll_fuel 100 (timeout_seconds p * 1000)) 0 with
      | Some r => r
      | None => (Killed, Err EmptyString)
      end
  end.

(** [installer_disk::sync_backup] *)
Definition fault (f : option string) (what : string) : result unit :=
  match f with Some e => Err (what +:+ e) | None => Ok tt end.
Definition sync_backup (path : string) : C unit :=
  do! f <- asks (λ s, eo_sync (cs_log s) path);
  require! fault (sy_open f) "could not open partition backup for syncing: ";
  require! fault (sy_sync f) "could not sync partition backup: ";
  do! _ <- m_lift (ok_or (parent_dir path) "partition backup has no parent directory");
  require! fault (sy_open_dir f) "could not open partition backup directory: ";
  require! fault (sy_sync_dir f) "could not sync partition backup directory: ";
  log (Synced path).

Definition run_disk_operation (op : DiskOperationInput) : C unit :=
  do! p <- probing (λ r, build_disk_plan eo_exists op);
  do! tool <- asks (λ s, eo_tool (cs_log s) p);
  require! map_err (λ e, "could not execute disk operation: " +:+ e) (tl_spawn tool);
  let '(end_, r) := supervise tool p in
  do! _ <- log (Ran op p end_);
  require! r;
  match backup_path_of op with
  | Some path => sync_backup path
  | None => m_ret tt
  end.

(** * Probes *)

(** An lsblk call whose output is decoded as a document. *)
Definition lsblk_json (args : list string) (spawn_error : string → string) (failed : string)
    (invalid : string → string) (r : Runner) : result json :=
  let? output := map_err spawn_error (run_command "/usr/bin/lsblk" args) in
  guard! negb (success output) else failed;
  map_err invalid (json_decode (co_stdout output)).

Definition safe_disk (disk : string) : result string :=
  ok_or (InstallerPlan.normalize_device_path disk) "disk must be a safe device path".

Definition runtime_lsblk (disk : string) (r : Runner) : result json :=
  let? disk := safe_disk disk in
  lsblk_json ["--json"; "--bytes"; "--paths"; "--output";
              "NAME,SIZE,TYPE,FSTYPE,PARTTYPE,LABEL,MOUNTPOINT,MOUNTPOINTS,START,RO,PTTYPE"; disk]
    (λ e, "could not inspect " +:+ disk +:+ ": " +:+ e) ("lsblk could not inspect " +:+ disk)
    (λ e, "invalid lsblk snapshot for " +:+ disk +:+ ": " +:+ e) r.

Definition PARTITION_SNAPSHOT_TTL : Z := 5000.

Definition cached_runtime_lsblk (disk : string) : C json :=
  do! disk <- m_lift (safe_disk disk);
  do! hit <- asks (λ s, match cs_cache s !! disk with
                        | Some (at_, value) =>
                            if eo_now (cs_log s) - at_ <? PARTITION_SNAPSHOT_TTL then Some value else None
                        | None => None
                        end);
  match hit with
  | Some value => m_ret value
  | None =>
      do! value <- probing (runtime_lsblk disk);
      do! _ <- modify (λ s, set_cache (<[disk := (eo_now (cs_log s), value)]> (cs_cache s)) s);
      m_ret value
  end.

Definition invalidate_partition_snapshot_cache : C unit := modify (set_cache ∅).

Definition runtime_partition_records (disk : string) : C (list PartitionRecord) :=
  do! disk <- m_lift (safe_disk disk);
  do! sector_size <- probing (λ r,
    let? output := map_err (λ e, "could not probe " +:+ disk +:+ " sector size: " +:+ e)
                     (run_command "/usr/bin/blockdev" ["--getss"; disk]) in
    guard! negb (success output) else ("could not probe " +:+ disk +:+ " sector size");
    ok_or (parse_u64 (trim (co_stdout output)))
      ("blockdev returned an invalid sector size for " +:+ disk));
  do! snapshot <- cached_runtime_lsblk disk;
  m_lift (parse_partitions (json_encode snapshot) sector_size).

(** The table type and the size of the selected disk in a snapshot. *)
Definition disk_entry (disk : string) (entry : json) : option (string * Z) :=
  match field as_str "name" entry with
  | Some raw =>
      match InstallerPlan.normalize_device_path raw with
      | Some name =>
          if negb (String.eqb name disk) || negb (bool_decide (field as_str "type" entry = Some "disk")) then None
          else Some (to_ascii_lowercase (unwrap_or (field as_str "pttype" entry) EmptyString),
                     unwrap_or (field as_u64 "size" entry) 0)
      | None => None
      end
  | None => None
  end.

Definition runtime_disk_metadata (disk : string) : C (string * Z) :=
  do! disk <- m_lift (safe_disk disk);
  do! snapshot <- cached_runtime_lsblk disk;
  m_lift (ok_or (find_map (disk_entry disk) (members "blockdevices" snapshot))
            ("lsblk did not return the selected disk " +:+ disk)).

(** The partition number a node of the walk contributes; a node with a
    [blockdevices] array is only walked into. *)
Definition has_devices (v : json) : bool :=
  match field as_array "blockdevices" v with Some _ => true | None => false end.
Definition partition_descend (v : json) : list json :=
  if has_devices v then members "blockdevices" v else members "children" v.
Definition partition_number (v : json) : option (string * Z) :=
  if has_devices v then None
  else if negb (bool_decide (field as_str "type" v = Some "part")) then None
  else match field as_str "name" v, field as_u64 "partn" v with
  | Some name, Some n =>
      match InstallerPlan.normalize_device_path name with
      | Some name => if n <=? 2 ^ 32 - 1 then Some (name, n) else None
      | None => None
      end
  | _, _ => None
  end.
Definition partition_numbers (v : json) : gmap string Z :=
  fold_left (λ m e, <[fst e := snd e]> m) (filter_map partition_number (nodes partition_descend v)) ∅.

Definition runtime_partitions (r : Runner) : result (gmap string Z) :=
  rmap partition_numbers
    (lsblk_json ["--json"; "--bytes"; "--output"; "NAME,TYPE,PARTN,START,SIZE"]
       (λ e, "could not inspect partitions: " +:+ e) "lsblk could not inspect the partition table"
       (λ e, "invalid lsblk partition snapshot: " +:+ e) r).

Definition partuuid_of (disk : string) (part_num : Z) (r : Runner) : result string :=
  let? stdout := probe_text "/usr/bin/lsblk"
    ["--json"; "--bytes"; "--paths"; "--output"; "NAME,TYPE,PARTN,PARTUUID"; disk]
    (λ e, "could not probe partition identity: " +:+ e)
    "lsblk could not probe partition identity" "lsblk returned non-UTF8 output" in
  partuuid_for_partition_number stdout disk part_num.

(** The candidate a node contributes to the search for a new partition: the
    walk goes into [children] only. *)
Definition new_candidate (before : gmap string Z) (start size : Z) (v : json) : option string :=
  if negb (bool_decide (field as_str "type" v = Some "part")) then None
  else match field as_str "name" v with
  | Some raw =>
      match InstallerPlan.normalize_device_path raw with
      | Some name =>
          let start_bytes := sat_mul64 (unwrap_or (field as_u64 "start" v) 0) 512 in
          let actual_size := unwrap_or (field as_u64 "size" v) 0 in
          if bool_decide (before !! name = None) && (start_bytes =? start) && (actual_size =? size)
          then Some name else None
      | None => None
      end
  | None => None
  end.

Definition find_new_partition (disk : string) (before : gmap string Z) (start size : Z) (r : Runner)
    : result string :=
  let? disk := safe_disk disk in
  let? value := lsblk_json ["--json"; "--bytes"; "--paths"; "--output"; "NAME,TYPE,START,SIZE"; disk]
    (λ e, "could not inspect created partition: " +:+ e) "lsblk could not find the created partition"
    (λ e, "invalid lsblk partition snapshot: " +:+ e) r in
  ok_or (head (filter_map (new_candidate before start size) (nodes (members "children") value)))
    "could not find the newly created partition".

Definition part_num_of (partition : string) (parts : gmap string Z) : result Z :=
  let? partition := ok_or (InstallerPlan.normalize_device_path partition) "partition must be a safe device path" in
  ok_or (parts !! partition) ("partition " +:+ partition +:+ " was not found on the target disk").

Definition current_fs (partition : string) (parts : list PartitionRecord) : result string :=
  let? partition := ok_or (InstallerPlan.normalize_device_path partition) "partition must be a safe device path" in
  ok_or
    (match find_first (λ p, String.eqb (pr_name p) partition) parts with
     | Some p => let fs := to_ascii_lowercase (pr_fstype p) in if is_empty fs then None else Some fs
     | None => None
     end)
    ("filesystem type for " +:+ partition +:+ " is unavailable").

(** * Operations *)

Definition BIOS_BOOT_BYTES : Z := 2 * 1024 * 1024.

Fixpoint run_all (ops : list DiskOperationInput) : C unit :=
  match ops with
  | [] => m_ret tt
  | op :: ops => do! _ <- run_disk_operation op; run_all ops
  end.

Definition shrink_filesystem (partition fs : string) (new_size : Z) : C unit :=
  if str_in fs ["ntfs"; "ntfs3"] then
    run_all ((λ stage, FilesystemResize partition "ntfs" new_size stage) <$> ["check"; "info"; "dry_run"; "resize"])
  else if str_in fs ["ext2"; "ext3"; "ext4"] then
    run_all [FilesystemCheck partition; FilesystemResize partition "ext4" new_size "resize"]
  else m_lift (Err ("Shrinking " +:+ fs +:+ " filesystems is not supported by this installer.")).

(** Sets a flag of the partition that has the name now. *)
Definition flag_partition (disk partition flag : string) : C unit :=
  do! parts <- probing runtime_partitions;
  do! number <- m_lift (part_num_of partition parts);
  do! uuid <- probing (partuuid_of disk number);
  run_disk_operation (SetPartitionFlag disk number flag true uuid).

Definition execute_new_table (disk : string) (params : json) (sector_size : Z) : C string :=
  let table_type := value_string params "table_type" in
  do! _ <- run_disk_operation (CreateLabel disk (if is_empty table_type then "gpt" else table_type));
  do! _ <- (if is_empty table_type || eq_ignore_ascii_case table_type "gpt" then
              do! before <- probing runtime_partitions;
              do! _ <- run_disk_operation
                         (CreateUnformattedPartition disk (1024 * 1024) BIOS_BOOT_BYTES "biosboot" sector_size);
              do! bios <- probing (find_new_partition disk before (1024 * 1024) BIOS_BOOT_BYTES);
              flag_partition disk bios "bios_grub"
            else m_ret tt);
  m_ret disk.

(** [params[key] = value] of the operation under way. *)
Definition update_op (i : nat) (f : json → json) : C unit :=
  modify (λ s, set_ops (alter (λ op, {| po_kind := po_kind op; po_params := f (po_params op);
                                        po_index := po_index op |}) i (cs_ops s)) s).

Definition execute_create (disk : string) (i : nat) (params : json) (before : gmap string Z) (sector_size : Z)
    : C string :=
  let start := value_u64 params "start_bytes" 0 in
  let size := value_u64 params "size_bytes" 0 in
  let fs := value_string params "fs_type" in
  let label := value_string params "label" in
  do! _ <- run_disk_operation (CreatePartition disk start size fs label sector_size);
  do! created <- probing (find_new_partition disk before start size);
  do! _ <- update_op i (λ params, jset "_created_this_journal" (JBool true)
                                    (jset "partition" (JString created) params));
  do! _ <- (if String.eqb fs "linux-swap" then m_ret tt
            else run_disk_operation (FormatFilesystem created fs label disk));
  do! _ <- (if is_efi_mountpoint (value_string params "mountpoint") then flag_partition disk created "esp"
            else m_ret tt);
  m_ret created.

Definition execute_delete (disk target : string) (before : gmap string Z) : C string :=
  do! number <- m_lift (part_num_of target before);
  do! uuid <- probing (partuuid_of disk number);
  do! _ <- run_disk_operation (DeletePartition disk number uuid);
  m_ret target.

Definition execute_resize (disk target : string) (params : json) (sector_size : Z) : C string :=
  let new_size := value_u64 params "new_size_bytes" 0 in
  require! (guard! new_size =? 0
              else ("refusing resize of " +:+ target +:+ ": new_size_bytes is missing or zero"); Ok tt);
  do! live_parts <- runtime_partition_records disk;
  do! fs <- m_lift (current_fs target live_parts);
  do! start <- m_lift (ok_or
    (pr_start_bytes <$> find_first
       (λ p, String.eqb (pr_name p) (unwrap_or (InstallerPlan.normalize_device_path target) EmptyString)) live_parts)
    ("partition geometry for " +:+ target +:+ " is unavailable"));
  do! _ <- shrink_filesystem target fs new_size;
  do! _ <- modify set_irreversible;
  do! parts <- probing runtime_partitions;
  do! number <- m_lift (part_num_of target parts);
  do! uuid <- probing (partuuid_of disk number);
  do! _ <- run_disk_operation (ResizePartition disk number start new_size sector_size uuid);
  m_ret target.

(** A partition an earlier operation of this journal created. *)
Definition created_here (target : string) (op : PartitionOperation) : bool :=
  String.eqb (po_kind op) "create" && bool_decide (field as_bool "_created_this_journal" (po_params op) = Some true)
  && String.eqb (value_string (po_params op) "partition") target.

Definition execute_format (disk target : string) (ops : list PartitionOperation) (params : json) : C string :=
  do! _ <- (if existsb (created_here target) ops then m_ret tt else modify set_irreversible);
  do! _ <- run_disk_operation (FormatFilesystem target (value_string params "fs_type") (value_string params "label") disk);
  m_ret target.

Definition esp_flag_operation (mountpoint target disk : string) (parts : gmap string Z) (uuid : string)
    : result (option DiskOperationInput) :=
  if negb (is_efi_mountpoint mountpoint) then Ok None
  else
    let? number := part_num_of target parts in
    Ok (Some (SetPartitionFlag disk number "esp" true uuid)).

Definition execute_set_mountpoint (disk target : string) (params : json) (before : gmap string Z) : C string :=
  do! number <- m_lift (part_num_of target before);
  do! uuid <- probing (partuuid_of disk number);
  do! flag <- m_lift (esp_flag_operation (value_string params "mountpoint") target disk before uuid);
  do! _ <- match flag with Some op => run_disk_operation op | None => m_ret tt end;
  m_ret target.

(** [ops] is the journal's snapshot, [i] the position of the operation. *)
Definition execute_operation (disk : string) (i : nat) (op : PartitionOperation) (ops : list PartitionOperation)
    (sector_size : Z) : C string :=
  let params := po_params op in
  let target := value_string params "partition" in
  do! before <- probing runtime_partitions;
  if String.eqb (po_kind op) "new_table" then execute_new_table disk params sector_size
  else if String.eqb (po_kind op) "create" then execute_create disk i params before sector_size
  else if String.eqb (po_kind op) "delete" then execute_delete disk target before
  else if String.eqb (po_kind op) "resize" then execute_resize disk target params sector_size
  else if String.eqb (po_kind op) "format" then execute_format disk target ops params
  else if String.eqb (po_kind op) "set_mountpoint" then execute_set_mountpoint disk target params before
  else m_lift (Err ("unsupported journal operation: " +:+ po_kind op)).

(** * External backups *)

Definition device_descend (v : json) : list json := members "blockdevices" v ++ members "children" v.
Definition block_device_names (v : json) : gset string :=
  list_to_set (filter_map (λ n, match field as_str "name" n with
                                | Some name => InstallerPlan.normalize_device_path name
                                | None => None
                                end) (nodes device_descend v)).

Definition block_device_ancestry (device : string) (r : Runner) : result (gset string) :=
  let? device := ok_or (InstallerPlan.normalize_device_path device)
                   "external GPT backup must resolve to a block device" in
  let? value := lsblk_json ["--json"; "--paths"; "--inverse"; "--output"; "NAME"; device]
    (λ e, "could not verify external backup device: " +:+ e) "could not verify external backup device"
    (λ _, "could not parse external backup device tree") r in
  let devices := block_device_names value in
  guard! bool_decide (devices = ∅) else "could not identify external backup block device";
  Ok devices.

Definition shares_block_device (source target : gset string) : bool := negb (bool_decide (source ∩ target = ∅)).

(** The source of the file system below a directory, as findmnt names it. *)
Definition backup_source (parent : string) (r : Runner) : result string :=
  let? output := map_err (λ e, "could not inspect GPT backup mount: " +:+ e)
    (run_command "/usr/bin/findmnt" ["--json"; "--evaluate"; "--target"; parent; "--output"; "SOURCE"]) in
  guard! negb (success output) else "GPT backup directory is not on a mounted filesystem";
  let? mount := map_err (λ _, "could not parse GPT backup mount information") (json_decode (co_stdout output)) in
  let source := match members "filesystems" mount with
                | entry :: _ => unwrap_or (field as_str "source" entry) EmptyString
                | [] => EmptyString
                end in
  let source := unwrap_or (head (split_char "[" source)) EmptyString in
  guard! negb (starts_with "/dev/" source) else "GPT backup must be stored on an external block device";
  Ok source.

Definition publish_external_backup (staged target : string) : C unit :=
  do! r <- asks (λ s, eo_rename (cs_log s) staged target);
  require! map_err (λ e, "could not publish external GPT backup: " +:+ e) r;
  do! _ <- log (Published staged target);
  sync_backup target.

(** Where an external backup goes: its directory and the file. *)
Definition backup_destination (path : string) : result (string * string) :=
  guard! negb (path_on_external_media path)
    else "GPT backup path must be on external media (/run/media/… or /mnt/…)";
  let? name := ok_or (file_name path) "GPT backup path must name a file" in
  let? parent := ok_or (parent_dir path) "GPT backup path has no parent directory" in
  let? parent := map_err (λ e, "GPT backup directory is unavailable: " +:+ e) (eo_canonical parent) in
  guard! negb (eo_is_dir parent) || negb (path_on_external_media parent)
    else "GPT backup directory must be mounted external media";
  Ok (parent, join_path parent name).

Definition persist_external_backup (disk path : string) : C unit :=
  do! destination <- m_lift (backup_destination path);
  let '(parent, target) := destination in
  do! source <- probing (backup_source parent);
  do! source_tree <- probing (block_device_ancestry source);
  do! target_tree <- probing (block_device_ancestry disk);
  require! (guard! shares_block_device source_tree target_tree
              else "GPT backup media is on the disk being modified; choose a separate device"; Ok tt);
  do! directory <- asks (λ s, eo_tempdir (cs_log s) (Some parent));
  do! directory <- m_lift (map_err (λ e, "could not create GPT backup staging directory: " +:+ e) directory);
  let staged := join_path directory "partition-table.backup" in
  do! _ <- run_disk_operation (BackupTable disk staged);
  publish_external_backup staged target.

Fixpoint persist_backups (disk : string) (paths : list string) : C unit :=
  match paths with
  | [] => m_ret tt
  | path :: paths => do! _ <- persist_external_backup disk path; persist_backups disk paths
  end.

(** * The commit *)

(** The four answers a commit gives. *)
Inductive CommitReply :=
| Refused (errors : list string)
| RecoveryRequired (backup_dir message : string) (journal : PartitionJournal)
| Failed (irreversible : bool) (message : string) (journal : PartitionJournal)
| Done (root : option string) (journal : PartitionJournal).

Definition emit (kind status target : string) : C unit :=
  do! r <- asks (λ s, eo_emit (cs_log s));
  require! map_err (λ e, "could not flush journal event: " +:+ e) r;
  log (Step kind status target).

(** The journal as the loop has it, its outcome fields set. *)
Definition journal_now (j : PartitionJournal) (committed : bool) (root : option string) (irreversible : bool)
    : C PartitionJournal :=
  asks (λ s, with_outcome committed root irreversible (with_ops (cs_ops s) j)).

(** A failed operation: the rollback unless data is already given up. *)
Definition commit_failed (j : PartitionJournal) (dir backup kind target error : string) : C CommitReply :=
  do! _ <- invalidate_partition_snapshot_cache;
  do! irreversible <- asks cs_irreversible;
  let failed :=
    do! j' <- journal_now j (pj_committed j) (pj_root_partition j) irreversible;
    m_ret (Failed irreversible error j') in
  if irreversible then failed
  else
    let detail := "op " +:+ kind +:+ " on " +:+ target +:+ " failed: " +:+ error in
    do! _ <- log (Marker dir "started" detail);
    do! restored <- (λ s, let '(r, s') := run_disk_operation (RestoreTable (pj_disk j) backup) s in (Ok r, s'));
    match restored with
    | Err e =>
        do! _ <- log (Marker dir "completed" (detail +:+ "; partition-table rollback also failed: " +:+ e));
        do! j' <- journal_now j (pj_committed j) (pj_root_partition j) true;
        m_ret (RecoveryRequired dir (error +:+ "; partition-table rollback also failed: " +:+ e) j')
    | Ok _ =>
        do! _ <- log (Marker dir "completed" (detail +:+ "; partition table restored"));
        failed
    end.

(** The loop over the operations; [i] is the position of the next one. *)
Fixpoint commit_ops (j : PartitionJournal) (dir backup : string) (sector_size : Z) (i : nat)
    (ops : list PartitionOperation) : C CommitReply :=
  match ops with
  | [] =>
      do! irreversible <- asks cs_irreversible;
      do! j' <- asks (λ s, with_ops (cs_ops s) j);
      do! _ <- invalidate_partition_snapshot_cache;
      m_ret (Done (root_partition j') (with_outcome true (root_partition j') irreversible j'))
  | op :: ops =>
      let target := value_string (po_params op) "partition" in
      do! _ <- emit (po_kind op) "started" (if is_empty target then pj_disk j else target);
      do! snapshot <- asks cs_ops;
      do! outcome <- (λ s, let '(r, s') := execute_operation (pj_disk j) i op snapshot sector_size s in (Ok r, s'));
      match outcome with
      | Ok completed =>
          do! _ <- emit (po_kind op) "completed" completed;
          commit_ops j dir backup sector_size (S i) ops
      | Err error => commit_failed j dir backup (po_kind op) target error
      end
  end.

(** The temporary directory is removed when the commit leaves, unless it holds
    the only copy of the table. *)
Definition with_backup_dir (dir : string) (k : C CommitReply) : C CommitReply :=
  λ s, let '(r, s') := k s in
       match r with
       | Ok (RecoveryRequired _ _ _) => (r, s')
       | _ => (r, set_log (cs_log s' ++ [Removed dir]) s')
       end.

Definition backup_file (dir : string) : string := join_path dir "partition-table.backup".

(** Everything done under the disk lock. *)
Definition commit_locked (j : PartitionJournal) : C CommitReply :=
  let disk := pj_disk j in
  do! _ <- invalidate_partition_snapshot_cache;
  do! sector_size <- probing (λ r, os_logical_sector_size disk);
  do! parts <- runtime_partition_records disk;
  do! metadata <- runtime_disk_metadata disk;
  match validate j parts (fst metadata) (snd metadata) with
  | [] =>
      do! _ <- persist_backups disk (external_backup_paths j);
      do! dir <- asks (λ s, eo_tempdir (cs_log s) None);
      do! dir <- m_lift (map_err (λ e, "could not create partition backup directory: " +:+ e) dir);
      with_backup_dir dir
        (do! _ <- run_disk_operation (BackupTable disk (backup_file dir));
         commit_ops j dir (backup_file dir) sector_size 0 (pj_ops j))
  | errors => m_ret (Refused errors)
  end.

Definition with_disk_lock {A} (disk : string) (k : C A) : C A :=
  λ s, match acquire_disk_lock eo_locks false disk (cs_locks s) with
       | (locks, Err e) => (Err e, set_locks locks s)
       | (locks, Ok held) =>
           let '(r, s') := k (set_locks locks s) in
           (r, set_locks (drop_disk_lock held (cs_locks s')) s')
       end.

(** The machine when a commit of the journal starts. *)
Definition commit_state (log : list CommitEvent) (cache : gmap string (Z * json)) (locks : Locks)
    (j : PartitionJournal) : CState :=
  {| cs_log := log; cs_cache := cache; cs_locks := locks; cs_ops := pj_ops j; cs_irreversible := false |}.

Definition commit_request_with_target_guard (j : PartitionJournal) (validate_target : string → result unit)
    : C CommitReply :=
  require! validate_target (pj_disk j);
  with_disk_lock (pj_disk j) (commit_locked j).

Definition journal_identity (j : PartitionJournal) : DiskIdentity :=
  {| id_serial := pj_disk_serial j; id_model := pj_disk_model j; id_size_bytes := pj_disk_size_bytes j |}.

Definition commit_request (j : PartitionJournal) : C CommitReply :=
  let identity := journal_identity j in
  require! (guard! bool_decide (id_serial identity = None) && bool_decide (id_model identity = None)
                   && bool_decide (id_size_bytes identity = None)
              else "partition journal has no staging-time disk identity; restage the partition plan before committing";
            Ok tt);
  commit_request_with_target_guard j (λ disk, validate_target_disk_with_identity eo_guard disk identity).

(** ** The answers as documents *)

Definition op_document (op : PartitionOperation) : json :=
  jobject [("kind", JString (po_kind op)); ("params", po_params op); ("index", JNumber (po_index op))].
Definition jstring_opt (o : option string) : json := match o with Some x => JString x | None => JNull end.
Definition journal_document (j : PartitionJournal) : json :=
  jobject [("disk", JString (pj_disk j)); ("ops", JArray (op_document <$> pj_ops j));
           ("committed", JBool (pj_committed j)); ("root_partition", jstring_opt (pj_root_partition j));
           ("irreversible_completed", JBool (pj_irreversible_completed j));
           ("disk_model", jstring_opt (pj_disk_model j)); ("disk_serial", jstring_opt (pj_disk_serial j));
           ("disk_size_bytes", jopt (pj_disk_size_bytes j))].

Definition reply_document (r : CommitReply) : json :=
  match r with
  | Refused errors => jobject [("ok", JBool false); ("errors", JArray (JString <$> errors))]
  | RecoveryRequired dir message j =>
      jobject [("ok", JBool false); ("irreversible", JBool true); ("recovery_required", JBool true);
               ("backup_dir", JString dir); ("message", JString message); ("journal", journal_document j)]
  | Failed irreversible message j =>
      jobject [("ok", JBool false); ("irreversible", JBool irreversible); ("message", JString message);
               ("journal", journal_document j)]
  | Done root j => jobject [("ok", JBool true); ("root_partition", jstring_opt root); ("journal", journal_document j)]
  end.

(** ** Checking a target partition *)

(** A partition of the disk by its name: digits, after a [p] when the disk's own
    name ends in a digit. *)
Definition partition_name_matches (disk partition : string) : bool :=
  let suffix := unwrap_or (strip_prefix disk partition) EmptyString in
  let number s := negb (is_empty s) && str_all is_ascii_digit s in
  if match srev disk with String c _ => is_ascii_digit c | EmptyString => false end
  then match strip_prefix "p" suffix with Some value => number value | None => false end
  else number suffix.

Definition validate_target_request (disk partition : string) : C json :=
  λ s,
  let normalized := InstallerPlan.normalize_device_path partition in
  let answer (error : option string) :=
    Ok (jobject [("valid", JBool (bool_decide (error = None))); ("partition", jstring_opt normalized);
                 ("error", jstring_opt error)]) in
  match InstallerPlan.normalize_device_path disk, normalized with
  | Some disk, Some partition =>
      if negb (partition_name_matches disk partition) then
        (answer (Some ("Partition " +:+ partition +:+ " does not belong to the active disk " +:+ disk +:+ ".")), s)
      else
        match runtime_partition_records disk s with
        | (Ok parts, s') =>
            (answer (if existsb (λ p, String.eqb (pr_name p) partition) parts then None
                     else Some ("Partition " +:+ partition +:+ " is not present on the active disk " +:+ disk +:+ ".")), s')
        | (Err e, s') => (answer (Some e), s')
        end
  | _, _ => (answer (Some "Disk and partition must be safe device paths."), s)
  end.
End commit.

(** * Reasoning about the log *)

(** A run that keeps the operations and the flag, and adds only events of a
    kind. *)
Record extends (P : CommitEvent → Prop) (s s' : CState) : Prop := {
  ex_log : ∃ evs, cs_log s' = cs_log s ++ evs ∧ Forall P evs;
  ex_ops : cs_ops s' = cs_ops s;
  ex_flag : cs_irreversible s' = cs_irreversible s;
}.

Definition does {A} (P : CommitEvent → Prop) (c : C A) : Prop := ∀ s r s', c s = (r, s') → extends P s s'.

Lemma extends_refl P s : extends P s s.
Proof. split; [|done..]. exists []. rewrite app_nil_r. split; [done|constructor]. Qed.

Lemma extends_trans P s1 s2 s3 : extends P s1 s2 → extends P s2 s3 → extends P s1 s3.
Proof.
  intros [(a & Ha & Fa) Ho Hf] [(b & Hb & Fb) Ho' Hf']. split; [|congruence..].
  exists (a ++ b). rewrite Hb, Ha, app_assoc. split; [done|by apply Forall_app_2].
Qed.

Lemma extends_impl (P Q : CommitEvent → Prop) s s' : (∀ ev, P ev → Q ev) → extends P s s' → extends Q s s'.
Proof. intros HPQ [(a & Ha & Fa) ? ?]. split; [|done..]. exists a. split; [done|by eapply Forall_impl]. Qed.

Lemma does_impl {A} (P Q : CommitEvent → Prop) (c : C A) : (∀ ev, P ev → Q ev) → does P c → does Q c.
Proof. intros HPQ Hc s r s' Hs. eapply extends_impl; [exact HPQ|by eapply Hc]. Qed.

Lemma does_bind {A B} P (c : C A) (k : A → C B) : does P c → (∀ a, does P (k a)) → does P (m_bind c k).
Proof.
  intros Hc Hk s r s' [(a & s1 & H1 & H2)|(e & H1 & _)]%m_bind_inv; [|by eapply Hc].
  eapply extends_trans; [by eapply Hc|by eapply Hk].
Qed.

Lemma does_ret {A} P (a : A) : does P (m_ret a).
Proof. intros s r s' [= _ <-]. apply extends_refl. Qed.
Lemma does_lift {A} P (a : result A) : does P (m_lift a).
Proof. intros s r s' [= _ <-]. apply extends_refl. Qed.
Lemma does_asks {A} P (f : CState → A) : does P (asks f).
Proof. intros s r s' [= _ <-]. apply extends_refl. Qed.
Lemma does_log (P : CommitEvent → Prop) ev : P ev → does P (log ev).
Proof. intros Hp s r s' [= _ <-]. split; [|done..]. exists [ev]. split; [done|by constructor]. Qed.
Lemma does_modify P f :
  (∀ s, cs_log (f s) = cs_log s ∧ cs_ops (f s) = cs_ops s ∧ cs_irreversible (f s) = cs_irreversible s) →
  does P (modify f).
Proof.
  intros Hf s r s' [= _ <-]. destruct (Hf s) as (Hl & Ho & Hi). split; [|done..]. exists [].
  rewrite app_nil_r. split; [done|constructor].
Qed.

Create HintDb commit.
#[export] Hint Resolve does_ret does_lift does_asks : commit.
#[export] Hint Extern 2 (does _ (m_bind _ _)) => apply does_bind; [|intros] : commit.
#[export] Hint Extern 2 (does _ (log _)) => apply does_log : commit.
#[export] Hint Extern 2 (does _ (modify _)) => apply does_modify; intros; split_and!; reflexivity : commit.
#[export] Hint Extern 3 (does _ (if ?b then _ else _)) => destruct b : commit.
#[export] Hint Extern 3 (does _ (match ?x with _ => _ end)) => destruct x : commit.

Section logs.
Context {HL : LsblkDecoder} {HF : FindmntDecoder} {HJ : JsonCodec} {HO : EditOs}.

Lemma does_probing {A} P (f : Runner → result A) : does P (probing f).
Proof. intros s r s' [= _ <-]. apply extends_refl. Qed.

Lemma tool_elapsed_bound c n : 100 * Z.of_nat n <= tool_elapsed c n.
Proof. induction n as [|n IH]; cbn [tool_elapsed]; lia. Qed.

Lemma tool_verdict_None c timeout n :
  tool_verdict c timeout n = None → 100 * Z.of_nat n < timeout * 1000.
Proof.
  unfold tool_verdict. destruct (tl_poll c n); [done| |done].
  destruct (Z.leb_spec (timeout * 1000) (tool_elapsed c n)); [done|]. pose proof (tool_elapsed_bound c n). lia.
Qed.

(** A disk tool is reported as successful exactly when it exited with zero. *)
Lemma supervise_success c p : snd (supervise c p) = Ok tt ↔ fst (supervise c p) = Finished (Some 0).
Proof.
  unfold supervise. destruct (if needs_confirmation p then _ else _); [|cbn; split; done].
  generalize (poll_fuel 100 (timeout_seconds p * 1000)), 0%nat. intros fuel.
  induction fuel as [|fuel IH]; intros n; cbn [poll_until]; [cbn; split; done|].
  destruct (tool_verdict c (timeout_seconds p) n) as [v|] eqn:E; [|apply IH]. clear IH. unfold tool_verdict in E.
  destruct (tl_poll c n) as [code| |e]; [injection E as <-| |injection E as <-; cbn; split; done].
  - case_bool_decide; cbn; split; congruence.
  - destruct (_ <=? _); [|done]. injection E as <-. cbn. split; done.
Qed.

(** The events of syncing a backup, which is the last thing to be reported. *)
Lemma sync_backup_spec path s r s' :
  sync_backup path s = (r, s') → r = Ok tt ∧ s' = set_log (cs_log s ++ [Synced path]) s ∨ (∃ e, r = Err e) ∧ s' = s.
Proof.
  unfold sync_backup, asks, m_bind, m_lift. destruct (eo_sync (cs_log s) path) as [[a|] [b|] [c|] [d|]]; cbn;
    destruct (parent_dir path); cbn; intros [= <- <-]; eauto.
Qed.

Record disk_run (op : DiskOperationInput) (s : CState) (r : result unit) (s' : CState) (p : DiskPlan) (e : ToolEnd)
    (tail : list CommitEvent) : Prop := {
  dr_plan : @build_disk_plan _ (eo_runner (cs_log s)) eo_exists op = Ok p;
  dr_state : s' = set_log (cs_log s ++ Ran op p e :: tail) s;
  dr_zero : r = Ok tt → e = Finished (Some 0);
  dr_plain : backup_path_of op = None → tail = [] ∧ (e = Finished (Some 0) → r = Ok tt);
  dr_backup : ∀ path, backup_path_of op = Some path → tail = [] ∧ r ≠ Ok tt ∨ tail = [Synced path];
}.

Lemma run_disk_inv op s r s' :
  run_disk_operation op s = (r, s') →
  (s' = s ∧ ∃ e, r = Err e) ∨ ∃ p e tail, disk_run op s r s' p e tail.
Proof.
  unfold run_disk_operation, probing, asks, m_bind, m_lift.
  destruct (build_disk_plan eo_exists op) as [p|m] eqn:Hp; [|intros [= <- <-]; eauto].
  cbn. destruct (tl_spawn _) as [[]|m]; cbn; [|intros [= <- <-]; eauto].
  pose proof (supervise_success (eo_tool (cs_log s) p) p) as Hs.
  destruct (supervise _ _) as [e [[]|m]]; cbn in *.
  2:{ intros [= <- <-]. right. exists p, e, []. split; try done.
      - intros _. split; [done|]. intros He. by apply Hs in He.
      - intros path _. by left. }
  destruct (backup_path_of op) as [path|] eqn:Hb.
  - intros [[-> ->]|[[m ->] ->]]%sync_backup_spec; right.
    + exists p, e, [Synced path]. split; try done.
      * unfold set_log. cbn. by rewrite <-app_assoc.
      * intros _. by apply Hs.
      * by rewrite Hb.
      * rewrite Hb. intros path' [= <-]. by right.
    + exists p, e, []. split; try done; [by rewrite Hb|]. intros path' _. by left.
  - unfold m_ret. intros [= <- <-]. right. exists p, e, []. split; try done; [intros _; by apply Hs|by rewrite Hb].
Qed.

(** Events a tool run may add. *)
Definition of_op (op : DiskOperationInput) (ev : CommitEvent) : Prop :=
  match ev with Ran op' _ _ => op' = op | Synced path => backup_path_of op = Some path | _ => False end.

Lemma run_disk_does op : does (of_op op) (run_disk_operation op).
Proof.
  intros s r s' [[-> _]|(p & e & tail & [_ -> _ Hp Hb])]%run_disk_inv; [apply extends_refl|].
  split; [|done..]. exists (Ran op p e :: tail). split; [done|]. constructor; [done|].
  destruct (backup_path_of op) as [path|] eqn:E.
  - destruct (Hb path eq_refl) as [[-> _]| ->]; repeat constructor. cbn. by rewrite E.
  - destruct (Hp eq_refl) as [-> _]. constructor.
Qed.
End logs.
#[export] Hint Resolve does_probing : commit.

(** * What a reversible failure guarantees *)

(** An event that restoring the partition table undoes: no existing partition
    was formatted, no filesystem shrink completed. *)
Definition recoverable (ops : list PartitionOperation) (ev : CommitEvent) : Prop :=
  match ev with
  | Ran (FormatFilesystem device _ _ _) _ _ => existsb (created_here device) ops = true
  | Ran (FilesystemResize _ _ _ stage) _ e => stage = "resize" → e ≠ Finished (Some 0)
  | Ran (ResizePartition _ _ _ _ _ _) _ _ => False
  | _ => True
  end.

(** A step of the commit: the log grows, the flag is only ever set, partitions
    stay marked as created, and without the flag every event is recoverable. *)
Record executed (s s' : CState) : Prop := {
  xc_flag : cs_irreversible s = true → cs_irreversible s' = true;
  xc_created : ∀ d, existsb (created_here d) (cs_ops s) = true → existsb (created_here d) (cs_ops s') = true;
  xc_log : ∃ evs, cs_log s' = cs_log s ++ evs
           ∧ (cs_irreversible s' = false → Forall (recoverable (cs_ops s')) evs);
}.

Lemma recoverable_mono ops ops' ev :
  (∀ d, existsb (created_here d) ops = true → existsb (created_here d) ops' = true) →
  recoverable ops ev → recoverable ops' ev.
Proof. intros Hm. destruct ev as [[]| | | | |]; cbn; auto. Qed.

Lemma executed_trans s1 s2 s3 : executed s1 s2 → executed s2 s3 → executed s1 s3.
Proof.
  intros [F1 C1 (a & Ha & Ra)] [F2 C2 (b & Hb & Rb)]. split; [auto..|].
  exists (a ++ b). rewrite Hb, Ha, app_assoc. split; [done|]. intros Hf. apply Forall_app_2; [|auto].
  eapply Forall_impl; [apply Ra|by intros ev; apply recoverable_mono].
  destruct (cs_irreversible s2) eqn:E; [|done]. by rewrite F2 in Hf.
Qed.

(** A step that leaves the operations alone. *)
Definition calm (s s' : CState) : Prop := executed s s' ∧ cs_ops s' = cs_ops s.

Lemma calm_trans s1 s2 s3 : calm s1 s2 → calm s2 s3 → calm s1 s3.
Proof. intros [E1 O1] [E2 O2]. split; [by eapply executed_trans|congruence]. Qed.

Lemma extends_calm s s' : extends (recoverable (cs_ops s)) s s' → calm s s'.
Proof.
  intros [(evs & Hl & Hr) Ho Hf]. split; [|done]. split; [congruence|by rewrite Ho|]. exists evs. rewrite Ho. auto.
Qed.

(** Once the flag is set, anything goes. *)
Lemma flagged_calm P s s' : cs_irreversible s = true → extends P s s' → calm s s'.
Proof.
  intros Hi [(evs & Hl & Hr) Ho Hf]. split; [|done]. split; [congruence|by rewrite Ho|].
  exists evs. split; [done|]. congruence.
Qed.

Lemma set_irreversible_calm s : calm s (set_irreversible s).
Proof. split; [|done]. split; [done..|]. exists []. by rewrite app_nil_r. Qed.

Section rollback.
Context {HL : LsblkDecoder} {HF : FindmntDecoder} {HJ : JsonCodec} {HO : EditOs}.

Lemma run_recoverable op ops :
  (∀ p e, recoverable ops (Ran op p e)) → does (recoverable ops) (run_disk_operation op).
Proof.
  intros Hop. eapply does_impl; [|apply run_disk_does]. intros [op' p e| | | | |]; cbn; try done. intros ->. exact (Hop p e).
Qed.

Lemma run_anything op : does (λ _, True) (run_disk_operation op).
Proof. eapply does_impl; [|apply run_disk_does]. done. Qed.
#[local] Hint Extern 3 (does (recoverable _) (run_disk_operation _)) => apply run_recoverable; done : commit.
#[local] Hint Resolve run_anything : commit.

Lemma cached_does P disk : does P (cached_runtime_lsblk disk).
Proof. unfold cached_runtime_lsblk. eauto 10 with commit. Qed.
#[local] Hint Resolve cached_does : commit.

Lemma records_does P disk : does P (runtime_partition_records disk).
Proof. unfold runtime_partition_records. eauto 10 with commit. Qed.
Lemma metadata_does P disk : does P (runtime_disk_metadata disk).
Proof. unfold runtime_disk_metadata. eauto 10 with commit. Qed.
#[local] Hint Resolve records_does metadata_does : commit.

Lemma flag_partition_does ops disk partition flag : does (recoverable ops) (flag_partition disk partition flag).
Proof. unfold flag_partition. eauto 10 with commit. Qed.
#[local] Hint Resolve flag_partition_does : commit.

Lemma new_table_does ops disk params ss : does (recoverable ops) (execute_new_table disk params ss).
Proof. unfold execute_new_table. eauto 20 with commit. Qed.
Lemma delete_does ops disk target before : does (recoverable ops) (execute_delete disk target before).
Proof. unfold execute_delete. eauto 20 with commit. Qed.
Lemma set_mountpoint_does ops disk target params before :
  does (recoverable ops) (execute_set_mountpoint disk target params before).
Proof.
  unfold execute_set_mountpoint. apply does_bind; [auto with commit|intros number].
  apply does_bind; [auto with commit|intros uuid]. unfold esp_flag_operation.
  intros s r s' [(op & s1 & [Hop ->]%m_lift_inv & Hk)|(e & [_ ->]%m_lift_inv & _)]%m_bind_inv;
    [|apply extends_refl].
  revert s r s' Hk. change (does (recoverable ops) (do! _ <- match op with Some op => run_disk_operation op | None => m_ret tt end; m_ret target)).
  destruct (negb _); [injection Hop as <-; auto with commit|].
  apply rbind_Ok in Hop as (n & _ & [= <-]). auto 10 with commit.
Qed.

Lemma run_all_does P ops :
  Forall (λ op, does P (run_disk_operation op)) ops → does P (run_all ops).
Proof. induction 1; cbn; eauto with commit. Qed.

(** A run of tools that fails at the last one. *)
Lemma run_all_snoc_Err P ops op s e s' :
  Forall (λ op, does P (run_disk_operation op)) ops →
  (∀ s e s', run_disk_operation op s = (Err e, s') → extends P s s') →
  run_all (ops ++ [op]) s = (Err e, s') → extends P s s'.
Proof.
  intros Hops Hop. revert s. induction Hops as [|o ops Ho Hops IH]; intros s; cbn [run_all app].
  - intros [(a & s1 & _ & [=])|(m & Hm & [= <-])]%m_bind_inv. by eapply Hop.
  - intros [(a & s1 & H1 & H2)|(m & Hm & [= <-])]%m_bind_inv; [|by eapply Ho].
    eapply extends_trans; [by eapply Ho|by apply IH].
Qed.

Lemma failed_resize_recoverable ops device fs size stage s e s' :
  run_disk_operation (FilesystemResize device fs size stage) s = (Err e, s') → extends (recoverable ops) s s'.
Proof.
  intros [[-> _]|(p & en & tail & [_ -> _ Hp _])]%run_disk_inv; [apply extends_refl|].
  destruct (Hp eq_refl) as [-> Hz]. split; [|done..]. exists [Ran (FilesystemResize device fs size stage) p en].
  split; [done|]. repeat constructor. cbn. intros _ ->. by specialize (Hz eq_refl).
Qed.

Lemma shrink_failed ops partition fs size s e s' :
  shrink_filesystem partition fs size s = (Err e, s') → extends (recoverable ops) s s'.
Proof.
  unfold shrink_filesystem. destruct (str_in fs _).
  - intros Hk. cbn [fmap list_fmap] in Hk.
    apply (run_all_snoc_Err (recoverable ops)
             [FilesystemResize partition "ntfs" size "check"; FilesystemResize partition "ntfs" size "info";
              FilesystemResize partition "ntfs" size "dry_run"]
             (FilesystemResize partition "ntfs" size "resize") s e s');
      [|by intros; eapply failed_resize_recoverable|exact Hk].
    rewrite !Forall_cons, Forall_nil. split_and!; [apply run_recoverable..|]; done.
  - destruct (str_in fs _).
    + apply (run_all_snoc_Err (recoverable ops) [FilesystemCheck partition]
               (FilesystemResize partition "ext4" size "resize") s e s');
        [|by intros; eapply failed_resize_recoverable].
      rewrite !Forall_cons, Forall_nil. split_and!; [apply run_recoverable..|]; done.
    + intros [= _ <-]. apply extends_refl.
Qed.

Lemma shrink_does partition fs size : does (λ _, True) (shrink_filesystem partition fs size).
Proof.
  unfold shrink_filesystem. destruct (str_in fs _); [|destruct (str_in fs _); [|auto with commit]];
    apply run_all_does, Forall_forall; intros; apply run_anything.
Qed.

Lemma calm_bind {A B} (c : C A) (k : A → C B) s r s' :
  m_bind c k s = (r, s') → does (recoverable (cs_ops s)) c →
  (∀ a s1, c s = (Ok a, s1) → cs_ops s1 = cs_ops s → k a s1 = (r, s') → calm s1 s') → calm s s'.
Proof.
  intros [(a & s1 & H1 & Hk)|(e & H1 & _)]%m_bind_inv Hc Hrest.
  - eapply calm_trans; [by eapply extends_calm, Hc|]. eapply Hrest; [done| |done]. by apply (Hc _ _ _ H1).
  - by eapply extends_calm, Hc.
Qed.

(** Passes the first step of a run that only probes or runs recoverable tools. *)
Ltac calm_step Hk x :=
  eapply calm_bind; [exact Hk|solve [auto with commit]|]; clear Hk; intros x ? _ _ Hk.

Lemma resize_calm disk target params ss s r s' :
  execute_resize disk target params ss s = (r, s') → calm s s'.
Proof.
  unfold execute_resize. intros Hk. calm_step Hk u.
  calm_step Hk live.
  calm_step Hk fs.
  calm_step Hk start.
  apply m_bind_inv in Hk as [(u1 & t1 & H1 & Hk)|(e & H1 & _)].
  2:{ by eapply extends_calm, shrink_failed. }
  apply m_bind_inv in Hk as [([] & t2 & [= <-] & Hk)|(e & [=] & _)].
  apply (calm_trans _ (set_irreversible t1)).
  - destruct (shrink_does _ _ _ _ _ _ H1) as [(evs & Hl & _) Ho Hf].
    split; [|done]. split; cbn; [done|by rewrite Ho|]. by exists evs.
  - eapply (flagged_calm (λ _, True)); [done|]. eapply does_bind; [..|exact Hk]; intros; cbn beta; eauto 10 with commit.
Qed.

Lemma format_calm disk target params s r s' :
  execute_format disk target (cs_ops s) params s = (r, s') → calm s s'.
Proof.
  unfold execute_format. destruct (existsb (created_here target) (cs_ops s)) eqn:E; intros Hk.
  - eapply extends_calm, does_bind; [..|exact Hk]; [auto with commit|intros a].
    apply does_bind; [|auto with commit]. by apply run_recoverable.
  - apply m_bind_inv in Hk as [([] & s1 & [= <-] & Hk)|(e & [=] & _)].
    eapply calm_trans; [apply set_irreversible_calm|].
    eapply (flagged_calm (λ _, True)); [done|]. eapply does_bind; [..|exact Hk]; intros; cbn beta; eauto with commit.
Qed.

(** A partition that was found is a normalised path, unchanged by trimming. *)
Lemma find_new_partition_trim disk before start size r name :
  find_new_partition disk before start size r = Ok name → trim name = name.
Proof.
  unfold find_new_partition. intros Hk. apply rbind_Ok in Hk as (d & _ & Hk). apply rbind_Ok in Hk as (v & _ & Hk).
  apply ok_or_Ok in Hk. destruct (filter_map _ _) as [|n l] eqn:E; [done|]. injection Hk as ->.
  assert (name ∈ filter_map (new_candidate before start size) (nodes (members "children") v)) as Hin.
  { rewrite E. by left. }
  apply elem_of_filter_map in Hin as (x & _ & Hx). unfold new_candidate in Hx.
  destruct (negb _); [done|]. destruct (field as_str "name" x); [|done].
  destruct (InstallerPlan.normalize_device_path s) as [n'|] eqn:En; [|done].
  destruct (_ && _); [|done]. injection Hx as ->. apply normalize_device_path_sound in En as (b & _ & _ & _ & _ & Hb & _).
  by apply device_path_trim.
Qed.

(** A create request that is planned names a start, so its parameters are an
    object. *)
Lemma create_params_object disk params size fs label ss p r :
  @build_disk_plan HL r eo_exists (CreatePartition disk (value_u64 params "start_bytes" 0) size fs label ss) = Ok p →
  ∃ m, params = JObject m.
Proof.
  destruct params as [|b|n|t|t|a|m]; [..|by eauto]; unfold build_disk_plan, build_plan_with_probes, value_u64; cbn;
    intros Hk; guard_inv Hk as E; apply rbind_Ok in Hk as (l & _ & Hk); apply rbind_Ok in Hk as (e & He & _);
    unfold partition_end in He; guard_inv He as E1; discriminate He.
Qed.

Lemma alter_created (ops : list PartitionOperation) i op created m d :
  ops !! i = Some op → po_kind op = "create" → po_params op = JObject m → trim created = created →
  field as_bool "_created_this_journal" (po_params op) ≠ Some true →
  let mark op := {| po_kind := po_kind op;
                    po_params := jset "_created_this_journal" (JBool true)
                                   (jset "partition" (JString created) (po_params op));
                    po_index := po_index op |} in
  existsb (created_here created) (alter mark i ops) = true
  ∧ (existsb (created_here d) ops = true → existsb (created_here d) (alter mark i ops) = true).
Proof.
  intros Hi Hk Hp Ht Hn mark. rewrite !existsb_elem_of. split.
  - exists (mark op). split.
    + apply list_elem_of_lookup_2 with i. by rewrite list_lookup_alter_eq, Hi.
    + unfold created_here, mark. cbn [po_kind po_params]. rewrite Hk, Hp. cbn. unfold field, value_string, field, jget.
      rewrite !lookup_insert_eq. rewrite (lookup_insert_ne _ "_created_this_journal" "partition") by done.
      rewrite lookup_insert_eq. cbn. rewrite Ht. by rewrite String.eqb_refl.
  - intros (o & Ho & Hc). exists o. split; [|done]. apply list_elem_of_lookup_1 in Ho as [k Hk'].
    apply list_elem_of_lookup_2 with k. rewrite list_lookup_alter_ne; [done|]. intros ->. rewrite Hi in Hk'.
    injection Hk' as ->. unfold created_here in Hc. bool_inv. done.
Qed.

(** The state of the marks: the operations from position [i] on are those of the
    journal, which a client can not have marked. *)
Definition unmarked (op : PartitionOperation) : Prop :=
  field as_bool "_created_this_journal" (po_params op) ≠ Some true.

Lemma create_executed disk i op before ss s r s' :
  cs_ops s !! i = Some op → po_kind op = "create" → unmarked op →
  execute_create disk i (po_params op) before ss s = (r, s') →
  executed s s' ∧ ∀ k, k ≠ i → cs_ops s' !! k = cs_ops s !! k.
Proof.
  intros Hi Hkind Hu. unfold execute_create. intros Hk.
  apply m_bind_inv in Hk as [([] & s1 & H1 & Hk)|(e & H1 & _)].
  2:{ apply (run_recoverable _ (cs_ops s)) in H1; [|done]. apply extends_calm in H1 as [? ->]. done. }
  assert (∃ m, po_params op = JObject m) as [m Hm].
  { destruct (run_disk_inv _ _ _ _ H1) as [[_ [e [=]]]|(p & e & tail & [Hp _ _ _ _])]. by eapply create_params_object. }
  apply (run_recoverable _ (cs_ops s)) in H1; [|done]. pose proof (ex_ops _ _ _ H1) as Ho1.
  apply extends_calm in H1 as [H1 _]. unfold probing in Hk.
  apply m_bind_inv in Hk as [(created & s2 & H2 & Hk)|(e & [= _ <-] & _)]; [|by rewrite Ho1].
  injection H2 as H2 <-. apply find_new_partition_trim in H2.
  apply m_bind_inv in Hk as [([] & s2 & [= <-] & Hk)|(e & [=] & _)].
  set (s2 := set_ops _ s1) in Hk.
  destruct (alter_created (cs_ops s) i op created m EmptyString Hi Hkind Hm H2 Hu) as [Hc _].
  rewrite <-Ho1 in Hc. change (existsb (created_here created) (cs_ops s2) = true) in Hc.
  assert (executed s1 s2) as H3.
  { split; cbn; [done| |exists []; by rewrite app_nil_r]. intros d. rewrite Ho1.
    apply (alter_created (cs_ops s) i op created m d Hi Hkind Hm H2 Hu). }
  assert (∀ k, k ≠ i → cs_ops s2 !! k = cs_ops s !! k) as Hne.
  { intros k Hki. cbn. by rewrite list_lookup_alter_ne, Ho1 by done. }
  assert (extends (recoverable (cs_ops s2)) s2 s') as H4.
  { eapply does_bind; [..|exact Hk]; [|intros; cbn beta; auto with commit].
    destruct (String.eqb _ _); [auto with commit|]. by apply run_recoverable. }
  split; [|by rewrite (ex_ops _ _ _ H4)]. eapply executed_trans; [exact H1|].
  eapply executed_trans; [exact H3|by apply extends_calm].
Qed.

Lemma execute_operation_executed disk i op ss s r s' :
  cs_ops s !! i = Some op → unmarked op →
  execute_operation disk i op (cs_ops s) ss s = (r, s') →
  executed s s' ∧ ∀ k, k ≠ i → cs_ops s' !! k = cs_ops s !! k.
Proof.
  intros Hi Hu. unfold execute_operation, probing. intros Hk.
  apply m_bind_inv in Hk as [(before & s1 & [= _ <-] & Hk)|(e & [= _ <-] & _)];
    [|split; [by apply extends_calm, extends_refl|done]].
  destruct (String.eqb (po_kind op) "create") eqn:Ec.
  { apply String.eqb_eq in Ec as Hc. rewrite Hc in Hk. cbn [String.eqb Ascii.eqb Bool.eqb] in Hk.
    by eapply create_executed. }
  assert (calm s s') as [He ->]; [|done].
  assert (∀ c : C string, does (recoverable (cs_ops s)) c → c s = (r, s') → calm s s') as Hdoes.
  { intros c Hc Hs. by eapply extends_calm, Hc. }
  destruct (String.eqb _ "new_table"); [by eapply Hdoes; [apply new_table_does|]|].
  destruct (String.eqb _ "delete"); [by eapply Hdoes; [apply delete_does|]|].
  destruct (String.eqb _ "resize"); [by eapply resize_calm|].
  destruct (String.eqb _ "format"); [by eapply format_calm|].
  destruct (String.eqb _ "set_mountpoint"); [by eapply Hdoes; [apply set_mountpoint_does|]|].
  by eapply Hdoes; [apply does_lift|].
Qed.

(** Before the first operation: only backups of the journal's disk are run. *)
Definition tame (disk : string) (ev : CommitEvent) : Prop :=
  match ev with
  | Ran (BackupTable d _) _ _ => d = disk
  | Ran _ _ _ => False
  | Step _ _ _ | Marker _ _ _ => False
  | _ => True
  end.

Lemma run_backup_tame disk path : does (tame disk) (run_disk_operation (BackupTable disk path)).
Proof. eapply does_impl; [|apply run_disk_does]. by intros [op p e| | | | |]; cbn; try done; intros ->. Qed.

Lemma sync_tame disk path : does (tame disk) (sync_backup path).
Proof.
  intros s r s' [[_ ->]|[_ ->]]%sync_backup_spec; [|apply extends_refl]. split; [|done..].
  exists [Synced path]. split; [done|by repeat constructor].
Qed.
#[local] Hint Resolve run_backup_tame sync_tame : commit.

Lemma persist_tame disk path : does (tame disk) (persist_external_backup disk path).
Proof.
  unfold persist_external_backup, publish_external_backup. apply does_bind; [auto with commit|intros [parent target]].
  repeat (apply does_bind; [solve [auto with commit|by apply does_log]|intros; cbn beta]).
  by apply does_log.
Qed.
Lemma persist_all_tame disk paths : does (tame disk) (persist_backups disk paths).
Proof. induction paths; cbn; auto using persist_tame with commit. Qed.

(** What a commit has done when it starts the first operation. *)
Record prepared_commit (j : PartitionJournal) (s s1 : CState) (dir : string) (before : list CommitEvent)
    (p : DiskPlan) : Prop := {
  pc_valid : ∃ sa sb parts table size,
    cs_log sa = cs_log s ∧ cs_cache sa = ∅
    ∧ runtime_partition_records (pj_disk j) sa = (Ok parts, sb)
    ∧ fst (runtime_disk_metadata (pj_disk j) sb) = Ok (table, size)
    ∧ validate j parts table size = [];
  pc_before : Forall (tame (pj_disk j)) before;
  pc_external : ∀ path, path ∈ external_backup_paths j →
    ∃ parent staged target, backup_destination path = Ok (parent, target)
      ∧ Published staged target ∈ before ∧ Synced target ∈ before;
  pc_log : cs_log s1 = cs_log s ++ before ++ [Ran (BackupTable (pj_disk j) (backup_file dir)) p (Finished (Some 0));
                                              Synced (backup_file dir)];
  pc_ops : cs_ops s1 = cs_ops s;
  pc_flag : cs_irreversible s1 = cs_irreversible s;
}.

Lemma persist_Ok disk path s s' :
  persist_external_backup disk path s = (Ok tt, s') →
  ∃ parent staged target evs, backup_destination path = Ok (parent, target)
    ∧ cs_log s' = cs_log s ++ evs ∧ Published staged target ∈ evs ∧ Synced target ∈ evs.
Proof.
  unfold persist_external_backup. intros Hk.
  apply m_bind_inv in Hk as [([parent target] & s1 & [Hd ->]%m_lift_inv & Hk)|(e & _ & [=])].
  do 4 (apply m_bind_inv in Hk as [(? & ? & [= _ <-] & Hk)|(? & _ & [=])]).
  apply m_bind_inv in Hk as [(dir0 & s1 & [= _ <-] & Hk)|(e & _ & [=])].
  apply m_bind_inv in Hk as [(dir & s1 & [_ ->]%m_lift_inv & Hk)|(e & _ & [=])].
  set (staged := join_path dir _) in Hk.
  apply m_bind_inv in Hk as [([] & s1 & Hb & Hk)|(e & _ & [=])].
  apply run_backup_tame in Hb as [(a & Ha & _) _ _]. unfold publish_external_backup in Hk.
  do 2 (apply m_bind_inv in Hk as [(? & ? & [= _ <-] & Hk)|(? & _ & [=])]).
  apply m_bind_inv in Hk as [([] & s2 & [= <-] & Hk)|(e & _ & [=])].
  apply sync_backup_spec in Hk as [[_ ->]|[[e [=]] _]].
  exists parent, staged, target, (a ++ [Published staged target; Synced target]). split_and!; [done|..].
  - cbn. rewrite Ha, <-!app_assoc. done.
  - set_solver.
  - set_solver.
Qed.

Lemma persist_all_Ok disk paths s s' :
  persist_backups disk paths s = (Ok tt, s') →
  ∃ evs, cs_log s' = cs_log s ++ evs ∧ ∀ path, path ∈ paths →
    ∃ parent staged target, backup_destination path = Ok (parent, target)
      ∧ Published staged target ∈ evs ∧ Synced target ∈ evs.
Proof.
  revert s. induction paths as [|path paths IH]; intros s; cbn.
  { intros [= <-]. exists []. rewrite app_nil_r. split; [done|]. intros path Hp. by apply not_elem_of_nil in Hp. }
  intros [([] & s1 & H1 & H2)|(e & _ & [=])]%m_bind_inv.
  apply persist_Ok in H1 as (parent & staged & target & a & Hd & Ha & Hp & Hs). apply IH in H2 as (b & Hb & Hall).
  exists (a ++ b). rewrite Hb, Ha, app_assoc. split; [done|].
  intros q [->|Hq]%elem_of_cons; [|destruct (Hall q Hq) as (parent' & staged' & target' & ? & ? & ?)].
  - exists parent, staged, target. set_solver.
  - exists parent', staged', target'. set_solver.
Qed.

(** A commit that ends before the first operation. *)
Definition not_started (r : result CommitReply) : Prop :=
  match r with Err _ | Ok (Refused _) => True | _ => False end.

(** What the removal of the temporary directory adds to the log. *)
Definition leaving (r : result CommitReply) (dir : string) : list CommitEvent :=
  match r with Ok (RecoveryRequired _ _ _) => [] | _ => [Removed dir] end.

Lemma backup_taken disk path s s1 :
  run_disk_operation (BackupTable disk path) s = (Ok tt, s1) →
  ∃ p, s1 = set_log (cs_log s ++ [Ran (BackupTable disk path) p (Finished (Some 0)); Synced path]) s.
Proof.
  intros [[_ [e [=]]]|(p & e & tail & [_ -> Hz _ Hb])]%run_disk_inv. exists p. rewrite (Hz eq_refl).
  by destruct (Hb path eq_refl) as [[_ Hn]| ->].
Qed.

(** Peels off a step that adds no operation. *)
Ltac tame_step Hk x s1 H1 :=
  apply m_bind_inv in Hk as [(x & s1 & H1 & Hk)|(?e & H1 & ->)].

Lemma commit_locked_inv j s r s' :
  commit_locked j s = (r, s') →
  extends (tame (pj_disk j)) s s' ∧ not_started r
  ∨ ∃ s1 s2 dir before p ss,
      prepared_commit j s s1 dir before p
      ∧ commit_ops j dir (backup_file dir) ss 0 (pj_ops j) s1 = (r, s2)
      ∧ s' = set_log (cs_log s2 ++ leaving r dir) s2.
Proof.
  unfold commit_locked. intros Hk.
  apply m_bind_inv in Hk as [([] & s0 & [= <-] & Hk)|(e & [=] & _)].
  assert (extends (tame (pj_disk j)) s (set_cache ∅ s)) as E0.
  { split; [|done..]. exists []. by rewrite app_nil_r. }
  apply m_bind_inv in Hk as [(ss & s0 & [= _ <-] & Hk)|(e & [= _ <-] & ->)]; [|by left].
  apply m_bind_inv in Hk as [(parts & sb & Hparts & Hk)|(e & Hparts & ->)].
  2:{ left. split; [|done]. eapply extends_trans; [exact E0|by eapply records_does]. }
  pose proof (records_does (tame (pj_disk j)) _ _ _ _ Hparts) as Eb.
  apply m_bind_inv in Hk as [([table size] & sc & Hmeta & Hk)|(e & Hmeta & ->)].
  2:{ left. split; [|done]. eapply extends_trans; [exact E0|]. eapply extends_trans; [exact Eb|by eapply metadata_does]. }
  pose proof (metadata_does (tame (pj_disk j)) _ _ _ _ Hmeta) as Ec.
  assert (extends (tame (pj_disk j)) s sc) as Es by (by do 2 (eapply extends_trans; [done|])).
  cbn [fst snd] in Hk. destruct (validate j parts table size) as [|err errs] eqn:Hv.
  2:{ injection Hk as <- <-. by left. }
  apply m_bind_inv in Hk as [([] & sd & Hper & Hk)|(e & Hper & ->)].
  2:{ left. split; [|done]. eapply extends_trans; [exact Es|by eapply persist_all_tame]. }
  pose proof (persist_all_tame _ _ _ _ _ Hper) as Ed. apply persist_all_Ok in Hper as (evs & Hevs & Hext).
  apply m_bind_inv in Hk as [(dir0 & s0 & [= _ <-] & Hk)|(e & [=] & _)].
  apply m_bind_inv in Hk as [(dir & s0 & [_ ->]%m_lift_inv & Hk)|(e & [_ ->]%m_lift_inv & ->)].
  2:{ left. split; [|done]. by eapply extends_trans. }
  assert (extends (tame (pj_disk j)) s sd) as Es2 by (by eapply extends_trans).
  unfold with_backup_dir in Hk. destruct (m_bind _ _ sd) as [r1 s2] eqn:Hrun.
  assert (r1 = r ∧ s' = set_log (cs_log s2 ++ leaving r dir) s2) as [-> ->].
  { unfold leaving. destruct r1 as [[]|]; injection Hk as <- <-; split; try done. rewrite app_nil_r.
    by destruct s2. }
  clear Hk. apply m_bind_inv in Hrun as [([] & s1 & Hb & Hrun)|(e & Hb & ->)].
  2:{ left. split; [|done]. eapply extends_trans; [exact Es2|]. eapply extends_trans; [by eapply run_backup_tame|].
      split; [|done..]. exists [Removed dir]. split; [done|by repeat constructor]. }
  right. apply backup_taken in Hb as [p ->].
  destruct Es as [(a & Ha & Fa) Oa Ia]. destruct Ed as [(b & Hb & Fb) Ob Ib].
  assert (evs = b) as -> by (rewrite Hb in Hevs; by apply app_inv_head in Hevs).
  exists (set_log (cs_log sd ++ [Ran (BackupTable (pj_disk j) (backup_file dir)) p (Finished (Some 0));
                                 Synced (backup_file dir)]) sd), s2, dir, (a ++ b), p, ss.
  split; [|done].
  split; [|by apply Forall_app_2| |cbn; by rewrite Hb, Ha, <-!app_assoc|cbn; congruence..].
  - exists (set_cache ∅ s), sb, parts, table, size. rewrite Hmeta. done.
  - intros path (parent & staged & target & Hd & Hp & Hs)%Hext. exists parent, staged, target.
    split_and!; [done|apply elem_of_app; by right..].
Qed.

Lemma commit_request_inv j s r s' :
  commit_request j s = (r, s') →
  extends (tame (pj_disk j)) s s' ∧ not_started r
  ∨ validate_target_disk_with_identity eo_guard (pj_disk j) (journal_identity j) = Ok tt
    ∧ (is_Some (pj_disk_serial j) ∨ is_Some (pj_disk_model j) ∨ is_Some (pj_disk_size_bytes j))
    ∧ ∃ s0 s1 s2 dir before p ss,
      cs_log s0 = cs_log s ∧ cs_ops s0 = cs_ops s ∧ cs_irreversible s0 = cs_irreversible s
      ∧ prepared_commit j s0 s1 dir before p
      ∧ commit_ops j dir (backup_file dir) ss 0 (pj_ops j) s1 = (r, s2)
      ∧ cs_log s' = cs_log s2 ++ leaving r dir.
Proof.
  unfold commit_request, commit_request_with_target_guard. intros Hk.
  apply m_bind_inv in Hk as [([] & s0 & [Hid ->]%m_lift_inv & Hk)|(e & [_ ->]%m_lift_inv & ->)];
    [|left; split; [apply extends_refl|done]].
  apply m_bind_inv in Hk as [([] & s0 & [Hg ->]%m_lift_inv & Hk)|(e & [_ ->]%m_lift_inv & ->)];
    [|left; split; [apply extends_refl|done]].
  unfold with_disk_lock in Hk. destruct (acquire_disk_lock _ _ _ _) as [locks [held|e]].
  2:{ injection Hk as <- <-. left. split; [|done]. split; [|done..]. exists []. by rewrite app_nil_r. }
  destruct (commit_locked j (set_locks locks s)) as [r1 s1] eqn:Hc. injection Hk as <- <-.
  apply commit_locked_inv in Hc as [[[Hl Ho Hf] Hr]|(s3 & s2 & dir & before & p & ss & Hp & Hops & ->)].
  - left. by split.
  - right. split_and!; [done| |].
    + guard_inv Hid as E. cbn in E. rewrite !andb_false_iff, !bool_decide_eq_false, !not_eq_None_Some in E. tauto.
    + by exists (set_locks locks s), s3, s2, dir, before, p, ss.
Qed.

(** ** Runs that may mark operations *)

(** Like [does], for code that also changes the flag or the operations. *)
Definition logs {A} (P : CommitEvent → Prop) (c : C A) : Prop :=
  ∀ s r s', c s = (r, s') → ∃ evs, cs_log s' = cs_log s ++ evs ∧ Forall P evs.

Lemma logs_bind {A B} P (c : C A) (k : A → C B) : logs P c → (∀ a, logs P (k a)) → logs P (m_bind c k).
Proof.
  intros Hc Hk s r s' [(a & s1 & H1 & H2)|(e & H1 & _)]%m_bind_inv; [|by eapply Hc].
  apply Hc in H1 as (u & Hu & Fu). apply Hk in H2 as (v & Hv & Fv). exists (u ++ v).
  rewrite Hv, Hu, app_assoc. split; [done|by apply Forall_app_2].
Qed.

Lemma does_logs {A} P (c : C A) : does P c → logs P c.
Proof. intros Hc s r s' [(evs & Hl & Hf) _ _]%Hc. eauto. Qed.

Lemma modify_logs P f : (∀ s, cs_log (f s) = cs_log s) → logs P (modify f).
Proof. intros Hf s r s' [= _ <-]. exists []. rewrite Hf, app_nil_r. split; [done|constructor]. Qed.

(** Running a computation and looking at its result. *)
Lemma caught_logs {A} P (c : C A) : logs P c → logs P (λ s, let '(r, s') := c s in (Ok r, s')).
Proof. intros Hc s r s' Hs. destruct (c s) as [r1 s1] eqn:E. injection Hs as <- <-. by eapply Hc. Qed.

(** Everything but the step reports. *)
Definition silent (ev : CommitEvent) : Prop := match ev with Step _ _ _ => False | _ => True end.

Lemma run_silent op : does silent (run_disk_operation op).
Proof. eapply does_impl; [|apply run_disk_does]. by intros [| | | | |]. Qed.
Lemma shrink_silent partition fs size : does silent (shrink_filesystem partition fs size).
Proof.
  unfold shrink_filesystem. destruct (str_in fs _); [|destruct (str_in fs _); [|auto with commit]];
    apply run_all_does, Forall_forall; intros; apply run_silent.
Qed.
#[local] Hint Resolve run_silent shrink_silent : commit.

Ltac step_logs :=
  repeat (first [apply does_logs; solve [eauto 10 with commit|by apply does_log]
                |apply modify_logs; done
                |apply logs_bind; [|intros]]).

Lemma execute_silent disk i op ops ss : logs silent (execute_operation disk i op ops ss).
Proof.
  unfold execute_operation, execute_new_table, execute_create, execute_delete, execute_resize, execute_format,
    execute_set_mountpoint, flag_partition, update_op.
  apply logs_bind; [step_logs|intros before].
  repeat (destruct (String.eqb (po_kind op) _); [step_logs; repeat case_match; step_logs|]). step_logs.
Qed.

Lemma commit_failed_silent j dir backup kind target error :
  logs silent (commit_failed j dir backup kind target error).
Proof.
  unfold commit_failed, invalidate_partition_snapshot_cache, journal_now.
  apply logs_bind; [step_logs|intros _]. apply logs_bind; [step_logs|intros irreversible].
  destruct irreversible; [step_logs|]. apply logs_bind; [step_logs|intros _].
  apply logs_bind; [apply caught_logs, does_logs, run_silent|intros [r|e]]; step_logs.
Qed.

Lemma emit_does (P : CommitEvent → Prop) kind status target :
  P (Step kind status target) → does P (emit kind status target).
Proof. intros. unfold emit. repeat (apply does_bind; [auto with commit|intros]). by apply does_log. Qed.

Lemma logs_impl {A} (P Q : CommitEvent → Prop) (c : C A) : (∀ ev, P ev → Q ev) → logs P c → logs Q c.
Proof. intros HPQ Hc s r s' (evs & Hl & Hf)%Hc. exists evs. split; [done|by eapply Forall_impl]. Qed.

Lemma commit_ops_logs j dir backup ss i ops : logs (λ _, True) (commit_ops j dir backup ss i ops).
Proof.
  revert i. induction ops as [|op ops IH]; intros i; cbn [commit_ops].
  { unfold invalidate_partition_snapshot_cache. step_logs. }
  apply logs_bind; [by apply does_logs, emit_does|intros _]. apply logs_bind; [step_logs|intros snapshot].
  apply logs_bind; [eapply caught_logs, logs_impl, execute_silent; done|intros [completed|error]].
  - apply logs_bind; [by apply does_logs, emit_does|intros _]. apply IH.
  - eapply logs_impl, commit_failed_silent; done.
Qed.

Lemma backup_before_tools j s r s' pre op p e post :
  commit_request j s = (r, s') → cs_log s' = cs_log s ++ pre ++ Ran op p e :: post →
  (∀ d b, op ≠ BackupTable d b) →
  validate_target_disk_with_identity eo_guard (pj_disk j) (journal_identity j) = Ok tt
  ∧ (is_Some (pj_disk_serial j) ∨ is_Some (pj_disk_model j) ∨ is_Some (pj_disk_size_bytes j))
  ∧ (∃ sa sb parts table size, cs_log sa = cs_log s ∧ cs_cache sa = ∅
      ∧ runtime_partition_records (pj_disk j) sa = (Ok parts, sb)
      ∧ fst (runtime_disk_metadata (pj_disk j) sb) = Ok (table, size)
      ∧ validate j parts table size = [])
  ∧ ∃ dir before p0 after,
      pre = before ++ [Ran (BackupTable (pj_disk j) (backup_file dir)) p0 (Finished (Some 0));
                       Synced (backup_file dir)] ++ after
      ∧ ∀ path, path ∈ external_backup_paths j →
          ∃ parent staged target, backup_destination path = Ok (parent, target)
            ∧ Published staged target ∈ before ∧ Synced target ∈ before.
Proof.
  intros Hc Hlog Hop.
  assert (∀ evs, Forall (tame (pj_disk j)) evs → Ran op p e ∉ evs) as Hnot.
  { intros evs Hf Hin. rewrite Forall_forall in Hf. specialize (Hf _ Hin). cbn in Hf. destruct op; try done.
    by eapply Hop. }
  apply commit_request_inv in Hc as [[[(evs & Hl & Hf) _ _] _]|
    (Hg & Hid & s0 & s1 & s2 & dir & before & p0 & ss & Hl0 & _ & _ & [Hv Hb Hx Hl _ _] & Hops & Hl')].
  { rewrite Hl in Hlog. apply app_inv_head in Hlog. subst evs. apply Hnot in Hf. set_solver. }
  split_and!; [done..| |].
  { destruct Hv as (sa & sb & parts & table & size & ? & ?). exists sa, sb, parts, table, size. by rewrite <-Hl0. }
  apply commit_ops_logs in Hops as (evs & Hevs & _).
  rewrite Hl', Hevs, Hl, Hl0, <-!app_assoc in Hlog. apply app_inv_head in Hlog.
  rewrite (app_assoc before) in Hlog. apply app_split in Hlog as [after ->].
  - exists dir, before, p0, after. by rewrite <-app_assoc.
  - rewrite elem_of_app. intros [Hin|Hin]; [by eapply Hnot|].
    apply elem_of_cons in Hin as [[= -> _ _]|Hin%list_elem_of_singleton]; [by eapply Hop|done].
Qed.

(** C12: nothing is changed before the table is saved.  Whenever a commit runs
    a disk tool other than a backup, the target passed the guard with a recorded
    identity, the journal validated against fresh probes of the disk, every
    external backup it names was published and synced, and the table had been
    saved to a file that is synced and not removed. *)
Theorem commit_backs_up_first j s r s' pre op p e post :
  commit_request j s = (r, s') → cs_log s' = cs_log s ++ pre ++ Ran op p e :: post →
  (∀ d b, op ≠ BackupTable d b) →
  validate_target_disk_with_identity eo_guard (pj_disk j) (journal_identity j) = Ok tt
  ∧ (is_Some (pj_disk_serial j) ∨ is_Some (pj_disk_model j) ∨ is_Some (pj_disk_size_bytes j))
  ∧ (∃ sa sb parts table size, cs_log sa = cs_log s ∧ cs_cache sa = ∅
      ∧ runtime_partition_records (pj_disk j) sa = (Ok parts, sb)
      ∧ fst (runtime_disk_metadata (pj_disk j) sb) = Ok (table, size)
      ∧ validate j parts table size = [])
  ∧ ∃ dir before p0 after,
      pre = before ++ [Ran (BackupTable (pj_disk j) (backup_file dir)) p0 (Finished (Some 0));
                       Synced (backup_file dir)] ++ after
      ∧ ∀ path, path ∈ external_backup_paths j →
          ∃ parent staged target, backup_destination path = Ok (parent, target)
            ∧ Published staged target ∈ before ∧ Synced target ∈ before.
Proof. apply backup_before_tools. Qed.

(** A rollback that worked: bracketed by its markers, the tool exited with
    zero. *)
Definition rolled_back (disk dir backup : string) (evs : list CommitEvent) : Prop :=
  ∃ p d1 d2, evs = [Marker dir "started" d1; Ran (RestoreTable disk backup) p (Finished (Some 0));
                    Marker dir "completed" d2].

Lemma commit_failed_reversible j dir backup kind target error s msg j' s' :
  commit_failed j dir backup kind target error s = (Ok (Failed false msg j'), s') →
  cs_irreversible s = false ∧ pj_ops j' = cs_ops s
  ∧ ∃ evs, cs_log s' = cs_log s ++ evs ∧ rolled_back (pj_disk j) dir backup evs.
Proof.
  unfold commit_failed. intros Hk.
  apply m_bind_inv in Hk as [([] & s1 & [= <-] & Hk)|(e & [=] & _)].
  apply m_bind_inv in Hk as [(fl & s1 & [= <- <-] & Hk)|(e & [=] & _)].
  cbn [cs_irreversible set_cache] in Hk. destruct (cs_irreversible s) eqn:Hf; [by injection Hk|].
  apply m_bind_inv in Hk as [([] & s1 & [= <-] & Hk)|(e & [=] & _)].
  apply m_bind_inv in Hk as [(restored & s1 & H1 & Hk)|(e & H1 & _)].
  2:{ by destruct (run_disk_operation _ _) in H1. }
  destruct (run_disk_operation _ _) as [r1 s2] eqn:Hr in H1. injection H1 as <- <-.
  destruct r1 as [[]|e]; [|by injection Hk].
  apply run_disk_inv in Hr as [[_ [e [=]]]|(p & en & tail & [_ -> Hz Hp _])].
  destruct (Hp eq_refl) as [-> _]. rewrite (Hz eq_refl) in Hk. injection Hk as <- <- <-.
  split_and!; [done..|]. eexists. cbn. rewrite <-!app_assoc. split; [reflexivity|]. by eexists _, _, _.
Qed.

Lemma commit_ops_reversible j dir backup ss i ops s msg j' s' :
  (∀ k, cs_ops s !! (i + k)%nat = ops !! k) → Forall unmarked ops →
  commit_ops j dir backup ss i ops s = (Ok (Failed false msg j'), s') →
  ∃ t tail, executed s t ∧ cs_irreversible t = false ∧ cs_ops t = pj_ops j'
    ∧ cs_log s' = cs_log t ++ tail ∧ rolled_back (pj_disk j) dir backup tail.
Proof.
  revert i s. induction ops as [|op ops IH]; intros i s Hops Hu Hk; [by injection Hk|]. cbn [commit_ops] in Hk.
  apply Forall_cons in Hu as [Hu Hus].
  assert (∀ kind status target ops, does (recoverable ops) (emit kind status target)) as Hemit.
  { intros. by apply emit_does. }
  apply m_bind_inv in Hk as [([] & s1 & H1 & Hk)|(e & H1 & [=])].
  apply (Hemit _ _ _ (cs_ops s)), extends_calm in H1 as [X1 O1].
  apply m_bind_inv in Hk as [(snap & s0 & [= <- <-] & Hk)|(e & [=] & _)].
  apply m_bind_inv in Hk as [(outcome & s2 & H2 & Hk)|(e & H2 & _)].
  2:{ by destruct (execute_operation _ _ _ _ _ _) in H2. }
  destruct (execute_operation _ _ _ _ _ _) as [r2 s3] eqn:Hx in H2. injection H2 as <- <-.
  apply execute_operation_executed in Hx as [X2 Hne]; [|rewrite O1, <-(Nat.add_0_r i); apply Hops|done].
  assert (executed s s3) as X by (by eapply executed_trans).
  destruct r2 as [completed|error].
  - apply m_bind_inv in Hk as [([] & s4 & H4 & Hk)|(e & H4 & [=])].
    apply (Hemit _ _ _ (cs_ops s3)), extends_calm in H4 as [X4 O4].
    apply IH in Hk as (t & tail & Xt & Hrest); [| |done].
    + exists t, tail. split; [|done]. eapply executed_trans; [exact X|]. by eapply executed_trans.
    + intros k. rewrite O4, Hne, O1 by lia. specialize (Hops (S k)). cbn in Hops.
      by rewrite Nat.add_succ_r in Hops.
  - apply commit_failed_reversible in Hk as (Hf & Ho & tail & Hl & Ht). by exists s3, tail.
Qed.

Lemma failure_reversed j s msg j' s' :
  Forall unmarked (pj_ops j) → cs_ops s = pj_ops j → cs_irreversible s = false →
  commit_request j s = (Ok (Failed false msg j'), s') →
  ∃ dir before p0 after tail,
    cs_log s' = cs_log s ++ before
      ++ [Ran (BackupTable (pj_disk j) (backup_file dir)) p0 (Finished (Some 0)); Synced (backup_file dir)]
      ++ after ++ tail ++ [Removed dir]
    ∧ Forall (tame (pj_disk j)) before ∧ Forall (recoverable (pj_ops j')) after
    ∧ rolled_back (pj_disk j) dir (backup_file dir) tail.
Proof.
  intros Hu Hs Hi Hc. apply commit_request_inv in Hc as [[_ []]|
    (_ & _ & s0 & s1 & s2 & dir & before & p0 & ss & Hl0 & Ho0 & _ & [_ Hb _ Hl Ho _] & Hops & Hl')].
  apply commit_ops_reversible in Hops as (t & tail & [_ _ (after & Ha & Hr)] & Hf & Hot & Hlt & Ht).
  - exists dir, before, p0, after, tail. rewrite Hl', Hlt, Ha, Hl, Hl0, <-!app_assoc, <-Hot. auto.
  - intros k. by rewrite Ho, Ho0, Hs.
  - done.
Qed.

(** A failure that is reported as reversible has been reversed.  The
    partition table saved before the first operation was restored by a tool that
    exited with zero, and until then no existing partition was formatted and no
    filesystem shrink completed: every format was of a partition this journal
    created.  The journal's own parameters do not claim such creations. *)
Theorem reversible_failure j s msg j' s' :
  Forall unmarked (pj_ops j) → cs_ops s = pj_ops j → cs_irreversible s = false →
  commit_request j s = (Ok (Failed false msg j'), s') →
  ∃ dir before p0 after tail,
    cs_log s' = cs_log s ++ before
      ++ [Ran (BackupTable (pj_disk j) (backup_file dir)) p0 (Finished (Some 0)); Synced (backup_file dir)]
      ++ after ++ tail ++ [Removed dir]
    ∧ Forall (tame (pj_disk j)) before ∧ Forall (recoverable (pj_ops j')) after
    ∧ rolled_back (pj_disk j) dir (backup_file dir) tail.
Proof. apply failure_reversed. Qed.

(** The operations a log reports, with what is reported of them. *)
Definition steps (evs : list CommitEvent) : list (string * string) :=
  filter_map (λ ev, match ev with Step kind status _ => Some (kind, status) | _ => None end) evs.
Definition reported (op : PartitionOperation) : list (string * string) :=
  [(po_kind op, "started"); (po_kind op, "completed")].

Lemma steps_silent evs : Forall silent evs → steps evs = [].
Proof. induction 1 as [|ev evs Hev _ IH]; [done|]. by destruct ev. Qed.

Lemma emit_Ok kind status target s s' :
  emit kind status target s = (Ok tt, s') → cs_log s' = cs_log s ++ [Step kind status target].
Proof.
  unfold emit. intros Hk. apply m_bind_inv in Hk as [(x & s1 & [= _ <-] & Hk)|(e & _ & [=])].
  apply m_bind_inv in Hk as [([] & s1 & [_ ->]%m_lift_inv & Hk)|(e & _ & [=])]. by injection Hk as <-.
Qed.

Lemma commit_failed_not_done j dir backup kind target error s root j' s' :
  commit_failed j dir backup kind target error s ≠ (Ok (Done root j'), s').
Proof.
  unfold commit_failed. intros Hk. apply m_bind_inv in Hk as [([] & s1 & _ & Hk)|(e & _ & [=])].
  apply m_bind_inv in Hk as [(fl & s2 & _ & Hk)|(e & _ & [=])]. destruct fl; [by injection Hk|].
  apply m_bind_inv in Hk as [([] & s3 & _ & Hk)|(e & _ & [=])].
  apply m_bind_inv in Hk as [([r|e] & s4 & _ & Hk)|(e & _ & [=])]; by injection Hk.
Qed.

Lemma commit_ops_done j dir backup ss i ops s root j' s' :
  commit_ops j dir backup ss i ops s = (Ok (Done root j'), s') →
  ∃ evs, cs_log s' = cs_log s ++ evs ∧ steps evs = flat_map reported ops
    ∧ pj_committed j' = true ∧ pj_root_partition j' = root ∧ root = root_partition j'.
Proof.
  revert i s. induction ops as [|op ops IH]; intros i s; cbn [commit_ops].
  { intros [= <- <- <-]. exists []. cbn. by rewrite app_nil_r. }
  intros [([] & s1 & H1%emit_Ok & Hk)|(e & _ & [=])]%m_bind_inv.
  apply m_bind_inv in Hk as [(snap & s0 & [= <- <-] & Hk)|(e & [=] & _)].
  apply m_bind_inv in Hk as [(outcome & s2 & H2 & Hk)|(e & H2 & [=])].
  destruct (execute_operation _ _ _ _ _ _) as [r2 s3] eqn:Hx in H2. injection H2 as <- <-.
  apply execute_silent in Hx as (a & Ha & Fa).
  destruct r2 as [completed|error]; [|by apply commit_failed_not_done in Hk].
  apply m_bind_inv in Hk as [([] & s4 & H4%emit_Ok & Hk)|(e & _ & [=])].
  apply IH in Hk as (b & Hb & Hs & Hrest).
  eexists. rewrite Hb, H4, Ha, H1, <-!app_assoc. split; [reflexivity|]. split; [|done].
  apply steps_silent in Fa. unfold steps in *. cbn. f_equal. rewrite !filter_map_app. cbn. by rewrite Fa, Hs.
Qed.

(** A commit that reports success ran every operation of the journal to its
    end, in order and once each. *)
Theorem commit_complete j s root j' s' :
  commit_request j s = (Ok (Done root j'), s') →
  ∃ evs, cs_log s' = cs_log s ++ evs ∧ steps evs = flat_map reported (pj_ops j)
    ∧ pj_committed j' = true ∧ pj_root_partition j' = root ∧ root = root_partition j'.
Proof.
  intros Hc. apply commit_request_inv in Hc as [[_ []]|
    (_ & _ & s0 & s1 & s2 & dir & before & p0 & ss & Hl0 & _ & _ & [_ Hb _ Hl _ _] & Hops & Hl')].
  apply commit_ops_done in Hops as (evs & Hevs & Hs & Hrest).
  eexists. rewrite Hl', Hevs, Hl, Hl0, <-!app_assoc. split; [reflexivity|]. split; [|done].
  unfold steps in *. rewrite !filter_map_app. cbn. rewrite Hs, app_nil_r.
  assert (filter_map (λ ev, match ev with Step kind status _ => Some (kind, status) | _ => None end) before = [])
    as ->; [|done].
  apply steps_silent. eapply Forall_impl; [exact Hb|]. by intros [].
Qed.

(** ** Findings *)

(** The document lsblk prints: one object with one member, the devices. *)
Definition lsblk_document (v : json) : Prop := ∃ devices, v = JObject {["blockdevices" := JArray devices]}.

(** Whatever is installed as lsblk prints such documents. *)
Definition lsblk_prints_devices : Prop :=
  ∀ evs args o v, @run_command (eo_runner evs) "/usr/bin/lsblk" args = Ok o → success o = true →
    json_decode (co_stdout o) = Ok v → lsblk_document v.

(** Operations that look for the partition they have just created. *)
Definition makes_partition (op : PartitionOperation) : Prop :=
  po_kind op = "create"
  ∨ po_kind op = "new_table"
    ∧ (is_empty (value_string (po_params op) "table_type")
       || eq_ignore_ascii_case (value_string (po_params op) "table_type") "gpt") = true.

Lemma find_new_partition_fails evs disk before start size name :
  lsblk_prints_devices → find_new_partition disk before start size (eo_runner evs) ≠ Ok name.
Proof.
  intros Hls Hk. unfold find_new_partition in Hk. apply rbind_Ok in Hk as (d & _ & Hk).
  apply rbind_Ok in Hk as (v & Hv & Hk). unfold lsblk_json in Hv.
  apply rbind_Ok in Hv as (o & Ho%map_err_Ok & Hv). guard_inv Hv as Hs. apply negb_false_iff in Hs.
  apply map_err_Ok in Hv. destruct (Hls _ _ _ _ Ho Hs Hv) as [devices ->]. apply ok_or_Ok in Hk.
  rewrite nodes_unfold in Hk by apply members_size. by vm_compute in Hk.
Qed.

Lemma execute_makes_fails disk i op ops ss s x s' :
  lsblk_prints_devices → makes_partition op → execute_operation disk i op ops ss s ≠ (Ok x, s').
Proof.
  intros Hls [Hk|[Hk Ht]]; unfold execute_operation; rewrite Hk; cbn [String.eqb Ascii.eqb Bool.eqb]; intros He;
    apply m_bind_inv in He as [(before & s1 & _ & He)|(e & _ & [=])].
  - unfold execute_create in He. apply m_bind_inv in He as [([] & s2 & _ & He)|(e & _ & [=])].
    apply m_bind_inv in He as [(created & s3 & [= Hf _] & _)|(e & _ & [=])]. by eapply find_new_partition_fails.
  - unfold execute_new_table in He. rewrite Ht in He. apply m_bind_inv in He as [([] & s2 & _ & He)|(e & _ & [=])].
    apply m_bind_inv in He as [([] & s3 & He & _)|(e & _ & [=])].
    apply m_bind_inv in He as [(b & s4 & _ & He)|(e & _ & [=])].
    apply m_bind_inv in He as [([] & s5 & _ & He)|(e & _ & [=])].
    apply m_bind_inv in He as [(created & s6 & [= Hf _] & _)|(e & _ & [=])]. by eapply find_new_partition_fails.
Qed.

(** Creating a partition never succeeds: the search for the new partition walks
    into [children] only and never reaches the devices of an lsblk document, so
    a journal that creates a partition or a GPT table is never committed, even
    when every tool succeeds. *)
Theorem create_never_commits j s root j' s' op :
  lsblk_prints_devices → op ∈ pj_ops j → makes_partition op →
  commit_request j s ≠ (Ok (Done root j'), s').
Proof.
  intros Hls Hin Hop Hc. apply commit_request_inv in Hc as [[_ []]|
    (_ & _ & s0 & s1 & s2 & dir & before & p0 & ss & _ & _ & _ & _ & Hops & _)].
  revert s1 Hops. generalize 0%nat. induction (pj_ops j) as [|o ops IH]; intros i s1 Hk;
    [by apply not_elem_of_nil in Hin|]. cbn [commit_ops] in Hk.
  apply m_bind_inv in Hk as [([] & s3 & _ & Hk)|(e & _ & [=])].
  apply m_bind_inv in Hk as [(snap & s4 & _ & Hk)|(e & _ & [=])].
  apply m_bind_inv in Hk as [([completed|error] & s5 & Hx & Hk)|(e & _ & [=])];
    [|by apply commit_failed_not_done in Hk].
  apply m_bind_inv in Hk as [([] & s6 & _ & Hk)|(e & _ & [=])].
  apply elem_of_cons in Hin as [->|Hin]; [|by eapply IH].
  destruct (execute_operation _ _ _ _ _ _) as [r2 s7] eqn:E in Hx. injection Hx as -> _.
  by eapply execute_makes_fails.
Qed.

(** The partition probe of a resize is answered from the snapshot of the
    pre-commit validation while that is less than five seconds old: whatever
    operations ran in between, the records are the cached ones. *)
Theorem resize_probe_is_cached disk s at_ snapshot :
  cs_cache s !! disk = Some (at_, snapshot) → InstallerPlan.normalize_device_path disk = Some disk →
  eo_now (cs_log s) - at_ < PARTITION_SNAPSHOT_TTL →
  ∀ parts s', runtime_partition_records disk s = (Ok parts, s') →
    s' = s ∧ ∃ ss, parse_partitions (json_encode snapshot) ss = Ok parts.
Proof.
  intros Hc Hn Ht parts s'. unfold runtime_partition_records, safe_disk. rewrite Hn. cbn [ok_or].
  intros [(d & s1 & [[= <-] ->]%m_lift_inv & Hk)|(e & _ & [=])]%m_bind_inv.
  apply m_bind_inv in Hk as [(ss & s2 & [= _ <-] & Hk)|(e & _ & [=])].
  unfold cached_runtime_lsblk, safe_disk in Hk. rewrite Hn in Hk.
  apply m_bind_inv in Hk as [(v & s2 & Hv & [Hp ->]%m_lift_inv)|(e & _ & [=])].
  apply m_bind_inv in Hv as [(d & s1 & [[= <-] ->]%m_lift_inv & Hv)|(e & _ & [=])].
  apply m_bind_inv in Hv as [(hit & s3 & [= <- <-] & Hv)|(e & [=] & _)].
  rewrite Hc in Hv. apply Z.ltb_lt in Ht. rewrite Ht in Hv. injection Hv as <- <-. eauto.
Qed.
End rollback.

(** A new GPT table and a root partition right behind its first two MiB. *)
Definition bios_overlap : PartitionJournal := edit_journal
  [("new_table", []);
   ("create", [("start_bytes", JNumber (2 * MiB)); ("size_bytes", JNumber (40 * GiB));
               ("fs_type", JString "btrfs"); ("mountpoint", JString "/")])].

(** The automatic BIOS boot partition is two MiB long from the first MiB on; the
    validation reserves only one, so a partition right behind the reserved
    region is accepted and overlaps the one that is created. *)
Theorem bios_boot_overlap_accepted :
  validate bios_overlap [] "gpt" (128 * GiB) = []
  ∧ (∀ (r : Runner) (d : LsblkDecoder),
      rmap argv (@build_disk_plan d r (λ _, true)
        (CreateUnformattedPartition (pj_disk bios_overlap) (1024 * 1024) BIOS_BOOT_BYTES "biosboot" 512))
      = Ok ["/usr/sbin/parted"; "-s"; "/dev/sda"; "unit"; "B"; "mkpart"; "biosboot"; "1048576B"; "3145216B"])
  ∧ 2 * MiB < 3145216.
Proof. split_and!; [by vm_compute|intros; by vm_compute|by vm_compute]. Qed.

(** * A machine to run commits on

    The disk of the storage samples, an external stick, and tools that succeed
    except those for which [broken] holds.  The documents are told apart by a
    tag of their first device; [formatted] is the disk after its second
    partition was formatted as ext4. *)

Definition doc_part (name : string) (n : Z) : json :=
  jobject [("name", JString name); ("type", JString "part"); ("partn", JNumber n)].
Definition disk_doc (tag : string) : json :=
  jobject [("blockdevices", JArray [jobject
    [("tag", JString tag); ("name", JString "/dev/sda"); ("type", JString "disk"); ("pttype", JString "gpt");
     ("size", JNumber (500 * GiB));
     ("children", JArray [doc_part "/dev/sda1" 1; doc_part "/dev/sda2" 2; doc_part "/dev/sda3" 3])]])].
Definition name_doc (name : string) : json := jobject [("blockdevices", JArray [jobject [("name", JString name)]])].

Definition world_codec : JsonCodec := {|
  json_decode text :=
    if str_in text ["fresh"; "formatted"] then Ok (disk_doc text)
    else if String.eqb text "mounts" then
      Ok (jobject [("filesystems", JArray [jobject [("source", JString "/dev/sdc1")]])])
    else Ok (name_doc (unwrap_or (strip_prefix "dev:" text) text));
  json_encode v :=
    match members "blockdevices" v with
    | d :: _ => unwrap_or (field as_str "tag" d) EmptyString
    | [] => EmptyString
    end |}.

Definition formatted_disk : LsblkDevice :=
  match sample_disk with
  | Device a (p1 :: _ :: ps) =>
      Device a (p1 :: sample_part "/dev/sda2" 2 GiB (200 * GiB) "ext4" WINDOWS_DATA_GUID [] :: ps)
  | d => d
  end.
Definition world_decoder : LsblkDecoder := {|
  decode_lsblk text := Ok (if String.eqb text "formatted" then [formatted_disk]
                           else if String.eqb text "fresh" then [sample_disk] else sample_snapshot) |}.

Definition is_format (ev : CommitEvent) : bool :=
  match ev with Ran (FormatFilesystem d _ _ _) _ _ => String.eqb d "/dev/sda2" | _ => false end.
Definition says (text : string) : result CommandOutput :=
  Ok {| co_code := Some 0; co_stdout := text; co_utf8 := true |}.
Definition world_runner (evs : list CommitEvent) : Runner := {| run_command program args :=
  if String.eqb program "/usr/bin/blockdev" then says "512"
  else if String.eqb program "/usr/bin/findmnt" then says "mounts"
  else if str_in "--nodeps" args then says "gpt"
  else if str_in "--inverse" args then says ("dev:" +:+ unwrap_or (last args) EmptyString)
  else says (if existsb is_format evs then "formatted" else "fresh") |}.

Definition world (broken : list string → bool) : EditOs := {|
  eo_runner := world_runner;
  eo_exists _ := true;
  eo_tool _ p := {| tl_spawn := Ok tt; tl_confirm := Ok tt;
                    tl_poll _ := ToolExited (Some (if broken (argv p) then 1 else 0)); tl_oversleep _ := 0%nat |};
  eo_now _ := 0;
  eo_emit _ := Ok tt;
  eo_sync _ _ := {| sy_open := None; sy_sync := None; sy_open_dir := None; sy_sync_dir := None |};
  eo_rename _ _ _ := Ok tt;
  eo_canonical p := Ok p;
  eo_is_dir _ := true;
  eo_tempdir _ parent := Ok (match parent with Some p => p +:+ "/.kyth-gpt-backup-1" | None => "/tmp/kyth-partition-1" end);
  eo_locks := sample_os;
  eo_guard := sample_guard_probes |}.

Definition commit_in (os : EditOs) (j : PartitionJournal) : result CommitReply * CState :=
  @commit_request world_decoder sample_findmnt world_codec os j (commit_state [] ∅ no_locks j).

Definition world_journal (ops : list (string * list (string * json))) : PartitionJournal :=
  edit_journal (("format", [("partition", JString "/dev/sda3"); ("fs_type", JString "btrfs")])
                :: ("set_mountpoint", [("partition", JString "/dev/sda3"); ("mountpoint", JString "/")]) :: ops).
Definition with_serial (j : PartitionJournal) : PartitionJournal :=
  {| pj_disk := pj_disk j; pj_ops := pj_ops j; pj_committed := pj_committed j;
     pj_root_partition := pj_root_partition j; pj_irreversible_completed := pj_irreversible_completed j;
     pj_disk_model := None; pj_disk_serial := Some "S3RIAL"; pj_disk_size_bytes := None |}.

Definition stale_journal : PartitionJournal := with_serial (world_journal
  [("format", [("partition", JString "/dev/sda2"); ("fs_type", JString "ext4")]);
   ("resize", [("partition", JString "/dev/sda2"); ("new_size_bytes", JNumber (100 * GiB));
               ("gpt_backup_path", JString "/run/media/usb/sda.gpt"); ("on_ac_power", JBool true)])]).

(** The command lines of a log. *)
Definition commands (evs : list CommitEvent) : list (list string) :=
  filter_map (λ ev, match ev with Ran _ p _ => Some (argv p) | _ => None end) evs.

(** All tools succeed: the second partition is formatted as ext4 and then
    resized with the NTFS tool, because the probe before the resize is the
    snapshot taken before the format. *)
Example stale_probe_resizes_as_ntfs :
  drop 3 (commands (cs_log (snd (commit_in (world (λ _, false)) stale_journal))))
  = [["/usr/sbin/mkfs.ext4"; "-F"; "/dev/sda2"];
     ["/usr/sbin/ntfsresize"; "--check"; "/dev/sda2"];
     ["/usr/sbin/ntfsresize"; "--info"; "/dev/sda2"];
     ["/usr/sbin/ntfsresize"; "--no-action"; "--size"; show_int (100 * GiB); "/dev/sda2"];
     ["/usr/sbin/ntfsresize"; "--size"; show_int (100 * GiB); "/dev/sda2"];
     ["/usr/sbin/parted"; "---pretend-input-tty"; "/dev/sda"; "unit"; "B"; "resizepart"; "2"; "108447923712B"]].
Proof. by vm_compute. Qed.

(** An event that can not be flushed ends the commit with an error, without a
    rollback, after the operation was carried out. *)
Definition deaf_after (n : nat) (os : EditOs) : EditOs := {|
  eo_runner := @eo_runner os; eo_exists := @eo_exists os; eo_tool := @eo_tool os; eo_now := @eo_now os;
  eo_emit evs := if (length evs <=? n)%nat then Ok tt else Err "Broken pipe";
  eo_sync := @eo_sync os; eo_rename := @eo_rename os; eo_canonical := @eo_canonical os; eo_is_dir := @eo_is_dir os;
  eo_tempdir := @eo_tempdir os; eo_locks := @eo_locks os; eo_guard := @eo_guard os |}.
Definition delete_journal : PartitionJournal := with_serial (edit_journal
  [("delete", [("partition", JString "/dev/sda2")]);
   ("create", [("start_bytes", JNumber (400 * GiB)); ("size_bytes", JNumber (50 * GiB));
               ("fs_type", JString "btrfs"); ("mountpoint", JString "/")])]).

Example lost_event_no_rollback :
  let '(r, s) := commit_in (deaf_after 3 (world (λ _, false))) delete_journal in
  r = Err "could not flush journal event: Broken pipe"
  ∧ commands (cs_log s) = [["/usr/sbin/sgdisk"; "--backup"; "/tmp/kyth-partition-1/partition-table.backup"; "/dev/sda"];
                           ["/usr/sbin/parted"; "-s"; "/dev/sda"; "rm"; "2"]].
Proof. by vm_compute. Qed.

(** A partition is accepted as a target only below its disk's name. *)
Example partition_names :
  (λ '(d, p), partition_name_matches d p) <$>
    [("/dev/sda", "/dev/sda2"); ("/dev/nvme0n1", "/dev/nvme0n1p3"); ("/dev/nvme0n1", "/dev/nvme0n12");
     ("/dev/sda", "/dev/sdaa1"); ("/dev/sda", "/dev/sda")] = [true; true; false; false; false].
Proof. by vm_compute. Qed.

(** * Witnesses *)

Lemma failed_reply (r : result CommitReply) (s' : CState) x :
  x = (r, s') → match fst x with Ok (Failed false _ _) => true | _ => false end = true →
  ∃ msg j', r = Ok (Failed false msg j').
Proof. intros -> Hr. cbn in Hr. destruct r as [[| |[] msg j'|]|]; try done. eauto. Qed.

Lemma done_reply (r : result CommitReply) (s' : CState) x :
  x = (r, s') → match fst x with Ok (Done _ _) => true | _ => false end = true → ∃ root j', r = Ok (Done root j').
Proof. intros -> Hr. cbn in Hr. destruct r as [[]|]; try done. eauto. Qed.

Lemma delete_unmarked : Forall unmarked (pj_ops delete_journal).
Proof. vm_compute. repeat constructor; discriminate. Qed.

Lemma reversible_failure_witness : ∃ msg j' s',
  commit_in (world (λ _, false)) delete_journal = (Ok (Failed false msg j'), s')
  ∧ ∃ dir before p0 after tail,
    cs_log s' = [] ++ before
      ++ [Ran (BackupTable "/dev/sda" (backup_file dir)) p0 (Finished (Some 0)); Synced (backup_file dir)]
      ++ after ++ tail ++ [Removed dir]
    ∧ Forall (tame "/dev/sda") before ∧ Forall (recoverable (pj_ops j')) after
    ∧ rolled_back "/dev/sda" dir (backup_file dir) tail.
Proof.
  destruct (commit_in (world (λ _, false)) delete_journal) as [r s'] eqn:E.
  destruct (failed_reply r s' _ E ltac:(vm_compute; reflexivity)) as (msg & j' & ->).
  exists msg, j', s'. split; [done|]. unfold commit_in in E.
  exact (@reversible_failure world_decoder sample_findmnt world_codec (world (λ _, false)) delete_journal
           (commit_state [] ∅ no_locks delete_journal) msg j' s' delete_unmarked eq_refl eq_refl E).
Defined.

Lemma commit_backs_up_first_witness : ∃ s' pre op p e post,
  cs_log s' = [] ++ pre ++ Ran op p e :: post ∧ (∀ d b, op ≠ BackupTable d b)
  ∧ @validate_target_disk_with_identity world_decoder sample_findmnt sample_guard_probes "/dev/sda"
      (journal_identity delete_journal) = Ok tt.
Proof.
  destruct (commit_in (world (λ _, false)) delete_journal) as [r s'] eqn:E.
  destruct (cs_log s') as [|e1 [|e2 [|e3 [|[op p e| | | | |] post]]]] eqn:El;
    try (exfalso; change s' with (snd (r, s')) in El; rewrite <-E in El; vm_compute in El; discriminate El).
  assert (∀ d b, op ≠ BackupTable d b) as Hop.
  { intros d b ->. change s' with (snd (r, s')) in El. rewrite <-E in El. vm_compute in El. discriminate El. }
  exists s', [e1; e2; e3], op, p, e, post. split_and!; [done|done|]. unfold commit_in in E.
  apply (@commit_backs_up_first world_decoder sample_findmnt world_codec (world (λ _, false)) delete_journal
           (commit_state [] ∅ no_locks delete_journal) r s' [e1; e2; e3] op p e post E El Hop).
Defined.

Lemma commit_complete_witness : ∃ root j' s' evs,
  commit_in (world (λ _, false)) stale_journal = (Ok (Done root j'), s')
  ∧ cs_log s' = [] ++ evs ∧ steps evs = flat_map reported (pj_ops stale_journal).
Proof.
  destruct (commit_in (world (λ _, false)) stale_journal) as [r s'] eqn:E.
  destruct (done_reply r s' _ E ltac:(vm_compute; reflexivity)) as (root & j' & ->).
  unfold commit_in in E.
  destruct (@commit_complete world_decoder sample_findmnt world_codec (world (λ _, false)) stale_journal
              (commit_state [] ∅ no_locks stale_journal) root j' s' E) as (evs & Hl & Hs & _).
  exists root, j', s', evs. split_and!; [reflexivity|exact Hl|exact Hs].
Defined.

Lemma world_prints_devices : @lsblk_prints_devices world_codec (world (λ _, false)).
Proof.
  intros evs args o v Ho _ Hv.
  assert (String.eqb (co_stdout o) "mounts" = false) as Hm.
  { cbn in Ho. repeat case_match; by injection Ho as <-. }
  cbn [json_decode world_codec] in Hv. rewrite Hm in Hv.
  destruct (str_in _ _); injection Hv as <-; by eexists.
Qed.

Lemma create_never_commits_witness :
  @lsblk_prints_devices world_codec (world (λ _, false))
  ∧ commit_in (world (λ _, false)) delete_journal
    ≠ (Ok (Done None delete_journal), commit_state [] ∅ no_locks delete_journal).
Proof.
  split; [exact world_prints_devices|]. unfold commit_in. destruct (pj_ops delete_journal) as [|o1 [|o2 l]] eqn:E;
    [vm_compute in E; discriminate E..|].
  apply (@create_never_commits world_decoder sample_findmnt world_codec (world (λ _, false)) delete_journal _ None
           delete_journal _ o2 world_prints_devices).
  - rewrite E. right. left.
  - left. vm_compute in E. injection E as _ <- _. reflexivity.
Defined.

(** The second partition was formatted, and the probe still says ntfs. *)
Definition after_format : CState := {|
  cs_log := [Ran (FormatFilesystem "/dev/sda2" "ext4" "" "/dev/sda") (plan [] 0) (Finished (Some 0))];
  cs_cache := {["/dev/sda" := (0, disk_doc "fresh")]}; cs_locks := no_locks; cs_ops := []; cs_irreversible := true |}.

Lemma resize_probe_is_cached_witness : ∃ parts,
  fst (@runtime_partition_records world_decoder world_codec (world (λ _, false)) "/dev/sda" after_format) = Ok parts
  ∧ (∃ ss, @parse_partitions world_decoder "fresh" ss = Ok parts)
  ∧ pr_fstype <$> parts = ["vfat"; "ntfs"; ""].
Proof.
  destruct (@runtime_partition_records world_decoder world_codec (world (λ _, false)) "/dev/sda" after_format)
    as [[parts|e] s'] eqn:E; [|vm_compute in E; discriminate E].
  exists parts. split; [reflexivity|]. split.
  - exact (proj2 (@resize_probe_is_cached world_decoder world_codec (world (λ _, false)) "/dev/sda" after_format 0
             (disk_doc "fresh") eq_refl eq_refl eq_refl parts s' E)).
  - vm_compute in E. injection E as <- _. vm_compute. reflexivity.
Defined.
