(* ===== verification/Stream.v ===== *)
(** Progress output of the installer's commands: [installer_stream.rs].

    A command's output arrives as arbitrary pieces of bytes.  It is decoded as
    UTF-8, cut into lines, freed of repetitions and kept for the report of a
    failure, while three clocks decide when the command is given up.  The
    theorems show that the pieces do not matter, that the buffers are bounded
    whatever the command prints, and that the supervising loop ends. *)

From S2P Require Import Prelude RustStr Probes.

Definition RECENT_OUTPUT_LINES : nat := 30.
Definition FAILURE_OUTPUT_LINES : nat := 10.
Definition MAX_STREAM_LINE_BYTES : nat := Z.to_nat 65536.
Definition TRUNCATED_LINE_SUFFIX : string := "[truncated]".

(** * UTF-8 *)

(** What a string starts with, as [std::str::from_utf8] sees it: a character of
    so many bytes, an error of that length, or the beginning of a character. *)
Inductive Utf8Step := UEnd | UChar (n : nat) | UInvalid (n : nat) | UIncomplete.

Definition is_cont (c : ascii) : bool := byte_in 128 191 c.

Definition second_of_3 (a b : ascii) : bool :=
  if byte_of a =? 224 then byte_in 160 191 b
  else if byte_of a =? 237 then byte_in 128 159 b
  else is_cont b.
Definition second_of_4 (a b : ascii) : bool :=
  if byte_of a =? 240 then byte_in 144 191 b
  else if byte_of a =? 244 then byte_in 128 143 b
  else is_cont b.

Definition utf8_step (s : string) : Utf8Step :=
  match s with
  | EmptyString => UEnd
  | String a s =>
      if byte_in 0 127 a then UChar 1
      else if byte_in 194 223 a then
        match s with
        | EmptyString => UIncomplete
        | String b _ => if is_cont b then UChar 2 else UInvalid 1
        end
      else if byte_in 224 239 a then
        match s with
        | EmptyString => UIncomplete
        | String b s =>
            if second_of_3 a b then
              match s with
              | EmptyString => UIncomplete
              | String c _ => if is_cont c then UChar 3 else UInvalid 2
              end
            else UInvalid 1
        end
      else if byte_in 240 244 a then
        match s with
        | EmptyString => UIncomplete
        | String b s =>
            if second_of_4 a b then
              match s with
              | EmptyString => UIncomplete
              | String c s =>
                  if is_cont c then
                    match s with
                    | EmptyString => UIncomplete
                    | String d _ => if is_cont d then UChar 4 else UInvalid 3
                    end
                  else UInvalid 2
              end
            else UInvalid 1
        end
      else UInvalid 1
  end.

(** [&s[..n]] and [&s[n..]] *)
Fixpoint stake (n : nat) (s : string) : string :=
  match n, s with S n, String c s => String c (stake n s) | _, _ => EmptyString end.
Fixpoint sdrop (n : nat) (s : string) : string :=
  match n, s with S n, String c s => sdrop n s | _, _ => s end.

(** [std::str::from_utf8]: the valid prefix, what follows it, and the error
    ([error_len] is [None] at an unfinished character). *)
Fixpoint from_utf8_loop (fuel : nat) (s : string) : string * string * option (option nat) :=
  match fuel with
  | O => (EmptyString, s, None)
  | S fuel =>
      match utf8_step s with
      | UEnd => (EmptyString, EmptyString, None)
      | UChar n =>
          let '(text, rest, error) := from_utf8_loop fuel (sdrop n s) in (stake n s +:+ text, rest, error)
      | UInvalid n => (EmptyString, s, Some (Some n))
      | UIncomplete => (EmptyString, s, Some None)
      end
  end.
Definition from_utf8 (s : string) : string * string * option (option nat) :=
  from_utf8_loop (S (String.length s)) s.

Definition REPLACEMENT : string := bytes [239; 191; 189]%N.

(** [String::from_utf8_lossy] *)
Fixpoint lossy_loop (fuel : nat) (s : string) : string :=
  match fuel with
  | O => EmptyString
  | S fuel =>
      match utf8_step s with
      | UEnd => EmptyString
      | UChar n => stake n s +:+ lossy_loop fuel (sdrop n s)
      | UInvalid n => REPLACEMENT +:+ lossy_loop fuel (sdrop n s)
      | UIncomplete => REPLACEMENT
      end
  end.
Definition from_utf8_lossy (s : string) : string := lossy_loop (S (String.length s)) s.

(** * The model of a stream *)

Record StreamingCommandModel := {
  sm_pending : string;
  sm_pending_utf8 : string;
  sm_last_line : option string;
  sm_recent_output : list string;
  sm_started_at : Z;
  sm_last_activity : Z;
  sm_last_rx_activity : Z;
  sm_last_rx : Z;
  sm_total_bytes : Z;
  sm_cancelled : bool;
}.

Definition new_stream (now rx_bytes : Z) : StreamingCommandModel :=
  {| sm_pending := EmptyString; sm_pending_utf8 := EmptyString; sm_last_line := None; sm_recent_output := [];
     sm_started_at := now; sm_last_activity := now; sm_last_rx_activity := now; sm_last_rx := rx_bytes;
     sm_total_bytes := 0; sm_cancelled := false |}.

(** The text buffers and the emitted lines; the clocks stay. *)
Definition with_text (pending utf8 : string) (m : StreamingCommandModel) : StreamingCommandModel :=
  {| sm_pending := pending; sm_pending_utf8 := utf8; sm_last_line := sm_last_line m;
     sm_recent_output := sm_recent_output m; sm_started_at := sm_started_at m;
     sm_last_activity := sm_last_activity m; sm_last_rx_activity := sm_last_rx_activity m;
     sm_last_rx := sm_last_rx m; sm_total_bytes := sm_total_bytes m; sm_cancelled := sm_cancelled m |}.
Definition with_lines (last : option string) (recent : list string) (m : StreamingCommandModel)
    : StreamingCommandModel :=
  {| sm_pending := sm_pending m; sm_pending_utf8 := sm_pending_utf8 m; sm_last_line := last;
     sm_recent_output := recent; sm_started_at := sm_started_at m;
     sm_last_activity := sm_last_activity m; sm_last_rx_activity := sm_last_rx_activity m;
     sm_last_rx := sm_last_rx m; sm_total_bytes := sm_total_bytes m; sm_cancelled := sm_cancelled m |}.

(** The loop of [decode], over what follows the offset. *)
Fixpoint decode_loop (fuel : nat) (pending rest : string) (final_chunk : bool) : string * string :=
  match fuel with
  | O => (pending, rest)
  | S fuel =>
      match from_utf8 rest with
      | (text, _, None) => (pending +:+ text, EmptyString)
      | (text, rest, Some None) =>
          if final_chunk then (pending +:+ text +:+ from_utf8_lossy rest, EmptyString)
          else (pending +:+ text, rest)
      | (text, rest, Some (Some error_len)) =>
          let pending := pending +:+ text +:+ REPLACEMENT in
          let rest := sdrop error_len rest in
          if is_empty rest then (pending, EmptyString) else decode_loop fuel pending rest final_chunk
      end
  end.

Definition decode (chunk : string) (final_chunk : bool) (m : StreamingCommandModel) : StreamingCommandModel :=
  let buffer := sm_pending_utf8 m +:+ chunk in
  let '(pending, utf8) := decode_loop (S (String.length buffer)) (sm_pending m) buffer final_chunk in
  with_text pending utf8 m.

(** [emit_line]: the event, if the line is not empty and not a repetition. *)
Definition emit_line (line : string) (m : StreamingCommandModel) : list string * StreamingCommandModel :=
  let line := trim line in
  if is_empty line || bool_decide (sm_last_line m = Some line) then ([], m)
  else
    let recent := if (length (sm_recent_output m) =? RECENT_OUTPUT_LINES)%nat then tail (sm_recent_output m)
                  else sm_recent_output m in
    ([line], with_lines (Some line) (recent ++ [line]) m).

Definition is_terminator (c : ascii) : bool := (byte_of c =? 10) || (byte_of c =? 13).

(** [pending.find(['\n', '\r'])] with the two parts around the terminator. *)
Fixpoint split_line (s : string) : option (string * string) :=
  match s with
  | EmptyString => None
  | String c s =>
      if is_terminator c then Some (EmptyString, s)
      else match split_line s with Some (line, rest) => Some (String c line, rest) | None => None end
  end.

(** [while !is_char_boundary(end) { end -= 1 }] *)
Definition char_boundary (s : string) (n : nat) : bool :=
  match sdrop n s with EmptyString => true | String c _ => negb (is_cont c) end.
Fixpoint boundary_before (s : string) (n : nat) : nat :=
  if char_boundary s n then n else match n with O => O | S n => boundary_before s n end.

(** The loop of [take_lines]. *)
Fixpoint line_loop (fuel : nat) (m : StreamingCommandModel) : list string * StreamingCommandModel :=
  match fuel with
  | O => ([], m)
  | S fuel =>
      match split_line (sm_pending m) with
      | Some (line, rest) =>
          let '(events, m) := emit_line line (with_text rest (sm_pending_utf8 m) m) in
          let '(more, m) := line_loop fuel m in (events ++ more, m)
      | None =>
          if (MAX_STREAM_LINE_BYTES <? String.length (sm_pending m))%nat then
            let end_ := boundary_before (sm_pending m) MAX_STREAM_LINE_BYTES in
            let line := stake end_ (sm_pending m) +:+ TRUNCATED_LINE_SUFFIX in
            let '(events, m) := emit_line line (with_text (sdrop end_ (sm_pending m)) (sm_pending_utf8 m) m) in
            let '(more, m) := line_loop fuel m in (events ++ more, m)
          else ([], m)
      end
  end.

Definition take_lines (final_chunk : bool) (m : StreamingCommandModel) : list string * StreamingCommandModel :=
  let '(events, m) := line_loop (S (String.length (sm_pending m))) m in
  if final_chunk && negb (is_empty (sm_pending m)) then
    let '(last, m) := emit_line (sm_pending m) (with_text EmptyString (sm_pending_utf8 m) m) in
    (events ++ last, m)
  else (events, m).

Definition touch (now : Z) (m : StreamingCommandModel) : StreamingCommandModel :=
  {| sm_pending := sm_pending m; sm_pending_utf8 := sm_pending_utf8 m; sm_last_line := sm_last_line m;
     sm_recent_output := sm_recent_output m; sm_started_at := sm_started_at m;
     sm_last_activity := now; sm_last_rx_activity := sm_last_rx_activity m;
     sm_last_rx := sm_last_rx m; sm_total_bytes := sm_total_bytes m; sm_cancelled := sm_cancelled m |}.

Definition feed (chunk : string) (now : Z) (m : StreamingCommandModel) : list string * StreamingCommandModel :=
  take_lines false (decode chunk false (touch now m)).

Definition finish_output (m : StreamingCommandModel) : list string * StreamingCommandModel :=
  take_lines true (decode EmptyString true m).

Definition request_cancel (m : StreamingCommandModel) : StreamingCommandModel :=
  {| sm_pending := sm_pending m; sm_pending_utf8 := sm_pending_utf8 m; sm_last_line := sm_last_line m;
     sm_recent_output := sm_recent_output m; sm_started_at := sm_started_at m;
     sm_last_activity := sm_last_activity m; sm_last_rx_activity := sm_last_rx_activity m;
     sm_last_rx := sm_last_rx m; sm_total_bytes := sm_total_bytes m; sm_cancelled := true |}.
Definition cancellation_requested (m : StreamingCommandModel) : bool := sm_cancelled m.

(** ** Clocks *)

Definition idle_seconds (now : Z) (m : StreamingCommandModel) : Z := sat_sub64 now (sm_last_activity m).

Definition observe_network (now rx_bytes total_bytes : Z) (m : StreamingCommandModel) : StreamingCommandModel :=
  {| sm_pending := sm_pending m; sm_pending_utf8 := sm_pending_utf8 m; sm_last_line := sm_last_line m;
     sm_recent_output := sm_recent_output m; sm_started_at := sm_started_at m;
     sm_last_activity := sm_last_activity m;
     sm_last_rx_activity := if sm_last_rx m <? rx_bytes then now else sm_last_rx_activity m;
     sm_last_rx := if sm_last_rx m <? rx_bytes then rx_bytes else sm_last_rx m;
     sm_total_bytes := total_bytes; sm_cancelled := sm_cancelled m |}.

Definition timeout_error (now io_timeout net_timeout : Z) (absolute_timeout : option Z) (m : StreamingCommandModel)
    : option string :=
  if match absolute_timeout with Some limit => limit <? sat_sub64 now (sm_started_at m) | None => false end then
    Some ("Command exceeded absolute timeout of " +:+ show_int (unwrap_or absolute_timeout 0) +:+ " seconds")
  else if io_timeout <? sat_sub64 now (sm_last_activity m) then
    Some ("Command timed out after " +:+ show_int io_timeout +:+ " seconds with no output")
  else if (0 <? sm_total_bytes m) && (net_timeout <? sat_sub64 now (sm_last_rx_activity m)) then
    Some ("Command timed out after " +:+ show_int net_timeout +:+ " seconds with no network progress")
  else None.

Definition DESTRUCTIVE_CANCEL_MESSAGE : string :=
  "Installation cancelled by user. Disk changes may have already started.".

Definition finish_status (exit_code : Z) (m : StreamingCommandModel) : result unit :=
  if sm_cancelled m then Err DESTRUCTIVE_CANCEL_MESSAGE
  else if exit_code =? 0 then Ok tt
  else
    let detail := join newline (drop (length (sm_recent_output m) - FAILURE_OUTPUT_LINES)%nat (sm_recent_output m)) in
    let detail := if is_empty detail then "No command output was captured." else detail in
    Err ("Command failed (exit " +:+ show_int exit_code +:+ "):" +:+ newline +:+ newline +:+ detail).

(** * Decoding does not depend on the pieces *)

(** The reference: the text of a byte string, errors replaced, and the
    unfinished character at its end. *)
Fixpoint scan_loop (fuel : nat) (s : string) : string * string :=
  match fuel with
  | O => (EmptyString, EmptyString)
  | S fuel =>
      match utf8_step s with
      | UEnd => (EmptyString, EmptyString)
      | UChar n => let '(text, rest) := scan_loop fuel (sdrop n s) in (stake n s +:+ text, rest)
      | UInvalid n => let '(text, rest) := scan_loop fuel (sdrop n s) in (REPLACEMENT +:+ text, rest)
      | UIncomplete => (EmptyString, s)
      end
  end.
Definition scan (s : string) : string * string := scan_loop (S (String.length s)) s.
#[global] Arguments scan : simpl never.

Definition consumed (u : Utf8Step) : option nat :=
  match u with UChar n | UInvalid n => Some n | _ => None end.

Ltac utf8_cases :=
  repeat match goal with
  | |- context [match ?s with EmptyString => _ | String _ _ => _ end] => destruct s
  | |- context [if ?b then _ else _] => destruct b
  end.

Lemma step_consumed s n : consumed (utf8_step s) = Some n → (1 <= n <= String.length s)%nat.
Proof.
  destruct s as [|a s]; [done|]. unfold utf8_step. utf8_cases; cbn; intros [= <-]; lia.
Qed.

Lemma step_app a b n : consumed (utf8_step a) = Some n → utf8_step (a +:+ b) = utf8_step a.
Proof.
  destruct a as [|c a]; [done|]. rewrite append_cons. unfold utf8_step.
  destruct (byte_in 0 127 c); [done|]. destruct (byte_in 194 223 c); [by destruct a|].
  destruct (byte_in 224 239 c).
  { destruct a as [|d a]; [done|]. rewrite append_cons. destruct (second_of_3 c d); [|done]. by destruct a. }
  destruct (byte_in 240 244 c); [|done]. destruct a as [|d a]; [done|]. rewrite append_cons.
  destruct (second_of_4 c d); [|done]. destruct a as [|e a]; [done|]. rewrite append_cons.
  destruct (is_cont e); [|done]. by destruct a.
Qed.

Lemma sdrop_length n s : String.length (sdrop n s) = (String.length s - n)%nat.
Proof. revert n. induction s as [|c s IH]; intros [|n]; cbn; [done..|]. apply IH. Qed.

Lemma stake_sdrop n s : stake n s +:+ sdrop n s = s.
Proof. revert n. induction s as [|c s IH]; intros [|n]; cbn; [done..|]. rewrite append_cons. by f_equal. Qed.

Lemma sdrop_app n a b : (n <= String.length a)%nat → sdrop n (a +:+ b) = sdrop n a +:+ b.
Proof.
  revert n. induction a as [|c a IH]; intros [|n] Hn; cbn in *; [done|lia|done|].
  rewrite <-IH by lia. by rewrite append_cons.
Qed.
Lemma stake_app n a b : (n <= String.length a)%nat → stake n (a +:+ b) = stake n a.
Proof.
  revert n. induction a as [|c a IH]; intros [|n] Hn; cbn in *; [by destruct b|lia|done|].
  rewrite append_cons. f_equal. apply IH. lia.
Qed.

Lemma scan_fuel f f' s : (String.length s < f)%nat → (String.length s < f')%nat → scan_loop f s = scan_loop f' s.
Proof.
  revert f' s. induction f as [|f IH]; intros f' s Hf Hf'; [lia|]. destruct f' as [|f']; [lia|]. cbn.
  destruct (utf8_step s) as [|n|n|] eqn:E; [done| | |done].
  all: assert (1 <= n <= String.length s)%nat by (apply step_consumed; by rewrite E).
  all: rewrite (IH f') by (rewrite sdrop_length; lia); done.
Qed.

(** One step of the reference, fuel aside. *)
Lemma scan_unfold s :
  scan s = match utf8_step s with
           | UEnd => (EmptyString, EmptyString)
           | UChar n => let '(text, rest) := scan (sdrop n s) in (stake n s +:+ text, rest)
           | UInvalid n => let '(text, rest) := scan (sdrop n s) in (REPLACEMENT +:+ text, rest)
           | UIncomplete => (EmptyString, s)
           end.
Proof.
  unfold scan at 1. cbn. destruct (utf8_step s) as [|n|n|] eqn:E; [done| | |done].
  all: assert (1 <= n <= String.length s)%nat by (apply step_consumed; by rewrite E).
  all: unfold scan; rewrite (scan_fuel (String.length s) (S (String.length (sdrop n s)))) by (rewrite sdrop_length; lia); done.
Qed.

(** Induction on the bytes that are left. *)
Lemma bytes_ind (P : string → Prop) :
  (∀ s, (∀ s', (String.length s' < String.length s)%nat → P s') → P s) → ∀ s, P s.
Proof.
  intros H s. remember (String.length s) as n eqn:Hn. revert s Hn.
  induction (lt_wf n) as [n _ IH]. intros s ->. apply H. intros s' Hs'. by eapply IH.
Qed.

Lemma scan_app a b :
  scan (a +:+ b) = let '(text, rest) := scan a in let '(text', rest') := scan (rest +:+ b) in (text +:+ text', rest').
Proof.
  induction a as [a IH] using bytes_ind. rewrite (scan_unfold a).
  destruct (utf8_step a) as [|n|n|] eqn:E.
  - destruct a as [|c a]; [|exfalso; revert E; unfold utf8_step; utf8_cases; done].
    change (EmptyString +:+ b) with b. destruct (scan b). by rewrite append_nil_l.
  - assert (consumed (utf8_step a) = Some n) as Hc by (by rewrite E). pose proof (step_consumed _ _ Hc) as Hn.
    rewrite scan_unfold, (step_app _ _ _ Hc), E, sdrop_app, stake_app by lia.
    rewrite IH by (rewrite sdrop_length; lia). destruct (scan (sdrop n a)) as [t r]. destruct (scan (r +:+ b)).
    by rewrite append_assoc.
  - assert (consumed (utf8_step a) = Some n) as Hc by (by rewrite E). pose proof (step_consumed _ _ Hc) as Hn.
    rewrite scan_unfold, (step_app _ _ _ Hc), E, sdrop_app by lia.
    rewrite IH by (rewrite sdrop_length; lia). destruct (scan (sdrop n a)) as [t r]. destruct (scan (r +:+ b)).
    by rewrite append_assoc.
  - destruct (scan (a +:+ b)). by rewrite append_nil_l.
Qed.

Lemma from_utf8_loop_spec fuel s text rest error :
  (String.length s < fuel)%nat → from_utf8_loop fuel s = (text, rest, error) →
  scan s = (let '(t, r) := scan rest in (text +:+ t, r)) ∧ (String.length rest <= String.length s)%nat
  ∧ match error with
    | None => rest = EmptyString
    | Some None => utf8_step rest = UIncomplete
    | Some (Some n) => utf8_step rest = UInvalid n
    end.
Proof.
  revert s text. induction fuel as [|fuel IH]; intros s text Hf; [lia|]. cbn [from_utf8_loop].
  destruct (utf8_step s) as [|n|n|] eqn:E.
  - intros [= <- <- <-]. rewrite scan_unfold, E. split_and!; [done|cbn; lia|done].
  - assert (1 <= n <= String.length s)%nat as Hn by (apply step_consumed; by rewrite E).
    destruct (from_utf8_loop fuel (sdrop n s)) as [[t r] e] eqn:Hl. intros [= <- <- <-].
    apply IH in Hl as (Hs & Hr & He); [|rewrite sdrop_length; lia]. rewrite sdrop_length in Hr.
    split_and!; [|lia|done]. rewrite scan_unfold, E, Hs. destruct (scan r). by rewrite append_assoc.
  - intros [= <- <- <-]. split_and!; [|lia|done]. destruct (scan s). by rewrite append_nil_l.
  - intros [= <- <- <-]. split_and!; [|lia|done]. destruct (scan s). by rewrite append_nil_l.
Qed.

(** What an unfinished character at the end of the output becomes. *)
Definition flushed (rest : string) : string := if is_empty rest then EmptyString else REPLACEMENT.

Lemma decode_loop_scan fuel pending rest final :
  (String.length rest < fuel)%nat →
  decode_loop fuel pending rest final =
  let '(text, r) := scan rest in
  if final then (pending +:+ text +:+ flushed r, EmptyString) else (pending +:+ text, r).
Proof.
  revert pending rest. induction fuel as [|fuel IH]; intros pending rest Hf; [lia|]. cbn [decode_loop].
  unfold from_utf8. destruct (from_utf8_loop _ rest) as [[text r] e] eqn:E.
  apply from_utf8_loop_spec in E as (-> & Hr & He); [|lia].
  destruct e as [[n|]|].
  - assert (1 <= n <= String.length r)%nat as Hn by (apply step_consumed; by rewrite He).
    rewrite (scan_unfold r), He. destruct (is_empty (sdrop n r)) eqn:Hz.
    + apply is_empty_true in Hz. rewrite Hz. change (scan EmptyString) with (EmptyString, EmptyString). cbn iota.
      destruct final; by rewrite ?append_nil_r, ?append_assoc.
    + rewrite IH by (rewrite sdrop_length; lia). destruct (scan (sdrop n r)) as [t r'].
      destruct final; by rewrite !append_assoc.
  - rewrite (scan_unfold r), He. cbn iota. destruct final; [|by rewrite append_nil_r].
    rewrite append_nil_r. unfold from_utf8_lossy. cbn. rewrite He. unfold flushed.
    destruct r; [done|]. done.
  - subst r. change (scan EmptyString) with (EmptyString, EmptyString). cbn iota.
    destruct final; by rewrite ?append_nil_r.
Qed.

Lemma decode_scan chunk final m :
  decode chunk final m =
  let '(text, rest) := scan (sm_pending_utf8 m +:+ chunk) in
  if final then with_text (sm_pending m +:+ text +:+ flushed rest) EmptyString m
  else with_text (sm_pending m +:+ text) rest m.
Proof.
  unfold decode. rewrite decode_loop_scan by lia. destruct (scan _). by destruct final.
Qed.

(** * Lines do not depend on the pieces *)

(** The terminated lines of a text and what follows the last terminator. *)
Fixpoint segs (s : string) : list string * string :=
  match s with
  | EmptyString => ([], EmptyString)
  | String c s =>
      let '(ls, r) := segs s in
      if is_terminator c then (EmptyString :: ls, r)
      else match ls with [] => ([], String c r) | l :: ls => (String c l :: ls, r) end
  end.
Definition all_lines (s : string) : list string := let '(ls, r) := segs s in ls ++ [r].

Lemma segs_split s :
  segs s = match split_line s with
           | Some (line, rest) => (line :: fst (segs rest), snd (segs rest))
           | None => ([], s)
           end.
Proof.
  induction s as [|c s IH]; [done|]. cbn. rewrite IH.
  destruct (is_terminator c); [by rewrite <-IH; destruct (segs s)|].
  by destruct (split_line s) as [[line rest]|].
Qed.

Lemma segs_app a b :
  segs (a +:+ b) = let '(la, ra) := segs a in let '(lb, rb) := segs (ra +:+ b) in (la ++ lb, rb).
Proof.
  induction a as [|c a IH]; [cbn [segs]; rewrite !append_nil_l; by destruct (segs b)|].
  rewrite append_cons. cbn [segs].
  rewrite IH. destruct (segs a) as [la ra]. destruct (segs (ra +:+ b)) as [lb rb] eqn:E.
  destruct (is_terminator c) eqn:Ht; [by rewrite E|]. destruct la as [|l la].
  - rewrite append_cons. cbn [segs]. rewrite E, Ht. by destruct lb.
  - by rewrite E.
Qed.

Lemma all_lines_app a b la ra :
  segs a = (la, ra) → all_lines (a +:+ b) = la ++ all_lines (ra +:+ b).
Proof.
  intros E. unfold all_lines. rewrite segs_app, E. destruct (segs (ra +:+ b)). by rewrite app_assoc.
Qed.

(** The part before the first terminator is the beginning of a line. *)
Lemma all_lines_head a b : segs a = ([], a) → ∃ l, l ∈ all_lines (a +:+ b) ∧ (String.length a <= String.length l)%nat.
Proof.
  intros E. unfold all_lines. rewrite segs_split.
  assert (∀ s, split_line s = None → split_line (s +:+ b) =
            match split_line b with Some (l, r) => Some (s +:+ l, r) | None => None end) as Hs.
  { induction s as [|c s IH]; [intros _; rewrite append_nil_l; destruct (split_line b) as [[]|]; by rewrite ?append_nil_l|].
    rewrite append_cons. cbn. destruct (is_terminator c); [done|].
    destruct (split_line s) as [[]|] eqn:Es; [done|]. intros _. rewrite IH by done.
    destruct (split_line b) as [[]|]; by rewrite ?append_cons. }
  rewrite segs_split in E. destruct (split_line a) as [[]|] eqn:Ea; [done|]. rewrite (Hs a Ea).
  destruct (split_line b) as [[l r]|].
  - exists (a +:+ l). split; [by left|]. rewrite slen_append. lia.
  - exists (a +:+ b). split; [by left|]. rewrite slen_append. lia.
Qed.

(** What emitting a line does to the last line and the recent lines. *)
Definition Recent : Type := option string * list string.
Definition recent_of (m : StreamingCommandModel) : Recent := (sm_last_line m, sm_recent_output m).

Definition emit_step (line : string) (st : Recent) : list string * Recent :=
  let line := trim line in
  if is_empty line || bool_decide (fst st = Some line) then ([], st)
  else ([line], (Some line, (if (length (snd st) =? RECENT_OUTPUT_LINES)%nat then tail (snd st) else snd st) ++ [line])).

Fixpoint emit_all (lines : list string) (st : Recent) : list string * Recent :=
  match lines with
  | [] => ([], st)
  | l :: lines =>
      let '(e, st) := emit_step l st in
      let '(es, st) := emit_all lines st in (e ++ es, st)
  end.

Lemma emit_all_app a b st :
  emit_all (a ++ b) st =
  let '(e, st) := emit_all a st in let '(e', st) := emit_all b st in (e ++ e', st).
Proof.
  revert st. induction a as [|l a IH]; intros st; cbn; [by destruct (emit_all b st)|].
  destruct (emit_step l st) as [e st1]. rewrite IH. destruct (emit_all a st1) as [e2 st2].
  destruct (emit_all b st2). by rewrite app_assoc.
Qed.

(** The parts of a model the streaming depends on. *)
Definition same_clocks (m m' : StreamingCommandModel) : Prop :=
  sm_started_at m' = sm_started_at m ∧ sm_last_activity m' = sm_last_activity m ∧ sm_cancelled m' = sm_cancelled m.

Lemma emit_line_step line m :
  let '(e, m') := emit_line line m in
  emit_step line (recent_of m) = (e, recent_of m')
  ∧ sm_pending m' = sm_pending m ∧ sm_pending_utf8 m' = sm_pending_utf8 m ∧ same_clocks m m'.
Proof.
  unfold emit_line, emit_step, recent_of, same_clocks. cbn [fst snd].
  destruct (is_empty (trim line) || bool_decide (sm_last_line m = Some (trim line))); done.
Qed.

Lemma split_line_length s line rest :
  split_line s = Some (line, rest) → (String.length rest < String.length s)%nat.
Proof.
  revert line. induction s as [|c s IH]; intros line; cbn; [done|].
  destruct (is_terminator c); [intros [= _ <-]; lia|].
  destruct (split_line s) as [[l r]|]; [|done]. intros [= _ <-]. specialize (IH _ eq_refl). lia.
Qed.

(** Without an over-long unfinished line, the loop emits the complete lines and
    keeps the rest. *)
Lemma line_loop_short fuel m ls r :
  (String.length (sm_pending m) < fuel)%nat → segs (sm_pending m) = (ls, r) →
  (String.length r <= MAX_STREAM_LINE_BYTES)%nat →
  let '(e, m') := line_loop fuel m in
  emit_all ls (recent_of m) = (e, recent_of m')
  ∧ sm_pending m' = r ∧ sm_pending_utf8 m' = sm_pending_utf8 m ∧ same_clocks m m'.
Proof.
  revert m ls. induction fuel as [|fuel IH]; intros m ls Hf Hs Hr; [lia|]. cbn [line_loop].
  rewrite segs_split in Hs. destruct (split_line (sm_pending m)) as [[line rest]|] eqn:E.
  - pose proof (split_line_length _ _ _ E) as Hl. injection Hs as <- <-.
    pose proof (emit_line_step line (with_text rest (sm_pending_utf8 m) m)) as Hem.
    destruct (emit_line line _) as [e m1]. cbn in Hem. destruct Hem as (He & Hp & Hu & Hc).
    specialize (IH m1 (fst (segs rest))). rewrite Hp in IH.
    specialize (IH ltac:(lia) ltac:(by destruct (segs rest)) Hr).
    destruct (line_loop fuel m1) as [es m2]. destruct IH as (Ha & Hp2 & Hu2 & Hc2).
    cbn. change (recent_of (with_text rest (sm_pending_utf8 m) m)) with (recent_of m) in He. rewrite He, Ha.
    unfold same_clocks in *. cbn in *. intuition congruence.
  - injection Hs as <- <-. destruct (Nat.ltb_spec MAX_STREAM_LINE_BYTES (String.length (sm_pending m))); [lia|].
    cbn. unfold same_clocks. by split_and!.
Qed.

(** An unfinished character decodes to nothing, an unfinished line to no line. *)
Lemma scan_rest s text rest : scan s = (text, rest) → scan rest = (EmptyString, rest).
Proof.
  revert text. induction s as [s IH] using bytes_ind. intros text. rewrite (scan_unfold s).
  destruct (utf8_step s) as [|n|n|] eqn:E; [by intros [= _ <-]| | |intros [= _ <-]; by rewrite scan_unfold, E].
  all: assert (1 <= n <= String.length s)%nat by (apply step_consumed; by rewrite E).
  all: destruct (scan (sdrop n s)) as [t r] eqn:Hs; intros [= _ <-].
  all: apply (IH (sdrop n s)) in Hs; [done|rewrite sdrop_length; lia].
Qed.

Lemma segs_rest s ls r : segs s = (ls, r) → segs r = ([], r).
Proof.
  revert ls r. induction s as [|c s IH]; intros ls r; [by intros [= _ <-]|]. cbn [segs].
  destruct (segs s) as [l r'] eqn:E. specialize (IH _ _ eq_refl).
  destruct (is_terminator c) eqn:Hc; [by intros [= _ <-]|]. destruct l; intros [= _ <-]; [|done].
  cbn [segs]. by rewrite IH, Hc.
Qed.

(** The pieces in order, then the end of the output. *)
Fixpoint feeds (chunks : list (string * Z)) (m : StreamingCommandModel) : list string * StreamingCommandModel :=
  match chunks with
  | [] => ([], m)
  | (chunk, now) :: chunks =>
      let '(events, m) := feed chunk now m in
      let '(more, m) := feeds chunks m in (events ++ more, m)
  end.
Definition stream (chunks : list (string * Z)) (m : StreamingCommandModel) : list string * StreamingCommandModel :=
  let '(events, m) := feeds chunks m in
  let '(last, m) := finish_output m in (events ++ last, m).

Fixpoint glue (chunks : list (string * Z)) : string :=
  match chunks with [] => EmptyString | (chunk, _) :: chunks => chunk +:+ glue chunks end.

Definition short_lines (text : string) : Prop :=
  Forall (λ l, String.length l <= MAX_STREAM_LINE_BYTES)%nat (all_lines text).

Lemma feed_spec chunk now m r u text u' ls r' :
  sm_pending m = r → sm_pending_utf8 m = u → scan (u +:+ chunk) = (text, u') → segs (r +:+ text) = (ls, r') →
  (String.length r' <= MAX_STREAM_LINE_BYTES)%nat →
  let '(e, m') := feed chunk now m in
  emit_all ls (recent_of m) = (e, recent_of m') ∧ sm_pending m' = r' ∧ sm_pending_utf8 m' = u'
  ∧ sm_cancelled m' = sm_cancelled m.
Proof.
  intros <- <- Hs Hl Hr. unfold feed, take_lines. rewrite decode_scan. cbn [touch sm_pending_utf8 sm_pending].
  rewrite Hs. set (m1 := with_text _ u' _).
  pose proof (line_loop_short (S (String.length (sm_pending m1))) m1 ls r' ltac:(lia) Hl Hr) as H.
  destruct (line_loop _ m1) as [e m2]. cbn in *. destruct H as (He & Hp & Hu & _ & _ & Hc). by split_and!.
Qed.

Lemma feeds_spec chunks : ∀ m r u text u' ls r' tail,
  sm_pending m = r → segs r = ([], r) → sm_pending_utf8 m = u → scan u = (EmptyString, u) →
  scan (u +:+ glue chunks) = (text, u') → segs (r +:+ text) = (ls, r') → short_lines (r +:+ text +:+ tail) →
  let '(e, m') := feeds chunks m in
  emit_all ls (recent_of m) = (e, recent_of m') ∧ sm_pending m' = r' ∧ sm_pending_utf8 m' = u'
  ∧ sm_cancelled m' = sm_cancelled m.
Proof.
  induction chunks as [|[chunk now] chunks IH]; intros m r u text u' ls r' tail Hp Hsr Hu Hsu Hs Hl Hshort; cbn in *.
  - rewrite append_nil_r, Hsu in Hs. injection Hs as <- <-. rewrite append_nil_r, Hsr in Hl. injection Hl as <- <-.
    by split_and!.
  - rewrite <-append_assoc, scan_app in Hs. destruct (scan (u +:+ chunk)) as [t1 u1] eqn:E1.
    destruct (scan (u1 +:+ glue chunks)) as [t2 u2] eqn:E2. injection Hs as <- <-.
    rewrite <-append_assoc, segs_app in Hl. destruct (segs (r +:+ t1)) as [l1 r1] eqn:F1.
    destruct (segs (r1 +:+ t2)) as [l2 r2] eqn:F2. injection Hl as <- <-.
    assert (short_lines (r1 +:+ t2 +:+ tail) ∧ String.length r1 <= MAX_STREAM_LINE_BYTES)%nat as [Hs1 Hr1].
    { unfold short_lines in *. rewrite append_assoc, <-(append_assoc r), (all_lines_app _ _ _ _ F1) in Hshort.
      apply Forall_app in Hshort as [_ Hshort]. split; [done|].
      destruct (all_lines_head r1 (t2 +:+ tail) (segs_rest _ _ _ F1)) as (l & Hl & Hlen).
      rewrite Forall_forall in Hshort. specialize (Hshort l Hl). cbn in Hshort. lia. }
    pose proof (feed_spec chunk now m r u t1 u1 l1 r1 Hp Hu E1 F1 Hr1) as Hf.
    destruct (feed chunk now m) as [e1 m1]. destruct Hf as (He1 & Hp1 & Hu1 & Hc1).
    specialize (IH m1 r1 u1 t2 u2 l2 r2 tail Hp1 (segs_rest _ _ _ F1) Hu1 (scan_rest _ _ _ E1) E2 F2 Hs1).
    destruct (feeds chunks m1) as [e2 m2]. destruct IH as (He2 & Hp2 & Hu2 & Hc2).
    rewrite emit_all_app, He1, He2. split_and!; congruence.
Qed.

Lemma lossy_scan s : from_utf8_lossy s = let '(text, rest) := scan s in text +:+ flushed rest.
Proof.
  unfold from_utf8_lossy. generalize (Nat.lt_succ_diag_r (String.length s)). generalize (S (String.length s)) as fuel.
  intros fuel. revert s. induction fuel as [|fuel IH]; intros s Hf; [lia|]. rewrite scan_unfold. cbn [lossy_loop].
  destruct (utf8_step s) as [|n|n|] eqn:E; [done| | |by destruct s].
  all: assert (1 <= n <= String.length s)%nat by (apply step_consumed; by rewrite E).
  all: rewrite IH by (rewrite sdrop_length; lia); destruct (scan (sdrop n s)); by rewrite append_assoc.
Qed.

Lemma segs_flushed r u : segs r = ([], r) → segs (r +:+ flushed u) = ([], r +:+ flushed u).
Proof.
  intros H. unfold flushed. destruct (is_empty u); [by rewrite append_nil_r|]. rewrite segs_app, H.
  cut (segs (r +:+ REPLACEMENT) = ([], r +:+ REPLACEMENT)); [by intros ->|].
  clear u. induction r as [|c r IH]; [done|]. rewrite append_cons. cbn [segs] in *.
  destruct (segs r) as [l r'] eqn:E. destruct (is_terminator c); [done|]. destruct l; [|done].
  injection H as ->. by rewrite IH.
Qed.

Lemma finish_spec m r u :
  sm_pending m = r → segs r = ([], r) → sm_pending_utf8 m = u → scan u = (EmptyString, u) →
  (String.length (r +:+ flushed u) <= MAX_STREAM_LINE_BYTES)%nat →
  let '(e, m') := finish_output m in
  emit_all [r +:+ flushed u] (recent_of m) = (e, recent_of m') ∧ sm_pending m' = EmptyString
  ∧ sm_pending_utf8 m' = EmptyString ∧ sm_cancelled m' = sm_cancelled m.
Proof.
  intros Hp Hr Hu Hs Hlen. unfold finish_output, take_lines. rewrite decode_scan, Hu, append_nil_r, Hs, append_nil_l, Hp.
  set (m1 := with_text _ _ m).
  pose proof (line_loop_short (S (String.length (sm_pending m1))) m1 [] _ ltac:(lia) (segs_flushed r u Hr) Hlen) as H.
  destruct (line_loop _ m1) as [e m2]. cbn [emit_all] in H. destruct H as (Hrec & Hp2 & Hu2 & _ & _ & Hc).
  injection Hrec as <- Hl Hrec. rewrite Hp2. cbn [andb]. unfold recent_of. cbn [emit_all].
  destruct (is_empty (r +:+ flushed u)) eqn:Hz; cbn [negb].
  - apply is_empty_true in Hz. rewrite Hz in *. cbn in *. rewrite Hl, Hrec. by split_and!.
  - pose proof (emit_line_step (r +:+ flushed u) (with_text EmptyString (sm_pending_utf8 m2) m2)) as H.
    destruct (emit_line _ _) as [e m3]. destruct H as (He & Hp3 & Hu3 & _ & _ & Hc3).
    unfold recent_of in He. cbn in *. rewrite Hl, Hrec, He, app_nil_r. split_and!; congruence.
Qed.

(** C28: when no line of the decoded output is longer than the limit of 64 KiB,
    whatever the pieces, the events are those of the decoded output cut into
    lines at once, and nothing is left in the buffers.  With a longer line they
    depend on the pieces: [long_line_depends]. *)
Theorem framing_chunk_independent chunks now rx :
  let text := from_utf8_lossy (glue chunks) in
  short_lines text →
  let '(events, m) := stream chunks (new_stream now rx) in
  emit_all (all_lines text) (None, []) = (events, recent_of m)
  ∧ sm_pending m = EmptyString ∧ sm_pending_utf8 m = EmptyString.
Proof.
  intros text. subst text. rewrite lossy_scan. unfold stream. destruct (scan (glue chunks)) as [t u] eqn:Hs.
  destruct (segs t) as [ls r] eqn:Hl. intros Hshort.
  pose proof (feeds_spec chunks (new_stream now rx) EmptyString EmptyString t u ls r (flushed u) eq_refl eq_refl
    eq_refl eq_refl Hs Hl Hshort) as Hf.
  destruct (feeds chunks _) as [e m]. destruct Hf as (He & Hp & Hu & _).
  assert (all_lines (t +:+ flushed u) = ls ++ [r +:+ flushed u]) as Hall.
  { rewrite (all_lines_app _ _ _ _ Hl). unfold all_lines. by rewrite (segs_flushed _ _ (segs_rest _ _ _ Hl)). }
  unfold short_lines in Hshort. rewrite Hall in *. apply Forall_app in Hshort as [_ Hlast]. apply Forall_inv in Hlast.
  pose proof (finish_spec m r u Hp (segs_rest _ _ _ Hl) Hu (scan_rest _ _ _ Hs) Hlast) as Hfin.
  destruct (finish_output m) as [e' m']. destruct Hfin as (He' & Hp' & Hu' & _).
  rewrite emit_all_app. change (None, []) with (recent_of (new_stream now rx)). by rewrite He, He'.
Qed.

(** * The buffers are bounded *)

(** Valid UTF-8, as [String] guarantees. *)
Inductive valid : string → Prop :=
  | valid_nil : valid EmptyString
  | valid_char s n : utf8_step s = UChar n → valid (sdrop n s) → valid s.

Lemma step_app_char a b n : utf8_step a = UChar n → utf8_step (a +:+ b) = UChar n.
Proof. intros E. rewrite (step_app a b n) by (by rewrite E). done. Qed.

Lemma valid_app a b : valid a → valid b → valid (a +:+ b).
Proof.
  intros Ha Hb. induction Ha as [|a n E _ IH]; [done|].
  assert (1 <= n <= String.length a)%nat by (apply step_consumed; by rewrite E).
  apply valid_char with n; [by apply step_app_char|]. by rewrite sdrop_app by lia.
Qed.

Lemma step_stake s n : utf8_step s = UChar n → utf8_step (stake n s) = UChar n ∧ sdrop n (stake n s) = EmptyString.
Proof.
  destruct s as [|a s]; [done|]. intros E. unfold utf8_step in E.
  repeat match type of E with
  | context [if ?b then _ else _] => destruct b eqn:?; try done
  | context [match ?s with EmptyString => _ | String _ _ => _ end] => destruct s; try done
  end; injection E as <-; cbn; repeat match goal with H : _ = _ |- _ => rewrite H end; by destruct s.
Qed.

Lemma scan_valid s text rest : scan s = (text, rest) → valid text.
Proof.
  revert text rest. induction s as [s IH] using bytes_ind. intros text rest. rewrite (scan_unfold s).
  destruct (utf8_step s) as [|n|n|] eqn:E; [intros [= <- _]; constructor| | |intros [= <- _]; constructor].
  all: assert (1 <= n <= String.length s)%nat by (apply step_consumed; by rewrite E).
  all: destruct (scan (sdrop n s)) as [t r] eqn:Hs; intros [= <- _].
  all: apply (IH (sdrop n s)) in Hs; [|rewrite sdrop_length; lia].
  all: apply valid_app; [|done].
  - apply step_stake in E as [E1 E2]. apply valid_char with n; [done|]. rewrite E2. constructor.
  - apply valid_char with 3%nat; [done|]. constructor.
Qed.

Lemma scan_rest_short s text rest : scan s = (text, rest) → (String.length rest <= 3)%nat.
Proof.
  revert text rest. induction s as [s IH] using bytes_ind. intros text rest. rewrite (scan_unfold s).
  destruct (utf8_step s) as [|n|n|] eqn:E.
  - intros [= _ <-]. cbn. lia.
  - assert (1 <= n <= String.length s)%nat by (apply step_consumed; by rewrite E).
    destruct (scan (sdrop n s)) as [t r] eqn:Hs. intros [= _ <-]. eapply IH; [|exact Hs]. rewrite sdrop_length. lia.
  - assert (1 <= n <= String.length s)%nat by (apply step_consumed; by rewrite E).
    destruct (scan (sdrop n s)) as [t r] eqn:Hs. intros [= _ <-]. eapply IH; [|exact Hs]. rewrite sdrop_length. lia.
  - intros [= _ <-]. destruct s as [|a s]; [done|]. unfold utf8_step in E.
    repeat match type of E with
    | context [if ?b then _ else _] => destruct b; try done
    | context [match ?s with EmptyString => _ | String _ _ => _ end] => destruct s; try done
    end; cbn; lia.
Qed.

(** The bytes of a character after its first continue it, and its first does not. *)
Lemma cont_of_3 a b : second_of_3 a b = true → is_cont b = true.
Proof.
  unfold second_of_3, is_cont, byte_in. repeat case_match; rewrite ?andb_true_iff, ?Z.leb_le; lia.
Qed.
Lemma cont_of_4 a b : second_of_4 a b = true → is_cont b = true.
Proof.
  unfold second_of_4, is_cont, byte_in. repeat case_match; rewrite ?andb_true_iff, ?Z.leb_le; lia.
Qed.

Lemma char_shape s n :
  utf8_step s = UChar n →
  (1 <= n <= 4)%nat ∧ char_boundary s 0 = true ∧ ∀ j, (0 < j < n)%nat → char_boundary s j = false.
Proof.
  destruct s as [|a s]; [done|]. intros E. unfold utf8_step in E.
  assert (∀ lo hi, byte_in lo hi a = true → (hi < 128 ∨ 191 < lo) → is_cont a = false) as Ha.
  { intros lo hi. unfold is_cont, byte_in. rewrite andb_true_iff, !Z.leb_le. intros. rewrite andb_false_iff, !Z.leb_gt. lia. }
  repeat match type of E with
  | context [if ?b then _ else _] => destruct b eqn:?; try done
  | context [match ?s with EmptyString => _ | String _ _ => _ end] => destruct s; try done
  end; injection E as <-.
  all: split_and!; [lia|lia| |].
  all: try (unfold char_boundary; cbn; erewrite Ha by (eauto; lia); done).
  all: repeat match goal with
       | H : second_of_3 _ _ = true |- _ => apply cont_of_3 in H
       | H : second_of_4 _ _ = true |- _ => apply cont_of_4 in H
       end.
  all: intros [|[|[|[|j]]]] Hj; try lia; unfold char_boundary; cbn;
       repeat match goal with H : is_cont _ = true |- _ => rewrite H; clear H end; done.
Qed.

Lemma valid_head s : valid s → char_boundary s 0 = true.
Proof. intros [|s' n E _]; [done|]. by apply char_shape in E as (_ & ? & _). Qed.

Lemma sdrop_sdrop i j s : sdrop i (sdrop j s) = sdrop (j + i) s.
Proof. revert j. induction s as [|c s IH]; intros [|j]; cbn; [by destruct i|by destruct i|done|apply IH]. Qed.
Lemma stake_split i j s : stake (j + i) s = stake j s +:+ stake i (sdrop j s).
Proof.
  revert j. induction s as [|c s IH]; intros [|j]; cbn; [by destruct i|by destruct i|done|].
  rewrite append_cons. f_equal. apply IH.
Qed.

(** Cutting valid text at a character boundary leaves two valid texts. *)
Lemma cut_valid s n : valid s → char_boundary s n = true → valid (stake n s) ∧ valid (sdrop n s).
Proof.
  intros Hv. revert n. induction Hv as [|s k E Hv IH]; intros n Hb; [destruct n; split; constructor|].
  pose proof (char_shape _ _ E) as (Hk & _ & Hin).
  destruct (decide (n = O)) as [->|Hn]; [split; [destruct s; constructor|by apply valid_char with k]|].
  destruct (decide (n < k)%nat) as [Hlt|Hge]; [rewrite Hin in Hb by lia; done|].
  assert (n = k + (n - k))%nat as -> by lia. destruct (IH (n - k)%nat) as [H1 H2].
  { unfold char_boundary in *. rewrite sdrop_sdrop. by replace (k + (n - k))%nat with n by lia. }
  rewrite stake_split, <-sdrop_sdrop. split; [|done]. apply valid_app; [|done].
  apply step_stake in E as [E1 E2]. apply valid_char with k; [done|]. rewrite E2. constructor.
Qed.

Lemma boundary_before_spec s n b :
  char_boundary s b = true → (b <= n)%nat →
  (b <= boundary_before s n <= n)%nat ∧ char_boundary s (boundary_before s n) = true.
Proof.
  intros Hb. induction n as [|n IH]; intros Hn; cbn [boundary_before].
  - assert (b = O) as -> by lia. by rewrite Hb.
  - destruct (char_boundary s (S n)) eqn:E; [split; [lia|done]|].
    assert (b <> S n) by congruence. destruct IH as [? ?]; [lia|]. split; [lia|done].
Qed.

(** The cut of an over-long line is inside it, and between two characters. *)
Lemma cut_progress s :
  valid s → (MAX_STREAM_LINE_BYTES < String.length s)%nat →
  let cut := boundary_before s MAX_STREAM_LINE_BYTES in
  (1 <= cut <= MAX_STREAM_LINE_BYTES)%nat ∧ valid (sdrop cut s).
Proof.
  intros Hv Hlen. assert (4 <= MAX_STREAM_LINE_BYTES)%nat by (unfold MAX_STREAM_LINE_BYTES; lia).
  destruct Hv as [|s k E Hv]; [cbn in Hlen; lia|]. pose proof (char_shape _ _ E) as (Hk & _ & _).
  assert (char_boundary s k = true) as Hb.
  { pose proof (valid_head _ Hv) as H0. unfold char_boundary in *. by rewrite sdrop_sdrop, Nat.add_0_r in H0. }
  destruct (boundary_before_spec s MAX_STREAM_LINE_BYTES k Hb) as [Hr Hc]; [lia|]. split; [lia|].
  apply cut_valid; [by apply valid_char with k|done].
Qed.

Lemma split_line_spec s line rest :
  split_line s = Some (line, rest) → ∃ c, s = line +:+ String c rest ∧ is_terminator c = true.
Proof.
  revert line. induction s as [|c s IH]; intros line; cbn; [done|].
  destruct (is_terminator c) eqn:Hc; [intros [= <- <-]; by exists c|].
  destruct (split_line s) as [[l r]|]; [|done]. intros [= <- <-]. destruct (IH _ eq_refl) as (d & -> & Hd).
  by exists d.
Qed.

Lemma split_line_valid s line rest : valid s → split_line s = Some (line, rest) → valid rest.
Proof.
  intros Hv Hs. apply split_line_spec in Hs as (c & -> & Hc).
  assert (sdrop (String.length line) (line +:+ String c rest) = String c rest) as Hd.
  { rewrite sdrop_app by lia. clear. by induction line. }
  assert (byte_in 0 127 c = true ∧ is_cont c = false) as [Ha Hn].
  { unfold is_terminator, is_cont, byte_in in *. rewrite orb_true_iff, !Z.eqb_eq in Hc.
    rewrite andb_true_iff, andb_false_iff, !Z.leb_le, !Z.leb_gt. lia. }
  destruct (cut_valid _ (String.length line) Hv) as [_ H]; [unfold char_boundary; by rewrite Hd, Hn|].
  rewrite Hd in H. inversion H as [|s n E Hv' Hs]. unfold utf8_step in E. rewrite Ha in E. by injection E as <-.
Qed.

(** What a stream's buffers hold between two reads. *)
Record ok_stream (m : StreamingCommandModel) : Prop := {
  ok_text : valid (sm_pending m);
  ok_unterminated : split_line (sm_pending m) = None;
  ok_pending : (String.length (sm_pending m) <= MAX_STREAM_LINE_BYTES)%nat;
  ok_utf8 : (String.length (sm_pending_utf8 m) <= 3)%nat;
  ok_recent : (length (sm_recent_output m) <= RECENT_OUTPUT_LINES)%nat;
  ok_lines : Forall (λ l, l ≠ EmptyString ∧ trim l = l) (sm_recent_output m);
  ok_last : sm_last_line m = last (sm_recent_output m);
}.

(** The part of the invariant that emitting a line keeps. *)
Record ok_recents (m : StreamingCommandModel) : Prop := {
  or_recent : (length (sm_recent_output m) <= RECENT_OUTPUT_LINES)%nat;
  or_lines : Forall (λ l, l ≠ EmptyString ∧ trim l = l) (sm_recent_output m);
  or_last : sm_last_line m = last (sm_recent_output m);
}.

Lemma emit_line_ok line m :
  ok_recents m →
  let m' := snd (emit_line line m) in
  ok_recents m' ∧ sm_pending m' = sm_pending m ∧ sm_pending_utf8 m' = sm_pending_utf8 m.
Proof.
  intros [Hr Hl Hlast]. unfold emit_line. destruct (is_empty (trim line)) eqn:Hz; [done|].
  destruct (bool_decide _); [done|]. cbn. split_and!; [|done..].
  apply is_empty_false in Hz. split; cbn.
  - rewrite length_app. cbn. destruct (Nat.eqb_spec (length (sm_recent_output m)) RECENT_OUTPUT_LINES).
    + destruct (sm_recent_output m); unfold RECENT_OUTPUT_LINES in *; cbn in *; lia.
    + lia.
  - apply Forall_app; split; [|repeat constructor; [done|apply trim_idemp]].
    destruct (_ =? _)%nat; [|done]. destruct (sm_recent_output m); [done|by apply Forall_inv_tail in Hl].
  - by rewrite last_snoc.
Qed.

Lemma line_loop_ok fuel m :
  (String.length (sm_pending m) < fuel)%nat → valid (sm_pending m) → ok_recents m →
  let m' := snd (line_loop fuel m) in
  ok_recents m' ∧ valid (sm_pending m') ∧ split_line (sm_pending m') = None
  ∧ (String.length (sm_pending m') <= MAX_STREAM_LINE_BYTES)%nat ∧ sm_pending_utf8 m' = sm_pending_utf8 m.
Proof.
  revert m. induction fuel as [|fuel IH]; intros m Hf Hv Hr; [lia|]. cbn [line_loop].
  assert (∀ line rest, valid rest → (String.length rest < String.length (sm_pending m))%nat →
    let m' := snd (let '(events, m) := emit_line line (with_text rest (sm_pending_utf8 m) m) in
                   let '(more, m) := line_loop fuel m in (events ++ more, m)) in
    ok_recents m' ∧ valid (sm_pending m') ∧ split_line (sm_pending m') = None
    ∧ (String.length (sm_pending m') <= MAX_STREAM_LINE_BYTES)%nat ∧ sm_pending_utf8 m' = sm_pending_utf8 m) as Hstep.
  { intros line rest Hrest Hlen.
    destruct (emit_line_ok line (with_text rest (sm_pending_utf8 m) m)) as (H1 & H2 & H3); [by destruct Hr|].
    destruct (emit_line line _) as [e m1]. cbn [snd] in *. cbn in H2, H3.
    specialize (IH m1). rewrite H2 in IH. specialize (IH ltac:(lia) Hrest H1).
    destruct (line_loop fuel m1) as [es m2]. cbn in *. by rewrite <-H3. }
  destruct (split_line (sm_pending m)) as [[line rest]|] eqn:E.
  - apply Hstep; [by eapply split_line_valid|by eapply split_line_length].
  - destruct (Nat.ltb_spec MAX_STREAM_LINE_BYTES (String.length (sm_pending m))) as [Hlt|Hle]; [|done].
    destruct (cut_progress _ Hv Hlt) as [Hc Hvc]. apply Hstep; [done|]. rewrite sdrop_length. lia.
Qed.

Lemma feed_ok chunk now m : ok_stream m → ok_stream (snd (feed chunk now m)).
Proof.
  intros [Hv Hn Hp Hu Hr Hl Hlast]. unfold feed, take_lines. rewrite decode_scan. cbn [touch sm_pending_utf8 sm_pending].
  destruct (scan (sm_pending_utf8 m +:+ chunk)) as [t u] eqn:Hs. set (m1 := with_text _ u _). cbn [andb].
  destruct (line_loop_ok (S (String.length (sm_pending m1))) m1) as ([] & H2 & H3 & H4 & H5);
    [lia|apply valid_app; [done|by eapply scan_valid]|done|].
  destruct (line_loop _ m1) as [e m2]. cbn in *. split; try done. rewrite H5. by eapply scan_rest_short.
Qed.

(** C33: whatever a command prints, and in whatever pieces, the buffers of its stream
    stay well formed and bounded. *)
Theorem stream_bounded chunks now rx : ok_stream (snd (feeds chunks (new_stream now rx))).
Proof.
  assert (ok_stream (new_stream now rx)) as H by (split; cbn; [constructor|done|lia|lia|lia|constructor|done]).
  revert H. generalize (new_stream now rx) as m.
  induction chunks as [|[c t] chunks IH]; intros m Hm; [done|]. cbn [feeds].
  pose proof (feed_ok c t m Hm) as Hf. destruct (feed c t m) as [e m1]. specialize (IH m1 Hf).
  by destruct (feeds chunks m1).
Qed.

(** * The log file *)

Definition MAX_INSTALLER_LOG_BYTES : nat := Z.to_nat 1048576.

(** What the system does with one [append_installer_log_at]: whether the file
    opens (it does not through a symbolic link), takes the mode, is measured and
    is cut, and how many bytes a write gets through. *)
Record LogOs := {
  lo_open : bool;
  lo_chmod : bool;
  lo_metadata : bool;
  lo_set_len : bool;
  lo_write : nat;
  lo_newline : nat;
}.

Definition append_installer_log_at (os : LogOs) (line content : string) : string :=
  if negb (lo_open os) then content
  else if negb (lo_chmod os) then content
  else if (MAX_INSTALLER_LOG_BYTES <=? String.length line)%nat then
    if negb (lo_set_len os) then content
    else
      let suffix := sdrop (String.length line - (MAX_INSTALLER_LOG_BYTES - 1)) line in
      stake (lo_write os) suffix +:+ stake (lo_newline os) newline
  else
    let line_bytes := S (String.length line) in
    let over := lo_metadata os && (MAX_INSTALLER_LOG_BYTES <? String.length content + line_bytes)%nat in
    if over && negb (lo_set_len os) then content
    else (if over then EmptyString else content) +:+ stake (lo_write os) line +:+ stake (lo_newline os) newline.

Lemma stake_length n s : (String.length (stake n s) <= String.length s)%nat.
Proof. revert n. induction s as [|c s IH]; intros [|n]; cbn; [lia..|]. specialize (IH n). lia. Qed.

(** The log file never grows past its limit, whatever is logged and whichever
    of the file operations fail. *)
Theorem log_bounded os line content :
  lo_metadata os = true → (String.length content <= MAX_INSTALLER_LOG_BYTES)%nat →
  (String.length (append_installer_log_at os line content) <= MAX_INSTALLER_LOG_BYTES)%nat.
Proof.
  intros Hm Hc. unfold append_installer_log_at. rewrite Hm. cbn [andb].
  assert (1 <= MAX_INSTALLER_LOG_BYTES)%nat as Hpos by (unfold MAX_INSTALLER_LOG_BYTES; lia).
  pose proof (stake_length (lo_newline os) newline) as Hn. change (String.length newline) with 1%nat in Hn.
  destruct (lo_open os); [|done]. destruct (lo_chmod os); [|done]. cbn [negb].
  destruct (Nat.leb_spec MAX_INSTALLER_LOG_BYTES (String.length line)) as [Hl|Hl].
  - destruct (lo_set_len os); [|done]. cbn [negb]. rewrite slen_append.
    pose proof (stake_length (lo_write os) (sdrop (String.length line - (MAX_INSTALLER_LOG_BYTES - 1)) line)) as Hw.
    rewrite sdrop_length in Hw. lia.
  - pose proof (stake_length (lo_write os) line) as Hw.
    destruct (Nat.ltb_spec MAX_INSTALLER_LOG_BYTES (String.length content + S (String.length line))).
    + destruct (lo_set_len os); [|done]. cbn [negb andb]. rewrite append_nil_l, slen_append. lia.
    + cbn [andb]. rewrite !slen_append. lia.
Qed.

(** * Supervising a command *)

Definition OPERATION_STALL_WARN_AFTER : Z := 600.
Definition OPERATION_STALL_TIMEOUT : Z := 1800.
Definition DEFAULT_OPERATION_TIMEOUT : Z := 14400000.

Inductive ReadResult :=
| ReadEof
| ReadBytes (chunk : string)
| ReadWouldBlock
| ReadInterrupted
| ReadError (e : string).

Inductive WaitResult :=
| Running
| ExitedWith (code : option Z)
| WaitFailed (e : string).

(** What one turn of the loop of [run_child] observes: the cancellation flag, the
    milliseconds since the start, the read and the seconds at it, and the wait. *)
Record Tick := {
  tk_cancel : bool;
  tk_elapsed : Z;
  tk_read : ReadResult;
  tk_read_secs : Z;
  tk_wait : WaitResult;
}.

Inductive Effect := LogLine (line : string) | StallWarning (line : string) | KillGroup.

Record Run := { rn_model : StreamingCommandModel; rn_closed : bool; rn_warned : bool }.

Definition STALL_WARNING : string :=
  "warning: no installer output for " +:+ show_int (OPERATION_STALL_WARN_AFTER / 60) +:+
  " minutes; the operation may be stalled".

(** The end of a turn: [try_wait]. *)
Definition poll_child (effects : list Effect) (t : Tick) (r : Run) : list Effect * (Run + result (option Z)) :=
  match tk_wait t with
  | WaitFailed e => (effects, inr (Err ("could not poll streaming command: " +:+ e)))
  | ExitedWith code =>
      let '(events, m) := finish_output (rn_model r) in
      (effects ++ (LogLine <$> events),
       inr (match finish_status (unwrap_or code 1) m with Ok _ => Ok code | Err e => Err e end))
  | Running => (effects, inl r)
  end.

(** One turn of the loop. *)
Definition tick (timeout : Z) (t : Tick) (r : Run) : list Effect * (Run + result (option Z)) :=
  if tk_cancel t then ([KillGroup], inr (Err DESTRUCTIVE_CANCEL_MESSAGE))
  else if timeout <=? tk_elapsed t then
    ([KillGroup], inr (Err ("Command timed out after " +:+ show_int (timeout / 1000) +:+ " seconds")))
  else
    let secs := tk_elapsed t / 1000 in
    let warn := negb (rn_warned r) && (OPERATION_STALL_WARN_AFTER <=? idle_seconds secs (rn_model r)) in
    let effects := if warn then [StallWarning STALL_WARNING] else [] in
    let r := {| rn_model := rn_model r; rn_closed := rn_closed r; rn_warned := rn_warned r || warn |} in
    match timeout_error secs OPERATION_STALL_TIMEOUT u64_max None (rn_model r) with
    | Some e => (effects ++ [KillGroup], inr (Err e))
    | None =>
        if rn_closed r then poll_child effects t r
        else
          match tk_read t with
          | ReadEof => poll_child effects t {| rn_model := rn_model r; rn_closed := true; rn_warned := rn_warned r |}
          | ReadBytes chunk =>
              let '(events, m) := feed chunk (tk_read_secs t) (rn_model r) in
              poll_child (effects ++ (LogLine <$> events)) t
                {| rn_model := m; rn_closed := rn_closed r; rn_warned := rn_warned r |}
          | ReadWouldBlock => poll_child effects t r
          | ReadInterrupted => (effects, inl r)
          | ReadError e => (effects ++ [KillGroup], inr (Err ("could not read streaming command output: " +:+ e)))
          end
    end.

(** The loop, over the turns it makes; [None] while the command is still running. *)
Fixpoint run_loop (timeout : Z) (ticks : list Tick) (r : Run) : list Effect * option (result (option Z)) :=
  match ticks with
  | [] => ([], None)
  | t :: ticks =>
      match tick timeout t r with
      | (effects, inr res) => (effects, Some res)
      | (effects, inl r) => let '(more, res) := run_loop timeout ticks r in (effects ++ more, res)
      end
  end.

(** The stdout of the child is taken and made non-blocking first. *)
Definition run_child (setup : result unit) (timeout : Z) (ticks : list Tick) : list Effect * option (result (option Z)) :=
  match setup with
  | Err e => ([], Some (Err e))
  | Ok _ => run_loop timeout ticks {| rn_model := new_stream 0 0; rn_closed := false; rn_warned := false |}
  end.

(** A command as the system runs it: its spawn, what [run_child] observes, and the
    wait that follows a failure. *)
Record Command := {
  cm_spawn : result unit;
  cm_input : result unit;
  cm_setup : result unit;
  cm_ticks : list Tick;
  cm_last_wait : WaitResult;
}.

(** What follows [run_child]: the group of a failed command that has not exited is
    killed. *)
Definition settle (c : Command) (run : list Effect * option (result (option Z))) : list Effect * option (result (option Z)) :=
  let '(effects, res) := run in
  match res with
  | Some (Err e) =>
      (effects ++ (match cm_last_wait c with ExitedWith _ => [] | _ => [KillGroup] end), res)
  | _ => (effects, res)
  end.

Definition run_command_timeout (timeout : Z) (c : Command) : list Effect * option (result (option Z)) :=
  match cm_spawn c with
  | Err e => ([], Some (Err ("could not spawn streaming command: " +:+ e)))
  | Ok _ => settle c (run_child (cm_setup c) timeout (cm_ticks c))
  end.

Definition run_command (c : Command) : list Effect * option (result (option Z)) :=
  match cm_spawn c with
  | Err e => ([], Some (Err ("could not spawn streaming command: " +:+ e)))
  | Ok _ => settle c (run_child (cm_setup c) DEFAULT_OPERATION_TIMEOUT (cm_ticks c))
  end.

Definition run_command_with_input (c : Command) : list Effect * option (result (option Z)) :=
  match cm_spawn c with
  | Err e => ([], Some (Err ("could not spawn helper operation: " +:+ e)))
  | Ok _ =>
      match cm_input c with
      | Err e => ([KillGroup], Some (Err ("could not provide helper operation input: " +:+ e)))
      | Ok _ => settle c (run_child (cm_setup c) DEFAULT_OPERATION_TIMEOUT (cm_ticks c))
      end
  end.

(** ** The loop ends *)

(** If some turn decides whatever state it finds, the loop returns. *)
Lemma run_loop_decides (P : Run → Prop) timeout ticks r :
  P r → (∀ t r e r', t ∈ ticks → P r → tick timeout t r = (e, inl r') → P r') →
  (∃ t, t ∈ ticks ∧ ∀ r e r', P r → tick timeout t r ≠ (e, inl r')) →
  ∃ effects res, run_loop timeout ticks r = (effects, Some res).
Proof.
  intros HP Hpres (t & Ht & Hdec). revert r HP. induction ticks as [|t0 ticks IH]; intros r HP; [by apply not_elem_of_nil in Ht|].
  cbn [run_loop]. destruct (tick timeout t0 r) as [e [r'|res]] eqn:E; [|eauto].
  assert (t ∈ ticks) as Hin.
  { apply elem_of_cons in Ht as [->|?]; [|done]. by destruct (Hdec r e r' HP). }
  destruct (IH ltac:(intros; eapply Hpres; [by right|..]; done) Hin r') as (e' & res & ->);
    [eapply Hpres; [by left|..]; done|eauto].
Qed.

Definition command_starts (c : Command) : Prop := cm_spawn c = Ok tt ∧ cm_setup c = Ok tt.

(** The turn of a command that has printed nothing when the stall time-out has passed. *)
Definition silent (ticks : list Tick) : Prop := Forall (λ t, ∀ chunk, tk_read t ≠ ReadBytes chunk) ticks.

Lemma poll_child_inl effects t r e r' : poll_child effects t r = (e, inl r') → r' = r.
Proof. unfold poll_child. destruct (tk_wait t); [by intros [= _ <-]|by destruct (finish_output _)|done]. Qed.

Lemma tick_decisive timeout t r e r' :
  tk_cancel t = true ∨ timeout <= tk_elapsed t → tick timeout t r ≠ (e, inl r').
Proof.
  unfold tick. destruct (tk_cancel t); [done|]. destruct (Z.leb_spec timeout (tk_elapsed t)); [done|]. intros [?|?]; [done|lia].
Qed.

Lemma tick_silent timeout t r e r' :
  (∀ chunk, tk_read t ≠ ReadBytes chunk) → tick timeout t r = (e, inl r') →
  rn_model r' = rn_model r.
Proof.
  intros Hq. unfold tick. destruct (tk_cancel t); [done|]. destruct (timeout <=? _); [done|].
  destruct (timeout_error _ _ _ _ _); [done|]. cbn. destruct (rn_closed r); [by intros ->%poll_child_inl|].
  destruct (tk_read t) eqn:Er; [by intros ->%poll_child_inl|by destruct (Hq chunk)|by intros ->%poll_child_inl|
    by intros [= _ <-]|done].
Qed.

Lemma tick_stalled timeout t r e r' :
  sm_last_activity (rn_model r) = 0 → 1801000 <= tk_elapsed t → tick timeout t r ≠ (e, inl r').
Proof.
  intros Ha Ht. unfold tick. destruct (tk_cancel t); [done|]. destruct (timeout <=? _); [done|].
  unfold timeout_error. cbn [rn_model]. rewrite Ha.
  assert (1801 <= tk_elapsed t / 1000) by (apply Z.div_le_lower_bound; lia).
  assert (OPERATION_STALL_TIMEOUT <? sat_sub64 (tk_elapsed t / 1000) 0 = true) as ->; [|done].
  apply Z.ltb_lt. unfold OPERATION_STALL_TIMEOUT, sat_sub64. lia.
Qed.

(** A command is given up: a turn that sees the cancellation or the deadline ends
    the run, and so does one more than half an hour into a run without output. *)
Theorem command_given_up timeout c :
  command_starts c →
  (∃ t, t ∈ cm_ticks c ∧ (tk_cancel t = true ∨ timeout <= tk_elapsed t ∨
                           (silent (cm_ticks c) ∧ 1801000 <= tk_elapsed t))) →
  ∃ effects res, run_command_timeout timeout c = (effects, Some res).
Proof.
  intros [Hs Hp] (t & Hin & Ht). unfold run_command_timeout, run_child. rewrite Hs, Hp.
  set (r0 := {| rn_model := _; rn_closed := _; rn_warned := _ |}).
  assert (∃ effects res, run_loop timeout (cm_ticks c) r0 = (effects, Some res)) as (e & res & ->).
  { destruct Ht as [Ht|[Ht|[Hq Ht]]].
    1,2: apply (run_loop_decides (λ _, True)); [done|done|]; exists t; split; [done|]; intros; apply tick_decisive; auto.
    apply (run_loop_decides (λ r, sm_last_activity (rn_model r) = 0)); [done| |].
    - intros t' r e r' Ht' Hr E. unfold silent in Hq. rewrite Forall_forall in Hq.
      by rewrite (tick_silent _ _ _ _ _ (Hq t' Ht') E).
    - exists t. split; [done|]. intros. by apply tick_stalled. }
  destruct res as [code|err]; cbn; eauto.
Qed.

(** ** No command outlives its supervisor *)

Definition exit_observed (c : Command) : Prop :=
  (∃ code, cm_last_wait c = ExitedWith code) ∨ ∃ t code, t ∈ cm_ticks c ∧ tk_wait t = ExitedWith code.

(** When a started command fails, its process group was killed or its exit was seen. *)
Theorem failure_leaves_no_child timeout c effects e :
  cm_spawn c = Ok tt → run_command_timeout timeout c = (effects, Some (Err e)) →
  KillGroup ∈ effects ∨ exit_observed c.
Proof.
  intros Hs. unfold run_command_timeout, settle. rewrite Hs. destruct (run_child _ _ _) as [eff [[code|err]|]]; [done| |done].
  intros [= <- <-]. unfold exit_observed. destruct (cm_last_wait c); [|right; eauto|].
  all: left; apply elem_of_app; right; by left.
Qed.

(** ** What is logged *)

(** The pieces the loop reads: none once the pipe is closed. *)
Fixpoint chunks_read (closed : bool) (ticks : list Tick) : list (string * Z) :=
  match ticks with
  | [] => []
  | t :: ticks =>
      if closed then chunks_read true ticks
      else match tk_read t with
           | ReadEof => chunks_read true ticks
           | ReadBytes chunk => (chunk, tk_read_secs t) :: chunks_read false ticks
           | _ => chunks_read false ticks
           end
  end.

(** The logged lines, stall warnings apart. *)
Definition logs (effects : list Effect) : list string :=
  omap (λ e, match e with LogLine l => Some l | _ => None end) effects.

Lemma logs_app a b : logs (a ++ b) = logs a ++ logs b.
Proof. apply omap_app. Qed.
Lemma logs_lines l : logs (LogLine <$> l) = l.
Proof. induction l as [|x l IH]; [done|]. rewrite fmap_cons. change (x :: logs (LogLine <$> l) = x :: l). by rewrite IH. Qed.
Lemma no_kill_lines (l : list string) : KillGroup ∉ (LogLine <$> l).
Proof. by intros (x & ? & _)%list_elem_of_fmap. Qed.

(** A turn that goes on: what it logs is what its read fed. *)
Definition turn_chunk (closed : bool) (t : Tick) : list (string * Z) := chunks_read closed [t].

Lemma chunks_read_cons closed t ticks :
  chunks_read closed (t :: ticks) =
  turn_chunk closed t ++ chunks_read (closed || match tk_read t with ReadEof => true | _ => false end) ticks.
Proof. unfold turn_chunk. cbn. destruct closed; [done|]. by destruct (tk_read t). Qed.

(** What a turn that does not fail has done once its piece gave [events] and [m]:
    it goes on, or it saw the command end. *)
Definition turned (t : Tick) (closed : bool) (events : list string) (m : StreamingCommandModel)
    (effects : list Effect) (out : Run + result (option Z)) : Prop :=
  KillGroup ∉ effects ∧
  match out with
  | inl r => logs effects = events ∧ rn_model r = m ∧ rn_closed r = closed
  | inr res => ∃ code, tk_wait t = ExitedWith code ∧ logs effects = events ++ fst (finish_output m)
                       ∧ res = Ok code ∧ finish_status (unwrap_or code 1) (snd (finish_output m)) = Ok tt
  end.

Lemma poll_child_logs eff t r effects out :
  poll_child eff t r = (effects, out) → (∀ e, out ≠ inr (Err e)) → KillGroup ∉ eff →
  turned t (rn_closed r) (logs eff) (rn_model r) effects out.
Proof.
  unfold poll_child, turned. intros Hp Hok Hk. destruct (tk_wait t) as [|code|err].
  - by injection Hp as <- <-.
  - destruct (finish_output (rn_model r)) as [ev m']. injection Hp as <- <-.
    split; [intros [?|?%no_kill_lines]%elem_of_app; done|]. cbn [fst snd].
    destruct (finish_status _ m') as [[]|err] eqn:Hf; [|by destruct (Hok _ eq_refl)].
    exists code. by rewrite logs_app, logs_lines.
  - injection Hp as _ <-. by destruct (Hok _ eq_refl).
Qed.

Lemma tick_logs timeout t r effects out :
  tick timeout t r = (effects, out) → (∀ e, out ≠ inr (Err e)) →
  let '(events, m) := feeds (turn_chunk (rn_closed r) t) (rn_model r) in
  turned t (rn_closed r || match tk_read t with ReadEof => true | _ => false end) events m effects out.
Proof.
  unfold tick. intros Ht Hok. destruct (tk_cancel t); [injection Ht as _ <-; by destruct (Hok _ eq_refl)|].
  destruct (timeout <=? _); [injection Ht as _ <-; by destruct (Hok _ eq_refl)|].
  destruct (timeout_error _ _ _ _ _); [injection Ht as _ <-; by destruct (Hok _ eq_refl)|].
  set (warn := negb _ && _) in Ht. set (pre := if warn then _ else _) in Ht.
  assert (logs pre = [] ∧ KillGroup ∉ pre) as [Hpre Hkill].
  { unfold pre. destruct warn; split; try done; [|by apply not_elem_of_nil].
    by intros [?|?%not_elem_of_nil]%elem_of_cons. }
  unfold turn_chunk. cbn [chunks_read rn_closed rn_model] in *.
  destruct (rn_closed r) eqn:Hc; [|destruct (tk_read t) as [|chunk| | |err]]; cbn [feeds orb].
  1,2,4: apply poll_child_logs in Ht; [|done..]; rewrite Hpre in Ht; cbn in Ht; done.
  - destruct (feed chunk (tk_read_secs t) (rn_model r)) as [events m].
    apply poll_child_logs in Ht; [|done|intros [?|?%no_kill_lines]%elem_of_app; done].
    by rewrite logs_app, Hpre, logs_lines, app_nil_l in Ht; rewrite app_nil_r.
  - by injection Ht as <- <-.
  - injection Ht as _ <-. by destruct (Hok _ eq_refl).
Qed.

Lemma feeds_app a b m :
  feeds (a ++ b) m = let '(e, m) := feeds a m in let '(e', m) := feeds b m in (e ++ e', m).
Proof.
  revert m. induction a as [|[c n] a IH]; intros m; cbn; [by destruct (feeds b m)|].
  destruct (feed c n m) as [e m1]. rewrite IH. destruct (feeds a m1) as [e2 m2]. destruct (feeds b m2).
  by rewrite app_assoc.
Qed.

Lemma run_loop_logs timeout ticks r effects code :
  run_loop timeout ticks r = (effects, Some (Ok code)) →
  KillGroup ∉ effects ∧ ∃ before t after, ticks = before ++ t :: after ∧ tk_wait t = ExitedWith code
  ∧ logs effects = fst (stream (chunks_read (rn_closed r) (before ++ [t])) (rn_model r))
  ∧ finish_status (unwrap_or code 1) (snd (stream (chunks_read (rn_closed r) (before ++ [t])) (rn_model r))) = Ok tt.
Proof.
  revert r effects. induction ticks as [|t ticks IH]; intros r effects; [done|]. cbn [run_loop].
  destruct (tick timeout t r) as [eff [r'|res]] eqn:E.
  - destruct (run_loop timeout ticks r') as [more res] eqn:El. intros [= <- ->].
    apply tick_logs in E; [|done].
    destruct (feeds (turn_chunk (rn_closed r) t) (rn_model r)) as [events m] eqn:Ef.
    destruct E as (Hk & Hlog & Hm & Hc). apply IH in El as (Hk' & before & t' & after & -> & Hw & Hl & Hf).
    split; [by intros [?|?]%elem_of_app|]. exists (t :: before), t', after.
    rewrite <-!app_comm_cons, chunks_read_cons, <-Hc. unfold stream in *.
    rewrite feeds_app, Ef, logs_app, Hlog, Hl, <-Hm.
    destruct (feeds (chunks_read (rn_closed r') (before ++ [t'])) (rn_model r')) as [e2 m2].
    destruct (finish_output m2) as [e3 m3]. cbn in *. by rewrite app_assoc.
  - intros [= <- ->]. apply tick_logs in E; [|done].
    destruct (feeds (turn_chunk (rn_closed r) t) (rn_model r)) as [events m] eqn:Ef.
    destruct E as (Hk & code' & Hw & Hlog & [= <-] & Hfs). split; [done|]. exists [], t, ticks.
    unfold stream. cbn [app]. fold (turn_chunk (rn_closed r) t). rewrite Ef.
    destruct (finish_output m) as [e3 m3]. done.
Qed.

(** A run that succeeds saw exit status 0. *)
Lemma run_loop_success timeout ticks r effects code :
  run_loop timeout ticks r = (effects, Some (Ok code)) → code = Some 0.
Proof.
  intros E. apply run_loop_logs in E as (_ & before & t & after & _ & _ & _ & Hf).
  unfold finish_status in Hf. destruct (sm_cancelled _); [done|].
  destruct (Z.eqb_spec (unwrap_or code 1) 0) as [Hz|]; [|done]. destruct code; cbn in Hz; [congruence|lia].
Qed.

Lemma helper_success c effects code : run_command_with_input c = (effects, Some (Ok code)) → code = Some 0.
Proof.
  unfold run_command_with_input, run_child, settle. destruct (cm_spawn c); [|done]. destruct (cm_input c); [|done].
  destruct (cm_setup c); [|done]. destruct (run_loop _ _ _) as [eff [[code'|err]|]] eqn:E; [|done..].
  intros [= _ <-]. by eapply run_loop_success.
Qed.

(** A command succeeds only by exiting with status 0 before anything killed it,
    and then exactly the lines of what was read up to its exit are logged. *)
Theorem command_success timeout c effects code :
  run_command_timeout timeout c = (effects, Some (Ok code)) →
  code = Some 0 ∧ KillGroup ∉ effects
  ∧ ∃ before t after, cm_ticks c = before ++ t :: after ∧ tk_wait t = ExitedWith (Some 0)
    ∧ logs effects = fst (stream (chunks_read false (before ++ [t])) (new_stream 0 0)).
Proof.
  unfold run_command_timeout, run_child. destruct (cm_spawn c); [|done]. destruct (cm_setup c); [|done].
  destruct (run_loop _ _ _) as [eff [[code'|err]|]] eqn:E; [|done..]. intros [= <- <-].
  pose proof (run_loop_success _ _ _ _ _ E) as ->.
  apply run_loop_logs in E as (Hk & before & t & after & -> & Hw & Hl & _). eauto 10.
Qed.

(** * Concrete runs *)

(** A line over the limit is one event when it arrives in one piece with its
    terminator, and cut in two when the terminator comes later. *)
Definition long_line : string := Nat.iter 70000 (String "a") EmptyString.

Example long_line_depends :
  length (fst (stream [(long_line +:+ newline, 1)] (new_stream 0 0))) = 1%nat ∧
  length (fst (stream [(long_line, 1); (newline, 2)] (new_stream 0 0))) = 2%nat.
Proof. split; vm_compute; reflexivity. Qed.

(** The two bytes of a character in two pieces, then an invalid byte at the end. *)
Lemma framing_chunk_independent_witness :
  let chunks := [("caf" +:+ bytes [195]%N, 1); (bytes [169; 10]%N +:+ "bad" +:+ bytes [255]%N, 2)] in
  short_lines (from_utf8_lossy (glue chunks)) ∧
  emit_all (all_lines (from_utf8_lossy (glue chunks))) (None, [])
  = (fst (stream chunks (new_stream 0 0)), recent_of (snd (stream chunks (new_stream 0 0)))) ∧
  fst (stream chunks (new_stream 0 0)) = ["caf" +:+ bytes [195; 169]%N; "bad" +:+ REPLACEMENT].
Proof.
  intros chunks. assert (short_lines (from_utf8_lossy (glue chunks))) as H.
  { assert (100 <= MAX_STREAM_LINE_BYTES)%nat as Hmax by (unfold MAX_STREAM_LINE_BYTES; lia). unfold short_lines.
    replace (all_lines (from_utf8_lossy (glue chunks))) with ["caf" +:+ bytes [195; 169]%N; "bad" +:+ REPLACEMENT]
      by (vm_compute; reflexivity).
    apply Forall_cons; split; [|apply Forall_cons; split; [|apply Forall_nil_2]].
    all: refine (Nat.le_trans _ _ _ _ Hmax); apply Nat.leb_le; reflexivity. }
  split; [exact H|]. pose proof (framing_chunk_independent chunks 0 0 H) as Hf.
  destruct (stream chunks (new_stream 0 0)) as [e m] eqn:E. cbn [fst snd]. split; [apply Hf|].
  replace e with (fst (stream chunks (new_stream 0 0))) by (rewrite E; reflexivity). vm_compute. reflexivity.
Defined.

Lemma log_bounded_witness :
  let os := {| lo_open := true; lo_chmod := true; lo_metadata := true; lo_set_len := true; lo_write := 100%nat;
               lo_newline := 1%nat |} in
  append_installer_log_at os "second" "first" = "firstsecond" +:+ newline ∧
  (String.length (append_installer_log_at os "second" "first") <= MAX_INSTALLER_LOG_BYTES)%nat.
Proof.
  intros os. split; [vm_compute; reflexivity|].
  apply (log_bounded os "second" "first"); [reflexivity|].
  assert (100 <= MAX_INSTALLER_LOG_BYTES)%nat as Hmax by (unfold MAX_INSTALLER_LOG_BYTES; lia).
  refine (Nat.le_trans _ _ _ _ Hmax). cbn. lia.
Defined.

Definition turn (elapsed : Z) (read : ReadResult) (wait : WaitResult) : Tick :=
  {| tk_cancel := false; tk_elapsed := elapsed; tk_read := read; tk_read_secs := elapsed / 1000; tk_wait := wait |}.
Definition started (ticks : list Tick) : Command :=
  {| cm_spawn := Ok tt; cm_input := Ok tt; cm_setup := Ok tt; cm_ticks := ticks; cm_last_wait := Running |}.

(** Silent for half an hour: killed with the stall message, long before the
    four hours of the deadline. *)
Lemma command_given_up_witness :
  let c := started [turn 100 ReadWouldBlock Running; turn 700000 ReadWouldBlock Running;
                    turn 1801000 ReadWouldBlock Running] in
  (∃ effects res, run_command_timeout DEFAULT_OPERATION_TIMEOUT c = (effects, Some res)) ∧
  run_command c = ([StallWarning STALL_WARNING; KillGroup; KillGroup],
                   Some (Err "Command timed out after 1800 seconds with no output")).
Proof.
  intros c. split; [|vm_compute; reflexivity].
  apply (command_given_up DEFAULT_OPERATION_TIMEOUT c); [by split|].
  exists (turn 1801000 ReadWouldBlock Running). split; [by right; right; left|]. right. right. split.
  - repeat constructor; discriminate.
  - cbn. lia.
Defined.

Lemma command_success_witness :
  let c := started [turn 100 (ReadBytes "one") Running; turn 200 (ReadBytes ("two" +:+ newline +:+ "three")) (ExitedWith (Some 0))] in
  let effects := fst (run_command_timeout 5000 c) in
  effects = [LogLine "onetwo"; LogLine "three"] ∧ KillGroup ∉ effects.
Proof.
  intros c effects. split; [vm_compute; reflexivity|].
  apply (command_success 5000 c effects (Some 0)). vm_compute. reflexivity.
Defined.

(** A command that prints its diagnosis and exits between the read and the wait of
    one turn fails with the report that it printed nothing: the pipe is not read
    again once the exit is seen. *)
Example late_output_lost :
  run_command {| cm_spawn := Ok tt; cm_input := Ok tt; cm_setup := Ok tt;
                 cm_ticks := [turn 0 ReadWouldBlock (ExitedWith (Some 1)); turn 100 (ReadBytes "diagnosis") Running];
                 cm_last_wait := ExitedWith (Some 1) |}
  = ([], Some (Err ("Command failed (exit 1):" +:+ newline +:+ newline +:+ "No command output was captured."))).
Proof. vm_compute. reflexivity. Qed.

Fixpoint letters (n : nat) : string := match n with O => EmptyString | S n => String "A" (letters n) end.

(** A terminated line longer than the cap is logged whole and unmarked, although
    the cap is documented as the longest line retained. *)
Example long_line_whole :
  let half := letters (Z.to_nat 40000) in
  let '(events, m) := feeds [(half, 1); (half +:+ newline, 2)] (new_stream 0 0) in
  (Z.of_nat ∘ String.length) <$> events = [80000]
  ∧ (Z.of_nat ∘ String.length) <$> sm_recent_output m = [80000].
Proof. vm_compute. split; reflexivity. Qed.
