(* ===== verification/Orchestration.v ===== *)
(** Lifecycle, phase, cancellation and power decisions:
    [installer_orchestration.rs].

    The helper is asked one decision at a time and keeps no state; the caller
    hands back what the last reply said.  The theorems follow such a session:
    phases are entered one by one and in order, the transaction status crosses
    every recovery boundary, an installation is done only after it was
    installing, and the power check passes only with every battery understood. *)

From S2P Require Import Prelude RustStr.

Definition DESTRUCTIVE_CANCEL_MESSAGE : string :=
  "Installation cancelled by user. Disk changes may have already started.".
Definition SAFE_CANCEL_MESSAGE : string :=
  "Installation cancelled by user before disk changes were committed.".

Inductive Lifecycle := Idle | Validated | Partitioning | Installing | Done | Failed.
#[global] Instance Lifecycle_eq_dec : EqDecision Lifecycle.
Proof. solve_decision. Defined.

Definition lifecycle_as_str (l : Lifecycle) : string :=
  match l with
  | Idle => "idle" | Validated => "validated" | Partitioning => "partitioning"
  | Installing => "installing" | Done => "done" | Failed => "failed"
  end.

Definition lifecycle_parse (value : string) : result Lifecycle :=
  if String.eqb value "idle" then Ok Idle
  else if String.eqb value "validated" then Ok Validated
  else if String.eqb value "partitioning" then Ok Partitioning
  else if String.eqb value "installing" then Ok Installing
  else if String.eqb value "done" then Ok Done
  else if String.eqb value "failed" then Ok Failed
  else Err ("unknown installer lifecycle: " +:+ value).

Inductive Phase := Prepare | Storage | Image | Configure | SecureBoot | Complete.
#[global] Instance Phase_eq_dec : EqDecision Phase.
Proof. solve_decision. Defined.

Definition phase_as_str (p : Phase) : string :=
  match p with
  | Prepare => "prepare" | Storage => "storage" | Image => "image"
  | Configure => "configure" | SecureBoot => "secure_boot" | Complete => "complete"
  end.

Definition phase_parse (value : string) : result Phase :=
  if String.eqb value "prepare" then Ok Prepare
  else if String.eqb value "storage" then Ok Storage
  else if String.eqb value "image" then Ok Image
  else if String.eqb value "configure" then Ok Configure
  else if String.eqb value "secure_boot" then Ok SecureBoot
  else if String.eqb value "complete" then Ok Complete
  else Err ("unknown installer phase: " +:+ value).

Definition is_destructive (p : Phase) : bool :=
  match p with Storage | Image | Configure | SecureBoot => true | _ => false end.

Definition successor (p : Phase) : option Phase :=
  match p with
  | Prepare => Some Storage
  | Storage => Some Image
  | Image => Some Configure
  | Configure => Some SecureBoot
  | SecureBoot => Some Complete
  | Complete => None
  end.

Record OrchestrationInput := {
  oi_action : string;
  oi_lifecycle : string;
  oi_phase : string;
  oi_target : string;
  oi_cancel_requested : bool;
  oi_slot_held : bool;
  oi_status : string;
  oi_next_status : string;
}.

Record OrchestrationResponse := {
  or_action : string;
  or_lifecycle : string;
  or_phase : string;
  or_accepted : bool;
  or_cancelled : bool;
  or_cancel_message : string;
  or_status : string;
}.

Definition response (input : OrchestrationInput) (l : Lifecycle) (p : Phase) : OrchestrationResponse :=
  {| or_action := oi_action input; or_lifecycle := lifecycle_as_str l; or_phase := phase_as_str p;
     or_accepted := true; or_cancelled := false; or_cancel_message := EmptyString;
     or_status := oi_next_status input |}.

Definition lifecycle_transition (current next : Lifecycle) : bool :=
  match current, next with
  | Idle, (Validated | Partitioning | Failed) => true
  | Validated, (Installing | Failed) => true
  | Partitioning, (Idle | Failed) => true
  | Installing, (Done | Failed) => true
  | _, _ => false
  end.

(** The one status that may follow. *)
Definition status_transition (current next : string) : bool :=
  if String.eqb current next then true
  else if String.eqb next "failed" then true
  else if String.eqb current EmptyString then String.eqb next "started" || String.eqb next "partitioning"
  else if String.eqb current "partitioning" then String.eqb next "started"
  else if String.eqb current "started" then String.eqb next "prepared"
  else if String.eqb current "prepared" then String.eqb next "storage_complete"
  else if String.eqb current "storage_complete" then String.eqb next "configure_started"
  else if String.eqb current "configure_started" then String.eqb next "configure_complete"
  else if String.eqb current "configure_complete" then String.eqb next "secure_boot_staged"
  else if String.eqb current "secure_boot_staged" then String.eqb next "complete"
  else false.

Definition refuse (r : OrchestrationResponse) : OrchestrationResponse :=
  {| or_action := or_action r; or_lifecycle := or_lifecycle r; or_phase := or_phase r; or_accepted := false;
     or_cancelled := or_cancelled r; or_cancel_message := or_cancel_message r; or_status := or_status r |}.
Definition cancelled_with (message : string) (r : OrchestrationResponse) : OrchestrationResponse :=
  {| or_action := or_action r; or_lifecycle := or_lifecycle r; or_phase := or_phase r; or_accepted := or_accepted r;
     or_cancelled := true; or_cancel_message := message; or_status := or_status r |}.

Definition apply (input : OrchestrationInput) : result OrchestrationResponse :=
  let? lifecycle := lifecycle_parse (oi_lifecycle input) in
  let? phase := phase_parse (oi_phase input) in
  if String.eqb (oi_action input) "transition" then
    let? next := lifecycle_parse (oi_target input) in
    guard! negb (bool_decide (next = lifecycle)) && negb (lifecycle_transition lifecycle next)
      else ("Invalid installer lifecycle transition: " +:+ lifecycle_as_str lifecycle +:+ " -> " +:+ lifecycle_as_str next);
    Ok (response input next phase)
  else if String.eqb (oi_action input) "phase" then
    let? next := phase_parse (oi_target input) in
    guard! negb (match lifecycle with Idle | Installing | Failed => true | _ => false end)
      else ("Cannot enter installer phase " +:+ phase_as_str next +:+ " while lifecycle is " +:+ lifecycle_as_str lifecycle);
    guard! negb (bool_decide (Some next = successor phase))
      else ("Installer phase must advance one step at a time: " +:+ phase_as_str phase +:+ " -> " +:+
            phase_as_str next +:+ " is not allowed");
    Ok (response input lifecycle next)
  else if String.eqb (oi_action input) "cancel-request" then
    let r := response input lifecycle phase in
    Ok (if negb (oi_slot_held input) || negb (match lifecycle with Validated | Installing => true | _ => false end)
        then refuse r else r)
  else if String.eqb (oi_action input) "cancel-check" then
    let r := response input lifecycle phase in
    Ok (if oi_cancel_requested input
        then cancelled_with (if is_destructive phase then DESTRUCTIVE_CANCEL_MESSAGE else SAFE_CANCEL_MESSAGE) r
        else r)
  else if String.eqb (oi_action input) "transaction" then
    guard! negb (status_transition (oi_status input) (oi_next_status input))
      else ("Invalid installer transaction transition: " +:+ oi_status input +:+ " -> " +:+ oi_next_status input);
    Ok (response input lifecycle phase)
  else Err ("unknown installer orchestration action: " +:+ oi_action input).

(** * Power *)

Record PowerCheck := { pc_status : string; pc_detail : string }.
Definition pass (detail : string) : PowerCheck := {| pc_status := "pass"; pc_detail := detail |}.
Definition fail (detail : string) : PowerCheck := {| pc_status := "fail"; pc_detail := detail |}.

(** One directory below [/sys/class/power_supply]: its path and name and what
    reading its three files gives. *)
Record Supply := {
  su_path : string;
  su_name : string;
  su_type : result string;
  su_capacity : option string;
  su_state : option string;
}.

(** The directory as the kernel shows it; opening it fails with [not_found] or
    another error, and so may each entry. *)
Inductive PowerTree :=
| NoTree
| Vanished
| Unreadable (e : string)
| Supplies (entries : list (result Supply)).

Definition no_constraint : PowerCheck := pass "No battery power constraint detected".

(** [value.parse::<u8>()] *)
Definition parse_u8 (s : string) : option Z :=
  match parse_u64 s with Some v => if v <=? 255 then Some v else None | None => None end.

Definition known_state (s : string) : bool :=
  String.eqb s "charging" || String.eqb s "discharging" || String.eqb s "not charging" || String.eqb s "full".

Definition battery_of (s : Supply) : option (Z * string) :=
  match su_capacity s ≫= (λ v, parse_u8 (trim v)), (λ v, to_ascii_lowercase (trim v)) <$> su_state s with
  | Some capacity, Some state => if (capacity <=? 100) && known_state state then Some (capacity, state) else None
  | _, _ => None
  end.

(** The loop over the entries: the batteries so far, or the verdict. *)
Fixpoint collect_batteries (entries : list (result Supply)) (batteries : list (Z * string))
    : PowerCheck + list (Z * string) :=
  match entries with
  | [] => inr batteries
  | Err e :: _ => inl (fail ("Could not inspect battery power state: " +:+ e))
  | Ok s :: entries =>
      match su_type s with
      | Err e =>
          if starts_with "BAT" (su_name s) then inl (fail ("Could not read battery power state: " +:+ e))
          else collect_batteries entries batteries
      | Ok kind =>
          if negb (String.eqb (trim kind) "Battery") then collect_batteries entries batteries
          else
            match battery_of s with
            | Some b => collect_batteries entries (batteries ++ [b])
            | None =>
                inl (fail ("Could not determine a safe battery power state for " +:+ su_path s +:+
                           ". Connect external power before installing."))
            end
      end
  end.

(** [min_by_key]: the first of the least. *)
Fixpoint min_battery (best : Z * string) (l : list (Z * string)) : Z * string :=
  match l with [] => best | b :: l => min_battery (if fst b <? fst best then b else best) l end.

Definition low (b : Z * string) : bool :=
  (fst b <? 20) && (String.eqb (snd b) "discharging" || String.eqb (snd b) "not charging").

Definition power_check_at (tree : PowerTree) : PowerCheck :=
  match tree with
  | NoTree | Vanished => no_constraint
  | Unreadable e => fail ("Could not read battery power state: " +:+ e)
  | Supplies entries =>
      match collect_batteries entries [] with
      | inl verdict => verdict
      | inr [] => no_constraint
      | inr (b :: l) =>
          let '(capacity, state) := min_battery b l in
          if low (capacity, state) then
            fail ("Battery is at " +:+ show_int capacity +:+ "% and is not charging. Connect power before installing.")
          else pass ("Battery is " +:+ show_int capacity +:+ "% (" +:+ state +:+ ")")
      end
  end.

(** * Names *)

Ltac parse_cases H :=
  repeat match type of H with
  | (if String.eqb ?v ?k then _ else _) = _ => destruct (String.eqb_spec v k) as [->|]
  end; try discriminate H.

Lemma lifecycle_parse_Ok v l : lifecycle_parse v = Ok l ↔ v = lifecycle_as_str l.
Proof. split; [|intros ->; by destruct l]. unfold lifecycle_parse. intros H. parse_cases H; by injection H as <-. Qed.
Lemma phase_parse_Ok v p : phase_parse v = Ok p ↔ v = phase_as_str p.
Proof. split; [|intros ->; by destruct p]. unfold phase_parse. intros H. parse_cases H; by injection H as <-. Qed.
Lemma lifecycle_parse_as_str l : lifecycle_parse (lifecycle_as_str l) = Ok l.
Proof. by apply lifecycle_parse_Ok. Qed.
Lemma phase_parse_as_str p : phase_parse (phase_as_str p) = Ok p.
Proof. by apply phase_parse_Ok. Qed.

#[global] Instance lifecycle_as_str_inj : Inj (=) (=) lifecycle_as_str.
Proof. intros a b H. apply lifecycle_parse_Ok in H. rewrite lifecycle_parse_as_str in H. congruence. Qed.
#[global] Instance phase_as_str_inj : Inj (=) (=) phase_as_str.
Proof. intros a b H. apply phase_parse_Ok in H. rewrite phase_parse_as_str in H. congruence. Qed.

(** * Sessions *)

(** What a caller asks, the state handed back from the last reply. *)
Inductive Ask :=
| AskTransition (target : string)
| AskPhase (target : string)
| AskTransaction (next : string)
| AskCancel (slot_held : bool)
| AskCheck (cancel_requested : bool)
| AskOther (action target : string).

Record Session := { se_lifecycle : string; se_phase : string; se_status : string }.
Definition fresh : Session := {| se_lifecycle := "idle"; se_phase := "prepare"; se_status := EmptyString |}.

Definition input_of (s : Session) (a : Ask) : OrchestrationInput :=
  {| oi_action := match a with
                  | AskTransition _ => "transition" | AskPhase _ => "phase" | AskTransaction _ => "transaction"
                  | AskCancel _ => "cancel-request" | AskCheck _ => "cancel-check" | AskOther action _ => action
                  end;
     oi_lifecycle := se_lifecycle s; oi_phase := se_phase s;
     oi_target := match a with AskTransition t | AskPhase t | AskOther _ t => t | _ => EmptyString end;
     oi_cancel_requested := match a with AskCheck b => b | _ => false end;
     oi_slot_held := match a with AskCancel b => b | _ => false end;
     oi_status := se_status s;
     oi_next_status := match a with AskTransaction n => n | _ => EmptyString end |}.

(** A refused request leaves the state as it was. *)
Definition asked (s : Session) (a : Ask) : Session :=
  match apply (input_of s a) with
  | Err _ => s
  | Ok r => {| se_lifecycle := or_lifecycle r; se_phase := or_phase r;
               se_status := match a with AskTransaction _ => or_status r | _ => se_status s end |}
  end.

(** The values a session went through, in order. *)
Record Trail := { tr_lifecycles : list string; tr_phases : list string; tr_statuses : list string }.
Definition changed (l : list string) (old new : string) : list string :=
  if String.eqb old new then l else l ++ [new].

Fixpoint session (asks : list Ask) (s : Session) (t : Trail) : Session * Trail :=
  match asks with
  | [] => (s, t)
  | a :: asks =>
      let s' := asked s a in
      session asks s' {| tr_lifecycles := changed (tr_lifecycles t) (se_lifecycle s) (se_lifecycle s');
                         tr_phases := changed (tr_phases t) (se_phase s) (se_phase s');
                         tr_statuses := changed (tr_statuses t) (se_status s) (se_status s') |}
  end.
Definition no_trail : Trail := {| tr_lifecycles := []; tr_phases := []; tr_statuses := [] |}.

(** ** One request *)

Lemma apply_Ok input r :
  apply input = Ok r →
  ∃ l p l' p', oi_lifecycle input = lifecycle_as_str l ∧ oi_phase input = phase_as_str p
  ∧ or_lifecycle r = lifecycle_as_str l' ∧ or_phase r = phase_as_str p' ∧ or_status r = oi_next_status input
  ∧ (l' = l ∨ lifecycle_transition l l' = true) ∧ (p' = p ∨ successor p = Some p')
  ∧ (oi_action input = "transaction" → status_transition (oi_status input) (oi_next_status input) = true).
Proof.
  unfold apply. intros H. apply rbind_Ok in H as (l & Hl & H). apply rbind_Ok in H as (p & Hp & H).
  apply lifecycle_parse_Ok in Hl. apply phase_parse_Ok in Hp. exists l, p.
  destruct (String.eqb_spec (oi_action input) "transition") as [E|_].
  { apply rbind_Ok in H as (next & Hn & H). guard_inv H as Hg. injection H as <-. exists next, p.
    rewrite E. split_and!; try done; [|by left]. apply andb_false_iff in Hg as [Hg|Hg]; bool_inv; auto. }
  destruct (String.eqb_spec (oi_action input) "phase") as [E|_].
  { apply rbind_Ok in H as (next & Hn & H). guard_inv H as Hg. guard_inv H as Hs. injection H as <-. exists l, next.
    rewrite E. bool_inv. split_and!; try done; [by left|by right]. }
  destruct (String.eqb_spec (oi_action input) "cancel-request") as [E|_].
  { injection H as <-. exists l, p. rewrite E. split_and!; try done; try (by left); by destruct (_ || _). }
  destruct (String.eqb_spec (oi_action input) "cancel-check") as [E|_].
  { injection H as <-. exists l, p. rewrite E. split_and!; try done; try (by left); by destruct (oi_cancel_requested input). }
  destruct (String.eqb_spec (oi_action input) "transaction") as [E|_]; [|done].
  guard_inv H as Hg. injection H as <-. exists l, p. bool_inv. split_and!; try done; by left.
Qed.

(** A session's values keep their names, and each moves only along its automaton. *)
Definition named (s : Session) (l : Lifecycle) (p : Phase) : Prop :=
  se_lifecycle s = lifecycle_as_str l ∧ se_phase s = phase_as_str p.

Lemma asked_step s a l p :
  named s l p →
  ∃ l' p', named (asked s a) l' p' ∧ (l' = l ∨ lifecycle_transition l l' = true) ∧ (p' = p ∨ successor p = Some p')
  ∧ status_transition (se_status s) (se_status (asked s a)) = true.
Proof.
  intros [Hl Hp]. unfold asked. destruct (apply (input_of s a)) as [r|e] eqn:E.
  - apply apply_Ok in E as (l0 & p0 & l' & p' & Hl0 & Hp0 & Hl' & Hp' & Hs & Htl & Htp & Hts). cbn in *.
    rewrite Hl in Hl0. rewrite Hp in Hp0. simplify_eq.
    exists l', p'. split_and!; try done. destruct a; cbn in *; rewrite ?Hs; auto.
    all: unfold status_transition; by rewrite String.eqb_refl.
  - exists l, p. split_and!; [done|by left|by left|]. unfold status_transition. by rewrite String.eqb_refl.
Qed.

(** ** Whole sessions *)

Definition phase_order : list string := ["storage"; "image"; "configure"; "secure_boot"; "complete"].
Definition status_order : list string :=
  ["started"; "prepared"; "storage_complete"; "configure_started"; "configure_complete"; "secure_boot_staged"; "complete"].

Definition phase_index (p : Phase) : nat :=
  match p with Prepare => 0 | Storage => 1 | Image => 2 | Configure => 3 | SecureBoot => 4 | Complete => 5 end.

(** The status after the first [k] of [status_order]. *)
Definition status_at (partitioned : bool) (k : nat) : string :=
  match k with O => if partitioned then "partitioning" else EmptyString | S k => nth k status_order EmptyString end.

Record in_order (s : Session) (t : Trail) : Prop := {
  io_named : ∃ l p, named s l p ∧ tr_phases t = take (phase_index p) phase_order
    ∧ match l with
      | Validated => ∃ pre, tr_lifecycles t = pre ++ ["validated"]
      | Installing => ∃ pre, tr_lifecycles t = pre ++ ["validated"; "installing"]
      | Done => ∃ pre, tr_lifecycles t = pre ++ ["validated"; "installing"; "done"]
      | _ => True
      end;
  io_status : se_status s = "failed" ∨
    ∃ partitioned k, (k <= 7)%nat ∧ se_status s = status_at partitioned k
      ∧ tr_statuses t = (if partitioned : bool then ["partitioning"] else []) ++ take k status_order;
}.

Lemma changed_phase p p' :
  p' = p ∨ successor p = Some p' →
  changed (take (phase_index p) phase_order) (phase_as_str p) (phase_as_str p') = take (phase_index p') phase_order.
Proof. intros [->|H]; [unfold changed; by rewrite String.eqb_refl|]. destruct p; cbn in H; [injection H as <-; reflexivity..|done]. Qed.

Lemma changed_status partitioned k next :
  (k <= 7)%nat → status_transition (status_at partitioned k) next = true → next ≠ "failed" →
  ∃ partitioned' k', (k' <= 7)%nat ∧ next = status_at partitioned' k'
  ∧ changed ((if partitioned : bool then ["partitioning"] else []) ++ take k status_order) (status_at partitioned k) next
    = (if partitioned' : bool then ["partitioning"] else []) ++ take k' status_order.
Proof.
  intros Hk Ht Hn. unfold changed. destruct (String.eqb_spec (status_at partitioned k) next) as [<-|Hne]; [eauto|].
  assert (∃ partitioned' k', (k' <= 7)%nat ∧ next = status_at partitioned' k' ∧ (k' = S k ∧ partitioned' = partitioned
     ∨ k = O ∧ partitioned = false ∧ k' = O ∧ partitioned' = true)) as (p' & k' & Hk' & -> & Hc).
  { unfold status_transition in Ht. apply String.eqb_neq in Hne, Hn. rewrite Hne, Hn in Ht.
    do 8 (destruct k as [|k]; [destruct partitioned; cbn in Ht; rewrite ?orb_true_iff, ?String.eqb_eq in Ht;
      first [destruct Ht as [->| ->]; [exists false, 1%nat|exists true, 0%nat]; (split_and!; [lia|done|first [by left|by right]])
            |subst next; refine (ex_intro _ _ (ex_intro _ _ (conj _ (conj _ (or_introl (conj eq_refl eq_refl))))));
             [lia|reflexivity]
            |done]|]). lia. }
  exists p', k'. split_and!; [done|done|].
  destruct Hc as [[-> ->]|(-> & -> & -> & ->)]; [|done].
  rewrite <-app_assoc. f_equal. do 7 (destruct k as [|k]; [done|]). lia.
Qed.

Lemma asked_in_order s t a :
  in_order s t →
  let s' := asked s a in
  in_order s' {| tr_lifecycles := changed (tr_lifecycles t) (se_lifecycle s) (se_lifecycle s');
                 tr_phases := changed (tr_phases t) (se_phase s) (se_phase s');
                 tr_statuses := changed (tr_statuses t) (se_status s) (se_status s') |}.
Proof.
  intros [(l & p & Hn & Hp & Hl) Hst]. cbn zeta.
  destruct (asked_step s a l p Hn) as (l' & p' & Hn' & Hcl & Hcp & Hcs). split.
  - exists l', p'. cbn [tr_lifecycles tr_phases]. destruct Hn as [-> ->]. split; [done|]. destruct Hn' as [-> ->].
    rewrite Hp. split; [by apply changed_phase|]. destruct Hcl as [->|Hcl]; [unfold changed; by rewrite String.eqb_refl|].
    destruct l, l'; try done; cbn; [eauto|destruct Hl as [pre ->]; exists pre; by rewrite <-app_assoc..].
  - cbn [tr_statuses]. destruct (decide (se_status (asked s a) = "failed")) as [|Hf]; [by left|]. right.
    destruct Hst as [Hst|(b & k & Hk & Hst & ->)]; [|rewrite Hst in *; by apply changed_status].
    rewrite Hst in Hcs. unfold status_transition in Hcs.
    destruct (String.eqb_spec "failed" (se_status (asked s a))); [congruence|].
    by destruct (String.eqb_spec (se_status (asked s a)) "failed").
Qed.

Lemma session_in_order asks s t : in_order s t → uncurry in_order (session asks s t).
Proof. revert s t. induction asks as [|a asks IH]; intros s t H; [done|]. cbn. by apply IH, asked_in_order. Qed.

(** Whatever is asked in whatever order, a session that starts fresh enters the
    phases one by one and in order, reports its transaction complete only after
    every earlier status, and is done only after it was validated and installing. *)
Theorem orchestration_in_order asks s t :
  session asks fresh no_trail = (s, t) →
  (∃ p, se_phase s = phase_as_str p ∧ tr_phases t = take (phase_index p) phase_order)
  ∧ (se_status s = "complete" → tr_statuses t = status_order ∨ tr_statuses t = "partitioning" :: status_order)
  ∧ (se_lifecycle s = "done" → ∃ pre, tr_lifecycles t = pre ++ ["validated"; "installing"; "done"]).
Proof.
  intros E. assert (in_order fresh no_trail) as H0.
  { split; [by exists Idle, Prepare|]. right. exists false, 0%nat. split_and!; [lia|done|done]. }
  pose proof (session_in_order asks fresh no_trail H0) as H. rewrite E in H. cbn in H.
  destruct H as [(l & p & [Hl Hp] & Hph & Hli) Hst]. split_and!; [by exists p|..].
  - intros Hc. destruct Hst as [Hst|(b & k & Hk & Hst & ->)]; [congruence|]. rewrite Hc in Hst.
    do 8 (destruct k as [|k]; [destruct b; first [discriminate Hst|by right|by left]|]). lia.
  - intros Hd. rewrite Hl in Hd. by destruct l.
Qed.

(** * The power check *)

(** The batteries of a readable tree. *)
Definition batteries (entries : list (result Supply)) : list (Z * string) :=
  omap (λ e, match e with
             | Ok s => match su_type s with
                       | Ok kind => if String.eqb (trim kind) "Battery" then battery_of s else None
                       | Err _ => None
                       end
             | Err _ => None
             end) entries.

(** An entry the check understands. *)
Definition understood (e : result Supply) : Prop :=
  ∃ s, e = Ok s ∧ match su_type s with
                  | Ok kind => trim kind = "Battery" → is_Some (battery_of s)
                  | Err _ => starts_with "BAT" (su_name s) = false
                  end.

Lemma collect_batteries_spec entries acc :
  match collect_batteries entries acc with
  | inl verdict => pc_status verdict = "fail" ∧ ¬ Forall understood entries
  | inr l => Forall understood entries ∧ l = acc ++ batteries entries
  end.
Proof.
  revert acc. induction entries as [|[s|e] entries IH]; intros acc; cbn [collect_batteries].
  - split; [constructor|]. by rewrite app_nil_r.
  - assert (∀ acc' : list (Z * string), understood (Ok s) → acc ++ batteries (Ok s :: entries) = acc' ++ batteries entries →
      match collect_batteries entries acc' with
      | inl verdict => pc_status verdict = "fail" ∧ ¬ Forall understood (Ok s :: entries)
      | inr l => Forall understood (Ok s :: entries) ∧ l = acc ++ batteries (Ok s :: entries)
      end) as Hgo.
    { intros acc' Hu Hacc. specialize (IH acc'). destruct (collect_batteries entries acc') as [v|l].
      - destruct IH as [? Hn]. split; [done|]. by intros [_ ?]%Forall_cons.
      - destruct IH as [? ->]. split; [by constructor|congruence]. }
    destruct (su_type s) as [kind|e] eqn:Ht.
    + destruct (String.eqb_spec (trim kind) "Battery") as [Hk|Hk]; cbn [negb].
      * destruct (battery_of s) as [b|] eqn:Hb.
        { apply Hgo; [exists s; rewrite Ht, Hb; eauto|]. cbn. rewrite Ht, Hk, String.eqb_refl, Hb. by rewrite <-app_assoc. }
        split; [done|]. intros [(s' & [= <-] & H) _]%Forall_cons. rewrite Ht, Hb in H. by destruct (H Hk).
      * apply Hgo; [exists s; by rewrite Ht|]. cbn. rewrite Ht. by apply String.eqb_neq in Hk as ->.
    + destruct (starts_with "BAT" (su_name s)) eqn:Hs.
      * split; [done|]. intros [(s' & [= <-] & H) _]%Forall_cons. rewrite Ht in H. congruence.
      * apply Hgo; [exists s; by rewrite Ht|]. cbn. by rewrite Ht.
  - split; [done|]. by intros [(s' & ? & _) _]%Forall_cons.
Qed.

Lemma min_battery_spec b l :
  min_battery b l ∈ b :: l ∧ ∀ b', b' ∈ b :: l → fst (min_battery b l) <= fst b'.
Proof.
  revert b. induction l as [|c l IH]; intros b; cbn [min_battery].
  - split; [by left|]. intros b' [->|?%not_elem_of_nil]%elem_of_cons; [lia|done].
  - destruct (IH (if fst c <? fst b then c else b)) as [Hin Hle]. destruct (Z.ltb_spec (fst c) (fst b)); split.
    1,3: apply elem_of_cons in Hin as [->|?]; [by (left + (right; left))|by right; right].
    + intros b' [->|[->|Hb]%elem_of_cons]%elem_of_cons; [|apply Hle; by left|apply Hle; by right].
      specialize (Hle c ltac:(by left)). lia.
    + intros b' [->|[->|Hb]%elem_of_cons]%elem_of_cons; [apply Hle; by left| |apply Hle; by right].
      specialize (Hle b ltac:(by left)). lia.
Qed.

(** The power check passes exactly when every entry of the tree is understood and
    the battery it judges by, one of least charge, is not nearly empty and
    draining. *)
Theorem power_pass_iff entries :
  pc_status (power_check_at (Supplies entries)) = "pass" ↔
  Forall understood entries
  ∧ match batteries entries with
    | [] => True
    | b :: l => ∃ worst, worst ∈ b :: l ∧ worst = min_battery b l ∧ (∀ b', b' ∈ b :: l → fst worst <= fst b')
                         ∧ (20 <= fst worst ∨ snd worst ≠ "discharging" ∧ snd worst ≠ "not charging")
    end.
Proof.
  cbn [power_check_at]. pose proof (collect_batteries_spec entries []) as Hs.
  destruct (collect_batteries entries []) as [v|l].
  - destruct Hs as [Hv Hn]. rewrite Hv. split; [done|]. by intros [? _].
  - destruct Hs as [Hu ->]. rewrite app_nil_l. destruct (batteries entries) as [|b l]; [done|].
    destruct (min_battery_spec b l) as [Hin Hle].
    assert (low (min_battery b l) = false ↔
      20 <= fst (min_battery b l) ∨ snd (min_battery b l) ≠ "discharging" ∧ snd (min_battery b l) ≠ "not charging") as Hlow.
    { unfold low. by rewrite andb_false_iff, orb_false_iff, Z.ltb_ge, !String.eqb_neq. }
    destruct (min_battery b l) as [capacity state] eqn:Em. destruct (low (capacity, state)) eqn:El; cbn [pc_status fail pass].
    + split; [done|]. intros [_ (w & _ & -> & _ & Hw)]. by apply Hlow in Hw.
    + split; [|done]. intros _. split; [done|]. exists (capacity, state). split_and!; [done|done|done|by apply Hlow].
Qed.

(** * Concrete sessions *)

Lemma orchestration_in_order_witness :
  let asks := [AskTransition "validated"; AskTransition "installing"; AskPhase "complete"; AskPhase "storage"; AskPhase "image";
               AskTransaction "started"; AskTransaction "complete"; AskCancel true; AskTransition "done"] in
  let '(s, t) := session asks fresh no_trail in
  s = {| se_lifecycle := "done"; se_phase := "image"; se_status := "started" |}
  ∧ (∃ p, se_phase s = phase_as_str p ∧ tr_phases t = take (phase_index p) phase_order).
Proof.
  intros asks. destruct (session asks fresh no_trail) as [s t] eqn:E. split.
  - change s with (fst (s, t)). rewrite <-E. vm_compute. reflexivity.
  - apply (orchestration_in_order asks s t E).
Defined.

(** The three values are judged separately: a session may be done in the phase it
    started in and with no transaction. *)
Example done_before_any_phase :
  session [AskTransition "validated"; AskTransition "installing"; AskTransition "done"] fresh no_trail
  = ({| se_lifecycle := "done"; se_phase := "prepare"; se_status := EmptyString |},
     {| tr_lifecycles := ["validated"; "installing"; "done"]; tr_phases := []; tr_statuses := [] |}).
Proof. vm_compute. reflexivity. Qed.

Definition battery (name capacity state : string) : result Supply :=
  Ok {| su_path := name; su_name := name; su_type := Ok ("Battery" +:+ newline); su_capacity := Some (capacity +:+ newline);
        su_state := Some (state +:+ newline) |}.

(** Only one battery is judged: a nearly empty one that charges hides another
    that drains. *)
Example charging_battery_hides_draining_one :
  pc_status (power_check_at (Supplies [battery "BAT0" "5" "Charging"; battery "BAT1" "6" "Discharging"])) = "pass"
  ∧ pc_status (power_check_at (Supplies [battery "BAT1" "6" "Discharging"])) = "fail".
Proof. vm_compute. split; reflexivity. Qed.
