(* ===== verification/ExecutionPlan.v ===== *)
(** The typed plan of an installation beyond the disk: [installer_bootc.rs],
    [installer_secure_boot.rs], the validation of [installer_accounts.rs],
    [installer_executor.rs] and the decoding of a start request in
    [installer_job_executor.rs].

    A start request is a flat JSON object.  It is decoded into the storage
    request of [InstallerPlan.v] and an execution request, from which the
    command line of bootc, the configuration plan, the account and the Secure
    Boot decision are built before anything runs. *)

From S2P Require Import Prelude RustStr RustOs Json InstallerPlan Configuration Probes ManualMounts.

(** * bootc *)

Record BootcInstallInput := {
  bi_subcommand : string;
  bi_source_imgref : string;
  bi_target_imgref : string;
  bi_target : string;
  bi_skip_fetch_check : bool;
  bi_skip_finalize : bool;
  bi_root_subvolume : bool;
  bi_wipe : bool;
  bi_encryption : string;
  bi_tpm_recovery_ack : bool;
}.

Record BootcInstallPlan := {
  bp_subcommand : string;
  bp_argv : list string;
  bp_target : string;
  bp_destructive : bool;
  bp_requires_network : bool;
  bp_executor : string;
}.

Definition reference_byte (c : ascii) : bool := is_ascii_alphanumeric c || byte_among "./_@:+-" c.
Definition bootc_path_byte (c : ascii) : bool := is_ascii_alphanumeric c || byte_among "/._+:-" c.

Definition safe_reference (value label : string) : result string :=
  let value := trim value in
  guard! is_empty value || (4096 <? slen value) || contains_str ".." value else (label +:+ " is empty or unsafe.");
  guard! negb (str_all reference_byte value) else (label +:+ " contains unsupported characters.");
  Ok value.

Definition TRANSPORTS : list string := ["docker://"; "containers-storage:"; "oci:"; "ostree:"; "dir:"].

Definition source_reference (value : string) : result string :=
  let? value := safe_reference value "source image reference" in
  Ok (if existsb (λ prefix, starts_with prefix value) TRANSPORTS then value else "docker://" +:+ value).

Definition safe_bootc_path (value label : string) : result string :=
  let value := trim value in
  guard! negb (starts_with "/" value) || (4096 <? slen value) || contains_str ".." value
    else (label +:+ " must be an absolute safe path.");
  guard! negb (str_all bootc_path_byte value) else (label +:+ " contains unsupported characters.");
  Ok value.

(** The arguments after the image references, before the target. *)
Definition bootc_options (input : BootcInstallInput) (subcommand encryption : string) : result (list string) :=
  if String.eqb subcommand "to-filesystem" then
    guard! String.eqb encryption "tpm2"
      else "encryption unsupported for bootc to-filesystem installs: encryption requires a to-disk install.";
    Ok (["--acknowledge-destructive"]
        ++ (if bi_skip_finalize input then ["--skip-finalize"] else [])
        ++ (if bi_root_subvolume input then ["--karg=rootflags=subvol=@"] else []))
  else
    Ok (["--filesystem"; "btrfs"; "--block-setup"; if String.eqb encryption "tpm2" then "tpm2-luks" else "direct"]
        ++ (if bi_wipe input then ["--wipe"] else [])).

Definition skip_fetch (input : BootcInstallInput) (argv : list string) : list string :=
  if bi_skip_fetch_check input && negb (str_in "--skip-fetch-check" argv) then ["--skip-fetch-check"] else [].

Definition build_bootc_plan (input : BootcInstallInput) : result BootcInstallPlan :=
  let subcommand := to_ascii_lowercase (trim (bi_subcommand input)) in
  guard! negb (str_in subcommand ["to-disk"; "to-filesystem"])
    else ("unsupported bootc install subcommand: " +:+ subcommand);
  let? source_imgref := source_reference (bi_source_imgref input) in
  let? target_imgref := safe_reference (bi_target_imgref input) "target image reference" in
  let encryption := to_ascii_lowercase (trim (bi_encryption input)) in
  guard! negb (str_in encryption [EmptyString; "none"; "tpm2"])
    else ("encryption unsupported: '" +:+ encryption +:+
          "' is not a supported encryption mode (expected 'none' or 'tpm2').");
  guard! String.eqb encryption "tpm2" && negb (bi_tpm_recovery_ack input)
    else "TPM encryption was requested without acknowledging the recovery risk: No recovery key is generated or stored. If the TPM is reset or the board is replaced, the encrypted disk cannot be recovered. Confirm you accept this risk before installing.";
  let? target :=
    if String.eqb subcommand "to-disk"
    then ok_or (InstallerPlan.normalize_device_path (bi_target input)) "bootc disk target must be a safe device path."
    else safe_bootc_path (bi_target input) "bootc filesystem target" in
  let? options := bootc_options input subcommand encryption in
  let argv := ["bootc"; "install"; subcommand; "--source-imgref"; source_imgref; "--target-imgref"; target_imgref] ++ options in
  Ok {| bp_subcommand := subcommand; bp_argv := argv ++ skip_fetch input argv ++ [target]; bp_target := target; bp_destructive := true;
        bp_requires_network := starts_with "docker://" source_imgref; bp_executor := "kyth-installerd" |}.

(** * Secure Boot *)

Record SecureBootInput := {
  sb_kernel : string;
  sb_force_stage : bool;
  sb_certificate_present : bool;
  sb_mokutil_present : bool;
  sb_secure_boot : string;
  sb_enrolled : string;
  sb_pending : string;
}.

Record SecureBootPlan := {
  sbp_state : string;
  sbp_action : string;
  sbp_requires_password : bool;
  sbp_requires_reboot_confirmation : bool;
  sbp_message : string;
}.

Definition skipped (message : string) : SecureBootPlan :=
  {| sbp_state := "skipped"; sbp_action := "none"; sbp_requires_password := false;
     sbp_requires_reboot_confirmation := false; sbp_message := message |}.

Definition build_secure_boot_plan (input : SecureBootInput) : result SecureBootPlan :=
  let kernel := to_ascii_lowercase (trim (sb_kernel input)) in
  let secure_boot := to_ascii_lowercase (trim (sb_secure_boot input)) in
  let enrolled := to_ascii_lowercase (trim (sb_enrolled input)) in
  let pending := to_ascii_lowercase (trim (sb_pending input)) in
  guard! negb (str_in kernel ["fedora"; "cachy"]) else ("unsupported kernel flavor: " +:+ kernel);
  Ok (if negb (String.eqb kernel "cachy") && negb (sb_force_stage input)
      then skipped "standard KythOS kernel does not require custom MOK enrollment"
      else if negb (sb_certificate_present input)
      then skipped "KythOS Secure Boot certificate is not present in the live image"
      else if negb (sb_mokutil_present input) then skipped "mokutil is not available in the live image"
      else if String.eqb secure_boot "disabled" then skipped "Secure Boot is disabled; MOK enrollment is not required"
      else if negb (String.eqb secure_boot "enabled")
      then {| sbp_state := "unknown"; sbp_action := "probe"; sbp_requires_password := false;
              sbp_requires_reboot_confirmation := false;
              sbp_message := "Secure Boot state must be checked by the privileged service" |}
      else if String.eqb enrolled "yes"
      then {| sbp_state := "enrolled"; sbp_action := "none"; sbp_requires_password := false;
              sbp_requires_reboot_confirmation := false; sbp_message := "KythOS Secure Boot key is already enrolled" |}
      else if String.eqb pending "yes"
      then {| sbp_state := "pending"; sbp_action := "none"; sbp_requires_password := false;
              sbp_requires_reboot_confirmation := true;
              sbp_message := "KythOS Secure Boot enrollment is pending confirmation on the next boot" |}
      else {| sbp_state := "ready"; sbp_action := "import-certificate"; sbp_requires_password := true;
              sbp_requires_reboot_confirmation := true;
              sbp_message := "The privileged service may stage KythOS MOK enrollment" |}).

Definition classify_import (exit_code : Z) : string := if exit_code =? 0 then "staged" else "failed".

Definition parse_secure_boot_state (output : string) : string :=
  if contains_str "SecureBoot enabled" output then "enabled"
  else if contains_str "SecureBoot disabled" output then "disabled"
  else "unknown".

Definition MAX_MOK_PASSWORD_BYTES : Z := 512.
Definition MOK_TIMEOUT : Z := 30000.
Definition NUL : ascii := ascii_of_N 0.
Definition LF : ascii := ascii_of_N 10.
Definition CR : ascii := ascii_of_N 13.

Definition validate_stage_password (password : string) : result unit :=
  guard! is_empty password || (MAX_MOK_PASSWORD_BYTES <? slen password) || contains_char NUL password
         || contains_char LF password || contains_char CR password
    else "Secure Boot password is empty or contains unsupported characters";
  Ok tt.

(** The import process: spawning it, writing the password, and what each turn of
    the wait sees. *)
Inductive MokPoll := MokExited (code : option Z) | MokRunning | MokError (e : string).
Record MokImport := {
  mk_spawn : result unit;
  mk_write : result unit;
  mk_cancelled : nat → bool;
  mk_poll : nat → MokPoll;
  mk_oversleep : nat → nat;
}.
Fixpoint mok_elapsed (c : MokImport) (n : nat) : Z :=
  match n with O => 0 | S n => mok_elapsed c n + 25 + Z.of_nat (mk_oversleep c n) end.

Definition mok_verdict (c : MokImport) (n : nat) : option (result string) :=
  if mk_cancelled c n then Some (Err "Installation cancelled by user. Disk changes may have already started.")
  else match mk_poll c n with
       | MokExited code => Some (Ok (classify_import (unwrap_or code 1)))
       | MokRunning => if mok_elapsed c n <? MOK_TIMEOUT then None else Some (Err "Secure Boot enrollment timed out")
       | MokError e => Some (Err ("could not wait for Secure Boot enrollment: " +:+ e))
       end.

Definition stage_certificate (c : MokImport) : result string :=
  check! map_err (λ e, "could not stage Secure Boot enrollment: " +:+ e) (mk_spawn c);
  check! map_err (λ e, "could not provide Secure Boot enrollment input: " +:+ e) (mk_write c);
  unwrap_or (poll_until (mok_verdict c) (poll_fuel 25 MOK_TIMEOUT) 0) (Err EmptyString).

(** What the three probes and the files say; a probe answers with its output or
    an error. *)
Record MokOs := {
  mo_certificate : bool;
  mo_mokutil : bool;
  mo_sb_state : result string;
  mo_list_enrolled : result string;
  mo_list_new : result string;
  mo_import : MokImport;
}.

Record SecureBootStageInput := { ss_kernel : string; ss_force_stage : bool; ss_password : string }.

Definition contains_key (probe : result string) : bool :=
  match probe with Ok output => contains_str "KythOS Secure Boot" output | Err _ => false end.
Definition secure_boot_state (os : MokOs) : string :=
  match mo_sb_state os with Ok output => parse_secure_boot_state output | Err _ => "unknown" end.

Definition stage_with_cancellation (os : MokOs) (cancelled : bool) (input : SecureBootStageInput) : result SecureBootPlan :=
  guard! cancelled else "Installation cancelled by user. Disk changes may have already started.";
  let enrolled := mo_mokutil os && contains_key (mo_list_enrolled os) in
  let pending := mo_mokutil os && contains_key (mo_list_new os) in
  let? plan := build_secure_boot_plan
    {| sb_kernel := ss_kernel input; sb_force_stage := ss_force_stage input;
       sb_certificate_present := mo_certificate os; sb_mokutil_present := mo_mokutil os;
       sb_secure_boot := secure_boot_state os;
       sb_enrolled := if enrolled then "yes" else "no"; sb_pending := if pending then "yes" else "no" |} in
  if negb (String.eqb (sbp_action plan) "import-certificate") then Ok plan
  else
    check! validate_stage_password (ss_password input);
    let? staged := stage_certificate (mo_import os) in
    Ok (if String.eqb staged "staged"
        then {| sbp_state := "staged"; sbp_action := "import-certificate"; sbp_requires_password := false;
                sbp_requires_reboot_confirmation := true;
                sbp_message := "KythOS Secure Boot enrollment is staged for confirmation on the next boot" |}
        else {| sbp_state := "failed"; sbp_action := "import-certificate"; sbp_requires_password := false;
                sbp_requires_reboot_confirmation := false;
                sbp_message := "KythOS Secure Boot enrollment could not be staged" |}).

(** * Accounts *)

Record CreateUserInput := {
  cu_deploy_root : string;
  cu_target_root : string;
  cu_username : string;
  cu_password_hash : string;
}.

Definition MAX_USERNAME : Z := 31.
Definition username_start (c : ascii) : bool := is_ascii_lowercase c || byte_among "_" c.
Definition username_byte (c : ascii) : bool := is_ascii_lowercase c || is_ascii_digit c || byte_among "_-" c.

Definition valid_username (username : string) : bool :=
  match username with
  | EmptyString => false
  | String c rest => (slen username <=? MAX_USERNAME) && username_start c && str_all username_byte rest
  end.

Definition absolute_tree (value label : string) : result string :=
  guard! negb (is_absolute value) || has_parent_dir value
    else (label +:+ " must be an absolute path without parent traversal");
  Ok value.

Definition validate_account (input : CreateUserInput) : result (string * string) :=
  let? deploy := absolute_tree (cu_deploy_root input) "deploy_root" in
  let? target := absolute_tree (cu_target_root input) "target_root" in
  let username := trim (cu_username input) in
  guard! negb (valid_username username)
    else "username must start with a lowercase letter or underscore and use only lowercase letters, digits, '_' or '-' (at most 31 characters)";
  guard! is_empty (cu_password_hash input) || contains_char LF (cu_password_hash input)
         || contains_char CR (cu_password_hash input) || contains_char NUL (cu_password_hash input)
         || contains_char ":" (cu_password_hash input)
    else "password_hash must be a single non-empty line without ':'";
  Ok (deploy, target).

(** [openssl passwd -6 -stdin]: spawning it, writing the password, its output. *)
Record Hasher := { hs_spawn : result unit; hs_write : result unit; hs_wait : result CommandOutput }.

Definition hash_password (h : Hasher) (password : string) : result string :=
  guard! is_empty password else "Password cannot be empty. Return to the Configure step and re-enter it.";
  guard! contains_char NUL password else "Password contains an unsupported character";
  guard! contains_char LF password || contains_char CR password else "Password cannot contain a line break";
  check! map_err (λ e, "could not hash password: " +:+ e) (hs_spawn h);
  check! map_err (λ e, "could not provide password to hasher: " +:+ e) (hs_write h);
  let? output := map_err (λ e, "could not wait for password hasher: " +:+ e) (hs_wait h) in
  guard! negb (success output) else "password hashing failed";
  guard! negb (co_utf8 output) else "password hashing returned non-UTF-8 output";
  let hash := trim (co_stdout output) in
  guard! negb (starts_with "$6$" hash) || contains_char LF hash || contains_char CR hash || contains_char NUL hash
    else "password hashing returned an invalid SHA-512 crypt value";
  Ok hash.

(** * The execution plan *)

Record InstallerExecutionInput := {
  ei_bootc : BootcInstallInput;
  ei_configuration : ConfigurationInput;
  ei_secure_boot : SecureBootInput;
  ei_account : option CreateUserInput;
}.

Record AccountCreationPlan := { ac_deploy_root : string; ac_target_root : string; ac_username : string }.

Record InstallerExecutionPlan := {
  ep_bootc : BootcInstallPlan;
  ep_configuration : ConfigurationPlan;
  ep_account : option AccountCreationPlan;
  ep_secure_boot : SecureBootPlan;
}.

Definition account_plan (account : CreateUserInput) : result AccountCreationPlan :=
  let? roots := validate_account account in
  Ok {| ac_deploy_root := fst roots; ac_target_root := snd roots; ac_username := trim (cu_username account) |}.

Definition build_execution_plan (input : InstallerExecutionInput) : result InstallerExecutionPlan :=
  let? account := match ei_account input with
                  | Some account => let? plan := account_plan account in Ok (Some plan)
                  | None => Ok None
                  end in
  let? bootc := build_bootc_plan (ei_bootc input) in
  let? configuration := Configuration.build_plan (ei_configuration input) in
  let? secure_boot := build_secure_boot_plan (ei_secure_boot input) in
  Ok {| ep_bootc := bootc; ep_configuration := configuration; ep_account := account; ep_secure_boot := secure_boot |}.

(** * Start requests *)

Definition WIPE_STAGING_MOUNTPOINT : string := "/run/kyth-installer/install-root".
Definition FILESYSTEM_STAGING_MOUNTPOINT : string := "/run/kyth-installer/alongside-target".
Definition BTRFS_STAGING_MOUNTPOINT : string := "/run/kyth-installer/btrfs-root".

Record NativeInstallRequest := {
  nr_storage : InstallerPlanInput;
  nr_execution : InstallerExecutionInput;
  nr_manual_mounts : option ManualMountsInput;
  nr_secure_boot_password : string;
  nr_transaction_path : string;
}.

Definition normalize_kernel_flavor (value : string) : string :=
  let normalized := to_ascii_lowercase (trim value) in
  if String.eqb normalized "cachyos" then "cachy" else normalized.

(** What decoding a request asks of its surroundings: the environment, the
    password hasher, the disk probe and the derived decoder of the manual
    mounts. *)
Class RequestOs := {
  rq_env : string → option string;
  rq_hasher : Hasher;
  rq_disk_identity : string → option string * option string * option Z;
  rq_manual : json → result ManualMountsInput;
}.

Definition FILESYSTEM_MODES : list string := ["alongside"; "manual"; "free_space"; "resize_ntfs"].

Section request.
Context {HR : RequestOs}.
Context (object : gmap string json).

Definition text (name default : string) : string :=
  match object !! name ≫= as_str with Some s => s | None => default end.
Definition number (name : string) : Z := unwrap_or (object !! name ≫= as_i64) 0.
Definition flag (name : string) (default : bool) : bool := unwrap_or (object !! name ≫= as_bool) default.

Definition acknowledged : bool :=
  match object !! "acknowledged-irreversible" ≫= as_bool with
  | Some b => b
  | None => unwrap_or (object !! "acknowledged_irreversible" ≫= as_bool) false
  end.

Definition request_password_hash (username : string) : result string :=
  let supplied := text "password_hash" EmptyString in
  if is_empty supplied && negb (is_empty username) then hash_password rq_hasher (text "password" EmptyString)
  else Ok supplied.

Definition install_mode : string := to_ascii_lowercase (text "install_mode" EmptyString).
Definition filesystem_install : bool := str_in install_mode FILESYSTEM_MODES.
Definition request_root : string :=
  if filesystem_install then FILESYSTEM_STAGING_MOUNTPOINT else WIPE_STAGING_MOUNTPOINT.

Definition request_manual_mounts : result (option ManualMountsInput) :=
  if negb (String.eqb install_mode "manual") then Ok None
  else
    let uuid := text "uuid" EmptyString in
    guard! is_empty (trim uuid) else "manual install request must include a non-empty uuid";
    let? mounts := map_err (λ e, "invalid manual mount request: " +:+ e)
      (rq_manual (jobject [("disk", JString (text "disk" EmptyString)); ("config_root", JString request_root);
                           ("fstab_path", JString (request_root +:+ "/etc/fstab"));
                           ("mounts", unwrap_or (object !! "mounts") (JArray [])); ("uuid", JString uuid)])) in
    Ok (Some mounts).

Definition request_flatpaks : list string :=
  match object !! "flatpaks" ≫= as_array with Some l => omap as_str l | None => [] end.

Definition request_bootc : BootcInstallInput :=
  {| bi_subcommand := if filesystem_install then "to-filesystem" else "to-disk";
     bi_source_imgref := unwrap_or (rq_env "KYTH_SOURCE_IMAGE") "ghcr.io/kyth-os/kyth:latest";
     bi_target_imgref := unwrap_or (rq_env "KYTH_TARGET_IMAGE") "ghcr.io/kyth-os/kyth:latest";
     bi_target := if filesystem_install then FILESYSTEM_STAGING_MOUNTPOINT else text "disk" EmptyString;
     bi_skip_fetch_check := flag "skip_fetch_check" false;
     bi_skip_finalize := filesystem_install;
     bi_root_subvolume := flag "root_subvolume" filesystem_install;
     bi_wipe := String.eqb install_mode "wipe";
     bi_encryption := text "encryption" "none";
     bi_tpm_recovery_ack := flag "tpm_recovery_ack" false |}.

Definition request_secure_boot : SecureBootInput :=
  {| sb_kernel := normalize_kernel_flavor (text "kernel" "fedora"); sb_force_stage := flag "force_stage" false;
     sb_certificate_present := flag "certificate_present" false; sb_mokutil_present := flag "mokutil_present" false;
     sb_secure_boot := text "secure_boot" "unknown"; sb_enrolled := text "enrolled" "unknown";
     sb_pending := text "pending" "unknown" |}.

Definition request_storage (flatpaks : list string) : InstallerPlanInput :=
  let disk := text "disk" EmptyString in
  let '(model, serial, size) := rq_disk_identity disk in
  {| in_disk := disk; in_install_mode := install_mode; in_target_partition := text "target_partition" EmptyString;
     in_resize_partition := text "resize_partition" EmptyString; in_resize_gib := number "resize_gib";
     in_free_region_start := number "free_region_start"; in_free_region_end := number "free_region_end";
     in_target_disk_serial := serial; in_target_disk_model := model; in_target_disk_size_bytes := size;
     in_flatpaks := flatpaks |}.

Definition from_object : result NativeInstallRequest :=
  guard! negb acknowledged
    else "installation cannot start until the irreversible step is acknowledged: once partitioning starts, erased or resized data cannot be restored.";
  let username := trim (text "username" EmptyString) in
  let? password_hash := request_password_hash username in
  let? manual_mounts := request_manual_mounts in
  let? flatpaks := map_err (λ e, "invalid flatpaks: " +:+ e) (validate_flatpaks request_flatpaks) in
  Ok {| nr_storage := request_storage flatpaks;
        nr_execution :=
          {| ei_bootc := request_bootc;
             ei_configuration := {| ci_target_root := request_root; ci_hostname := text "hostname" "kyth";
                                    ci_timezone := text "timezone" "UTC"; ci_locale := text "locale" "en_US.UTF-8";
                                    ci_keymap := text "keymap" "us" |};
             ei_secure_boot := request_secure_boot;
             ei_account := if is_empty username then None
                           else Some {| cu_deploy_root := request_root; cu_target_root := request_root;
                                        cu_username := username; cu_password_hash := password_hash |} |};
        nr_manual_mounts := manual_mounts;
        nr_secure_boot_password := text "mok_password" EmptyString;
        nr_transaction_path :=
          text "transaction_path" (unwrap_or (rq_env "KYTH_INSTALLER_TRANSACTION") "/run/kyth-installer/txn/transaction.json") |}.
End request.

Definition from_http `{HR : RequestOs} (value : json) : result NativeInstallRequest :=
  match value with
  | JObject object => from_object object
  | _ => Err "installer start request must be a JSON object"
  end.

(** * bootc plans *)

Definition mode_of_encryption (input : BootcInstallInput) : string := to_ascii_lowercase (trim (bi_encryption input)).

(** The options between the image references and the target. *)
Record bootc_shape (i : BootcInstallInput) (p : BootcInstallPlan) (opts : list string) : Prop := {
  bs_argv : ∃ source target_ref, bp_argv p =
    ["bootc"; "install"; bp_subcommand p; "--source-imgref"; source; "--target-imgref"; target_ref] ++ opts ++ [bp_target p];
  bs_sub : bp_subcommand p = "to-disk" ∨ bp_subcommand p = "to-filesystem";
  bs_requested : bp_subcommand p = to_ascii_lowercase (trim (bi_subcommand i));
  bs_disk : bp_subcommand p = "to-disk" → InstallerPlan.normalize_device_path (bi_target i) = Some (bp_target p);
  bs_tree : bp_subcommand p = "to-filesystem" → bp_target p = trim (bi_target i);
  bs_wipe : "--wipe" ∈ opts ↔ bp_subcommand p = "to-disk" ∧ bi_wipe i = true;
  bs_luks : "tpm2-luks" ∈ opts ↔ mode_of_encryption i = "tpm2";
  bs_plain : "direct" ∈ opts ↔ bp_subcommand p = "to-disk" ∧ (mode_of_encryption i = EmptyString ∨ mode_of_encryption i = "none");
  bs_ack : mode_of_encryption i = "tpm2" → bp_subcommand p = "to-disk" ∧ bi_tpm_recovery_ack i = true;
}.

Lemma str_in_cons x y l : str_in x (y :: l) = true ↔ x = y ∨ str_in x l = true.
Proof. cbn. by rewrite orb_true_iff, String.eqb_eq. Qed.

(** Membership of a constant in a list of constants. *)
Ltac mem_decide := rewrite <-str_in_true; cbn; intuition congruence.

Lemma build_bootc_plan_shape i p : build_bootc_plan i = Ok p → ∃ opts, bootc_shape i p opts.
Proof.
  unfold build_bootc_plan. cbn zeta. intros H. guard_inv H as Hsub. apply rbind_Ok in H as (source & _ & H).
  apply rbind_Ok in H as (tref & _ & H). guard_inv H as Henc. guard_inv H as Hack.
  apply rbind_Ok in H as (target & Htarget & H). apply rbind_Ok in H as (opts & Hopts & H). injection H as <-.
  apply negb_false_iff in Hsub, Henc. fold (mode_of_encryption i) in *.
  set (sub := to_ascii_lowercase (trim (bi_subcommand i))) in *. remember (mode_of_encryption i) as enc eqn:Eenc.
  assert (sub = "to-disk" ∨ sub = "to-filesystem") as Hs.
  { apply str_in_cons in Hsub as [?|[?|?]%str_in_cons]; [auto..|done]. }
  assert (enc = EmptyString ∨ enc = "none" ∨ enc = "tpm2") as He.
  { apply str_in_cons in Henc as [?|[?|[?|?]%str_in_cons]%str_in_cons]; auto; done. }
  match goal with |- context [skip_fetch i ?a] => set (skip := skip_fetch i a) end. exists (opts ++ skip).
  assert (∀ x : string, x ≠ "--skip-fetch-check" → (x ∈ opts ++ skip ↔ x ∈ opts)) as Hin.
  { intros x Hx. rewrite elem_of_app. unfold skip, skip_fetch. destruct (bi_skip_fetch_check i && _); [|by rewrite elem_of_nil; naive_solver].
    rewrite elem_of_cons, elem_of_nil. naive_solver. }
  split; rewrite <-?Eenc, ?Hin by done; cbn [bp_argv bp_subcommand bp_target]; clear Eenc.
  - exists source, tref. by rewrite <-!app_assoc.
  - done.
  - done.
  - intros E. rewrite E in Htarget. cbn in Htarget. by apply ok_or_Ok in Htarget.
  - intros E. rewrite E in Htarget. cbn in Htarget. unfold safe_bootc_path in Htarget.
    guard_inv Htarget as E1. guard_inv Htarget as E2. by injection Htarget as <-.
  - unfold bootc_options in Hopts. destruct Hs as [-> | ->]; cbn in Hopts.
    + injection Hopts as <-. destruct (bi_wipe i), (String.eqb enc "tpm2"); mem_decide.
    + guard_inv Hopts as E. injection Hopts as <-. destruct (bi_skip_finalize i), (bi_root_subvolume i); mem_decide.
  - unfold bootc_options in Hopts. destruct Hs as [-> | ->]; cbn in Hopts.
    + injection Hopts as <-. destruct (String.eqb_spec enc "tpm2"), (bi_wipe i); mem_decide.
    + guard_inv Hopts as E. apply String.eqb_neq in E. injection Hopts as <-.
      destruct (bi_skip_finalize i), (bi_root_subvolume i); mem_decide.
  - unfold bootc_options in Hopts. destruct Hs as [-> | ->]; cbn in Hopts.
    + injection Hopts as <-. destruct He as [-> |[-> | ->]], (bi_wipe i); cbn; mem_decide.
    + guard_inv Hopts as E. injection Hopts as <-. destruct (bi_skip_finalize i), (bi_root_subvolume i); mem_decide.
  - intros E. rewrite E in *. cbn in Hack. apply negb_false_iff in Hack. split; [|done].
    unfold bootc_options in Hopts. destruct Hs as [-> | ->]; [done|]. cbn in Hopts. discriminate.
Qed.

(** * Requests and plans agree *)

Lemma from_http_Ok `{HR : RequestOs} v r :
  from_http v = Ok r →
  ∃ object flatpaks, v = JObject object ∧ acknowledged object = true ∧ nr_storage r = request_storage object flatpaks
  ∧ ei_bootc (nr_execution r) = request_bootc object
  ∧ ci_target_root (ei_configuration (nr_execution r)) = request_root object.
Proof.
  destruct v as [| | | | | |object]; try discriminate. cbn. unfold from_object. intros H. guard_inv H as Ha.
  apply rbind_Ok in H as (hash & _ & H). apply rbind_Ok in H as (mounts & _ & H).
  apply rbind_Ok in H as (flatpaks & _ & H). injection H as <-. apply negb_false_iff in Ha.
  by exists object, flatpaks.
Qed.

Lemma build_execution_plan_Ok i ep : build_execution_plan i = Ok ep → build_bootc_plan (ei_bootc i) = Ok (ep_bootc ep).
Proof.
  unfold build_execution_plan. intros H. apply rbind_Ok in H as (a & _ & H). apply rbind_Ok in H as (b & Hb & H).
  apply rbind_Ok in H as (c & _ & H). apply rbind_Ok in H as (d & _ & H). by injection H as <-.
Qed.

(** The mode of a request as the client wrote it. *)
Definition request_mode (v : json) : string :=
  match v with JObject object => install_mode object | _ => EmptyString end.

(** C7: the two halves of a start request agree when the mode has no surrounding
    white space: bootc is told to erase a disk exactly in the erasing mode, then
    on the disk of the storage plan, and otherwise installs into the staging
    mount point; the request was acknowledged, and encryption is never dropped. *)
Theorem request_plans_agree `{HR : RequestOs} v r plan ep :
  from_http v = Ok r → InstallerPlan.build_plan (nr_storage r) = Ok plan →
  build_execution_plan (nr_execution r) = Ok ep → trim (request_mode v) = request_mode v →
  ∃ opts, bootc_shape (ei_bootc (nr_execution r)) (ep_bootc ep) opts
  ∧ ("--wipe" ∈ opts ↔ pl_mode plan = "wipe")
  ∧ (bp_subcommand (ep_bootc ep) = "to-disk" ↔ pl_mode plan = "wipe")
  ∧ bp_target (ep_bootc ep) = (if String.eqb (pl_mode plan) "wipe" then pl_disk plan else FILESYSTEM_STAGING_MOUNTPOINT)
  ∧ ("tpm2-luks" ∈ opts ↔ mode_of_encryption (ei_bootc (nr_execution r)) = "tpm2").
Proof.
  intros Hr Hplan Hep Htrim. apply from_http_Ok in Hr as (object & flatpaks & -> & Hack & Hst & Hb & _).
  apply build_execution_plan_Ok in Hep. destruct (build_bootc_plan_shape _ _ Hep) as (opts & Hshape).
  exists opts. split; [done|]. destruct Hshape as [_ _ Hreq Hdisk Htree Hwipe Hluks _ _]. rewrite Hb in *.
  cbn [request_bootc bi_subcommand bi_target bi_wipe] in *. cbn [request_mode] in Htrim.
  apply build_plan_inv in Hplan as (t & rz & f & Hmodes & Hd & _ & _ & _ & _ & Hm & _).
  assert (pl_mode plan = install_mode object ∧ normalize_device_path (text object "disk" EmptyString) = Some (pl_disk plan))
    as [Hmode Hpd].
  { rewrite Hst in Hm, Hd. unfold request_storage in Hm, Hd. destruct (rq_disk_identity _) as [[a b] c].
    split; [|done]. rewrite Hm. unfold mode_of. cbn [in_install_mode]. rewrite Htrim.
    unfold install_mode. apply to_ascii_lowercase_idemp. }
  assert (filesystem_install object = negb (String.eqb (install_mode object) "wipe")) as Hfs.
  { unfold filesystem_install. rewrite <-Hm, Hmode in Hmodes. apply str_in_true in Hmodes. revert Hmodes. cbn.
    destruct (String.eqb_spec (install_mode object) "wipe") as [->|_]; [done|].
    repeat (destruct (String.eqb (install_mode object) _); try done). }
  rewrite Hmode. rewrite Hfs in *. destruct (String.eqb_spec (install_mode object) "wipe") as [E|E]; cbn [negb] in *.
  - change (to_ascii_lowercase (trim "to-disk")) with "to-disk" in Hreq. rewrite Hreq in *.
    specialize (Hdisk eq_refl). rewrite Hdisk in Hpd. injection Hpd as ->. split_and!; [|done|done|done].
    rewrite Hwipe. naive_solver.
  - change (to_ascii_lowercase (trim "to-filesystem")) with "to-filesystem" in Hreq. rewrite Hreq in *.
    split_and!; [rewrite Hwipe; naive_solver|done|by rewrite Htree|done].
Qed.

(** The surroundings of a plain request. *)
Definition plain_request_os : RequestOs := {|
  rq_env := λ _, None;
  rq_hasher := {| hs_spawn := Ok tt; hs_write := Ok tt; hs_wait := Ok {| co_code := Some 0; co_stdout := "$6$salt$hash"; co_utf8 := true |} |};
  rq_disk_identity := λ _, (None, None, None);
  rq_manual := λ _, Err "unused"
|}.
Definition start_request (mode : string) : json :=
  jobject [("acknowledged_irreversible", JBool true); ("disk", JString "/dev/sda"); ("install_mode", JString mode);
           ("target_partition", JString "/dev/sda3"); ("username", JString "kyth"); ("password", JString "secret")].

Definition request_of (mode : string) : result NativeInstallRequest := from_http (HR := plain_request_os) (start_request mode).

Lemma request_plans_agree_witness :
  match request_of "wipe" with
  | Ok r =>
      match InstallerPlan.build_plan (nr_storage r), build_execution_plan (nr_execution r) with
      | Ok plan, Ok ep => ∃ opts, "--wipe" ∈ opts ∧ bp_target (ep_bootc ep) = "/dev/sda" ∧ bootc_shape (ei_bootc (nr_execution r)) (ep_bootc ep) opts
      | _, _ => False
      end
  | Err _ => False
  end.
Proof.
  destruct (request_of "wipe") as [r|e] eqn:Er; [|vm_compute in Er; discriminate].
  destruct (InstallerPlan.build_plan (nr_storage r)) as [plan|e] eqn:Ep;
    [|vm_compute in Er; injection Er as <-; vm_compute in Ep; discriminate].
  destruct (build_execution_plan (nr_execution r)) as [ep|e] eqn:Ee;
    [|vm_compute in Er; injection Er as <-; vm_compute in Ee; discriminate].
  assert (pl_mode plan = "wipe" ∧ pl_disk plan = "/dev/sda") as [Hm Hd]
    by (vm_compute in Er; injection Er as <-; vm_compute in Ep; injection Ep as <-; split; reflexivity).
  destruct (request_plans_agree (HR := plain_request_os) (start_request "wipe") r plan ep Er Ep Ee ltac:(vm_compute; reflexivity))
    as (opts & Hs & Hw & _ & Ht & _).
  exists opts. split; [by apply Hw|]. split; [|exact Hs]. rewrite Ht, Hm. exact Hd.
Defined.

(** With white space around its mode a request splits: the storage plan trims the
    mode and replaces one partition, while bootc is told to install to the whole
    disk. *)
Theorem padded_mode_targets_disk :
  ∃ r plan ep, request_of "alongside " = Ok r ∧ InstallerPlan.build_plan (nr_storage r) = Ok plan
  ∧ build_execution_plan (nr_execution r) = Ok ep
  ∧ pl_mode plan = "alongside" ∧ pl_target_partition plan = Some "/dev/sda3"
  ∧ bp_subcommand (ep_bootc ep) = "to-disk" ∧ bp_target (ep_bootc ep) = "/dev/sda".
Proof.
  destruct (request_of "alongside ") as [r|e] eqn:Er; [|vm_compute in Er; discriminate].
  vm_compute in Er. injection Er as <-. eexists _, _, _. split_and!; [reflexivity|vm_compute; reflexivity|vm_compute; reflexivity|..];
  reflexivity.
Qed.

(** * Secure Boot staging *)

(** The wait for mokutil ends, with what its first deciding turn says. *)
Lemma stage_certificate_decides c :
  mk_spawn c = Ok tt → mk_write c = Ok tt →
  ∃ n r, mok_verdict c n = Some r ∧ stage_certificate c = r ∧ ∀ k, (k < n)%nat → mok_verdict c k = None.
Proof.
  intros Hs Hw. unfold stage_certificate. rewrite Hs, Hw. cbn [map_err rbind].
  destruct (poll_until_decides (mok_verdict c) 25 MOK_TIMEOUT) as (n & r & _ & Hp & Hr & Hn); [lia|unfold MOK_TIMEOUT; lia| |].
  - intros k. unfold mok_verdict. destruct (mk_cancelled c k); [done|]. destruct (mk_poll c k); [done| |done].
    destruct (Z.ltb_spec (mok_elapsed c k) MOK_TIMEOUT); [|done]. intros _.
    assert (∀ n, 25 * Z.of_nat n <= mok_elapsed c n) as Hel by (induction n as [|n IHn]; cbn [mok_elapsed]; lia).
    specialize (Hel k). lia.
  - exists n, r. rewrite Hp. done.
Qed.

(** A key is reported staged exactly when staging was needed and possible, the
    password was usable and mokutil exited with success. *)
Theorem mok_staged_exact os input plan :
  stage_with_cancellation os false input = Ok plan →
  sbp_state plan = "staged" ↔
  (to_ascii_lowercase (trim (ss_kernel input)) = "cachy" ∨ ss_force_stage input = true)
  ∧ mo_certificate os = true ∧ mo_mokutil os = true ∧ secure_boot_state os = "enabled"
  ∧ contains_key (mo_list_enrolled os) = false ∧ contains_key (mo_list_new os) = false
  ∧ validate_stage_password (ss_password input) = Ok tt ∧ stage_certificate (mo_import os) = Ok "staged".
Proof.
  unfold stage_with_cancellation. intros H. apply rbind_Ok in H as (p & Hp & H).
  unfold build_secure_boot_plan in Hp. cbn zeta in Hp. cbn [sb_kernel sb_force_stage sb_certificate_present sb_mokutil_present
    sb_secure_boot sb_enrolled sb_pending] in Hp. guard_inv Hp as Hk. injection Hp as <-.
  assert (to_ascii_lowercase (trim (secure_boot_state os)) = secure_boot_state os) as Hst.
  { unfold secure_boot_state, parse_secure_boot_state. destruct (mo_sb_state os); [|reflexivity]. repeat case_match; reflexivity. }
  assert (∀ b : bool, String.eqb (to_ascii_lowercase (trim (if b then "yes" else "no"))) "yes" = b) as Hyes by (by intros []).
  rewrite Hst, !Hyes in H. clear Hst Hyes Hk. revert H.
  destruct (String.eqb_spec (to_ascii_lowercase (trim (ss_kernel input))) "cachy") as [Ek|Ek], (ss_force_stage input);
    cbn [negb andb]; [..|intros [= <-]; cbn; naive_solver].
  all: destruct (mo_certificate os); cbn [negb]; [|intros [= <-]; cbn; naive_solver].
  all: destruct (mo_mokutil os); cbn [negb andb]; [|intros [= <-]; cbn; naive_solver].
  all: destruct (String.eqb_spec (secure_boot_state os) "disabled") as [Ed|_]; [intros [= <-]; cbn; rewrite Ed; naive_solver|].
  all: destruct (String.eqb_spec (secure_boot_state os) "enabled") as [Ee|Ee]; cbn [negb]; [|intros [= <-]; cbn; naive_solver].
  all: destruct (contains_key (mo_list_enrolled os)); [intros [= <-]; cbn; naive_solver|].
  all: destruct (contains_key (mo_list_new os)); [intros [= <-]; cbn; naive_solver|].
  all: cbn [sbp_action]; change (negb (String.eqb "import-certificate" "import-certificate")) with false; cbn iota.
  all: intros H; apply rbind_Ok in H as ([] & Hv & H); apply rbind_Ok in H as (st & Hc & H); injection H as <-; rewrite Hc.
  all: destruct (String.eqb_spec st "staged") as [->|Hne]; cbn; naive_solver.
Qed.

(** A CachyOS kernel on a machine with Secure Boot, where mokutil succeeds. *)
Definition willing_mok : MokOs := {|
  mo_certificate := true; mo_mokutil := true; mo_sb_state := Ok "SecureBoot enabled"; mo_list_enrolled := Ok EmptyString;
  mo_list_new := Ok EmptyString;
  mo_import := {| mk_spawn := Ok tt; mk_write := Ok tt; mk_cancelled _ := false;
                  mk_poll n := if Nat.eqb n 2 then MokExited (Some 0) else MokRunning; mk_oversleep _ := 0%nat |} |}.
Definition cachy_stage : SecureBootStageInput := {| ss_kernel := " Cachy"; ss_force_stage := false; ss_password := "correct horse" |}.

Lemma mok_staged_exact_witness :
  match stage_with_cancellation willing_mok false cachy_stage with
  | Ok plan => sbp_state plan = "staged"
  | Err _ => False
  end.
Proof.
  destruct (stage_with_cancellation willing_mok false cachy_stage) as [plan|e] eqn:E; [|vm_compute in E; discriminate].
  apply (mok_staged_exact willing_mok cachy_stage plan E).
  split; [left|split_and!]; vm_compute; reflexivity.
Defined.
