(* ===== verification/PhaseExecutor.v ===== *)
(** The production phase executor: [installer_job_executor.rs].

    Each phase of an installation is a sequence of probes, checks, journal and
    marker writes and calls of the root-only helper.  The machine around the
    executor may answer anything, depending on all that was done before; what
    the executor does to the machine is a log of events.  ExecutorSafety.v proves
    what holds of every such log. *)

From S2P Require Import Prelude RustStr RustOs Json FileSystem Stream Orchestration InstallerRuntime InstallerJob InstallerPlan StorageModel Partitions FreeRegions InstallerGuard.
From S2P Require Import InstallerDisk InstallerRuntime DurableJournal InstallerTransaction Configuration Probes ManualMounts.
From S2P Require Import ExecutionPlan.

(** * Errors *)

Inductive NativeOperation :=
| ValidateStoragePlan | ValidateExecutionPlan | StorageMutation | ImageWrite | ConfigurationWrite | AccountCreate
| SecureBootInteraction | CompletionCommit.

Definition operation_name (o : NativeOperation) : string :=
  match o with
  | ValidateStoragePlan => "validate_storage_plan" | ValidateExecutionPlan => "validate_execution_plan"
  | StorageMutation => "storage_mutation" | ImageWrite => "image_write" | ConfigurationWrite => "configuration_write"
  | AccountCreate => "account_create" | SecureBootInteraction => "secure_boot_interaction"
  | CompletionCommit => "completion_commit"
  end.

Definition phase_debug (p : Phase) : string :=
  match p with
  | Prepare => "Prepare" | Storage => "Storage" | Image => "Image" | Configure => "Configure"
  | SecureBoot => "SecureBoot" | Complete => "Complete"
  end.
Definition phase_tag (p : Phase) : string :=
  match p with
  | Prepare => "prepare" | Storage => "storage" | Image => "image" | Configure => "configure"
  | SecureBoot => "secure_boot" | Complete => "complete"
  end.

Inductive NativePhaseError :=
| Cancelled (phase : Phase)
| InvalidPlan (phase : Phase) (operation : NativeOperation)
| Execution (phase : Phase) (message : string).

(** [Display]; an error is only ever shown. *)
Definition display (e : NativePhaseError) : string :=
  match e with
  | Cancelled phase => "native installer phase " +:+ phase_debug phase +:+ " was cancelled before execution"
  | InvalidPlan phase operation =>
      "native installer operation " +:+ operation_name operation +:+ " is unavailable for invalid phase " +:+ phase_debug phase
  | Execution phase message => "native installer phase " +:+ phase_debug phase +:+ " failed: " +:+ message
  end.

(** [.map_err(|message| NativePhaseError::Execution { phase, message })] *)
Definition exec_err {A} (phase : Phase) (r : result A) : result A := map_err (λ m, display (Execution phase m)) r.

(** * The machine *)

(** A request to the root-only helper. *)
Inductive HelperRequest :=
| HDisk (op : DiskOperationInput)
| HStream (op : DiskOperationInput)
| HBootc (request : BootcInstallInput)
| HFixed (operation : string) (request : json)
| HManual (request : ManualMountsInput).

Record AssuranceInput := {
  as_target_root : string;
  as_deploy_root : string;
  as_hostname : string;
  as_locale : string;
  as_keymap : string;
  as_timezone : string;
  as_username : string;
  as_encryption : string;
  as_target_disk : string;
}.

(** A check that passed. *)
Inductive Check := GuardPassed | SourceVerified | PreflightPassed | ResourcesPassed | TargetPassed (device : string).

(** A step of the configuration on the installed file system. *)
Inductive ConfigStep :=
| SnapshotFstab (path : string)
| AppendFstab (path line : string)
| ApplyPlan (plan : ConfigurationPlan)
| RestoreFstab (path : string)
| StageFlatpaks (deploy_root : string) (flatpaks : list string).

Inductive Event :=
| Helper (request : HelperRequest) (cancellable : bool) (outcome : result (option Z))
| Passed (check : Check)
| Opened (path : string)
| Journalled (path op : string) (state : OpState)
| Relocated (path dest : string)
| Marked (state : TransactionState)
| Summary (message : string)
| Kept (dir : string)
| Configured (step : ConfigStep).

(** Everything outside the executor, after the events so far. *)
Class ExecOs := {
  xo_cancelled : list Event → bool;
  xo_runner : list Event → Runner;
  xo_children : list Event → Children;
  xo_helper : list Event → HelperRequest → bool → result (option Z);
  xo_exists : string → bool;
  xo_env : string → option string;
  xo_read : list Event → string → result string;         (* read_regular_file *)
  xo_meminfo : option string;                             (* /proc/meminfo *)
  xo_statvfs : option (Z * Z);                            (* f_bavail, f_frsize *)
  xo_power : Orchestration.PowerTree;
  xo_ac_online : bool;
  xo_clock : list Event → result Z;                       (* seconds since the epoch *)
  xo_tempdir : list Event → result string;
  xo_mark : list Event → string → TransactionState → result unit;     (* installer_transaction::write_request *)
  xo_summary : list Event → result unit;
  xo_lock : list Event → bool → result unit;              (* acquire_disk_lock, acquire_bootc_disk_lock *)
  xo_guard : list Event → GuardProbes;
  xo_open : list Event → option string → string → result string;      (* DurableJournal::open: the path *)
  xo_record : list Event → string → string → OpState → result unit;
  xo_load : list Event → string → result JournalState;
  xo_relocate : list Event → string → string → result unit;
  xo_deploy_root : list Event → string → result string;
  xo_configure : list Event → ConfigStep → result unit;
  xo_assurance : list Event → AssuranceInput → result (list json);     (* installer_assurance::validate *)
  xo_source_status : string → string → json;
  xo_pcrread : list Event → string → bool;
  xo_mok : list Event → MokOs;
}.

(** The executor's plans, fixed when it is built. *)
Record NativePhaseExecutor := {
  ex_plan : InstallerPlan;
  ex_execution : InstallerExecutionPlan;
  ex_bootc : BootcInstallInput;
  ex_account : option CreateUserInput;
  ex_manual_mounts : option ManualMountsInput;
  ex_source_imgref : string;
  ex_target_imgref : string;
  ex_kernel : string;
  ex_force_stage : bool;
  ex_password : string;
  ex_transaction_path : string;
}.

(** Its state: the fields behind mutexes. *)
Record XState := {
  xs_log : list Event;
  xs_transaction : TransactionState;
  xs_mounts : MountRegistry;
  xs_storage_target : option string;
  xs_secure_boot : option string;
  xs_journal : option string;
}.
Definition X (A : Type) : Type := ST XState A.

Definition set_log l s := {| xs_log := l; xs_transaction := xs_transaction s; xs_mounts := xs_mounts s;
  xs_storage_target := xs_storage_target s; xs_secure_boot := xs_secure_boot s; xs_journal := xs_journal s |}.
Definition set_transaction t s := {| xs_log := xs_log s; xs_transaction := t; xs_mounts := xs_mounts s;
  xs_storage_target := xs_storage_target s; xs_secure_boot := xs_secure_boot s; xs_journal := xs_journal s |}.
Definition set_mounts m s := {| xs_log := xs_log s; xs_transaction := xs_transaction s; xs_mounts := m;
  xs_storage_target := xs_storage_target s; xs_secure_boot := xs_secure_boot s; xs_journal := xs_journal s |}.
Definition set_storage_target t s := {| xs_log := xs_log s; xs_transaction := xs_transaction s; xs_mounts := xs_mounts s;
  xs_storage_target := t; xs_secure_boot := xs_secure_boot s; xs_journal := xs_journal s |}.
Definition set_secure_boot b s := {| xs_log := xs_log s; xs_transaction := xs_transaction s; xs_mounts := xs_mounts s;
  xs_storage_target := xs_storage_target s; xs_secure_boot := b; xs_journal := xs_journal s |}.
Definition set_journal j s := {| xs_log := xs_log s; xs_transaction := xs_transaction s; xs_mounts := xs_mounts s;
  xs_storage_target := xs_storage_target s; xs_secure_boot := xs_secure_boot s; xs_journal := j |}.

Definition emit (ev : Event) : X unit := λ s, (Ok tt, set_log (xs_log s ++ [ev]) s).
Definition modify (f : XState → XState) : X unit := λ s, (Ok tt, f s).
Definition asks {A} (f : XState → A) : X A := λ s, (Ok (f s), s).
(** An answer of the machine as it is now. *)
Definition answer {A} (f : list Event → result A) : X A := λ s, (f (xs_log s), s).
(** What a computation returns, its error as a value. *)
Definition attempt {A} (c : X A) : X (result A) := λ s, let '(r, s') := c s in (Ok r, s').
Definition fail_with {A} (phase : Phase) (message : string) : X A := m_lift (Err (display (Execution phase message))).

Section executor.
Context {HL : LsblkDecoder} {HF : FindmntDecoder} {HJ : JsonCodec} {HX : ExecOs}.
Context (self : NativePhaseExecutor).

Definition disk : string := pl_disk (ex_plan self).
Definition mode : string := pl_mode (ex_plan self).

(** * The transaction marker *)

Definition with_marker (updated_at status phase lifecycle message : string) (t : TransactionState) : TransactionState :=
  let fresh := String.eqb status "started" in
  {| ts_schema_version := ts_schema_version t; ts_transaction_id := ts_transaction_id t; ts_job_id := ts_job_id t;
     ts_updated_at := updated_at; ts_status := status; ts_phase := phase; ts_lifecycle := lifecycle;
     ts_install_mode := ts_install_mode t; ts_disk := ts_disk t; ts_target_partition := ts_target_partition t;
     ts_source := ts_source t; ts_checks := if fresh then [] else ts_checks t;
     ts_partition_steps := if fresh then [] else ts_partition_steps t; ts_message := message;
     ts_recovery_required := String.eqb status "failed" |}.

Definition with_lists (checks steps : list json) (t : TransactionState) : TransactionState :=
  {| ts_schema_version := ts_schema_version t; ts_transaction_id := ts_transaction_id t; ts_job_id := ts_job_id t;
     ts_updated_at := ts_updated_at t; ts_status := ts_status t; ts_phase := ts_phase t; ts_lifecycle := ts_lifecycle t;
     ts_install_mode := ts_install_mode t; ts_disk := ts_disk t; ts_target_partition := ts_target_partition t;
     ts_source := ts_source t; ts_checks := checks; ts_partition_steps := steps; ts_message := ts_message t;
     ts_recovery_required := ts_recovery_required t |}.

Definition with_job_id (job_id : Z) (t : TransactionState) : TransactionState :=
  {| ts_schema_version := ts_schema_version t; ts_transaction_id := ts_transaction_id t; ts_job_id := Some job_id;
     ts_updated_at := ts_updated_at t; ts_status := ts_status t; ts_phase := ts_phase t; ts_lifecycle := ts_lifecycle t;
     ts_install_mode := ts_install_mode t; ts_disk := ts_disk t; ts_target_partition := ts_target_partition t;
     ts_source := ts_source t; ts_checks := ts_checks t; ts_partition_steps := ts_partition_steps t; ts_message := ts_message t;
     ts_recovery_required := ts_recovery_required t |}.

(** [write_request] of the marker as it is now; the state keeps the change even
    when the write fails. *)
Definition write_marker : X unit :=
  do! t <- asks xs_transaction;
  do! _ <- answer (λ l, xo_mark l (ex_transaction_path self) t);
  emit (Marked t).

Definition write_transaction (status : string) (phase : Phase) (lifecycle message : string) : X unit :=
  do! now <- answer (λ l, map_err (λ e, "could not determine transaction timestamp: " +:+ e) (xo_clock l));
  do! _ <- modify (λ s, set_transaction
             (with_marker (show_int now) status (phase_tag phase) lifecycle message (xs_transaction s)) s);
  write_marker.

Definition map_error {A} (f : string → string) (c : X A) : X A :=
  λ s, let '(r, s') := c s in (map_err f r, s').
Definition in_phase {A} (phase : Phase) (c : X A) : X A := map_error (λ m, display (Execution phase m)) c.

Definition append_check_for_phase (phase : Phase) (check : json) : X unit :=
  do! _ <- modify (λ s, let t := xs_transaction s in
             set_transaction (with_lists (ts_checks t ++ [check]) (ts_partition_steps t) t) s);
  in_phase phase write_marker.
Definition append_check (check : json) : X unit := append_check_for_phase Prepare check.

Definition step_document (index : nat) (kind status target : string) : json :=
  jobject [("index", JString (show_int (Z.of_nat index))); ("kind", JString kind); ("status", JString status);
           ("target", JString target)].

Definition append_partition_step (kind status target : string) (phase : Phase) : X unit :=
  do! _ <- modify (λ s, let t := xs_transaction s in
             set_transaction (with_lists (ts_checks t)
               (ts_partition_steps t ++ [step_document (length (ts_partition_steps t)) kind status target]) t) s);
  in_phase phase write_marker.

Definition persist_failure_summary (message : string) : X unit :=
  do! r <- attempt (answer xo_summary);
  match r with Ok _ => emit (Summary message) | Err _ => m_ret tt end.

(** * The helper *)

(** The step a request is reported as, and what it acts on. *)
Definition step_kind (op : DiskOperationInput) : option string :=
  match op with
  | CreateLabel _ _ => Some "create_label"
  | CreatePartition _ _ _ _ _ _ => Some "create_partition"
  | CreateUnformattedPartition _ _ _ _ _ => Some "create_unformatted_partition"
  | DeletePartition _ _ _ => Some "delete_partition"
  | ResizePartition _ _ _ _ _ _ => Some "resize_partition"
  | FormatFilesystem _ _ _ _ => Some "format_filesystem"
  | SetPartitionFlag _ _ _ _ _ => Some "set_partition_flag"
  | FilesystemResize _ _ _ _ => Some "filesystem_resize"
  | BtrfsSubvolumeCreate _ _ => Some "btrfs_subvolume_create"
  | BtrfsSubvolumeSetDefault _ _ => Some "btrfs_subvolume_set_default"
  | _ => None
  end.
Definition step_target (op : DiskOperationInput) : string :=
  match op with
  | FilesystemCheck device | FilesystemResize device _ _ _ | MountFilesystem device _ _ _
  | FormatFilesystem device _ _ _ => device
  | BackupTable disk _ | RestoreTable disk _ | CreateLabel disk _ | CreatePartition disk _ _ _ _ _
  | CreateUnformattedPartition disk _ _ _ _ | DeletePartition disk _ _ | ResizePartition disk _ _ _ _ _
  | SetPartitionFlag disk _ _ _ _ => disk
  | UnmountFilesystem mountpoint _ _ | BtrfsSubvolumeCreate mountpoint _ | BtrfsSubvolumeSetDefault mountpoint _ => mountpoint
  | EnsureDirectory _ => EmptyString
  end.

(** [run_command_with_input] of the helper, and its exit status. *)
Definition run_helper (phase : Phase) (request : HelperRequest) (cancellable : bool) : X (option Z) :=
  do! outcome <- asks (λ s, xo_helper (xs_log s) request cancellable);
  do! _ <- emit (Helper request cancellable outcome);
  m_lift (exec_err phase outcome).

Definition status_text (code : option Z) : string :=
  match code with Some c => "exit status: " +:+ show_int c | None => "signal" end.

(** A helper call reported as a partition step. *)
Definition stepped {A} (phase : Phase) (kind : option string) (target : string) (run : X (option Z)) (value : A)
    (failure : string) : X A :=
  do! _ <- match kind with Some kind => append_partition_step kind "started" target phase | None => m_ret tt end;
  do! status <- run;
  if bool_decide (status = Some 0) then
    do! _ <- match kind with Some kind => append_partition_step kind "completed" target phase | None => m_ret tt end;
    m_ret value
  else
    do! _ <- match kind with
             | Some kind => do! _ <- attempt (append_partition_step kind "failed" target phase); m_ret tt
             | None => m_ret tt
             end;
    fail_with phase (failure +:+ status_text status).

Definition disk_helper (phase : Phase) (cancellable : bool) (op : DiskOperationInput) : X unit :=
  stepped phase (step_kind op) (step_target op) (run_helper phase (HDisk op) cancellable) tt "disk helper exited with status ".
Definition execute_disk_helper (phase : Phase) (op : DiskOperationInput) : X unit := disk_helper phase true op.

Definition execute_stream_helper (phase : Phase) (request : HelperRequest) (step : option (string * string)) : X bool :=
  let kind := match request with
              | HStream (FilesystemResize _ _ _ _) => Some "filesystem_resize"
              | _ => fst <$> step
              end in
  let target := match request with
                | HStream (FilesystemResize device _ _ _) => device
                | _ => unwrap_or (snd <$> step) EmptyString
                end in
  stepped phase kind target (run_helper phase request true) true "streaming disk helper exited with status ".

Definition fixed_helper (phase : Phase) (operation : string) (request : HelperRequest) : X unit :=
  do! status <- run_helper phase request true;
  if bool_decide (status = Some 0) then m_ret tt
  else fail_with phase (operation +:+ " helper exited with status " +:+ status_text status).
Definition execute_fixed_helper (phase : Phase) (operation : string) (request : json) : X unit :=
  fixed_helper phase operation (HFixed operation request).

(** * Mounts *)

Definition register_mount (path : string) : X unit := modify (λ s, set_mounts (register path (xs_mounts s)) s).
Definition release_mount (path : string) : X unit := modify (λ s, set_mounts (Probes.release path (xs_mounts s)) s).

(** The loop of [cleanup_mounts]: every mount is tried, the first error is kept. *)
Fixpoint unmount_all (phase : Phase) (paths : list string) (first_error : option string) : X unit :=
  match paths with
  | [] => m_lift (match first_error with Some e => Err e | None => Ok tt end)
  | path :: paths =>
      do! r <- attempt (disk_helper phase false (UnmountFilesystem path true true));
      unmount_all phase paths (match r, first_error with Err e, None => Some e | _, _ => first_error end)
  end.
Definition cleanup_mounts (phase : Phase) : X unit :=
  do! paths <- asks (λ s, fst (cleanup_order (xs_mounts s)));
  do! _ <- modify (λ s, set_mounts (snd (cleanup_order (xs_mounts s))) s);
  unmount_all phase paths None.

(** * Probes *)

Definition SNAPSHOT_COLUMNS : string :=
  "NAME,SIZE,TYPE,FSTYPE,PARTTYPE,PARTN,PARTUUID,LABEL,MOUNTPOINT,MOUNTPOINTS,START,RO,PKNAME,PTTYPE".

Definition disk_snapshot (phase : Phase) : X string :=
  answer (λ l, exec_err phase
    (probe_text (H := xo_runner l) "/usr/bin/lsblk" ["--json"; "--bytes"; "--paths"; "--output"; SNAPSHOT_COLUMNS; disk]
       (λ e, "could not probe target disk: " +:+ e) "target disk probe failed" "target disk probe was not UTF-8")).

Definition parse_sector_size (text : string) : result Z :=
  let? size := ok_or (parse_u64 (trim text)) "disk sector-size probe returned an invalid size" in
  guard! negb (is_power_of_two size) || negb ((512 <=? size) && (size <=? 4096))
    else ("disk reports an unsupported sector size: " +:+ show_int size);
  Ok size.

Definition disk_sector_size (phase : Phase) : X Z :=
  answer (λ l, exec_err phase
    (let? text := probe_text (H := xo_runner l) "/usr/sbin/blockdev" ["--getss"; disk]
                    (λ e, "could not probe disk sector size: " +:+ e) "disk sector-size probe failed"
                    "disk sector-size probe was not UTF-8" in
     parse_sector_size text)).

Definition target_disk_identity : DiskIdentity :=
  {| id_serial := pl_target_disk_serial (ex_plan self); id_model := pl_target_disk_model (ex_plan self);
     id_size_bytes := pl_target_disk_size_bytes (ex_plan self) |}.

Definition validate_target_disk (phase : Phase) : X unit :=
  do! _ <- answer (λ l, exec_err phase (validate_target_disk_with_identity (xo_guard l) disk target_disk_identity));
  emit (Passed GuardPassed).

(** * The durable journal *)

Definition staging_root : string :=
  if String.eqb mode "wipe" then WIPE_STAGING_MOUNTPOINT else FILESYSTEM_STAGING_MOUNTPOINT.

Definition open_durable_journal (phase : Phase) : X unit :=
  do! esp_mount <- attempt
    (do! sector_size <- disk_sector_size phase;
     do! snapshot <- disk_snapshot phase;
     do! efi <- m_lift (efi_partition_from_snapshot snapshot disk sector_size);
     m_ret (efi ≫= efi_mounted_at));
  let esp_mount := match esp_mount with Ok m => m | Err _ => None end in
  do! path <- answer (λ l, exec_err phase (xo_open l esp_mount staging_root));
  do! _ <- emit (Opened path);
  modify (set_journal (Some path)).

Definition NO_JOURNAL : string := "durable journal was not opened before the storage phase".

Definition record_journal (phase : Phase) (op : string) (state : OpState) : X unit :=
  do! journal <- asks xs_journal;
  match journal with
  | None => fail_with phase NO_JOURNAL
  | Some path =>
      do! _ <- answer (λ l, exec_err phase (xo_record l path op state));
      emit (Journalled path op state)
  end.

Definition journal_completed (phase : Phase) (op : string) : X bool :=
  do! journal <- asks xs_journal;
  match journal with
  | None => m_ret false
  | Some path => do! j <- answer (λ l, exec_err phase (xo_load l path)); m_ret (completed j op)
  end.

Definition ESP_SCRATCH_MOUNTPOINT : string := "/run/kyth-installer/esp-journal".

Definition find_esp (phase : Phase) (missing : string) : X EfiPartition :=
  do! sector_size <- disk_sector_size phase;
  do! snapshot <- disk_snapshot phase;
  do! efi <- m_lift (exec_err phase (efi_partition_from_snapshot snapshot disk sector_size));
  m_lift (exec_err phase (ok_or efi missing)).

Definition ensure_esp_journal (phase : Phase) : X unit :=
  do! efi <- find_esp phase "no EFI system partition found; cannot place the durable install journal";
  do! mountpoint <-
    match efi_mounted_at efi with
    | Some mounted_at => m_ret mounted_at
    | None =>
        do! _ <- execute_disk_helper phase (EnsureDirectory ESP_SCRATCH_MOUNTPOINT);
        do! _ <- execute_disk_helper phase (MountFilesystem (efi_name efi) ESP_SCRATCH_MOUNTPOINT [] false);
        do! _ <- register_mount ESP_SCRATCH_MOUNTPOINT;
        m_ret ESP_SCRATCH_MOUNTPOINT
    end;
  let dest := join_path mountpoint JOURNAL_FILE_NAME in
  do! journal <- asks xs_journal;
  match journal with
  | None => fail_with phase NO_JOURNAL
  | Some path =>
      if same_path path dest then m_ret tt
      else
        do! _ <- answer (λ l, exec_err phase (xo_relocate l path dest));
        do! _ <- emit (Relocated path dest);
        modify (set_journal (Some dest))
  end.

(** * Preflight *)

Definition wants_tpm : bool := String.eqb (mode_of_encryption (ex_bootc self)) "tpm2".

Definition check_tpm_preflight (phase : Phase) : X unit :=
  if negb wants_tpm then m_ret tt
  else if negb (xo_exists "/dev/tpm0") then
    fail_with phase "TPM2 encryption was requested but no TPM was detected: /dev/tpm0 is missing. Refusing to install: without a TPM the encrypted disk could never be unlocked."
  else
    do! ok <- asks (λ s, existsb (xo_pcrread (xs_log s)) ["/usr/bin/tpm2_pcrread"; "/usr/sbin/tpm2_pcrread"]);
    if ok then m_ret tt
    else fail_with phase "TPM2 encryption was requested and /dev/tpm0 exists, but tpm2_pcrread failed: the TPM is not functional (broken passthrough or uninitialized firmware TPM). Refusing to install: without a working TPM the encrypted disk could never be unlocked.".

Definition check_storage_preflight (phase : Phase) : X unit :=
  do! _ <- check_tpm_preflight phase;
  do! sector_size <- disk_sector_size phase;
  do! snapshot <- disk_snapshot phase;
  do! preflight <- m_lift (exec_err phase (storage_preflight_from_snapshot snapshot disk sector_size));
  require! exec_err phase (validate_storage_preflight preflight mode);
  emit (Passed PreflightPassed).

(** * Guarded changes of the partition table *)

Definition with_disk_lock {A} (phase : Phase) (bootc : bool) (k : X A) : X A :=
  do! _ <- answer (λ l, exec_err phase (xo_lock l bootc)); k.

Definition guarded_table_mutation {A} (phase : Phase) (body : X A) : X A :=
  with_disk_lock phase false
    (do! _ <- validate_target_disk phase;
     do! directory <- answer (λ l, exec_err phase
       (map_err (λ e, "could not create partition backup directory: " +:+ e) (xo_tempdir l)));
     let backup_path := join_path directory "partition-table.backup" in
     do! _ <- disk_helper phase false (BackupTable disk backup_path);
     do! r <- attempt body;
     match r with
     | Ok value => m_ret value
     | Err operation_error =>
         do! restored <- attempt (disk_helper phase false (RestoreTable disk backup_path));
         match restored with
         | Ok _ => m_lift (Err operation_error)
         | Err restore_error =>
             do! _ <- emit (Kept directory);
             fail_with phase (operation_error +:+ "; partition-table restore also failed: " +:+ restore_error +:+
                              "; partition-table backup preserved at " +:+ directory)
         end
     end).

(** * The storage phase *)

Definition BIOS_BOOT_BYTES : Z := 1024 * 1024.
Definition MIN_TARGET_BYTES : Z := 32 * 1024 * 1024 * 1024.
Definition MIN_WINDOWS_BYTES : Z := 64 * 1024 * 1024 * 1024.

(** The BIOS boot partition of [create_target_partition]: the snapshot after it
    and the start of what is left. *)
Definition create_bios_boot (phase : Phase) (before : string) (start end_ sector_size : Z) : X (string * Z) :=
  if end_ - start <? BIOS_BOOT_BYTES + sector_size then
    fail_with phase "free-space target cannot fit a BIOS boot partition"
  else
    do! _ <- execute_disk_helper phase (CreateUnformattedPartition disk start BIOS_BOOT_BYTES "biosboot" sector_size);
    do! after <- disk_snapshot phase;
    do! bios <- m_lift (exec_err phase (new_partition_from_snapshots before after start BIOS_BOOT_BYTES sector_size));
    do! probe <- m_lift (exec_err phase (partition_probe_from_snapshot after disk bios sector_size));
    do! _ <- execute_disk_helper phase (SetPartitionFlag disk (pb_number probe) "bios_grub" true (pb_partuuid probe));
    m_ret (after, sat_add64 start BIOS_BOOT_BYTES).

Definition create_target_partition (phase : Phase) (start end_ sector_size : Z) : X string :=
  if end_ <=? start then fail_with phase "free-space target has invalid geometry"
  else
    do! before <- disk_snapshot phase;
    do! has_bios <- m_lift (exec_err phase (has_bios_boot_partition before sector_size));
    do! base <- (if has_bios then m_ret (before, start) else create_bios_boot phase before start end_ sector_size);
    let '(before, target_start) := base in
    do! target_size <- m_lift (exec_err phase (ok_or (checked_sub64 end_ target_start)
                                 "free-space target has invalid post-boot geometry"));
    if target_size <? MIN_TARGET_BYTES then fail_with phase "free-space target is smaller than the KythOS minimum"
    else
      do! _ <- execute_disk_helper phase (CreatePartition disk target_start target_size "btrfs" "KythOS" sector_size);
      do! after <- disk_snapshot phase;
      do! target <- m_lift (exec_err phase (new_partition_from_snapshots before after target_start target_size sector_size));
      do! _ <- m_lift (exec_err phase (partition_probe_from_snapshot after disk target sector_size));
      m_ret target.

(** [ntfs_shrink_resume_window] once the journal says the shrink completed. *)
Definition resume_window (snapshot : string) (probe : PartitionProbe) (sector_size : Z) : result (Z * Z) :=
  let resize_bytes := pl_resize_bytes (ex_plan self) in
  let pre_shrink := sat_add64 (pb_size_bytes probe) resize_bytes in
  guard! match pl_pre_shrink_bytes (ex_plan self) with
         | Some recorded => sector_size <? abs_diff recorded (pb_size_bytes probe)
         | None => false
         end
    else "NTFS partition size changed since the install started; refusing to resume or repeat the shrink";
  let? target_size := ok_or (checked_sub64 pre_shrink resize_bytes)
                        "NTFS shrink journal is inconsistent with the install plan" in
  guard! sat_add64 target_size sector_size <? pb_size_bytes probe
    else "NTFS shrink was recorded as complete but the partition is larger than the shrink target; refusing to shrink again";
  let? new_end := ok_or (checked_add64 (pb_start_bytes probe) (pb_size_bytes probe)) "NTFS partition geometry overflowed" in
  let? old_end := ok_or (checked_add64 (pb_start_bytes probe) pre_shrink) "NTFS target geometry overflowed" in
  guard! old_end <=? new_end else "NTFS shrink journal is inconsistent with the install plan";
  guard! old_end - new_end <? MIN_TARGET_BYTES
    else "space freed by the previous NTFS shrink is smaller than the KythOS minimum; refusing to continue";
  let? free := contains_free_region snapshot disk new_end old_end sector_size in
  guard! negb free else "space freed by the previous NTFS shrink is no longer free; refusing to shrink again";
  Ok (new_end, old_end).

Definition ntfs_shrink_resume_window (phase : Phase) (snapshot : string) (probe : PartitionProbe) (sector_size : Z)
    : X (option (Z * Z)) :=
  do! done <- journal_completed phase "ntfs_shrink";
  if done then do! w <- m_lift (exec_err phase (resume_window snapshot probe sector_size)); m_ret (Some w)
  else m_ret None.

(** The four stages of the filesystem resize. *)
Fixpoint ntfs_stages (phase : Phase) (partition : string) (new_size : Z) (stages : list string) : X unit :=
  match stages with
  | [] => m_ret tt
  | stage :: stages =>
      do! _ <- execute_stream_helper phase (HStream (FilesystemResize partition "ntfs" new_size stage))
                 (Some ("filesystem_resize", partition));
      ntfs_stages phase partition new_size stages
  end.
Definition NTFS_STAGES : list string := ["check"; "info"; "dry_run"; "resize"].

(** Moving the boundary after the shrink, with fresh probes around it. *)
Definition move_boundary (phase : Phase) (partition : string) (probe : PartitionProbe) (new_size sector_size : Z) : X unit :=
  do! fresh <- disk_snapshot phase;
  do! fresh_probe <- m_lift (exec_err phase (partition_probe_from_snapshot fresh disk partition sector_size));
  if negb (pb_start_bytes fresh_probe =? pb_start_bytes probe)
     || (sector_size <? abs_diff (pb_size_bytes fresh_probe) (pb_size_bytes probe)) then
    fail_with phase "NTFS partition changed during the filesystem shrink; refusing to move its boundary"
  else
    do! _ <- execute_disk_helper phase (ResizePartition disk (pb_number fresh_probe) (pb_start_bytes fresh_probe) new_size
                                          sector_size (pb_partuuid fresh_probe));
    do! after <- disk_snapshot phase;
    do! resized <- m_lift (exec_err phase (partition_probe_from_snapshot after disk partition sector_size));
    if sector_size <? abs_diff (pb_size_bytes resized) new_size then
      fail_with phase "NTFS partition boundary did not match the requested size"
    else m_ret tt.

Definition shrink_ntfs (phase : Phase) (partition : string) (probe : PartitionProbe) (sector_size : Z) : X string :=
  do! _ <- ensure_esp_journal phase;
  do! new_size <- m_lift (exec_err phase (ok_or (checked_sub64 (pb_size_bytes probe) (pl_resize_bytes (ex_plan self)))
                            "NTFS shrink exceeds the selected partition size"));
  if (new_size <? MIN_WINDOWS_BYTES) || negb (new_size mod sector_size =? 0) then
    fail_with phase "NTFS shrink would leave an unsafe or unaligned Windows partition"
  else
    do! _ <- record_journal phase "ntfs_shrink" Started;
    do! _ <- ntfs_stages phase partition new_size NTFS_STAGES;
    do! _ <- move_boundary phase partition probe new_size sector_size;
    do! _ <- record_journal phase "ntfs_shrink" Completed;
    do! old_end <- m_lift (exec_err phase (ok_or (checked_add64 (pb_start_bytes probe) (pb_size_bytes probe))
                             "NTFS partition geometry overflowed"));
    do! new_end <- m_lift (exec_err phase (ok_or (checked_add64 (pb_start_bytes probe) new_size)
                             "NTFS target geometry overflowed"));
    create_target_partition phase new_end old_end sector_size.

Definition resize_ntfs_target (phase : Phase) : X string :=
  if negb xo_ac_online then
    fail_with phase "Connect AC power before shrinking Windows. Power loss during a filesystem or partition resize can leave the disk unbootable."
  else
    do! partition <- m_lift (exec_err phase (ok_or (pl_resize_partition (ex_plan self)) "NTFS resize has no selected partition"));
    do! sector_size <- disk_sector_size phase;
    do! before <- disk_snapshot phase;
    do! probe <- m_lift (exec_err phase (partition_probe_from_snapshot before disk partition sector_size));
    if negb (str_in (pb_fstype probe) ["ntfs"; "ntfs3"]) then
      fail_with phase "Only NTFS partitions can be resized by this installer path"
    else if pb_efi probe || pb_current probe || pb_in_use probe || pb_read_only probe then
      fail_with phase "The selected NTFS partition is mounted, read-only, or reserved"
    else
      do! window <- ntfs_shrink_resume_window phase before probe sector_size;
      match window with
      | Some (new_end, old_end) => create_target_partition phase new_end old_end sector_size
      | None => shrink_ntfs phase partition probe sector_size
      end.

(** The request that mounts the target ESP. *)
Definition efi_mount_operation (efi : EfiPartition) (mountpoint : string) : DiskOperationInput :=
  match efi_mounted_at efi with
  | Some source => MountFilesystem source mountpoint [] true
  | None => MountFilesystem (efi_name efi) mountpoint [] false
  end.

Definition mount_efi (phase : Phase) : X unit :=
  do! snapshot <- disk_snapshot phase;
  do! sector_size <- disk_sector_size phase;
  do! efi <- m_lift (exec_err phase (efi_partition_from_snapshot snapshot disk sector_size));
  do! efi <- m_lift (exec_err phase (ok_or efi "ESP vanished between preflight and mount"));
  let mountpoint := FILESYSTEM_STAGING_MOUNTPOINT +:+ "/boot/efi" in
  do! _ <- execute_disk_helper phase (EnsureDirectory mountpoint);
  do! _ <- execute_disk_helper phase (efi_mount_operation efi mountpoint);
  register_mount mountpoint.

Definition role : string := if String.eqb mode "manual" then "root partition" else "target partition".

(** The replace gate on the plan's partition, against a fresh snapshot. *)
Definition gate_target (phase : Phase) (snapshot : string) (sector_size : Z) (requested : string) : X string :=
  do! probe <- m_lift (exec_err phase (validate_replace_target snapshot disk requested role sector_size));
  do! _ <- emit (Passed (TargetPassed (pb_name probe)));
  m_ret (pb_name probe).

Definition planned_target (phase : Phase) : X string :=
  m_lift (exec_err phase (ok_or (pl_target_partition (ex_plan self)) "filesystem install has no target partition")).

(** The two subvolumes, on the staging mount that is released whatever happens. *)
Definition create_subvolumes (phase : Phase) : X unit :=
  do! _ <- execute_disk_helper phase (BtrfsSubvolumeCreate BTRFS_STAGING_MOUNTPOINT "@");
  do! _ <- execute_disk_helper phase (BtrfsSubvolumeCreate BTRFS_STAGING_MOUNTPOINT "@home");
  execute_disk_helper phase (BtrfsSubvolumeSetDefault BTRFS_STAGING_MOUNTPOINT "@").

Definition prepare_btrfs_target (phase : Phase) (_target : string) : X unit :=
  with_disk_lock phase false
    (do! _ <- validate_target_disk phase;
     do! requested <- planned_target phase;
     do! snapshot <- disk_snapshot phase;
     do! sector_size <- disk_sector_size phase;
     do! target <- gate_target phase snapshot sector_size requested;
     do! _ <- record_journal phase "format" Started;
     do! _ <- execute_disk_helper phase (FormatFilesystem target "btrfs" "KythOS" disk);
     do! _ <- record_journal phase "format" Completed;
     do! _ <- execute_disk_helper phase (EnsureDirectory BTRFS_STAGING_MOUNTPOINT);
     do! _ <- execute_disk_helper phase (MountFilesystem target BTRFS_STAGING_MOUNTPOINT [] false);
     do! _ <- register_mount BTRFS_STAGING_MOUNTPOINT;
     do! temporary_setup <- attempt (create_subvolumes phase);
     do! cleanup_result <- attempt (disk_helper phase false (UnmountFilesystem BTRFS_STAGING_MOUNTPOINT true true));
     do! _ <- release_mount BTRFS_STAGING_MOUNTPOINT;
     do! _ <- m_lift temporary_setup;
     do! _ <- m_lift cleanup_result;
     do! _ <- execute_disk_helper phase (EnsureDirectory FILESYSTEM_STAGING_MOUNTPOINT);
     do! _ <- execute_disk_helper phase (MountFilesystem target FILESYSTEM_STAGING_MOUNTPOINT ["subvol=@"] false);
     do! _ <- register_mount FILESYSTEM_STAGING_MOUNTPOINT;
     do! _ <- mount_efi phase;
     ensure_esp_journal phase).

(** Replacing an existing partition: the gates before [prepare_btrfs_target]. *)
Definition replace_target (phase : Phase) : X string :=
  do! requested <- planned_target phase;
  do! sector_size <- disk_sector_size phase;
  do! snapshot <- disk_snapshot phase;
  do! _ <- (if String.eqb mode "alongside"
            then m_lift (exec_err phase (validate_alongside_bios_boot snapshot disk (xo_exists "/sys/firmware/efi") sector_size))
            else m_ret tt);
  gate_target phase snapshot sector_size requested.

(** Journal markers around a guarded change of the table. *)
Definition table_change (phase : Phase) (body : X string) : X string :=
  do! _ <- record_journal phase "partition_table" Started;
  do! target <- guarded_table_mutation phase body;
  do! _ <- record_journal phase "partition_table" Completed;
  m_ret target.

Definition use_free_region (phase : Phase) : X string :=
  do! start <- m_lift (exec_err phase (ok_or (pl_free_region_start (ex_plan self)) "free-space install has no selected region"));
  do! end_ <- m_lift (exec_err phase (ok_or (pl_free_region_end (ex_plan self)) "free-space install has no selected region end"));
  do! snapshot <- disk_snapshot phase;
  do! sector_size <- disk_sector_size phase;
  do! free <- m_lift (exec_err phase (contains_free_region snapshot disk start end_ sector_size));
  if negb free then fail_with phase "selected free space is no longer available"
  else table_change phase (create_target_partition phase start end_ sector_size).

Definition execute_storage (phase : Phase) : X unit :=
  do! _ <- (if String.eqb mode "wipe" then m_ret tt
            else do! _ <- validate_target_disk phase; check_storage_preflight phase);
  do! _ <- open_durable_journal phase;
  if String.eqb mode "wipe" then m_ret tt
  else
    do! target <-
      (if String.eqb mode "alongside" || String.eqb mode "manual" then replace_target phase
       else if String.eqb mode "free_space" then use_free_region phase
       else if String.eqb mode "resize_ntfs" then table_change phase (resize_ntfs_target phase)
       else m_lift (Err (display (InvalidPlan phase StorageMutation))));
    do! _ <- prepare_btrfs_target phase target;
    modify (set_storage_target (Some target)).

(** * The image phase *)

Definition is_sha256_digest (value : string) : bool :=
  (slen value =? 71) && starts_with "sha256:" value && str_all is_ascii_hexdigit (sdrop 7 value).

(** What follows the last [@]. *)
Definition digest_of (source : string) : option string :=
  match rev (split_char "@" source) with
  | digest :: _ :: _ => Some digest
  | _ => None
  end.

(** [sha256sum]: the first word of its output. *)
Definition sha256_file_hex (l : list Event) (path : string) : result string :=
  let? text := probe_text (H := xo_runner l) "/usr/bin/sha256sum" [path] (λ e, "could not hash " +:+ path +:+ ": " +:+ e)
                 ("could not hash " +:+ path) "sha256sum returned non-UTF-8 output" in
  match split_whitespace text with
  | hex :: _ => if (slen hex =? 64) && str_all is_ascii_hexdigit hex then Ok hex else Err "sha256sum returned no digest"
  | [] => Err "sha256sum returned no digest"
  end.

Definition read_json_file (l : list Event) (path : string) : result json :=
  let? raw := xo_read l path in
  map_err (λ e, path +:+ " is not valid JSON: " +:+ e) (json_decode raw).

(** [verify_docker_source], its refusals without the common prefix. *)
Definition docker_source_verdict (l : list Event) (source : string) : result unit :=
  let? digest := ok_or (digest_of source) "docker:// image source must be digest-pinned with @sha256:<digest>" in
  guard! negb (is_sha256_digest digest)
    else "docker:// image source must be digest-pinned with @sha256:<64 hex digits>";
  guard! negb (String.eqb (trim (unwrap_or (xo_env "KYTH_SOURCE_DIGEST") EmptyString)) digest)
    else "docker:// image digest does not match the KYTH_SOURCE_DIGEST pinned by this ISO";
  let metadata_path := unwrap_or (xo_env "KYTH_SOURCE_METADATA") "/usr/share/kyth/image-source.json" in
  let? metadata := map_err (λ e, "could not read image source metadata: " +:+ e) (read_json_file l metadata_path) in
  guard! negb (bool_decide (field as_u64 "schema_version" metadata = Some 1))
    else "image source metadata has an unsupported schema";
  guard! negb (bool_decide (field as_str "release_digest" metadata = Some digest))
    else "docker:// image digest does not match the release digest pinned by this ISO";
  let bundle_path := unwrap_or (xo_env "KYTH_SOURCE_SIGNATURE") "/usr/share/kyth/image.sig.bundle.json" in
  let? bundle_raw := map_err (λ e, "could not read image signature bundle: " +:+ e) (xo_read l bundle_path) in
  let? bundle := map_err (λ e, "image signature bundle is invalid: " +:+ e) (json_decode bundle_raw) in
  guard! negb (bool_decide (field as_str "digest" bundle = Some digest))
    else "image signature bundle does not cover the pinned digest";
  let? bundle_sha := map_err (λ e, "could not hash image signature bundle: " +:+ e) (sha256_file_hex l bundle_path) in
  guard! negb (bool_decide (field as_str "signature_digest" metadata = Some ("sha256:" +:+ bundle_sha)))
    else "image signature bundle does not match the digest pinned by this ISO release";
  Ok tt.

Definition EXPLICIT_TRANSPORTS : list string := ["docker://"; "containers-storage:"; "oci:"; "ostree:"].

Definition source_verdict (l : list Event) : result unit :=
  let source := trim (ex_source_imgref self) in
  if starts_with "oci:" source then
    let status := xo_source_status (ex_source_imgref self) (ex_target_imgref self) in
    guard! negb (unwrap_or (field as_bool "verified" status) false)
      else unwrap_or (field as_str "message" status) "embedded image verification failed";
    Ok tt
  else
    let explicit_transport := existsb (λ p, starts_with p source) EXPLICIT_TRANSPORTS in
    if starts_with "docker://" source || negb explicit_transport then docker_source_verdict l source
    else Ok tt.

Definition verify_install_source (phase : Phase) : X unit :=
  do! _ <- answer (λ l, exec_err phase (map_err (λ d, "refusing bootc install: " +:+ d) (source_verdict l)));
  emit (Passed SourceVerified).

(** ** Resources *)

Definition ESTIMATED_IMAGE_BYTES : Z := 10 * 1024 * 1024 * 1024.
Definition MIN_MEM_AVAILABLE_BYTES : Z := 2 * 1024 * 1024 * 1024.

(** Splitting [path:tag] at the last colon after the last slash. *)
Definition split_tag (rest : string) : string * string :=
  match rev (split_char "/" rest) with
  | last :: front =>
      match rev (split_char ":" last) with
      | tag :: ((_ :: _) as base) => (join "/" (rev front ++ [join ":" (rev base)]), tag)
      | _ => (rest, "latest")
      end
  | [] => (rest, "latest")
  end.

Definition read_meta (l : list Event) (path : string) : option json :=
  match xo_read l path with
  | Ok raw => match json_decode raw with Ok v => Some v | Err _ => None end
  | Err _ => None
  end.

Definition has_ref_name (tag : string) (item : json) : bool :=
  bool_decide (field (field as_str "org.opencontainers.image.ref.name") "annotations" item = Some tag).

Definition image_descriptor (tag : string) (manifests : list json) : option json :=
  match find_first (has_ref_name tag) manifests with
  | Some d => Some d
  | None => match manifests with [d] => Some d | _ => None end
  end.

(** The sizes of the layers; one without a size gives up. *)
Fixpoint layer_total (total : Z) (layers : list json) : option Z :=
  match layers with
  | [] => Some total
  | layer :: layers => match field as_u64 "size" layer with Some n => layer_total (sat_add64 total n) layers | None => None end
  end.

Definition oci_layout_bytes (l : list Event) (reference : string) : option Z :=
  match strip_prefix "oci:" reference with
  | None => None
  | Some rest =>
      let '(root, tag) := split_tag rest in
      if is_empty root || is_empty tag || negb (is_absolute root) || has_parent_dir root then None
      else
        index ← read_meta l (join_path root "index.json");
        manifests ← field as_array "manifests" index;
        descriptor ← image_descriptor tag manifests;
        digest ← field as_str "digest" descriptor;
        hex ← strip_prefix "sha256:" digest;
        if negb ((slen hex =? 64) && str_all is_ascii_hexdigit hex) then None
        else
          manifest ← read_meta l (join_path (join_path (join_path root "blobs") "sha256") hex);
          layers ← field as_array "layers" manifest;
          total ← layer_total 0 layers;
          let total := match field (field as_u64 "size") "config" manifest with Some n => sat_add64 total n | None => total end in
          if total =? 0 then None else Some total
  end.

Definition estimate_image_bytes (l : list Event) : Z :=
  let source := trim (ex_source_imgref self) in
  let measured := if starts_with "oci:" source then unwrap_or (oci_layout_bytes l source) ESTIMATED_IMAGE_BYTES
                  else ESTIMATED_IMAGE_BYTES in
  match xo_env "KYTH_IMAGE_BYTES" ≫= (λ v, parse_u64 (trim v)) with
  | Some bytes => if 0 <? bytes then bytes else measured
  | None => measured
  end.

(** A size in an lsblk document, a number or its text. *)
Definition size_value (v : json) : option Z :=
  match as_u64 v with Some n => Some n | None => as_str v ≫= (λ s, parse_u64 (trim s)) end.

Definition probe_disk_size_bytes (l : list Event) : option Z :=
  match @RustOs.run_command (xo_runner l) "/usr/bin/lsblk" ["--json"; "--bytes"; "--nodeps"; "--output"; "SIZE"; disk] with
  | Err _ => None
  | Ok output =>
      if negb (success output) then None
      else match json_decode (co_stdout output) with
           | Err _ => None
           | Ok snapshot =>
               device ← (field as_array "blockdevices" snapshot ≫= head);
               size ← field size_value "size" device;
               if 0 <? size then Some size else None
           end
  end.

(** [MemAvailable] of /proc/meminfo. *)
Fixpoint mem_available (ls : list string) : option Z :=
  match ls with
  | [] => None
  | line :: ls =>
      match strip_prefix "MemAvailable:" line with
      | Some rest =>
          match split_whitespace rest with
          | word :: _ => (λ kilobytes, sat_mul64 kilobytes 1024) <$> parse_u64 word
          | [] => None
          end
      | None => mem_available ls
      end
  end.
Definition mem_available_bytes : option Z := xo_meminfo ≫= (λ content, mem_available (lines content)).
Definition statvfs_available_bytes : option Z := (λ p, sat_mul64 (fst p) (snd p)) <$> xo_statvfs.

Definition image_resources (l : list Event) : result unit :=
  let image_bytes := estimate_image_bytes l in
  check!
    (if String.eqb mode "wipe" then
       let? disk_bytes := ok_or (probe_disk_size_bytes l) "could not determine target disk size before the image phase" in
       guard! disk_bytes <? image_bytes
         else ("target disk is too small for the install image: disk holds " +:+ show_int disk_bytes +:+
               " bytes, image needs ~" +:+ show_int image_bytes +:+ " bytes");
       Ok tt
     else
       let? available := ok_or statvfs_available_bytes "could not determine free space on the install target" in
       guard! available <? image_bytes
         else ("not enough free space for the install image: " +:+ show_int available +:+ " bytes available, ~" +:+
               show_int image_bytes +:+ " bytes needed");
       Ok tt);
  let? mem := ok_or mem_available_bytes "could not read available memory before the image phase" in
  guard! mem <? MIN_MEM_AVAILABLE_BYTES
    else ("not enough available memory to safely write the install image: " +:+ show_int mem +:+ " bytes available, " +:+
          show_int MIN_MEM_AVAILABLE_BYTES +:+ " bytes required");
  Ok tt.

Definition check_image_resources (phase : Phase) : X unit :=
  do! _ <- answer (λ l, exec_err phase (image_resources l));
  emit (Passed ResourcesPassed).

(** ** Boot entries *)

Definition upper_byte (c : ascii) : ascii :=
  if is_ascii_lowercase c then ascii_of_N (N_of_ascii c - 32) else c.
Fixpoint to_ascii_uppercase (s : string) : string :=
  match s with EmptyString => EmptyString | String c s => String (upper_byte c) (to_ascii_uppercase s) end.

(** [rest.split_at(4)]; efibootmgr prints ASCII there. *)
Definition boot_entry (line : string) : option (string * string) :=
  rest ← strip_prefix "Boot" (trim line);
  if slen rest <? 4 then None
  else
    let number := stake 4 rest in
    if negb (str_all is_ascii_hexdigit number) then None
    else Some (to_ascii_uppercase number, trim (strip_all ["*"; " "; bytes [9]%N] (String.length rest) (sdrop 4 rest))).
Definition parse_boot_entries (text : string) : list (string * string) := omap boot_entry (lines text).

(** The first program that can be started and succeeds. *)
Fixpoint boot_entries_from (l : list Event) (programs : list string) : option (list (string * string)) :=
  match programs with
  | [] => None
  | program :: programs =>
      match @RustOs.run_command (xo_runner l) program ["-v"] with
      | Err _ => None
      | Ok output =>
          if negb (success output) then boot_entries_from l programs
          else if co_utf8 output then Some (parse_boot_entries (co_stdout output)) else None
      end
  end.
Definition snapshot_boot_entries (l : list Event) : option (list (string * string)) :=
  boot_entries_from l ["/usr/sbin/efibootmgr"; "/usr/bin/efibootmgr"].

Definition lost_entries (before after : list (string * string)) : list string :=
  map (λ e, if is_empty (snd e) then "Boot" +:+ fst e else "Boot" +:+ fst e +:+ " (" +:+ snd e +:+ ")")
    (filterb (λ e, negb (str_in (fst e) after.*1)) before).

Definition warn_if_boot_entries_lost (phase : Phase) (before : option (list (string * string))) : X unit :=
  match before with
  | None | Some [] => m_ret tt
  | Some before =>
      do! after <- asks (λ s, snapshot_boot_entries (xs_log s));
      match after with
      | None => m_ret tt
      | Some after =>
          match lost_entries before after with
          | [] => m_ret tt
          | lost =>
              append_check_for_phase phase
                (jobject [("name", JString "boot_entries"); ("status", JString "warning");
                          ("detail", JString ("EFI boot entries disappeared during the image write: " +:+ join ", " lost +:+
                             ". The installed system should still boot, but previously installed operating systems may no longer appear in the firmware boot menu."))])
          end
      end
  end.

(** ** The installed root *)

Fixpoint has_crypt (fuel : nat) (device : json) : bool :=
  match fuel with
  | O => false
  | S fuel => bool_decide (field as_str "type" device = Some "crypt") || existsb (has_crypt fuel) (members "children" device)
  end.

Definition luks_mapper_open (phase : Phase) : X bool :=
  answer (λ l, exec_err phase
    (let? output := map_err (λ e, "could not probe LUKS mapper state: " +:+ e)
       (@RustOs.run_command (xo_runner l) "/usr/bin/lsblk" ["--json"; "--bytes"; "--paths"; "--output"; "NAME,TYPE"; disk]) in
     guard! negb (success output) else "LUKS mapper state probe failed";
     let? snapshot := map_err (λ _, "LUKS mapper state probe was not valid JSON") (json_decode (co_stdout output)) in
     Ok (existsb (has_crypt (json_size snapshot)) (members "blockdevices" snapshot)))).

Definition mount_wipe_root (phase : Phase) : X unit :=
  do! open <- (if wants_tpm then luks_mapper_open phase else m_ret true);
  if negb open then fail_with phase "LUKS device closed after image write; cannot continue configure phase"
  else
    do! snapshot <- answer (λ l, exec_err phase
      (probe_text (H := xo_runner l) "/usr/bin/lsblk" ["--json"; "--bytes"; "--paths"; "--output"; "NAME,TYPE,FSTYPE,PKNAME"; disk]
         (λ e, "could not probe installed root partition: " +:+ e) "installed root partition probe failed"
         "installed root partition probe was not UTF-8"));
    do! root <- m_lift (exec_err phase (root_partition_from_snapshot snapshot disk));
    do! _ <- execute_disk_helper phase (EnsureDirectory WIPE_STAGING_MOUNTPOINT);
    do! _ <- execute_disk_helper phase (MountFilesystem root WIPE_STAGING_MOUNTPOINT [] false);
    register_mount WIPE_STAGING_MOUNTPOINT.

Definition execute_image (phase : Phase) : X unit :=
  with_disk_lock phase true
    (do! _ <- check_image_resources phase;
     do! _ <- verify_install_source phase;
     do! _ <- check_storage_preflight phase;
     do! _ <- (if String.eqb mode "wipe" then validate_target_disk phase else m_ret tt);
     do! _ <- record_journal phase "image_write" Started;
     do! before <- asks (λ s, snapshot_boot_entries (xs_log s));
     do! status <- execute_stream_helper phase (HBootc (ex_bootc self)) None;
     if status : bool then
       do! _ <- warn_if_boot_entries_lost phase before;
       do! _ <- record_journal phase "image_write" Completed;
       if String.eqb mode "wipe" then do! _ <- ensure_esp_journal phase; mount_wipe_root phase else m_ret tt
     else fail_with phase "bootc exited with status false").

(** * The configuration phase *)

Definition lays_out_home_subvolume (mode : string) : bool := str_in mode ["alongside"; "free_space"; "resize_ntfs"].

Definition configure_raw (step : ConfigStep) : X unit :=
  do! _ <- answer (λ l, xo_configure l step);
  emit (Configured step).
Definition configure_step (phase : Phase) (step : ConfigStep) : X unit := in_phase phase (configure_raw step).

Definition with_fstab (mounts : ManualMountsInput) (fstab : string) : ManualMountsInput :=
  {| mi_config_root := mi_config_root mounts; mi_fstab_path := fstab; mi_disk := mi_disk mounts; mi_mounts := mi_mounts mounts |}.

Definition wipe_esp_line (uuid : string) : string :=
  "UUID=" +:+ uuid +:+ " /boot/efi vfat umask=0077,shortname=winnt 0 2" +:+ newline.

(** The mounts of the installed system, by mode. *)
Definition configure_mounts (phase : Phase) (fstab : string) : X unit :=
  if String.eqb mode "wipe" then
    do! snapshot <- disk_snapshot phase;
    do! sector_size <- disk_sector_size phase;
    do! efi <- m_lift (exec_err phase (efi_partition_from_snapshot snapshot disk sector_size));
    do! efi <- m_lift (exec_err phase (ok_or efi "wipe install has no EFI system partition for fstab"));
    do! uuid <- answer (λ l, exec_err phase (lookup_uuid (H := xo_children l) (efi_name efi)));
    configure_step phase (AppendFstab fstab (wipe_esp_line uuid))
  else if lays_out_home_subvolume mode then
    do! target <- asks xs_storage_target;
    do! device <- m_lift (exec_err phase (ok_or (match target with Some t => Some t | None => pl_target_partition (ex_plan self) end)
                            "filesystem install has no configured target partition"));
    execute_fixed_helper phase "alongside-home"
      (jobject [("config_root", JString (cp_target_root (ep_configuration (ex_execution self))));
                ("target_device", JString device); ("fstab_path", JString fstab)])
  else if String.eqb mode "manual" then
    match ex_manual_mounts self with
    | Some mounts => with_disk_lock phase false (fixed_helper phase "manual-mounts" (HManual (with_fstab mounts fstab)))
    | None => m_ret tt
    end
  else m_ret tt.

Definition account_document (account : CreateUserInput) (deploy_root : string) : json :=
  jobject [("deploy_root", JString deploy_root); ("target_root", JString (cu_target_root account));
           ("username", JString (cu_username account)); ("password_hash", JString (cu_password_hash account))].

Fixpoint append_checks (phase : Phase) (checks : list json) : X unit :=
  match checks with
  | [] => m_ret tt
  | check :: checks => do! _ <- append_check_for_phase phase check; append_checks phase checks
  end.

(** What the assurance is asked to find, read back from the planned writes. *)
Definition written (suffix : string) : option string :=
  cw_content <$> find_first (λ w, ends_with suffix (cw_path w)) (cp_writes (ep_configuration (ex_execution self))).

Definition assurance_input (deploy_root : string) : AssuranceInput :=
  {| as_target_root := cp_target_root (ep_configuration (ex_execution self));
     as_deploy_root := deploy_root;
     as_hostname := unwrap_or (trim <$> written "/hostname") EmptyString;
     as_locale := unwrap_or (trim <$> (written "/locale.conf" ≫= strip_prefix "LANG=")) EmptyString;
     as_keymap := unwrap_or (trim <$> (written "/vconsole.conf" ≫= strip_prefix "KEYMAP=")) EmptyString;
     as_timezone := unwrap_or (strip_prefix "/usr/share/zoneinfo/" (cp_localtime_target (ep_configuration (ex_execution self)))) EmptyString;
     as_username := unwrap_or (cu_username <$> ex_account self) EmptyString;
     as_encryption := bi_encryption (ex_bootc self);
     as_target_disk := disk |}.

Definition configure_body (phase : Phase) (deploy_root fstab : string) : X unit :=
  do! _ <- configure_mounts phase fstab;
  do! deployed <- m_lift (exec_err phase (for_deployment (ep_configuration (ex_execution self)) deploy_root));
  do! _ <- configure_step phase (ApplyPlan deployed);
  do! _ <- match ex_account self with
           | Some account => execute_fixed_helper phase "create-user" (account_document account deploy_root)
           | None => m_ret tt
           end;
  do! checks <- answer (λ l, exec_err phase (xo_assurance l (assurance_input deploy_root)));
  append_checks phase checks.

Definition execute_configuration (phase : Phase) : X unit :=
  do! deploy_root <- answer (λ l, exec_err phase (xo_deploy_root l (cp_target_root (ep_configuration (ex_execution self)))));
  let fstab := deploy_root +:+ "/etc/fstab" in
  do! _ <- configure_step phase (SnapshotFstab fstab);
  do! _ <- record_journal phase "configure" Started;
  do! r <- attempt (configure_body phase deploy_root fstab);
  match r with
  | Err error =>
      do! rollback <- attempt (configure_raw (RestoreFstab fstab));
      match rollback with
      | Err rollback_error => fail_with phase (error +:+ "; fstab rollback failed: " +:+ rollback_error)
      | Ok _ => m_lift (Err error)
      end
  | Ok _ =>
      do! _ <- (match pl_flatpaks (ex_plan self) with
                | [] => m_ret (Ok tt)
                | flatpaks => attempt (configure_step phase (StageFlatpaks deploy_root flatpaks))
                end);
      record_journal phase "configure" Completed
  end.

(** * The remaining phases *)

Definition execute_secure_boot (phase : Phase) : X unit :=
  do! plan <- answer (λ l, exec_err phase (stage_with_cancellation (xo_mok l) (xo_cancelled l)
                {| ss_kernel := ex_kernel self; ss_force_stage := ex_force_stage self; ss_password := ex_password self |}));
  do! _ <- modify (set_secure_boot (Some (sbp_state plan)));
  if String.eqb (sbp_state plan) "failed" then fail_with phase (sbp_message plan) else m_ret tt.

Definition execute_complete (phase : Phase) : X unit :=
  in_phase phase
    (do! _ <- cleanup_mounts phase;
     write_transaction "complete" phase "done" "Native installer completed successfully").

Definition check_document (name status detail : string) : json :=
  jobject [("name", JString name); ("status", JString status); ("detail", JString detail)].

Definition execute_prepare (phase : Phase) : X unit :=
  let power := power_check_at xo_power in
  do! _ <- append_check (check_document "power" (pc_status power) (pc_detail power));
  if String.eqb (pc_status power) "fail" then fail_with phase (pc_detail power)
  else append_check (check_document "native_plan" "pass" "Typed Rust installer plan validated").

Definition start_status (phase : Phase) : option (string * string) :=
  match phase with
  | Prepare => Some ("started", "Installer started")
  | Configure => Some ("configure_started", "Configuring the installed system")
  | _ => None
  end.
Definition completion_status (phase : Phase) : option (string * string) :=
  match phase with
  | Prepare => Some ("prepared", "Install plan prepared")
  | Image => Some ("image_complete", "Operating system image written")
  | Configure => Some ("configure_complete", "Installed system configured")
  | SecureBoot => Some ("secure_boot_staged", "Secure Boot enrollment state classified")
  | Complete | Storage => None
  end.

Definition mark_status (phase : Phase) (status : option (string * string)) : X unit :=
  match status with
  | Some (status, message) => in_phase phase (write_transaction status phase "installing" message)
  | None => m_ret tt
  end.

Definition run_phase (phase : Phase) : X unit :=
  match phase with
  | Prepare => execute_prepare phase
  | Storage => execute_storage phase
  | Image => execute_image phase
  | Configure => execute_configuration phase
  | SecureBoot => execute_secure_boot phase
  | Complete => execute_complete phase
  end.

Definition execute_phase_typed (phase : Phase) : X unit :=
  do! cancelled <- asks (λ s, xo_cancelled (xs_log s));
  if cancelled : bool then m_lift (Err (display (Cancelled phase)))
  else
    do! _ <- mark_status phase (start_status phase);
    do! _ <- run_phase phase;
    mark_status phase (completion_status phase).

Definition record_job_started (job_id : Z) : X unit :=
  modify (λ s, set_transaction (with_job_id job_id (xs_transaction s)) s).

(** [record_cancelled] and [record_failed] *)
Definition write_terminal_transaction (phase : Phase) (message : string) : X unit :=
  do! _ <- attempt (write_transaction "failed" phase "failed" message); m_ret tt.
Definition record_failed (phase : Phase) (message : string) : X unit :=
  do! _ <- attempt (cleanup_mounts phase);
  do! _ <- write_terminal_transaction phase message;
  persist_failure_summary message.
Definition record_cancelled (phase : option Phase) : X unit := record_failed (unwrap_or phase Prepare) CANCELLATION_MESSAGE.
Definition success_mok_state (s : XState) : option string := xs_secure_boot s.
End executor.

(** * Building the executor *)

(** What [from_request] asks of its surroundings. *)
Class BuildOs := {
  bo_runner : Runner;
  bo_env : string → option string;
  bo_resolve : string → option (list string);             (* the addresses of a host *)
  bo_connect : string → bool;                             (* a TCP connection within ten seconds *)
  bo_source_status : string → string → json;
  bo_transaction_id : string;
}.

(** [argv.windows(2).find(..)] *)
Fixpoint argument_after (key : string) (argv : list string) : option string :=
  match argv with
  | flag :: ((value :: _) as rest) => if String.eqb flag key then Some value else argument_after key rest
  | _ => None
  end.
Definition planned_source_imgref (plan : BootcInstallPlan) : result string :=
  match argument_after "--source-imgref" (bp_argv plan) with
  | Some source => if is_empty source then Err "bootc install plan is missing its source image reference" else Ok source
  | None => Err "bootc install plan is missing its source image reference"
  end.

Definition registry_host (source_imgref : string) : option string :=
  match strip_prefix "docker://" source_imgref with
  | Some rest =>
      match split_char "/" rest with
      | host :: _ => if is_empty host then None else Some host
      | [] => None
      end
  | None => None
  end.

Section building.
Context {HL : LsblkDecoder} {HB : BuildOs}.

Definition probe_registry_reachability (source_imgref : string) : result unit :=
  if bool_decide (bo_env "KYTH_INSTALLER_NETWORK_PROBE" = Some "off") then Ok tt
  else
    let? host := ok_or (registry_host source_imgref) "image source requires the network but is not a docker:// reference" in
    let? addrs := ok_or (bo_resolve host)
      ("cannot reach the image registry " +:+ host +:+ ": DNS resolution failed; connect to the network before installing") in
    guard! negb (existsb bo_connect addrs)
      else ("cannot reach the image registry " +:+ host +:+ ":443 within 10s; connect to the network before installing");
    Ok tt.

Definition run_ok (program : string) (args : list string) : option string :=
  match @RustOs.run_command bo_runner program args with
  | Ok output => if success output && co_utf8 output then Some (co_stdout output) else None
  | Err _ => None
  end.
Definition ok {A} (r : result A) : option A := match r with Ok a => Some a | Err _ => None end.

Definition probe_sector_size (disk : string) : option Z :=
  text ← run_ok "/usr/sbin/blockdev" ["--getss"; disk];
  size ← parse_u64 (trim text);
  if negb (is_power_of_two size) || negb ((512 <=? size) && (size <=? 4096)) then None else Some size.

Definition probe_partition_size_bytes (disk partition : string) : option Z :=
  sector_size ← probe_sector_size disk;
  snapshot ← run_ok "/usr/bin/lsblk" ["--json"; "--bytes"; "--paths"; "--output"; "NAME,SIZE,TYPE,PARTN"; disk];
  probe ← ok (partition_probe_from_snapshot snapshot disk partition sector_size);
  if 0 <? pb_size_bytes probe then Some (pb_size_bytes probe) else None.

Definition set_pre_shrink_bytes (size : option Z) (p : InstallerPlan) : InstallerPlan := {|
  pl_mode := pl_mode p; pl_disk := pl_disk p; pl_target_partition := pl_target_partition p;
  pl_resize_partition := pl_resize_partition p; pl_resize_bytes := pl_resize_bytes p;
  pl_free_region_start := pl_free_region_start p; pl_free_region_end := pl_free_region_end p; pl_pre_shrink_bytes := size;
  pl_target_disk_serial := pl_target_disk_serial p; pl_target_disk_model := pl_target_disk_model p;
  pl_target_disk_size_bytes := pl_target_disk_size_bytes p; pl_flatpaks := pl_flatpaks p |}.

Definition with_pre_shrink (plan : InstallerPlan) : InstallerPlan :=
  match pl_resize_partition plan with
  | Some partition =>
      if String.eqb (pl_mode plan) "resize_ntfs"
      then set_pre_shrink_bytes (probe_partition_size_bytes (pl_disk plan) partition) plan
      else plan
  | None => plan
  end.

Definition source_kind (source_imgref : string) : string :=
  if starts_with "docker://" source_imgref then "network"
  else if starts_with "oci:" source_imgref then "embedded"
  else if is_empty source_imgref then "unresolved" else "local".

Definition initial_transaction (plan : InstallerPlan) (source_imgref target_imgref transaction_id : string) : TransactionState :=
  let status := bo_source_status source_imgref target_imgref in
  {| ts_schema_version := 1; ts_transaction_id := transaction_id; ts_job_id := None; ts_updated_at := EmptyString;
     ts_status := EmptyString; ts_phase := "prepare"; ts_lifecycle := "idle"; ts_install_mode := pl_mode plan;
     ts_disk := pl_disk plan;
     ts_target_partition := unwrap_or (match pl_target_partition plan with Some t => Some t | None => pl_resize_partition plan end)
                              EmptyString;
     ts_source := {| src_kind := unwrap_or (field as_str "kind" status) (source_kind source_imgref);
                     src_digest := unwrap_or (field as_str "digest" status) EmptyString;
                     src_verified := unwrap_or (field as_bool "verified" status) false;
                     src_target_ref := target_imgref |};
     ts_checks := []; ts_partition_steps := []; ts_message := EmptyString; ts_recovery_required := false |}.

(** The state behind the mutexes of a new executor. *)
Definition initial_state (transaction : TransactionState) : XState :=
  {| xs_log := []; xs_transaction := transaction; xs_mounts := []; xs_storage_target := None; xs_secure_boot := None;
     xs_journal := None |}.

Definition from_request (request : NativeInstallRequest) : result (NativePhaseExecutor * XState) :=
  let execution := nr_execution request in
  let? plan := InstallerPlan.build_plan (nr_storage request) in
  let plan := with_pre_shrink plan in
  let? execution_plan := build_execution_plan execution in
  let? source_imgref := planned_source_imgref (ep_bootc execution_plan) in
  check! (if bp_requires_network (ep_bootc execution_plan) && negb (bi_skip_fetch_check (ei_bootc execution))
          then probe_registry_reachability source_imgref else Ok tt);
  let target_imgref := bi_target_imgref (ei_bootc execution) in
  Ok ({| ex_plan := plan; ex_execution := execution_plan; ex_bootc := ei_bootc execution; ex_account := ei_account execution;
         ex_manual_mounts := nr_manual_mounts request; ex_source_imgref := source_imgref; ex_target_imgref := target_imgref;
         ex_kernel := sb_kernel (ei_secure_boot execution); ex_force_stage := sb_force_stage (ei_secure_boot execution);
         ex_password := nr_secure_boot_password request; ex_transaction_path := nr_transaction_path request |},
      initial_state (initial_transaction plan source_imgref target_imgref bo_transaction_id)).
End building.

(** [operation_order] *)
Definition operation_order (self : NativePhaseExecutor) : list NativeOperation :=
  [ValidateStoragePlan; ValidateExecutionPlan; StorageMutation; ImageWrite; ConfigurationWrite]
  ++ (match ep_account (ex_execution self) with Some _ => [AccountCreate] | None => [] end)
  ++ [SecureBootInteraction; CompletionCommit].
