(* ===== verification/ExecutorSafety.v ===== *)
(** What the phase executor of PhaseExecutor.v guarantees.

    [steps F c G] is a small logic over the executor's computations: from a log
    that shows the facts [F], [c] keeps the invariant, only adds to the log, and
    on success shows [G].  It proves that every destructive request is preceded
    by its gates; the other theorems follow one computation: what a guarded
    table change undoes, which sources pass, when an interrupted shrink is
    resumed, and why the guided modes can not succeed. *)

From S2P Require Import Prelude RustStr RustOs Json FileSystem Stream Orchestration InstallerRuntime InstallerJob InstallerPlan StorageModel Partitions FreeRegions InstallerGuard.
From S2P Require Import InstallerDisk InstallerRuntime DurableJournal InstallerTransaction Configuration Probes ManualMounts.
From S2P Require Import ExecutionPlan PhaseExecutor.

(** * What must precede what *)

(** Something the log shows. *)
Inductive Fact :=
| FPassed (check : Check)
| FJournalled (op : string) (state : OpState)
| FDone (request : HelperRequest)
| FBackedUp (disk : string)
| FNever.

Definition shows (e : Event) (f : Fact) : Prop :=
  match f with
  | FPassed check => e = Passed check
  | FJournalled op state => ∃ path, e = Journalled path op state
  | FDone request => ∃ c, e = Helper request c (Ok (Some 0))
  | FBackedUp disk => ∃ path c, e = Helper (HDisk (BackupTable disk path)) c (Ok (Some 0))
  | FNever => False
  end.
Definition holds (l : list Event) (f : Fact) : Prop := ∃ e, e ∈ l ∧ shows e f.

(** A partition-table change needs the guard, its marker and a backup. *)
Definition table_facts (disk : string) : list Fact :=
  [FPassed GuardPassed; FJournalled "partition_table" Started; FBackedUp disk].

Definition previous_stage (stage : string) : option string :=
  if String.eqb stage "info" then Some "check"
  else if String.eqb stage "dry_run" then Some "info"
  else if String.eqb stage "resize" then Some "dry_run"
  else None.

(** What the log must show before a request is made. *)
Definition needs (mode : string) (request : HelperRequest) : list Fact :=
  match request with
  | HDisk (FormatFilesystem device _ _ _) =>
      [FPassed GuardPassed; FPassed (TargetPassed device); FJournalled "format" Started]
  | HDisk (CreatePartition disk _ _ _ _ _ | CreateUnformattedPartition disk _ _ _ _ | SetPartitionFlag disk _ _ _ _
          | ResizePartition disk _ _ _ _ _) => table_facts disk
  | HDisk (RestoreTable disk path) => [FDone (HDisk (BackupTable disk path))]
  | HDisk (CreateLabel _ _ | DeletePartition _ _ _ | FilesystemCheck _ | FilesystemResize _ _ _ _) => [FNever]
  | HDisk _ => []
  | HStream (FilesystemResize device fs size stage) =>
      FJournalled "ntfs_shrink" Started ::
      match previous_stage stage with Some p => [FDone (HStream (FilesystemResize device fs size p))] | None => [] end
  | HStream _ => [FNever]
  | HBootc _ =>
      [FPassed ResourcesPassed; FPassed SourceVerified; FPassed PreflightPassed; FJournalled "image_write" Started]
      ++ (if String.eqb mode "wipe" then [FPassed GuardPassed] else [])
  | HFixed _ _ | HManual _ => [FJournalled "configure" Started]
  end.

(** Every request was made with its needs met. *)
Definition ordered (mode : string) (l : list Event) : Prop :=
  ∀ before request c outcome after, l = before ++ Helper request c outcome :: after →
    Forall (holds before) (needs mode request).

Lemma holds_app l l' f : holds l f → holds (l ++ l') f.
Proof. intros (e & He & Hs). exists e. split; [by apply elem_of_app; left|done]. Qed.

Lemma ordered_nil mode : ordered mode [].
Proof. intros [|] ????; done. Qed.

Lemma ordered_snoc mode l e :
  ordered mode l → (∀ r c o, e = Helper r c o → Forall (holds l) (needs mode r)) → ordered mode (l ++ [e]).
Proof.
  intros Hl He before r c o after Heq. destruct after as [|x after _] using rev_ind.
  - apply app_inj_tail in Heq as [<- ->]. by apply (He r c o).
  - rewrite app_comm_cons, app_assoc in Heq. apply app_inj_tail in Heq as [Heq ->]. by apply (Hl _ _ _ _ _ Heq).
Qed.

(** The helper reports success only with exit status 0. *)
Definition HelperReports `{ExecOs} : Prop := ∀ l r c code, xo_helper l r c = Ok code → code = Some 0.

Definition failed_step (d : json) : bool := bool_decide (field as_str "status" d = Some "failed").

Section proofs.
Context {HL : LsblkDecoder} {HF : FindmntDecoder} {HJ : JsonCodec} {HX : ExecOs}.
Context (self : NativePhaseExecutor) (strict : Prop) (Hstrict : strict → HelperReports).
Local Notation mode := (mode self).
Local Notation disk := (disk self).

Definition no_failed_step (s : XState) : Prop :=
  Forall (λ d, failed_step d = false) (ts_partition_steps (xs_transaction s)).

Record inv (s : XState) : Prop := {
  inv_ordered : ordered mode (xs_log s);
  inv_steps : strict → no_failed_step s;
}.

(** From the facts [F], [c] keeps the invariant, only adds to the log, and on
    success shows the facts [G]. *)
Definition steps {A} (F : list Fact) (c : X A) (G : A → list Fact) : Prop :=
  ∀ s r s', inv s → Forall (holds (xs_log s)) F → c s = (r, s') →
    inv s' ∧ (∃ l, xs_log s' = xs_log s ++ l) ∧ ∀ a, r = Ok a → Forall (holds (xs_log s')) (G a).
Definition none {A} (_ : A) : list Fact := [].

Lemma steps_bind {A B} F (c : X A) G (k : A → X B) H :
  steps F c G → (∀ a, steps (G a ++ F) (k a) H) → steps F (m_bind c k) H.
Proof.
  intros Hc Hk s r s' Hi HF' E. apply m_bind_inv in E as [(a & s1 & E1 & E2)|(e & E1 & ->)].
  - destruct (Hc _ _ _ Hi HF' E1) as (Hi1 & (l1 & Hl1) & HG). specialize (HG a eq_refl).
    assert (Forall (holds (xs_log s1)) (G a ++ F)) as HGF.
    { apply Forall_app. split; [done|]. rewrite Hl1. eapply Forall_impl; [exact HF'|]. intros f. apply holds_app. }
    destruct (Hk a s1 r s' Hi1 HGF E2) as (Hi2 & (l2 & Hl2) & HH).
    split_and!; [done| |done]. exists (l1 ++ l2). by rewrite Hl2, Hl1, app_assoc.
  - destruct (Hc _ _ _ Hi HF' E1) as (Hi1 & Hl & _). by split_and!.
Qed.

(** A subset of the facts suffices. *)
Lemma steps_weaken {A} F F' (c : X A) G :
  steps F' c G → (∀ f, f ∈ F' → f ∈ F) → steps F c G.
Proof.
  intros Hc Hsub s r s' Hi HF' E. apply (Hc s r s' Hi); [|done].
  apply Forall_forall. intros f Hf. rewrite Forall_forall in HF'. apply HF'. by apply Hsub.
Qed.
Lemma steps_drop {A} F (c : X A) G : steps F c G → steps F c none.
Proof. intros Hc s r s' Hi HF' E. destruct (Hc _ _ _ Hi HF' E) as (? & ? & _). split_and!; [done|done|constructor]. Qed.

(** Computations that leave the state alone. *)
Lemma steps_pure {A} F (c : X A) : (∀ s r s', c s = (r, s') → s' = s) → steps F c none.
Proof. intros Hc s r s' Hi _ E. apply Hc in E as ->. split_and!; [done|exists []; by rewrite app_nil_r|constructor]. Qed.
Lemma steps_ret {A} F (a : A) : steps F (m_ret a) none.
Proof. apply steps_pure. by intros s r s' [= _ <-]. Qed.
Lemma steps_lift {A} F (r : result A) : steps F (m_lift r) none.
Proof. apply steps_pure. by intros s r' s' [= _ <-]. Qed.
Lemma steps_asks {A} F (f : XState → A) : steps F (asks f) none.
Proof. apply steps_pure. by intros s r s' [= _ <-]. Qed.
Lemma steps_answer {A} F (f : list Event → result A) : steps F (answer f) none.
Proof. apply steps_pure. by intros s r s' [= _ <-]. Qed.
Lemma steps_fail {A} F phase m : steps F (fail_with (A := A) phase m) none.
Proof. apply steps_lift. Qed.

Lemma steps_modify F f :
  (∀ s, xs_log (f s) = xs_log s) → (∀ s, no_failed_step s → no_failed_step (f s)) → steps F (modify f) none.
Proof.
  intros Hl Hn s r s' [Ho Hs] _ [= _ <-]. split_and!; [|exists []; by rewrite Hl, app_nil_r|constructor].
  split; [by rewrite Hl|auto].
Qed.

(** An event that is no request. *)
Lemma steps_emit F e fs :
  (∀ r c o, e ≠ Helper r c o) → (∀ f, f ∈ fs → shows e f) → steps F (emit e) (λ _, fs).
Proof.
  intros Hn Hf s r s' [Ho Hs] _ [= _ <-]. split_and!.
  - split; [apply ordered_snoc; [done|by intros ??? ?%Hn]|done].
  - by exists [e].
  - intros _ _. apply Forall_forall. intros f Hin. exists e. split; [apply elem_of_app; right; by left|auto].
Qed.

Lemma steps_attempt {A} F (c : X A) G :
  steps F c G → steps F (attempt c) (λ r, match r with Ok a => G a | Err _ => [] end).
Proof.
  intros Hc s r s' Hi HF' E. unfold attempt in E. destruct (c s) as [r0 s0] eqn:E0. injection E as <- <-.
  destruct (Hc _ _ _ Hi HF' E0) as (Hi' & Hl & HG). split_and!; [done|done|].
  intros a [= <-]. destruct r0; [by apply HG|constructor].
Qed.
Lemma steps_map_error {A} F f (c : X A) G : steps F c G → steps F (map_error f c) G.
Proof.
  intros Hc s r s' Hi HF' E. unfold map_error in E. destruct (c s) as [r0 s0] eqn:E0. injection E as <- <-.
  destruct (Hc _ _ _ Hi HF' E0) as (Hi' & Hl & HG). split_and!; [done|done|].
  intros a Ha. apply HG. by destruct r0.
Qed.

(** The result of the first computation may be used for the second. *)
Lemma steps_bind_val {A B} F (c : X A) G (k : A → X B) H :
  steps F c G → (∀ s a s1, c s = (Ok a, s1) → steps (G a ++ F) (k a) H) → steps F (m_bind c k) H.
Proof.
  intros Hc Hk s r s' Hi HF' E. pose proof E as E0. apply m_bind_inv in E as [(a & s1 & E1 & E2)|(e & E1 & ->)].
  - destruct (Hc _ _ _ Hi HF' E1) as (Hi1 & (l1 & Hl1) & HG). specialize (HG a eq_refl).
    assert (Forall (holds (xs_log s1)) (G a ++ F)) as HGF.
    { apply Forall_app. split; [done|]. rewrite Hl1. eapply Forall_impl; [exact HF'|]. intros f. apply holds_app. }
    destruct (Hk s a s1 E1 s1 r s' Hi1 HGF E2) as (Hi2 & (l2 & Hl2) & HH).
    split_and!; [done| |done]. exists (l1 ++ l2). by rewrite Hl2, Hl1, app_assoc.
  - destruct (Hc _ _ _ Hi HF' E1) as (Hi1 & Hl & _). by split_and!.
Qed.

Lemma steps_write_marker F : steps F (write_marker self) none.
Proof.
  unfold write_marker. eapply steps_bind; [apply steps_asks|intros t]. eapply steps_bind; [apply steps_answer|intros ?].
  apply (steps_emit _ _ []); [done|by intros f ?%not_elem_of_nil].
Qed.

Lemma steps_write_transaction F status phase lifecycle message : steps F (write_transaction self status phase lifecycle message) none.
Proof.
  unfold write_transaction. eapply steps_bind; [apply steps_answer|intros now].
  eapply steps_bind; [|intros ?; apply steps_write_marker]. apply steps_modify; [done|].
  intros s Hs. unfold no_failed_step. cbn. destruct (String.eqb status "started"); [constructor|done].
Qed.

Lemma steps_append_check F phase check : steps F (append_check_for_phase self phase check) none.
Proof.
  unfold append_check_for_phase. eapply steps_bind; [by apply steps_modify|intros ?].
  apply steps_map_error, steps_write_marker.
Qed.

Lemma steps_append_step F kind status target phase :
  (strict → status ≠ "failed") → steps F (append_partition_step self kind status target phase) none.
Proof.
  intros Hst. unfold append_partition_step. eapply steps_bind; [|intros ?; apply steps_map_error, steps_write_marker].
  intros s r s' [Ho Hs] _ [= _ <-]. split_and!; [|exists []; cbn; by rewrite app_nil_r|constructor]. split; [done|].
  intros Hrep. unfold no_failed_step. cbn. apply Forall_app. split; [by apply Hs|]. constructor; [|constructor].
  unfold failed_step. apply bool_decide_eq_false. change (Some status ≠ Some "failed"). intros [= ?]. by apply Hst.
Qed.

Definition done_facts (request : HelperRequest) : list Fact :=
  match request with
  | HDisk (BackupTable disk path) => [FDone request; FBackedUp disk]
  | _ => [FDone request]
  end.

Lemma steps_run_helper F phase request c :
  (∀ f, f ∈ needs mode request → f ∈ F) →
  steps F (run_helper phase request c) (λ code, if bool_decide (code = Some 0) then done_facts request else []).
Proof.
  intros Hn s r s' [Ho Hs] HF' E. unfold run_helper, m_bind, asks, emit, m_lift in E. injection E as <- <-.
  set (o := xo_helper _ _ _). split_and!.
  - split; [|done]. apply ordered_snoc; [done|]. intros r' c' o' [= <- <- <-].
    apply Forall_forall. intros f Hf. rewrite Forall_forall in HF'. auto.
  - by eexists [_].
  - intros code Hcode. destruct o as [code'|e] eqn:Eo; [|done]. injection Hcode as <-.
    case_bool_decide as Hc; [|constructor]. subst code'.
    assert (holds (xs_log s ++ [Helper request c (Ok (Some 0))]) (FDone request)) as H1.
    { exists (Helper request c (Ok (Some 0))). split; [apply elem_of_app; right; by left|]. by exists c. }
    cbn. destruct request as [[]| | | |]; repeat constructor; try done.
    eexists. split; [apply elem_of_app; right; by left|]. cbn. eauto.
Qed.

Lemma steps_stepped {A} F phase kind target request c (value : A) failure :
  (∀ f, f ∈ needs mode request → f ∈ F) →
  steps F (stepped self phase kind target (run_helper phase request c) value failure) (λ _, done_facts request).
Proof.
  intros Hn. unfold stepped. eapply steps_bind; [destruct kind; [by apply steps_append_step|apply steps_ret]|intros ?].
  eapply steps_bind_val; [by apply steps_run_helper|]. intros s status s1 E. cbn beta.
  case_bool_decide as Hst.
  - intros s2 r s3 Hi HF' E2. eapply (steps_bind _ _ none _ (λ _, done_facts request)) in E2; [exact E2| | |done|done].
    + destruct kind; [by apply steps_append_step|apply steps_ret].
    + intros ? s4 r4 s5 Hi4 HF4 [= <- <-]. split_and!; [done|exists []; by rewrite app_nil_r|].
      intros b _. cbn in HF4. apply Forall_app in HF4 as [HG _]. exact HG.
  - assert (¬ strict) as Hno.
    { intros Hrep%Hstrict. unfold run_helper, m_bind, asks, emit, m_lift, exec_err in E. injection E as E _.
      apply map_err_Ok, Hrep in E. by subst status. }
    eapply steps_bind; [destruct kind; [|apply steps_ret]|intros ? s2 r s3 Hi HF' [= <- <-]; split_and!;
      [done|exists []; by rewrite app_nil_r|done]].
    eapply steps_bind; [apply steps_attempt, steps_append_step; by intros ?%Hno|intros ?]. apply steps_ret.
Qed.

Lemma steps_disk_helper F phase c op :
  (∀ f, f ∈ needs mode (HDisk op) → f ∈ F) → steps F (disk_helper self phase c op) (λ _, done_facts (HDisk op)).
Proof. intros Hn. by apply steps_stepped. Qed.
Lemma steps_calm_helper F phase c op : needs mode (HDisk op) = [] → steps F (disk_helper self phase c op) none.
Proof. intros Hn. eapply steps_drop, steps_disk_helper. rewrite Hn. by intros f ?%not_elem_of_nil. Qed.

Lemma steps_emit_none F e : (∀ r c o, e ≠ Helper r c o) → steps F (emit e) none.
Proof. intros Hn. apply (steps_emit _ _ []); [done|by intros f ?%not_elem_of_nil]. Qed.

(** The needs of a request are among the facts at hand. *)
Ltac facts := cbn; try intros ?; rewrite ?elem_of_cons, ?elem_of_app, ?elem_of_cons, ?elem_of_nil; tauto.

(** Walks a computation; [exec] holds the lemmas of its parts. *)
Create HintDb exec.
Ltac exec_step :=
  cbn beta zeta;
  match goal with
  | |- steps _ (m_bind _ _) _ => eapply steps_bind; [exec_step|intros ?; exec_step]
  | |- steps _ (m_ret _) _ => apply steps_ret
  | |- steps _ (m_lift _) _ => apply steps_lift
  | |- steps _ (asks _) _ => apply steps_asks
  | |- steps _ (answer _) _ => apply steps_answer
  | |- steps _ (fail_with _ _) _ => apply steps_fail
  | |- steps _ (attempt _) _ => apply steps_attempt; exec_step
  | |- steps _ (in_phase _ _) _ => apply steps_map_error; exec_step
  | |- steps _ (modify _) _ => by apply steps_modify
  | |- steps _ (emit _) _ => apply steps_emit_none; discriminate
  | |- steps _ (if ?b then _ else _) _ => destruct b; exec_step
  | |- steps _ (match ?x with _ => _ end) _ => destruct x; exec_step
  | |- steps _ (execute_disk_helper _ _ _) _ => unfold execute_disk_helper; exec_step
  | |- steps _ (disk_helper _ _ _ _) _ => first [by apply steps_calm_helper | by (apply steps_disk_helper; facts)
                                                | by (eapply steps_drop; apply steps_disk_helper; facts)]
  | |- _ => solve [eauto with exec | eapply steps_drop; eauto with exec]
  end.

#[local] Hint Resolve steps_write_marker steps_write_transaction steps_append_check : exec.

Lemma steps_validate F phase : steps F (validate_target_disk self phase) (λ _, [FPassed GuardPassed]).
Proof.
  unfold validate_target_disk. eapply steps_bind; [apply steps_answer|intros ?].
  apply steps_emit; [done|]. by intros f ->%list_elem_of_singleton.
Qed.
Lemma steps_record F phase op st : steps F (record_journal phase op st) (λ _, [FJournalled op st]).
Proof.
  unfold record_journal. eapply steps_bind; [apply steps_asks|intros [path|]].
  - eapply steps_bind; [apply steps_answer|intros ?]. apply steps_emit; [done|].
    intros f ->%list_elem_of_singleton. by exists path.
  - intros s r s' Hi _ [= <- <-]. split_and!; [done|exists []; by rewrite app_nil_r|done].
Qed.
Lemma steps_snapshot F phase : steps F (disk_snapshot self phase) none.
Proof. apply steps_answer. Qed.
Lemma steps_sector F phase : steps F (disk_sector_size self phase) none.
Proof. apply steps_answer. Qed.
#[local] Hint Resolve steps_validate steps_record steps_snapshot steps_sector : exec.


Lemma steps_tpm F phase : steps F (check_tpm_preflight self phase) none.
Proof. unfold check_tpm_preflight. exec_step. Qed.
#[local] Hint Resolve steps_tpm : exec.
Lemma steps_preflight F phase : steps F (check_storage_preflight self phase) (λ _, [FPassed PreflightPassed]).
Proof.
  unfold check_storage_preflight. do 5 (eapply steps_bind; [exec_step|intros ?]).
  apply steps_emit; [done|]. by intros f ->%list_elem_of_singleton.
Qed.
Lemma steps_verify F phase : steps F (verify_install_source self phase) (λ _, [FPassed SourceVerified]).
Proof.
  unfold verify_install_source. eapply steps_bind; [apply steps_answer|intros ?].
  apply steps_emit; [done|]. by intros f ->%list_elem_of_singleton.
Qed.
Lemma steps_resources F phase : steps F (check_image_resources self phase) (λ _, [FPassed ResourcesPassed]).
Proof.
  unfold check_image_resources. eapply steps_bind; [apply steps_answer|intros ?].
  apply steps_emit; [done|]. by intros f ->%list_elem_of_singleton.
Qed.
Lemma steps_gate F phase snapshot sector requested :
  steps F (gate_target self phase snapshot sector requested) (λ t, [FPassed (TargetPassed t)]).
Proof.
  unfold gate_target. eapply steps_bind; [apply steps_lift|intros probe]. 
  eapply steps_bind; [apply (steps_emit _ _ [FPassed (TargetPassed (pb_name probe))]); [done|by intros f ->%list_elem_of_singleton]|].
  intros ? s r s' Hi HF' [= <- <-]. split_and!; [done|exists []; by rewrite app_nil_r|]. intros t [= <-].
  by apply Forall_cons in HF' as [? _]; constructor.
Qed.
#[local] Hint Resolve steps_preflight steps_verify steps_resources steps_gate : exec.

Lemma steps_open F phase : steps F (open_durable_journal self phase) none.
Proof. unfold open_durable_journal. exec_step. Qed.
Lemma steps_completed F phase op : steps F (journal_completed phase op) none.
Proof. unfold journal_completed. exec_step. Qed.
Lemma steps_find_esp F phase m : steps F (find_esp self phase m) none.
Proof. unfold find_esp. exec_step. Qed.
Lemma steps_register F path : steps F (register_mount path) none.
Proof. by apply steps_modify. Qed.
Lemma steps_release F path : steps F (release_mount path) none.
Proof. by apply steps_modify. Qed.
#[local] Hint Resolve steps_open steps_completed steps_find_esp steps_register steps_release : exec.
Lemma steps_esp_journal F phase : steps F (ensure_esp_journal self phase) none.
Proof. unfold ensure_esp_journal. exec_step. Qed.
#[local] Hint Resolve steps_esp_journal : exec.

(** ** The storage phase *)

Lemma elem_subset (F F' : list Fact) : Forall (λ f, f ∈ F) F' → ∀ f, f ∈ F' → f ∈ F.
Proof. rewrite Forall_forall. auto. Qed.

(** Creating the target partition, wherever the table is guarded. *)
Lemma steps_create_target F phase start end_ sector :
  (∀ f, f ∈ table_facts disk → f ∈ F) → steps F (create_target_partition self phase start end_ sector) none.
Proof.
  intros HF'. assert (steps (table_facts disk) (create_target_partition self phase start end_ sector) none) as H;
    [|by eapply steps_weaken].
  assert (∀ before, steps (table_facts disk) (create_bios_boot self phase before start end_ sector) none) as Hbios.
  { intros before. unfold create_bios_boot. exec_step. }
  unfold create_target_partition. destruct (end_ <=? start); [exec_step|].
  do 2 (eapply steps_bind; [exec_step|intros ?]).
  eapply steps_bind; [destruct a0; [exec_step|eapply steps_weaken; [apply Hbios|facts]]|]. intros [before target_start].
  exec_step.
Qed.

Lemma steps_stream F phase request step :
  (∀ f, f ∈ needs mode request → f ∈ F) → steps F (execute_stream_helper self phase request step) (λ _, done_facts request).
Proof. intros Hn. unfold execute_stream_helper. by apply steps_stepped. Qed.

Lemma steps_ntfs F phase partition size :
  FJournalled "ntfs_shrink" Started ∈ F → steps F (ntfs_stages self phase partition size NTFS_STAGES) none.
Proof.
  intros Hj. unfold NTFS_STAGES. cbn [ntfs_stages].
  do 4 (eapply steps_bind; [apply steps_stream; cbn; intros f; rewrite ?elem_of_cons, ?elem_of_nil; naive_solver|intros ?]).
  apply steps_ret.
Qed.

Lemma steps_boundary F phase partition probe size sector :
  (∀ f, f ∈ table_facts disk → f ∈ F) → steps F (move_boundary self phase partition probe size sector) none.
Proof.
  intros HF'. assert (steps (table_facts disk) (move_boundary self phase partition probe size sector) none) as H;
    [|by eapply steps_weaken]. unfold move_boundary. exec_step.
Qed.

Lemma steps_resize F phase : (∀ f, f ∈ table_facts disk → f ∈ F) → steps F (resize_ntfs_target self phase) none.
Proof.
  intros HF'. assert (steps (table_facts disk) (resize_ntfs_target self phase) none) as H; [|by eapply steps_weaken].
  unfold resize_ntfs_target. destruct (negb xo_ac_online); [exec_step|].
  do 4 (eapply steps_bind; [exec_step|intros ?]).
  destruct (negb _); [exec_step|]. destruct (_ || _); [exec_step|].
  eapply steps_bind; [unfold ntfs_shrink_resume_window; exec_step|]. intros [[new_end old_end]|].
  { apply steps_create_target. facts. }
  unfold shrink_ntfs. do 2 (eapply steps_bind; [exec_step|intros ?]). destruct (_ || _); [exec_step|].
  eapply steps_bind; [exec_step|intros ?]. eapply steps_bind; [apply steps_ntfs; facts|intros ?].
  eapply steps_bind; [apply steps_boundary; facts|intros ?]. do 3 (eapply steps_bind; [exec_step|intros ?]).
  apply steps_create_target. facts.
Qed.

(** A guarded change provides the guard, and the backup it restores from. *)
Lemma steps_guarded {A} F phase (body : X A) :
  (∀ F', (∀ f, f ∈ F → f ∈ F') → FPassed GuardPassed ∈ F' → FBackedUp disk ∈ F' → steps F' body none) →
  steps F (guarded_table_mutation self phase body) none.
Proof.
  intros Hb. unfold guarded_table_mutation, with_disk_lock.
  do 3 (eapply steps_bind; [exec_step|intros ?]). cbn zeta.
  eapply steps_bind; [by apply steps_disk_helper; facts|intros ?].
  eapply steps_bind; [apply steps_attempt, Hb; facts|]. intros [v|e]; [exec_step|].
  eapply steps_bind; [apply steps_attempt, steps_disk_helper; facts|]. intros [|]; exec_step.
Qed.

Lemma steps_table_change F phase body :
  (∀ F', (∀ f, f ∈ table_facts disk → f ∈ F') → steps F' body none) → steps F (table_change self phase body) none.
Proof.
  intros Hb. unfold table_change. eapply steps_bind; [exec_step|intros ?].
  eapply steps_bind; [apply steps_guarded|intros ?; exec_step].
  intros F' Hsub Hg Hbk. apply Hb. intros f. unfold table_facts. rewrite !elem_of_cons, elem_of_nil.
  intros [->|[->|[->|[]]]]; [done|apply Hsub; facts|done].
Qed.

Lemma steps_mount_efi F phase : steps F (mount_efi self phase) none.
Proof.
  unfold mount_efi. do 4 (eapply steps_bind; [exec_step|intros ?]). cbn zeta. eapply steps_bind; [exec_step|intros ?].
  eapply steps_bind; [|intros ?; exec_step]. apply steps_calm_helper. unfold efi_mount_operation. by destruct (efi_mounted_at _).
Qed.
#[local] Hint Resolve steps_mount_efi : exec.

Lemma steps_prepare F phase target : steps F (prepare_btrfs_target self phase target) none.
Proof. unfold prepare_btrfs_target, with_disk_lock, create_subvolumes, planned_target. exec_step. Qed.

Lemma steps_storage F phase : steps F (execute_storage self phase) none.
Proof.
  unfold execute_storage. eapply steps_bind; [exec_step|intros ?]. eapply steps_bind; [exec_step|intros ?].
  destruct (String.eqb mode "wipe"); [exec_step|].
  eapply (steps_bind _ _ none); [|intros ?; eapply steps_bind; [apply steps_prepare|intros ?]; exec_step].
  repeat match goal with |- steps _ (if ?b then _ else _) _ => destruct b end.
  - unfold replace_target, planned_target. exec_step.
  - unfold use_free_region. do 5 (eapply steps_bind; [exec_step|intros ?]). destruct (negb _); [exec_step|].
    apply steps_table_change. intros F' HF'. by apply steps_create_target.
  - apply steps_table_change. intros F' HF'. by apply steps_resize.
  - exec_step.
Qed.

(** ** The other phases *)

Lemma steps_unmount F phase paths e : steps F (unmount_all self phase paths e) none.
Proof. revert F e. induction paths as [|p paths IH]; intros F e; cbn [unmount_all]; [exec_step|]. eapply steps_bind; [exec_step|intros r; apply IH]. Qed.
#[local] Hint Resolve steps_unmount : exec.
Lemma steps_cleanup F phase : steps F (cleanup_mounts self phase) none.
Proof. unfold cleanup_mounts. exec_step. Qed.
#[local] Hint Resolve steps_cleanup : exec.

Lemma steps_wipe_root F phase : steps F (mount_wipe_root self phase) none.
Proof. unfold mount_wipe_root, luks_mapper_open. exec_step. Qed.
#[local] Hint Resolve steps_wipe_root : exec.

Lemma steps_image F phase : steps F (execute_image self phase) none.
Proof.
  unfold execute_image, with_disk_lock. do 4 (eapply steps_bind; [exec_step|intros ?]).
  destruct (String.eqb mode "wipe") eqn:Ew.
  all: eapply steps_bind; [exec_step|intros ?]; eapply steps_bind; [exec_step|intros ?].
  all: eapply steps_bind; [exec_step|intros ?].
  all: eapply steps_bind; [apply steps_stream; cbn [needs]; rewrite Ew; facts|intros ?].
  all: destruct a6; [|exec_step]; eapply steps_bind; [unfold warn_if_boot_entries_lost; exec_step|intros ?]; exec_step.
Qed.

Lemma steps_configure_raw F step : steps F (configure_raw step) none.
Proof. unfold configure_raw. exec_step. Qed.
#[local] Hint Resolve steps_configure_raw : exec.
Lemma steps_configure_step F phase step : steps F (configure_step phase step) none.
Proof. unfold configure_step. exec_step. Qed.
#[local] Hint Resolve steps_configure_step : exec.

Lemma steps_fixed F phase operation request :
  needs mode request = [FJournalled "configure" Started] → FJournalled "configure" Started ∈ F →
  steps F (fixed_helper phase operation request) none.
Proof.
  intros Hn Hf. unfold fixed_helper. eapply steps_bind; [apply steps_run_helper|intros code; destruct (bool_decide _); exec_step].
  rewrite Hn. by intros f ->%list_elem_of_singleton.
Qed.

Lemma steps_append_checks F phase checks : steps F (append_checks self phase checks) none.
Proof. revert F. induction checks as [|c checks IH]; intros F; cbn [append_checks]; [exec_step|]. eapply steps_bind; [exec_step|intros ?]. apply IH. Qed.
#[local] Hint Resolve steps_append_checks : exec.

Lemma steps_configure_body F phase deploy fstab :
  FJournalled "configure" Started ∈ F → steps F (configure_body self phase deploy fstab) none.
Proof.
  intros Hf. unfold configure_body. eapply steps_bind.
  { unfold configure_mounts. destruct (String.eqb mode "wipe"); [exec_step|].
    destruct (lays_out_home_subvolume mode).
    { do 2 (eapply steps_bind; [exec_step|intros ?]). by apply steps_fixed. }
    destruct (String.eqb mode "manual"); [|exec_step]. destruct (ex_manual_mounts self); [|exec_step].
    unfold with_disk_lock. eapply steps_bind; [exec_step|intros ?]. by apply steps_fixed. }
  intros ?. do 2 (eapply steps_bind; [exec_step|intros ?]).
  eapply (steps_bind _ _ none); [|intros ?; exec_step]. destruct (ex_account self); [by apply steps_fixed|exec_step].
Qed.

Lemma steps_configuration F phase : steps F (execute_configuration self phase) none.
Proof.
  unfold execute_configuration. eapply steps_bind; [exec_step|intros deploy]. cbn zeta.
  do 2 (eapply steps_bind; [exec_step|intros ?]).
  eapply steps_bind; [apply steps_attempt, steps_configure_body; facts|]. intros [|e]; [|exec_step].
  eapply (steps_bind _ _ none); [|intros ?; exec_step]. destruct (pl_flatpaks _); [exec_step|].
  eapply steps_drop. exec_step.
Qed.

Lemma steps_phase F phase : steps F (execute_phase_typed self phase) none.
Proof.
  unfold execute_phase_typed. eapply steps_bind; [exec_step|intros c]. destruct c; [exec_step|].
  assert (∀ F st, steps F (mark_status self phase st) none) as Hmark
    by (intros F' [[st msg]|]; unfold mark_status; exec_step).
  eapply steps_bind; [apply Hmark|intros ?]. eapply (steps_bind _ _ none); [|intros ?; apply Hmark].
  destruct phase; cbn [run_phase]; [|apply steps_storage|apply steps_image|apply steps_configuration|..].
  - unfold execute_prepare, append_check. exec_step.
  - unfold execute_secure_boot. exec_step.
  - unfold execute_complete. exec_step.
Qed.

Lemma steps_failed F phase message : steps F (record_failed self phase message) none.
Proof. unfold record_failed, write_terminal_transaction, persist_failure_summary. exec_step. Qed.

(** ** Whole runs *)

(** What the job supervisor calls. *)
Inductive Call :=
| CStarted (job_id : Z)
| CPhase (phase : Phase)
| CFailed (phase : Phase) (message : string)
| CCancelled (phase : option Phase).

Definition call (c : Call) : X unit :=
  match c with
  | CStarted job_id => record_job_started job_id
  | CPhase phase => execute_phase_typed self phase
  | CFailed phase message => record_failed self phase message
  | CCancelled phase => record_cancelled self phase
  end.
Fixpoint calls (cs : list Call) (s : XState) : XState :=
  match cs with [] => s | c :: cs => calls cs (snd (call c s)) end.

Lemma calls_inv cs s : inv s → inv (calls cs s).
Proof.
  revert s. induction cs as [|c cs IH]; intros s Hi; [done|]. cbn [calls]. apply IH.
  destruct (call c s) as [r s'] eqn:E. cbn [snd].
  assert (steps [] (call c) none) as Hs
    by (destruct c; [by apply steps_modify|apply steps_phase|apply steps_failed|apply steps_failed]).
  by destruct (Hs s r s' Hi (Forall_nil_2 _) E).
Qed.

End proofs.

Section results.
Context {HL : LsblkDecoder} {HF : FindmntDecoder} {HJ : JsonCodec} {HX : ExecOs} {HB : BuildOs}.

(** ** Built executors *)

(** What [from_request] fixes. *)
Record built (request : NativeInstallRequest) (self : NativePhaseExecutor) (s : XState) : Prop := {
  bt_plan : ∃ plan, InstallerPlan.build_plan (nr_storage request) = Ok plan ∧ ex_plan self = with_pre_shrink plan;
  bt_execution : build_execution_plan (nr_execution request) = Ok (ex_execution self);
  bt_bootc : ex_bootc self = ei_bootc (nr_execution request);
  bt_source : planned_source_imgref (ep_bootc (ex_execution self)) = Ok (ex_source_imgref self);
  bt_log : xs_log s = [];
  bt_mounts : xs_mounts s = [];
  bt_steps : ts_partition_steps (xs_transaction s) = [];
}.

Lemma from_request_built request self s : from_request request = Ok (self, s) → built request self s.
Proof.
  unfold from_request. intros H. apply rbind_Ok in H as (plan & Hp & H). apply rbind_Ok in H as (ep & He & H).
  apply rbind_Ok in H as (src & Hs & H). apply rbind_Ok in H as ([] & _ & [= <- <-]). split; eauto.
Qed.

(** The size probe of a resize leaves the rest of the plan alone. *)
Lemma with_pre_shrink_same plan :
  pl_mode (with_pre_shrink plan) = pl_mode plan ∧ pl_disk (with_pre_shrink plan) = pl_disk plan
  ∧ pl_target_partition (with_pre_shrink plan) = pl_target_partition plan.
Proof.
  unfold with_pre_shrink. destruct (pl_resize_partition plan); [|done]. by destruct (String.eqb _ _).
Qed.

(** C3: whatever the supervisor calls and whatever the machine answers, no destructive
    request is made before its gates: no format without the disk guard, the fresh
    check of that very partition and the durable marker, no table change without
    the guard, the marker and a backup, no restore but from a backup that
    succeeded, no resize stage before the one it builds on, no image write without
    verified source, preflight, resources and marker. *)
Theorem executor_ordered request self s cs :
  from_request request = Ok (self, s) → ordered (mode self) (xs_log (calls self cs s)).
Proof.
  intros Hb%from_request_built. apply (inv_ordered self False (calls self cs s)), calls_inv; [done|].
  split; [rewrite (bt_log _ _ _ Hb); apply ordered_nil|done].
Qed.

(** The helper as [installer_stream.rs] runs it. *)
Definition streamed_helper (commands : list Event → HelperRequest → bool → Command) : Prop :=
  ∀ l r c, snd (run_command_with_input (commands l r c)) = Some (xo_helper l r c).

Lemma streamed_reports commands : streamed_helper commands → HelperReports.
Proof.
  intros Hc l r c code E. specialize (Hc l r c). rewrite E in Hc.
  destruct (run_command_with_input (commands l r c)) as [eff res] eqn:Er. cbn in Hc. subst res.
  by apply helper_success in Er.
Qed.

(** No partition step is ever reported as failed: a helper that exits with an
    error is already an error of the stream, which leaves before the step's
    outcome is recorded. *)
Theorem no_failed_step_reported commands request self s cs :
  streamed_helper commands → from_request request = Ok (self, s) →
  Forall (λ d, failed_step d = false) (ts_partition_steps (xs_transaction (calls self cs s))).
Proof.
  intros Hc%streamed_reports Hb%from_request_built. apply (inv_steps self True (calls self cs s)); [|done].
  apply calls_inv; [done|]. split; [rewrite (bt_log _ _ _ Hb); apply ordered_nil|].
  intros _. unfold no_failed_step. rewrite (bt_steps _ _ _ Hb). constructor.
Qed.

(** ** The guided modes *)

Lemma prepare_needs_target self phase target s r s' :
  pl_target_partition (ex_plan self) = None → prepare_btrfs_target self phase target s = (r, s') → r ≠ Ok tt.
Proof.
  intros Ht E ->. unfold prepare_btrfs_target, with_disk_lock in E.
  apply m_bind_inv in E as [(a & s1 & _ & E)|(e & _ & E)]; [|done].
  apply m_bind_inv in E as [(b & s2 & _ & E)|(e & _ & E)]; [|done].
  apply m_bind_inv in E as [(c & s3 & E3 & _)|(e & _ & E)]; [|done].
  unfold planned_target in E3. rewrite Ht in E3. discriminate.
Qed.

(** C40: an installation into free space or into the space of a shrunk Windows
    partition can not succeed: the plan of these modes names no target partition,
    and after the partition has been created the last step asks the plan for it. *)
Theorem guided_modes_never_succeed request self s0 phase s r s' :
  from_request request = Ok (self, s0) → mode self = "free_space" ∨ mode self = "resize_ntfs" →
  execute_storage self phase s = (r, s') → r ≠ Ok tt.
Proof.
  intros Hb%from_request_built Hm E ->. destruct (bt_plan _ _ _ Hb) as (plan & Hp & Hplan).
  destruct (with_pre_shrink_same plan) as (Em & _ & Et).
  apply build_plan_inv in Hp as (t & rz & f & _ & _ & Ht & _ & _ & _ & Hmode & Htp & _).
  assert (pl_target_partition (ex_plan self) = None) as Hnone.
  { rewrite Hplan, Et, Htp. apply plan_target_partition_Ok in Ht. rewrite <-Hmode, <-Em, <-Hplan in Ht. unfold mode in Hm.
    destruct Ht as [(Ha & _)|[(Ha & _)|(_ & _ & ->)]]; [..|done]; rewrite Ha in Hm; by destruct Hm. }
  unfold execute_storage in E. apply m_bind_inv in E as [(a & s1 & _ & E)|(e & _ & E)]; [|done].
  apply m_bind_inv in E as [(b & s2 & _ & E)|(e & _ & E)]; [|done].
  destruct (String.eqb_spec (mode self) "wipe") as [Ew|_]; [rewrite Ew in Hm; by destruct Hm|].
  apply m_bind_inv in E as [(target & s3 & _ & E)|(e & _ & E)]; [|done].
  apply m_bind_inv in E as [([] & s4 & E4 & _)|(e & _ & E)]; [|done].
  by apply prepare_needs_target in E4.
Qed.

(** ** The image source *)

(** A registry source whose digest everything on the medium agrees on: the
    environment, the release metadata, the signature bundle, and the metadata's
    digest of that bundle. *)
Definition pinned (l : list Event) (source : string) : Prop :=
  ∃ name digest metadata bundle raw sha,
    let metadata_path := unwrap_or (xo_env "KYTH_SOURCE_METADATA") "/usr/share/kyth/image-source.json" in
    let bundle_path := unwrap_or (xo_env "KYTH_SOURCE_SIGNATURE") "/usr/share/kyth/image.sig.bundle.json" in
    source = name +:+ "@" +:+ digest ∧ is_sha256_digest digest = true
    ∧ (∃ pin, xo_env "KYTH_SOURCE_DIGEST" = Some pin ∧ trim pin = digest)
    ∧ read_json_file l metadata_path = Ok metadata ∧ field as_str "release_digest" metadata = Some digest
    ∧ xo_read l bundle_path = Ok raw ∧ json_decode raw = Ok bundle ∧ field as_str "digest" bundle = Some digest
    ∧ sha256_file_hex l bundle_path = Ok sha ∧ field as_str "signature_digest" metadata = Some ("sha256:" +:+ sha).

Lemma digest_of_Some source digest : digest_of source = Some digest → ∃ name, source = name +:+ "@" +:+ digest.
Proof.
  unfold digest_of. destruct (rev (split_char "@" source)) as [|d [|d' ds]] eqn:E; [done..|]. intros [= ->].
  apply (f_equal (@rev string)) in E. rewrite rev_involutive in E. cbn in E.
  assert (last (split_char "@" source) = Some digest) as Hl by (rewrite E; by rewrite last_snoc).
  destruct (split_char_last _ _ _ Hl) as [->|[a ->]]; [|by exists a]. exfalso.
  rewrite split_char_single in E; [|eapply split_char_piece; rewrite E; apply elem_of_app; right; by left].
  apply (f_equal length) in E. rewrite !length_app in E. cbn in E. lia.
Qed.

Lemma docker_source_verdict_pinned l source : docker_source_verdict l source = Ok tt → pinned l source.
Proof.
  unfold docker_source_verdict. cbn zeta. intros H. apply rbind_Ok in H as (digest & Hd%ok_or_Ok & H).
  apply digest_of_Some in Hd as [name ->]. guard_inv H as Hsha. guard_inv H as Henv.
  apply rbind_Ok in H as (metadata & Hm%map_err_Ok & H). guard_inv H as Hschema. guard_inv H as Hrel.
  apply rbind_Ok in H as (raw & Hraw%map_err_Ok & H). apply rbind_Ok in H as (bundle & Hb%map_err_Ok & H). guard_inv H as Hbd.
  apply rbind_Ok in H as (sha & Hs%map_err_Ok & H). guard_inv H as Hsig. clear H.
  apply negb_false_iff in Hsha, Henv, Hrel, Hbd, Hsig. apply bool_decide_eq_true in Hrel, Hbd, Hsig. apply String.eqb_eq in Henv.
  exists name, digest, metadata, bundle, raw, sha. split_and!; try done.
  destruct (xo_env "KYTH_SOURCE_DIGEST") as [pin|]; [by exists pin|].
  exfalso. rewrite <-Henv in Hsha. discriminate.
Qed.

(** The normalised source reference carries no white space. *)
Lemma source_reference_trim value source : source_reference value = Ok source → trim source = source.
Proof.
  unfold source_reference, safe_reference. cbn zeta. intros H. apply rbind_Ok in H as (v & Hv & H).
  guard_inv Hv as H1. guard_inv Hv as H2. injection Hv as <-. apply negb_false_iff in H2. injection H as <-.
  case_match; [apply trim_idemp|].
  apply (trim_str_all reference_byte); [repeat constructor|repeat constructor|]. rewrite str_all_app. by rewrite H2.
Qed.

Lemma bootc_source i p :
  build_bootc_plan i = Ok p →
  ∃ source, argument_after "--source-imgref" (bp_argv p) = Some source ∧ source_reference (bi_source_imgref i) = Ok source.
Proof.
  unfold build_bootc_plan. cbn zeta. intros H. guard_inv H as Hsub. apply rbind_Ok in H as (source & Hs & H).
  apply rbind_Ok in H as (tref & _ & H). guard_inv H as Henc. guard_inv H as Hack.
  apply rbind_Ok in H as (target & Htarget & H). apply rbind_Ok in H as (opts & Hopts & H). injection H as <-.
  exists source. split; [|done]. cbn [bp_argv app argument_after]. apply negb_false_iff in Hsub.
  apply str_in_cons in Hsub as [->|[->|?]%str_in_cons]; done.
Qed.

(** C6: what bootc is told to install is what was verified: once the check before the
    image write has passed, the plan the helper builds from the executor's request
    names exactly the source the check saw, and that source is an embedded image
    whose status is verified, a local store the check leaves to the fetch, or a
    registry reference pinned by digest to this medium's release. *)
Theorem installed_source_verified request self s l :
  from_request request = Ok (self, s) → source_verdict self l = Ok tt →
  ∃ p source, build_bootc_plan (ex_bootc self) = Ok p ∧ argument_after "--source-imgref" (bp_argv p) = Some source
    ∧ ((starts_with "oci:" source = true ∧ field as_bool "verified" (xo_source_status source (ex_target_imgref self)) = Some true)
       ∨ starts_with "containers-storage:" source = true ∨ starts_with "ostree:" source = true
       ∨ pinned l source).
Proof.
  intros Hb%from_request_built Hv. pose proof (build_execution_plan_Ok _ _ (bt_execution _ _ _ Hb)) as Hp.
  rewrite <-(bt_bootc _ _ _ Hb) in Hp. exists (ep_bootc (ex_execution self)), (ex_source_imgref self). split; [done|].
  destruct (bootc_source _ _ Hp) as (source & Harg & Hsrc). pose proof (bt_source _ _ _ Hb) as Hpl.
  unfold planned_source_imgref in Hpl. rewrite Harg in Hpl |- *. destruct (is_empty source); [done|]. injection Hpl as Hpl.
  split; [by rewrite Hpl|]. apply source_reference_trim in Hsrc. unfold source_verdict in Hv. rewrite <-Hpl in Hv |- *. rewrite Hsrc in Hv. cbn zeta in Hv.
  destruct (starts_with "oci:" source) eqn:Eoci.
  { left. guard_inv Hv as H. split; [done|]. destruct (field as_bool _ _) as [[]|]; done. }
  right. destruct (_ || _) eqn:Ed in Hv; [by right; right; apply docker_source_verdict_pinned|].
  apply orb_false_iff in Ed as [Ed Ex]. apply negb_false_iff in Ex. unfold EXPLICIT_TRANSPORTS in Ex. cbn [existsb] in Ex.
  rewrite Ed, Eoci in Ex. destruct (starts_with "containers-storage:" source); [by left|].
  destruct (starts_with "ostree:" source); [by right; left|done].
Qed.

(** ** Undoing a table change *)

Definition exited_zero (o : result (option Z)) : bool :=
  match o with Ok code => bool_decide (code = Some 0) | Err _ => false end.
Lemma exited_zero_true o : exited_zero o = true ↔ o = Ok (Some 0).
Proof. destruct o; cbn; [rewrite bool_decide_eq_true|]; naive_solver. Qed.

(** A request that is no partition step adds one event, and succeeds with exit
    status 0. *)
Lemma disk_helper_event self phase c op s :
  step_kind op = None →
  ∃ r o, disk_helper self phase c op s = (r, set_log (xs_log s ++ [Helper (HDisk op) c o]) s)
    ∧ is_ok r = exited_zero o.
Proof.
  intros Hk. unfold disk_helper, stepped. rewrite Hk. unfold run_helper, m_bind, m_ret, m_lift, asks, emit. cbn.
  set (o := xo_helper _ _ _). destruct o as [code|e] eqn:Eo; cbn; [|by exists (Err (display (Execution phase e))), (Err e)].
  destruct (bool_decide (code = Some 0)) eqn:Hc; cbn; eexists _, (Ok code); (split; [reflexivity|]); cbn; by rewrite Hc.
Qed.

(** C4: a guarded change of the partition table runs only on a guarded disk whose
    table was backed up, and when it fails at any point the same backup is
    restored at once; only when that fails too, the backup is kept. *)
Theorem failed_change_restored {A} self phase (body : X A) s r s' :
  guarded_table_mutation self phase body s = (r, s') →
  (∃ e dropped, r = Err e ∧ xs_log s' = xs_log s ++ dropped ∧
     (dropped = [] ∨ dropped = [Passed GuardPassed] ∨
      ∃ path o, exited_zero o = false ∧ dropped = [Passed GuardPassed; Helper (HDisk (BackupTable (disk self) path)) false o]))
  ∨ ∃ dir s1 s2 rb, let path := join_path dir "partition-table.backup" in
      xs_log s1 = xs_log s ++ [Passed GuardPassed; Helper (HDisk (BackupTable (disk self) path)) false (Ok (Some 0))]
      ∧ body s1 = (rb, s2)
      ∧ match rb with
        | Ok v => r = Ok v ∧ s' = s2
        | Err _ => is_ok r = false ∧ ∃ o,
            xs_log s' = xs_log s2 ++ Helper (HDisk (RestoreTable (disk self) path)) false o
                                     :: (if exited_zero o then [] else [Kept dir])
        end.
Proof.
  unfold guarded_table_mutation, with_disk_lock. intros E.
  apply m_bind_inv in E as [(? & s1 & E1 & E)|(e & E1 & ->)]; injection E1 as E1 <-;
    [|left; exists e, []; rewrite app_nil_r; auto].
  apply m_bind_inv in E as [(? & s1 & E2 & E)|(e & E2 & ->)].
  2:{ unfold PhaseExecutor.validate_target_disk in E2. apply m_bind_inv in E2 as [(? & s1 & _ & E2)|(? & E2 & _)]; [done|].
      injection E2 as _ <-. left. exists e, []. rewrite app_nil_r. auto. }
  unfold PhaseExecutor.validate_target_disk in E2. apply m_bind_inv in E2 as [(? & s2 & Eg & E2)|(? & _ & E2)]; [|done].
  injection Eg as _ <-. injection E2 as _ <-.
  apply m_bind_inv in E as [(dir & s2 & E3 & E)|(e & E3 & ->)]; injection E3 as E3 <-.
  2:{ left. exists e, [Passed GuardPassed]. auto. }
  cbn zeta in E. set (path := join_path dir "partition-table.backup") in E.
  match type of E with m_bind _ _ ?s = _ => destruct (disk_helper_event self phase false (BackupTable (disk self) path) s eq_refl)
    as (rb & o & Eb & Ho) end.
  apply m_bind_inv in E as [([] & s2 & E4 & E)|(e & E4 & ->)]; rewrite Eb in E4; injection E4 as E4 <-; subst rb.
  2:{ left. exists e, [Passed GuardPassed; Helper (HDisk (BackupTable (disk self) path)) false o].
      split; [done|]. split; [cbn; by rewrite <-app_assoc|]. right. right. by exists path, o. }
  right. symmetry in Ho. apply exited_zero_true in Ho as ->.
  match type of E with m_bind _ _ ?s = _ => exists dir, s end. apply m_bind_inv in E as [(rb & s2 & E5 & E)|(e & E5 & _)].
  2:{ unfold attempt in E5. by destruct (body _). }
  unfold attempt in E5. destruct (body _) as [rb' s2'] eqn:Ebody in E5. injection E5 as -> ->. exists s2, rb.
  split; [cbn; by rewrite <-app_assoc|]. split; [done|]. destruct rb as [v|be]; [by injection E as <- <-|].
  destruct (disk_helper_event self phase false (RestoreTable (disk self) path) s2 eq_refl) as (rr & o & Er & Hr).
  unfold m_bind at 1, attempt in E. rewrite Er in E. destruct rr as [[]|re].
  - injection E as <- <-. split; [done|]. exists o. by rewrite <-Hr.
  - injection E as <- <-. split; [done|]. exists o. rewrite <-Hr. cbn. by rewrite <-app_assoc.
Qed.
End results.

(** * Mounts *)

(** What an event does to a mount point: a mount that succeeded, an unmount that
    was attempted. *)
Definition mount_effect (m : string) (now : bool) (e : Event) : bool :=
  match e with
  | Helper (HDisk (MountFilesystem _ mountpoint _ _)) _ o => String.eqb mountpoint m && exited_zero o || now
  | Helper (HDisk (UnmountFilesystem mountpoint _ _)) _ _ => negb (String.eqb mountpoint m) && now
  | _ => now
  end.
(** Mounted by the executor and not unmounted since. *)
Definition mounted (l : list Event) (m : string) : bool := fold_left (mount_effect m) l false.

Lemma mounted_snoc l e m : mounted (l ++ [e]) m = mount_effect m (mounted l m) e.
Proof. unfold mounted. by rewrite fold_left_app. Qed.

Definition mounts_at (op : DiskOperationInput) : option string :=
  match op with MountFilesystem _ mountpoint _ _ => Some mountpoint | _ => None end.

Lemma release_other path stack m : m ∈ stack → path ≠ m → m ∈ Probes.release path stack.
Proof.
  intros Hm Hne. unfold Probes.release. rewrite elem_of_rev. apply elem_of_rev in Hm. induction (rev stack) as [|x l IH]; cbn; [done|].
  apply elem_of_cons in Hm as [->|Hm]; destruct (String.eqb_spec x path) as [->|Hx]; [done|by left|done|right; auto].
Qed.

Section mounts.
Context {HL : LsblkDecoder} {HF : FindmntDecoder} {HJ : JsonCodec} {HX : ExecOs}.
Context (self : NativePhaseExecutor).

(** Every mount point in use is in the registry. *)
Definition registered (s : XState) : Prop := ∀ m, mounted (xs_log s) m = true → m ∈ xs_mounts s.

Definition keeps {A} (c : X A) : Prop := ∀ s r s', registered s → c s = (r, s') → registered s'.

Lemma keeps_bind {A B} (c : X A) (k : A → X B) : keeps c → (∀ a, keeps (k a)) → keeps (m_bind c k).
Proof.
  intros Hc Hk s r s' Hs E. apply m_bind_inv in E as [(a & s1 & E1 & E2)|(e & E1 & _)]; [|by eapply Hc].
  eapply Hk; [|exact E2]. by eapply Hc.
Qed.
Lemma keeps_pure {A} (f : XState → result A) : keeps (λ s, (f s, s)).
Proof. by intros s r s' Hs [= _ <-]. Qed.
Lemma keeps_modify f : (∀ s, registered s → registered (f s)) → keeps (modify f).
Proof. intros Hf s r s' Hs [= _ <-]. auto. Qed.
Lemma keeps_attempt {A} (c : X A) : keeps c → keeps (attempt c).
Proof. intros Hc s r s' Hs E. unfold attempt in E. destruct (c s) as [r0 s0] eqn:E0. injection E as _ <-. by eapply Hc. Qed.
Lemma keeps_map_error {A} f (c : X A) : keeps c → keeps (map_error f c).
Proof. intros Hc s r s' Hs E. unfold map_error in E. destruct (c s) as [r0 s0] eqn:E0. injection E as _ <-. by eapply Hc. Qed.
Lemma keeps_emit e : (∀ m now, mount_effect m now e = true → now = true) → keeps (emit e).
Proof. intros He s r s' Hs [= _ <-] m. cbn [set_log xs_log xs_mounts]. rewrite mounted_snoc. intros ?%He. by apply Hs. Qed.

Lemma keeps_run_helper phase request c :
  (∀ op, request = HDisk op → mounts_at op = None) → keeps (run_helper phase request c).
Proof.
  intros Hn. apply keeps_bind; [apply keeps_pure|intros o]. apply keeps_bind; [|intros; apply keeps_pure].
  apply keeps_emit. intros m now. destruct request as [op| | | |]; cbn; try done. specialize (Hn op eq_refl).
  destruct op; try done. by intros [_ ?]%andb_true_iff.
Qed.

Create HintDb keeps.
Ltac keeps_step :=
  cbn beta zeta;
  match goal with
  | |- keeps (m_ret _) => apply keeps_pure
  | |- keeps (m_lift _) => apply keeps_pure
  | |- keeps (asks _) => apply keeps_pure
  | |- keeps (answer _) => apply keeps_pure
  | |- keeps (fail_with _ _) => apply keeps_pure
  | |- keeps (attempt _) => apply keeps_attempt; keeps_step
  | |- keeps (in_phase _ _) => apply keeps_map_error; keeps_step
  | |- keeps (modify _) => by apply keeps_modify
  | |- keeps (emit _) => by apply keeps_emit
  | |- keeps (run_helper _ _ _) => by (apply keeps_run_helper; intros ? [= <-])
  | |- keeps (if ?b then _ else _) => destruct b; keeps_step
  | |- keeps (match ?x with _ => _ end) => destruct x; keeps_step
  | |- keeps (m_bind _ _) => first [solve [eauto with keeps] | apply keeps_bind; [keeps_step|intros ?; keeps_step]]
  | |- _ => solve [eauto with keeps]
  end.

Lemma keeps_marker : keeps (write_marker self).
Proof. unfold write_marker. keeps_step. Qed.
#[local] Hint Resolve keeps_marker : keeps.
Lemma keeps_transaction status phase lifecycle message : keeps (write_transaction self status phase lifecycle message).
Proof. unfold write_transaction. keeps_step. Qed.
Lemma keeps_check phase check : keeps (append_check_for_phase self phase check).
Proof. unfold append_check_for_phase. keeps_step. Qed.
Lemma keeps_partition_step kind status target phase : keeps (append_partition_step self kind status target phase).
Proof. unfold append_partition_step. keeps_step. Qed.
#[local] Hint Resolve keeps_transaction keeps_check keeps_partition_step : keeps.

Lemma keeps_stepped {A} phase kind target run (value : A) failure :
  keeps run → keeps (stepped self phase kind target run value failure).
Proof. intros Hr. unfold stepped. keeps_step. Qed.
Lemma keeps_disk_helper phase c op : mounts_at op = None → keeps (disk_helper self phase c op).
Proof. intros Hn. apply keeps_stepped, keeps_run_helper. by intros ? [= <-]. Qed.
Lemma keeps_stream phase request step :
  (∀ op, request = HDisk op → mounts_at op = None) → keeps (execute_stream_helper self phase request step).
Proof. intros Hn. by apply keeps_stepped, keeps_run_helper. Qed.

(** A mount and the registration that follows it. *)
Lemma keeps_mount {A} phase device m options bind (k : X A) :
  keeps k →
  keeps (m_bind (execute_disk_helper self phase (MountFilesystem device m options bind))
           (λ _, m_bind (register_mount m) (λ _, k))).
Proof.
  intros Hk s r s' Hs E.
  destruct (disk_helper_event self phase true (MountFilesystem device m options bind) s eq_refl) as (r1 & o & E1 & Hr1).
  unfold m_bind at 1, execute_disk_helper in E. rewrite E1 in E. destruct r1 as [[]|e].
  - eapply Hk; [|exact E]. intros m'. cbn [set_log set_mounts xs_log xs_mounts]. rewrite mounted_snoc. cbn [mount_effect]. rewrite <-Hr1. unfold register.
    intros Hm. apply orb_true_iff in Hm as [[Hm _]%andb_true_iff|Hm%Hs].
    + apply String.eqb_eq in Hm as <-. destruct (str_in m _) eqn:Em; [by apply str_in_true|apply elem_of_app; right; by left].
    + destruct (str_in m _); [done|apply elem_of_app; by left].
  - injection E as <- <-. intros m'. cbn [set_log xs_log xs_mounts]. rewrite mounted_snoc. cbn [mount_effect]. rewrite <-Hr1, andb_false_r. apply Hs.
Qed.
Lemma keeps_last_mount phase device m options bind :
  keeps (m_bind (execute_disk_helper self phase (MountFilesystem device m options bind)) (λ _, register_mount m)).
Proof.
  intros s r s' Hs E. eapply (keeps_mount phase device m options bind (m_ret tt)); [keeps_step|exact Hs|].
  unfold m_bind in *. destruct (execute_disk_helper _ _ _ s) as [[a|e] s1]; exact E.
Qed.

(** An unmount and the release that follows it. *)
Lemma keeps_unmount {A} phase m recursive lazy (k : result unit → X A) :
  (∀ r, keeps (k r)) →
  keeps (m_bind (attempt (disk_helper self phase false (UnmountFilesystem m recursive lazy)))
           (λ r, m_bind (release_mount m) (λ _, k r))).
Proof.
  intros Hk s r s' Hs E.
  destruct (disk_helper_event self phase false (UnmountFilesystem m recursive lazy) s eq_refl) as (r1 & o & E1 & _).
  unfold m_bind at 1, attempt in E. rewrite E1 in E. eapply Hk; [|exact E].
  intros m'. cbn [set_log set_mounts xs_log xs_mounts]. rewrite mounted_snoc. cbn [mount_effect].
  intros [Hne Hm]%andb_true_iff. apply Hs in Hm. apply negb_true_iff, String.eqb_neq in Hne.
  by apply release_other.
Qed.

(** [cleanup_mounts] tries every registered mount once, the latest first, whatever
    fails, and leaves the registry empty. *)
Lemma unmount_all_events phase paths first s :
  ∃ r os, unmount_all self phase paths first s =
      (r, set_log (xs_log s ++ zip_with (λ p o, Helper (HDisk (UnmountFilesystem p true true)) false o) paths os) s)
    ∧ length os = length paths ∧ (is_ok r = true ↔ first = None ∧ Forall (λ o, exited_zero o = true) os).
Proof.
  revert first s. induction paths as [|p paths IH]; intros first s.
  - exists (match first with Some e => Err e | None => Ok tt end), []. cbn. rewrite app_nil_r. split; [by destruct s|].
    split; [done|]. destruct first; naive_solver.
  - destruct (disk_helper_event self phase false (UnmountFilesystem p true true) s eq_refl) as (r1 & o & E1 & Hr1).
    set (s1 := set_log _ s) in E1.
    destruct (IH (match r1, first with Err e, None => Some e | _, _ => first end) s1) as (r & os & E2 & Hlen & Hr).
    exists r, (o :: os). split; [|split; [cbn; lia|]].
    + cbn [unmount_all]. unfold m_bind at 1, attempt. rewrite E1, E2. subst s1. cbn. by rewrite <-app_assoc.
    + rewrite Hr, Forall_cons, <-Hr1. destruct r1, first; cbn; naive_solver.
Qed.

Lemma unmounts_spec paths os l m :
  length os = length paths →
  mounted (l ++ zip_with (λ p o, Helper (HDisk (UnmountFilesystem p true true)) false o) paths os) m
  = negb (bool_decide (m ∈ paths)) && mounted l m.
Proof.
  revert os l. induction paths as [|p paths IH]; intros [|o os] l; cbn [length zip_with]; try done.
  - rewrite app_nil_r. intros _. by rewrite bool_decide_eq_false_2 by apply not_elem_of_nil.
  - intros [= Hlen]. rewrite cons_middle, app_assoc, (IH os) by done. rewrite mounted_snoc. cbn [mount_effect].
    destruct (String.eqb_spec p m) as [->|Hne]; cbn [negb andb].
    + rewrite andb_false_r. by rewrite bool_decide_eq_true_2 by left.
    + f_equal. f_equal. apply bool_decide_ext. rewrite elem_of_cons. naive_solver.
Qed.

Lemma keeps_cleanup phase s r s' :
  registered s → cleanup_mounts self phase s = (r, s') → xs_mounts s' = [] ∧ ∀ m, mounted (xs_log s') m = false.
Proof.
  intros Hs E. unfold cleanup_mounts in E. unfold m_bind, asks, modify in E. cbn [cleanup_order fst snd] in E.
  destruct (unmount_all_events phase (rev (xs_mounts s)) None (set_mounts [] s)) as (r1 & os & E1 & Hlen & _).
  unfold Probes.clear in E. rewrite E1 in E. injection E as <- <-. split; [done|]. intros m. cbn [set_log xs_log set_mounts].
  rewrite unmounts_spec by done. case_bool_decide as Hm; [done|]. cbn [negb andb]. rewrite elem_of_rev in Hm.
  destruct (mounted (xs_log s) m) eqn:Em; [|done]. by apply Hs in Em.
Qed.

#[local] Hint Extern 1 (keeps (execute_disk_helper _ _ _)) => by (unfold execute_disk_helper; apply keeps_disk_helper) : keeps.
#[local] Hint Extern 1 (keeps (disk_helper _ _ _ _)) => by apply keeps_disk_helper : keeps.
#[local] Hint Extern 1 (keeps (execute_stream_helper _ _ _ _)) => by (apply keeps_stream; intros ? [=]) : keeps.

(** A mount is walked together with its registration. *)
Ltac mount_step :=
  lazymatch goal with
  | |- keeps (m_bind _ _) =>
      first [apply keeps_mount; mount_step | apply keeps_last_mount | apply keeps_unmount; intros ?; mount_step
            | solve [eauto with keeps] | apply keeps_bind; [mount_step|intros ?; cbn beta zeta; mount_step]]
  | |- keeps (if ?b then _ else _) => destruct b; mount_step
  | |- keeps (match ?x with _ => _ end) => destruct x; mount_step
  | |- _ => keeps_step
  end.

Lemma keeps_probe {A} (f : list Event → result A) : keeps (answer f).
Proof. apply keeps_pure. Qed.
#[local] Hint Extern 1 (keeps (disk_snapshot _ _)) => apply keeps_probe : keeps.
#[local] Hint Extern 1 (keeps (disk_sector_size _ _)) => apply keeps_probe : keeps.

Lemma keeps_validate phase : keeps (PhaseExecutor.validate_target_disk self phase).
Proof. unfold PhaseExecutor.validate_target_disk. keeps_step. Qed.
Lemma keeps_record phase op st : keeps (record_journal phase op st).
Proof. unfold record_journal. keeps_step. Qed.
Lemma keeps_preflight phase : keeps (check_storage_preflight self phase).
Proof. unfold check_storage_preflight, check_tpm_preflight. keeps_step. Qed.
Lemma keeps_open phase : keeps (open_durable_journal self phase).
Proof. unfold open_durable_journal. keeps_step. Qed.
#[local] Hint Resolve keeps_validate keeps_record keeps_preflight keeps_open : keeps.
Lemma keeps_esp phase : keeps (ensure_esp_journal self phase).
Proof. unfold ensure_esp_journal, find_esp. mount_step. Qed.
Lemma keeps_gate phase snapshot sector requested : keeps (gate_target self phase snapshot sector requested).
Proof. unfold gate_target. mount_step. Qed.
#[local] Hint Resolve keeps_esp keeps_gate : keeps.

Lemma keeps_create_target phase start end_ sector : keeps (create_target_partition self phase start end_ sector).
Proof. unfold create_target_partition, create_bios_boot. mount_step. Qed.
#[local] Hint Resolve keeps_create_target : keeps.
Lemma keeps_resize phase : keeps (resize_ntfs_target self phase).
Proof.
  unfold resize_ntfs_target, ntfs_shrink_resume_window, journal_completed, shrink_ntfs, NTFS_STAGES, move_boundary.
  cbn [ntfs_stages]. mount_step.
Qed.
Lemma keeps_guarded {A} phase (body : X A) : keeps body → keeps (guarded_table_mutation self phase body).
Proof. intros Hb. unfold guarded_table_mutation, with_disk_lock. mount_step. Qed.
#[local] Hint Resolve keeps_resize keeps_guarded : keeps.
Lemma keeps_mount_efi phase : keeps (mount_efi self phase).
Proof. unfold mount_efi, efi_mount_operation. do 5 (apply keeps_bind; [keeps_step|intros ?]). case_match; mount_step. Qed.
#[local] Hint Resolve keeps_mount_efi : keeps.
Lemma keeps_prepare phase target : keeps (prepare_btrfs_target self phase target).
Proof. unfold prepare_btrfs_target, with_disk_lock, planned_target, create_subvolumes. mount_step. Qed.
#[local] Hint Resolve keeps_prepare : keeps.

Lemma keeps_storage phase : keeps (execute_storage self phase).
Proof. unfold execute_storage, replace_target, use_free_region, table_change, planned_target. mount_step. Qed.
Lemma keeps_image phase : keeps (execute_image self phase).
Proof.
  unfold execute_image, with_disk_lock, check_image_resources, verify_install_source, warn_if_boot_entries_lost, mount_wipe_root,
    luks_mapper_open. mount_step.
Qed.
Lemma keeps_configure_step phase step : keeps (configure_step phase step).
Proof. unfold configure_step, configure_raw. mount_step. Qed.
Lemma keeps_fixed phase operation request :
  (∀ op, request ≠ HDisk op) → keeps (fixed_helper phase operation request).
Proof. intros Hn. unfold fixed_helper. apply keeps_bind; [apply keeps_run_helper; by intros op ?%Hn|intros ?]. mount_step. Qed.
Lemma keeps_append_checks phase checks : keeps (append_checks self phase checks).
Proof. induction checks as [|c checks IH]; cbn [append_checks]; mount_step. Qed.
#[local] Hint Resolve keeps_configure_step keeps_append_checks : keeps.
#[local] Hint Extern 1 (keeps (fixed_helper _ _ _)) => by apply keeps_fixed : keeps.
#[local] Hint Extern 1 (keeps (execute_fixed_helper _ _ _)) => by apply keeps_fixed : keeps.
#[local] Hint Extern 1 (keeps (configure_raw _)) => unfold configure_raw; keeps_step : keeps.
Lemma keeps_configuration phase : keeps (execute_configuration self phase).
Proof.
  unfold execute_configuration, configure_body, configure_mounts, with_disk_lock. mount_step.
Qed.
#[local] Hint Resolve keeps_storage keeps_image keeps_configuration : keeps.

Lemma registered_cleanup phase : keeps (cleanup_mounts self phase).
Proof. intros s r s' Hs E m. destruct (keeps_cleanup phase s r s' Hs E) as [_ Hm]. by rewrite Hm. Qed.
#[local] Hint Resolve registered_cleanup : keeps.

Lemma keeps_run_phase phase : keeps (run_phase self phase).
Proof.
  destruct phase; cbn [run_phase]; unfold execute_prepare, append_check, execute_secure_boot, execute_complete; mount_step.
Qed.
#[local] Hint Resolve keeps_run_phase : keeps.

Lemma keeps_call c : keeps (call self c).
Proof.
  assert (∀ phase message, keeps (record_failed self phase message)) as Hf.
  { intros. unfold record_failed, write_terminal_transaction, persist_failure_summary. mount_step. }
  destruct c as [job_id|phase|phase message|phase]; [by apply keeps_modify| |apply Hf|apply Hf]. cbn [call]. unfold execute_phase_typed, mark_status.
  mount_step.
Qed.
Lemma keeps_calls cs s : registered s → registered (calls self cs s).
Proof.
  revert s. induction cs as [|c cs IH]; intros s Hs; [done|]. cbn [calls]. apply IH.
  destruct (call self c s) as [r s'] eqn:E. by eapply keeps_call.
Qed.
End mounts.

Section mount_results.
Context {HL : LsblkDecoder} {HF : FindmntDecoder} {HJ : JsonCodec} {HX : ExecOs} {HB : BuildOs}.

(** The last word on mounts: a failure or a cancellation was recorded, or the last
    phase succeeded. *)
Definition wound_up (self : NativePhaseExecutor) (s : XState) (c : Call) : Prop :=
  match c with
  | CFailed _ _ | CCancelled _ => True
  | CPhase Complete => is_ok (fst (call self c s)) = true
  | CPhase _ | CStarted _ => False
  end.

Lemma calls_snoc self cs c s : calls self (cs ++ [c]) s = snd (call self c (calls self cs s)).
Proof. revert s. induction cs as [|c' cs IH]; intros s; [done|]. apply IH. Qed.

Lemma write_keeps_mounted self status phase lifecycle message s r s' :
  write_transaction self status phase lifecycle message s = (r, s') → ∀ m, mounted (xs_log s') m = mounted (xs_log s) m.
Proof.
  unfold write_transaction, write_marker, m_bind, answer, asks, modify, emit. destruct (map_err _ _) as [now|e]; [|by intros [= _ <-]].
  cbn [set_transaction xs_log xs_transaction]. destruct (xo_mark _ _ _); intros [= _ <-] m; cbn [set_log set_transaction xs_log];
    by rewrite ?mounted_snoc.
Qed.

Lemma record_failed_unmounts self phase message s r s' :
  registered s → record_failed self phase message s = (r, s') → ∀ m, mounted (xs_log s') m = false.
Proof.
  intros Hs E m. unfold record_failed, write_terminal_transaction, m_bind, attempt in E.
  destruct (cleanup_mounts self phase s) as [r1 s1] eqn:E1. destruct (write_transaction _ _ _ _ _ s1) as [r2 s2] eqn:E2.
  apply keeps_cleanup in E1 as [_ Hm]; [|done]. pose proof (write_keeps_mounted _ _ _ _ _ _ _ _ E2 m) as H2.
  rewrite Hm in H2. unfold persist_failure_summary, m_bind, attempt, answer, emit in E. cbn in E.
  destruct (xo_summary _); injection E as _ <-; cbn [set_log xs_log]; by rewrite ?mounted_snoc.
Qed.

Lemma complete_unmounts self s r s' :
  registered s → execute_phase_typed self Complete s = (r, s') → is_ok r = true → ∀ m, mounted (xs_log s') m = false.
Proof.
  intros Hs E Hr m. unfold execute_phase_typed in E. apply m_bind_inv in E as [(c & s0 & E0 & E)|(e & _ & ->)]; [|done].
  injection E0 as _ <-. destruct c; [by injection E as <- <-|].
  apply m_bind_inv in E as [([] & s0 & [= <-] & E)|(e & _ & ->)]; [|done].
  apply m_bind_inv in E as [([] & s1 & E1 & E)|(e & _ & ->)]; [|done]. injection E as _ <-.
  cbn [run_phase] in E1. unfold execute_complete, in_phase, map_error in E1.
  destruct (m_bind _ _ s) as [r2 s2] eqn:E2. destruct r2 as [[]|]; [|done]. injection E1 as <-.
  apply m_bind_inv in E2 as [([] & s3 & E3 & E2)|(e & _ & E2)]; [|done].
  apply keeps_cleanup in E3 as [_ Hm]; [|done]. rewrite (write_keeps_mounted _ _ _ _ _ _ _ _ E2). apply Hm.
Qed.

(** C5: nothing the executor mounts outlives the job: whatever was called before and
    whatever the machine answered, once a failure or a cancellation is recorded, or
    the last phase has succeeded, every mount that succeeded has been followed by
    an attempt to unmount it. *)
Theorem no_mount_left request self s cs c m :
  from_request request = Ok (self, s) → wound_up self (calls self cs s) c →
  mounted (xs_log (calls self (cs ++ [c]) s)) m = false.
Proof.
  intros Hb%from_request_built Hw. rewrite calls_snoc.
  assert (registered (calls self cs s)) as Hreg.
  { apply keeps_calls. intros x. rewrite (bt_log _ _ _ Hb). done. }
  destruct (call self c (calls self cs s)) as [r s'] eqn:E. cbn [snd].
  destruct c as [job_id|phase|phase message|phase]; [done| |by eapply record_failed_unmounts..].
  destruct phase; try done. cbn [wound_up] in Hw. rewrite E in Hw. by eapply complete_unmounts.
Qed.
End mount_results.

(** * Resuming an interrupted shrink *)

Section resume.
Context {HL : LsblkDecoder} (self : NativePhaseExecutor).

(** C34: a completed shrink is resumed exactly when the space the plan takes from
    Windows, directly behind the partition as it is now, fits the disk's address
    range, is large enough, is still free, and the partition has the size recorded
    with the request; the window never touches the partition.  The check that the
    partition is larger than the target of the shrink refuses nothing: the target
    is computed from the size it is compared with. *)
Theorem resume_window_exact snapshot probe ss new_end old_end :
  0 <= pb_start_bytes probe → 0 <= pb_size_bytes probe → 0 <= ss → 0 <= pl_resize_bytes (ex_plan self) →
  pb_size_bytes probe + pl_resize_bytes (ex_plan self) <= u64_max →
  resume_window self snapshot probe ss = Ok (new_end, old_end) ↔
    new_end = pb_start_bytes probe + pb_size_bytes probe ∧ old_end = new_end + pl_resize_bytes (ex_plan self)
    ∧ old_end <= u64_max ∧ MIN_TARGET_BYTES <= pl_resize_bytes (ex_plan self)
    ∧ (∀ recorded, pl_pre_shrink_bytes (ex_plan self) = Some recorded → Z.abs (recorded - pb_size_bytes probe) <= ss)
    ∧ contains_free_region snapshot (disk self) new_end old_end ss = Ok true.
Proof.
  set (size := pb_size_bytes probe). set (start := pb_start_bytes probe). set (rb := pl_resize_bytes (ex_plan self)).
  intros Hstart Hsize Hss Hrb Hfit. unfold resume_window. cbn zeta. fold size start rb.
  assert (sat_add64 size rb = size + rb) as -> by (unfold sat_add64; lia).
  assert (checked_sub64 (size + rb) rb = Some size) as -> by (unfold checked_sub64; destruct (Z.leb_spec rb (size + rb)); [f_equal|]; lia).
  cbn [ok_or rbind]. assert (sat_add64 size ss <? size = false) as -> by (apply Z.ltb_ge; unfold sat_add64; lia).
  assert (match pl_pre_shrink_bytes (ex_plan self) with Some recorded => ss <? abs_diff recorded size | None => false end = false
    ↔ ∀ recorded, pl_pre_shrink_bytes (ex_plan self) = Some recorded → Z.abs (recorded - size) <= ss) as Hrec.
  { destruct (pl_pre_shrink_bytes _) as [rec|]; [|naive_solver]. unfold abs_diff. rewrite Z.ltb_ge. naive_solver. }
  destruct (match pl_pre_shrink_bytes _ with Some _ => _ | None => _ end); [split; [done|intros (_ & _ & _ & _ & ?%Hrec & _); done]|].
  cbn [rbind]. destruct (checked_add64 start size) as [ne|] eqn:Ene; cbn [ok_or rbind].
  2:{ split; [done|]. intros (-> & -> & Hmax & _). exfalso. cut (checked_add64 start size = Some (start + size)); [congruence|].
      apply checked_add64_Some. lia. }
  apply checked_add64_Some in Ene as [-> Hne]. destruct (checked_add64 start (size + rb)) as [oe|] eqn:Eoe; cbn [ok_or rbind].
  2:{ split; [done|]. intros (-> & -> & Hmax & _). exfalso. cut (checked_add64 start (size + rb) = Some (start + (size + rb))); [congruence|].
      apply checked_add64_Some. lia. }
  apply checked_add64_Some in Eoe as [-> Hoe].
  assert (0 < MIN_TARGET_BYTES) as Hmin by (unfold MIN_TARGET_BYTES; lia).
  destruct (Z.leb_spec (start + (size + rb)) (start + size)); [split; [done|lia]|].
  destruct (Z.ltb_spec (start + (size + rb) - (start + size)) MIN_TARGET_BYTES); [split; [done|lia]|]. cbn [rbind].
  replace (start + (size + rb)) with (start + size + rb) in * by lia.
  split.
  - intros H1. apply rbind_Ok in H1 as (b & Hf & H1). guard_inv H1 as Hb. injection H1 as <- <-.
    apply negb_false_iff in Hb as ->. split_and!; [done|done|lia|lia|by apply Hrec|done].
  - intros (-> & -> & _ & _ & _ & ->). done.
Qed.
End resume.

(** * A concrete machine *)

Definition printed (text : string) : result CommandOutput := Ok {| co_code := Some 0; co_stdout := text; co_utf8 := true |}.
Definition sector_runner : Runner := {| RustOs.run_command _ _ := printed "512" |}.
Definition verified_status : json := jobject [("kind", JString "embedded"); ("verified", JBool true)].

#[local] Instance sample_build : BuildOs := {|
  bo_runner := sector_runner; bo_env _ := None; bo_resolve _ := Some ["10.0.0.1"]; bo_connect _ := true;
  bo_source_status _ _ := verified_status; bo_transaction_id := "native-1-1" |}.

(** A helper that prints nothing and exits, and what its caller is told. *)
Definition exits (code : Z) : Command := Stream.started [turn 100 ReadEof (ExitedWith (Some code))].
Definition told (code : Z) : result (option Z) := unwrap_or (snd (run_command_with_input (exits code))) (Err "still running").

(** The helper fails on the requests of [broken]; the machine is otherwise
    obliging. *)
Definition sample_machine (broken : HelperRequest → bool) : ExecOs := {|
  xo_cancelled _ := false; xo_runner _ := sector_runner;
  xo_children _ := {| child_of _ := {| ch_spawn := Err "no child"; ch_cancel _ := false; ch_poll _ := WaitError "gone";
                                       ch_oversleep _ := 0%nat |} |};
  xo_helper _ r _ := told (if broken r then 1 else 0);
  xo_exists _ := true; xo_env _ := None; xo_read _ _ := Err "no such file"; xo_meminfo := None; xo_statvfs := None;
  xo_power := NoTree; xo_ac_online := true; xo_clock _ := Ok 1; xo_tempdir _ := Ok "/run/backup";
  xo_mark _ _ _ := Ok tt; xo_summary _ := Ok tt; xo_lock _ _ := Ok tt; xo_guard _ := sample_guard_probes;
  xo_open _ _ _ := Ok "/run/kyth-installer/journal.jsonl"; xo_record _ _ _ _ := Ok tt; xo_load _ _ := Ok [];
  xo_relocate _ _ _ := Ok tt; xo_deploy_root _ _ := Err "no deployment"; xo_configure _ _ := Ok tt; xo_assurance _ _ := Ok [];
  xo_source_status _ _ := verified_status; xo_pcrread _ _ := false;
  xo_mok _ := {| mo_certificate := false; mo_mokutil := false; mo_sb_state := Err "none"; mo_list_enrolled := Err "none";
                 mo_list_new := Err "none";
                 mo_import := {| mk_spawn := Err "none"; mk_write := Err "none"; mk_cancelled _ := false;
                                 mk_poll _ := MokExited (Some 0); mk_oversleep _ := 0%nat |} |} |}.

Definition embedded_os : RequestOs := {|
  rq_env name := if String.eqb name "KYTH_SOURCE_IMAGE" then Some "oci:/usr/share/kyth/image:latest" else None;
  rq_hasher := @rq_hasher plain_request_os; rq_disk_identity _ := (None, None, None); rq_manual _ := Err "unused" |}.

Definition install_request (mode : string) : json :=
  jobject [("acknowledged_irreversible", JBool true); ("disk", JString "/dev/sda"); ("install_mode", JString mode);
           ("target_partition", JString "/dev/sda3"); ("username", JString "kyth"); ("password", JString "secret");
           ("free_region_start", JNumber (301 * GiB)); ("free_region_end", JNumber (499 * GiB))].

Definition sample_install (mode : string) : result (NativePhaseExecutor * XState) :=
  let? request := from_http (HR := embedded_os) (install_request mode) in
  from_request (HL := sample_decoder) request.

Section witnesses.
#[local] Existing Instance sample_decoder.
#[local] Existing Instance sample_findmnt.
#[local] Existing Instance tree_codec.

Definition never (_ : HelperRequest) : bool := false.
Definition on_format (r : HelperRequest) : bool := match r with HDisk (FormatFilesystem _ _ _ _) => true | _ => false end.

(** The log of an installation after the calls [cs]. *)
Definition sample_state (mode : string) (broken : HelperRequest → bool) (cs : list Call) : option XState :=
  match sample_install mode with
  | Ok (self, s) => Some (calls (HX := sample_machine broken) self cs s)
  | Err _ => None
  end.
Definition sample_log (mode : string) (broken : HelperRequest → bool) (cs : list Call) : list Event :=
  match sample_state mode broken cs with Some s => xs_log s | None => [] end.

Definition format_event : Event :=
  Helper (HDisk (FormatFilesystem "/dev/sda3" "btrfs" "KythOS" "/dev/sda")) true (Ok (Some 0)).

Lemma sample_install_Ok mode self s :
  sample_install mode = Ok (self, s) → ∃ request, from_request (HL := sample_decoder) request = Ok (self, s).
Proof. unfold sample_install. intros H. apply rbind_Ok in H as (request & _ & H). by exists request. Qed.

(** An installation alongside reaches the format, and its gates are in the log. *)
Lemma executor_ordered_witness :
  let log := sample_log "alongside" never [CPhase Storage] in
  log !! 8%nat = Some format_event
  ∧ Forall (holds (take 8 log)) [FPassed GuardPassed; FPassed (TargetPassed "/dev/sda3"); FJournalled "format" Started].
Proof.
  intros log. assert (log !! 8%nat = Some format_event) as H8 by (vm_compute; reflexivity). split; [done|].
  revert H8. unfold log, sample_log, sample_state. clear log.
  destruct (sample_install "alongside") as [[self s]|e] eqn:E; [|vm_compute in E; discriminate].
  apply sample_install_Ok in E as [request E]. intros H8%take_drop_middle.
  apply (executor_ordered (HX := sample_machine never) request self s [CPhase Storage] E _ _ _ _ _ (eq_sym H8)).
Defined.

(** With a helper that fails to format, no step is recorded as failed, though one
    was started. *)
Definition helper_command (l : list Event) (r : HelperRequest) (c : bool) : Command :=
  exits (if on_format r then 1 else 0).

Lemma no_failed_step_reported_witness :
  match sample_state "alongside" on_format [CPhase Storage] with
  | Some s => length (ts_partition_steps (xs_transaction s)) = 1%nat
              ∧ Forall (λ d, failed_step d = false) (ts_partition_steps (xs_transaction s))
  | None => False
  end.
Proof.
  assert (match sample_state "alongside" on_format [CPhase Storage] with
          | Some s => length (ts_partition_steps (xs_transaction s)) | None => 0%nat end = 1%nat) as Hlen by (vm_compute; reflexivity).
  revert Hlen. unfold sample_state.
  destruct (sample_install "alongside") as [[self s]|e] eqn:E; [|vm_compute in E; discriminate]. intros Hlen. split; [done|].
  apply sample_install_Ok in E as [request E].
  apply (no_failed_step_reported (HX := sample_machine on_format) helper_command request self s [CPhase Storage]); [|done].
  intros l r c. unfold helper_command. cbn [xo_helper sample_machine]. destruct (on_format r); vm_compute; reflexivity.
Defined.
Definition sample_phase (mode : string) (phase : Phase) : option (result unit * XState) :=
  match sample_install mode with
  | Ok (self, s) => Some (execute_storage (HX := sample_machine never) self phase s)
  | Err _ => None
  end.

(** An installation into the free space behind the third partition. *)
Lemma guided_modes_never_succeed_witness :
  match sample_phase "free_space" Storage with Some (r, _) => r ≠ Ok tt | None => False end.
Proof.
  unfold sample_phase. destruct (sample_install "free_space") as [[self s]|e] eqn:E; [|vm_compute in E; discriminate].
  assert (mode self = "free_space") as Hm by (vm_compute in E; injection E as <- <-; reflexivity).
  apply sample_install_Ok in E as [request E]. destruct (execute_storage self Storage s) as [r s'] eqn:Es.
  apply (guided_modes_never_succeed (HX := sample_machine never) request self s Storage s r s' E); [by left|exact Es].
Defined.

(** An embedded image whose status is verified. *)
Lemma installed_source_verified_witness :
  match sample_install "wipe" with
  | Ok (self, _) =>
      source_verdict (HX := sample_machine never) self [] = Ok tt
      ∧ ∃ p, build_bootc_plan (ex_bootc self) = Ok p
             ∧ argument_after "--source-imgref" (bp_argv p) = Some "oci:/usr/share/kyth/image:latest"
  | Err _ => False
  end.
Proof.
  destruct (sample_install "wipe") as [[self s]|e] eqn:E; [|vm_compute in E; discriminate].
  assert (source_verdict (HX := sample_machine never) self [] = Ok tt ∧ bi_source_imgref (ex_bootc self) = "oci:/usr/share/kyth/image:latest")
    as [Hv Hi] by (vm_compute in E; injection E as <- <-; split; vm_compute; reflexivity).
  apply sample_install_Ok in E as [request E]. split; [done|].
  destruct (installed_source_verified (HX := sample_machine never) request self s [] E Hv) as (p & source & Hp & Ha & _).
  exists p. split; [done|]. destruct (bootc_source _ _ Hp) as (source' & Ha' & Hs). rewrite Ha in Ha'. injection Ha' as <-.
  rewrite Hi in Hs. vm_compute in Hs. injection Hs as <-. exact Ha.
Defined.

(** A change that fails at once is undone from the backup just made. *)
Definition interrupted (self : NativePhaseExecutor) (s : XState) : result unit * XState :=
  guarded_table_mutation (HX := sample_machine never) self Storage (fail_with Storage "interrupted") s.

Lemma failed_change_restored_witness :
  match sample_install "free_space" with
  | Ok (self, s) => ∃ path o, xs_log (snd (interrupted self s)) =
      [Passed GuardPassed; Helper (HDisk (BackupTable (disk self) path)) false (Ok (Some 0));
       Helper (HDisk (RestoreTable (disk self) path)) false o]
  | Err _ => False
  end.
Proof.
  destruct (sample_install "free_space") as [[self s]|e] eqn:E; [|vm_compute in E; discriminate].
  assert (xs_log s = [] ∧ length (xs_log (snd (interrupted self s))) = 3%nat) as [Hl Hlen]
    by (vm_compute in E; injection E as <- <-; split; vm_compute; reflexivity).
  destruct (interrupted self s) as [r s'] eqn:Ei. cbn [snd] in *.
  destruct (failed_change_restored (HX := sample_machine never) self Storage (fail_with Storage "interrupted") s r s' Ei)
    as [(e & dropped & _ & Hd & Hc)|(dir & s1 & s2 & rb & H1 & H2 & H3)].
  - rewrite Hd, Hl in Hlen. destruct Hc as [->|[->|(path & o & _ & ->)]]; discriminate.
  - cbn zeta in *. injection H2 as <- <-. destruct H3 as (_ & o & H3). rewrite H3, H1, Hl in Hlen |- *.
    exists (join_path dir "partition-table.backup"), o. destruct (exited_zero o); [done|discriminate].
Defined.

(** A format that fails leaves nothing mounted once the failure is recorded. *)
Lemma no_mount_left_witness :
  match sample_install "alongside" with
  | Ok (self, s) =>
      mounted (xs_log (calls (HX := sample_machine never) self [CPhase Storage] s)) FILESYSTEM_STAGING_MOUNTPOINT = true
      ∧ mounted (xs_log (calls (HX := sample_machine never) self ([CPhase Storage] ++ [CFailed Image "no space"]) s))
          FILESYSTEM_STAGING_MOUNTPOINT = false
  | Err _ => False
  end.
Proof.
  destruct (sample_install "alongside") as [[self s]|e] eqn:E; [|vm_compute in E; discriminate].
  assert (mounted (xs_log (calls (HX := sample_machine never) self [CPhase Storage] s)) FILESYSTEM_STAGING_MOUNTPOINT = true)
    as Hm by (vm_compute in E; injection E as <- <-; vm_compute; reflexivity).
  split; [done|]. apply sample_install_Ok in E as [request E].
  by apply (no_mount_left (HX := sample_machine never) request self s [CPhase Storage] (CFailed Image "no space") _ E).
Defined.

(** Half of the disk was taken from Windows before the retry. *)
Definition shrunk_executor (self : NativePhaseExecutor) : NativePhaseExecutor := {|
  ex_plan := {| pl_mode := "resize_ntfs"; pl_disk := "/dev/sda"; pl_target_partition := None; pl_resize_partition := Some "/dev/sda3";
                pl_resize_bytes := 64 * GiB; pl_free_region_start := None; pl_free_region_end := None;
                pl_pre_shrink_bytes := Some (100 * GiB); pl_target_disk_serial := None; pl_target_disk_model := None;
                pl_target_disk_size_bytes := None; pl_flatpaks := [] |};
  ex_execution := ex_execution self; ex_bootc := ex_bootc self; ex_account := ex_account self; ex_manual_mounts := ex_manual_mounts self;
  ex_source_imgref := ex_source_imgref self; ex_target_imgref := ex_target_imgref self; ex_kernel := ex_kernel self;
  ex_force_stage := ex_force_stage self; ex_password := ex_password self; ex_transaction_path := ex_transaction_path self |}.

Lemma resume_window_exact_witness :
  match sample_install "wipe" with
  | Ok (self, _) => resume_window (shrunk_executor self) "lsblk" sample_target 512 = Ok (301 * GiB, 365 * GiB)
  | Err _ => False
  end.
Proof.
  destruct (sample_install "wipe") as [[self s]|e] eqn:E; [|vm_compute in E; discriminate]. clear E.
  apply (resume_window_exact (shrunk_executor self) "lsblk" sample_target 512 (301 * GiB) (365 * GiB));
    [vm_compute; congruence..|].
  split_and!; [reflexivity|reflexivity|vm_compute; congruence|vm_compute; congruence| |vm_compute; reflexivity].
  intros recorded [= <-]. vm_compute. congruence.
Defined.
End witnesses.

(** The status the image phase writes is none the orchestration contract would
    accept after the status before it. *)
Example image_complete_refused :
  completion_status Prepare = Some ("prepared", "Install plan prepared")
  ∧ completion_status Image = Some ("image_complete", "Operating system image written")
  ∧ status_transition "prepared" "image_complete" = false.
Proof. vm_compute. auto. Qed.
