(* ===== verification/Accounts.v ===== *)
(** The account of the installed system: [installer_accounts.rs].

    The group overlay, the shadow edit and the creation of the user on the
    deployment below [deploy_root], over the file system of FileSystem.v.  The
    tools ([useradd], [chown] and the like) are an arbitrary machine that may
    change any file; what is done to it is logged. *)

From S2P Require Import Prelude RustStr RustOs Json FileSystem Configuration ExecutionPlan.

Definition EXPECTED_SHELL : string := "/bin/bash".
Definition EXPECTED_GROUPS : list string := ["wheel"; "video"; "audio"; "render"].

(** * The group database *)

(** [parse::<u32>()] *)
Definition parse_u32 (s : string) : option Z :=
  n ← parse_u64 s; if n <? 2 ^ 32 then Some n else None.

(** The records of a database by name: identifier and line. *)
Notation Groups := (gmap string (Z * string)).

Definition group_record (m : Groups) (line : string) : result Groups :=
  match split_char ":" line with
  | [name; _; gid; _] =>
      guard! is_empty name else "installed group database has a malformed record";
      let? gid := ok_or (parse_u32 gid) "installed group database has an invalid GID" in
      match m !! name with
      | Some previous =>
          guard! negb (bool_decide (previous = (gid, line))) else "installed group database has conflicting duplicate records";
          Ok (<[name := (gid, line)]> m)
      | None => Ok (<[name := (gid, line)]> m)
      end
  | _ => Err "installed group database has a malformed record"
  end.

Fixpoint group_records (m : Groups) (ls : list string) : result Groups :=
  match ls with
  | [] => Ok m
  | line :: ls =>
      if is_empty line || starts_with "#" line then group_records m ls
      else let? m := group_record m line in group_records m ls
  end.
Definition records (text : string) : result Groups := group_records ∅ (lines text).

Definition push_record (output record : string) : string :=
  (if negb (is_empty output) && negb (ends_with newline output) then output +:+ newline else output)
  +:+ record +:+ newline.

(** One turn of the loop over the required groups. *)
Definition add_group (local base : Groups) (output group : string) : result string :=
  match local !! group with
  | Some _ => Ok output
  | None =>
      let? entry := ok_or (base !! group)
        ("required group " +:+ group +:+ " is absent from installed group databases") in
      let '(gid, record) := entry in
      guard! existsb (λ e, negb (String.eqb (fst e) group) && (fst (snd e) =? gid)) (map_to_list local)
        else ("required group " +:+ group +:+ " conflicts with an installed GID");
      Ok (push_record output record)
  end.
Fixpoint add_groups (local base : Groups) (output : string) (groups : list string) : result string :=
  match groups with
  | [] => Ok output
  | g :: groups => let? output := add_group local base output g in add_groups local base output groups
  end.

Definition expected_group_overlay (local base : string) : result string :=
  let? local_records := records local in
  let? base_records := records base in
  add_groups local_records base_records local EXPECTED_GROUPS.

(** * The shadow database *)

(** One line of the loop: the new line and whether it is the user's. *)
Definition shadow_line (username hash line : string) : string * bool :=
  match split_once ":" line with
  | Some (name, rest) =>
      if String.eqb name username then
        match split_char ":" rest with
        | _ :: fields => (name +:+ ":" +:+ join ":" (hash :: fields), true)
        | [] => (line, false)
        end
      else (line, false)
  | None => (line, false)
  end.
Definition shadow_edit (username hash content : string) : result string :=
  let edited := shadow_line username hash <$> lines content in
  guard! negb (existsb snd edited)
    else ("user " +:+ show_debug username +:+ " not found in the installed shadow database");
  Ok (unlines (fst <$> edited)).

(** * Replacing an account database *)

(** What the kernel answers about the attributes of the old file: the sizes of the
    two listings, the buffer the second one fills, and for each name the length,
    the bytes read and the error of setting it on the new file. *)
Record XattrOs := {
  xo_size : Z;
  xo_unsupported : bool;
  xo_error : string;
  xo_listed : Z * string;
  xo_length : string → Z;
  xo_read : string → Z * string;
  xo_set : string → option string;
}.
Definition XATTR_BOUND : Z := 65536.

(** Signatures over the old bytes are not carried over. *)
Definition signature (name : string) : bool := str_in name ["security.ima"; "security.evm"; "security.capability"].

(** The loop over the names; the attributes of the new file are the state. *)
Fixpoint copy_labels (os : XattrOs) (names : list string) (target : gmap string string) : result unit * gmap string string :=
  match names with
  | [] => (Ok tt, target)
  | name :: names =>
      if signature name then copy_labels os names target
      else if contains_char NUL name then (Err "invalid account label name", target)
      else
        let length := xo_length os name in
        if negb ((0 <=? length) && (length <=? XATTR_BOUND)) then (Err "could not inspect account label value", target)
        else if negb (fst (xo_read os name) =? length) then (Err "could not read stable account label value", target)
        else match xo_set os name with
             | Some e => (Err ("could not preserve account label: " +:+ e), target)
             | None => copy_labels os names (<[name := snd (xo_read os name)]> target)
             end
  end.
Definition label_names (size : Z) (buffer : string) : list string :=
  List.filter (λ n, negb (is_empty n)) (split_char NUL (String.substring 0 (Z.to_nat size) buffer)).
Definition copy_account_xattrs (os : XattrOs) (target : gmap string string) : result unit * gmap string string :=
  if xo_size os <? 0 then
    (if xo_unsupported os then Ok tt else Err ("could not inspect account labels: " +:+ xo_error os), target)
  else if XATTR_BOUND <? xo_size os then (Err "account metadata list is too large", target)
  else
    let '(size, buffer) := xo_listed os in
    if (size <? 0) || (xo_size os <? size) then (Err "could not read a bounded account label list", target)
    else copy_labels os (label_names size buffer) target.

(** The failures of [write_replacing]; the new file has the attributes
    [wr_created] when it is created. *)
Record AccountFaults := {
  wr_open : option string;
  wr_stat : option string;
  wr_create : option string;
  wr_write : option (string * string);
  wr_sync : option string;
  wr_chown : option string;
  wr_chmod : option string;
  wr_xattrs : XattrOs;
  wr_created : gmap string string;
  wr_resync : option string;
  wr_rename : option string;
  wr_sync_dir : option string;
  wr_remove : bool;
  wr_cleanup : bool;
}.

(** The ownership, the permissions, the labels and the second sync. *)
Definition account_metadata (f : AccountFaults) : result unit :=
  let? _ := match wr_chown f with Some e => Err ("could not preserve account ownership: " +:+ e) | None => Ok tt end in
  let? _ := match wr_chmod f with Some e => Err ("could not set shadow permissions: " +:+ e) | None => Ok tt end in
  let? _ := fst (copy_account_xattrs (wr_xattrs f) (wr_created f)) in
  match wr_resync f with Some e => Err ("could not sync account metadata: " +:+ e) | None => Ok tt end.

Definition write_replacing (f : AccountFaults) (path contents : string) (fs : Fs) : Run :=
  match wr_open f, read_file fs path with
  | Some e, _ => refused fs ("could not open installed account database: " +:+ e)
  | None, None => refused fs ("could not open installed account database: " +:+ ENOENT)
  | None, Some _ =>
      match wr_stat f, parent_dir path with
      | Some e, _ => refused fs e
      | None, None => refused fs "installed shadow has no parent directory"
      | None, Some _ =>
          let temporary := with_extension "kyth-tmp" path in
          with_cleanup (wr_remove f) (wr_cleanup f) temporary
            (replace_protocol
               {| st_create := (λ e, "could not create temporary shadow: " +:+ e) <$> wr_create f;
                  st_exists := "could not create temporary shadow: " +:+ EEXIST;
                  st_write := (λ x, (fst x, "could not write temporary shadow: " +:+ snd x)) <$> wr_write f;
                  st_sync := (λ e, "could not sync temporary shadow: " +:+ e) <$> wr_sync f;
                  st_gate _ := match account_metadata f with Err e => Some e | Ok _ => None end;
                  st_rename := (λ e, "could not replace shadow: " +:+ e) <$> wr_rename f;
                  st_sync_dir := (λ e, "could not sync shadow directory: " +:+ e) <$> wr_sync_dir f |} path temporary contents) fs
      end
  end.

(** * The whole operation *)

(** The calls that may fail, one constructor per call site. *)
Inductive Site :=
| ReadGroup | ReadBaseGroup | ReadPasswd | ReadEntry | ReadMembers | ReadShadow | ReadOwner
| StatBackend (backend : string) | StatAutologin (backend : string) | ReadAutologin (backend : string)
| RemoveAutologin (backend : string) | SyncAutologin (backend : string)
| OpenMarker | StatMarker | SyncMarker | SyncEtc.

(** What is done to the machine: the states a file replacement goes through and
    the commands. *)
Inductive AccountEvent :=
| Passed (fs : Fs)
| Ran (argv : list string).

Section Apply.
(** The error of a call, the failures of the two replacements, the failure of
    [create_dir_all] after some directories, and the commands: whether one could
    be started, whether it succeeded, and the files afterwards. *)
Context (fault : Site → option string) (group_faults shadow_faults : AccountFaults) (mkdir : option (nat * string)).
Context (tool : list string → Fs → result bool * Fs).

Definition Account := Log Fs AccountEvent string.

Definition of_result {A} (r : result A) : Account A :=
  match r with Ok a => log_ret a | Err e => log_fail e end.
Definition live : Account Fs := λ fs, (inl fs, fs, []).

(** A [Run] of FileSystem.v as a step. *)
Definition perform (k : Fs → Run) : Account unit := λ fs,
  let r := k fs in
  (match outcome r with Ok _ => inl tt | Err e => inr e end, final r, Passed <$> visited r).

(** [fs::read_to_string]; a path through a link counts as unreadable. *)
Definition read_to_string (site : Site) (path : string) (fs : Fs) : result string :=
  match fault site with
  | Some e => Err e
  | None => ok_or (read_file fs path) ENOENT
  end.
Definition read_labelled (site : Site) (label path : string) : Account string :=
  run! fs <- live; of_result (map_err (λ e, label +:+ ": " +:+ e) (read_to_string site path fs)).

Definition run (program : string) (args : list string) : Account unit := λ fs,
  let '(status, fs') := tool (program :: args) fs in
  (match status with
   | Err e => inr ("could not run " +:+ program +:+ ": " +:+ e)
   | Ok true => inl tt
   | Ok false => inr (program +:+ " failed")
   end, fs', [Ran (program :: args)]).

Definition ensure_expected_groups (deploy : string) : Account unit :=
  let path := join_path deploy "etc/group" in
  run! local <- read_labelled ReadGroup "could not read installed group database" path;
  run! fs <- live;
  run! base <- match fault ReadBaseGroup, read_file fs (join_path deploy "usr/lib/group") with
               | Some e, _ => log_fail ("could not read immutable group database: " +:+ e)
               | None, Some base => log_ret base
               | None, None => log_ret EmptyString
               end;
  run! overlay <- of_result (expected_group_overlay local base);
  if String.eqb overlay local then log_ret tt
  else perform (write_replacing group_faults path overlay).

Definition names (username line : string) : bool :=
  match split_once ":" line with
  | Some (name, _) => String.eqb name username
  | None => false
  end.
Definition target_user_exists (passwd username : string) : Account bool :=
  run! content <- read_labelled ReadPasswd "could not read installed passwd" passwd;
  log_ret (existsb (names username) (lines content)).

(** The fields of the user's first record. *)
Definition passwd_entry (username passwd : string) : option (list string) :=
  find_map (λ line,
    let fields := split_char ":" line in
    if bool_decide (head fields = Some username) then Some fields else None) (lines passwd).

Definition is_member (username group line : string) : bool :=
  let fields := split_char ":" line in
  bool_decide (head fields = Some group) &&
  match fields !! 3%nat with
  | Some members => existsb (λ member, String.eqb (trim member) username) (split_char "," members)
  | None => false
  end.

(** The two halves of [verify_matching_properties]. *)
Definition check_shell (username passwd : string) : result unit :=
  let? entry := ok_or (passwd_entry username passwd)
    ("user " +:+ show_debug username +:+ " disappeared from installed passwd") in
  let shell := unwrap_or (entry !! 6%nat) EmptyString in
  guard! negb (String.eqb shell EXPECTED_SHELL)
    else ("user " +:+ show_debug username +:+ " already exists in the installed system with a different login shell ("
          +:+ show_debug shell +:+ "); refusing to modify it");
  Ok tt.
Fixpoint check_groups (username group_content : string) (groups : list string) : result unit :=
  match groups with
  | [] => Ok tt
  | group :: groups =>
      guard! negb (existsb (is_member username group) (lines group_content))
        else ("user " +:+ show_debug username +:+ " already exists in the installed system without the expected "
              +:+ show_debug group +:+ " group membership; refusing to modify it");
      check_groups username group_content groups
  end.
Definition verify_matching_properties (etc username : string) : Account unit :=
  run! passwd <- read_labelled ReadEntry "could not read installed passwd" (join_path etc "passwd");
  run! _ <- of_result (check_shell username passwd);
  run! group_content <- read_labelled ReadMembers "could not read installed group database" (join_path etc "group");
  of_result (check_groups username group_content EXPECTED_GROUPS).

Definition replace_shadow_hash (path username hash : string) : Account unit :=
  run! content <- read_labelled ReadShadow "could not read installed shadow" path;
  run! output <- of_result (shadow_edit username hash content);
  perform (write_replacing shadow_faults path output).

(** ** Handing over to the login manager *)

Definition autologin_name : string := "99-plasma-setup.conf".
Definition autologin_line (line : string) : bool :=
  match split_once "=" line with
  | Some (key, value) => String.eqb (trim key) "User" && String.eqb (trim value) "plasma-setup"
  | None => false
  end.

(** One turn of the first loop: the configuration to remove, if there is one. *)
Definition stale_autologin (etc backend : string) (fs : Fs) : result (option string) :=
  let parent := join_path etc backend in
  let path := join_path parent autologin_name in
  match fault (StatBackend backend), dir fs !! parent with
  | None, None => Ok None
  | None, Some (Special Directory) =>
      match fault (StatAutologin backend), dir fs !! path with
      | None, None => Ok None
      | None, Some (Regular _) =>
          let? contents := map_err (λ e, "could not read Plasma Setup autologin: " +:+ e)
                             (read_to_string (ReadAutologin backend) path fs) in
          guard! negb (existsb autologin_line (lines contents))
            else "refusing to remove an unmanaged Plasma Setup autologin file";
          Ok (Some path)
      | _, _ => Err "Plasma Setup autologin configuration is not a regular file"
      end
  | _, _ => Err "Plasma Setup configuration parent is not a real directory"
  end.
Fixpoint stale_autologins (etc : string) (backends : list string) (fs : Fs) : result (list (string * string)) :=
  match backends with
  | [] => Ok []
  | b :: backends =>
      let? path := stale_autologin etc b fs in
      let? rest := stale_autologins etc backends fs in
      Ok (match path with Some p => (b, p) :: rest | None => rest end)
  end.

(** One turn of the second loop. *)
Definition remove_autologin (backend path : string) : Account unit := λ fs,
  match fault (RemoveAutologin backend), dir fs !! path with
  | Some e, _ => (inr ("could not remove Plasma Setup autologin: " +:+ e), fs, [])
  | None, None => (inr ("could not remove Plasma Setup autologin: " +:+ ENOENT), fs, [])
  | None, Some (Special Directory) => (inr ("could not remove Plasma Setup autologin: " +:+ EISDIR), fs, [])
  | None, Some _ =>
      let fs1 := remove_file path fs in
      match parent_dir path, fault (SyncAutologin backend) with
      | None, _ => (inr "setup configuration has no parent", fs1, [Passed fs1])
      | Some _, Some e => (inr ("could not sync Plasma Setup autologin directory: " +:+ e), fs1, [Passed fs1])
      | Some _, None => (inl tt, sync_name path fs1, [Passed fs1; Passed (sync_name path fs1)])
      end
  end.
Fixpoint remove_autologins (l : list (string * string)) : Account unit :=
  match l with
  | [] => log_ret tt
  | (b, p) :: l => run! _ <- remove_autologin b p; remove_autologins l
  end.

Definition ELOOP : string := "Too many levels of symbolic links (os error 40)".

(** The completion marker: opened or created, never truncated, then synced. *)
Definition place_marker (etc : string) : Account unit := λ fs,
  let marker := join_path etc "plasma-setup-done" in
  let refuse e := (inr ("could not complete Plasma Setup: " +:+ e), fs, []) in
  let finish fs i :=
    match fault StatMarker, fault SyncMarker with
    | Some e, _ => (inr e, fs, [Passed fs])
    | None, Some e => (inr ("could not sync Plasma Setup marker: " +:+ e), fs, [Passed fs])
    | None, None =>
        let fs1 := sync_inode i fs in
        match fault SyncEtc with
        | Some e => (inr ("could not sync Plasma Setup completion: " +:+ e), fs1, [Passed fs; Passed fs1])
        | None => (inl tt, sync_name marker fs1, [Passed fs; Passed fs1; Passed (sync_name marker fs1)])
        end
    end in
  match fault OpenMarker, dir fs !! marker with
  | Some e, _ => refuse e
  | None, Some (Special Directory) => refuse EISDIR
  | None, Some (Special (Symlink _)) => refuse ELOOP
  | None, Some (Special OtherFile) => (inr (unwrap_or (fault StatMarker) "Plasma Setup completion marker is not a regular file"), fs, [])
  | None, Some (Regular i) => finish fs i
  | None, None => finish (create_file marker fs) (next_inode fs)
  end.

Definition complete_plasma_setup (etc : string) : Account unit :=
  run! fs <- live;
  run! stale <- of_result (stale_autologins etc ["plasmalogin.conf.d"; "sddm.conf.d"] fs);
  run! _ <- remove_autologins stale;
  place_marker etc.

(** ** [apply] *)

(** [create_dir_all]: the missing components are created from the root on; a
    link is taken to lead to a directory. *)
Fixpoint make_dirs (base : string) (cs : list string) (fs : Fs) : result unit * Fs :=
  match cs with
  | [] => (Ok tt, fs)
  | c :: cs =>
      let p := base +:+ "/" +:+ c in
      match dir fs !! p with
      | None => make_dirs p cs (make_special p Directory fs)
      | Some (Special (Directory | Symlink _)) => make_dirs p cs fs
      | Some _ => (Err (match cs with [] => EEXIST | _ => "Not a directory (os error 20)" end), fs)
      end
  end.
Definition create_dir_all (path : string) (fs : Fs) : result unit * Fs :=
  match mkdir with
  | Some (n, e) => (Err e, snd (make_dirs EmptyString (take n (components path)) fs))
  | None => make_dirs EmptyString (components path) fs
  end.

(** The owner of the home directory: the identifiers of the user's first record
    that has them. *)
Definition owner_of (username passwd : string) : option (string * string) :=
  find_map (λ line,
    match split_char ":" line with
    | name :: _ :: uid :: gid :: _ => if String.eqb name username then Some (uid, gid) else None
    | _ => None
    end) (lines passwd).

Definition useradd_args (deploy username : string) : list string :=
  ["--root"; deploy; "-M"; "-G"; "wheel,video,audio,render"; "-s"; "/bin/bash"; username].
Definition user_home (target username : string) : string :=
  join_path (join_path target "ostree/deploy/default/var/home") username.

(** The steps after the account exists and its password is set. *)
Definition furnish_home (etc home username : string) : Account unit :=
  run! _ <- (λ fs, let '(r, fs') := create_dir_all home fs in
               (match r with Ok _ => inl tt | Err e => inr ("could not create user home: " +:+ e) end, fs', [Passed fs']));
  run! passwd <- read_labelled ReadOwner "could not read installed passwd" (join_path etc "passwd");
  run! owner <- of_result (ok_or (owner_of username passwd) "user not found in passwd after useradd");
  let ownership := fst owner +:+ ":" +:+ snd owner in
  run! _ <- run "/usr/bin/chown" [ownership; home];
  run! _ <- run "/usr/bin/chmod" ["700"; home];
  run! fs <- live;
  let skel := join_path etc "skel" in
  run! _ <- (if is_directory (dir fs !! skel) then
               run! _ <- run "/usr/bin/cp" ["-rT"; skel; home];
               run "/usr/bin/chown" ["-R"; ownership; home]
             else log_ret tt);
  (λ fs, (inl tt, snd (tool ["/usr/bin/restorecon"; "-RF"; home] fs), [Ran ["/usr/bin/restorecon"; "-RF"; home]])).

Definition create_account (deploy etc username : string) : Account unit :=
  run! exists_ <- target_user_exists (join_path etc "passwd") username;
  if exists_ then verify_matching_properties etc username
  else run! _ <- ensure_expected_groups deploy; run "/usr/sbin/useradd" (useradd_args deploy username).

Definition apply (input : CreateUserInput) : Account unit :=
  run! roots <- of_result (validate_account input);
  let '(deploy, target) := roots in
  let etc := join_path deploy "etc" in
  run! _ <- create_account deploy etc (cu_username input);
  run! _ <- replace_shadow_hash (join_path etc "shadow") (cu_username input) (cu_password_hash input);
  run! _ <- furnish_home etc (user_home target (cu_username input)) (cu_username input);
  complete_plasma_setup etc.

End Apply.

(** * Properties *)

(** ** The shadow database *)

(** The records of a colon-separated database. *)
Definition fields_of (text : string) : list (list string) := split_char ":" <$> lines text.

(** What the edit is meant to do to a record. *)
Definition rehash (username hash : string) (fields : list string) : list string :=
  match fields with
  | name :: _ :: rest => if String.eqb name username then name :: hash :: rest else fields
  | _ => fields
  end.
Definition entry_of (username : string) (fields : list string) : bool :=
  match fields with
  | name :: _ :: _ => String.eqb name username
  | _ => false
  end.

Definition hash_text (hash : string) : Prop :=
  contains_char ":" hash = false ∧ contains_char "010" hash = false ∧ no_cr hash.

(** The fields of the user's line, as the loop sees them. *)
Lemma shadow_line_cases username hash line :
  (∃ old rest, split_char ":" line = username :: old :: rest ∧
     shadow_line username hash line = (join ":" (username :: hash :: rest), true)) ∨
  (entry_of username (split_char ":" line) = false ∧ shadow_line username hash line = (line, false)).
Proof.
  unfold shadow_line. destruct (split_once ":" line) as [[name rest]|] eqn:E.
  - apply split_once_Some in E as [-> Hn]. rewrite split_char_app, (split_char_single ":" name Hn).
    destruct (split_char_cons ":" rest) as (w & ws & ->). cbn.
    destruct (String.eqb_spec name username) as [->|]; [left|by right]. by exists w, ws.
  - right. by rewrite (split_char_single ":" line (split_once_None _ _ E)).
Qed.

Lemma join_contains b sep l :
  contains_char b sep = false → Forall (λ x, contains_char b x = false) l → contains_char b (join sep l) = false.
Proof.
  intros Hs. induction l as [|x l IH]; [done|]. intros [Hx Hl]%Forall_cons. destruct l as [|y l]; [done|].
  change (join sep _) with (x +:+ sep +:+ join sep (y :: l)). rewrite !contains_char_app, Hx, Hs. by apply IH.
Qed.

Lemma shadow_line_fields username hash line :
  hash_text hash → contains_char "010" line = false ∧ no_cr line →
  let line' := fst (shadow_line username hash line) in
  split_char ":" line' = rehash username hash (split_char ":" line) ∧ contains_char "010" line' = false ∧ no_cr line'.
Proof.
  intros (H1 & H2 & H3) [L1 L2]. destruct (shadow_line_cases username hash line) as [(old & rest & E & ->)|[E ->]]; cbn [fst].
  - assert (∀ c x, contains_char c line = false → x ∈ username :: rest → contains_char c x = false) as Hsub.
    { intros c x Hl Hx. eapply split_char_contains; [exact Hl|]. rewrite E. set_solver. }
    assert (∀ c x, x ∈ username :: old :: rest → c = ":"%char → contains_char c x = false) as Hcolon.
    { intros c x Hx ->. eapply (split_char_piece _ line). by rewrite E. }
    assert (∀ c, contains_char c hash = false → contains_char c line = false →
              Forall (λ x, contains_char c x = false) (username :: hash :: rest)) as Hall.
    { intros c Hh Hl. rewrite Forall_cons, Forall_cons, Forall_forall. split_and!; [by apply Hsub; [|left]|done|].
      intros x Hx. apply Hsub; [done|by right]. }
    rewrite E. cbn [rehash]. rewrite String.eqb_refl. split_and!.
    + apply split_char_join; [done|]. rewrite Forall_cons, Forall_cons, Forall_forall.
      split_and!; [by eapply Hcolon; [left|]|done|]. intros x Hx. eapply Hcolon; [by right; right|done].
    + apply join_contains; [done|by apply Hall].
    + apply join_contains; [done|by apply Hall].
  - split; [|done]. unfold entry_of in E. destruct (split_char ":" line) as [|n [|o rest]]; cbn; [done|done|by rewrite E].
Qed.

Lemma shadow_edit_fields username hash content output :
  hash_text hash → no_cr content → shadow_edit username hash content = Ok output →
  fields_of output = rehash username hash <$> fields_of content ∧ existsb (entry_of username) (fields_of content) = true.
Proof.
  intros Hh Hc E. unfold shadow_edit in E. destruct (existsb snd _) eqn:Hex; [|done]. cbn in E. injection E as <-.
  assert (∀ l, l ∈ lines content → contains_char "010" l = false ∧ no_cr l) as Hl by (intros l; by apply lines_plain).
  split.
  - unfold fields_of. rewrite lines_unlines.
    + rewrite <-!list_fmap_compose. apply list_fmap_ext. intros i l Hi%list_elem_of_lookup_2.
      exact (proj1 (shadow_line_fields username hash l Hh (Hl l Hi))).
    + rewrite <-list_fmap_compose. apply Forall_fmap, Forall_forall. intros l Hi.
      exact (proj2 (shadow_line_fields username hash l Hh (Hl l Hi))).
  - apply existsb_exists in Hex as (p & Hp & Ht). apply list_elem_of_In in Hp as Hp'.
    apply list_elem_of_fmap in Hp' as (l & -> & Hi). apply existsb_exists. exists (split_char ":" l).
    split; [apply list_elem_of_In, list_elem_of_fmap; by exists l|].
    destruct (shadow_line_cases username hash l) as [(old & rest & -> & _)|[_ E]]; [apply String.eqb_refl|].
    by rewrite E in Ht.
Qed.

(** ** The group database *)

Lemma lines_push output record :
  no_cr output → contains_char "010" record = false → no_cr record →
  lines (push_record output record) = lines output ++ [record].
Proof.
  intros Ho Hr Hc. unfold push_record.
  assert (lines (record +:+ newline) = [record]) as E.
  { rewrite lines_closed, split_char_single by done. cbn. by rewrite strip_cr_plain. }
  destruct (is_empty output) eqn:E1; cbn [negb andb]; [by apply is_empty_true in E1 as ->|].
  destruct (ends_with newline output) eqn:E2; cbn [negb].
  - apply ends_with_true in E2 as [a ->]. by rewrite append_assoc, lines_app, E.
  - apply is_empty_false in E1. by rewrite append_assoc, lines_app, E, lines_closed, lines_open.
Qed.

Lemma push_no_cr output record : no_cr output → no_cr record → no_cr (push_record output record).
Proof.
  unfold no_cr, push_record. intros Ho Hr. destruct (_ && _); rewrite !contains_char_app, Ho, Hr; done.
Qed.

Lemma push_prefix output record : starts_with output (push_record output record) = true.
Proof.
  unfold push_record. apply starts_with_true. destruct (_ && _); [|by eexists].
  exists (newline +:+ record +:+ newline). by rewrite append_assoc.
Qed.

Lemma group_records_app m a b :
  group_records m (a ++ b) = (let? m := group_records m a in group_records m b).
Proof.
  revert m. induction a as [|l a IH]; intros m; cbn; [done|]. destruct (_ || _); [apply IH|].
  destruct (group_record m l); cbn; [apply IH|done].
Qed.

(** A line that reads as the record of [name]. *)
Definition record_line (name : string) (e : Z * string) : Prop :=
  (∃ a gid b, split_char ":" (snd e) = [name; a; gid; b] ∧ is_empty name = false ∧ parse_u32 gid = Some (fst e)) ∧
  is_empty (snd e) = false ∧ starts_with "#" (snd e) = false.

Lemma group_record_line m line m' :
  is_empty line || starts_with "#" line = false → group_record m line = Ok m' →
  ∃ name gid, record_line name (gid, line) ∧ m' = <[name := (gid, line)]> m ∧
    (m !! name = None ∨ m !! name = Some (gid, line)).
Proof.
  intros [H1 H2]%orb_false_iff E. unfold group_record in E.
  destruct (split_char ":" line) as [|name [|a [|gid [|b []]]]] eqn:El; try done.
  destruct (is_empty name) eqn:En; [done|]. destruct (parse_u32 gid) as [g|] eqn:Eg; [|done]. cbn in E.
  exists name, g. assert (record_line name (g, line)) as Hr by (split; [by eexists _, _, _|done]).
  destruct (m !! name) as [p|] eqn:Em; [|injection E as <-; eauto].
  destruct (bool_decide_reflect (p = (g, line))) as [->|]; [|done]. cbn in E. injection E as <-. eauto.
Qed.

Lemma group_record_push m name e :
  record_line name e → m !! name = None → group_records m [snd e] = Ok (<[name := e]> m).
Proof.
  intros [(a & gid & b & El & En & Eg) [H1 H2]] Hm. cbn [group_records]. rewrite H1, H2. cbn [orb].
  unfold group_record. rewrite El, En, Eg. cbn. rewrite Hm. by destruct e.
Qed.

Definition records_ok (m : Groups) (ls : list string) : Prop :=
  ∀ g e, m !! g = Some e → record_line g e ∧ snd e ∈ ls.

Lemma group_records_ok m ls m' all :
  group_records m ls = Ok m' → ls ⊆ all → records_ok m all → records_ok m' all.
Proof.
  revert m. induction ls as [|l ls IH]; intros m; cbn; [by intros [= ->]|]. intros E Hsub Hm.
  assert (ls ⊆ all) by set_solver. destruct (_ || _) eqn:Es; [by eapply IH|].
  destruct (group_record m l) as [m1|] eqn:E1; [|done]. eapply IH; [exact E|done|].
  destruct (group_record_line _ _ _ Es E1) as (name & gid & Hr & -> & _). intros g e.
  rewrite lookup_insert_Some. intros [[<- <-]|[_ Hg]]; [|by apply Hm]. split; [done|set_solver].
Qed.

Lemma records_sound text m : records text = Ok m → records_ok m (lines text).
Proof. intros E. eapply group_records_ok; [exact E|done|done]. Qed.

(** What the loop adds, from a text that already reads as [m]. *)
Lemma add_groups_ok (L B : Groups) base gs out out' m :
  add_groups L B out gs = Ok out' → records_ok B (lines base) → no_cr base → NoDup gs →
  no_cr out → records out = Ok m → (∀ g, g ∈ gs → m !! g = L !! g) →
  ∃ m', records out' = Ok m' ∧ m ⊆ m' ∧ starts_with out out' = true ∧ (∀ g, g ∈ gs → is_Some (m' !! g)) ∧
    ∀ g e, m' !! g = Some e → m !! g = Some e ∨
      (g ∈ gs ∧ B !! g = Some e ∧ ∀ n e', L !! n = Some e' → fst e' ≠ fst e).
Proof.
  intros E HB Hbase Hnd. revert out m E. induction Hnd as [|g gs Hg Hnd IH]; intros out m E Ho Hm HL; cbn in E.
  { injection E as <-. exists m. split_and!; [done|done|apply starts_with_true; exists EmptyString; by rewrite append_nil_r|set_solver|auto]. }
  unfold add_group in E. destruct (L !! g) as [e0|] eqn:Eg; cbn in E.
  { destruct (IH out m E Ho Hm) as (m' & H1 & H2 & H3 & H4 & H5); [set_solver|]. exists m'. split_and!; [done..| |].
    - intros n [->|Hn]%elem_of_cons; [|auto]. exists e0. eapply lookup_weaken; [|exact H2]. rewrite HL; [done|by left].
    - intros n e Hn. destruct (H5 n e Hn) as [?|(? & ?)]; [by left|right]. split; [by right|done]. }
  destruct (B !! g) as [[gid record]|] eqn:EB; [|done]. cbn in E. destruct (existsb _ _) eqn:Hex; [done|]. cbn in E.
  destruct (HB g _ EB) as [Hrec Hin]. destruct (lines_plain _ _ Hbase Hin) as [P1 P2].
  assert (m !! g = None) as Hmg by (rewrite HL; [done|by left]).
  destruct (IH (push_record out record) (<[g := (gid, record)]> m) E) as (m' & H1 & H2 & H3 & H4 & H5).
  { by apply push_no_cr. }
  { unfold records. rewrite lines_push, group_records_app by done. unfold records in Hm. rewrite Hm. cbn [rbind].
    exact (group_record_push m g (gid, record) Hrec Hmg). }
  { intros n Hn. rewrite lookup_insert_ne by set_solver. apply HL. by right. }
  assert (m !! g = None → m ⊆ m') as Hsub by (intros; etrans; [by apply insert_subseteq|exact H2]).
  exists m'. split_and!; [done|auto| | |].
  - apply starts_with_true in H3 as [r ->]. pose proof (push_prefix out record) as Hp.
    apply starts_with_true in Hp as [q Hq]. apply starts_with_true. exists (q +:+ r). by rewrite Hq, append_assoc.
  - intros n [->|Hn]%elem_of_cons; [|auto]. eexists. eapply lookup_weaken; [|exact H2]. apply lookup_insert_eq.
  - intros n e Hn. destruct (H5 n e Hn) as [Hm'|(? & ?)]; [|right; split; [by right|done]].
    apply lookup_insert_Some in Hm' as [[<- <-]|[_ ?]]; [|by left]. right. split_and!; [by left|done|].
    intros k e' Hk Heq. assert (existsb (λ e, negb (String.eqb (fst e) g) && (fst (snd e) =? gid)) (map_to_list L) = true); [|congruence].
    apply existsb_exists. exists (k, e'). split; [by apply list_elem_of_In, elem_of_map_to_list|]. cbn.
    apply andb_true_iff. split; [|by apply Z.eqb_eq]. apply negb_true_iff, String.eqb_neq. intros ->. congruence.
Qed.

Lemma add_groups_skip L B out gs : (∀ g, g ∈ gs → is_Some (L !! g)) → add_groups L B out gs = Ok out.
Proof.
  induction gs as [|g gs IH]; cbn; [done|]. intros Hg. unfold add_group.
  destruct (Hg g) as [e ->]; [by left|]. cbn. apply IH. set_solver.
Qed.

(** ** Existing accounts *)

(** The account of this name is the one [apply] would have created. *)
Definition adoptable (username passwd groups : string) : Prop :=
  (∃ fields, passwd_entry username passwd = Some fields ∧ fields !! 6%nat = Some EXPECTED_SHELL) ∧
  ∀ group, group ∈ EXPECTED_GROUPS → ∃ line, line ∈ lines groups ∧ is_member username group line = true.

Lemma check_shell_Ok username passwd :
  check_shell username passwd = Ok tt → ∃ fields, passwd_entry username passwd = Some fields ∧ fields !! 6%nat = Some EXPECTED_SHELL.
Proof.
  unfold check_shell. intros E. res_inv. destruct (String.eqb_spec (unwrap_or (x !! 6%nat) EmptyString) EXPECTED_SHELL) as [Hs|]; [|done].
  exists x. split; [done|]. destruct (x !! 6%nat); [cbn in Hs; by subst|done].
Qed.

Lemma check_groups_Ok username groups l :
  check_groups username groups l = Ok tt → ∀ group, group ∈ l → ∃ line, line ∈ lines groups ∧ is_member username group line = true.
Proof.
  induction l as [|g l IH]; cbn; [set_solver|]. destruct (existsb _ _) eqn:Hex; [|done]. cbn. intros E group.
  apply existsb_exists in Hex as (line & Hl%list_elem_of_In & Hm). intros [->|]%elem_of_cons; [by exists line|by apply IH].
Qed.

(** Steps that read but do not write. *)
Definition pure_step {A} (c : Account A) : Prop := ∀ s, ∃ r, c s = (r, s, []).
Lemma pure_of_result {A} (r : result A) : pure_step (of_result r).
Proof. intros s. destruct r; by eexists. Qed.
Lemma pure_live : pure_step live.
Proof. intros s. by eexists. Qed.
Lemma pure_bind {A B} (c : Account A) (k : A → Account B) : pure_step c → (∀ a, pure_step (k a)) → pure_step (log_bind c k).
Proof.
  intros Hc Hk s. unfold log_bind. destruct (Hc s) as [[a|e] ->]; [|by eexists]. destruct (Hk a s) as [r ->]. by eexists.
Qed.
Lemma pure_read fault site label path : pure_step (read_labelled fault site label path).
Proof. apply pure_bind; [apply pure_live|]. intros ?. apply pure_of_result. Qed.
Lemma pure_ret {A} (a : A) : pure_step (log_ret a).
Proof. intros s. by eexists. Qed.
#[local] Hint Resolve pure_of_result pure_live pure_bind pure_read pure_ret : core.

Lemma pure_exists fault passwd username : pure_step (target_user_exists fault passwd username).
Proof. apply pure_bind; auto. Qed.
Lemma pure_verify fault etc username : pure_step (verify_matching_properties fault etc username).
Proof. apply pure_bind; [auto|]. intros ?. apply pure_bind; [auto|]. intros ?. apply pure_bind; auto. Qed.

Lemma read_labelled_done fault site label path s a s' l :
  read_labelled fault site label path s = (inl a, s', l) → read_file s path = Some a.
Proof.
  unfold read_labelled, log_bind, live, read_to_string. destruct (fault site), (read_file s path); cbn; try done. by intros [= <- <- <-].
Qed.

Lemma verify_adoptable fault etc username s s' l passwd groups :
  verify_matching_properties fault etc username s = (inl tt, s', l) →
  read_file s (join_path etc "passwd") = Some passwd → read_file s (join_path etc "group") = Some groups →
  adoptable username passwd groups.
Proof.
  intros E Hp Hg. unfold verify_matching_properties in E.
  apply log_bind_done in E as (p & s1 & ? & ? & E1 & E & _). destruct (pure_read fault ReadEntry "could not read installed passwd" (join_path etc "passwd") s) as [? Ep].
  rewrite Ep in E1. injection E1 as -> <- <-. apply read_labelled_done in Ep. rewrite Hp in Ep. injection Ep as <-.
  apply log_bind_done in E as ([] & s2 & ? & ? & E1 & E & _).
  destruct (check_shell username passwd) as [[]|] eqn:Es; [|done]. injection E1 as <- <-.
  apply log_bind_done in E as (g & s3 & ? & ? & E1 & E & _). apply read_labelled_done in E1. rewrite Hg in E1. injection E1 as <-.
  split; [by apply check_shell_Ok|]. apply check_groups_Ok.
  destruct (check_groups username groups EXPECTED_GROUPS) as [[]|]; [done|done].
Qed.

(** ** What the steps leave alone *)

(** Every outcome of a step relates the states by [R] and logs only events in
    [P]. *)
Section Steps.
Context (R : relation Fs) (P : AccountEvent → Prop) `{HR : !PreOrder R}.

Definition within {A} (c : Account A) : Prop := ∀ s r s' l, c s = (r, s', l) → R s s' ∧ Forall P l.

Lemma within_pure {A} (c : Account A) : pure_step c → within c.
Proof. intros Hc s r s' l E. destruct (Hc s) as [? E']. rewrite E' in E. simplify_eq. split; [reflexivity|done]. Qed.

Lemma within_bind {A B} (c : Account A) (k : A → Account B) : within c → (∀ a, within (k a)) → within (log_bind c k).
Proof.
  intros Hc Hk s r s' l [(a & s1 & l1 & l2 & E1 & E2 & ->)|(e & E & _)]%log_bind_cases; [|by eapply Hc].
  destruct (Hc _ _ _ _ E1) as [? ?], (Hk a _ _ _ _ E2) as [? ?]. split; [by etrans|]. by apply Forall_app.
Qed.

Lemma within_run tool program args :
  (∀ s, R s (snd (tool (program :: args) s))) → P (Ran (program :: args)) → within (run tool program args).
Proof.
  intros Ht Hp s r s' l E. unfold run in E. specialize (Ht s). destruct (tool (program :: args) s) as [status fs'].
  simplify_eq. split; [done|by constructor].
Qed.

Lemma within_perform k :
  (∀ s, R s (final (k s))) → (∀ fs, P (Passed fs)) → within (perform k).
Proof.
  intros Hk Hp s r s' l E. unfold perform in E. simplify_eq. split; [done|]. apply Forall_fmap, Forall_forall. intros ? _. apply Hp.
Qed.

Context (fault : Site → option string) (gf sf : AccountFaults) (mkdir : option (nat * string)).
Context (tool : list string → Fs → result bool * Fs).
Context (Htool : ∀ argv s, R s (snd (tool argv s))) (Hpass : ∀ fs, P (Passed fs)).

Lemma within_groups deploy :
  (∀ c s, R s (final (write_replacing gf (join_path deploy "etc/group") c s))) →
  within (ensure_expected_groups fault gf deploy).
Proof.
  intros Hw. apply within_bind; [by apply within_pure, pure_read|]. intros ?.
  apply within_bind; [apply within_pure, pure_live|]. intros fs. apply within_bind.
  { apply within_pure. intros s. destruct (fault ReadBaseGroup), (read_file fs (join_path deploy "usr/lib/group")); by eexists. }
  intros ?. apply within_bind; [apply within_pure, pure_of_result|]. intros ?.
  destruct (String.eqb _ _); [apply within_pure, pure_ret|by apply within_perform].
Qed.

Lemma within_shadow path username hash :
  (∀ c s, R s (final (write_replacing sf path c s))) → within (replace_shadow_hash fault sf path username hash).
Proof.
  intros Hw. apply within_bind; [by apply within_pure, pure_read|]. intros ?.
  apply within_bind; [apply within_pure, pure_of_result|]. intros ?. by apply within_perform.
Qed.

Lemma within_home etc home username :
  (∀ s, R s (snd (create_dir_all mkdir home s))) →
  (∀ program args, program ∈ ["/usr/bin/chown"; "/usr/bin/chmod"; "/usr/bin/cp"; "/usr/bin/restorecon"] → P (Ran (program :: args))) →
  within (furnish_home fault mkdir tool etc home username).
Proof.
  intros Hd Hp. apply within_bind.
  { intros s r s' l E. specialize (Hd s). destruct (create_dir_all mkdir home s) as [o fs']. simplify_eq. split; [done|by constructor]. }
  intros ?. apply within_bind; [by apply within_pure, pure_read|]. intros ?.
  apply within_bind; [apply within_pure, pure_of_result|]. intros ?. cbn zeta.
  assert (∀ p args, p ∈ ["/usr/bin/chown"; "/usr/bin/chmod"; "/usr/bin/cp"; "/usr/bin/restorecon"] → within (run tool p args)) as Hrun
    by (intros; apply within_run; auto).
  apply within_bind; [apply Hrun; set_solver|]. intros ?. apply within_bind; [apply Hrun; set_solver|]. intros ?.
  apply within_bind; [apply within_pure, pure_live|]. intros fs. apply within_bind.
  { destruct (is_directory _); [|apply within_pure, pure_ret]. apply within_bind; [apply Hrun; set_solver|].
    intros ?. apply Hrun. set_solver. }
  intros ? s r s' l E. simplify_eq. split; [done|]. constructor; [|done]. apply Hp. set_solver.
Qed.

End Steps.

Definition any_state : relation Fs := λ _ _, True.
#[local] Instance any_state_preorder : PreOrder any_state.
Proof. by split. Qed.

Lemma setup_passes fault etc : within any_state (λ e, ∃ fs, e = Passed fs) (complete_plasma_setup fault etc).
Proof.
  unfold complete_plasma_setup. apply within_bind; [apply _|apply within_pure; [apply _|apply pure_live]|]. intros fs.
  apply within_bind; [apply _|apply within_pure; [apply _|apply pure_of_result]|]. intros stale.
  assert (∀ l : list Fs, Forall (λ e, ∃ fs, e = Passed fs) (Passed <$> l)) as Hl
    by (intros l; apply Forall_fmap, Forall_forall; eauto).
  apply within_bind; [apply _| |].
  - induction stale as [|[b p] stale IH]; cbn; [apply within_pure; [apply _|apply pure_ret]|].
    apply within_bind; [apply _| |by intros ?]. intros s r s' l E. split; [done|]. unfold remove_autologin in E.
    repeat case_match; simplify_eq; first [exact (Hl []) | exact (Hl [_]) | exact (Hl [_; _])].
  - intros ? s r s' l E. split; [done|]. unfold place_marker in E.
    repeat case_match; simplify_eq; first [exact (Hl []) | exact (Hl [_]) | exact (Hl [_; _]) | exact (Hl [_; _; _])].
Qed.

(** ** Replacing a database *)

Lemma account_write_ok f d name contents fs :
  contains_char "/" name = false → with_extension "kyth-tmp" name ≠ name → fs_wf fs →
  let path := d +:+ "/" +:+ name in
  let r := write_replacing f path contents fs in
  write_ok path contents fs r ∧ (read_file (final r) path = read_file fs path ∨ read_file (final r) path = Some contents).
Proof.
  intros Hn Hne Hw path r. subst r. unfold write_replacing.
  destruct (wr_open f); [split; [by apply write_ok_refused|by left]|].
  destruct (read_file fs path) eqn:Er; [|split; [by apply write_ok_refused|left; exact Er]].
  destruct (wr_stat f); [split; [by apply write_ok_refused|left; exact Er]|].
  destruct (parent_dir path); [rewrite <-Er|split; [by apply write_ok_refused|left; exact Er]].
  apply replace_cleanup_ok; [done|]. subst path. rewrite with_extension_below by done. by intros E%append_inj_l%append_inj_l.
Qed.

Lemma account_write_framed f path contents fs :
  run_framed [path; with_extension "kyth-tmp" path] fs (write_replacing f path contents fs).
Proof.
  unfold write_replacing. destruct (wr_open f); [apply run_framed_refused|].
  destruct (read_file fs path); [|apply run_framed_refused].
  destruct (wr_stat f); [apply run_framed_refused|]. destruct (parent_dir path); [|apply run_framed_refused].
  apply run_framed_cleanup; [set_solver|]. intros ?. apply replace_protocol_framed.
Qed.

(** The labels of the new file after a successful copy. *)
Lemma copy_labels_ok os names target target' :
  copy_labels os names target = (Ok tt, target') →
  (∀ n, n ∈ names → signature n = false →
     target' !! n = Some (snd (xo_read os n)) ∧ fst (xo_read os n) = xo_length os n ∧ 0 <= xo_length os n <= XATTR_BOUND) ∧
  (∀ n, signature n = true ∨ n ∉ names → target' !! n = target !! n).
Proof.
  revert target. induction names as [|m names IH]; intros target; cbn [copy_labels]; [intros [= <-]; split; [set_solver|done]|].
  destruct (signature m) eqn:Es.
  { intros E. destruct (IH _ E) as [H1 H2]. split.
    - intros n [->|Hn]%elem_of_cons Hs; [congruence|auto].
    - intros n [?|Hn]; apply H2; [by left|right; contradict Hn; by right]. }
  destruct (contains_char NUL m); [done|]. destruct (negb _) eqn:El; [done|]. destruct (negb (_ =? _)) eqn:Er; [done|].
  destruct (xo_set os m); [done|]. intros E. destruct (IH _ E) as [H1 H2].
  apply negb_false_iff in El, Er. apply andb_true_iff in El as [? ?]. assert (fst (xo_read os m) = xo_length os m) by lia.
  split.
  - intros n Hn Hs. destruct (decide (n ∈ names)) as [Hin|Hin]; [auto|].
    apply elem_of_cons in Hn as [->|?]; [|done]. rewrite H2 by auto. rewrite lookup_insert_eq. split_and!; [done..|lia|lia].
  - intros n Hn. rewrite H2 by (destruct Hn as [?|Hn]; [by left|right; contradict Hn; by right]).
    apply lookup_insert_ne. intros ->. destruct Hn as [?|Hn]; [congruence|apply Hn; by left].
Qed.

Lemma replace_protocol_gate f path temporary data fs :
  outcome (replace_protocol f path temporary data fs) = Ok tt → ∃ fs3, st_gate f fs3 = None.
Proof.
  unfold replace_protocol. destruct (st_create f), (dir fs !! temporary); try done. destruct (st_write f) as [[]|]; [done|].
  destruct (st_sync f); [done|]. cbn zeta. destruct (st_gate f _) eqn:E; [done|eauto].
Qed.

(** A database is published only with its labels: after a successful replacement
    every attribute the old file lists, signatures apart, is on the new file with
    the value read. *)
Theorem published_with_labels f path contents fs
  (E : outcome (write_replacing f path contents fs) = Ok tt) :
  let os := wr_xattrs f in
  (xo_size os < 0 ∧ xo_unsupported os = true) ∨
  ∀ n, n ∈ label_names (fst (xo_listed os)) (snd (xo_listed os)) → signature n = false →
    snd (copy_account_xattrs os (wr_created f)) !! n = Some (snd (xo_read os n)).
Proof.
  intros os. unfold write_replacing in E. destruct (wr_open f), (read_file fs path); try done.
  destruct (wr_stat f), (parent_dir path); try done. unfold with_cleanup in E. destruct (outcome (replace_protocol _ _ _ _ _)) as [[]|] eqn:Er; [|done].
  apply replace_protocol_gate in Er as [? Eg]. cbn in Eg. destruct (account_metadata f) as [[]|] eqn:Em; [|done].
  unfold account_metadata in Em. destruct (wr_chown f), (wr_chmod f); try done. cbn in Em. fold os in Em |- *.
  unfold copy_account_xattrs in *. destruct (Z.ltb_spec (xo_size os) 0).
  { left. by destruct (xo_unsupported os). }
  right. destruct (_ <? xo_size os); [done|]. destruct (xo_listed os) as [size buffer]. destruct (_ || _); [done|].
  destruct (copy_labels _ _ _) as [[[]|] t] eqn:El; [|done]. intros n Hn Hs. by eapply copy_labels_ok.
Qed.

(** ** The home directory *)

(** The directories [create_dir_all] may create. *)
Fixpoint dir_prefixes (base : string) (cs : list string) : list string :=
  match cs with
  | [] => []
  | c :: cs => (base +:+ "/" +:+ c) :: dir_prefixes (base +:+ "/" +:+ c) cs
  end.

Lemma make_dirs_entry base cs fs q : q ∉ dir_prefixes base cs → dir (snd (make_dirs base cs fs)) !! q = dir fs !! q.
Proof.
  revert base fs. induction cs as [|c cs IH]; intros base fs Hq; cbn in *; [done|].
  apply not_elem_of_cons in Hq as [Hne Hq]. destruct (dir fs !! _) as [[|[]]|] eqn:E; cbn; auto.
  rewrite IH by done. cbn. by rewrite lookup_insert_ne.
Qed.

Lemma dir_prefixes_take base cs n : dir_prefixes base (take n cs) ⊆ dir_prefixes base cs.
Proof.
  revert base n. induction cs as [|c cs IH]; intros base [|n]; cbn; [done..| |].
  - apply list_subseteq_nil.
  - apply list_subseteq_skip, IH.
Qed.

Lemma create_dir_all_entry mkdir path fs q :
  q ∉ dir_prefixes EmptyString (components path) → dir (snd (create_dir_all mkdir path fs)) !! q = dir fs !! q.
Proof.
  intros Hq. unfold create_dir_all. destruct mkdir as [[n e]|]; cbn; apply make_dirs_entry; [|done].
  contradict Hq. by eapply dir_prefixes_take.
Qed.

(** ** The properties *)

(** The group overlay of a required group database: a successful overlay keeps
    the local database as its beginning, every record of it unchanged, has every
    required group, takes each added record from the image with an identifier no
    local group has, and is left alone by a second run. *)
Theorem group_overlay_complete local base out
  (Hl : no_cr local) (Hb : no_cr base) (E : expected_group_overlay local base = Ok out) :
  ∃ l b m, records local = Ok l ∧ records base = Ok b ∧ records out = Ok m ∧
    starts_with local out = true ∧ l ⊆ m ∧ (∀ g, g ∈ EXPECTED_GROUPS → is_Some (m !! g)) ∧
    (∀ g e, m !! g = Some e → l !! g = Some e ∨
       (g ∈ EXPECTED_GROUPS ∧ b !! g = Some e ∧ ∀ n e', l !! n = Some e' → fst e' ≠ fst e)) ∧
    expected_group_overlay out base = Ok out.
Proof.
  unfold expected_group_overlay in *. destruct (records local) as [l|] eqn:El; [|done]. destruct (records base) as [b|] eqn:Eb; [|done].
  cbn [rbind] in E. destruct (add_groups_ok l b base EXPECTED_GROUPS local out l E) as (m & H1 & H2 & H3 & H4 & H5);
    [by apply records_sound|done|by apply (bool_decide_unpack _)|done..|].
  exists l, b, m. split_and!; [done..|]. rewrite H1. cbn [rbind]. by apply add_groups_skip.
Qed.

Definition group_line (name gid : string) : string := name +:+ ":x:" +:+ gid +:+ ":" +:+ newline.
Lemma group_overlay_complete_witness :
  ∃ l b m, records (group_line "wheel" "10") = Ok l ∧
    records (group_line "video" "39" +:+ group_line "audio" "63" +:+ group_line "render" "105") = Ok b ∧
    records (group_line "wheel" "10" +:+ group_line "video" "39" +:+ group_line "audio" "63" +:+ group_line "render" "105") = Ok m ∧
    l ⊆ m ∧ (∀ g, g ∈ EXPECTED_GROUPS → is_Some (m !! g)).
Proof.
  destruct (group_overlay_complete (group_line "wheel" "10")
              (group_line "video" "39" +:+ group_line "audio" "63" +:+ group_line "render" "105")
              (group_line "wheel" "10" +:+ group_line "video" "39" +:+ group_line "audio" "63" +:+ group_line "render" "105"))
    as (l & b & m & H1 & H2 & H3 & _ & H4 & H5 & _); [by vm_compute..|]. exists l, b, m. done.
Defined.

Lemma hash_text_valid input roots : validate_account input = Ok roots → hash_text (cu_password_hash input).
Proof.
  unfold validate_account. intros E. res_inv. destruct (negb (valid_username _)); [done|].
  destruct (_ || _) eqn:Eb; [done|]. rewrite !orb_false_iff in Eb. destruct Eb as ((((? & ?) & ?) & ?) & ?). done.
Qed.

(** For a validated account, replacing the password hash in the installed
    shadow database: whatever fails and whenever the machine crashes, the file is
    the old database or the new one; after success it is the new one, durably; and
    the new one differs from the old in the hash of the user's records only. *)
Theorem shadow_hash_replaced fault f input roots d fs old
  (Hv : validate_account input = Ok roots) (Hw : fs_wf fs) (Hold : read_file fs (d +:+ "/shadow") = Some old) (Hcr : no_cr old) :
  let path := d +:+ "/shadow" in
  let '(r, fs', events) := replace_shadow_hash fault f path (cu_username input) (cu_password_hash input) fs in
  (r ≠ inl tt ∧ fs' = fs ∧ events = []) ∨
  ∃ new, fields_of new = rehash (cu_username input) (cu_password_hash input) <$> fields_of old ∧
    existsb (entry_of (cu_username input)) (fields_of old) = true ∧
    (∀ v x, Passed v ∈ events → crash_read v path x → crash_read fs path x ∨ x = Some new) ∧
    (read_file fs' path = Some old ∨ read_file fs' path = Some new) ∧
    (r = inl tt → read_file fs' path = Some new ∧ ∀ x, crash_read fs' path x → x = Some new).
Proof.
  cbn zeta. set (path := d +:+ "/shadow") in *. unfold replace_shadow_hash, log_bind.
  destruct (pure_read fault ReadShadow "could not read installed shadow" path fs) as [[content|e] E]; rewrite E; [|by left].
  apply read_labelled_done in E. rewrite Hold in E. injection E as <-.
  destruct (shadow_edit _ _ old) as [new|e] eqn:Ee; cbn; [|by left].
  apply shadow_edit_fields in Ee as [H1 H2]; [|by eapply hash_text_valid|done]. right. exists new.
  destruct (account_write_ok f d "shadow" new fs eq_refl ltac:(by vm_compute) Hw) as [[_ W2 W3] W4].
  change (d +:+ "/" +:+ "shadow") with path in *. rewrite Hold in W4. split_and!; [done..| |done|].
  - intros v x (v' & [= <-] & Hin)%list_elem_of_fmap Hx. by eapply W2.
  - intros Hr. apply W3. destruct (outcome _) as [[]|]; done.
Qed.

Definition sample_account : CreateUserInput :=
  {| cu_deploy_root := "/d"; cu_target_root := "/t"; cu_username := "kyth"; cu_password_hash := "$6$a" |}.
Definition sample_fs (l : list (string * string)) : Fs :=
  {| inodes := list_to_map (imap (λ i x, (i, {| contents := snd x; synced := true |})) l);
     dir := list_to_map (imap (λ i x, (fst x, Regular i)) l); durable := list_to_map (imap (λ i x, (fst x, Regular i)) l);
     next_inode := List.length l |}.
Definition unlabelled : XattrOs :=
  {| xo_size := 0; xo_unsupported := false; xo_error := EmptyString; xo_listed := (0, EmptyString); xo_length _ := 0;
     xo_read _ := (0, EmptyString); xo_set _ := None |}.
Definition no_account_faults : AccountFaults :=
  {| wr_open := None; wr_stat := None; wr_create := None; wr_write := None; wr_sync := None; wr_chown := None; wr_chmod := None;
     wr_xattrs := unlabelled; wr_created := ∅; wr_resync := None; wr_rename := None; wr_sync_dir := None;
     wr_remove := false; wr_cleanup := false |}.

Lemma fs_wf_sample l : fs_wf (sample_fs l).
Proof.
  intros p i [H|H]; apply elem_of_list_to_map_2, elem_of_lookup_imap in H as (k & x & [= -> ->] & Hk);
    (split; [by apply lookup_lt_Some in Hk|]); cbn; eexists; apply elem_of_list_to_map.
  all: try (apply elem_of_lookup_imap; exists k, x; done).
  all: rewrite fmap_imap; apply NoDup_alt; intros a b y; rewrite !list_lookup_imap; cbn;
    destruct (l !! a), (l !! b); cbn; congruence.
Qed.

(** A machine with one line of the shadow database. *)
Lemma shadow_hash_replaced_witness :
  let old := "kyth:!:1::" +:+ newline in
  let path := "/d/etc/shadow" in
  let fs := sample_fs [(path, old)] in
  let '(r, fs', events) := replace_shadow_hash (λ _, None) no_account_faults path "kyth" "$6$a" fs in
  (r ≠ inl tt ∧ fs' = fs ∧ events = []) ∨
  ∃ new, fields_of new = [["kyth"; "$6$a"; "1"; EmptyString; EmptyString]] ∧ read_file fs' path = Some new.
Proof.
  pose proof (shadow_hash_replaced (λ _, None) no_account_faults sample_account ("/d", "/t") "/d/etc"
    (sample_fs [("/d/etc/shadow", "kyth:!:1::" +:+ newline)]) ("kyth:!:1::" +:+ newline)
    ltac:(by vm_compute) (fs_wf_sample _) ltac:(by vm_compute) ltac:(by vm_compute)) as H. cbn zeta in *.
  change ("/d/etc" +:+ "/shadow") with "/d/etc/shadow" in H. change (cu_username sample_account) with "kyth" in H.
  change (cu_password_hash sample_account) with "$6$a" in H.
  assert (fst (fst (replace_shadow_hash (λ _, None) no_account_faults "/d/etc/shadow" "kyth" "$6$a"
    (sample_fs [("/d/etc/shadow", "kyth:!:1::" +:+ newline)]))) = inl tt) as Hr by (by vm_compute).
  destruct (replace_shadow_hash _ _ _ _ _ _) as [[r fs'] events]. cbn in Hr. subst r.
  destruct H as [H|(new & H1 & _ & _ & _ & H2)]; [by left|right]. exists new. split; [|exact (proj1 (H2 eq_refl))]. rewrite H1. by vm_compute.
Defined.

Definition not_useradd (e : AccountEvent) : Prop := ∀ args, e ≠ Ran ("/usr/sbin/useradd" :: args).

(** The user is already in the installed passwd database: [useradd] is never
    run; and unless the account has the shell and every group [apply] would give
    it, the operation fails before it has run anything or changed any file. *)
Theorem existing_account_gate fault gf sf mkdir tool input deploy target fs passwd groups
  (Hv : validate_account input = Ok (deploy, target))
  (Hp : read_file fs (join_path (join_path deploy "etc") "passwd") = Some passwd)
  (Hg : read_file fs (join_path (join_path deploy "etc") "group") = Some groups)
  (Hex : existsb (names (cu_username input)) (lines passwd) = true) :
  let '(r, fs', events) := apply fault gf sf mkdir tool input fs in
  Forall not_useradd events ∧
  (¬ adoptable (cu_username input) passwd groups → r ≠ inl tt ∧ fs' = fs ∧ events = []).
Proof.
  set (u := cu_username input) in *. destruct (apply _ _ _ _ _ _ _) as [[r fs'] events] eqn:E. unfold apply in E.
  rewrite Hv in E. cbn [of_result] in E. change (log_bind (log_ret (deploy, target)) ?k fs) with
    (let '(r, s, l) := k (deploy, target) fs in (r, s, [] ++ l)) in E. cbn beta iota zeta in E.
  destruct (log_bind _ _ fs) as [[r0 s0] l0] eqn:E0. injection E as -> -> <-. cbn [app].
  assert (∃ o, create_account fault gf tool deploy (join_path deploy "etc") u fs = (o, fs, []) ∧
            (o = inl tt → adoptable u passwd groups)) as (o & Ec & Ho).
  { unfold create_account, log_bind. destruct (pure_exists fault (join_path (join_path deploy "etc") "passwd") u fs) as [[b|e] Eb];
      rewrite Eb; [|by exists (inr e)].
    unfold target_user_exists, log_bind in Eb. destruct (pure_read fault ReadPasswd "could not read installed passwd"
      (join_path (join_path deploy "etc") "passwd") fs) as [[c|e] Er]; rewrite Er in Eb; [|done].
    apply read_labelled_done in Er. rewrite Hp in Er. injection Er as <-. rewrite Hex in Eb. injection Eb as <-.
    destruct (pure_verify fault (join_path deploy "etc") u fs) as [o Ev]. rewrite Ev. exists o. split; [done|]. intros ->.
    by eapply verify_adoptable. }
  unfold log_bind at 1 in E0. subst u. rewrite Ec in E0. destruct o as [[]|e]; [|injection E0 as <- <- <-; by split].
  split; [|intros Hn; by destruct Hn; apply Ho]. destruct (log_bind _ _ fs) as [[r1 s1] l1] eqn:E1. injection E0 as -> -> <-.
  assert (∀ fs, not_useradd (Passed fs)) as Hpass by (by intros ? ?).
  eapply (within_bind any_state not_useradd) in E1; [exact (proj2 E1)|by apply within_shadow|]. intros ?.
  apply within_bind; [apply _| |].
  - apply within_home; try done. intros program args Hin args' [= -> _]. set_solver.
  - intros ? s r' s' l' Es. destruct (setup_passes _ _ _ _ _ _ Es) as [_ Hl]. split; [done|].
    eapply Forall_impl; [exact Hl|]. by intros ? [? ->].
Qed.

(** A system with an account of the same name and another shell. *)
Lemma existing_account_gate_witness :
  let passwd := "kyth:x:1000:1000::/home/kyth:/bin/zsh" +:+ newline in
  let fs := sample_fs [("/d/etc/passwd", passwd); ("/d/etc/group", EmptyString)] in
  let tool := λ (argv : list string) (s : Fs), (Ok true : result bool, s) in
  let '(r, fs', events) := apply (λ _, None) no_account_faults no_account_faults None tool sample_account fs in
  r ≠ inl tt ∧ fs' = fs ∧ events = [].
Proof.
  pose proof (existing_account_gate (λ _, None) no_account_faults no_account_faults None
    (λ (argv : list string) (s : Fs), (Ok true : result bool, s)) sample_account "/d" "/t"
    (sample_fs [("/d/etc/passwd", "kyth:x:1000:1000::/home/kyth:/bin/zsh" +:+ newline); ("/d/etc/group", EmptyString)])
    ("kyth:x:1000:1000::/home/kyth:/bin/zsh" +:+ newline) EmptyString
    ltac:(by vm_compute) ltac:(by vm_compute) ltac:(by vm_compute) ltac:(by vm_compute)) as H. cbn zeta.
  destruct (apply _ _ _ _ _ _ _) as [[r fs'] events]. apply H. intros [_ Hg]. destruct (Hg "wheel") as (l & Hl & _); [by left|].
  vm_compute in Hl. by apply elem_of_nil in Hl.
Defined.

Definition same_entry (q : string) : relation Fs := λ s s', dir s' !! q = dir s !! q.
#[local] Instance same_entry_preorder q : PreOrder (same_entry q).
Proof. split; [by intros ?|]. intros a b c. unfold same_entry. congruence. Qed.

Lemma etc_paths deploy : ∃ a, join_path deploy "etc/group" = (a +:+ "/etc") +:+ "/" +:+ "group" ∧
  ∀ x, join_path (join_path deploy "etc") x = (a +:+ "/etc") +:+ "/" +:+ x.
Proof.
  destruct (join_path_base deploy) as [a Ha]. exists a. split; [by rewrite Ha, append_assoc|]. intros x.
  rewrite Ha. unfold join_path. change ("/" +:+ "etc") with (String "/" "etc"). by rewrite split_last_app.
Qed.

(** Replacing another database below [d] leaves the entry alone. *)
Lemma account_write_entry f d name q contents s :
  contains_char "/" name = false → q ≠ name → q ≠ with_extension "kyth-tmp" name →
  same_entry (d +:+ "/" +:+ q) s (final (write_replacing f (d +:+ "/" +:+ name) contents s)).
Proof.
  intros Hn H1 H2. destruct (account_write_framed f (d +:+ "/" +:+ name) contents s) as [_ Hf].
  apply (fr_dir _ _ _ Hf). rewrite with_extension_below by done.
  intros [E|[E|E%elem_of_nil]%elem_of_cons]%elem_of_cons; [| |done];
    apply append_inj_l, append_inj_l in E; by subst.
Qed.

(** The completion marker of Plasma Setup is placed last: if it has changed when
    the operation ends, the account was created or adopted, its password hash set
    and its home directory furnished, all successfully and in this order. The tools
    are assumed not to place the marker, and the home directory not to lie below
    it. *)
Theorem setup_marker_last fault gf sf mkdir tool input deploy target fs r fs' events
  (Hv : validate_account input = Ok (deploy, target))
  (Htool : ∀ argv s, same_entry (join_path (join_path deploy "etc") "plasma-setup-done") s (snd (tool argv s)))
  (Hhome : join_path (join_path deploy "etc") "plasma-setup-done"
             ∉ dir_prefixes EmptyString (components (user_home target (cu_username input))))
  (E : apply fault gf sf mkdir tool input fs = (r, fs', events))
  (Hmark : ¬ same_entry (join_path (join_path deploy "etc") "plasma-setup-done") fs fs') :
  let etc := join_path deploy "etc" in
  ∃ s1 s2 s3 l1 l2 l3 l4, events = l1 ++ l2 ++ l3 ++ l4 ∧
    create_account fault gf tool deploy etc (cu_username input) fs = (inl tt, s1, l1) ∧
    replace_shadow_hash fault sf (join_path etc "shadow") (cu_username input) (cu_password_hash input) s1 = (inl tt, s2, l2) ∧
    furnish_home fault mkdir tool etc (user_home target (cu_username input)) (cu_username input) s2 = (inl tt, s3, l3) ∧
    complete_plasma_setup fault etc s3 = (r, fs', l4).
Proof.
  intros etc. set (u := cu_username input) in *. set (marker := join_path etc "plasma-setup-done").
  fold etc marker in Htool, Hhome, Hmark. destruct (etc_paths deploy) as (a & Hgroup & Hetc). fold etc in Hetc.
  assert (∀ name c f s, contains_char "/" name = false → "plasma-setup-done" ≠ name → "plasma-setup-done" ≠ with_extension "kyth-tmp" name →
    same_entry marker s (final (write_replacing f (join_path etc name) c s))) as Hwr.
  { intros name c f s H1 H2 H3. unfold marker. rewrite !Hetc. by apply account_write_entry. }
  assert (within (same_entry marker) (λ _, True) (create_account fault gf tool deploy etc u)) as W1.
  { apply within_bind; [apply _|apply within_pure; [apply _|apply pure_exists]|]. intros [].
    - apply within_pure; [apply _|apply pure_verify].
    - apply within_bind; [apply _| |intros ?; apply within_run; [apply Htool|done]].
      apply within_groups; [apply _|done|]. intros c s. rewrite Hgroup, <-Hetc. by apply Hwr. }
  assert (within (same_entry marker) (λ _, True) (replace_shadow_hash fault sf (join_path etc "shadow") u (cu_password_hash input))) as W2.
  { apply within_shadow; [apply _|done|]. intros c s. by apply Hwr. }
  assert (within (same_entry marker) (λ _, True) (furnish_home fault mkdir tool etc (user_home target u) u)) as W3.
  { apply within_home; [apply _|done|done| |done]. intros s. by apply create_dir_all_entry. }
  unfold apply in E. rewrite Hv in E. change (log_bind (of_result (Ok (deploy, target))) ?k fs) with
    (let '(r, s, l) := k (deploy, target) fs in (r, s, [] ++ l)) in E. cbn beta iota zeta in E. fold etc u in E.
  destruct (log_bind _ _ fs) as [[r0 s0] l0] eqn:E0. injection E as -> -> <-. cbn [app].
  apply log_bind_cases in E0 as [([] & s1 & l1 & l1' & E1 & E0 & ->)|(e & E1 & _)]; [|by destruct Hmark; eapply W1].
  destruct (W1 _ _ _ _ E1) as [M1 _].
  apply log_bind_cases in E0 as [([] & s2 & l2 & l2' & E2 & E0 & ->)|(e & E2 & _)]; [|destruct Hmark; etrans; [exact M1|by eapply W2]].
  destruct (W2 _ _ _ _ E2) as [M2 _].
  apply log_bind_cases in E0 as [([] & s3 & l3 & l4 & E3 & E0 & ->)|(e & E3 & _)];
    [|destruct Hmark; etrans; [exact M1|]; etrans; [exact M2|by eapply W3]].
  by exists s1, s2, s3, l1, l2, l3, l4.
Qed.

Definition member_line (name gid : string) : string := name +:+ ":x:" +:+ gid +:+ ":kyth" +:+ newline.
Definition ready_fs : Fs :=
  sample_fs [("/d/etc/passwd", "kyth:x:1000:1000::/home/kyth:/bin/bash" +:+ newline);
             ("/d/etc/group", member_line "wheel" "10" +:+ member_line "video" "39" +:+ member_line "audio" "63" +:+ member_line "render" "105");
             ("/d/etc/shadow", "kyth:!:1::" +:+ newline)].
Definition idle_tool (argv : list string) (s : Fs) : result bool * Fs := (Ok true, s).

(** A retry after a crash: the account is adopted, and the marker placed. *)
Lemma setup_marker_last_witness :
  let '(r, fs', events) := apply (λ _, None) no_account_faults no_account_faults None idle_tool sample_account ready_fs in
  r = inl tt ∧ ∃ s3 l4, complete_plasma_setup (λ _, None) "/d/etc" s3 = (inl tt, fs', l4).
Proof.
  pose (out := apply (λ _, None) no_account_faults no_account_faults None idle_tool sample_account ready_fs).
  assert (fst (fst out) = inl tt) as Hr by (by vm_compute).
  assert (dir (snd (fst out)) !! "/d/etc/plasma-setup-done" = Some (Regular 4)) as Hm by (by vm_compute).
  subst out. destruct (apply _ _ _ _ _ _ _) as [[r fs'] events] eqn:E. cbn [fst snd] in Hr, Hm. subst r.
  split; [done|].
  destruct (setup_marker_last (λ _, None) no_account_faults no_account_faults None idle_tool sample_account "/d" "/t" ready_fs (inl tt) fs' events)
    as (s1 & s2 & s3 & l1 & l2 & l3 & l4 & _ & _ & _ & _ & H); [by vm_compute|intros ? ?; reflexivity|apply (bool_decide_unpack _); by vm_compute|exact E| |by exists s3, l4].
  unfold same_entry. change (join_path (join_path "/d" "etc") "plasma-setup-done") with "/d/etc/plasma-setup-done". rewrite Hm. by vm_compute.
Defined.
