(* ===== verification/Assurance.v ===== *)
(** The checks of an installed target: [installer_assurance.rs].

    The checks read the installed tree through [TargetView], whose answers are
    arbitrary; [view_of] is the view of the file system of FileSystem.v.  What the
    configuration and the account operation wrote passes the checks that look at
    it. *)

From S2P Require Import Prelude RustStr RustOs Json FileSystem InstallerPlan Configuration ExecutionPlan PhaseExecutor ExecutorSafety Accounts.

(** * The installed tree *)

Inductive Kind := IsFile | IsDir | IsLink | IsOther.

(** [fs::symlink_metadata] *)
Inductive Metadata := Missing | Unreadable (e : string) | Found (k : Kind).

(** The answers of the operating system; a directory that can be listed gives the
    names of its readable entries. *)
Record TargetView := {
  tv_lstat : string → Metadata;
  tv_read : string → result string;
  tv_link : string → result string;
  tv_list : string → option (list string);
}.

(** ** The mounted ESP

    The directory tree as [read_dir] shows it below [EFI], and which paths
    [symlink_metadata] calls regular files (FAT ignores case there). *)
Inductive EspNode :=
| EspDir (entries : option (list EspNode))
| EspEntry (name : string) (regular : bool).

Record EspOs := {
  eo_tempdir : result string;
  eo_mount : result bool;
  eo_mount_stderr : string;
  eo_regular : string → bool;
  eo_efi : option (list EspNode);
  eo_umount : result bool;
  eo_umount_stderr : string;
}.

(** [path.extension()] of a file name. *)
Definition file_extension (name : string) : option string :=
  match split_last "." name with
  | Some (stem, ext) => if is_empty stem then None else Some ext
  | None => None
  end.

Fixpoint efi_node (n : EspNode) : bool :=
  match n with
  | EspDir (Some entries) => (fix any l := match l with [] => false | n :: l => efi_node n || any l end) entries
  | EspDir None => false
  | EspEntry name regular =>
      match file_extension name with Some ext => eq_ignore_ascii_case ext "efi" | None => false end && regular
  end.
Definition efi_file_present (entries : option (list EspNode)) : bool := efi_node (EspDir entries).

(** * The checks *)

Definition MAX_TARGET_ROOT_BYTES : Z := 4096.
Definition MAX_COMMAND_OUTPUT_BYTES : Z := 1048576.

Record AssuranceCheck := { ac_name : string; ac_status : string; ac_detail : string }.

Record FstabEntry := { fb_source : string; fb_mountpoint : string; fb_fstype : string }.

Definition safe_target_root (raw : string) : result string :=
  let value := trim raw in
  guard! is_empty value || (MAX_TARGET_ROOT_BYTES <? slen value) || negb (starts_with "/" value)
         || contains_str ".." value || negb (str_all root_byte value)
    else "installed target root is not a safe absolute path";
  Ok value.

(** What is done to the machine. *)
Inductive AssuranceEvent := MountedEsp (device target : string) | UnmountedEsp (target : string).

Section Assurance.
Context (view : TargetView) (esp : string → EspOs) `{HRun : Runner} (stderr : string → list string → string).

Definition regular_file (path label : string) : result unit :=
  match tv_lstat view path with
  | Missing => Err ("could not inspect installed " +:+ label +:+ ": " +:+ ENOENT)
  | Unreadable e => Err ("could not inspect installed " +:+ label +:+ ": " +:+ e)
  | Found IsFile => Ok tt
  | Found _ => Err ("installed " +:+ label +:+ " is not a regular file")
  end.
Definition real_directory (path label : string) : result unit :=
  match tv_lstat view path with
  | Missing => Err ("could not inspect installed " +:+ label +:+ ": " +:+ ENOENT)
  | Unreadable e => Err ("could not inspect installed " +:+ label +:+ ": " +:+ e)
  | Found IsDir => Ok tt
  | Found _ => Err ("installed " +:+ label +:+ " is not a real directory")
  end.

Definition list_dir (path : string) : list string := unwrap_or (tv_list view path) [].
Definition is_regular (path : string) : bool := match tv_lstat view path with Found IsFile => true | _ => false end.

Definition contains_real_entry (path : string) : bool :=
  existsb (λ name, match tv_lstat view (join_path path name) with
                   | Found IsLink => false
                   | Found _ => true
                   | _ => false
                   end) (list_dir path).
Definition has_loader_entry (path : string) : bool :=
  existsb (λ name, match file_extension name with Some ext => String.eqb ext "conf" | None => false end
                   && is_regular (join_path path name)) (list_dir path).

Definition boot_metadata_reason (root : string) : option string :=
  if has_loader_entry (join_path root "boot/loader/entries") then Some "boot loader entries are present"
  else if contains_real_entry (join_path root "boot/efi/EFI") then Some "EFI boot files are present"
  else if contains_real_entry (join_path root "ostree/deploy") then Some "ostree deployment metadata is present"
  else None.

Definition command_output (program : string) (args : list string) : result string :=
  let? output := map_err (λ e, "could not run " +:+ program +:+ ": " +:+ e) (run_command program args) in
  guard! negb (success output) else (program +:+ " failed: " +:+ trim (stderr program args));
  guard! MAX_COMMAND_OUTPUT_BYTES <? slen (co_stdout output) else (program +:+ " output was too large");
  guard! negb (co_utf8 output) else (program +:+ " output was not UTF-8");
  Ok (co_stdout output).

(** ** The fstab *)

Fixpoint parse_fstab_lines (index : Z) (ls : list string) : result (list FstabEntry) :=
  match ls with
  | [] => Ok []
  | raw :: ls =>
      let line := trim raw in
      if is_empty line || starts_with "#" line then parse_fstab_lines (index + 1) ls
      else
        let? _ := map_err (λ e, "installed fstab line " +:+ show_int (index + 1) +:+ " is invalid: " +:+ e)
                    (validate_fstab_line (line +:+ newline)) in
        let fields := split_whitespace line in
        let? rest := parse_fstab_lines (index + 1) ls in
        Ok ({| fb_source := unwrap_or (fields !! 0%nat) EmptyString; fb_mountpoint := unwrap_or (fields !! 1%nat) EmptyString;
               fb_fstype := unwrap_or (fields !! 2%nat) EmptyString |} :: rest)
  end.
Definition parse_fstab_entries (content : string) : result (list FstabEntry) := parse_fstab_lines 0 (lines content).

Definition is_esp_mountpoint (mountpoint : string) : bool := str_in mountpoint ["/boot/efi"; "/efi"; "/boot"].
Definition is_esp_entry (e : FstabEntry) : bool :=
  eq_ignore_ascii_case (fb_fstype e) "vfat" && is_esp_mountpoint (fb_mountpoint e).
Definition esp_device_from_entries (entries : list FstabEntry) : option string :=
  e ← find_first is_esp_entry entries;
  uuid ← strip_prefix "UUID=" (fb_source e);
  if is_empty uuid then None else Some ("/dev/disk/by-uuid/" +:+ uuid).

Definition efi_booted_in (sys_root : string) : bool :=
  match tv_lstat view (join_path sys_root "sys/firmware/efi") with Found IsDir => true | _ => false end.

(** ** The ESP *)

Definition Assure := Log unit AssuranceEvent string.
Definition check_result {A} (r : result A) : Assure A := match r with Ok a => log_ret a | Err e => log_fail e end.

(** The closure of [verify_esp_bootloaders]. *)
Definition esp_contents (os : EspOs) : result string :=
  let? loader := ok_or (find_first (λ name, eo_regular os ("EFI/BOOT/" +:+ name)) ["bootx64.efi"; "BOOTX64.EFI"; "Bootx64.efi"])
                   "ESP has no EFI/BOOT/bootx64.efi" in
  guard! negb (efi_file_present (eo_efi os)) else "ESP has no .efi bootloader payload under EFI/";
  Ok ("EFI/BOOT/" +:+ loader +:+ " landed on the ESP").

Definition verify_esp_bootloaders (device : string) : Assure string :=
  run! _ <- match tv_lstat view device with
            | Missing => log_fail ("ESP device " +:+ device +:+ " is not usable: " +:+ ENOENT)
            | Unreadable e => log_fail ("ESP device " +:+ device +:+ " is not usable: " +:+ e)
            | Found IsLink => log_ret tt
            | Found _ => log_fail ("ESP device " +:+ device +:+ " is not a /dev/disk/by-uuid node")
            end;
  let os := esp device in
  run! target <- check_result (map_err (λ e, "could not create ESP check mountpoint: " +:+ e) (eo_tempdir os));
  run! _ <- match eo_mount os with
            | Err e => log_fail ("could not mount ESP read-only: " +:+ e)
            | Ok false => log_fail ("could not mount ESP read-only: " +:+ trim (eo_mount_stderr os))
            | Ok true => log_out (MountedEsp device target)
            end;
  let check := esp_contents os in
  run! _ <- log_out (UnmountedEsp target);
  run! _ <- match eo_umount os with
            | Err e => log_fail ("could not release ESP check mount: " +:+ e)
            | Ok false => log_fail ("ESP bootloader files verified but the check mount could not be released: "
                                    +:+ trim (eo_umount_stderr os))
            | Ok true => log_ret tt
            end;
  check_result check.

(** ** Kernel and encryption *)

(** The regular files of the boot directories in the order they are visited: the
    directory relative to the root, and the name. *)
Definition boot_dirs (root : string) : list string :=
  "boot" :: ((λ name, "boot/ostree/" +:+ name) <$> list_dir (join_path root "boot/ostree")).
Definition boot_files (root : string) : list (string * string) :=
  flat_map (λ d, (λ name, (d, name)) <$>
    filterb (λ name, is_regular (join_path (join_path root d) name)) (list_dir (join_path root d))) (boot_dirs root).

Definition kernel_detail (root deploy : string) : result string :=
  let files := boot_files root in
  let modules := join_path deploy "usr/lib/modules" in
  match find_first (λ f, starts_with "vmlinuz" (snd f)) files, existsb (λ f, starts_with "initramfs" (snd f)) files with
  | Some (d, name), true => Ok ("kernel and initramfs present (" +:+ d +:+ ":" +:+ name +:+ ")")
  | _, _ =>
      match find_first (λ kver, is_regular (join_path (join_path modules kver) "vmlinuz")) (list_dir modules) with
      | Some kver => Ok ("kernel present in deployment modules (" +:+ kver +:+ ")")
      | None => Err "installed system has no kernel (no vmlinuz+initramfs under target /boot, no vmlinuz in deployment modules)"
      end
  end.

Definition tpm_token_present (luks_dump : string) : bool := contains_str "systemd-tpm2" luks_dump.

Definition luks_device (line : string) : option string :=
  match split_whitespace line with
  | name :: fstype :: _ => if eq_ignore_ascii_case fstype "crypto_LUKS" then Some name else None
  | _ => None
  end.

(** The loop over the LUKS partitions. *)
Fixpoint find_keyslot (devices : list string) : result string :=
  match devices with
  | [] => Err "TPM2 encryption was requested but no TPM-bound keyslot (systemd-tpm2 token) was found; the disk cannot be unlocked automatically"
  | device :: devices =>
      let? dump := command_output "/usr/sbin/cryptsetup" ["luksDump"; device] in
      if tpm_token_present dump then Ok ("TPM-bound keyslot verified on " +:+ device) else find_keyslot devices
  end.
Definition verify_tpm_encryption (target_disk : string) : result string :=
  let? disk := ok_or (normalize_device_path target_disk) "TPM encryption check needs a valid installed target disk" in
  let? listing := command_output "/usr/sbin/lsblk" ["-npro"; "NAME,FSTYPE"; disk] in
  match omap luks_device (lines listing) with
  | [] => Err ("TPM2 encryption was requested but no LUKS partition was found on " +:+ disk)
  | devices => find_keyslot devices
  end.

(** ** [validate] *)

Definition read_checked (path label error : string) : result string :=
  let? _ := regular_file path label in
  map_err (λ e, error +:+ ": " +:+ e) (tv_read view path).

(** The host name, the locale, the keymap and the time zone. *)
Definition check_configured (etc : string) (input : AssuranceInput) : result string :=
  let? hostname := read_checked (join_path etc "hostname") "hostname" "could not read installed hostname" in
  guard! negb (String.eqb (trim hostname) (trim (as_hostname input)))
    else ("installed hostname verification failed: expected " +:+ show_debug (trim (as_hostname input)));
  let? locale := read_checked (join_path etc "locale.conf") "locale configuration" "could not read installed locale" in
  guard! negb (String.eqb (trim locale) ("LANG=" +:+ trim (as_locale input))) else "installed locale verification failed";
  let? keymap := read_checked (join_path etc "vconsole.conf") "console keymap configuration" "could not read installed keymap" in
  guard! negb (String.eqb (trim keymap) ("KEYMAP=" +:+ trim (as_keymap input))) else "installed keymap verification failed";
  let localtime := join_path etc "localtime" in
  let? _ := match tv_lstat view localtime with
            | Missing => Err ("could not inspect installed timezone link: " +:+ ENOENT)
            | Unreadable e => Err ("could not inspect installed timezone link: " +:+ e)
            | Found IsLink => Ok tt
            | Found _ => Err "installed timezone is not a symlink"
            end in
  let? link := map_err (λ e, "could not read installed timezone link: " +:+ e) (tv_link view localtime) in
  guard! negb (same_path link (join_path "/usr/share/zoneinfo" (trim (as_timezone input))))
    else "installed timezone verification failed";
  Ok (trim hostname).

(** The requested account and the handover to the login manager. *)
Definition check_account (etc : string) (input : AssuranceInput) : result unit :=
  let username := trim (as_username input) in
  if is_empty username then Ok tt else
  let? passwd := read_checked (join_path etc "passwd") "passwd database" "could not read installed account database" in
  guard! negb (existsb (names username) (lines passwd))
    else ("installed account " +:+ show_debug username +:+ " was not created");
  let? _ := regular_file (join_path etc "plasma-setup-done") "Plasma Setup completion marker" in
  guard! existsb (λ backend, match tv_lstat view (join_path (join_path etc backend) autologin_name) with
                             | Missing => false
                             | _ => true
                             end) ["plasmalogin.conf.d"; "sddm.conf.d"]
    else "installed Plasma Setup autologin was not removed";
  Ok tt.

Definition passed (name detail : string) : AssuranceCheck :=
  {| ac_name := name; ac_status := "pass"; ac_detail := detail |}.

(** The two trees of the target. *)
Definition target_trees (input : AssuranceInput) : result (string * string) :=
  let? root := safe_target_root (as_target_root input) in
  let? _ := real_directory root "target root" in
  let? deploy := safe_target_root (as_deploy_root input) in
  guard! negb (list_prefix (components (join_path root "ostree/deploy")) (components deploy))
    else "installed deployment is not inside the target root";
  let? _ := real_directory (join_path deploy "etc") "/etc tree" in
  Ok (root, deploy).

Definition check_encryption (input : AssuranceInput) : result string :=
  if eq_ignore_ascii_case (trim (as_encryption input)) "tpm2" then verify_tpm_encryption (as_target_disk input)
  else Ok "encryption not requested".

Definition check_bootloader (reason : string) (entries : list FstabEntry) : Assure string :=
  match esp_device_from_entries entries with
  | Some device => run! detail <- verify_esp_bootloaders device; log_ret (reason +:+ "; " +:+ detail)
  | None =>
      if efi_booted_in "/" then log_fail "system booted via UEFI but the installed fstab has no ESP entry"
      else log_ret (reason +:+ "; no ESP entry in fstab (non-UEFI boot)")
  end.

Definition validate (input : AssuranceInput) : Assure (list AssuranceCheck) :=
  run! trees <- check_result (target_trees input);
  let '(root, deploy) := trees in
  let etc := join_path deploy "etc" in
  run! hostname <- check_result (check_configured etc input);
  run! _ <- check_result (check_account etc input);
  run! fstab <- check_result (read_checked (join_path etc "fstab") "fstab" "could not read installed fstab");
  run! entries <- check_result (parse_fstab_entries fstab);
  run! encryption <- check_result (check_encryption input);
  run! kernel <- check_result (kernel_detail root deploy);
  run! reason <- check_result (ok_or (boot_metadata_reason root)
    "installed system has no boot metadata (loader entries, EFI files, or ostree deployment)");
  run! bootloader <- check_bootloader reason entries;
  log_ret [passed "hostname" hostname; passed "locale" (trim (as_locale input)); passed "keymap" (trim (as_keymap input));
           passed "timezone" (trim (as_timezone input));
           passed "account" (if is_empty (trim (as_username input)) then "no account requested" else trim (as_username input));
           passed "filesystem" (show_int (Z.of_nat (List.length entries)) +:+ " fstab entries parsed and valid");
           passed "encryption" encryption; passed "kernel" kernel; passed "bootloader" bootloader].

End Assurance.

(** * What a passed assurance means *)

Section Sound.
Context (view : TargetView) (esp : string → EspOs) `{HRun : Runner} (stderr : string → list string → string).

(** A regular file whose text satisfies [P]. *)
Definition holds_text (path : string) (P : string → Prop) : Prop :=
  tv_lstat view path = Found IsFile ∧ ∃ text, tv_read view path = Ok text ∧ P text.

(** An installed system as the request wants it. *)
Record Assured (input : AssuranceInput) (root deploy : string) (entries : list FstabEntry) : Prop := {
  sd_inside : list_prefix (components (join_path root "ostree/deploy")) (components deploy) = true;
  sd_hostname : holds_text (join_path (join_path deploy "etc") "hostname") (λ t, trim t = trim (as_hostname input));
  sd_locale : holds_text (join_path (join_path deploy "etc") "locale.conf") (λ t, trim t = "LANG=" +:+ trim (as_locale input));
  sd_keymap : holds_text (join_path (join_path deploy "etc") "vconsole.conf") (λ t, trim t = "KEYMAP=" +:+ trim (as_keymap input));
  sd_timezone : tv_lstat view (join_path (join_path deploy "etc") "localtime") = Found IsLink ∧
    ∃ link, tv_link view (join_path (join_path deploy "etc") "localtime") = Ok link ∧
      same_path link (join_path "/usr/share/zoneinfo" (trim (as_timezone input))) = true;
  sd_account : trim (as_username input) ≠ EmptyString →
    holds_text (join_path (join_path deploy "etc") "passwd") (λ t, ∃ l, l ∈ lines t ∧ names (trim (as_username input)) l = true) ∧
    tv_lstat view (join_path (join_path deploy "etc") "plasma-setup-done") = Found IsFile ∧
    ∀ backend, backend ∈ ["plasmalogin.conf.d"; "sddm.conf.d"] →
      tv_lstat view (join_path (join_path (join_path deploy "etc") backend) autologin_name) = Missing;
  sd_fstab : holds_text (join_path (join_path deploy "etc") "fstab") (λ t, parse_fstab_entries t = Ok entries ∧
    ∀ l, l ∈ lines t → trim l = EmptyString ∨ starts_with "#" (trim l) = true ∨ ∃ fields, fstab_entry (trim l +:+ newline) fields);
  sd_encryption : eq_ignore_ascii_case (trim (as_encryption input)) "tpm2" = true →
    ∃ disk listing device dump line, normalize_device_path (as_target_disk input) = Some disk ∧
      command_output stderr "/usr/sbin/lsblk" ["-npro"; "NAME,FSTYPE"; disk] = Ok listing ∧
      line ∈ lines listing ∧ luks_device line = Some device ∧
      command_output stderr "/usr/sbin/cryptsetup" ["luksDump"; device] = Ok dump ∧ tpm_token_present dump = true;
  sd_kernel :
    (∃ d1 v d2 i, (d1, v) ∈ boot_files view root ∧ starts_with "vmlinuz" v = true ∧
                  (d2, i) ∈ boot_files view root ∧ starts_with "initramfs" i = true) ∨
    ∃ kver, kver ∈ list_dir view (join_path deploy "usr/lib/modules") ∧
      tv_lstat view (join_path (join_path (join_path deploy "usr/lib/modules") kver) "vmlinuz") = Found IsFile;
  sd_uefi : efi_booted_in view "/" = true → ∃ e uuid, e ∈ entries ∧ is_esp_entry e = true ∧ fb_source e = "UUID=" +:+ uuid ∧
    efi_file_present (eo_efi (esp ("/dev/disk/by-uuid/" +:+ uuid))) = true ∧
    ∃ name, name ∈ ["bootx64.efi"; "BOOTX64.EFI"; "Bootx64.efi"] ∧
      eo_regular (esp ("/dev/disk/by-uuid/" +:+ uuid)) ("EFI/BOOT/" +:+ name) = true;
}.

Lemma check_result_done {A} (r : result A) s a s' l : check_result r s = (inl a, s', l) → r = Ok a ∧ l = [].
Proof. destruct r; cbn; [by intros [= -> _ <-]|done]. Qed.

Lemma regular_file_Ok path label : regular_file view path label = Ok tt → tv_lstat view path = Found IsFile.
Proof. unfold regular_file. by destruct (tv_lstat view path) as [| |[]]. Qed.

Lemma read_checked_Ok path label error text :
  read_checked view path label error = Ok text → tv_lstat view path = Found IsFile ∧ tv_read view path = Ok text.
Proof.
  unfold read_checked. intros H. apply rbind_Ok in H as ([] & H1%regular_file_Ok & H2%map_err_Ok). done.
Qed.

Lemma holds_read path label error text (P : string → Prop) :
  read_checked view path label error = Ok text → P text → holds_text path P.
Proof. intros [H1 H2]%read_checked_Ok Hp. split; [done|]. by exists text. Qed.

Lemma check_configured_Ok etc input h :
  check_configured view etc input = Ok h →
  holds_text (join_path etc "hostname") (λ t, trim t = trim (as_hostname input)) ∧
  holds_text (join_path etc "locale.conf") (λ t, trim t = "LANG=" +:+ trim (as_locale input)) ∧
  holds_text (join_path etc "vconsole.conf") (λ t, trim t = "KEYMAP=" +:+ trim (as_keymap input)) ∧
  tv_lstat view (join_path etc "localtime") = Found IsLink ∧
  ∃ link, tv_link view (join_path etc "localtime") = Ok link ∧
    same_path link (join_path "/usr/share/zoneinfo" (trim (as_timezone input))) = true.
Proof.
  unfold check_configured. intros H. apply rbind_Ok in H as (hn & H1 & H). guard_inv H as G1.
  apply rbind_Ok in H as (lc & H2 & H). guard_inv H as G2. apply rbind_Ok in H as (km & H3 & H). guard_inv H as G3.
  apply rbind_Ok in H as ([] & H4 & H). apply rbind_Ok in H as (link & H5 & H). guard_inv H as G4. apply map_err_Ok in H5.
  apply negb_false_iff in G1, G2, G3, G4. apply String.eqb_eq in G1, G2, G3.
  split_and!; [by eapply holds_read..| |by exists link]. by destruct (tv_lstat view _) as [| |[]].
Qed.

Lemma check_account_Ok etc input :
  check_account view etc input = Ok tt → trim (as_username input) ≠ EmptyString →
  holds_text (join_path etc "passwd") (λ t, ∃ l, l ∈ lines t ∧ names (trim (as_username input)) l = true) ∧
  tv_lstat view (join_path etc "plasma-setup-done") = Found IsFile ∧
  ∀ backend, backend ∈ ["plasmalogin.conf.d"; "sddm.conf.d"] →
    tv_lstat view (join_path (join_path etc backend) autologin_name) = Missing.
Proof.
  unfold check_account. intros H Hu. apply is_empty_false in Hu. rewrite Hu in H.
  apply rbind_Ok in H as (passwd & H1 & H). guard_inv H as G1. apply rbind_Ok in H as ([] & H2%regular_file_Ok & H). guard_inv H as G2.
  apply negb_false_iff, existsb_exists in G1 as (l & Hl%list_elem_of_In & Hn).
  split_and!; [eapply holds_read; [done|by exists l]|done|]. intros b Hb.
  destruct (tv_lstat view (join_path (join_path etc b) autologin_name)) eqn:E; [done| |]; (exfalso; revert G2; apply not_false_iff_true, existsb_exists;
    exists b; split; [by apply list_elem_of_In|by rewrite E]).
Qed.

Lemma fstab_lines_Ok index ls entries :
  parse_fstab_lines index ls = Ok entries →
  ∀ l, l ∈ ls → trim l = EmptyString ∨ starts_with "#" (trim l) = true ∨ ∃ fields, fstab_entry (trim l +:+ newline) fields.
Proof.
  revert index entries. induction ls as [|raw ls IH]; intros index entries; cbn [parse_fstab_lines]; [set_solver|]. cbn zeta.
  destruct (is_empty (trim raw) || starts_with "#" (trim raw)) eqn:E.
  - intros H l [->|Hl]%elem_of_cons; [|by eapply IH]. apply orb_true_iff in E as [E%is_empty_true|E]; auto.
  - intros H. apply rbind_Ok in H as ([] & H1%map_err_Ok & H). apply rbind_Ok in H as (rest & H2 & H).
    intros l [->|Hl]%elem_of_cons; [|by eapply IH]. right. right. by apply validate_fstab_line_Ok.
Qed.

Lemma find_keyslot_Ok devices d :
  find_keyslot stderr devices = Ok d →
  ∃ device dump, device ∈ devices ∧ command_output stderr "/usr/sbin/cryptsetup" ["luksDump"; device] = Ok dump ∧
    tpm_token_present dump = true.
Proof.
  induction devices as [|device devices IH]; cbn; [done|]. intros H. apply rbind_Ok in H as (dump & H1 & H).
  destruct (tpm_token_present dump) eqn:E; [exists device, dump; split_and!; [by left|done..]|].
  destruct (IH H) as (x & y & ? & ?). exists x, y. split; [by right|done].
Qed.

Lemma verify_tpm_Ok target_disk d :
  verify_tpm_encryption stderr target_disk = Ok d →
  ∃ disk listing device dump line, normalize_device_path target_disk = Some disk ∧
      command_output stderr "/usr/sbin/lsblk" ["-npro"; "NAME,FSTYPE"; disk] = Ok listing ∧
      line ∈ lines listing ∧ luks_device line = Some device ∧
      command_output stderr "/usr/sbin/cryptsetup" ["luksDump"; device] = Ok dump ∧ tpm_token_present dump = true.
Proof.
  unfold verify_tpm_encryption. intros H. apply rbind_Ok in H as (disk & H1%ok_or_Ok & H). apply rbind_Ok in H as (listing & H2 & H).
  assert (find_keyslot stderr (omap luks_device (lines listing)) = Ok d) as (device & dump & Hin & Hd & Ht)%find_keyslot_Ok
    by (destruct (omap _ _); [done|exact H]).
  apply list_elem_of_omap in Hin as (line & Hl & Hdev). by exists disk, listing, device, dump, line.
Qed.

Lemma is_regular_true path : is_regular view path = true ↔ tv_lstat view path = Found IsFile.
Proof. unfold is_regular. by destruct (tv_lstat view path) as [| |[]]. Qed.

Lemma kernel_detail_Ok root deploy d :
  kernel_detail view root deploy = Ok d →
  (∃ d1 v d2 i, (d1, v) ∈ boot_files view root ∧ starts_with "vmlinuz" v = true ∧
                (d2, i) ∈ boot_files view root ∧ starts_with "initramfs" i = true) ∨
  ∃ kver, kver ∈ list_dir view (join_path deploy "usr/lib/modules") ∧
    tv_lstat view (join_path (join_path (join_path deploy "usr/lib/modules") kver) "vmlinuz") = Found IsFile.
Proof.
  unfold kernel_detail. set (modules := join_path deploy "usr/lib/modules").
  destruct (find_first (λ kver, is_regular view (join_path (join_path modules kver) "vmlinuz")) (list_dir view modules)) as [k|] eqn:Ek.
  { intros _. right. apply find_first_Some in Ek as [Hk Hr]. exists k. split; [done|by apply is_regular_true]. }
  destruct (find_first (λ f, starts_with "vmlinuz" (snd f)) (boot_files view root)) as [[d1 v]|] eqn:Ev; [|done].
  destruct (existsb _ _) eqn:Ei; [|done]. intros _. left. apply find_first_Some in Ev as [Hv Hs].
  apply existsb_exists in Ei as ([d2 i] & Hi%list_elem_of_In & Hs'). by exists d1, v, d2, i.
Qed.

Lemma verify_esp_Ok device detail s s' l :
  verify_esp_bootloaders view esp device s = (inl detail, s', l) →
  efi_file_present (eo_efi (esp device)) = true ∧
  ∃ name, name ∈ ["bootx64.efi"; "BOOTX64.EFI"; "Bootx64.efi"] ∧ eo_regular (esp device) ("EFI/BOOT/" +:+ name) = true.
Proof.
  unfold verify_esp_bootloaders. intros H. do 5 apply log_bind_done in H as (? & ? & ? & ? & _ & H & _).
  apply check_result_done in H as [H _]. unfold esp_contents in H. apply rbind_Ok in H as (name & H1%ok_or_Ok & H).
  guard_inv H as G. apply negb_false_iff in G. split; [done|]. apply find_first_Some in H1 as [? ?]. by exists name.
Qed.

Lemma esp_entry_found entries device :
  esp_device_from_entries entries = Some device →
  ∃ e uuid, e ∈ entries ∧ is_esp_entry e = true ∧ fb_source e = "UUID=" +:+ uuid ∧ device = "/dev/disk/by-uuid/" +:+ uuid.
Proof.
  unfold esp_device_from_entries. destruct (find_first is_esp_entry entries) as [e|] eqn:E; [|done]. cbn [mbind option_bind].
  destruct (strip_prefix "UUID=" (fb_source e)) as [uuid|] eqn:Es; [|done]. cbn [mbind option_bind]. destruct (is_empty uuid); [done|]. intros [= <-].
  apply find_first_Some in E as [? ?]. apply strip_prefix_Some in Es. by exists e, uuid.
Qed.

(** An assurance that passes reports nine passed checks, and the installed system is
    what was asked for: the configured files and the time zone, the account and the
    handover when an account was requested, an fstab of valid entries only, a
    TPM-bound keyslot when encryption was requested, a kernel, and on a UEFI machine
    an ESP with the boot loader. *)
Theorem assurance_sound input s s' checks events
  (E : validate view esp stderr input s = (inl checks, s', events)) :
  Forall (λ c, ac_status c = "pass") checks ∧
  ac_name <$> checks = ["hostname"; "locale"; "keymap"; "timezone"; "account"; "filesystem"; "encryption"; "kernel"; "bootloader"] ∧
  ∃ root deploy entries, trim (as_target_root input) = root ∧ trim (as_deploy_root input) = deploy ∧
    Assured input root deploy entries.
Proof.
  unfold validate in E. apply log_bind_done in E as ([root deploy] & s0 & ? & ? & [Ht _]%check_result_done & E & _).
  apply log_bind_done in E as (h & s1 & ? & ? & [(C1 & C2 & C3 & C4)%check_configured_Ok _]%check_result_done & E & _).
  apply log_bind_done in E as ([] & s2 & ? & ? & [Ha _]%check_result_done & E & _).
  apply log_bind_done in E as (fstab & s3 & ? & ? & [Hr _]%check_result_done & E & _).
  apply log_bind_done in E as (entries & s4 & ? & ? & [Hf _]%check_result_done & E & _).
  apply log_bind_done in E as (enc & s5 & ? & ? & [He _]%check_result_done & E & _).
  apply log_bind_done in E as (kernel & s6 & ? & ? & [Hk%kernel_detail_Ok _]%check_result_done & E & _).
  apply log_bind_done in E as (reason & s7 & ? & ? & _ & E & _).
  apply log_bind_done in E as (boot & s8 & ? & ? & Hb & E & _). injection E as <- _ _.
  split; [by rewrite !Forall_cons|]. split; [done|]. exists root, deploy, entries.
  unfold target_trees in Ht. apply rbind_Ok in Ht as (r & R1 & Ht). apply rbind_Ok in Ht as ([] & _ & Ht).
  apply rbind_Ok in Ht as (d & D1 & Ht). guard_inv Ht as G. apply rbind_Ok in Ht as ([] & _ & Ht). injection Ht as -> ->.
  unfold safe_target_root in R1, D1. guard_inv R1 as G1. guard_inv D1 as G2. injection R1 as R1. injection D1 as D1.
  apply negb_false_iff in G. split_and!; [done|done|]. split; try done; [by apply check_account_Ok| | |].
  - eapply holds_read; [exact Hr|]. split; [done|]. by eapply fstab_lines_Ok.
  - intros Hq. unfold check_encryption in He. rewrite Hq in He. by eapply verify_tpm_Ok.
  - intros Hu. unfold check_bootloader in Hb. destruct (esp_device_from_entries entries) as [device|] eqn:Ed; [|by rewrite Hu in Hb].
    apply esp_entry_found in Ed as (e & uuid & Hin & Hesp & Hsrc & ->).
    apply log_bind_done in Hb as (? & ? & ? & ? & Hv & _ & _). apply verify_esp_Ok in Hv as [? ?]. by exists e, uuid.
Qed.

(** The check mount is released exactly when it was made, whatever was found on
    it, and a check that passes released it. *)
Theorem esp_check_released device s r s' l :
  verify_esp_bootloaders view esp device s = (r, s', l) →
  l = [] ∨ ∃ target, l = [MountedEsp device target; UnmountedEsp target] ∧ (∀ d, r = inl d → eo_umount (esp device) = Ok true).
Proof.
  unfold verify_esp_bootloaders, log_bind, check_result, log_out, log_outs, log_ret, log_fail.
  destruct (tv_lstat view device) as [| |[]]; try (intros [= _ _ <-]; by left).
  destruct (eo_tempdir (esp device)) as [target|]; cbn; [|intros [= _ _ <-]; by left].
  destruct (eo_mount (esp device)) as [[]|]; cbn; [|intros [= _ _ <-]; by left..].
  destruct (eo_umount (esp device)) as [[]|], (esp_contents (esp device)); cbn; intros [= <- _ <-]; right; by exists target.
Qed.
End Sound.

(** * What the installer wrote passes *)

(** A view of the files that a crash may leave; the live files are one. *)
Definition lstat_of (e : option Entry) : Metadata :=
  match e with
  | None => Missing
  | Some (Regular _) => Found IsFile
  | Some (Special Directory) => Found IsDir
  | Some (Special (Symlink _)) => Found IsLink
  | Some (Special OtherFile) => Found IsOther
  end.
Definition link_of (e : option Entry) : result string :=
  match e with
  | Some (Special (Symlink target)) => Ok target
  | _ => Err "Invalid argument (os error 22)"
  end.
Definition crash_view (fs : Fs) (view : TargetView) : Prop :=
  ∀ p, ∃ e x, crash_entry fs (norm_path p) e ∧ entry_crash fs e x ∧
    tv_lstat view p = lstat_of e ∧ tv_read view p = ok_or x ENOENT ∧ tv_link view p = link_of e.

(** The live files. *)
Definition view_of (fs : Fs) : TargetView :=
  {| tv_lstat p := lstat_of (dir fs !! norm_path p); tv_read p := ok_or (read_file fs (norm_path p)) ENOENT;
     tv_link p := link_of (dir fs !! norm_path p);
     tv_list p := Some (omap (λ q, name ← strip_prefix (norm_path p +:+ "/") q; if contains_char "/" name then None else Some name)
                          (map_to_list (dir fs)).*1) |}.

Lemma view_of_crash_view fs : fs_wf fs → crash_view fs (view_of fs).
Proof.
  intros Hw p. exists (dir fs !! norm_path p), (read_file fs (norm_path p)). split; [by left|]. split; [|done].
  unfold read_file. destruct (dir fs !! norm_path p) as [[i|k]|] eqn:E; [|done|done].
  destruct (Hw (norm_path p) i (or_introl E)) as [_ [n Hn]]. rewrite Hn. by exists n, (contents n).
Qed.

Lemma crash_view_text fs view p text :
  crash_view fs view → (∀ x, crash_read fs (norm_path p) x → x = Some text) →
  tv_lstat view p = Found IsFile ∧ tv_read view p = Ok text.
Proof.
  intros Hv Hx. destruct (Hv p) as (e & x & He & Hc & Hl & Hr & _).
  assert (x = Some text) as ->.
  { apply Hx. unfold crash_read. destruct He as [-> | ->]; auto. }
  split; [|done]. rewrite Hl. by destruct e as [[]|].
Qed.

Lemma crash_view_link fs view p target :
  crash_view fs view → (∀ e, crash_entry fs (norm_path p) e → e = Some (Special (Symlink target))) →
  tv_lstat view p = Found IsLink ∧ tv_link view p = Ok target.
Proof.
  intros Hv Hx. destruct (Hv p) as (e & x & He & _ & Hl & _ & Hr). rewrite (Hx e He) in Hl, Hr. done.
Qed.

Lemma hostname_graphic s : str_all hostname_byte s = true → str_all graphic s = true.
Proof. apply str_all_impl. by intros [[] [] [] [] [] [] [] []]. Qed.
Lemma component_graphic b s : str_all (component_byte b) s = true → str_all graphic s = true.
Proof. apply str_all_impl. destruct b; by intros [[] [] [] [] [] [] [] []]. Qed.

Lemma safe_component_Ok raw label b v :
  safe_component raw label b = Ok v → v = trim raw ∧ str_all graphic v = true.
Proof.
  unfold safe_component. intros H. guard_inv H as H1. guard_inv H as H2. injection H as <-.
  apply negb_false_iff in H2. split; [done|by eapply component_graphic].
Qed.

(** What a plan writes, in full. *)
Lemma plan_texts cin plan :
  Configuration.build_plan cin = Ok plan →
  cp_target_root plan = trim (ci_target_root cin) ∧
  cp_localtime_target plan = "/usr/share/zoneinfo/" +:+ trim (ci_timezone cin) ∧
  cp_writes plan = [etc_write (cp_target_root plan) "hostname" (trim (ci_hostname cin) +:+ newline);
                    etc_write (cp_target_root plan) "locale.conf" ("LANG=" +:+ trim (ci_locale cin) +:+ newline);
                    etc_write (cp_target_root plan) "vconsole.conf" ("KEYMAP=" +:+ trim (ci_keymap cin) +:+ newline)] ∧
  Forall (λ t, str_all graphic (trim t) = true) [ci_hostname cin; ci_timezone cin; ci_locale cin; ci_keymap cin].
Proof.
  unfold Configuration.build_plan. intros H. apply rbind_Ok in H as (root & Hr & H). guard_inv H as Hh.
  apply rbind_Ok in H as (tz & [-> Htz]%safe_component_Ok & H). guard_inv H as Hz.
  apply rbind_Ok in H as (locale & [-> Hl]%safe_component_Ok & H).
  apply rbind_Ok in H as (keymap & [-> Hk]%safe_component_Ok & H). injection H as <-.
  unfold safe_root in Hr. guard_inv Hr as G1. guard_inv Hr as G2. injection Hr as <-.
  apply negb_false_iff in Hh. unfold valid_hostname in Hh. apply andb_true_iff in Hh as [_ Hh%hostname_graphic].
  split_and!; [done..|]. by rewrite !Forall_cons.
Qed.

(** The request of the phase executor names what was planned. *)
Lemma assurance_input_planned self cin deploy :
  Configuration.build_plan cin = Ok (ep_configuration (ex_execution self)) →
  let input := assurance_input self deploy in
  trim (as_hostname input) = trim (ci_hostname cin) ∧ trim (as_locale input) = trim (ci_locale cin) ∧
  trim (as_keymap input) = trim (ci_keymap cin) ∧ trim (as_timezone input) = trim (ci_timezone cin).
Proof.
  intros (_ & Htz & Hws & Hg)%plan_texts. rewrite !Forall_cons in Hg. destruct Hg as (G1 & G2 & G3 & G4 & _). cbn zeta.
  unfold assurance_input, written. cbn [as_hostname as_locale as_keymap as_timezone]. rewrite Htz, Hws, strip_prefix_append.
  unfold etc_write. cbn [find_first cw_path cw_content].
  assert (∀ p a b, ends_with p (a +:+ b) = starts_with (srev p) (srev b +:+ srev a)) as Hends
    by (intros; unfold ends_with; by rewrite srev_append).
  assert (∀ x, starts_with (srev "/hostname") (srev ("/" +:+ "hostname") +:+ x) = true) as E1 by done.
  assert (∀ x, starts_with (srev "/locale.conf") (srev ("/" +:+ "hostname") +:+ x) = false) as E2 by done.
  assert (∀ x, starts_with (srev "/locale.conf") (srev ("/" +:+ "locale.conf") +:+ x) = true) as E3 by done.
  assert (∀ x, starts_with (srev "/vconsole.conf") (srev ("/" +:+ "hostname") +:+ x) = false) as E4 by done.
  assert (∀ x, starts_with (srev "/vconsole.conf") (srev ("/" +:+ "locale.conf") +:+ x) = false) as E5 by done.
  assert (∀ x, starts_with (srev "/vconsole.conf") (srev ("/" +:+ "vconsole.conf") +:+ x) = true) as E6 by done.
  rewrite !Hends, !E1, !E2, !E3, !E4, !E5, !E6.
  cbn -[trim newline strip_prefix String.app]. rewrite !strip_prefix_append. cbn -[trim newline String.app].
  rewrite !trim_idemp, !trim_newline by done. done.
Qed.

Lemma etc_write_norm root name content :
  norm_path (cw_path (etc_write root name content)) = norm_path (join_path (join_path root "etc") name).
Proof.
  unfold norm_path. cbn [cw_path etc_write]. change (root +:+ "/etc") with (root +:+ "/" +:+ "etc").
  by rewrite !components_app, !components_join.
Qed.

Lemma same_path_refl p : same_path p p = true.
Proof. unfold same_path. rewrite Bool.eqb_reflx. cbn. by apply bool_decide_eq_true_2. Qed.

(** The files the configure phase wrote pass the assurance the same phase asks for: once
    the plan moved to the deployment was applied with success, whatever operations
    had failed or would fail, the host name, locale, keymap and time zone checks
    accept every state of the files that a crash may leave. *)
Theorem configured_target_passes self cin deploy plan f fs view
  (Hp : Configuration.build_plan cin = Ok (ep_configuration (ex_execution self)))
  (Hd : for_deployment (ep_configuration (ex_execution self)) deploy = Ok plan) (Hw : fs_wf fs)
  (Ho : outcome (apply_plan f plan fs) = Ok tt) (Hv : crash_view (final (apply_plan f plan fs)) view) :
  check_configured view (join_path (trim deploy) "etc") (assurance_input self deploy) = Ok (trim (ci_hostname cin)).
Proof.
  destruct (assurance_input_planned self cin deploy Hp) as (I1 & I2 & I3 & I4).
  rewrite (for_deployment_is_replan _ _ deploy Hp) in Hd. destruct (plan_texts _ _ Hd) as (Hroot & Hlt & Hws & Hg).
  cbn [ci_target_root ci_hostname ci_locale ci_keymap ci_timezone] in *. rewrite !Forall_cons in Hg. destruct Hg as (G1 & G2 & G3 & G4 & _).
  destruct (apply_plan_atomic f _ plan fs Hw Hd) as [A1 [_ A2]]. specialize (A2 Ho).
  assert (∀ name text label error, etc_write (cp_target_root plan) name text ∈ cp_writes plan →
    read_checked view (join_path (join_path (trim deploy) "etc") name) label error = Ok text) as Hread.
  { intros name text label error Hin. destruct (A1 _ Hin) as [_ Hc]. specialize (Hc Ho). rewrite etc_write_norm, Hroot in Hc.
    destruct (crash_view_text _ _ _ _ Hv Hc) as [T1 T2]. unfold read_checked, regular_file. by rewrite T1, T2. }
  rewrite Hws in Hread.
  destruct (crash_view_link _ view (join_path (join_path (trim deploy) "etc") "localtime") (cp_localtime_target plan) Hv) as [L1 L2].
  { intros e He. apply A2. unfold localtime_path. rewrite Hroot.
    replace (norm_path (trim deploy +:+ "/etc/localtime")) with (norm_path (join_path (join_path (trim deploy) "etc") "localtime")); [done|].
    unfold norm_path. rewrite !components_join. change ("/etc/localtime") with ("/" +:+ "etc/localtime"). by rewrite components_app, <-app_assoc. }
  unfold check_configured. rewrite (Hread _ _ _ _ ltac:(by left)). cbn [rbind]. rewrite I1, trim_newline, String.eqb_refl by done. cbn [negb].
  rewrite (Hread _ _ _ _ ltac:(by right; left)). cbn [rbind]. rewrite I2, <-append_assoc, trim_newline, String.eqb_refl; [|by rewrite str_all_app, G3]. cbn [negb].
  rewrite (Hread _ _ _ _ ltac:(by right; right; left)). cbn [rbind]. rewrite I3, <-append_assoc, trim_newline, String.eqb_refl; [|by rewrite str_all_app, G4]. cbn [negb].
  rewrite L1, L2. cbn [rbind map_err]. rewrite I4, Hlt.
  change (join_path "/usr/share/zoneinfo" (trim (ci_timezone cin))) with ("/usr/share/zoneinfo/" +:+ trim (ci_timezone cin)).
  by rewrite same_path_refl.
Qed.

Lemma apply_plan_wf f input plan fs :
  fs_wf fs → Configuration.build_plan input = Ok plan → fs_wf (final (apply_plan f plan fs)).
Proof.
  intros Hw Hp. destruct (plan_files _ _ Hp) as [Hsep _]. destruct (build_plan_shape _ _ Hp) as [Hroot _]. unfold apply_plan.
  apply then_run_wf; [by apply apply_boot_facts|]. intros Hw1. apply then_run_wf; [by apply apply_writes_wf|].
  intros Hw2. by apply set_localtime_wf.
Qed.

(** * Witnesses *)

Definition with_configuration (plan : ConfigurationPlan) (self : NativePhaseExecutor) : NativePhaseExecutor := {|
  ex_plan := ex_plan self;
  ex_execution := {| ep_bootc := ep_bootc (ex_execution self); ep_configuration := plan; ep_account := ep_account (ex_execution self);
                     ep_secure_boot := ep_secure_boot (ex_execution self) |};
  ex_bootc := ex_bootc self; ex_account := ex_account self; ex_manual_mounts := ex_manual_mounts self;
  ex_source_imgref := ex_source_imgref self; ex_target_imgref := ex_target_imgref self; ex_kernel := ex_kernel self;
  ex_force_stage := ex_force_stage self; ex_password := ex_password self; ex_transaction_path := ex_transaction_path self |}.

Definition sample_deploy : string := "/mnt/target/ostree/deploy/default/deploy/ab.0".
Definition deployed_plan : ConfigurationPlan :=
  {| cp_target_root := sample_deploy;
     cp_writes := [etc_write sample_deploy "hostname" ("kyth-box" +:+ newline);
                   etc_write sample_deploy "locale.conf" ("LANG=en_US.UTF-8" +:+ newline);
                   etc_write sample_deploy "vconsole.conf" ("KEYMAP=us" +:+ newline)];
     cp_localtime_target := "/usr/share/zoneinfo/Europe/Berlin"; cp_executor := "kyth-installer-exec" |}.
Definition deploy_fs : Fs :=
  make_special (sample_deploy +:+ "/etc") Directory {| inodes := ∅; dir := ∅; durable := ∅; next_inode := 0 |}.
Lemma deploy_fs_wf : fs_wf deploy_fs.
Proof. apply fs_wf_special. intros p i [H|H]; done. Qed.
Definition deployed : Run := apply_plan no_apply_faults deployed_plan deploy_fs.

Lemma configured_target_passes_witness :
  match sample_install "wipe" with
  | Ok (self, _) =>
      check_configured (view_of (final deployed)) (join_path sample_deploy "etc")
        (assurance_input (with_configuration sample_plan self) sample_deploy) = Ok "kyth-box"
  | Err _ => False
  end.
Proof.
  destruct (sample_install "wipe") as [[self s]|e] eqn:E; [|vm_compute in E; discriminate]. clear E.
  assert (fs_wf (final deployed)) as Hw.
  { eapply apply_plan_wf; [apply deploy_fs_wf|]. rewrite <-(for_deployment_is_replan sample_input sample_plan sample_deploy sample_plan_built).
    by vm_compute. }
  exact (configured_target_passes (with_configuration sample_plan self) sample_input sample_deploy deployed_plan no_apply_faults
           deploy_fs (view_of (final deployed)) sample_plan_built ltac:(by vm_compute) deploy_fs_wf ltac:(by vm_compute)
           (view_of_crash_view _ Hw)).
Defined.

(** A finished installation on a machine that booted through BIOS. *)
Definition tree_view (files : list (string * string)) (dirs : list (string * list string)) (links : list (string * string)) : TargetView :=
  let find {A} (p : string) (l : list (string * A)) := snd <$> find_first (λ e, String.eqb (fst e) p) l in
  {| tv_lstat p := match find p files, find p dirs, find p links with
                   | Some _, _, _ => Found IsFile
                   | None, Some _, _ => Found IsDir
                   | None, None, Some _ => Found IsLink
                   | None, None, None => Missing
                   end;
     tv_read p := ok_or (find p files) ENOENT; tv_link p := ok_or (find p links) ENOENT; tv_list p := find p dirs |}.
Definition installed_view : TargetView :=
  tree_view
    [("/t/ostree/deploy/d/etc/hostname", "kyth-box" +:+ newline); ("/t/ostree/deploy/d/etc/locale.conf", "LANG=C.UTF-8" +:+ newline);
     ("/t/ostree/deploy/d/etc/vconsole.conf", "KEYMAP=us" +:+ newline);
     ("/t/ostree/deploy/d/etc/passwd", "kyth:x:1000:1000::/home/kyth:/bin/bash" +:+ newline); ("/t/ostree/deploy/d/etc/plasma-setup-done", EmptyString);
     ("/t/ostree/deploy/d/etc/fstab", "# root" +:+ newline +:+ root_line); ("/t/boot/vmlinuz-6", EmptyString); ("/t/boot/initramfs-6", EmptyString)]
    [("/t", ["boot"; "ostree"]); ("/t/ostree/deploy/d/etc", []); ("/t/boot", ["vmlinuz-6"; "initramfs-6"]); ("/t/ostree/deploy", ["d"]);
     ("/t/ostree/deploy/d", ["etc"])]
    [("/t/ostree/deploy/d/etc/localtime", "/usr/share/zoneinfo/UTC")].
Definition installed_request : AssuranceInput :=
  {| as_target_root := "/t"; as_deploy_root := "/t/ostree/deploy/d"; as_hostname := "kyth-box"; as_locale := "C.UTF-8"; as_keymap := "us";
     as_timezone := "UTC"; as_username := "kyth"; as_encryption := "none"; as_target_disk := "/dev/sda" |}.
Definition empty_esp (_ : string) : EspOs :=
  {| eo_tempdir := Ok "/tmp/esp"; eo_mount := Ok true; eo_mount_stderr := EmptyString; eo_regular _ := false; eo_efi := Some [];
     eo_umount := Ok true; eo_umount_stderr := EmptyString |}.
Definition idle_runner : Runner := {| run_command _ _ := Err ENOENT |}.

Lemma assurance_sound_witness :
  match validate installed_view empty_esp (HRun := idle_runner) (λ _ _, EmptyString) installed_request tt with
  | (inl checks, _, _) => List.length checks = 9%nat ∧
      ∃ entries, Assured installed_view empty_esp (HRun := idle_runner) (λ _ _, EmptyString) installed_request "/t" "/t/ostree/deploy/d" entries
  | (inr _, _, _) => False
  end.
Proof.
  destruct (validate _ _ _ _ _) as [[[checks|e] s'] events] eqn:E; [|vm_compute in E; discriminate].
  destruct (assurance_sound installed_view empty_esp (HRun := idle_runner) (λ _ _, EmptyString) installed_request tt s' checks events E)
    as (_ & Hn & root & deploy & entries & <- & <- & H).
  split; [by rewrite <-(length_fmap ac_name checks), Hn|]. exists entries. exact H.
Defined.

(** The boot loader found on the ESP. *)
Example esp_found :
  esp_contents {| eo_tempdir := Ok "/tmp/esp"; eo_mount := Ok true; eo_mount_stderr := EmptyString;
                  eo_regular p := String.eqb p "EFI/BOOT/BOOTX64.EFI";
                  eo_efi := Some [EspDir (Some [EspEntry "BOOTX64.EFI" true; EspEntry ".efi" true]); EspEntry "notes.txt" true];
                  eo_umount := Ok true; eo_umount_stderr := EmptyString |} = Ok "EFI/BOOT/BOOTX64.EFI landed on the ESP"
  ∧ efi_file_present (Some [EspEntry ".efi" true]) = false.
Proof. by vm_compute. Qed.
