(* ===== verification/AtomicIo.v ===== *)
(** Crash-safe file replacement of the shared crate: [atomic_io.rs].

    The protocol of [atomic_write_bytes] over the file system of FileSystem.v:
    every system call may fail, a failed write may leave any bytes behind, and a
    crash may happen at every moment. *)

From S2P Require Import Prelude RustStr RustOs FileSystem.

(** The operating-system errors of one call.  [af_stat1] and [af_stat2] are
    metadata errors other than a missing file. *)
Record AtomicFaults := {
  af_mkdir : option string;
  af_stat1 : option string;
  af_open : option string;
  af_write : option (string * string);
  af_sync : option string;
  af_stat2 : option string;
  af_rename : option string;
  af_sync_dir : option string;
  af_cleanup : bool;
}.
Definition no_atomic_faults : AtomicFaults :=
  {| af_mkdir := None; af_stat1 := None; af_open := None; af_write := None; af_sync := None; af_stat2 := None;
     af_rename := None; af_sync_dir := None; af_cleanup := false |}.

Definition refuse_symlink (stat : option string) (path : string) (fs : Fs) : result unit :=
  match stat with
  | Some e => Err e
  | None => if is_symlink (dir fs !! path) then Err ("refusing to replace symlink: " +:+ path) else Ok tt
  end.

(** The sibling temporary file; [stamp] is the process id and the nonce. *)
Definition temporary_path (stamp path : string) : string :=
  join_path (unwrap_or (parent_dir path) ".") ("." +:+ unwrap_or (file_name path) "kyth" +:+ "." +:+ stamp +:+ ".tmp").

(** The closure of [atomic_write_bytes]. *)
Definition replace_closure (f : AtomicFaults) (path temporary data : string) (fs : Fs) : Run :=
  replace_protocol
    {| st_create := af_open f; st_exists := "File exists (os error 17)"; st_write := af_write f; st_sync := af_sync f;
       st_gate fs := match refuse_symlink (af_stat2 f) path fs with Err e => Some e | Ok _ => None end;
       st_rename := af_rename f; st_sync_dir := af_sync_dir f |} path temporary data fs.

Definition atomic_write_bytes (f : AtomicFaults) (stamp path data : string) (fs : Fs) : Run :=
  match af_mkdir f with
  | Some e => refused fs e
  | None =>
      match refuse_symlink (af_stat1 f) path fs with
      | Err e => refused fs e
      | Ok _ =>
          let temporary := temporary_path stamp path in
          with_cleanup true (af_cleanup f) temporary (replace_closure f path temporary data) fs
      end
  end.

(** [remove_if_exists]; [remove] is an error other than a missing file. *)
Definition remove_if_exists (remove : option string) (path : string) (fs : Fs) : result unit * Fs :=
  match dir fs !! path, remove with
  | None, _ => (Ok tt, fs)
  | Some _, Some e => (Err e, fs)
  | Some _, None => (Ok tt, remove_file path fs)
  end.

(** * Properties *)

Lemma file_name_plain path n : file_name path = Some n → contains_char "/" n = false.
Proof.
  unfold file_name. destruct (last (components path)) as [c|] eqn:E; [|done]. destruct (String.eqb c ".."); [done|]. intros [= <-].
  apply last_Some in E as [l E]. assert (c ∈ components path) as Hc by (rewrite E; apply elem_of_app; right; by left).
  apply elem_of_filterb in Hc as [Hc _]. by eapply split_char_piece.
Qed.

(** The last component of a path that ends in one. *)
Lemma file_name_last a n :
  contains_char "/" n = false → (2 < String.length n)%nat → file_name (a +:+ String "/" n) = Some n.
Proof.
  intros Hn Hlen. unfold file_name, components. rewrite split_char_app, filterb_filter, List.filter_app, (split_char_single "/" n Hn).
  assert (is_empty n = false ∧ String.eqb n "." = false ∧ String.eqb n ".." = false) as (E1 & E2 & E3).
  { destruct n as [|c1 [|c2 [|c3 n]]]; cbn in Hlen; try lia. split_and!; [done| |]; apply String.eqb_neq; discriminate. }
  cbn [List.filter]. rewrite E1, E2. cbn [negb orb andb]. by rewrite last_snoc, E3.
Qed.

Lemma temporary_ne stamp path : contains_char "/" stamp = false → temporary_path stamp path ≠ path.
Proof.
  intros Hs E. unfold temporary_path in E. set (fn := unwrap_or (file_name path) "kyth") in E.
  set (x := "." +:+ fn +:+ "." +:+ stamp +:+ ".tmp") in E.
  assert (contains_char "/" fn = false) as Hfn.
  { unfold fn. destruct (file_name path) eqn:Ef; [by eapply file_name_plain|done]. }
  assert (contains_char "/" x = false) as Hx by (unfold x; rewrite !contains_char_app, Hfn, Hs; done).
  assert (String.length fn + 6 <= String.length x)%nat as Hlen
    by (unfold x; rewrite !slen_append; cbn; lia).
  destruct (join_path_base (unwrap_or (parent_dir path) ".")) as [a Ha]. rewrite Ha in E.
  change ("/" +:+ x) with (String "/" x) in E.
  assert (file_name path = Some x) as Hf by (rewrite <-E; apply file_name_last; [done|lia]).
  unfold fn in Hlen. rewrite Hf in Hlen. cbn in Hlen. lia.
Qed.

(** The replacement is atomic under every failure and crash, durable once it has
    reported success, and shows a reader the old or the new contents. *)
Lemma atomic_write_cases f stamp path data fs :
  contains_char "/" stamp = false → fs_wf fs →
  let r := atomic_write_bytes f stamp path data fs in
  write_ok path data fs r ∧ (read_file (final r) path = read_file fs path ∨ read_file (final r) path = Some data).
Proof.
  intros Hs Hw r. subst r. unfold atomic_write_bytes. destruct (af_mkdir f); [split; [by apply write_ok_refused|by left]|].
  destruct (refuse_symlink _ _ _); [|split; [by apply write_ok_refused|by left]].
  apply replace_cleanup_ok; [done|by apply temporary_ne].
Qed.

Lemma atomic_write_ok f stamp path data fs :
  contains_char "/" stamp = false → fs_wf fs → write_ok path data fs (atomic_write_bytes f stamp path data fs).
Proof. intros Hs Hw. by apply atomic_write_cases. Qed.

Lemma atomic_write_live f stamp path data fs :
  contains_char "/" stamp = false → fs_wf fs →
  read_file (final (atomic_write_bytes f stamp path data fs)) path = read_file fs path ∨
  read_file (final (atomic_write_bytes f stamp path data fs)) path = Some data.
Proof. intros Hs Hw. by apply atomic_write_cases. Qed.
