(* ===== verification/BootHealth.v ===== *)
(** Boot health of the shared crate: the state machine of [system/boot_health.rs]
    and its durable form.

    Failing boots are counted per image digest; a digest that reaches the
    threshold is quarantined, one rollback is attempted for it, and a healthy
    boot or an administrator forgives it.  The fields of the records are those
    of the source with the prefix [bh_] or [qr_]; [i64] additions wrap, as they
    do in a release build. *)

From S2P Require Import Prelude RustStr RustOs Json.

(** Plain [+] on [i64] in a release build. *)
Definition wrap_i64 (x : Z) : Z := (x + 2 ^ 63) mod 2 ^ 64 - 2 ^ 63.
Definition is_i64 (x : Z) : Prop := i64_min <= x <= i64_max.

Definition SCHEMA_VERSION : Z := 1.
Definition DEFAULT_FAILURE_THRESHOLD : Z := 3.
Definition DEFAULT_STATE_PATH : string := "/var/lib/kyth/boot-health.json".

Record QuarantineRecord := {
  qr_digest : string;
  qr_failures : Z;
  qr_reason : string;
  qr_first_failed_at : Z;
  qr_last_failed_at : Z;
}.

Record BootHealthState := {
  bh_current_digest : string;
  bh_last_healthy_digest : string;
  bh_pending_digest : string;
  bh_status : string;
  bh_failures : Z;
  bh_last_failure_boot_id : string;
  bh_last_reason : string;
  bh_last_recovered_digest : string;
  bh_last_recovery_at : Z;
  bh_rollout_ring : string;
  bh_updated_at : Z;
  bh_quarantined : gmap string QuarantineRecord;
  bh_failures_by_digest : gmap string Z;
  bh_rollback_attempted_for : string;
  bh_last_rollback_error : string;
  bh_last_rollback_at : Z;
}.

Definition default_state : BootHealthState := {|
  bh_current_digest := EmptyString; bh_last_healthy_digest := EmptyString; bh_pending_digest := EmptyString;
  bh_status := "unknown"; bh_failures := 0; bh_last_failure_boot_id := EmptyString; bh_last_reason := EmptyString;
  bh_last_recovered_digest := EmptyString; bh_last_recovery_at := 0; bh_rollout_ring := "follow-image";
  bh_updated_at := 0; bh_quarantined := ∅; bh_failures_by_digest := ∅; bh_rollback_attempted_for := EmptyString;
  bh_last_rollback_error := EmptyString; bh_last_rollback_at := 0 |}.

(** [invariants]: the broken ones, in an iteration order of the two maps. *)
Definition quarantine_errors (entry : string * QuarantineRecord) : list string :=
  let '(digest, record) := entry in
  (if qr_failures record <? DEFAULT_FAILURE_THRESHOLD
   then ["quarantined " +:+ digest +:+ " failures " +:+ show_int (qr_failures record) +:+ " < threshold"] else []) ++
  (if String.eqb digest (qr_digest record) then []
   else ["quarantined key " +:+ digest +:+ " != record.digest " +:+ qr_digest record]).
Definition tally_errors (entry : string * Z) : list string :=
  let '(digest, count) := entry in
  if count <? 0 then ["failures_by_digest " +:+ digest +:+ " invalid count " +:+ show_int count] else [].
Definition invariants (s : BootHealthState) : list string :=
  (if bh_failures s <? 0 then ["failures<0"] else []) ++
  (if String.eqb (bh_status s) "healthy" && is_empty (bh_last_healthy_digest s)
   then ["healthy but last_healthy_digest empty"] else []) ++
  flat_map quarantine_errors (map_to_list (bh_quarantined s)) ++
  flat_map tally_errors (map_to_list (bh_failures_by_digest s)).

(** [iter.max_by_key(|record| record.last_failed_at)]: the last of the greatest. *)
Definition later (best : option QuarantineRecord) (record : QuarantineRecord) : option QuarantineRecord :=
  match best with
  | Some b => if qr_last_failed_at record <? qr_last_failed_at b then Some b else Some record
  | None => Some record
  end.
(** [newest_quarantine]; [values] is the map's iteration, in any order. *)
Definition newest_quarantine (values : list QuarantineRecord) : option QuarantineRecord := fold_left later values None.

Definition quarantine_reason (s : BootHealthState) (digest : string) : option string :=
  (λ record, "digest " +:+ digest +:+ " is quarantined after " +:+ show_int (qr_failures record) +:+
             " unhealthy boots: " +:+ qr_reason record) <$> bh_quarantined s !! digest.

Definition record_staged (s : BootHealthState) (digest rollout_ring : string) (now : Z) : BootHealthState := {|
  bh_current_digest := bh_current_digest s; bh_last_healthy_digest := bh_last_healthy_digest s;
  bh_pending_digest := digest; bh_status := bh_status s; bh_failures := bh_failures s;
  bh_last_failure_boot_id := bh_last_failure_boot_id s; bh_last_reason := bh_last_reason s;
  bh_last_recovered_digest := bh_last_recovered_digest s; bh_last_recovery_at := bh_last_recovery_at s;
  bh_rollout_ring := rollout_ring; bh_updated_at := now; bh_quarantined := bh_quarantined s;
  bh_failures_by_digest := bh_failures_by_digest s; bh_rollback_attempted_for := bh_rollback_attempted_for s;
  bh_last_rollback_error := bh_last_rollback_error s; bh_last_rollback_at := bh_last_rollback_at s |}.

Definition record_failure (s : BootHealthState) (digest boot_id reason : string) (threshold now : Z) : BootHealthState :=
  let same_deployment := String.eqb (bh_current_digest s) digest in
  let failures := if same_deployment then bh_failures s else 0 in
  let count_this_boot := negb (same_deployment && String.eqb (bh_last_failure_boot_id s) boot_id) in
  let failures := if count_this_boot then wrap_i64 (failures + 1) else failures in
  let digest_failures :=
    wrap_i64 (unwrap_or (bh_failures_by_digest s !! digest) 0 + if count_this_boot then 1 else 0) in
  let failures_by_digest :=
    if count_this_boot then <[digest := digest_failures]> (bh_failures_by_digest s) else bh_failures_by_digest s in
  let quarantined :=
    if threshold <=? digest_failures then
      let first := match bh_quarantined s !! digest with Some record => qr_first_failed_at record | None => now end in
      <[digest := {| qr_digest := digest; qr_failures := digest_failures; qr_reason := reason;
                     qr_first_failed_at := first; qr_last_failed_at := now |}]> (bh_quarantined s)
    else bh_quarantined s in
  {| bh_current_digest := digest;
     bh_last_healthy_digest := bh_last_healthy_digest s;
     bh_pending_digest := if String.eqb (bh_pending_digest s) digest then EmptyString else bh_pending_digest s;
     bh_status := if bool_decide (is_Some (quarantined !! digest)) then "quarantined" else "unhealthy";
     bh_failures := failures;
     bh_last_failure_boot_id := boot_id;
     bh_last_reason := reason;
     bh_last_recovered_digest := bh_last_recovered_digest s;
     bh_last_recovery_at := bh_last_recovery_at s;
     bh_rollout_ring := bh_rollout_ring s;
     bh_updated_at := now;
     bh_quarantined := quarantined;
     bh_failures_by_digest := failures_by_digest;
     bh_rollback_attempted_for := bh_rollback_attempted_for s;
     bh_last_rollback_error := bh_last_rollback_error s;
     bh_last_rollback_at := bh_last_rollback_at s |}.

Definition mark_healthy (s : BootHealthState) (digest : string) (now : Z) : BootHealthState :=
  let recovered :=
    if negb (String.eqb (bh_current_digest s) digest)
       && bool_decide (is_Some (bh_quarantined s !! bh_current_digest s))
    then bh_current_digest s else EmptyString in
  {| bh_current_digest := digest;
     bh_last_healthy_digest := digest;
     bh_pending_digest := if String.eqb (bh_pending_digest s) digest then EmptyString else bh_pending_digest s;
     bh_status := if is_empty recovered then "healthy" else "recovered";
     bh_failures := 0;
     bh_last_failure_boot_id := EmptyString;
     bh_last_reason :=
       if is_empty recovered then bh_last_reason s
       else "Automatically recovered from quarantined digest " +:+ recovered;
     bh_last_recovered_digest := if is_empty recovered then bh_last_recovered_digest s else recovered;
     bh_last_recovery_at := if is_empty recovered then bh_last_recovery_at s else now;
     bh_rollout_ring := bh_rollout_ring s;
     bh_updated_at := now;
     bh_quarantined := delete digest (bh_quarantined s);
     bh_failures_by_digest := delete digest (bh_failures_by_digest s);
     bh_rollback_attempted_for := bh_rollback_attempted_for s;
     bh_last_rollback_error := bh_last_rollback_error s;
     bh_last_rollback_at := bh_last_rollback_at s |}.

Definition rollback_retry_due (before updated : BootHealthState) (digest : string) : bool :=
  let quarantined s := bool_decide (is_Some (bh_quarantined s !! digest)) in
  let attempted_for_this_digest := String.eqb (bh_rollback_attempted_for updated) digest in
  if negb (quarantined updated) then false
  else if attempted_for_this_digest && is_empty (bh_last_rollback_error updated) then false
  else if negb (quarantined before) then true
  else if negb attempted_for_this_digest then false
  else if is_empty (bh_last_rollback_error updated) then false
  else unwrap_or (bh_failures_by_digest before !! digest) 0 <? unwrap_or (bh_failures_by_digest updated !! digest) 0.

Definition quarantine_boot_message (values : list QuarantineRecord) (s : BootHealthState) : option string :=
  match newest_quarantine values with
  | None => None
  | Some record =>
      let message := "KythOS update quarantined after " +:+ show_int (qr_failures record) +:+ " failed boots: "
                     +:+ qr_reason record in
      Some (if negb (is_empty (bh_last_rollback_error s))
            then message +:+ " — automatic rollback failed: " +:+ bh_last_rollback_error s
            else if String.eqb (bh_rollback_attempted_for s) (qr_digest record)
            then message +:+ " — rolled back, rebooting into the previous deployment"
            else message)
  end.

(** The rollback slot of the state. *)
Definition set_rollback (s : BootHealthState) (digest error : string) (at_ updated : Z) : BootHealthState := {|
  bh_current_digest := bh_current_digest s; bh_last_healthy_digest := bh_last_healthy_digest s;
  bh_pending_digest := bh_pending_digest s; bh_status := bh_status s; bh_failures := bh_failures s;
  bh_last_failure_boot_id := bh_last_failure_boot_id s; bh_last_reason := bh_last_reason s;
  bh_last_recovered_digest := bh_last_recovered_digest s; bh_last_recovery_at := bh_last_recovery_at s;
  bh_rollout_ring := bh_rollout_ring s; bh_updated_at := updated; bh_quarantined := bh_quarantined s;
  bh_failures_by_digest := bh_failures_by_digest s;
  bh_rollback_attempted_for := digest; bh_last_rollback_error := error; bh_last_rollback_at := at_ |}.

Definition note_rollback_attempted (s : BootHealthState) (digest : string) (error : option string) (now : Z)
    : BootHealthState := set_rollback s digest (unwrap_or error EmptyString) now now.

(** The closure of the [retry-rollback] command. *)
Definition forget_rollback (s : BootHealthState) (digest : string) : BootHealthState :=
  if String.eqb (bh_rollback_attempted_for s) digest
  then set_rollback s EmptyString EmptyString 0 (bh_updated_at s) else s.

Definition clear_quarantine (s : BootHealthState) (digest : string) (now : Z) : BootHealthState :=
  let s' := forget_rollback s digest in
  {| bh_current_digest := bh_current_digest s'; bh_last_healthy_digest := bh_last_healthy_digest s';
     bh_pending_digest := bh_pending_digest s';
     bh_status :=
       if String.eqb (bh_current_digest s') digest && String.eqb (bh_status s') "quarantined"
       then "unhealthy" else bh_status s';
     bh_failures := bh_failures s'; bh_last_failure_boot_id := bh_last_failure_boot_id s';
     bh_last_reason := bh_last_reason s'; bh_last_recovered_digest := bh_last_recovered_digest s';
     bh_last_recovery_at := bh_last_recovery_at s'; bh_rollout_ring := bh_rollout_ring s'; bh_updated_at := now;
     bh_quarantined := delete digest (bh_quarantined s');
     bh_failures_by_digest := delete digest (bh_failures_by_digest s');
     bh_rollback_attempted_for := bh_rollback_attempted_for s';
     bh_last_rollback_error := bh_last_rollback_error s'; bh_last_rollback_at := bh_last_rollback_at s' |}.

Definition VALID_ROLLOUT_RINGS : list string := ["follow-image"; "canary"; "testing"; "stable"].

(** [reference.split_once('@')] and [rsplit_once(':')] *)
Definition image_ring (reference : string) : option string :=
  let without_digest := match split_char "@" reference with prefix :: _ => prefix | [] => reference end in
  let tag := match last (split_char ":" without_digest) with
             | Some tag => if contains_char ":" without_digest then tag else EmptyString
             | None => EmptyString
             end in
  let tag := unwrap_or (strip_suffix "-cachy" tag) tag in
  if String.eqb tag "canary" then Some "canary"
  else if String.eqb tag "testing" then Some "testing"
  else if String.eqb tag "latest" then Some "stable"
  else None.

Definition rollout_policy_reason (reference configured_ring : string) : option string :=
  if negb (existsb (String.eqb configured_ring) VALID_ROLLOUT_RINGS)
  then Some ("invalid rollout ring '" +:+ configured_ring +:+ "'")
  else
    let actual := image_ring reference in
    if String.eqb configured_ring "follow-image" || bool_decide (actual = Some configured_ring) then None
    else Some (match actual with
               | None => "cannot determine rollout ring from booted image '" +:+ reference +:+ "'"
               | Some ring => "booted image belongs to " +:+ ring +:+ " ring, configured for " +:+ configured_ring
               end).

(** ** The document on disk *)

(** The derived [Serialize] implementations. *)
Definition record_document (r : QuarantineRecord) : json := jobject
  [("digest", JString (qr_digest r)); ("failures", JNumber (qr_failures r)); ("reason", JString (qr_reason r));
   ("first_failed_at", JNumber (qr_first_failed_at r)); ("last_failed_at", JNumber (qr_last_failed_at r))].

(** [state_document]: the serialized state with its schema version. *)
Definition state_document (s : BootHealthState) : json := jobject
  [("schema_version", JNumber 1);
   ("current_digest", JString (bh_current_digest s));
   ("last_healthy_digest", JString (bh_last_healthy_digest s));
   ("pending_digest", JString (bh_pending_digest s));
   ("status", JString (bh_status s));
   ("failures", JNumber (bh_failures s));
   ("last_failure_boot_id", JString (bh_last_failure_boot_id s));
   ("last_reason", JString (bh_last_reason s));
   ("last_recovered_digest", JString (bh_last_recovered_digest s));
   ("last_recovery_at", JNumber (bh_last_recovery_at s));
   ("rollout_ring", JString (bh_rollout_ring s));
   ("updated_at", JNumber (bh_updated_at s));
   ("quarantined", JObject (record_document <$> bh_quarantined s));
   ("failures_by_digest", JObject (JNumber <$> bh_failures_by_digest s));
   ("rollback_attempted_for", JString (bh_rollback_attempted_for s));
   ("last_rollback_error", JString (bh_last_rollback_error s));
   ("last_rollback_at", JNumber (bh_last_rollback_at s))].

(** A field under [#[serde(default)]]: a missing one takes the default, one of
    another type is an error of the whole document. *)
Definition serde_field {A} (m : gmap string json) (key : string) (dec : json → option A) (default : A) : option A :=
  match m !! key with
  | Some v => dec v
  | None => Some default
  end.

Definition decode_record (v : json) : option QuarantineRecord :=
  match v with
  | JObject m =>
      digest ← serde_field m "digest" as_str EmptyString;
      failures ← serde_field m "failures" as_i64 0;
      reason ← serde_field m "reason" as_str EmptyString;
      first ← serde_field m "first_failed_at" as_i64 0;
      last ← serde_field m "last_failed_at" as_i64 0;
      Some {| qr_digest := digest; qr_failures := failures; qr_reason := reason;
              qr_first_failed_at := first; qr_last_failed_at := last |}
  | _ => None
  end.

Definition record_keys : list string := ["digest"; "failures"; "reason"; "first_failed_at"; "last_failed_at"].

(** One entry of the loop over the stored quarantine. *)
Definition quarantine_entry (digest : string) (record : json) : option QuarantineRecord :=
  match record with
  | JObject m =>
      if negb (Nat.eqb (size m) 5) || negb (forallb (λ key, bool_decide (is_Some (m !! key))) record_keys) then None
      else match decode_record record with
           | Some r => if String.eqb (qr_digest r) digest then Some r else None
           | None => None
           end
  | _ => None
  end.

(** [HashMap<String, i64>] *)
Definition decode_tallies (v : json) : option (gmap string Z) :=
  match v with
  | JObject m =>
      if forallb (λ e, bool_decide (is_Some (as_i64 (snd e)))) (map_to_list m) then Some (omap as_i64 m) else None
  | _ => None
  end.

(** [from_value::<BootHealthState>] after [quarantined] has been removed, with
    the quarantine of the loop and the negative tallies dropped. *)
Definition decode_state (quarantined : gmap string QuarantineRecord) (m : gmap string json) : option BootHealthState :=
  current ← serde_field m "current_digest" as_str EmptyString;
  last_healthy ← serde_field m "last_healthy_digest" as_str EmptyString;
  pending ← serde_field m "pending_digest" as_str EmptyString;
  status ← serde_field m "status" as_str "unknown";
  failures ← serde_field m "failures" as_i64 0;
  boot_id ← serde_field m "last_failure_boot_id" as_str EmptyString;
  reason ← serde_field m "last_reason" as_str EmptyString;
  recovered ← serde_field m "last_recovered_digest" as_str EmptyString;
  recovery_at ← serde_field m "last_recovery_at" as_i64 0;
  ring ← serde_field m "rollout_ring" as_str "follow-image";
  updated_at ← serde_field m "updated_at" as_i64 0;
  tallies ← serde_field m "failures_by_digest" decode_tallies ∅;
  attempted_for ← serde_field m "rollback_attempted_for" as_str EmptyString;
  rollback_error ← serde_field m "last_rollback_error" as_str EmptyString;
  rollback_at ← serde_field m "last_rollback_at" as_i64 0;
  Some {| bh_current_digest := current; bh_last_healthy_digest := last_healthy; bh_pending_digest := pending;
          bh_status := status; bh_failures := failures; bh_last_failure_boot_id := boot_id; bh_last_reason := reason;
          bh_last_recovered_digest := recovered; bh_last_recovery_at := recovery_at; bh_rollout_ring := ring;
          bh_updated_at := updated_at; bh_quarantined := quarantined;
          bh_failures_by_digest := filter (λ e, 0 <= e.2) tallies;
          bh_rollback_attempted_for := attempted_for; bh_last_rollback_error := rollback_error;
          bh_last_rollback_at := rollback_at |}.

Definition state_from_value (value : json) : BootHealthState :=
  match value with
  | JObject m =>
      let schema_version := match m !! "schema_version" with
                            | None => SCHEMA_VERSION
                            | Some v => unwrap_or (as_u64 v) 0
                            end in
      if negb (schema_version =? SCHEMA_VERSION) then default_state
      else
        let quarantined := match m !! "quarantined" with
                           | Some (JObject raw) => map_imap quarantine_entry raw
                           | _ => ∅
                           end in
        unwrap_or (decode_state quarantined (delete "quarantined" m)) default_state
  | _ => default_state
  end.

Definition state_from_json `{JsonCodec} (text : string) : BootHealthState :=
  match json_decode text with
  | Ok value => state_from_value value
  | Err _ => default_state
  end.

(** * Properties of the transitions *)

(** What [invariants] checks. *)
Record bh_ok (s : BootHealthState) : Prop := {
  ok_failures : 0 <= bh_failures s;
  ok_healthy : bh_status s = "healthy" → bh_last_healthy_digest s ≠ EmptyString;
  ok_quarantined d r : bh_quarantined s !! d = Some r → DEFAULT_FAILURE_THRESHOLD <= qr_failures r ∧ qr_digest r = d;
  ok_tallies d n : bh_failures_by_digest s !! d = Some n → 0 <= n;
}.

Lemma flat_map_nil {A B} (f : A → list B) l : flat_map f l = [] ↔ ∀ x, x ∈ l → f x = [].
Proof.
  induction l as [|a l IH]; cbn; [split; [intros _ x Hx; by apply elem_of_nil in Hx|done]|].
  rewrite app_nil, IH. setoid_rewrite elem_of_cons. naive_solver.
Qed.

Lemma quarantine_errors_nil d r :
  quarantine_errors (d, r) = [] ↔ DEFAULT_FAILURE_THRESHOLD <= qr_failures r ∧ qr_digest r = d.
Proof.
  unfold quarantine_errors. rewrite app_nil.
  destruct (Z.ltb_spec (qr_failures r) DEFAULT_FAILURE_THRESHOLD), (String.eqb_spec d (qr_digest r)); naive_solver lia.
Qed.

Lemma invariants_nil s : invariants s = [] ↔ bh_ok s.
Proof.
  unfold invariants. rewrite !app_nil, !flat_map_nil. split.
  - intros (H1 & H2 & H3 & H4). split.
    + destruct (Z.ltb_spec (bh_failures s) 0); [done|lia].
    + intros E He. rewrite E, He in H2. done.
    + intros d r Hd. apply quarantine_errors_nil, H3. by apply elem_of_map_to_list.
    + intros d n Hd. specialize (H4 (d, n)). rewrite elem_of_map_to_list in H4. specialize (H4 Hd). cbn in H4.
      destruct (Z.ltb_spec n 0); [done|lia].
  - intros [H1 H2 H3 H4]. split_and!.
    + destruct (Z.ltb_spec (bh_failures s) 0); [lia|done].
    + destruct (String.eqb_spec (bh_status s) "healthy") as [E|]; [|done].
      destruct (is_empty (bh_last_healthy_digest s)) eqn:He; [|done]. apply is_empty_true in He. by destruct (H2 E).
    + intros [d r] Hd%elem_of_map_to_list. by apply quarantine_errors_nil, H3.
    + intros [d n] Hd%elem_of_map_to_list. apply H4 in Hd. cbn. destruct (Z.ltb_spec n 0); [lia|done].
Qed.

Lemma wrap_i64_small x : is_i64 x → wrap_i64 x = x.
Proof. unfold is_i64, i64_min, i64_max, wrap_i64. intros. rewrite Z.mod_small; lia. Qed.

Lemma wrap_i64_range x : is_i64 (wrap_i64 x).
Proof. unfold is_i64, i64_min, i64_max, wrap_i64. pose proof (Z.mod_pos_bound (x + 2 ^ 63) (2 ^ 64)). lia. Qed.

(** Values of the source's types. *)
Record bh_typed (s : BootHealthState) : Prop := {
  ty_failures : is_i64 (bh_failures s);
  ty_recovery : is_i64 (bh_last_recovery_at s);
  ty_updated : is_i64 (bh_updated_at s);
  ty_rollback : is_i64 (bh_last_rollback_at s);
  ty_quarantined d r : bh_quarantined s !! d = Some r →
    is_i64 (qr_failures r) ∧ is_i64 (qr_first_failed_at r) ∧ is_i64 (qr_last_failed_at r);
  ty_tallies d n : bh_failures_by_digest s !! d = Some n → is_i64 n;
}.

Lemma is_i64_0 : is_i64 0.
Proof. unfold is_i64, i64_min, i64_max. lia. Qed.
#[export] Hint Resolve is_i64_0 wrap_i64_range : kyth.

Lemma default_typed : bh_typed default_state.
Proof. split; cbn; eauto with kyth; intros ?? H; by rewrite lookup_empty in H. Qed.

Lemma default_ok : bh_ok default_state.
Proof. split; cbn; try done; intros ?? H; by rewrite lookup_empty in H. Qed.

Lemma lookup_delete_inv {A} (m : gmap string A) k d x : delete k m !! d = Some x → m !! d = Some x.
Proof. rewrite lookup_delete_Some. tauto. Qed.

Lemma record_failure_typed s digest boot_id reason threshold now :
  bh_typed s → is_i64 now → bh_typed (record_failure s digest boot_id reason threshold now).
Proof.
  intros [H1 H2 H3 H4 H5 H6] Hn. split; cbn; try done.
  - repeat case_match; eauto with kyth.
  - intros d r. case_match; [|by apply H5]. intros [[<- <-]|[_ Hd]]%lookup_insert_Some; [|by eapply H5]. cbn.
    split_and!; [apply wrap_i64_range| |done]. destruct (bh_quarantined s !! digest) eqn:E; [by apply H5 in E as (? & ? & ?)|done].
  - intros d n. case_match; [|by apply H6]. intros [[_ <-]|[_ Hd]]%lookup_insert_Some; [apply wrap_i64_range|by eapply H6].
Qed.

Lemma record_staged_typed s digest ring now : bh_typed s → is_i64 now → bh_typed (record_staged s digest ring now).
Proof. by intros [] ?; split. Qed.

Lemma mark_healthy_typed s digest now : bh_typed s → is_i64 now → bh_typed (mark_healthy s digest now).
Proof.
  intros [H1 H2 H3 H4 H5 H6] Hn. split; cbn; eauto with kyth.
  - by case_match.
  - intros d r Hd%lookup_delete_inv. by eapply H5.
  - intros d n Hd%lookup_delete_inv. by eapply H6.
Qed.

Lemma set_rollback_typed s digest error a u : bh_typed s → is_i64 a → is_i64 u → bh_typed (set_rollback s digest error a u).
Proof. by intros [] ??; split. Qed.

Lemma forget_rollback_typed s digest : bh_typed s → bh_typed (forget_rollback s digest).
Proof.
  intros H. unfold forget_rollback. case_match; [|done]. apply set_rollback_typed; [done|eauto with kyth|apply H].
Qed.

Lemma clear_quarantine_typed s digest now : bh_typed s → is_i64 now → bh_typed (clear_quarantine s digest now).
Proof.
  intros H Hn. destruct (forget_rollback_typed s digest H) as [H1 H2 H3 H4 H5 H6]. split; cbn; try done.
  - intros d r Hd%lookup_delete_inv. by eapply H5.
  - intros d n Hd%lookup_delete_inv. by eapply H6.
Qed.
#[export] Hint Resolve record_failure_typed record_staged_typed mark_healthy_typed set_rollback_typed
  forget_rollback_typed clear_quarantine_typed default_typed default_ok : kyth.

(** ** The checked invariant *)

Lemma record_staged_ok s digest ring now : bh_ok s → bh_ok (record_staged s digest ring now).
Proof. by intros []; split. Qed.

Lemma set_rollback_ok s digest error a u : bh_ok s → bh_ok (set_rollback s digest error a u).
Proof. by intros []; split. Qed.

Lemma forget_rollback_ok s digest : bh_ok s → bh_ok (forget_rollback s digest).
Proof. intros H. unfold forget_rollback. case_match; [by apply set_rollback_ok|done]. Qed.

Lemma clear_quarantine_ok s digest now : bh_ok s → bh_ok (clear_quarantine s digest now).
Proof.
  intros H. destruct (forget_rollback_ok s digest H) as [H1 H2 H3 H4]. split; cbn; [done| | |].
  - by case_match.
  - intros d r Hd%lookup_delete_inv. by eapply H3.
  - intros d n Hd%lookup_delete_inv. by eapply H4.
Qed.

Lemma mark_healthy_ok s digest now : digest ≠ EmptyString → bh_ok s → bh_ok (mark_healthy s digest now).
Proof.
  intros Hd [H1 H2 H3 H4]. split; cbn; [lia|done| |].
  - intros d r E%lookup_delete_inv. by eapply H3.
  - intros d n E%lookup_delete_inv. by eapply H4.
Qed.

Lemma record_failure_ok s digest boot_id reason threshold now :
  DEFAULT_FAILURE_THRESHOLD <= threshold → bh_failures s < i64_max →
  unwrap_or (bh_failures_by_digest s !! digest) 0 < i64_max →
  bh_ok s → bh_ok (record_failure s digest boot_id reason threshold now).
Proof.
  intros Ht Hf Hn [H1 H2 H3 H4].
  assert (0 <= unwrap_or (bh_failures_by_digest s !! digest) 0) as Hge.
  { destruct (bh_failures_by_digest s !! digest) eqn:E; [by eapply H4|done]. }
  split; cbn.
  - assert (∀ x, 0 <= x < i64_max → 0 <= wrap_i64 (x + 1)) as Hw.
    { intros x Hx. rewrite wrap_i64_small; [lia|]. unfold is_i64, i64_min in *. lia. }
    repeat case_match; try apply Hw; try lia; unfold i64_max in *; lia.
  - by case_match.
  - intros d r. case_match eqn:E; [|by apply H3]. bool_inv.
    intros [[<- <-]|[_ Hd]]%lookup_insert_Some; [|by eapply H3]. cbn. split; [|done]. lia.
  - intros d n. case_match; [|by apply H4]. intros [[_ <-]|[_ Hd]]%lookup_insert_Some; [|by eapply H4].
    rewrite wrap_i64_small; [lia|]. unfold is_i64, i64_min, i64_max in *. lia.
Qed.

(** ** The document round trip *)

Lemma as_i64_number n : is_i64 n → as_i64 (JNumber n) = Some n.
Proof. unfold is_i64, as_i64. intros [? ?]. destruct (Z.leb_spec i64_min n), (Z.leb_spec n i64_max); done || lia. Qed.

(** Looking a key up in a literal object. *)
Fixpoint assoc {A} (key : string) (l : list (string * A)) : option A :=
  match l with
  | [] => None
  | (k, x) :: l => if String.eqb key k then Some x else assoc key l
  end.

Lemma lookup_literal {A} key (l : list (string * A)) : (list_to_map l : gmap string A) !! key = assoc key l.
Proof.
  induction l as [|[k x] l IH]; [done|]. cbn [list_to_map foldr assoc fst snd]. destruct (String.eqb_spec key k) as [->|Hne].
  - apply lookup_insert_eq.
  - by rewrite lookup_insert_ne.
Qed.

Lemma serde_literal {A} l key (dec : json → option A) default :
  serde_field (list_to_map l) key dec default = match assoc key l with Some v => dec v | None => Some default end.
Proof. unfold serde_field. by rewrite lookup_literal. Qed.

Lemma serde_delete {A} m k key (dec : json → option A) default :
  k ≠ key → serde_field (delete k m) key dec default = serde_field m key dec default.
Proof. intros. unfold serde_field. by rewrite lookup_delete_ne. Qed.

Lemma quarantine_entry_document d r :
  is_i64 (qr_failures r) → is_i64 (qr_first_failed_at r) → is_i64 (qr_last_failed_at r) → qr_digest r = d →
  quarantine_entry d (record_document r) = Some r.
Proof.
  intros H1 H2 H3 <-. unfold quarantine_entry, record_document, jobject.
  assert (∀ a b c e f : json, size (list_to_map [("digest", a); ("failures", b); ("reason", c); ("first_failed_at", e);
            ("last_failed_at", f)] : gmap string json) = 5%nat) as ->.
  { intros. by vm_compute. }
  cbn [forallb record_keys decode_record Nat.eqb negb orb]. rewrite !lookup_literal, !serde_literal. cbn -[as_i64].
  rewrite !as_i64_number by done. cbn. rewrite String.eqb_refl. by destruct r.
Qed.

Lemma decode_tallies_document (m : gmap string Z) :
  (∀ d n, m !! d = Some n → is_i64 n) → decode_tallies (JObject (JNumber <$> m)) = Some m.
Proof.
  intros H. unfold decode_tallies. destruct (forallb _ _) eqn:E.
  - f_equal. apply map_eq. intros d. rewrite lookup_omap, lookup_fmap. destruct (m !! d) as [n|] eqn:Hd; [|done]. cbn -[as_i64].
    apply as_i64_number. eauto.
  - exfalso. apply not_true_iff_false in E. apply E, forallb_forall. intros [d v] Hd. apply bool_decide_eq_true.
    apply list_elem_of_In, elem_of_map_to_list in Hd. rewrite lookup_fmap in Hd.
    destruct (m !! d) as [n|] eqn:Hn; [|done]. injection Hd as <-. cbn [snd]. rewrite as_i64_number by eauto. by eexists.
Qed.

Lemma filter_tallies (m : gmap string Z) :
  (∀ d n, m !! d = Some n → 0 <= n) → filter (λ e, 0 <= e.2) m = m.
Proof. intros H. apply map_filter_id. intros d n Hd. cbn. by eapply H. Qed.

Lemma quarantine_document (m : gmap string QuarantineRecord) :
  (∀ d r, m !! d = Some r → is_i64 (qr_failures r) ∧ is_i64 (qr_first_failed_at r) ∧ is_i64 (qr_last_failed_at r)) →
  (∀ d r, m !! d = Some r → qr_digest r = d) →
  map_imap quarantine_entry (record_document <$> m) = m.
Proof.
  intros Ht Hk. apply map_eq. intros d. rewrite map_lookup_imap, lookup_fmap. destruct (m !! d) as [r|] eqn:E; [|done]. cbn.
  destruct (Ht d r E) as (? & ? & ?). apply quarantine_entry_document; eauto.
Qed.

(** What the coordinator stores, every reader decodes. *)
Lemma state_from_document s : bh_typed s → bh_ok s → state_from_value (state_document s) = s.
Proof.
  intros [T1 T2 T3 T4 T5 T6] [K1 K2 K3 K4].
  assert (map_imap quarantine_entry (record_document <$> bh_quarantined s) = bh_quarantined s) as Hq
    by (apply quarantine_document; [done|intros d r E; by apply K3 in E as [? ?]]).
  unfold state_from_value, state_document, jobject. rewrite !lookup_literal.
  cbn -[decode_state map_imap delete list_to_map fmap]. rewrite Hq. unfold decode_state.
  rewrite !serde_delete, !serde_literal by done. cbn -[as_i64 decode_tallies filter fmap].
  rewrite !as_i64_number by done. cbn -[decode_tallies filter fmap].
  rewrite decode_tallies_document by done. cbn -[filter]. rewrite filter_tallies by done. by destruct s.
Qed.

Lemma as_i64_range v n : as_i64 v = Some n → is_i64 n.
Proof. destruct v; try done. cbn. case_match eqn:E; [|done]. intros [= <-]. by bool_inv. Qed.

Lemma serde_i64 m key n : serde_field m key as_i64 0 = Some n → is_i64 n.
Proof. unfold serde_field. destruct (m !! key); [apply as_i64_range|intros [= <-]; apply is_i64_0]. Qed.

Lemma decode_record_typed v r :
  decode_record v = Some r → is_i64 (qr_failures r) ∧ is_i64 (qr_first_failed_at r) ∧ is_i64 (qr_last_failed_at r).
Proof.
  unfold decode_record. destruct v; try done. intros H. simplify_option_eq.
  split_and!; eapply serde_i64; eauto with kyth.
Qed.

Lemma serde_tallies m t d n :
  serde_field m "failures_by_digest" decode_tallies ∅ = Some t → t !! d = Some n → is_i64 n.
Proof.
  unfold serde_field, decode_tallies. destruct (m !! _) as [v|]; [|by intros [= <-]; rewrite lookup_empty].
  destruct v; try done. case_match; [|done]. intros [= <-]. rewrite lookup_omap.
  destruct (_ !! d); cbn; [|done]. apply as_i64_range.
Qed.

(** Whatever document is on disk, the decoded state has the source's types. *)
Lemma state_from_value_typed v : bh_typed (state_from_value v).
Proof.
  unfold state_from_value. destruct v; try apply default_typed. cbn zeta. case_match; [apply default_typed|].
  set (q := match m !! "quarantined" with Some (JObject raw) => _ | _ => ∅ end).
  destruct (decode_state _ _) as [s|] eqn:E; [|apply default_typed]. unfold decode_state in E. simplify_option_eq.
  split; cbn -[as_i64 filter]; eauto using serde_i64 with kyth.
  - subst q. intros d r Hd. destruct (m !! "quarantined") as [[]|]; try (by rewrite lookup_empty in Hd).
    rewrite map_lookup_imap in Hd. destruct (_ !! d) as [x|]; [|done]. cbn in Hd. unfold quarantine_entry in Hd.
    destruct x; try done. case_match; [done|]. case_match eqn:Er; [|done]. case_match; [|done]. injection Hd as <-.
    by eapply decode_record_typed.
  - intros d n [Hd _]%map_lookup_filter_Some. by eapply serde_tallies.
Qed.

(** * The counting specification

    A history of reports, the newest first.  A failing boot counts once; it is
    forgiven by a healthy boot of the digest and by an administrator. *)

Inductive HealthEvent :=
| EvStaged (digest ring : string) (now : Z)
| EvFailure (digest boot_id reason : string) (now : Z)
| EvHealthy (digest : string) (now : Z)
| EvCleared (digest : string) (now : Z)
| EvRollback (digest : string) (error : option string) (now : Z)
| EvForget (digest : string).

(** The transition of the source for each report. *)
Definition health_step (threshold : Z) (e : HealthEvent) (s : BootHealthState) : BootHealthState :=
  match e with
  | EvStaged d ring now => record_staged s d ring now
  | EvFailure d boot reason now => record_failure s d boot reason threshold now
  | EvHealthy d now => mark_healthy s d now
  | EvCleared d now => clear_quarantine s d now
  | EvRollback d error now => note_rollback_attempted s d error now
  | EvForget d => forget_rollback s d
  end.
Definition health_run (threshold : Z) (h : list HealthEvent) : BootHealthState :=
  foldr (health_step threshold) default_state h.


Definition same_failure (d boot : string) (e : HealthEvent) : bool :=
  match e with EvFailure d' boot' _ _ => String.eqb d d' && String.eqb boot boot' | _ => false end.










(** * Claims *)


(** The boots of [digest] that failed, each with its first report, and were not
    forgiven after it *)
Fixpoint unforgiven (digest : string) (h : list HealthEvent) : gset string :=
  match h with
  | [] => ∅
  | EvFailure d boot _ _ :: h =>
      if bool_decide (d = digest) && negb (existsb (same_failure d boot) h) then {[boot]} ∪ unforgiven digest h
      else unforgiven digest h
  | (EvHealthy d _ | EvCleared d _) :: h => if bool_decide (d = digest) then ∅ else unforgiven digest h
  | _ :: h => unforgiven digest h
  end.









(** One boot of a digest, reported between those of another: three failures. *)
Example returning_boot_counts_again :
  let h := [EvFailure "a" "b1" "x" 5; EvFailure "b" "b2" "x" 4; EvFailure "a" "b1" "x" 3; EvFailure "b" "b2" "x" 2; EvFailure "a" "b1" "x" 1] in
  unforgiven "a" h = {["b1"]} ∧ bool_decide (is_Some (bh_quarantined (health_run 3 h) !! "a")) = true.
Proof. by vm_compute. Qed.


(** Every transition, with a threshold of at least the default one. *)
Definition event_sound (e : HealthEvent) : Prop :=
  match e with
  | EvStaged _ _ now | EvFailure _ _ _ now | EvCleared _ now | EvRollback _ _ now => is_i64 now
  | EvHealthy d now => is_i64 now ∧ d ≠ EmptyString
  | EvForget _ => True
  end.

(** Type invariant.  Every transition keeps the fields inside [i64] and
    every invariant that the coordinator checks before it stores a state: counts
    are not negative, a healthy state names a healthy digest, and every
    quarantine record is filed under its digest with at least three failures -
    as long as no counter is about to wrap. *)
Theorem health_step_typed threshold e s :
  DEFAULT_FAILURE_THRESHOLD <= threshold → event_sound e → bh_failures s < i64_max →
  (∀ d, unwrap_or (bh_failures_by_digest s !! d) 0 < i64_max) → bh_typed s → invariants s = [] →
  bh_typed (health_step threshold e s) ∧ invariants (health_step threshold e s) = [].
Proof.
  rewrite !invariants_nil. intros Ht He Hf Hd HT HI. destruct e; cbn [health_step event_sound] in *.
  - split; [by apply record_staged_typed|by apply record_staged_ok].
  - split; [by apply record_failure_typed|by apply record_failure_ok].
  - destruct He. split; [by apply mark_healthy_typed|by apply mark_healthy_ok].
  - split; [by apply clear_quarantine_typed|by apply clear_quarantine_ok].
  - split; [by apply set_rollback_typed|by apply set_rollback_ok].
  - split; [by apply forget_rollback_typed|by apply forget_rollback_ok].
Qed.

Lemma health_step_typed_witness :
  invariants (health_step 3 (EvFailure "a" "b1" "x" 1) default_state) = [].
Proof.
  apply health_step_typed; [by vm_compute|by vm_compute| |intros d; cbn [bh_failures_by_digest default_state]; rewrite lookup_empty; by vm_compute|apply default_typed|by vm_compute].
  by vm_compute.
Defined.
