(* ===== verification/UpdateCoordinator.v ===== *)
(** The boot-health coordinator and its command: [system/update_coordinator.rs],
    [boot_health_bin.rs] and the status queries of [system/bootc_query.rs] they
    use.

    The commands are written against [StateStore], what the coordinator promises
    them; the locked read, transform and atomic replacement of the source is an
    instance.  System calls fail as the [TxEnv] of a transaction says. *)

From S2P Require Import Prelude RustStr RustOs Json FileSystem AtomicIo BootHealth.

(** * The store interface *)

(** The system calls of one transaction: the directory, the lock file, the lock,
    whether reading the state fails, and the replacement. *)
Record TxEnv := {
  tx_mkdir : option string;
  tx_open : option string;
  tx_flock : option string;
  tx_unreadable : bool;
  tx_stamp : string;
  tx_atomic : AtomicFaults;
}.

Definition transform := BootHealthState → BootHealthState.

Class StateStore (S : Type) := {
  store_read : S → BootHealthState;
  store_transaction : TxEnv → transform → S → result BootHealthState * S;
  store_ok : S → Prop;
}.

Definition tx_refusal (s : BootHealthState) : string :=
  "refusing to persist invalid boot-health state: [" +:+ String.concat ", " (show_debug <$> invariants s) +:+ "]".

(** A transaction replaces the state it reads, or leaves it; success means the
    replacement, and only a state that satisfies the invariants is stored. *)
Class StateStoreLaws (S : Type) `{StateStore S} := {
  store_typed s : store_ok s → bh_typed (store_read s);
  store_keeps e f s o s' :
    store_ok s → contains_char "/" (tx_stamp e) = false → bh_typed (f (store_read s)) →
    store_transaction e f s = (o, s') → store_ok s';
  store_committed e f s u s' :
    store_ok s → tx_unreadable e = false → contains_char "/" (tx_stamp e) = false →
    bh_typed (f (store_read s)) → store_transaction e f s = (Ok u, s') →
    u = f (store_read s) ∧ invariants u = [] ∧ store_read s' = u;
  store_failed e f s m s' :
    store_ok s → tx_unreadable e = false → contains_char "/" (tx_stamp e) = false →
    bh_typed (f (store_read s)) → store_transaction e f s = (Err m, s') →
    store_read s' = store_read s ∨ (store_read s' = f (store_read s) ∧ invariants (f (store_read s)) = []);
}.

(** A store in memory, in which nothing fails. *)
#[export] Instance memory_store : StateStore BootHealthState := {
  store_read s := s;
  store_transaction _ f s := match invariants (f s) with [] => (Ok (f s), f s) | _ => (Err (tx_refusal (f s)), s) end;
  store_ok := bh_typed;
}.
#[export] Instance memory_store_laws : StateStoreLaws BootHealthState.
Proof.
  split; cbn; [done| | |]; intros e f s; destruct (invariants (f s)) eqn:E; intros; simplify_eq; auto.
Qed.

(** * Programs over a store *)

(** A transaction; [err] is the program's error for its message. *)
Definition log_tx {S O E} (err : string → E) (c : ST S BootHealthState) : Log S O E BootHealthState := λ s,
  match c s with
  | (Ok u, s1) => (inl u, s1, [])
  | (Err m, s1) => (inr (err m), s1, [])
  end.
(** A read outside a transaction. *)
Definition log_read {S O E} `{StateStore S} (unreadable : bool) : Log S O E BootHealthState := λ s,
  (inl (if unreadable then default_state else store_read s), s, []).

Section triples.
Context {S O E : Type} `{HL : StateStoreLaws S}.

(** From a stored state with [Pre], [c] leaves one with [P] whether it succeeds
    or not, only does events of [Q], and returns [a] with [R a]. *)
Definition obeys {A} (Pre P : BootHealthState → Prop) (Q : O → Prop) (R : A → BootHealthState → Prop)
    (c : Log S O E A) : Prop :=
  ∀ s, store_ok s → Pre (store_read s) →
  let '(r, s', l) := c s in
  store_ok s' ∧ P (store_read s') ∧ Forall Q l ∧ ∀ a, r = inl a → R a (store_read s').

Lemma obeys_run {A} (Pre P : BootHealthState → Prop) Q (R : A → BootHealthState → Prop) (c : Log S O E A) s r s' l :
  obeys Pre P Q R c → store_ok s → Pre (store_read s) → c s = (r, s', l) →
  store_ok s' ∧ P (store_read s') ∧ Forall Q l ∧ ∀ a, r = inl a → R a (store_read s').
Proof. intros Hc Hs Hp Hrun. specialize (Hc s Hs Hp). by rewrite Hrun in Hc. Qed.

Lemma obeys_ret {A} (Pre P : BootHealthState → Prop) Q (R : A → BootHealthState → Prop) a :
  (∀ s, Pre s → P s ∧ R a s) → obeys Pre P Q R (log_ret a).
Proof. intros HR s Hs HP. destruct (HR _ HP). split_and!; [done|done|constructor|]. by intros a' [= <-]. Qed.

Lemma obeys_fail {A} (Pre P : BootHealthState → Prop) Q (R : A → BootHealthState → Prop) e :
  (∀ s, Pre s → P s) → obeys Pre P Q R (log_fail e).
Proof. intros HR s Hs HP. split_and!; [done|by apply HR|constructor|done]. Qed.

Lemma obeys_outs (Pre P : BootHealthState → Prop) (Q : O → Prop) l :
  (∀ s, Pre s → P s) → Forall Q l → obeys Pre P Q (λ _, Pre) (log_outs l).
Proof. intros HP HQ s Hs Hp. split_and!; [done|by apply HP|done|done]. Qed.

Lemma obeys_out (Pre P : BootHealthState → Prop) (Q : O → Prop) o :
  (∀ s, Pre s → P s) → Q o → obeys Pre P Q (λ _, Pre) (log_out o).
Proof. intros HP HQ s Hs Hp. split_and!; [done|by apply HP|by constructor|done]. Qed.

Lemma obeys_read (Pre P : BootHealthState → Prop) Q (b : bool) :
  (∀ s, Pre s → P s) → b = false → obeys Pre P Q (λ x s, x = s ∧ Pre s) (log_read b).
Proof. intros HP Hr s Hs Hp. cbn. rewrite Hr. split_and!; [done|by apply HP|constructor|]. by intros a [= <-]. Qed.

Lemma obeys_bind {A B} Pre P Q (R1 : A → BootHealthState → Prop) (R2 : B → BootHealthState → Prop) c k :
  obeys Pre P Q R1 c → (∀ a, obeys (R1 a) P Q R2 (k a)) → obeys Pre P Q R2 (log_bind c k).
Proof.
  intros Hc Hk s Hs HP. specialize (Hc s Hs HP). unfold log_bind. destruct (c s) as [[[a|e] s1] l1].
  - destruct Hc as (H1 & H2 & H3 & H4). specialize (Hk a s1 H1 (H4 a eq_refl)).
    destruct (k a s1) as [[r s2] l2]. destruct Hk as (K1 & K2 & K3 & K4). split_and!; [done|done|by apply Forall_app|done].
  - destruct Hc as (H1 & H2 & H3 & _). by split_and!.
Qed.

Lemma obeys_pre {A} (Pre Pre' P : BootHealthState → Prop) Q (R : A → BootHealthState → Prop) c (φ : Prop) :
  (∀ s, Pre' s → φ ∧ Pre s) → (φ → obeys Pre P Q R c) → obeys Pre' P Q R c.
Proof. intros HP Hc s Hs Hp. destruct (HP _ Hp). by apply Hc. Qed.

Lemma obeys_post {A} (Pre P : BootHealthState → Prop) Q (R R' : A → BootHealthState → Prop) (c : Log S O E A) :
  (∀ a s, R a s → R' a s) → obeys Pre P Q R c → obeys Pre P Q R' c.
Proof.
  intros HR Hc s Hs Hp. specialize (Hc s Hs Hp). destruct (c s) as [[r s'] l]. destruct Hc as (? & ? & ? & ?). split_and!; auto.
Qed.

(** A transaction whose transform keeps [P]. *)
Lemma obeys_tx (Pre P : BootHealthState → Prop) Q (err : string → E) e f :
  tx_unreadable e = false → contains_char "/" (tx_stamp e) = false →
  (∀ s, bh_typed s → bh_typed (f s)) → (∀ s, Pre s → P s ∧ P (f s)) →
  obeys Pre P Q (λ u s', s' = u ∧ ∃ s, Pre s ∧ u = f s ∧ invariants u = []) (log_tx err (store_transaction e f)).
Proof.
  intros Hu He Ht HP s Hs Hp. unfold log_tx. destruct (HP _ Hp) as [P1 P2].
  destruct (store_transaction e f s) as [[u|m] s'] eqn:Etx.
  - destruct (store_committed e f s u s' Hs Hu He (Ht _ (store_typed s Hs)) Etx) as (-> & Hi & Hr).
    split_and!; [eapply store_keeps; eauto using store_typed|by rewrite Hr|constructor|]. intros a [= <-]. split; [done|]. eauto.
  - destruct (store_failed e f s m s' Hs Hu He (Ht _ (store_typed s Hs)) Etx) as [Hr|[Hr _]];
      (split_and!; [eapply store_keeps; eauto using store_typed|by rewrite Hr|constructor|done]).
Qed.

Lemma log_tx_done (err : string → E) e f (s : S) u s' l :
  log_tx (O := O) err (store_transaction e f) s = (inl u, s', l) → store_ok s → tx_unreadable e = false →
  contains_char "/" (tx_stamp e) = false → (∀ x, bh_typed x → bh_typed (f x)) →
  u = f (store_read s) ∧ store_read s' = u ∧ store_ok s' ∧ l = [].
Proof.
  unfold log_tx. destruct (store_transaction e f s) as [[v|m] s1] eqn:Etx; [|done]. intros [= <- <- <-] Hs Hu Hst Ht.
  destruct (store_committed e f s v s1 Hs Hu Hst (Ht _ (store_typed s Hs)) Etx) as (-> & _ & ->). split_and!; try done.
  eapply store_keeps; eauto using store_typed.
Qed.

End triples.

(** * The files of the coordinator *)

(** [serde_json::to_string_pretty] with the newline the writer appends. *)
Class JsonPretty `{JsonCodec} := { json_document : json → string }.
Class JsonPrettyLaws `{JsonPretty} := {
  document_roundtrip v : json_decode (json_document v +:+ newline) = Ok v;
}.

Section files.
Context `{HP : JsonPretty}.

(** [read_state]: a missing or unreadable file is the empty state. *)
Definition read_state (unreadable : bool) (path : string) (fs : Fs) : BootHealthState :=
  if unreadable then default_state
  else match read_file fs path with
       | Some text => state_from_json text
       | None => default_state
       end.

(** Opening the lock file creates it. *)
Definition open_lock (path : string) (fs : Fs) : Fs :=
  match dir fs !! path with
  | Some _ => fs
  | None => create_file path fs
  end.

Definition transaction_run (path : string) (e : TxEnv) (f : transform) (fs : Fs) : Run * BootHealthState :=
  let lock_path := path +:+ ".lock" in
  match tx_mkdir e, tx_open e with
  | Some m, _ | None, Some m => (refused fs m, default_state)
  | None, None =>
      let fs := open_lock lock_path fs in
      match tx_flock e with
      | Some m => (refused fs m, default_state)
      | None =>
          let updated := f (read_state (tx_unreadable e) path fs) in
          match invariants updated with
          | [] => (atomic_write_bytes (tx_atomic e) (tx_stamp e) path (json_document (state_document updated) +:+ newline) fs,
                   updated)
          | _ => (refused fs (tx_refusal updated), updated)
          end
      end
  end.

Definition transaction (path : string) (e : TxEnv) (f : transform) (fs : Fs) : result BootHealthState * Fs :=
  let '(r, updated) := transaction_run path e f fs in
  (rmap (λ _, updated) (outcome r), final r).

#[export] Instance file_store (path : string) : StateStore Fs := {
  store_read := read_state false path;
  store_transaction := transaction path;
  store_ok := fs_wf;
}.

End files.

(** [UpdateCoordinator]'s methods. *)
Section coordinator.
Context {S : Type} `{StateStore S}.

Definition coord_record_staged (e : TxEnv) (digest ring : string) (now : Z) : ST S BootHealthState :=
  store_transaction e (λ s, record_staged s digest ring now).
Definition coord_record_failure (e : TxEnv) (digest boot_id reason : string) (threshold now : Z) : ST S BootHealthState :=
  store_transaction e (λ s, record_failure s digest boot_id reason threshold now).
Definition coord_mark_healthy (e : TxEnv) (digest : string) (now : Z) : ST S BootHealthState :=
  store_transaction e (λ s, mark_healthy s digest now).
Definition coord_clear_quarantine (e : TxEnv) (digest : string) (now : Z) : ST S BootHealthState :=
  store_transaction e (λ s, clear_quarantine s digest now).
Definition coord_note_rollback (e : TxEnv) (digest : string) (error : option string) (now : Z) : ST S BootHealthState :=
  store_transaction e (λ s, note_rollback_attempted s digest error now).

End coordinator.

(** * The files implement the store *)

Lemma open_lock_wf p fs : fs_wf fs → fs_wf (open_lock p fs).
Proof.
  intros Hw. unfold open_lock. destruct (dir fs !! p); [done|]. intros q i [H|H]; cbn in *.
  - apply lookup_insert_Some in H as [[_ [= <-]]|[_ H]].
    + split; [lia|]. rewrite lookup_insert_eq. by eexists.
    + destruct (Hw q i (or_introl H)) as [? ?]. split; [lia|]. rewrite lookup_insert_ne by lia. done.
  - destruct (Hw q i (or_intror H)) as [? ?]. split; [lia|]. rewrite lookup_insert_ne by lia. done.
Qed.

Lemma open_lock_read p path fs : fs_wf fs → p ≠ path → read_file (open_lock p fs) path = read_file fs path.
Proof.
  intros Hw Hne. unfold open_lock. destruct (dir fs !! p); [done|]. unfold read_file. cbn. rewrite lookup_insert_ne by done.
  destruct (dir fs !! path) as [[i|]|] eqn:E; try done. destruct (Hw path i (or_introl E)). rewrite lookup_insert_ne by lia. done.
Qed.

Lemma lock_path_ne path : path +:+ ".lock" ≠ path.
Proof. intros E. apply (f_equal String.length) in E. rewrite slen_append in E. cbn in E. lia. Qed.

Section file_laws.
Context `{HL : JsonPrettyLaws}.

Lemma read_document b path fs s :
  bh_typed s → invariants s = [] → read_file fs path = Some (json_document (state_document s) +:+ newline) →
  b = false → read_state b path fs = s.
Proof.
  intros Ht Hi Hr ->. unfold read_state, state_from_json. rewrite Hr, document_roundtrip.
  by apply state_from_document, invariants_nil.
Qed.

Lemma read_state_typed b path fs : bh_typed (read_state b path fs).
Proof.
  unfold read_state, state_from_json. repeat case_match; eauto using state_from_value_typed with kyth.
Qed.

(** The lock file is not the state. *)
Lemma read_state_lock b path fs : fs_wf fs → read_state b path (open_lock (path +:+ ".lock") fs) = read_state b path fs.
Proof. intros. unfold read_state. by rewrite open_lock_read by (done || apply lock_path_ne). Qed.

(** Every way through a transaction: stopped before the replacement with the
    state as it was, or the replacement of the state by its image. *)
Lemma transaction_cases path e f fs :
  fs_wf fs → let s := read_state (tx_unreadable e) path fs in
  let fs' := open_lock (path +:+ ".lock") fs in
  (∃ fs0 m u, transaction_run path e f fs = (refused fs0 m, u) ∧ (fs0 = fs ∨ fs0 = fs')) ∨
  (invariants (f s) = [] ∧
   transaction_run path e f fs =
     (atomic_write_bytes (tx_atomic e) (tx_stamp e) path (json_document (state_document (f s)) +:+ newline) fs', f s)).
Proof.
  intros Hw s fs'. unfold transaction_run. destruct (tx_mkdir e); [eauto 10|]. destruct (tx_open e); [eauto 10|].
  destruct (tx_flock e); [eauto 10|]. rewrite read_state_lock by done. fold s fs'.
  destruct (invariants (f s)); [by right|left; eauto 10].
Qed.

Lemma refused_read path fs fs0 b :
  fs_wf fs → fs0 = fs ∨ fs0 = open_lock (path +:+ ".lock") fs →
  fs_wf fs0 ∧ read_state b path fs0 = read_state b path fs.
Proof. intros Hw [->| ->]; [done|]. split; [by apply open_lock_wf|by apply read_state_lock]. Qed.

#[export] Instance file_store_laws (path : string) : @StateStoreLaws Fs (file_store path).
Proof.
  split; cbn [store_ok store_read store_transaction file_store]; unfold transaction.
  - intros s _. apply read_state_typed.
  - intros e f fs o fs1 Hw Hs _. destruct (transaction_cases path e f fs Hw) as [(fs0 & m & u & -> & Hfs)|[Hi ->]].
    + intros [= _ <-]. by destruct (refused_read path fs fs0 false Hw Hfs).
    + intros [= _ <-]. eapply wo_wf, atomic_write_ok; [done|by apply open_lock_wf].
  - intros e f fs u fs1 Hw Hr Hs Ht. destruct (transaction_cases path e f fs Hw) as [(fs0 & m & u' & -> & Hfs)|[Hi ->]]; [done|].
    rewrite Hr in *. set (data := _ +:+ newline). set (fs' := open_lock _ fs).
    pose proof (atomic_write_ok (tx_atomic e) (tx_stamp e) path data fs' Hs (open_lock_wf _ _ Hw)) as [_ _ Hok].
    destruct (outcome _) as [[]|]; [|done]. intros [= <- <-]. destruct (Hok eq_refl) as [Hread _].
    split_and!; [done|done|]. by eapply read_document.
  - intros e f fs m fs1 Hw Hr Hs Ht. destruct (transaction_cases path e f fs Hw) as [(fs0 & m' & u' & -> & Hfs)|[Hi ->]].
    + intros [= _ <-]. left. by destruct (refused_read path fs fs0 false Hw Hfs).
    + rewrite Hr in *. set (data := _ +:+ newline). set (fs' := open_lock _ fs). intros [= _ <-].
      destruct (atomic_write_live (tx_atomic e) (tx_stamp e) path data fs' Hs (open_lock_wf _ _ Hw)) as [E|E].
      * left. unfold read_state at 1. rewrite E. by apply (read_state_lock false).
      * right. split; [|done]. by eapply read_document.
Qed.

End file_laws.

(** * Concurrent coordinators

    Several processes run [transaction] on one state file, interleaved at every
    system call: the lock serializes them. *)

(** How far a process has come in [transaction]. *)
Inductive TxPc :=
| TxStart
| TxOpened
| TxLocked
| TxDecided (updated : BootHealthState)
| TxFinished (r : result BootHealthState).

Record TxProcess := { px_env : TxEnv; px_transform : transform; px_pc : TxPc }.
Definition at_pc (p : TxProcess) (pc : TxPc) : TxProcess :=
  {| px_env := px_env p; px_transform := px_transform p; px_pc := pc |}.

Record TxSystem := { sys_fs : Fs; sys_holder : option nat; sys_procs : list TxProcess }.

Section concurrent.
Context `{HP : JsonPretty}.
Variable path : string.

(** One system call of process [i]. *)
Inductive tx_step (i : nat) (sys : TxSystem) : TxSystem → Prop :=
| step_open p :
    sys_procs sys !! i = Some p → px_pc p = TxStart → tx_mkdir (px_env p) = None → tx_open (px_env p) = None →
    tx_step i sys {| sys_fs := open_lock (path +:+ ".lock") (sys_fs sys); sys_holder := sys_holder sys;
                     sys_procs := <[i := at_pc p TxOpened]> (sys_procs sys) |}
| step_refused p m :
    sys_procs sys !! i = Some p → px_pc p = TxStart ∧ (tx_mkdir (px_env p) = Some m ∨ tx_open (px_env p) = Some m)
                                  ∨ px_pc p = TxOpened ∧ tx_flock (px_env p) = Some m →
    tx_step i sys {| sys_fs := sys_fs sys; sys_holder := sys_holder sys;
                     sys_procs := <[i := at_pc p (TxFinished (Err m))]> (sys_procs sys) |}
| step_flock p :
    sys_procs sys !! i = Some p → px_pc p = TxOpened → tx_flock (px_env p) = None → sys_holder sys = None →
    tx_step i sys {| sys_fs := sys_fs sys; sys_holder := Some i; sys_procs := <[i := at_pc p TxLocked]> (sys_procs sys) |}
| step_read p :
    sys_procs sys !! i = Some p → px_pc p = TxLocked →
    tx_step i sys {| sys_fs := sys_fs sys; sys_holder := sys_holder sys;
                     sys_procs := <[i := at_pc p (TxDecided (px_transform p
                                           (read_state (tx_unreadable (px_env p)) path (sys_fs sys))))]> (sys_procs sys) |}
| step_invalid p u :
    sys_procs sys !! i = Some p → px_pc p = TxDecided u → invariants u ≠ [] →
    tx_step i sys {| sys_fs := sys_fs sys; sys_holder := None;
                     sys_procs := <[i := at_pc p (TxFinished (Err (tx_refusal u)))]> (sys_procs sys) |}
| step_write p u r :
    sys_procs sys !! i = Some p → px_pc p = TxDecided u → invariants u = [] →
    r = atomic_write_bytes (tx_atomic (px_env p)) (tx_stamp (px_env p)) path
          (json_document (state_document u) +:+ newline) (sys_fs sys) →
    tx_step i sys {| sys_fs := final r; sys_holder := None;
                     sys_procs := <[i := at_pc p (TxFinished (rmap (λ _, u) (outcome r)))]> (sys_procs sys) |}.

Inductive tx_reachable (sys0 : TxSystem) : TxSystem → Prop :=
| reach_start : tx_reachable sys0 sys0
| reach_step i sys sys' : tx_reachable sys0 sys → tx_step i sys sys' → tx_reachable sys0 sys'.

(** A file system, and processes that have not begun. *)
Definition tx_initial (sys : TxSystem) : Prop :=
  fs_wf (sys_fs sys) ∧ sys_holder sys = None ∧
  Forall (λ p, px_pc p = TxStart ∧ contains_char "/" (tx_stamp (px_env p)) = false ∧
               ∀ s, bh_typed s → bh_typed (px_transform p s)) (sys_procs sys).

(** What a process makes of the stored state: its transform, of the empty state
    when its read fails. *)
Definition tx_effect (p : TxProcess) (s : BootHealthState) : BootHealthState :=
  px_transform p (if tx_unreadable (px_env p) then default_state else s).
(** The effects of the processes [l], the last of the list first. *)
Definition applied (procs : list TxProcess) (l : list nat) (s : BootHealthState) : BootHealthState :=
  foldr (λ i s, match procs !! i with Some p => tx_effect p s | None => s end) s l.

Definition in_section (pc : TxPc) : Prop := match pc with TxLocked | TxDecided _ => True | _ => False end.

(** [l]: the processes whose replacement took place. *)
Record tx_inv (s0 : BootHealthState) (sys : TxSystem) (l : list nat) : Prop := {
  ti_wf : fs_wf (sys_fs sys);
  ti_state : read_state false path (sys_fs sys) = applied (sys_procs sys) l s0;
  ti_procs : Forall (λ p, contains_char "/" (tx_stamp (px_env p)) = false ∧
                          ∀ s, bh_typed s → bh_typed (px_transform p s)) (sys_procs sys);
  ti_section i p : sys_procs sys !! i = Some p → in_section (px_pc p) → sys_holder sys = Some i;
  ti_decided i p u : sys_procs sys !! i = Some p → px_pc p = TxDecided u →
    u = tx_effect p (read_state false path (sys_fs sys));
  ti_nodup : NoDup l;
  ti_done i : i ∈ l → ∃ p r, sys_procs sys !! i = Some p ∧ px_pc p = TxFinished r;
  ti_ok i p u : sys_procs sys !! i = Some p → px_pc p = TxFinished (Ok u) → i ∈ l;
}.
End concurrent.

Section concurrent_laws.
Context `{HL : JsonPrettyLaws}.
Variable path : string.

Lemma applied_at_pc procs i p pc l s :
  procs !! i = Some p → applied (<[i := at_pc p pc]> procs) l s = applied procs l s.
Proof.
  intros Hi. unfold applied. induction l as [|j l IH]; [done|]. cbn. rewrite IH. destruct (decide (i = j)) as [<-|Hne].
  - rewrite list_lookup_insert_eq, Hi by (by eapply lookup_lt_Some). done.
  - by rewrite list_lookup_insert_ne.
Qed.

Lemma read_state_effect p fs :
  px_transform p (read_state (tx_unreadable (px_env p)) path fs) = tx_effect p (read_state false path fs).
Proof. unfold tx_effect. by destruct (tx_unreadable (px_env p)). Qed.

(** One process moves: the facts of the others survive. *)
Lemma tx_inv_move s0 sys l i p pc fs' holder' l' :
  tx_inv path s0 sys l → sys_procs sys !! i = Some p → (∀ r, px_pc p ≠ TxFinished r) → fs_wf fs' →
  read_state false path fs' = applied (sys_procs sys) l' s0 → (in_section pc → holder' = Some i) →
  (∀ u, pc = TxDecided u → u = tx_effect p (read_state false path fs')) →
  (∀ j q, j ≠ i → sys_procs sys !! j = Some q → in_section (px_pc q) →
          holder' = Some j ∧ read_state false path fs' = read_state false path (sys_fs sys)) →
  (l' = l ∧ (∀ u, pc ≠ TxFinished (Ok u)) ∨ l' = i :: l ∧ ∃ r, pc = TxFinished r) →
  tx_inv path s0 {| sys_fs := fs'; sys_holder := holder'; sys_procs := <[i := at_pc p pc]> (sys_procs sys) |} l'.
Proof.
  intros [I1 I2 I3 I4 I5 I6 I7 I8] Hi Hpc Hw Hr Hsec Hdec Hothers Hl.
  assert (i < length (sys_procs sys))%nat as Hlt by (by eapply lookup_lt_Some).
  assert (i ∉ l) as Hnot. { intros Hin. destruct (I7 i Hin) as (q & r & Hq & Hf). simplify_eq. by eapply Hpc. }
  split; cbn [sys_fs sys_holder sys_procs]; [done|by rewrite applied_at_pc| | | | | |].
  - apply Forall_insert; [done|]. exact (proj1 (Forall_lookup _ _) I3 i p Hi).
  - intros j q [(-> & <- & _)|[Hne Hq]]%list_lookup_insert_Some Hin; [by apply Hsec|]. by eapply Hothers.
  - intros j q u [(-> & <- & _)|[Hne Hq]]%list_lookup_insert_Some Hu; [by apply Hdec|].
    destruct (Hothers j q ltac:(done) Hq) as [_ ->]; [by rewrite Hu|]. by eapply I5.
  - destruct Hl as [[-> _]|[-> _]]; [done|]. by constructor.
  - intros j Hj. destruct (decide (j = i)) as [->|Hne].
    + rewrite list_lookup_insert_eq by done. destruct Hl as [[-> _]|(-> & r & ->)]; [done|]. by eexists _, _.
    + rewrite list_lookup_insert_ne by done. apply I7. destruct Hl as [[-> _]|[-> _]]; [done|].
      by apply elem_of_cons in Hj as [->|].
  - intros j q u [(-> & <- & _)|[Hne Hq]]%list_lookup_insert_Some Hu.
    + destruct Hl as [[-> Hn]|[-> _]]; [by destruct (Hn u)|by left].
    + assert (j ∈ l) by (by eapply I8). destruct Hl as [[-> _]|[-> _]]; [done|by right].
Qed.

(** The replacement stores [u], or fails with the old state in place. *)
Lemma write_result e u fs :
  fs_wf fs → bh_typed u → invariants u = [] → contains_char "/" (tx_stamp e) = false →
  let r := atomic_write_bytes (tx_atomic e) (tx_stamp e) path (json_document (state_document u) +:+ newline) fs in
  fs_wf (final r) ∧
  (read_state false path (final r) = u ∨
   read_state false path (final r) = read_state false path fs ∧ ∃ m, outcome r = Err m).
Proof.
  intros Hw Ht Hi Hs r. destruct (atomic_write_ok (tx_atomic e) (tx_stamp e) path
    (json_document (state_document u) +:+ newline) fs Hs Hw) as [W1 _ W3]. fold r in W1, W3. split; [done|].
  destruct (outcome r) as [[]|m] eqn:E; [left; destruct (W3 eq_refl) as [W4 _]; by eapply read_document|].
  destruct (atomic_write_live (tx_atomic e) (tx_stamp e) path
    (json_document (state_document u) +:+ newline) fs Hs Hw) as [H1|H1]; fold r in H1.
  - right. split; [|by eexists]. unfold read_state. by rewrite H1.
  - left. by eapply read_document.
Qed.

Lemma tx_step_inv s0 i sys sys' l : tx_inv path s0 sys l → tx_step path i sys sys' → ∃ l', tx_inv path s0 sys' l'.
Proof.
  intros Hinv Hstep. pose proof Hinv as [I1 I2 I3 I4 I5 I6 I7 I8].
  assert (∀ j q, j ≠ i → sys_procs sys !! j = Some q → in_section (px_pc q) → sys_holder sys = Some j) as Hoth
    by (intros j q _ Hq Hin; by eapply I4).
  assert (∀ p, sys_procs sys !! i = Some p → in_section (px_pc p) → ∀ j q, j ≠ i → sys_procs sys !! j = Some q →
            in_section (px_pc q) → False) as Halone.
  { intros p Hp Hs j q Hne Hq Hin. apply (I4 _ _ Hq) in Hin. apply (I4 _ _ Hp) in Hs. congruence. }
  destruct Hstep as [p Hp Hpc Hm Ho|p m Hp Hpc|p Hp Hpc Hf Hh|p Hp Hpc|p u Hp Hpc Hi|p u r Hp Hpc Hi Er].
  - exists l. apply (tx_inv_move s0 sys l i p); [done|done|congruence|by apply open_lock_wf|by rewrite read_state_lock|done|done| |by left].
    intros j q Hne Hq Hin. rewrite read_state_lock by done. split; [by eapply Hoth|done].
  - exists l. apply (tx_inv_move s0 sys l i p); [done|done| |done|done|done|done| |by left].
    + intros r. destruct Hpc as [[-> _]|[-> _]]; congruence.
    + intros j q Hne Hq Hin. split; [by eapply Hoth|done].
  - exists l. apply (tx_inv_move s0 sys l i p); [done|done|congruence|done|done|done|done| |by left].
    intros j q Hne Hq Hin. apply (I4 _ _ Hq) in Hin. congruence.
  - exists l. rewrite read_state_effect. apply (tx_inv_move s0 sys l i p); [done|done|congruence|done|done| |congruence| |by left].
    + intros _. apply (I4 i p); [done|by rewrite Hpc].
    + intros j q Hne Hq Hin. split; [by eapply Hoth|done].
  - exists l. apply (tx_inv_move s0 sys l i p); [done|done|congruence|done|done|done|done| |by left].
    intros j q Hne Hq Hin. exfalso. eapply Halone; eauto. by rewrite Hpc.
  - destruct (proj1 (Forall_lookup _ _) I3 i p Hp) as (Hst & Hty). pose proof (I5 i p u Hp Hpc) as Hu.
    assert (bh_typed u) as Htu by (rewrite Hu; apply Hty; case_match; [apply default_typed|apply read_state_typed]).
    assert (∀ j q, j ≠ i → sys_procs sys !! j = Some q → in_section (px_pc q) → False) as Hno
      by (eapply Halone; [done|by rewrite Hpc]).
    destruct (write_result (px_env p) u (sys_fs sys) I1 Htu Hi Hst) as [W1 W2]. rewrite <-Er in W1, W2.
    destruct W2 as [Hread|[Hread [m Hm]]].
    + exists (i :: l).
      apply (tx_inv_move s0 sys l i p); [done|done|congruence|done| |done|done|by intros; exfalso; eapply Hno|right; eauto].
      rewrite Hread. unfold applied in *. cbn [foldr]. by rewrite Hp, <-I2.
    + exists l. rewrite Hm.
      apply (tx_inv_move s0 sys l i p); [done|done|congruence|done|congruence|done|done|by intros; exfalso; eapply Hno|by left].
Qed.

Lemma tx_reachable_inv sys0 sys :
  tx_initial sys0 → tx_reachable path sys0 sys → ∃ l, tx_inv path (read_state false path (sys_fs sys0)) sys l.
Proof.
  intros (Hw & Hh & Hp) Hreach. induction Hreach as [|i sys sys' _ [l IH] Hs]; [|by eapply tx_step_inv].
  rewrite Forall_lookup in Hp. exists []. split; try done.
  - apply Forall_lookup. intros j p Hj. by apply Hp in Hj as (_ & ? & ?).
  - intros i p Hi Hin. apply Hp in Hi as (E & _). by rewrite E in Hin.
  - intros i p u Hi Hu. apply Hp in Hi as (E & _). by rewrite E in Hu.
  - constructor.
  - intros i Hi. by apply elem_of_nil in Hi.
  - intros i p u Hi Hu. apply Hp in Hi as (E & _). by rewrite E in Hu.
Qed.
End concurrent_laws.

(** * Claims *)

(** What a crash of [fs] may leave a reader with. *)
Definition crash_state `{JsonCodec} (path : string) (fs : Fs) (s : BootHealthState) : Prop :=
  ∃ x, crash_read fs path x ∧ s = match x with Some text => state_from_json text | None => default_state end.

Lemma open_lock_crash path fs x :
  fs_wf fs → crash_read (open_lock (path +:+ ".lock") fs) path x → crash_read fs path x.
Proof.
  intros Hw. unfold open_lock. destruct (dir fs !! (path +:+ ".lock")) eqn:E; [done|].
  apply (framed_crash [path +:+ ".lock"]); [done|by apply framed_create; left|].
  intros [Hp|Hp%elem_of_nil]%elem_of_cons; [by apply (lock_path_ne path)|done].
Qed.

(** Safety.  A transaction interrupted by a crash at any moment, with any
    system call failing, leaves a state that could have been found before it or
    the complete new state, and the new state is one that satisfies every stored
    invariant; when it reports success the new state survives every crash. *)
Theorem transaction_crash_safe `{HL : JsonPrettyLaws} path e f fs v s :
  fs_wf fs → tx_unreadable e = false → contains_char "/" (tx_stamp e) = false →
  bh_typed (f (read_state false path fs)) →
  let r := fst (transaction_run path e f fs) in
  (v ∈ visited r → crash_state path v s →
     crash_state path fs s ∨ s = f (read_state false path fs) ∧ invariants s = []) ∧
  (outcome r = Ok tt → crash_state path (final r) s → s = f (read_state false path fs)).
Proof.
  intros Hw Hu Hs Ht r. subst r. destruct (transaction_cases path e f fs Hw) as [(fs0 & m & u & -> & Hfs)|[Hi ->]].
  - split; [|done]. intros ->%list_elem_of_singleton (x & Hx & ->). left. exists x. split; [|done].
    destruct Hfs as [->| ->]; [done|by apply open_lock_crash].
  - rewrite Hu in *. cbn [fst]. set (new := f _) in *. set (data := _ +:+ newline).
    assert (state_from_json data = new) as Hdata.
    { unfold state_from_json, data. rewrite document_roundtrip. by apply state_from_document, invariants_nil. }
    pose proof (atomic_write_ok (tx_atomic e) (tx_stamp e) path data (open_lock (path +:+ ".lock") fs) Hs (open_lock_wf _ _ Hw))
      as [_ W2 W3]. split.
    + intros Hv (x & Hx & ->). destruct (W2 v x Hv Hx) as [Hold| ->]; [|right; by rewrite Hdata].
      left. exists x. split; [by apply open_lock_crash|done].
    + intros Hok (x & Hx & ->). destruct (W3 Hok) as [_ W4]. by rewrite (W4 x Hx).
Qed.

(** C24: safety.  However the system calls of any number of coordinators
    interleave, and whichever of them fail, the stored state is the original one
    with the effects of some of the processes applied one after the other, each
    once, every process that reported success among them and only processes that
    have finished.  The effect of a process is its transform of the state as it then
    is, unless its own read fails: it then takes the state for empty.  So as long as
    every read succeeds, no update is lost, and the transforms are all that
    happens. *)
Theorem no_lost_update `{HL : JsonPrettyLaws} path sys0 sys :
  tx_initial sys0 → tx_reachable path sys0 sys →
  ∃ l, NoDup l ∧ read_state false path (sys_fs sys) = applied (sys_procs sys) l (read_state false path (sys_fs sys0)) ∧
       (Forall (λ p, tx_unreadable (px_env p) = false) (sys_procs sys) →
          read_state false path (sys_fs sys)
          = foldr (λ i s, from_option (λ p, px_transform p s) s (sys_procs sys !! i)) (read_state false path (sys_fs sys0)) l) ∧
       (∀ i p u, sys_procs sys !! i = Some p → px_pc p = TxFinished (Ok u) → i ∈ l) ∧
       (∀ i, i ∈ l → ∃ p r, sys_procs sys !! i = Some p ∧ px_pc p = TxFinished r).
Proof.
  intros Hi Hr. destruct (tx_reachable_inv path sys0 sys Hi Hr) as [l [_ Hst _ _ _ ? ? ?]]. exists l. split_and!; [done..| |done|done].
  intros Hrd. rewrite Hst. unfold applied. clear -Hrd. rewrite Forall_lookup in Hrd. induction l as [|i l IH]; [done|]. cbn [foldr].
  rewrite IH. destruct (sys_procs sys !! i) as [p|] eqn:Hp; [|done]. cbn. unfold tx_effect. by rewrite (Hrd i p Hp).
Qed.

(** A failed read forgets everything: the next transaction replaces whatever is
    stored by its transform of the empty state, and reports success. *)
Theorem failed_read_forgets `{HL : JsonPrettyLaws} path e f fs u fs' :
  fs_wf fs → tx_unreadable e = true → contains_char "/" (tx_stamp e) = false → bh_typed (f default_state) →
  transaction path e f fs = (Ok u, fs') → read_state false path fs' = f default_state.
Proof.
  intros Hw Hu Hs Ht. unfold transaction. destruct (transaction_cases path e f fs Hw) as [(fs0 & m & u' & -> & _)|[Hi ->]]; [done|].
  rewrite Hu in *. change (read_state true path fs) with default_state in *. set (data := _ +:+ newline).
  pose proof (atomic_write_ok (tx_atomic e) (tx_stamp e) path data (open_lock (path +:+ ".lock") fs) Hs (open_lock_wf _ _ Hw)) as [_ _ Hok].
  destruct (outcome _) as [[]|]; [|done]. intros [= _ <-]. destruct (Hok eq_refl) as [Hread _]. by eapply read_document.
Qed.

(** ** A codec, and the claims at work *)

(** The document of the reference codec with a final newline. *)
Definition line_codec : JsonCodec := {|
  json_decode text := @json_decode tree_codec (unwrap_or (strip_suffix newline text) text);
  json_encode := @json_encode tree_codec;
|}.
Definition line_pretty : @JsonPretty line_codec := {| json_document := @json_encode tree_codec |}.

Lemma line_pretty_laws : @JsonPrettyLaws line_codec line_pretty.
Proof.
  split. intros v. cbn [json_decode line_codec json_document line_pretty]. rewrite (proj2 (strip_suffix_Some newline _ _) eq_refl). cbn [unwrap_or].
  apply (@json_roundtrip tree_codec tree_codec_laws).
Qed.

Definition sample_tx : TxEnv := {| tx_mkdir := None; tx_open := None; tx_flock := None; tx_unreadable := false;
  tx_stamp := "1.2"; tx_atomic := no_atomic_faults |}.
Definition sample_fs : Fs := {| inodes := ∅; dir := ∅; durable := ∅; next_inode := 0 |}.
Definition sample_failure (boot : string) : transform := λ s, record_failure s "sha256:a" boot "display" 3 1.

Lemma sample_fs_wf : fs_wf sample_fs.
Proof. intros p i [H|H]; cbn in H; by rewrite lookup_empty in H. Qed.

Lemma sample_failure_typed boot s : bh_typed s → bh_typed (sample_failure boot s).
Proof. intros H. apply record_failure_typed; [done|]. unfold is_i64, i64_min, i64_max. lia. Qed.

Lemma transaction_crash_safe_witness :
  crash_state (H := line_codec) "/s" sample_fs default_state ∨
  default_state = sample_failure "b1" (read_state (H := line_codec) false "/s" sample_fs) ∧ invariants default_state = [].
Proof.
  refine (proj1 (@transaction_crash_safe line_codec line_pretty line_pretty_laws "/s" sample_tx (sample_failure "b1") sample_fs
    (open_lock "/s.lock" sample_fs) default_state sample_fs_wf eq_refl eq_refl (sample_failure_typed _ _ default_typed)) _ _).
  - cbn. left.
  - exists None. split; [by right|done].
Defined.

(** Two processes; the first has finished, the second holds the lock. *)
Definition sample_procs : list TxProcess :=
  [{| px_env := sample_tx; px_transform := sample_failure "b1"; px_pc := TxStart |};
   {| px_env := sample_tx; px_transform := sample_failure "b2"; px_pc := TxStart |}].
Definition sample_system : TxSystem := {| sys_fs := sample_fs; sys_holder := None; sys_procs := sample_procs |}.

Lemma sample_system_initial : tx_initial sample_system.
Proof.
  split_and!; [apply sample_fs_wf|done|]. repeat (apply Forall_cons; split; [by split_and!; [..|apply sample_failure_typed]|]). constructor.
Qed.

Lemma no_lost_update_witness :
  ∃ sys, sys_holder sys = Some 0%nat ∧
    ∃ l, NoDup l ∧ read_state (H := line_codec) false "/s" (sys_fs sys)
           = applied (sys_procs sys) l (read_state (H := line_codec) false "/s" (sys_fs sample_system)).
Proof.
  assert (∃ sys, tx_reachable (HP := line_pretty) "/s" sample_system sys ∧ sys_holder sys = Some 0%nat) as (sys & Hr & Hh).
  { eexists. split; [|shelve].
    eapply (reach_step _ _ 0%nat); [eapply (reach_step _ _ 1%nat); [eapply (reach_step _ _ 0%nat); [constructor|]|]|].
    - by eapply step_open.
    - by eapply step_open.
    - by eapply step_flock.
    Unshelve. done. }
  destruct (@no_lost_update line_codec line_pretty line_pretty_laws "/s" sample_system sys sample_system_initial Hr)
    as (l & H1 & H2 & _). eauto.
Defined.
