(* ===== verification/BootcQuery.v ===== *)
(** Status queries of the shared crate: [system/bootc_query.rs].

    What bootc's status document says about the booted and the staged image,
    which processes hold the system root, and the commands that ask.  Text of a
    child process is what [String::from_utf8_lossy] makes of its bytes. *)

From S2P Require Import Prelude RustStr RustOs Json.

(** [std::process::Output] with both streams as text. *)
Record Output := { out_code : option Z; out_stdout : string; out_stderr : string }.
Definition out_success (o : Output) : bool := bool_decide (out_code o = Some 0).

(** [run_bounded]: argv to an output, or the error of a command that could not
    run or ran out of time. *)
Class Bounded := { run_bounded : list string → result Output }.

Fixpoint nested_get (data : json) (path : list string) : option json :=
  match path with
  | [] => Some data
  | k :: path => match jget k data with Some v => nested_get v path | None => None end
  end.

(** [walk_strings]: the string values, object members in the order of their keys. *)
Definition json_children (v : json) : list json :=
  match v with
  | JObject m => snd <$> btree_entries m
  | JArray l => l
  | _ => []
  end.
Definition walk_strings (v : json) : list string := omap as_str (nodes json_children v).

Definition status_commands (root json_mode : bool) : list (list string) :=
  let guard := ["/usr/bin/kyth-bootc-guard"; if json_mode then "status-json" else "status"] in
  let bootc := if json_mode then ["bootc"; "status"; "--json"] else ["bootc"; "status"] in
  if root then [guard; bootc] else ["sudo" :: "-n" :: guard; bootc].

(** The answer of a check, from both streams. *)
Definition check_detail (o : Output) : string :=
  let stdout := trim (out_stdout o) in
  let stderr := trim (out_stderr o) in
  if is_empty stdout then stderr else if is_empty stderr then stdout else stdout +:+ newline +:+ stderr.
Definition check_answer (o : Output) : result string :=
  let detail := check_detail o in
  if out_success o then Ok detail
  else if is_empty detail
  then Err ("bootc update check failed (exit code " +:+ show_int (unwrap_or (out_code o) (-1)) +:+ ").")
  else Err detail.

Definition update_check `{Bounded} (root : bool) : result string :=
  let guard := ["/usr/bin/kyth-bootc-guard"; "check"] in
  let? output := map_err (λ e, "Could not run the bootc update check: " +:+ e)
    (run_bounded (if root then guard else "sudo" :: "-n" :: guard)) in
  check_answer output.

Definition update_check_state (output : string) : option string :=
  let lower := to_ascii_lowercase output in
  if contains_str "update available for:" lower then Some "available"
  else if contains_str "no changes in:" lower || contains_str "no changes" lower then Some "uptodate"
  else None.

(** [effective_uid] from the text of [/proc/self/status]; [uid.parse::<u32>()]. *)
Definition uid_of_line (line : string) : option Z :=
  value ← strip_prefix "Uid:" line;
  token ← head (split_whitespace value);
  n ← parse_u64 token;
  if n <? 2 ^ 32 then Some n else None.
Definition effective_uid (status : option string) : Z :=
  unwrap_or (text ← status; head (omap uid_of_line (lines text))) 1.

(** The pattern [(?:^|[\s/])bootc\s+(upgrade|switch|rollback|reset)(?:\s|$)]:
    the operation of the leftmost match. *)
Definition lock_operations : list string := ["upgrade"; "switch"; "rollback"; "reset"].
Definition operation_at (s : string) : option string :=
  rest ← strip_prefix "bootc" s;
  after ← strip_any whitespace rest;
  let tail := trim_start after in
  List.find (λ op, match strip_prefix op tail with
                   | Some end_ => is_empty end_ || bool_decide (is_Some (strip_any whitespace end_))
                   | None => false
                   end) lock_operations.
Fixpoint lock_match (fuel : nat) (boundary : bool) (s : string) : option string :=
  match fuel with
  | O => None
  | S fuel =>
      match (if boundary then operation_at s else None) with
      | Some op => Some op
      | None =>
          match strip_any whitespace s with
          | Some r => lock_match fuel true r
          | None => match s with
                    | EmptyString => None
                    | String c r => lock_match fuel (Ascii.eqb c "/") r
                    end
          end
      end
  end.

Definition holds_sysroot_lock (cmdline : string) : bool :=
  let text := trim cmdline in
  if contains_str "ostree admin finalize-staged" text
  then negb (existsb (String.eqb "--hold") (split_whitespace text))
  else match lock_match (S (String.length text)) true text with
       | None => false
       | Some op => negb (String.eqb op "upgrade" && contains_str "--check" text)
       end.

Section queries.
Context `{Bounded} `{JsonCodec}.

Definition active_operation : option string :=
  match run_bounded ["ps"; "-eo"; "pid=,args="] with
  | Ok output => if out_success output then List.find holds_sysroot_lock (trim <$> lines (out_stdout output)) else None
  | Err _ => None
  end.

(** [run_with_timeout] *)
Definition run_status (cmd : list string) : option (Z * string) :=
  match cmd, run_bounded cmd with
  | [], _ | _, Err _ => None
  | _, Ok output => Some (unwrap_or (out_code output) (-1), out_stdout output)
  end.

Definition parse_status_data (raw : string) : option json :=
  match json_decode raw with
  | Ok (JObject m) => Some (JObject m)
  | _ => None
  end.

Definition fetch_status_text (root active : bool) : string :=
  if active then EmptyString
  else unwrap_or (head (omap (λ cmd,
    match run_status cmd with
    | Some (code, stdout) => if (code =? 0) && negb (is_empty (trim stdout)) then Some (trim stdout) else None
    | None => None
    end) (status_commands root false))) EmptyString.

Definition fetch_status_data (root active : bool) : option json :=
  if active then None
  else head (omap (λ cmd,
    match run_status cmd with
    | Some (code, stdout) => if code =? 0 then parse_status_data stdout else None
    | None => None
    end) (status_commands root true)).
End queries.

Definition reference_paths : list (list string) :=
  [["status"; "booted"; "image"; "reference"];
   ["status"; "booted"; "image"; "image"; "reference"];
   ["status"; "booted"; "image"; "image"; "image"];
   ["status"; "booted"; "image"; "image"];
   ["status"; "booted"; "image"];
   ["spec"; "image"; "image"];
   ["spec"; "image"; "reference"]].

(** A text value that is not blank, trimmed. *)
Definition nonblank (v : json) : option string :=
  s ← as_str v; if is_empty (trim s) then None else Some (trim s).
Definition first_some {A B} (f : A → option B) (l : list A) : option B := head (omap f l).

(** One path of the loop of [image_reference_from_status_with_output]. *)
Definition reference_at (data : json) (path : list string) : option string :=
  v ← nested_get data path;
  first_some id [nonblank v; (jget "reference" v ≫= nonblank); (jget "image" v ≫= nonblank)].

(** [image_reference_from_status]: no text output to search. *)
Definition image_reference_from_status (data : json) : option string :=
  match first_some (reference_at data) reference_paths with
  | Some r => Some r
  | None => trim <$> List.find (λ s, contains_str "ghcr.io/kyth-os/kyth" (to_ascii_lowercase s)) (walk_strings data)
  end.

Definition image_digest_from_status (data : json) (section : string) : option string :=
  first_some (λ path,
    v ← nested_get data path; s ← as_str v; if starts_with "sha256:" s then Some s else None)
    [["status"; section; "image"; "imageDigest"]; ["status"; section; "image"; "digest"];
     ["status"; section; "imageDigest"]; ["status"; section; "digest"]].

Definition image_version_from_status (data : json) (section : string) : option string :=
  first_some (λ path, v ← nested_get data path; nonblank v)
    [["status"; section; "image"; "imageVersion"]; ["status"; section; "image"; "version"];
     ["status"; section; "imageVersion"]; ["status"; section; "version"]].
