(* ===== verification/BootHealthCommand.v ===== *)
(** The [kyth-boot-health] command: [boot_health_bin.rs].

    Every command that changes the state or rolls a deployment back, over any
    [StateStore].  What the command observes of the host is its [HealthEnv];
    what it does, apart from the store, is its list of events. *)

From S2P Require Import Prelude RustStr RustOs Json FileSystem AtomicIo BootHealth UpdateCoordinator BootcQuery.

(** What one invocation meets: the status document, the boot identifier, the
    clock and the store at each use, and [bootc rollback]'s exit code and
    redacted text. *)
Record HealthEnv := {
  he_status : option json;
  he_boot_id : option string;
  he_now1 : Z;
  he_now2 : Z;
  he_unreadable : bool;
  he_tx1 : TxEnv;
  he_tx2 : TxEnv;
  he_values : list QuarantineRecord;
  he_rollback : result (Z * string);
  he_checks : list (string * bool * string);
}.

Inductive HealthOut :=
| Printed (line : string)
| Warned (line : string)
| RolledBack (digest : string) (error : option string).

(** [io::Error]s, by the kind [main] looks at. *)
Inductive HealthError :=
| InvalidInput (message : string)
| OtherError (message : string).

(** ** The required checks *)

(** What the checks look at: the os-release text, files and directories, the
    kernel release, the verifier's output and the runtime checks of
    [boot_runtime.rs], which are all given. *)
Record CheckHost := {
  ch_os_release : option string;
  ch_status : option json;
  ch_is_file : string → bool;
  ch_is_dir : string → bool;
  ch_kernel : option string;
  ch_verifier : result Output;
  ch_runtime : list (string * bool * string);
}.

(** [value.trim_matches] of the two quote characters. *)
Definition is_quote (c : ascii) : bool := (byte_of c =? 34) || (byte_of c =? 39).
Fixpoint trim_start_if (f : ascii → bool) (s : string) : string :=
  match s with
  | String c r => if f c then trim_start_if f r else s
  | EmptyString => EmptyString
  end.
Definition trim_matches (f : ascii → bool) (s : string) : string :=
  srev (trim_start_if f (srev (trim_start_if f s))).

Definition required_checks (h : CheckHost) : list (string * bool * string) :=
  let digest := unwrap_or (ch_status h ≫= λ v, image_digest_from_status v "booted") EmptyString in
  let os_id := unwrap_or (head (omap (λ line, trim_matches is_quote <$> strip_prefix "ID=" line)
                                     (lines (unwrap_or (ch_os_release h) EmptyString)))) EmptyString in
  let kernel := unwrap_or (trim <$> ch_kernel h) EmptyString in
  [("KythOS identity", String.eqb os_id "kythos", "ID=" +:+ if is_empty os_id then "missing" else os_id);
   ("bootc deployment", negb (is_empty digest), if is_empty digest then "booted digest unavailable" else digest);
   ("bootc executable", ch_is_file h "/usr/bin/bootc", "/usr/bin/bootc present");
   ("Plasma shell", ch_is_file h "/usr/bin/plasmashell", "/usr/bin/plasmashell present");
   ("NetworkManager unit", ch_is_file h "/usr/lib/systemd/system/NetworkManager.service", "NetworkManager unit present");
   ("kernel modules", ch_is_dir h ("/usr/lib/modules/" +:+ kernel), "module tree for " +:+ kernel);
   match ch_verifier h with
   | Err _ => ("Measured boot", true, "kyth-boot-verify not present — skipped")
   | Ok o => if bool_decide (out_code o = Some 2) then ("Measured boot", false, trim (out_stderr o))
             else ("Measured boot", true, "kyth-boot-verify: " +:+ trim (out_stdout o))
   end] ++ ch_runtime h.

Section command.
Context {S : Type} `{HS : StateStore S}.

Definition Cmd (A : Type) : Type := Log S HealthOut HealthError A.

Definition c_tx (c : ST S BootHealthState) : Cmd BootHealthState := log_tx OtherError c.
(** [coordinator.read()] *)
Definition c_read (env : HealthEnv) : Cmd BootHealthState := log_read (he_unreadable env).

Definition current_digest (env : HealthEnv) : Cmd string :=
  match he_status env ≫= λ status, image_digest_from_status status "booted" with
  | Some d => log_ret d
  | None => log_fail (OtherError "could not determine booted image digest")
  end.

Definition current_boot_id (env : HealthEnv) : string :=
  match he_boot_id env with Some text => trim text | None => "unknown" end.

Definition summary (s : BootHealthState) : string :=
  let known d := if is_empty d then "unknown" else d in
  let detail := "status=" +:+ bh_status s +:+ " current=" +:+ known (bh_current_digest s) +:+ " last-healthy="
    +:+ known (bh_last_healthy_digest s) +:+ " failures=" +:+ show_int (bh_failures s) +:+ " quarantined="
    +:+ show_int (Z.of_nat (size (bh_quarantined s))) in
  if is_empty (bh_last_rollback_error s) then detail
  else detail +:+ " rollback_error=" +:+ show_debug (bh_last_rollback_error s).

(** [(code != 0).then(..)]: the error of a rollback that ran. *)
Definition rollback_error (code : Z) (detail : string) : option string :=
  if code =? 0 then None else Some (if is_empty detail then "exit " +:+ show_int code else detail).

Definition rolled_back_line (digest : string) : string :=
  "Rolled back from quarantined digest " +:+ digest +:+ " — takes effect next boot".

Definition maybe_rollback (env : HealthEnv) (before updated : BootHealthState) (digest : string) : Cmd unit :=
  if negb (rollback_retry_due before updated digest) then log_ret tt
  else
    match he_rollback env with
    | Err detail =>
        run! _ <- log_out (RolledBack digest (Some detail));
        run! _ <- c_tx (coord_note_rollback (he_tx2 env) digest (Some detail) (he_now2 env));
        log_out (Warned ("bootc rollback errored for quarantined digest " +:+ digest +:+ ": " +:+ detail))
    | Ok (code, detail) =>
        let error := rollback_error code detail in
        run! _ <- log_out (RolledBack digest error);
        run! _ <- log_out (match error with
                         | Some e => Warned ("bootc rollback failed for quarantined digest " +:+ digest +:+ ": " +:+ e)
                         | None => Printed (rolled_back_line digest)
                         end);
        run! _ <- c_tx (coord_note_rollback (he_tx2 env) digest error (he_now2 env));
        log_ret tt
    end.

(** [args.windows(2).find(|pair| pair[0] == flag).map(|pair| pair[1])] *)
Fixpoint flag_value (flag : string) (args : list string) : option string :=
  match args with
  | a :: ((b :: _) as rest) => if String.eqb a flag then Some b else flag_value flag rest
  | _ => None
  end.

(** [parse_args] *)
Fixpoint parse_args (state : string) (command : option string) (rest : list string) (args : list string)
    : result (string * string * list string) :=
  match args with
  | [] => let? c := ok_or command "a command is required" in Ok (state, c, rest)
  | a :: args =>
      if String.eqb a "--state" then
        match args with
        | [] => Err "--state requires a path"
        | p :: args => parse_args p command rest args
        end
      else match command with
           | None => parse_args state (Some a) rest args
           | Some _ => parse_args state command (rest ++ [a]) args
           end
  end.

Definition require_flag (flag : string) (args : list string) : Cmd string :=
  match flag_value flag args with
  | Some v => log_ret v
  | None => log_fail (InvalidInput (flag +:+ " is required"))
  end.

Definition cmd_mark_healthy (env : HealthEnv) : Cmd bool :=
  run! digest <- current_digest env;
  run! _ <- c_tx (coord_mark_healthy (he_tx1 env) digest (he_now1 env));
  run! _ <- log_out (Printed ("Marked " +:+ digest +:+ " healthy"));
  log_ret true.

Definition cmd_threshold (args : list string) : Z :=
  Z.max 1 (unwrap_or (flag_value "--threshold" args ≫= parse_i64) DEFAULT_FAILURE_THRESHOLD).

Definition cmd_record_failure (env : HealthEnv) (args : list string) : Cmd bool :=
  run! reason <- require_flag "--reason" args;
  run! digest <- current_digest env;
  run! before <- c_read env;
  run! updated <- c_tx (coord_record_failure (he_tx1 env) digest (current_boot_id env) reason (cmd_threshold args) (he_now1 env));
  run! _ <- log_out (Printed (summary updated));
  run! _ <- maybe_rollback env before updated digest;
  log_ret true.

Definition cmd_clear_quarantine (env : HealthEnv) (args : list string) : Cmd bool :=
  run! digest <- require_flag "--digest" args;
  run! state <- c_read env;
  run! _ <- c_tx (coord_clear_quarantine (he_tx1 env) digest (he_now1 env));
  run! _ <- log_out (Printed (if bool_decide (is_Some (bh_quarantined state !! digest))
                            then "Cleared quarantine for " +:+ digest else "Digest " +:+ digest +:+ " was not quarantined"));
  log_ret true.

Definition cmd_retry_rollback (env : HealthEnv) (args : list string) : Cmd bool :=
  run! digest <- require_flag "--digest" args;
  run! state <- c_read env;
  if negb (bool_decide (is_Some (bh_quarantined state !! digest)))
  then log_fail (InvalidInput ("Digest " +:+ digest +:+ " is not quarantined — nothing to retry"))
  else
    run! _ <- c_tx (store_transaction (he_tx1 env) (λ s, forget_rollback s digest));
    match he_rollback env with
    | Err m => run! _ <- log_out (RolledBack digest (Some m)); log_fail (OtherError m)
    | Ok (code, detail) =>
        let error := rollback_error code detail in
        run! _ <- log_out (RolledBack digest error);
        run! _ <- c_tx (coord_note_rollback (he_tx2 env) digest error (he_now2 env));
        match error with
        | Some e => run! _ <- log_out (Warned ("bootc rollback still failed for " +:+ digest +:+ ": " +:+ e)); log_ret false
        | None => run! _ <- log_out (Printed (rolled_back_line digest)); log_ret true
        end
    end.

Definition usage : string :=
  "usage: kyth-boot-health [--state PATH] <check|status [--json]|mark-healthy|record-failure --reason TEXT [--threshold N]|clear-quarantine --digest DIGEST|retry-rollback --digest DIGEST|boot-message>".

(** [execute] after the arguments are parsed; [status --json] prints [document],
    the serialized state. *)
Definition execute (document : BootHealthState → string) (env : HealthEnv) (command : string) (args : list string) : Cmd bool :=
  if String.eqb command "check" then
    run! _ <- log_outs ((λ '(name, passed, detail), Printed ((if passed : bool then "PASS" else "FAIL") +:+ " " +:+ name +:+ ": "
                        +:+ detail)) <$> he_checks env);
    log_ret (forallb (λ '(_, passed, _), passed) (he_checks env))
  else if String.eqb command "status" then
    run! state <- c_read env;
    run! _ <- log_out (Printed (if existsb (String.eqb "--json") args then document state else summary state));
    log_ret true
  else if String.eqb command "mark-healthy" then cmd_mark_healthy env
  else if String.eqb command "boot-message" then
    run! state <- c_read env;
    run! _ <- match quarantine_boot_message (he_values env) state with
              | Some message => log_out (Printed message)
              | None => log_ret tt
              end;
    log_ret true
  else if String.eqb command "record-failure" then cmd_record_failure env args
  else if String.eqb command "clear-quarantine" then cmd_clear_quarantine env args
  else if String.eqb command "retry-rollback" then cmd_retry_rollback env args
  else
    run! _ <- log_out (Warned usage);
    log_ret false.

(** [main]: the exit code. *)
Definition exit_code (r : bool + HealthError) : Z :=
  match r with
  | inl true => 0
  | inl false | inr (OtherError _) => 1
  | inr (InvalidInput _) => 2
  end.

End command.

(** * What the commands keep *)

(** The environments considered: the state is readable, times are [i64], and
    the stamps of temporary files are file names. *)
Definition env_sound (env : HealthEnv) : Prop :=
  he_unreadable env = false ∧ is_i64 (he_now1 env) ∧ is_i64 (he_now2 env) ∧
  tx_unreadable (he_tx1 env) = false ∧ contains_char "/" (tx_stamp (he_tx1 env)) = false ∧
  tx_unreadable (he_tx2 env) = false ∧ contains_char "/" (tx_stamp (he_tx2 env)) = false.

Section triples.
Context {S : Type} `{HL : StateStoreLaws S}.


End triples.

(** ** A settled digest is not rolled back again *)








Section settled.
Context {S : Type} `{HL : StateStoreLaws S}.
Variable d : string.
Variable env : HealthEnv.
Hypothesis Henv : env_sound env.








End settled.

(** A sequence of invocations: the store and the events. *)
Record Invocation := { inv_env : HealthEnv; inv_command : string; inv_args : list string }.
Fixpoint invocations {S} `{StateStore S} (document : BootHealthState → string) (l : list Invocation) (s : S) : S * list HealthOut :=
  match l with
  | [] => (s, [])
  | i :: l =>
      let '(_, s1, o1) := execute document (inv_env i) (inv_command i) (inv_args i) s in
      let '(s2, o2) := invocations document l s1 in (s2, o1 ++ o2)
  end.


(** ** A rollback that succeeded settles its digest *)

Section settles.
Context {S : Type} `{HL : StateStoreLaws S}.




End settles.

(** * Claims *)


Lemma newly_quarantined_due before u d :
  bh_quarantined before !! d = None → is_Some (bh_quarantined u !! d) →
  (bh_rollback_attempted_for u = d → bh_last_rollback_error u ≠ EmptyString) → rollback_retry_due before u d = true.
Proof.
  intros Hb Hu Hs. unfold rollback_retry_due. rewrite (bool_decide_true (is_Some (bh_quarantined u !! d))) by done.
  rewrite (bool_decide_false (is_Some (bh_quarantined before !! d))) by (rewrite Hb; apply is_Some_None). cbn [negb].
  destruct (String.eqb_spec (bh_rollback_attempted_for u) d) as [E|]; [|done]. cbn.
  destruct (is_empty (bh_last_rollback_error u)) eqn:He; [|done]. apply is_empty_true in He. by destruct (Hs E).
Qed.

Lemma maybe_rollback_runs {S} `{StateStore S} env before u d (s : S) :
  rollback_retry_due before u d = true → ∃ e, RolledBack d e ∈ snd (maybe_rollback env before u d s).
Proof.
  intros Hd. unfold maybe_rollback. rewrite Hd. cbn [negb]. unfold log_bind, log_out, log_outs.
  destruct (he_rollback env) as [[code detail]|m];
    [exists (rollback_error code detail)|exists (Some m)]; repeat case_match; simplify_eq; cbn; by left.
Qed.

(** Liveness.  The invocation whose stored report first puts a digest in
    quarantine attempts the rollback of that digest, whatever happens to the
    command afterwards, unless the rollback slot already records a success for
    it. *)
Theorem quarantine_rolls_back {S} `{HL : StateStoreLaws S} document env args (s : S) d reason u s1 :
  env_sound env → store_ok s → flag_value "--reason" args = Some reason →
  (he_status env ≫= λ v, image_digest_from_status v "booted") = Some d →
  coord_record_failure (he_tx1 env) d (current_boot_id env) reason (cmd_threshold args) (he_now1 env) s = (Ok u, s1) →
  bh_quarantined (store_read s) !! d = None → is_Some (bh_quarantined u !! d) →
  (bh_rollback_attempted_for u = d → bh_last_rollback_error u ≠ EmptyString) →
  ∃ e, RolledBack d e ∈ snd (execute document env "record-failure" args s).
Proof.
  intros (Hr & _) Hs Hf Hd Htx Hb Hu Hslot. change (execute document env "record-failure" args) with (cmd_record_failure (S := S) env args).
  pose proof (newly_quarantined_due _ _ _ Hb Hu Hslot) as Hdue.
  destruct (maybe_rollback_runs env (store_read s) u d s1 Hdue) as [e He]. exists e.
  unfold cmd_record_failure, require_flag, current_digest, log_bind, log_ret, c_read, log_read, c_tx, log_tx, log_out, log_outs. rewrite Hf, Hd, Hr, Htx.
  destruct (maybe_rollback env (store_read s) u d s1) as [[[[]|] s2] l2]; cbn in *; rewrite ?app_nil_r; by right.
Qed.

(** Error.  A threshold below the default is refused where it would
    matter: the failing boot that reaches it is not recorded at all - the command
    fails, the stored state stays as it was and no rollback is attempted - so the
    digest never becomes quarantined that way. *)
Theorem low_threshold_never_quarantines {S} `{HL : StateStoreLaws S} document env args (s : S) d reason :
  env_sound env → store_ok s → flag_value "--reason" args = Some reason →
  (he_status env ≫= λ v, image_digest_from_status v "booted") = Some d →
  let n := unwrap_or (bh_failures_by_digest (store_read s) !! d) 0 in
  cmd_threshold args <= n + 1 → 0 <= n → n + 1 < DEFAULT_FAILURE_THRESHOLD →
  negb (String.eqb (bh_current_digest (store_read s)) d
        && String.eqb (bh_last_failure_boot_id (store_read s)) (current_boot_id env)) = true →
  let '(r, s', out) := execute document env "record-failure" args s in
  (∃ m, r = inr (OtherError m)) ∧ store_read s' = store_read s ∧ out = [].
Proof.
  intros (Hr & Hn & _ & Hu & Hst & _) Hs Hf Hd n Ht Hn0 Hlt Hc. change (execute document env "record-failure" args) with (cmd_record_failure (S := S) env args).
  unfold cmd_record_failure, require_flag, current_digest, log_bind, log_ret, c_read, log_read, c_tx, log_tx, log_out, log_outs. rewrite Hf, Hd.
  unfold coord_record_failure. set (f := λ s, record_failure s d _ _ _ _).
  assert (invariants (f (store_read s)) ≠ []) as Hbad.
  { rewrite invariants_nil. intros [_ _ HQ _]. unfold f in HQ. cbn [bh_quarantined record_failure] in HQ. rewrite Hc in HQ.
    fold n in HQ. rewrite wrap_i64_small in HQ by (unfold is_i64, i64_min, i64_max, DEFAULT_FAILURE_THRESHOLD in *; lia).
    destruct (Z.leb_spec (cmd_threshold args) (n + 1)); [|lia]. edestruct HQ as [HQ1 _]; [apply lookup_insert_eq|]. cbn in HQ1. lia. }
  assert (bh_typed (f (store_read s))) as Hty by (apply record_failure_typed; [by apply store_typed|done]).
  destruct (store_transaction (he_tx1 env) f s) as [[u|m] s1] eqn:E.
  - destruct (store_committed _ _ _ _ _ Hs Hu Hst Hty E) as (-> & Hi & _). by destruct Hbad.
  - split_and!; [by eexists| |done]. destruct (store_failed _ _ _ _ _ Hs Hu Hst Hty E) as [Hx|[_ Hi]]; [done|by destruct Hbad].
Qed.

(** ** The claims at work *)

Definition sample_status : json :=
  jobject [("status", jobject [("booted", jobject [("image", jobject [("imageDigest", JString "sha256:a")])])])].
Definition sample_env (boot : string) (rollback : result (Z * string)) : HealthEnv := {|
  he_status := Some sample_status; he_boot_id := Some boot; he_now1 := 10; he_now2 := 11; he_unreadable := false;
  he_tx1 := sample_tx; he_tx2 := sample_tx; he_values := []; he_rollback := rollback; he_checks := [] |}.
Definition failed_boot (boot : string) (rollback : result (Z * string)) : Invocation :=
  {| inv_env := sample_env boot rollback; inv_command := "record-failure"; inv_args := ["--reason"; "display"] |}.
(** Two failing boots. *)
Definition sample_before : BootHealthState :=
  fst (invocations (λ _, EmptyString) [failed_boot "b1" (Err "x"); failed_boot "b2" (Err "x")] default_state).

Lemma sample_env_sound boot rollback : env_sound (sample_env boot rollback).
Proof. unfold env_sound. cbn. unfold is_i64, i64_min, i64_max. split_and!; done || lia. Qed.

Lemma sample_before_typed : bh_typed sample_before.
Proof.
  assert (sample_before = record_failure (record_failure default_state "sha256:a" "b1" "display" 3 10) "sha256:a" "b2" "display" 3 10)
    as -> by (by vm_compute).
  assert (is_i64 10) by (unfold is_i64, i64_min, i64_max; lia). apply record_failure_typed; [apply record_failure_typed; [apply default_typed|done]|done].
Qed.


Lemma quarantine_rolls_back_witness :
  ∃ e, RolledBack "sha256:a" e ∈ snd (execute (λ _, EmptyString) (sample_env "b3" (Err "busy")) "record-failure"
                                        ["--reason"; "display"] sample_before).
Proof.
  eapply (quarantine_rolls_back (λ _, EmptyString) (sample_env "b3" (Err "busy")) ["--reason"; "display"] sample_before "sha256:a");
    [apply sample_env_sound|apply sample_before_typed|done|by vm_compute| | | |].
  - vm_compute. reflexivity.
  - by vm_compute.
  - vm_compute. by eexists.
  - by vm_compute.
Defined.

Lemma low_threshold_never_quarantines_witness :
  let '(r, s', out) := execute (λ _, EmptyString) (sample_env "b1" (Err "busy")) "record-failure"
                         ["--reason"; "display"; "--threshold"; "1"] default_state in
  (∃ m, r = inr (OtherError m)) ∧ store_read s' = default_state ∧ out = [].
Proof.
  refine (low_threshold_never_quarantines (λ _, EmptyString) (sample_env "b1" (Err "busy"))
    ["--reason"; "display"; "--threshold"; "1"] default_state "sha256:a" "display" (sample_env_sound _ _) default_typed
    eq_refl _ _ _ _ _); by vm_compute.
Defined.
