(* ===== verification/SafeUpgrade.v ===== *)
(** The guarded update: [system/safe_upgrade_policy.rs], [system/boot_finalize.rs],
    the lock of [system/bootc_guard.rs] and [safe_upgrade_bin.rs].

    The policy functions as they are; the supervision of the [bootc upgrade]
    child as a loop over what each poll sees; the whole [upgrade] as a program
    over a [StateStore] with its events. *)

From S2P Require Import Prelude RustStr RustOs Json FileSystem BootHealth UpdateCoordinator BootcQuery.

(** * Policy *)

Definition DEFAULT_ROLLOUT_RING : string := "follow-image".

(** [on_ac_power_at]: the entries of the class directory with the texts of their
    [type] and [online] files; [None] when the directory cannot be read. *)
Record PowerSupply := { ps_name : string; ps_type : option string; ps_online : option string }.
Definition is_battery (s : PowerSupply) : bool :=
  starts_with "BAT" (ps_name s)
  || match ps_type s with Some kind => eq_ignore_ascii_case (trim kind) "battery" | None => false end.
Definition on_ac_power_at (supplies : option (list PowerSupply)) : bool :=
  match supplies with
  | None | Some [] => true
  | Some entries =>
      if negb (existsb is_battery entries) then true
      else existsb (λ s, match ps_online s with Some state => String.eqb (trim state) "1" | None => false end) entries
  end.

Definition battery_message : string :=
  "Update blocked: running on battery power. Connect AC power or retry with KYTH_ALLOW_BATTERY_UPGRADE=1 to stage anyway.".
Definition battery_gate_reason (allow : option string) (supplies : option (list PowerSupply)) : option string :=
  if bool_decide (allow = Some "1") then None
  else if on_ac_power_at supplies then None
  else Some battery_message.

Definition keep_ring (last_known : string) : string :=
  if is_empty last_known then DEFAULT_ROLLOUT_RING else last_known.

Definition validate_rollout_ring (configured : option string) (last_known : string) : result string :=
  match configured with
  | Some value =>
      let value := trim value in
      if is_empty value then Ok (keep_ring last_known)
      else if existsb (String.eqb value) VALID_ROLLOUT_RINGS then Ok value
      else Err ("invalid rollout ring '" +:+ value +:+ "' (keeping last known ring '" +:+ keep_ring last_known +:+ "')")
  | None => Ok (keep_ring last_known)
  end.

(** The TOML documents of the [toml] crate: reading text and printing a value
    are the crate's. *)
Inductive toml :=
| TString (s : string)
| TBool (b : bool)
| TTable (m : gmap string toml)
| TOther (text : string).
Class Toml := {
  toml_parse : string → option toml;
  toml_show : toml → string;
}.
Definition toml_get (key : string) (v : toml) : option toml :=
  match v with TTable m => m !! key | _ => None end.
Definition toml_table (v : toml) : option toml :=
  match v with TTable m => Some (TTable m) | _ => None end.

Section configuration.
Context `{Toml}.

(** The [auto_update] table of the text. *)
Definition auto_update_table (raw : string) : option toml :=
  value ← toml_parse raw; section ← toml_get "auto_update" value; toml_table section.

Definition rollout_ring_from_toml (raw last_known : string) : result string :=
  match auto_update_table raw with
  | None => Ok (keep_ring last_known)
  | Some section =>
      match toml_get "rollout_ring" section with
      | None => Ok (keep_ring last_known)
      | Some (TString value) => validate_rollout_ring (Some value) last_known
      | Some other => validate_rollout_ring (Some (toml_show other)) last_known
      end
  end.

Definition load_rollout_ring (file : option string) (last_known : string) : result string :=
  match file with
  | Some raw => rollout_ring_from_toml raw last_known
  | None => Ok (keep_ring last_known)
  end.

(** [value] is the text of the environment variable. *)
Definition allow_downgrade_from_toml (value : option string) (raw : string) : bool :=
  match auto_update_table raw ≫= toml_get "allow_downgrade" with
  | Some (TBool true) => true
  | _ => existsb (String.eqb (to_ascii_lowercase (trim (unwrap_or value EmptyString)))) ["1"; "true"; "yes"]
  end.
End configuration.

Definition validate_staged_digest (remote staged reason : option string) : result string :=
  match staged with
  | Some s =>
      if is_empty s then Err "bootc did not stage an image"
      else match remote with
           | Some r => if String.eqb s r then Ok s else Err "bootc did not stage the requested image"
           | None => match reason with Some m => Err ("Update blocked: " +:+ m) | None => Ok s end
           end
  | None => Err "bootc did not stage an image"
  end.

Definition validate_post_upgrade_state (booted_before booted_after staged_after reason : option string)
    : result (option string) :=
  match staged_after with
  | Some s =>
      if negb (is_empty s) then rmap Some (validate_staged_digest None (Some s) reason)
      else if bool_decide (is_Some booted_before) && bool_decide (booted_after = booted_before) then Ok None
      else Err "bootc did not stage an image"
  | None =>
      if bool_decide (is_Some booted_before) && bool_decide (booted_after = booted_before) then Ok None
      else Err "bootc did not stage an image"
  end.

(** [str::cmp]: byte by byte. *)
Fixpoint str_cmp (a b : string) : comparison :=
  match a, b with
  | EmptyString, EmptyString => Eq
  | EmptyString, _ => Lt
  | _, EmptyString => Gt
  | String c a, String d b => match byte_of c ?= byte_of d with Eq => str_cmp a b | o => o end
  end.

(** [version.split(['.', '-', '_', '+']).filter(..)] *)
Definition is_separator (c : ascii) : bool := byte_among ".-_+" c.
Fixpoint split_where (f : ascii → bool) (s : string) : list string :=
  match s with
  | EmptyString => [EmptyString]
  | String c s =>
      if f c then EmptyString :: split_where f s
      else match split_where f s with
           | w :: ws => String c w :: ws
           | [] => [String c EmptyString]
           end
  end.
Definition segments (version : string) : list string :=
  filterb (λ s, negb (is_empty s)) (split_where is_separator version).

Definition segment_cmp (a b : string) : comparison :=
  match parse_u64 a, parse_u64 b with
  | Some x, Some y => x ?= y
  | _, _ => str_cmp a b
  end.
Fixpoint segments_cmp (a b : list string) : comparison :=
  match a, b with
  | x :: a', y :: b' => match segment_cmp x y with Eq => segments_cmp a' b' | o => o end
  | _, _ => Nat.compare (length a) (length b)
  end.
Definition compare_image_versions (booted staged : string) : option comparison :=
  if is_empty (trim booted) || is_empty (trim staged) then None
  else Some (segments_cmp (segments booted) (segments staged)).

Definition validate_not_downgrade (booted_version booted_digest staged_version staged_digest : option string)
    (allow_downgrade : bool) : result unit :=
  let same := match booted_digest, staged_digest with
              | Some b, Some s => negb (is_empty b) && String.eqb b s
              | _, _ => false
              end in
  if same then Ok tt
  else match booted_version, staged_version with
       | Some booted, Some staged =>
           match compare_image_versions booted staged with
           | Some Gt =>
               if allow_downgrade then Ok tt
               else Err ("refusing staged downgrade from version '" +:+ booted +:+ "' to '" +:+ staged +:+
                         "'; set auto_update.allow_downgrade = true to permit it")
           | _ => Ok tt
           end
       | _, _ => Ok tt
       end.

(** * The child

    One iteration of the polling loop sees whether the child has exited, whether
    the update has been cancelled, and how many milliseconds have passed. *)

Definition REQUIRED_FREE_BYTES : Z := 2 * 1024 * 1024 * 1024.
Definition BOOT_FREE_MIN_BYTES : Z := 500 * 1024 * 1024.
Definition VAR_CACHE_FREE_MIN_BYTES : Z := 500 * 1024 * 1024.
Definition TERM_GRACE : Z := 10 * 1000.
Definition BOOTC_TIMEOUT : Z := 3600 * 1000.
Definition POLL : Z := 25.

Record Tick := { tk_wait : result (option Output); tk_cancelled : bool; tk_ms : Z }.

Inductive UpgradeOut :=
| Stage (pct : Z) (phase detail : string)
| BootcUpgrade (live_progress : bool)
| Terminate
| Kill
| ScrubScratch
| Finalized
| Warning (line : string).

Definition terminated_message : string := "bootc upgrade was terminated and did not complete; nothing was staged".

(** [run_bootc_child_with] after the spawn: [None] when it is still polling. *)
Fixpoint bootc_loop (fuel : nat) (ticks : nat → Tick) (n : nat) (term_at : option Z) (out : list UpgradeOut)
    : option (result Output * list UpgradeOut) :=
  match fuel with
  | O => None
  | S fuel =>
      let t := ticks n in
      match tk_wait t with
      | Err e => Some (Err ("bootc upgrade could not be reaped: " +:+ e), out)
      | Ok (Some output) =>
          if tk_cancelled t then Some (Err terminated_message, out ++ [ScrubScratch]) else Some (Ok output, out)
      | Ok None =>
          let '(term_at, out) :=
            if tk_cancelled t && negb (bool_decide (is_Some term_at)) then (Some (tk_ms t), out ++ [Terminate])
            else (term_at, out) in
          match term_at with
          | Some since =>
              if TERM_GRACE <? tk_ms t - since then Some (Err terminated_message, out ++ [Kill; ScrubScratch])
              else bootc_loop fuel ticks (S n) term_at out
          | None =>
              if BOOTC_TIMEOUT <? tk_ms t then Some (Err "bootc upgrade timed out; retry later", out ++ [Kill; ScrubScratch])
              else bootc_loop fuel ticks (S n) None out
          end
      end
  end.

(** A child: whether it could be started, and its polls. *)
Record Child := { ch_spawn : option string; ch_ticks : nat → Tick }.

Definition run_bootc_child_with (fuel : nat) (live_progress : bool) (c : Child) : option (result Output * list UpgradeOut) :=
  match ch_spawn c with
  | Some error => Some (Err ("bootc upgrade could not start: " +:+ error), [])
  | None => bootc_loop fuel (ch_ticks c) 0 None [BootcUpgrade live_progress]
  end.

(** The second child runs when the first bootc does not know the option. *)
Definition run_bootc_child (fuel : nat) (first second : Child) : option (result Output * list UpgradeOut) :=
  match run_bootc_child_with fuel true first with
  | Some (Ok output, l) =>
      if negb (out_success output) && contains_str "unexpected argument '--progress-fd'" (out_stderr output) then
        match run_bootc_child_with fuel false second with
        | Some (r, l') => Some (r, l ++ l')
        | None => None
        end
      else Some (Ok output, l)
  | other => other
  end.

(** * Finalizing *)

Section finalize.
Context `{Bounded}.

Definition run_named (program : string) (args : list string) : result Output :=
  map_err (λ e, program +:+ " could not run: " +:+ e) (run_bounded (program :: args)).
Definition successful (program : string) (args : list string) : bool :=
  match run_named program args with Ok o => out_success o | Err _ => false end.

Definition bind_result (r : result Output) : result unit :=
  match r with
  | Ok o => if out_success o then Ok tt else Err ("could not bind /boot to /sysroot/boot: " +:+ trim (out_stderr o))
  | Err e => Err ("could not bind /boot to /sysroot/boot: " +:+ e)
  end.

Definition prepare_boot (sysroot_boot_is_dir : bool) : result unit :=
  let remounted := successful "mount" ["-o"; "remount,bind,rw"; "/boot"] || successful "mount" ["-o"; "remount,rw"; "/boot"] in
  guard! negb remounted else "could not remount /boot read-write";
  if sysroot_boot_is_dir && negb (successful "findmnt" ["-n"; "/sysroot/boot"])
  then bind_result (run_named "mount" ["--bind"; "/boot"; "/sysroot/boot"])
  else Ok tt.

(** [finalize_staged(false)] *)
Definition finalize_staged (sysroot_boot_is_dir : bool) : result string * list UpgradeOut :=
  let warned := match prepare_boot sysroot_boot_is_dir with
                | Err e => [Warning ("kyth-finalize-staged: " +:+ e +:+ "; trying finalize anyway")]
                | Ok _ => []
                end in
  match run_named "/usr/bin/ostree" ["admin"; "finalize-staged"] with
  | Err e => (Err e, warned)
  | Ok output =>
      if negb (out_success output) then (Err (trim (out_stderr output)), warned ++ [Finalized])
      else
        (Ok (trim (out_stdout output)),
         warned ++ [Finalized] ++
         if successful "mount" ["-o"; "remount,ro"; "/boot"] then []
         else [Warning "kyth-finalize-staged: could not remount /boot read-only"])
  end.
End finalize.

(** * The update *)

(** What the program meets. *)
Record UpgradeEnv := {
  ue_root : bool;
  ue_status : option json;
  ue_unreadable1 : bool;
  ue_config : option string;
  ue_battery_override : option string;
  ue_supplies : option (list PowerSupply);
  ue_active : bool;
  ue_free : string → option Z;
  ue_lock_open : option string;
  ue_lock_busy : bool;
  ue_first : Child;
  ue_second : Child;
  ue_cancelled : bool;
  ue_after : option json;
  ue_unreadable2 : bool;
  ue_config2 : option string;
  ue_downgrade_override : option string;
  ue_tx : TxEnv;
  ue_now : Z;
  ue_sysroot_boot : bool;
}.

Inductive UpgradeError :=
| Refused (message : string)
| StillRunning.

Definition check_free (free : string → option Z) (path : string) (min : Z) : result unit :=
  match free path with
  | Some n =>
      if n <? min
      then Err ("Not enough free disk space on " +:+ path +:+ ": " +:+ show_int (n / (1024 * 1024)) +:+ " MiB free, need "
                +:+ show_int (min / (1024 * 1024)) +:+ " MiB")
      else Ok tt
  | None => Ok tt
  end.

Section upgrade.
Context {S : Type} `{HS : StateStore S} `{HT : Toml} `{HB : Bounded}.
(** [output_text]: the trimmed, redacted and shortened text of an output. *)
Variable output_text : Output → string.
(** How many polls of a child are considered. *)
Variable fuel : nat.
Variable env : UpgradeEnv.

Definition Upg (A : Type) : Type := Log S UpgradeOut UpgradeError A.
Definition up_lift {A} (r : result A) : Upg A := match r with Ok a => log_ret a | Err e => log_fail (Refused e) end.
Definition up_read (unreadable : bool) : Upg BootHealthState := log_read unreadable.
Definition up_gate (reason : option string) : Upg unit :=
  match reason with Some m => log_fail (Refused m) | None => log_ret tt end.

(** [with_bootc_lock] around the child. *)
Definition run_locked : Upg string :=
  match ue_lock_open env with
  | Some e => log_fail (Refused ("Could not open the bootc upgrade lock: " +:+ e))
  | None =>
      if ue_lock_busy env
      then log_fail (Refused "Another bootc upgrade is in progress; will retry on the next run")
      else
        run! _ <- log_out (Stage 1 "download" "Starting image download");
        match run_bootc_child fuel (ue_first env) (ue_second env) with
        | None => log_fail StillRunning
        | Some (r, l) =>
            run! _ <- log_outs l;
            match r with
            | Ok output =>
                if out_success output then log_ret (output_text output)
                else run! _ <- log_out ScrubScratch; log_fail (Refused (output_text output))
            | Err error => run! _ <- log_out ScrubScratch; log_fail (Refused error)
            end
        end
  end.

Definition run_upgrade : Upg string :=
  run! _ <- up_lift (check_free (ue_free env) "/sysroot" REQUIRED_FREE_BYTES);
  run! _ <- up_lift (check_free (ue_free env) "/boot" BOOT_FREE_MIN_BYTES);
  run! _ <- up_lift (check_free (ue_free env) "/var/tmp" REQUIRED_FREE_BYTES);
  run_locked.

(** [run_upgrade().map_err(..)]: the scratch is scrubbed on an error. *)
Definition scrub_on_error {A} (c : Upg A) : Upg A := λ s,
  match c s with
  | (inr e, s1, l) => (inr e, s1, l ++ [ScrubScratch])
  | other => other
  end.

(** The gates before anything is fetched: the booted reference and the ring. *)
Definition admission : Upg (json * string * string) :=
  run! _ <- up_gate (if ue_root env then None else Some "kyth-safe-upgrade must run as root");
  run! status <- up_lift (ok_or (ue_status env) "Could not determine the booted image status");
  run! reference <- up_lift (ok_or (image_reference_from_status status) "Could not determine the booted image reference");
  run! state <- up_read (ue_unreadable1 env);
  run! ring <- up_lift (load_rollout_ring (ue_config env) (bh_rollout_ring state));
  run! _ <- up_gate ((λ reason, "Update blocked by rollout policy: " +:+ reason) <$> rollout_policy_reason reference ring);
  run! _ <- up_gate (battery_gate_reason (ue_battery_override env) (ue_supplies env));
  run! _ <- up_gate ((λ reason, "Update blocked: " +:+ reason) <$>
                     (image_digest_from_status status "staged" ≫= quarantine_reason state));
  run! _ <- up_gate (if ue_active env then Some "Another bootc upgrade is in progress; retry later" else None);
  log_ret (status, reference, ring).

(** The gates on what bootc has staged: the digest to record, if any. *)
Definition staged_verdict (status : json) : Upg (option string) :=
  let staged_after := ue_after env ≫= λ data, image_digest_from_status data "staged" in
  let booted := image_digest_from_status status "booted" in
  run! state <- up_read (ue_unreadable2 env);
  run! verdict <- up_lift (validate_post_upgrade_state booted
    (ue_after env ≫= λ data, image_digest_from_status data "booted") staged_after (staged_after ≫= quarantine_reason state));
  match verdict with
  | None => log_ret None
  | Some digest =>
      run! _ <- log_out (Stage 99 "verify" "Verifying the staged image and checking its safety policy");
      run! _ <- up_lift (validate_not_downgrade (image_version_from_status status "booted") booted
        (ue_after env ≫= λ data, image_version_from_status data "staged") staged_after
        (allow_downgrade_from_toml (ue_downgrade_override env) (unwrap_or (ue_config2 env) EmptyString)));
      log_ret (Some digest)
  end.

(** The staged digest is recorded, then finalized. *)
Definition commit_staged (reference ring detail digest : string) : Upg string :=
  run! _ <- log_tx (λ e, Refused ("Could not persist staged update state: " +:+ e))
    (coord_record_staged (ue_tx env) digest (unwrap_or (image_ring reference) ring) (ue_now env));
  run! _ <- up_lift (check_free (ue_free env) "/var/cache" VAR_CACHE_FREE_MIN_BYTES);
  run! _ <- log_out (Stage 99 "finalize" "Preparing the staged deployment for the next boot");
  let '(r, l) := finalize_staged (ue_sysroot_boot env) in
  run! _ <- log_outs l;
  run! finalized <- up_lift r;
  log_ret (if is_empty finalized
           then if is_empty detail then "Update staged and promoted to the next boot." else detail
           else finalized).

Definition upgrade : Upg string :=
  run! admitted <- admission;
  let '(status, reference, ring) := admitted in
  run! detail <- scrub_on_error run_upgrade;
  if ue_cancelled env then run! _ <- log_out ScrubScratch; log_fail (Refused terminated_message)
  else
    run! verdict <- staged_verdict status;
    match verdict with
    | None => log_ret (if is_empty detail then "KythOS is already running the latest allowed digest." else detail)
    | Some digest => commit_staged reference ring detail digest
    end.
End upgrade.

(** * The order of versions *)

Lemma str_cmp_antisym a b : str_cmp b a = CompOpp (str_cmp a b).
Proof.
  revert b. induction a as [|c a IH]; intros [|d b]; try done. cbn. rewrite (Z.compare_antisym (byte_of c) (byte_of d)).
  destruct (byte_of c ?= byte_of d); cbn; [apply IH|done|done].
Qed.

Lemma segment_cmp_antisym a b : segment_cmp b a = CompOpp (segment_cmp a b).
Proof.
  unfold segment_cmp. destruct (parse_u64 a), (parse_u64 b); try apply str_cmp_antisym. apply Z.compare_antisym.
Qed.

Lemma segments_cmp_antisym a b : segments_cmp b a = CompOpp (segments_cmp a b).
Proof.
  revert b. induction a as [|x a IH]; intros [|y b]; try done. cbn [segments_cmp]. rewrite (segment_cmp_antisym x y).
  destruct (segment_cmp x y); cbn; [apply IH|done|done].
Qed.

(** Segments that are all numbers. *)
Definition numeric (l : list string) : Prop := Forall (λ s, is_Some (parse_u64 s)) l.

Lemma segment_cmp_trans o x y z :
  is_Some (parse_u64 x) → is_Some (parse_u64 y) → is_Some (parse_u64 z) →
  (segment_cmp x y = o → segment_cmp y z = o → segment_cmp x z = o) ∧
  (segment_cmp x y = Eq → segment_cmp x z = segment_cmp y z) ∧ (segment_cmp y z = Eq → segment_cmp x z = segment_cmp x y).
Proof.
  intros [a Ha] [b Hb] [c Hc]. unfold segment_cmp. rewrite Ha, Hb, Hc.
  split_and!; destruct (Z.compare_spec a b), (Z.compare_spec b c), (Z.compare_spec a c); intros; subst; try done; lia.
Qed.

Lemma segments_cmp_trans a b c :
  numeric a → numeric b → numeric c → segments_cmp a b = Lt → segments_cmp b c = Lt → segments_cmp a c = Lt.
Proof.
  unfold numeric. revert b c. induction a as [|x a IH]; intros [|y b] [|z c] Ha Hb Hc; try done.
  apply Forall_cons in Ha as [Hx Ha], Hb as [Hy Hb], Hc as [Hz Hc]. cbn [segments_cmp].
  destruct (segment_cmp_trans Lt x y z Hx Hy Hz) as (T1 & T2 & T3).
  destruct (segment_cmp x y) eqn:E1; [rewrite (T2 eq_refl)| |done].
  - destruct (segment_cmp y z); [|done|done]. by apply IH.
  - intros _. destruct (segment_cmp y z) eqn:E2; [by rewrite (T3 eq_refl)|by rewrite T1|done].
Qed.

(** * The child is supervised *)

(** Each poll sleeps at least [POLL] milliseconds. *)
Definition clocked (ticks : nat → Tick) : Prop := 0 <= tk_ms (ticks 0%nat) ∧ ∀ n, tk_ms (ticks n) + POLL <= tk_ms (ticks (S n)).

Lemma bootc_loop_terminating ticks fuel n since out :
  clocked ticks → (1 <= fuel)%nat → TERM_GRACE - (tk_ms (ticks n) - since) + POLL < Z.of_nat fuel * POLL →
  is_Some (bootc_loop fuel ticks n (Some since) out).
Proof.
  intros [_ Hc]. revert n. induction fuel as [|fuel IH]; intros n Hpos Hf; [lia|].
  cbn [bootc_loop]. destruct (tk_wait (ticks n)) as [[o|]|e]; [by case_match; eexists| |by eexists].
  rewrite bool_decide_true by (by eexists). rewrite andb_false_r.
  destruct (Z.ltb_spec TERM_GRACE (tk_ms (ticks n) - since)); [by eexists|]. specialize (Hc n).
  unfold POLL, TERM_GRACE in *. apply IH; lia.
Qed.

Lemma clocked_ms ticks n : clocked ticks → Z.of_nat n * POLL <= tk_ms (ticks n).
Proof. intros [H0 Hc]. induction n as [|n IH]; [lia|]. specialize (Hc n). lia. Qed.

Lemma bootc_loop_bounded ticks fuel n out :
  clocked ticks → BOOTC_TIMEOUT + TERM_GRACE + 3 * POLL < (Z.of_nat fuel + Z.of_nat n) * POLL →
  Z.of_nat n * POLL <= BOOTC_TIMEOUT + POLL → is_Some (bootc_loop fuel ticks n None out).
Proof.
  intros Hc. revert n out. induction fuel as [|fuel IH]; intros n out Hf Hn; [unfold POLL, TERM_GRACE in *; lia|].
  cbn [bootc_loop]. destruct (tk_wait (ticks n)) as [[o|]|e]; [by case_match; eexists| |by eexists].
  rewrite bool_decide_false by apply is_Some_None. pose proof (clocked_ms ticks n Hc). pose proof (proj2 Hc n).
  destruct (tk_cancelled (ticks n)); cbn [negb andb].
  - rewrite Z.sub_diag. cbn. apply bootc_loop_terminating; unfold POLL, TERM_GRACE, BOOTC_TIMEOUT in *; [done|lia|lia].
  - destruct (Z.ltb_spec BOOTC_TIMEOUT (tk_ms (ticks n))); [by eexists|].
    apply IH; unfold POLL, TERM_GRACE, BOOTC_TIMEOUT in *; lia.
Qed.

(** Polls enough for an hour and the grace period. *)
Definition enough_polls (fuel : nat) : Prop := BOOTC_TIMEOUT + TERM_GRACE + 3 * POLL < Z.of_nat fuel * POLL.

Lemma run_child_bounded fuel live c : enough_polls fuel → clocked (ch_ticks c) → is_Some (run_bootc_child_with fuel live c).
Proof.
  intros Hf Hc. unfold run_bootc_child_with. destruct (ch_spawn c); [by eexists|].
  apply bootc_loop_bounded; [done| |]; unfold enough_polls, POLL, BOOTC_TIMEOUT in *; lia.
Qed.

(** A cancelled child is never taken for a finished one. *)
Lemma bootc_loop_Ok fuel ticks n term_at out o l :
  bootc_loop fuel ticks n term_at out = Some (Ok o, l) →
  ∃ m, (n <= m)%nat ∧ tk_wait (ticks m) = Ok (Some o) ∧ tk_cancelled (ticks m) = false.
Proof.
  revert n term_at out. induction fuel as [|fuel IH]; intros n term_at out; [done|]. cbn [bootc_loop].
  destruct (tk_wait (ticks n)) as [[o'|]|e] eqn:Ew; [|destruct (tk_cancelled (ticks n) && _)|done].
  - destruct (tk_cancelled (ticks n)) eqn:Ec; [done|]. intros [= <- <-]. by exists n.
  - case_match; [done|]. intros (m & Hm & Ho)%IH. exists m. split; [lia|done].
  - destruct term_at; case_match; try done; intros (m & Hm & Ho)%IH; exists m; (split; [lia|done]).
Qed.

(** * What is finalized has been admitted *)

(** Events of the child and of the free-space checks are not a finalization. *)
Lemma bootc_loop_events fuel ticks n term_at out r l :
  Finalized ∉ out → bootc_loop fuel ticks n term_at out = Some (r, l) → Finalized ∉ l.
Proof.
  assert (∀ l' o, Finalized ∉ l' → o ≠ Finalized → Finalized ∉ l' ++ [o]) as Hsnoc.
  { intros l' o Hl Ho [Hin|Hin%list_elem_of_singleton]%elem_of_app; [done|congruence]. }
  assert (∀ l', Finalized ∉ l' → Finalized ∉ l' ++ [Kill; ScrubScratch]) as Hkill.
  { intros l' Hl. change [Kill; ScrubScratch] with ([Kill] ++ [ScrubScratch]). rewrite app_assoc. by auto. }
  revert n term_at out. induction fuel as [|fuel IH]; intros n term_at out Hout; [done|]. cbn [bootc_loop].
  destruct (tk_wait (ticks n)) as [[o|]|e]; [|destruct (tk_cancelled (ticks n) && _)|by intros [= _ <-]].
  - case_match; intros [= _ <-]; auto.
  - case_match; [intros [= _ <-]; auto|]. apply IH. auto.
  - destruct term_at; (case_match; [intros [= _ <-]; by auto|by apply IH]).
Qed.

Lemma run_child_events fuel first second r l : run_bootc_child fuel first second = Some (r, l) → Finalized ∉ l.
Proof.
  assert (∀ live c r l, run_bootc_child_with fuel live c = Some (r, l) → Finalized ∉ l) as Hone.
  { intros live c r' l'. unfold run_bootc_child_with. destruct (ch_spawn c); [intros [= _ <-]; by apply not_elem_of_nil|].
    apply bootc_loop_events. by intros [|?%elem_of_nil]%elem_of_cons. }
  unfold run_bootc_child. destruct (run_bootc_child_with fuel true first) as [[[o|e] l1]|] eqn:E1; [|intros [= _ <-]; eauto|done].
  case_match; [|intros [= _ <-]; eauto]. destruct (run_bootc_child_with fuel false second) as [[r2 l2]|] eqn:E2; [|done].
  intros [= _ <-]. rewrite elem_of_app. intros [Hin|Hin]; [by eapply Hone in E1|by eapply Hone in E2].
Qed.

Definition not_final (o : UpgradeOut) : Prop := o ≠ Finalized.

Section admitted.
Context {S : Type} `{HL : StateStoreLaws S} `{HT : Toml} `{HB : Bounded}.
Variable output_text : Output → string.
Variable fuel : nat.
Variable env : UpgradeEnv.

Definition ue_sound : Prop :=
  ue_unreadable1 env = false ∧ ue_unreadable2 env = false ∧ is_i64 (ue_now env) ∧
  tx_unreadable (ue_tx env) = false ∧ contains_char "/" (tx_stamp (ue_tx env)) = false.

(** What the gates promise of the digest [d], from the stored state [x0]. *)
Record admitted (x0 : BootHealthState) (reference d ring : string) : Prop := {
  ad_root : ue_root env = true;
  ad_exclusive : ue_active env = false ∧ ue_lock_busy env = false;
  ad_running : ue_cancelled env = false;
  ad_power : ue_battery_override env = Some "1" ∨ on_ac_power_at (ue_supplies env) = true;
  ad_staged : (ue_after env ≫= λ data, image_digest_from_status data "staged") = Some d;
  ad_quarantine : bh_quarantined x0 !! d = None;
  ad_configured : load_rollout_ring (ue_config env) (bh_rollout_ring x0) = Ok ring;
  ad_ring : ring = "follow-image" ∨ image_ring reference = Some ring;
  ad_status : ∃ status, ue_status env = Some status ∧ image_reference_from_status status = Some reference ∧
    ∀ b v, image_version_from_status status "booted" = Some b →
      (ue_after env ≫= λ data, image_version_from_status data "staged") = Some v → compare_image_versions b v = Some Gt →
      image_digest_from_status status "booted" = Some d ∨
      allow_downgrade_from_toml (ue_downgrade_override env) (unwrap_or (ue_config2 env) EmptyString) = true;
}.

Lemma obeys_lift {A} (Pre P : BootHealthState → Prop) Q (r : result A) :
  (∀ s, Pre s → P s) → obeys (S := S) (O := UpgradeOut) (E := UpgradeError) Pre P Q (λ a s, r = Ok a ∧ Pre s) (up_lift r).
Proof. intros HP. unfold up_lift. destruct r; [apply obeys_ret; auto|by apply obeys_fail]. Qed.

Lemma obeys_gate (Pre P : BootHealthState → Prop) Q r :
  (∀ s, Pre s → P s) → obeys (S := S) (O := UpgradeOut) (E := UpgradeError) Pre P Q (λ _ s, r = None ∧ Pre s) (up_gate r).
Proof. intros HP. unfold up_gate. destruct r; [by apply obeys_fail|apply obeys_ret; auto]. Qed.

Lemma policy_admits reference ring :
  rollout_policy_reason reference ring = None → ring = "follow-image" ∨ image_ring reference = Some ring.
Proof.
  unfold rollout_policy_reason. case_match; [done|]. case_match eqn:E; [|done]. intros _.
  apply orb_true_iff in E as [E|E]; [left; by apply String.eqb_eq|right; by bool_inv].
Qed.

Lemma battery_admits allow supplies :
  battery_gate_reason allow supplies = None → allow = Some "1" ∨ on_ac_power_at supplies = true.
Proof. unfold battery_gate_reason. case_bool_decide; [by left|]. case_match; [by right|done]. Qed.

Lemma post_upgrade_staged before after staged reason d :
  validate_post_upgrade_state before after staged reason = Ok (Some d) → staged = Some d ∧ d ≠ EmptyString ∧ reason = None.
Proof.
  unfold validate_post_upgrade_state, validate_staged_digest. destruct staged as [s|]; [|by case_match].
  destruct (is_empty s) eqn:E; cbn [negb]; [by case_match|]. destruct reason; [done|]. cbn. intros [= <-].
  split_and!; [done| |done]. by intros ->.
Qed.

Lemma not_downgrade_admits bv bd sv sd allow :
  validate_not_downgrade bv bd sv sd allow = Ok tt →
  ∀ b v, bv = Some b → sv = Some v → compare_image_versions b v = Some Gt → bd = sd ∨ allow = true.
Proof.
  unfold validate_not_downgrade. intros Hv b v -> -> Hc. rewrite Hc in Hv.
  destruct bd as [x|], sd as [y|]; try (destruct allow; [by right|done]).
  destruct (negb (is_empty x) && String.eqb x y) eqn:E; [|destruct allow; [by right|done]].
  apply andb_true_iff in E as [_ ->%String.eqb_eq]. by left.
Qed.

Lemma quarantine_reason_None x d : quarantine_reason x d = None → bh_quarantined x !! d = None.
Proof. unfold quarantine_reason. by destruct (bh_quarantined x !! d). Qed.

Variable x0 : BootHealthState.
Hypothesis Henv : ue_sound.

(** The facts collected before anything is staged. *)
Definition cleared (status : json) (reference ring : string) : Prop :=
  ue_root env = true ∧ ue_active env = false ∧ ue_status env = Some status ∧
  image_reference_from_status status = Some reference ∧
  (load_rollout_ring (ue_config env) (bh_rollout_ring x0) = Ok ring ∧ (ring = "follow-image" ∨ image_ring reference = Some ring)) ∧
  (ue_battery_override env = Some "1" ∨ on_ac_power_at (ue_supplies env) = true).

Lemma obeys_admission Q :
  obeys (S := S) (λ x, x = x0) (λ x, x = x0) Q
    (λ a x, let '(status, reference, ring) := a in cleared status reference ring ∧ x = x0) (admission env).
Proof.
  destruct Henv as (Hr & _). unfold admission.
  eapply obeys_bind; [by apply obeys_gate|]. intros ?. cbn beta.
  eapply obeys_bind; [apply obeys_lift; by intros s [_ ?]|]. intros status.
  eapply obeys_bind; [apply obeys_lift; by intros s (_ & _ & ?)|]. intros reference.
  eapply obeys_bind; [apply obeys_read; [by intros s (_ & _ & _ & ?)|done]|]. intros state.
  eapply obeys_bind; [apply obeys_lift; by intros s (_ & _ & _ & _ & ?)|]. intros ring.
  eapply obeys_bind; [apply obeys_gate; by intros s (_ & _ & _ & _ & _ & ?)|]. intros ?.
  eapply obeys_bind; [apply obeys_gate; by intros s (_ & _ & _ & _ & _ & _ & ?)|]. intros ?.
  eapply obeys_bind; [apply obeys_gate; by intros s (_ & _ & _ & _ & _ & _ & _ & ?)|]. intros ?.
  eapply obeys_bind; [apply obeys_gate; by intros s (_ & _ & _ & _ & _ & _ & _ & _ & ?)|]. intros ?.
  apply obeys_ret. intros s (Ha & _ & Hb & Hp & Hring & Hread & Href%ok_or_Ok & Hst%ok_or_Ok & Hroot & ->). split; [done|]. split; [|done].
  split_and!; try done.
  - by destruct (ue_root env).
  - by destruct (ue_active env).
  - subst state. done.
  - apply policy_admits. by destruct (rollout_policy_reason _ _).
  - by apply battery_admits.
Qed.

Lemma obeys_locked :
  obeys (S := S) (λ x, x = x0) (λ x, x = x0) not_final (λ _ x, ue_lock_busy env = false ∧ x = x0)
    (run_locked output_text fuel env).
Proof.
  unfold run_locked. destruct (ue_lock_open env); [by apply obeys_fail|]. destruct (ue_lock_busy env); [by apply obeys_fail|].
  eapply obeys_bind; [by apply obeys_out|]. intros ?.
  destruct (run_bootc_child fuel (ue_first env) (ue_second env)) as [[r l]|] eqn:E; [|by apply obeys_fail].
  apply run_child_events in E. eapply obeys_bind.
  { apply obeys_outs; [done|]. apply Forall_forall. intros o Ho ->. done. }
  intros ?. destruct r as [o|e]; [destruct (out_success o); [by apply obeys_ret|]|].
  all: eapply obeys_bind; [by apply obeys_out|]; intros ?; by apply obeys_fail.
Qed.

Lemma obeys_run_upgrade :
  obeys (S := S) (λ x, x = x0) (λ x, x = x0) not_final (λ _ x, ue_lock_busy env = false ∧ x = x0)
    (scrub_on_error (run_upgrade output_text fuel env)).
Proof.
  assert (obeys (S := S) (λ x, x = x0) (λ x, x = x0) not_final (λ _ x, ue_lock_busy env = false ∧ x = x0)
            (run_upgrade output_text fuel env)) as Hk.
  { unfold run_upgrade.
    eapply obeys_bind; [by apply obeys_lift|]. intros ?. eapply obeys_bind; [apply obeys_lift; by intros s [_ ?]|]. intros ?.
    eapply obeys_bind; [apply obeys_lift; by intros s (_ & _ & ?)|]. intros ?.
    apply (obeys_pre (λ x, x = x0) _ _ _ _ _ True); [by intros s (_ & _ & _ & ?)|]. intros _. apply obeys_locked. }
  intros s Hs Hp. specialize (Hk s Hs Hp). unfold scrub_on_error.
  destruct (run_upgrade output_text fuel env s) as [[[a|e] s1] l]; [done|]. destruct Hk as (K1 & K2 & K3 & _).
  split_and!; [done|done| |done]. apply Forall_app. split; [done|]. by repeat constructor.
Qed.

Lemma obeys_verdict status :
  obeys (S := S) (λ x, x = x0) (λ x, x = x0) not_final
    (λ v x, x = x0 ∧ ∀ d, v = Some d →
       (ue_after env ≫= λ data, image_digest_from_status data "staged") = Some d ∧ bh_quarantined x0 !! d = None ∧
       ∀ b v, image_version_from_status status "booted" = Some b →
         (ue_after env ≫= λ data, image_version_from_status data "staged") = Some v → compare_image_versions b v = Some Gt →
         image_digest_from_status status "booted" = Some d ∨
         allow_downgrade_from_toml (ue_downgrade_override env) (unwrap_or (ue_config2 env) EmptyString) = true)
    (staged_verdict env status).
Proof.
  destruct Henv as (_ & Hr & _). unfold staged_verdict. eapply obeys_bind; [by apply obeys_read|]. intros state.
  eapply obeys_bind; [apply obeys_lift; by intros s [_ ?]|]. intros [d|]; [|apply obeys_ret; by intros s (_ & _ & ->)].
  apply (obeys_pre (λ x, x = x0) _ _ _ _ _
    ((ue_after env ≫= λ data, image_digest_from_status data "staged") = Some d ∧ bh_quarantined x0 !! d = None)).
  { intros s (Hv & -> & ->). apply post_upgrade_staged in Hv as (E & _ & Hq). rewrite E in Hq. cbn in Hq.
    split; [|done]. split; [done|by apply quarantine_reason_None]. }
  intros [Hst Hq]. eapply obeys_bind; [by apply obeys_out|]. intros ?.
  eapply obeys_bind; [by apply obeys_lift|]. intros []. apply obeys_ret. intros s [Hd ->]. split; [done|]. split; [done|].
  intros d' [= <-]. split_and!; [done|done|]. intros b v Hb Hv Hc. rewrite Hst in Hd.
  exact (not_downgrade_admits _ _ _ _ _ Hd b v Hb Hv Hc).
Qed.

(** The recorded state. *)
Definition recorded (reference d ring : string) (x : BootHealthState) : Prop :=
  x = record_staged x0 d (unwrap_or (image_ring reference) ring) (ue_now env) ∧ admitted x0 reference d ring.

Lemma finals_none l : Forall not_final l → Finalized ∉ l.
Proof. intros Hl Hin. rewrite Forall_forall in Hl. by apply (Hl _ Hin). Qed.

(** From the verdict on: the record is committed before anything is finalized. *)
Lemma commit_outcome reference ring detail d (s : S) r s' out :
  store_ok s → store_read s = x0 → admitted x0 reference d ring → commit_staged env reference ring detail d s = (r, s', out) →
  (store_read s' = x0 ∧ Finalized ∉ out) ∨ recorded reference d ring (store_read s').
Proof.
  intros Hs H0 Had Hrun. pose proof Henv as (_ & _ & Hn & Hu & Hst). unfold commit_staged, coord_record_staged in Hrun.
  set (f := λ s, record_staged s d _ _) in Hrun.
  assert (∀ x, bh_typed x → bh_typed (f x)) as Hty by (intros; by apply record_staged_typed).
  assert (recorded reference d ring (f x0)) as Hrec by done.
  apply log_bind_cases in Hrun as [(u & s1 & l1 & l2 & Htx & Hrun & ->)|(e & Htx & ->)].
  - right. apply log_tx_done in Htx as (-> & E1 & Hs1 & ->); [|done..]. rewrite H0 in E1.
    assert (obeys (S := S) (λ x, x = f x0) (λ x, x = f x0) (λ _, True) (λ _ x, x = f x0)
      (run! _ <- up_lift (check_free (ue_free env) "/var/cache" VAR_CACHE_FREE_MIN_BYTES);
       run! _ <- log_out (Stage 99 "finalize" "Preparing the staged deployment for the next boot");
       let '(r, l) := finalize_staged (ue_sysroot_boot env) in
       run! _ <- log_outs l;
       run! finalized <- up_lift r;
       log_ret (if is_empty finalized
                then if is_empty detail then "Update staged and promoted to the next boot." else detail
                else finalized))) as Hk.
    { eapply obeys_bind; [by apply obeys_lift|]. intros ?. eapply obeys_bind; [apply obeys_out; [by intros ? [_ ?]|done]|].
      intros ?. destruct (finalize_staged _) as [r' l]. eapply obeys_bind.
      { apply obeys_outs; [by intros ? [_ ?]|]. by apply Forall_true. }
      intros ?. eapply obeys_bind; [apply obeys_lift; by intros ? [_ ?]|]. intros ?. apply obeys_ret. by intros x (_ & _ & ->). }
    destruct (obeys_run _ _ _ _ _ _ _ _ _ Hk Hs1 E1 Hrun) as (_ & -> & _). done.
  - unfold log_tx in Htx. destruct (store_transaction (ue_tx env) f s) as [[u|m] s1] eqn:Et; [done|].
    injection Htx as <- <- <-. destruct (store_failed _ _ _ _ _ Hs Hu Hst (Hty _ (store_typed s Hs)) Et) as [E|[E _]]; rewrite E, H0.
    + left. split; [done|]. apply not_elem_of_nil.
    + by right.
Qed.

Lemma upgrade_outcome (s : S) r s' out :
  store_ok s → store_read s = x0 → upgrade output_text fuel env s = (r, s', out) →
  (store_read s' = x0 ∧ Finalized ∉ out) ∨ ∃ reference d ring, recorded reference d ring (store_read s').
Proof.
  intros Hs H0. unfold upgrade. intros Hrun.
  apply log_bind_cases in Hrun as [([[status reference] ring] & s1 & l1 & l1' & Ha & Hrun & ->)|(e & Ha & ->)];
    destruct (obeys_run _ _ _ _ _ _ _ _ _ (obeys_admission not_final) Hs H0 Ha) as (Hs1 & E1 & Hl1 & Hc);
    [|left; split; [done|by apply finals_none]].
  destruct (Hc _ eq_refl) as [Hcl _]. clear Hc.
  apply log_bind_cases in Hrun as [(detail & s2 & l2 & l2' & Hu & Hrun & ->)|(e & Hu & ->)];
    destruct (obeys_run _ _ _ _ _ _ _ _ _ obeys_run_upgrade Hs1 E1 Hu) as (Hs2 & E2 & Hl2 & Hc);
    [|left; split; [done|by apply finals_none, Forall_app]].
  destruct (Hc _ eq_refl) as [Hbusy _]. clear Hc. destruct (ue_cancelled env) eqn:Hcan.
  { cbn in Hrun. injection Hrun as <- <- <-. left. split; [done|]. apply finals_none. repeat (apply Forall_app; split; [done|]).
    by repeat constructor. }
  apply log_bind_cases in Hrun as [(v & s3 & l3 & l3' & Hv & Hrun & ->)|(e & Hv & ->)];
    destruct (obeys_run _ _ _ _ _ _ _ _ _ (obeys_verdict status) Hs2 E2 Hv) as (Hs3 & E3 & Hl3 & Hc);
    [|left; split; [done|by apply finals_none; repeat (apply Forall_app; split; [done|])]].
  destruct (Hc _ eq_refl) as [_ Hd]. clear Hc. destruct v as [d|].
  - destruct (Hd d eq_refl) as (D1 & D2 & D3). destruct Hcl as (C1 & C2 & C3 & C4 & [C5 C5'] & C6).
    assert (admitted x0 reference d ring) as Had by (split; eauto 10).
    destruct (commit_outcome reference ring detail d s3 r s' l3' Hs3 E3 Had Hrun) as [[E4 Hn]|Hrec]; [|by right; eexists _, _, _].
    left. split; [done|]. rewrite !elem_of_app. apply finals_none in Hl1, Hl2, Hl3. tauto.
  - injection Hrun as <- <- <-. left. split; [done|]. apply finals_none. by repeat (apply Forall_app; split).
Qed.
End admitted.

(** * Claims *)

(** C14: safety.  When the stored state can be read, and whatever bootc, the disks
    and the clock do, an update run
    finalizes a deployment only after every gate has passed and the record is
    stored: as root, on mains power or with the override, with the lock, not
    cancelled; the ring that the configuration gives, or failing that the last
    stored one, is the ring of the booted image or follows any image; the digest that
    bootc staged is not quarantined and not older than the booted version, unless
    it is the same image or a downgrade is allowed; and the stored state is the
    old one with exactly that digest pending, on the ring of the image.  A run that finalizes nothing
    leaves the stored state as it was or with such an admitted digest pending. *)
Theorem finalized_was_admitted {S} `{HL : StateStoreLaws S} `{HT : Toml} `{HB : Bounded} output_text fuel env (s : S) r s' out :
  ue_sound env → store_ok s → upgrade output_text fuel env s = (r, s', out) →
  (store_read s' = store_read s ∧ Finalized ∉ out) ∨
  ∃ reference d ring, admitted env (store_read s) reference d ring
    ∧ store_read s' = record_staged (store_read s) d (unwrap_or (image_ring reference) ring) (ue_now env).
Proof.
  intros He Hs Hrun. destruct (upgrade_outcome output_text fuel env (store_read s) He s r s' out Hs eq_refl Hrun)
    as [?|(reference & d & ring & E & Ha)]; [by left|right; eauto].
Qed.

(** Termination.  The supervision of [bootc upgrade] ends: when every poll
    takes at least its 25 milliseconds, polls for an hour and ten seconds are
    enough for a result of the child, whether it exits, hangs, or ignores the
    termination signal. *)
Theorem bootc_child_returns fuel first second :
  enough_polls fuel → clocked (ch_ticks first) → clocked (ch_ticks second) →
  is_Some (run_bootc_child fuel first second).
Proof.
  intros Hf H1 H2. unfold run_bootc_child. destruct (run_child_bounded fuel true first Hf H1) as [[[o|e] l] ->]; [|by eexists].
  case_match; [|by eexists]. destruct (run_child_bounded fuel false second Hf H2) as [[r l'] ->]. by eexists.
Qed.

(** Functional.  The comparison of image versions is antisymmetric for all
    versions, and transitive on versions whose segments are all numbers, so the
    downgrade gate orders the releases of such a line. *)
Theorem image_versions_ordered a b c :
  compare_image_versions b a = CompOpp <$> compare_image_versions a b ∧
  (numeric (segments a) → numeric (segments b) → numeric (segments c) →
   compare_image_versions a b = Some Lt → compare_image_versions b c = Some Lt → compare_image_versions a c = Some Lt).
Proof.
  unfold compare_image_versions. split.
  - destruct (is_empty (trim a)), (is_empty (trim b)); try done. cbn. by rewrite segments_cmp_antisym.
  - intros Ha Hb Hc. destruct (is_empty (trim a)), (is_empty (trim b)), (is_empty (trim c)); try done. cbn.
    intros [= E1] [= E2]. f_equal. exact (segments_cmp_trans _ _ _ Ha Hb Hc E1 E2).
Qed.

(** Error.  With a segment that is not a number the comparison is not an
    order: 2 is below 10, 10 below 1a and 1a below 2, so a sequence of accepted
    updates can return to where it started. *)
Theorem image_version_cycle :
  compare_image_versions "2" "10" = Some Lt ∧ compare_image_versions "10" "1a" = Some Lt ∧
  compare_image_versions "1a" "2" = Some Lt.
Proof. by vm_compute. Qed.

(** ** The claims at work *)

Definition sample_toml : Toml := {| toml_parse _ := None; toml_show _ := EmptyString |}.
Definition quiet_success : Output := {| out_code := Some 0; out_stdout := EmptyString; out_stderr := EmptyString |}.
Definition sample_bounded : Bounded := {| run_bounded _ := Ok quiet_success |}.
Definition image_of (digest version : string) : json :=
  jobject [("image", jobject [("imageDigest", JString digest); ("version", JString version);
                              ("reference", JString "ghcr.io/kyth-os/kyth:latest")])].
Definition sample_before_status : json := jobject [("status", jobject [("booted", image_of "sha256:a" "44.1")])].
Definition sample_after_status : json :=
  jobject [("status", jobject [("booted", image_of "sha256:a" "44.1"); ("staged", image_of "sha256:b" "44.2")])].
Definition exits_at_once : Child :=
  {| ch_spawn := None; ch_ticks n := {| tk_wait := Ok (Some quiet_success); tk_cancelled := false; tk_ms := 25 * Z.of_nat n |} |}.
Definition sample_upgrade : UpgradeEnv := {|
  ue_root := true; ue_status := Some sample_before_status; ue_unreadable1 := false; ue_config := None;
  ue_battery_override := None; ue_supplies := None; ue_active := false; ue_free _ := None; ue_lock_open := None;
  ue_lock_busy := false; ue_first := exits_at_once; ue_second := exits_at_once; ue_cancelled := false;
  ue_after := Some sample_after_status; ue_unreadable2 := false; ue_config2 := None; ue_downgrade_override := None;
  ue_tx := sample_tx; ue_now := 5; ue_sysroot_boot := true |}.

Definition run_sample : (string + UpgradeError) * BootHealthState * list UpgradeOut :=
  @upgrade BootHealthState memory_store sample_toml sample_bounded (λ _, "done") 2 sample_upgrade default_state.

Example sample_finalizes :
  match run_sample with (r, s', out) => r = inl "done" ∧ bh_pending_digest s' = "sha256:b" ∧ Finalized ∈ out end.
Proof. vm_compute. split_and!; [done|done|]. do 4 right. left. Qed.

Lemma finalized_was_admitted_witness :
  Finalized ∈ run_sample.2 ∧
  ∃ reference d ring, admitted (HT := sample_toml) sample_upgrade default_state reference d ring
    ∧ store_read (run_sample.1.2) = record_staged default_state d (unwrap_or (image_ring reference) ring) 5.
Proof.
  assert (Finalized ∈ run_sample.2) as Hf by (apply list_elem_of_In; vm_compute; repeat (first [left; reflexivity | right])).
  split; [exact Hf|].
  destruct (@finalized_was_admitted BootHealthState _ memory_store_laws sample_toml sample_bounded (λ _, "done") 2 sample_upgrade
    default_state run_sample.1.1 run_sample.1.2 run_sample.2) as [[_ Hn]|Hok]; [| | |by destruct Hn|exact Hok].
  - split_and!; try done; unfold i64_min, i64_max; cbn; lia.
  - apply default_typed.
  - by destruct run_sample as [[r s'] out] eqn:E.
Defined.

Lemma bootc_child_returns_witness : is_Some (run_bootc_child (Z.to_nat 144404) exits_at_once exits_at_once).
Proof.
  assert (clocked (ch_ticks exits_at_once)) as Hc by (split; [done|]; intros n; cbn [ch_ticks exits_at_once tk_ms]; unfold POLL; lia).
  apply bootc_child_returns; [|done|done]. unfold enough_polls. rewrite Z2Nat.id by lia. by vm_compute.
Defined.

Lemma image_versions_ordered_witness : compare_image_versions "44.1" "44.10.3" = Some Lt.
Proof.
  apply (proj2 (image_versions_ordered "44.1" "44.2" "44.10.3")); [| | |by vm_compute|by vm_compute].
  all: unfold numeric; match goal with |- Forall _ ?l => let l' := eval vm_compute in l in change l with l' end.
  all: repeat (apply Forall_cons; split; [eexists; reflexivity|]); constructor.
Defined.
