(* ===== verification/Guardian.v ===== *)
(** The Guardian of the installed system: [guardian.rs] and the check of
    [guardian_bin.rs].

    Repairs are a fixed table of recipes.  What is recommended, dismissed and
    executed is kept in one document; a repair runs only behind the gate of
    [execute_recipe].  Commands, clock and the saving of the document are
    answered by an arbitrary machine; what was run and saved is the log. *)

From Stdlib Require Import QArith Lqa.
From S2P Require Import Prelude RustStr RustOs Json FileSystem.

(** * Recipes *)

Record Recipe := {
  rc_id : string;
  rc_title : string;
  rc_component : string;
  rc_command : list string;
  rc_risk : string;
  rc_requires_auth : bool;
  rc_automatic : bool;
  rc_cooldown : Z;
  rc_verification : string;
  rc_recovery : string;
}.
Definition recipe id title component command risk requires_auth automatic cooldown verification recovery : Recipe :=
  {| rc_id := id; rc_title := title; rc_component := component; rc_command := command; rc_risk := risk;
     rc_requires_auth := requires_auth; rc_automatic := automatic; rc_cooldown := cooldown; rc_verification := verification;
     rc_recovery := recovery |}.

Definition recipes : list Recipe := [
  recipe "audio.restart" "Restart audio services" "audio"
    ["systemctl"; "--user"; "restart"; "pipewire.service"; "pipewire-pulse.service"; "wireplumber.service"] "safe" false true 900 "audio"
    "Open Hub > This PC > Repair and inspect the audio stack.";
  recipe "network.restart-user" "Restart the NetworkManager user integration" "network"
    ["systemctl"; "--user"; "restart"; "plasma-nm.service"] "safe" false true 900 "network"
    "Open KDE Network Settings; saved connections are not changed.";
  recipe "flatpak.refresh-metadata" "Refresh Flatpak metadata" "flatpak"
    ["flatpak"; "update"; "--appstream"; "--user"; "--noninteractive"] "safe" false true 1800 "flatpak"
    "Retry from Hub > Apps.";
  recipe "flatpak.repair-user" "Repair user Flatpak data" "flatpak"
    ["flatpak"; "repair"; "--user"] "confirm" false false 3600 "flatpak"
    "No apps are removed; retry the app from Hub.";
  recipe "bluetooth.restart" "Restart Bluetooth" "bluetooth"
    ["sudo"; "-A"; "systemctl"; "restart"; "bluetooth.service"] "confirm" true false 1800 "bluetooth"
    "Re-open Bluetooth Settings and reconnect the device.";
  recipe "portal.restart-user" "Restart desktop portals" "portal"
    ["systemctl"; "--user"; "restart"; "xdg-desktop-portal.service"] "safe" false true 900 "portal"
    "If file pickers or screen sharing were blank, retry them now.";
  recipe "plasma.restart-user" "Restart Plasma shell" "plasma"
    ["systemctl"; "--user"; "restart"; "plasma-plasmashell.service"] "safe" false true 900 "plasma"
    "If the panel or task manager vanished, it should reappear. Open windows are kept.";
  recipe "disk.review" "Review storage usage" "storage"
    [] "advisory" false false 3600 "storage"
    "Open Hub > This PC > Hardware > Storage; Guardian never deletes files.";
  recipe "storage.maint" "Run storage maintenance" "storage"
    ["/usr/bin/kyth-btrfs-maint"] "safe" false false 86400 "storage"
    "Gated btrfs scrub/balance (AC+idle+!gaming). Not a timer auto-fix — a scrub can outlive the 90s oneshot.";
  recipe "firmware.refresh" "Refresh firmware metadata" "firmware"
    ["flock"; "-w"; "10"; "/run/kyth-fwupd.lock"; "fwupdmgr"; "refresh"; "--force"] "safe" false true 43200 "firmware"
    "Refreshes LVFS metadata only; does not flash devices.";
  recipe "display.reconfigure" "Re-apply display outputs" "display"
    ["systemctl"; "--user"; "restart"; "plasma-kscreen.service"] "safe" false true 21600 "display"
    "Restarts KScreen and enables connected outputs after dock/HDR change; no reboot.";
  recipe "controller.repair" "Restart controller stack" "controller"
    ["sudo"; "-A"; "systemctl"; "restart"; "joycond.service"] "confirm" true false 21600 "controller"
    "Restarts system joycond after suspend; may ask for permission. Re-pair if needed.";
  recipe "network.captive-fix" "Re-toggle networking for captive portals" "network"
    ["nmcli"; "networking"; "off"] "safe" false false 1800 "network"
    "Re-toggles NetworkManager to clear captive portal / local-only state; saved connections kept. Not an unattended auto-fix — a failed re-enable would leave networking off.";
  recipe "audio.sink-fallback" "Restore default audio sink" "audio"
    ["pactl"; "list"; "short"; "sinks"] "safe" false true 900 "audio"
    "Falls back to the first real sink after HDMI/headset swap; no data changed.";
  recipe "power.profile-fix" "Reset power profile to balanced" "power"
    ["powerprofilesctl"; "set"; "balanced"] "safe" false true 3600 "power"
    "Resets stuck power profile after driver update; no reboot.";
  recipe "thermal.notify" "Thermal throttling detected" "thermal"
    [] "advisory" false false 3600 "thermal"
    "System is hot — close heavy tasks and check vents; Guardian resumes after cooldown.";
  recipe "storage.smart-warn" "SMART disk health at risk" "storage"
    [] "advisory" false false 86400 "storage"
    "SMART reports reallocated/pending sectors — back up and check Disks.";
  recipe "memory.pressure-relief" "Memory pressure high" "memory"
    [] "advisory" false false 3600 "memory"
    "High PSI / low MemAvailable — close heavy apps; Guardian pauses auto-fixes until pressure drops.";
  recipe "network.vpn-fix" "Restart always-on VPN connection" "network"
    ["nmcli"; "-t"; "-f"; "NAME,TYPE,AUTOCONNECT"; "connection"; "show"] "safe" false true 1800 "network"
    "Re-establishes an autoconnect VPN after a captive-portal hop; idle VPN profiles are left alone.";
  recipe "network.vpn-dns-leak-check" "Check VPN DNS for leaks" "network"
    ["resolvectl"; "status"] "safe" false true 1800 "network"
    "Reports non-tunnel resolvers while a VPN tunnel is up; never rewrites DNS on its own.";
  recipe "network.vpn-dns-exclusive" "Pin VPN link to exclusive DNS" "network"
    ["resolvectl"; "status"] "confirm" true false 3600 "network"
    "Hub opt-in only (vpn_dns_exclusive): pins tunnel links to the VPN resolver with the ~. domain. Needs admin privilege for the resolvectl link rewrite.";
  recipe "network.dns-flush" "Flush DNS cache" "network"
    ["resolvectl"; "flush-caches"] "safe" false true 1800 "network"
    "Flushes systemd-resolved cache after portal/DNS change.";
  recipe "update.review-health" "Review update health" "updates"
    [] "advisory" false false 3600 "updates"
    "Run ujust update-health; rollback remains controlled by boot health."
].

Definition find_recipe (recipe_id : string) : option Recipe := find_first (λ r, String.eqb (rc_id r) recipe_id) recipes.
Definition recipe_title (recipe_id : string) : string := unwrap_or (rc_title <$> find_recipe recipe_id) recipe_id.
Definition recipe_risk (recipe_id : string) : string := unwrap_or (rc_risk <$> find_recipe recipe_id) "unknown".

(** Repairs that are more than their command. *)
Definition EXECUTOR_ONLY : list string :=
  ["display.reconfigure"; "audio.sink-fallback"; "power.profile-fix"; "network.dns-flush"; "network.captive-fix"; "network.vpn-fix";
   "network.vpn-dns-leak-check"; "network.vpn-dns-exclusive"; "controller.repair"; "portal.restart-user"; "firmware.refresh";
   "storage.maint"].
Definition NOT_ELIGIBLE : string := "recipe is not eligible for automatic execution".

(** * The machine *)

(** What [run_bounded] reports; the texts are decoded leniently. *)
Inductive Bounded := TimedOut | NotStarted | Finished (ok : bool) (stdout stderr : string).

(** The two settings of the network preset that are read. *)
Record NetworkPreset := { np_dns : string; np_vpn_dns_exclusive : bool }.

(** The answers, by the number of earlier questions. *)
Record GuardOs := {
  go_run : nat → list string → Bounded;
  go_now : nat → Q;
  go_save : nat → bool;
  go_slot_taken : nat → bool;
  go_maint_verified : nat → bool;
  go_askpass : bool;
  go_preset : NetworkPreset;
}.

(** Numbers of a document as [f64] values: the value of a decimal text, and the
    text of a time stamp. *)
Class Floats := { float_value : string → option Q; stamp : Q → json }.
Definition as_f64 `{Floats} (v : json) : option Q :=
  match v with
  | JNumber n => Some (inject_Z n)
  | JFloat text => float_value text
  | _ => None
  end.
(** A stored time stamp reads back. *)
Class FloatsLaws `{Floats} := { as_f64_stamp : ∀ q, as_f64 (stamp q) = Some q }.

Definition Qlt_bool (a b : Q) : bool := negb (Qle_bool b a).

(** The state file: missing or unreadable, a text that is no JSON, or a
    document. *)
Inductive StateFile := NoState | Garbled (text : string) | Stored (doc : json).

(** The state file and the number of questions asked. *)
Record GState := { gs_step : nat; gs_store : StateFile }.
(** [Preserved]: the text of a damaged state file is written to
    [guardian.json.corrupt]; whether that succeeds is not looked at. *)
Inductive GEvent := Ran (argv : list string) | Saved (doc : json) | Preserved (file : StateFile).

(** A panic leaves a computation; an error is a result. *)
Inductive Panic := Panicked.
Definition G := Log GState GEvent Panic.

Definition g_tick : G nat := λ s, (inl (gs_step s), {| gs_step := S (gs_step s); gs_store := gs_store s |}, []).

(** Continue with the value of a result, or return the error. *)
Definition g_try {A B} (c : G (result A)) (k : A → G (result B)) : G (result B) :=
  log_bind c (λ r, match r with Ok a => k a | Err e => log_ret (Err e) end).
Notation "'try!' x '<-' c ';' k" := (g_try c (λ x, k)) (at level 200, x name, c at level 100, k at level 200).

Definition MAX_DETAIL : Z := 400.
(** [s.is_char_boundary(n)]: not inside the encoding of a character. *)
Definition is_char_boundary (n : nat) (s : string) : bool :=
  match String.get n s with
  | Some c => negb (byte_in 128 191 c)
  | None => true
  end.
(** [s.truncate(400)], which panics inside a character. *)
Definition truncate_detail (s : string) : option string :=
  if slen s <? MAX_DETAIL then Some s
  else if is_char_boundary 400 s then Some (String.substring 0 400 s) else None.

(** Both texts are trimmed, standard error is preferred. *)
Definition detail_of (stdout stderr : string) : string :=
  if is_empty (trim stderr) then trim stdout else trim stderr.

Section Machine.
Context (os : GuardOs).

Definition run_bounded (argv : list string) : G Bounded :=
  run! n <- g_tick; run! _ <- log_out (Ran argv); log_ret (go_run os n argv).
Definition now_unix : G Q := run! n <- g_tick; log_ret (go_now os n).

Definition run_command (argv : list string) : G (result string) :=
  run! out <- run_bounded argv;
  match out with
  | TimedOut => log_ret (Err "repair timed out")
  | NotStarted => log_ret (Err "repair failed to start")
  | Finished ok stdout stderr =>
      match truncate_detail (detail_of stdout stderr) with
      | None => log_fail Panicked
      | Some detail =>
          log_ret (if ok then Ok (if is_empty detail then "done" else detail)
                   else Err (if is_empty detail then "repair failed" else detail))
      end
  end.
Definition run_ok (argv : list string) : G (result unit) :=
  run! r <- run_command argv; log_ret (match r with Ok _ => Ok tt | Err e => Err e end).
Definition succeeds (argv : list string) : G bool :=
  run! r <- run_ok argv; log_ret (is_ok r).

(** ** VPN links *)

(** [s.split(['(', ')'])] *)
Fixpoint split_parens (s : string) : list string :=
  match s with
  | EmptyString => [EmptyString]
  | String c s =>
      if byte_among "()" c then EmptyString :: split_parens s
      else match split_parens s with
           | [] => [String c EmptyString]
           | w :: ws => String c w :: ws
           end
  end.
(** The interface name of a line [Link <index> (<name>):]. *)
Definition link_name (trimmed : string) : option string :=
  (λ rest, trim (unwrap_or (split_parens rest !! 1%nat) EmptyString)) <$> strip_prefix "Link " trimmed.
Definition is_tunnel (name : string) : bool :=
  starts_with "tun" name || starts_with "wg" name || starts_with "tailscale" name || starts_with "ppp" name.

(** [links.dedup()] *)
Fixpoint dedup (l : list string) : list string :=
  match l with
  | [] => []
  | x :: l =>
      match dedup l with
      | y :: l' => if String.eqb x y then y :: l' else x :: y :: l'
      | [] => [x]
      end
  end.
Definition tunnel_of (line : string) : option string :=
  name ← link_name (trim line); if is_tunnel name then Some name else None.
Definition vpn_tunnel_links (status_output : string) : list string :=
  dedup (merge_sort String.le (omap tunnel_of (lines status_output))).

(** [network_preset::vpn_dns_leaks]: the servers of every other link. *)
Fixpoint dns_leaks (vpn_links : list string) (current : string) (ls : list string) : list (string * string) :=
  match ls with
  | [] => []
  | line :: ls =>
      let trimmed := trim line in
      match link_name trimmed with
      | Some name => dns_leaks vpn_links name ls
      | None =>
          match strip_prefix "DNS Servers:" trimmed with
          | Some servers =>
              (if str_in current vpn_links then [] else (λ s, (current, s)) <$> split_whitespace servers)
              ++ dns_leaks vpn_links current ls
          | None => dns_leaks vpn_links current ls
          end
      end
  end.
Definition vpn_dns_leaks (status_output : string) (vpn_links : list string) : list (string * string) :=
  dns_leaks vpn_links EmptyString (lines status_output).

Definition check_vpn_dns_leak_output (status_output : string) : result string :=
  match vpn_tunnel_links status_output with
  | [] => Ok "no VPN tunnel link up; nothing to leak"
  | links =>
      match vpn_dns_leaks status_output links with
      | [] => Ok ("VPN DNS clean on " +:+ join "," links)
      | leaks => Err ("VPN DNS leak: non-tunnel resolvers in use: "
                      +:+ join " " ((λ l, fst l +:+ "=" +:+ snd l) <$> leaks))
      end
  end.
Definition check_vpn_dns_leak_live : G (result string) :=
  run! r <- run_command ["resolvectl"; "status"];
  log_ret (match r with
           | Err _ => Err "resolvectl unavailable"
           | Ok output => match check_vpn_dns_leak_output output with Ok d => Ok d | Err _ => Err "VPN DNS leak detected" end
           end).

Definition dns_ip (preset : NetworkPreset) : string :=
  if String.eqb (np_dns preset) "cloudflare" then "1.1.1.1" else if String.eqb (np_dns preset) "google" then "8.8.8.8"
  else if String.eqb (np_dns preset) "off" then EmptyString else "9.9.9.9".
Definition vpn_exclusive_dns_argv (preset : NetworkPreset) (link vpn_dns : string) : list string :=
  if negb (np_vpn_dns_exclusive preset) || is_empty link || is_empty vpn_dns then [] else ["resolvectl"; "dns"; link; vpn_dns].
Definition vpn_exclusive_domain_argv (preset : NetworkPreset) (link : string) : list string :=
  if negb (np_vpn_dns_exclusive preset) || is_empty link then [] else ["resolvectl"; "domain"; link; "~."].

Definition link_update_failed : string :=
  "resolvectl link update failed; pinning VPN DNS needs admin privilege — run with authentication".
Fixpoint pin_links (vpn_dns : string) (links : list string) : G (result unit) :=
  match links with
  | [] => log_ret (Ok tt)
  | link :: links =>
      run! a <- succeeds (vpn_exclusive_dns_argv (go_preset os) link vpn_dns);
      if negb a then log_ret (Err link_update_failed) else
      run! b <- succeeds (vpn_exclusive_domain_argv (go_preset os) link);
      if negb b then log_ret (Err link_update_failed) else pin_links vpn_dns links
  end.
Definition apply_vpn_dns_exclusive_live : G (result string) :=
  if negb (np_vpn_dns_exclusive (go_preset os))
  then log_ret (Err "VPN DNS exclusivity is Hub opt-in; refusing to rewrite link DNS unasked") else
  run! r <- run_command ["resolvectl"; "status"];
  match r with
  | Err _ => log_ret (Err "resolvectl unavailable")
  | Ok output =>
      let links := vpn_tunnel_links output in
      let vpn_dns := dns_ip (go_preset os) in
      if bool_decide (links = []) then log_ret (Err "no VPN tunnel link found")
      else if is_empty vpn_dns then log_ret (Err "DNS preset is off; nothing to pin")
      else try! _ <- pin_links vpn_dns links; log_ret (Ok ("VPN DNS pinned on " +:+ join "," links))
  end.

(** ** Repairs *)

Definition usable_sink (name : string) : bool := negb (contains_str "auto_null" name) && negb (String.eqb name "@DEFAULT_SINK@").
Definition choose_sink (output : string) : option string :=
  find_first usable_sink (omap (λ line, split_whitespace line !! 1%nat) (lines output)).

(** [line.rsplitn(3, ':')]: the last two fields and the rest. *)
Definition rsplit3 (line : string) : string * string * string :=
  match split_last ":" line with
  | None => (line, EmptyString, EmptyString)
  | Some (front, auto) =>
      match split_last ":" front with
      | None => (auto, front, EmptyString)
      | Some (name, kind) => (auto, kind, name)
      end
  end.
Definition always_on_vpn (line : string) : option string :=
  let '(auto, kind, name) := rsplit3 line in
  if String.eqb kind "vpn" && String.eqb auto "yes" && negb (is_empty name) then Some name else None.

Definition maintenance_output_complete (output : string) : bool := String.eqb (trim output) "Storage maintenance complete.".

Definition run_executor (id : string) : G (result string) :=
  if String.eqb id "display.reconfigure" then
    run! _ <- run_ok ["systemctl"; "--user"; "restart"; "plasma-kscreen.service"];
    try! _ <- run_ok ["kscreen-doctor"; "-o"]; log_ret (Ok "display outputs refreshed")
  else if String.eqb id "audio.sink-fallback" then
    try! output <- run_command ["pactl"; "list"; "short"; "sinks"];
    match choose_sink output with
    | None => log_ret (Err "no usable audio sink")
    | Some sink => try! _ <- run_ok ["pactl"; "set-default-sink"; sink]; log_ret (Ok ("default sink set to " +:+ sink))
    end
  else if String.eqb id "power.profile-fix" then
    try! _ <- run_ok ["powerprofilesctl"; "set"; "balanced"]; log_ret (Ok "power profile set to balanced")
  else if String.eqb id "network.dns-flush" then
    run! a <- succeeds ["resolvectl"; "flush-caches"];
    run! b <- (if a then log_ret true else succeeds ["systemd-resolve"; "--flush-caches"]);
    log_ret (if b then Ok "flushed DNS caches" else Err "DNS cache flush unavailable")
  else if String.eqb id "network.captive-fix" then
    try! _ <- run_ok ["nmcli"; "networking"; "off"];
    run! ok <- succeeds ["nmcli"; "networking"; "on"];
    if ok then log_ret (Ok "networking re-toggled")
    else run! _ <- run_ok ["nmcli"; "networking"; "on"]; log_ret (Err "failed to re-enable networking")
  else if String.eqb id "network.vpn-fix" then
    try! listed <- run_command ["nmcli"; "-t"; "-f"; "NAME,TYPE,AUTOCONNECT"; "connection"; "show"];
    match find_map always_on_vpn (lines listed) with
    | Some name => try! _ <- run_ok ["nmcli"; "connection"; "up"; name]; log_ret (Ok ("brought up VPN " +:+ name))
    | None => log_ret (Err "no always-on VPN needed reconnecting")
    end
  else if String.eqb id "network.vpn-dns-leak-check" then check_vpn_dns_leak_live
  else if String.eqb id "network.vpn-dns-exclusive" then apply_vpn_dns_exclusive_live
  else if String.eqb id "controller.repair" then
    try! _ <- run_ok ["sudo"; "-A"; "systemctl"; "restart"; "joycond.service"]; log_ret (Ok "joycond restarted")
  else if String.eqb id "portal.restart-user" then
    try! _ <- run_ok ["systemctl"; "--user"; "restart"; "xdg-desktop-portal.service"];
    run! _ <- run_ok ["systemctl"; "--user"; "restart"; "plasma-xdg-desktop-portal-kde.service"];
    log_ret (Ok "desktop portals restarted")
  else if String.eqb id "firmware.refresh" then
    run! ok <- succeeds ["flock"; "-w"; "10"; "/run/kyth-fwupd.lock"; "fwupdmgr"; "refresh"; "--force"];
    if ok then log_ret (Ok "firmware metadata refreshed")
    else try! _ <- run_ok ["fwupdmgr"; "refresh"; "--force"]; log_ret (Ok "firmware metadata refreshed")
  else if String.eqb id "storage.maint" then
    try! output <- run_command ["/usr/bin/kyth-btrfs-maint"];
    log_ret (if maintenance_output_complete output then Ok "storage maintenance complete" else Err output)
  else log_ret (Err NOT_ELIGIBLE).

Definition verify_recipe (recipe_id : string) : G bool :=
  if String.eqb recipe_id "audio.sink-fallback" then succeeds ["pactl"; "get-default-sink"]
  else if str_in recipe_id ["network.captive-fix"; "network.vpn-fix"; "network.dns-flush"]
  then succeeds ["nmcli"; "-t"; "-f"; "STATE"; "general"]
  else if String.eqb recipe_id "controller.repair" then succeeds ["systemctl"; "is-active"; "--quiet"; "joycond.service"]
  else if String.eqb recipe_id "portal.restart-user"
  then succeeds ["systemctl"; "--user"; "is-active"; "--quiet"; "xdg-desktop-portal.service"]
  else if String.eqb recipe_id "firmware.refresh" then succeeds ["fwupdmgr"; "get-updates"]
  else if String.eqb recipe_id "power.profile-fix" then succeeds ["powerprofilesctl"; "get"]
  else if String.eqb recipe_id "display.reconfigure" then succeeds ["kscreen-doctor"; "-o"]
  else if String.eqb recipe_id "storage.maint" then run! n <- g_tick; log_ret (go_maint_verified os n)
  else succeeds ["systemctl"; "--user"; "is-active"; "--quiet"; "pipewire.service"].

(** * The document *)

Context `{HF : Floats}.

Definition SCHEMA_VERSION : Z := 1.
Definition NOTIFY_THROTTLE_S : Q := inject_Z 21600.
Definition HISTORY_LIMIT : nat := 200.

Definition empty_state : json :=
  jobject [("schema_version", JNumber SCHEMA_VERSION); ("history", JArray []); ("occurrences", jobject [])].
Definition is_object (v : json) : bool := match v with JObject _ => true | _ => false end.
Definition well_formed (v : json) : bool := is_object v && match field as_array "history" v with Some _ => true | None => false end.

(** [load_state]: anything else than an object with a history starts afresh; what
    was read and is not one is preserved. *)
Definition loaded (store : StateFile) : json :=
  match store with
  | Stored v => if well_formed v then v else empty_state
  | _ => empty_state
  end.
Definition damaged (store : StateFile) : bool :=
  match store with NoState => false | Garbled _ => true | Stored v => negb (well_formed v) end.
Definition preserved (store : StateFile) : list GEvent := if damaged store then [Preserved store] else [].
Definition load_state : G json := λ s, (inl (loaded (gs_store s)), s, preserved (gs_store s)).

Definition recipe_id_of (item : json) : option string := field as_str "recipe_id" item.
Definition action_of (item : json) : option string := field as_str "action" item.
Definition is_recommended (item : json) : bool := bool_decide (action_of item = Some "recommended").

(** [coalesce_recommendations]: [active] maps a recipe to the index of its open
    recommendation in [compact]. *)
Fixpoint coalesce (active : gmap string nat) (compact history : list json) : list json :=
  match history with
  | [] => compact
  | item :: history =>
      let recipe_id := unwrap_or (recipe_id_of item) EmptyString in
      if negb (is_empty recipe_id) && is_recommended item then
        match active !! recipe_id with
        | Some previous => coalesce active (<[previous := item]> compact) history
        | None => coalesce (<[recipe_id := length compact]> active) (compact ++ [item]) history
        end
      else coalesce (if is_empty recipe_id then active else delete recipe_id active) (compact ++ [item]) history
  end.
Definition coalesce_recommendations (history : list json) : list json := coalesce ∅ [] history.

(** [history.drain(0..len - 200)] *)
Definition cap_history (history : list json) : list json := drop (length history - HISTORY_LIMIT) history.

Definition with_history (f : list json → list json) (state : json) : json :=
  match field as_array "history" state with
  | Some history => jset "history" (JArray (f history)) state
  | None => state
  end.

(** [save_state]: the history is made compact and bounded. *)
Definition normalized_state (state : json) : json := with_history (λ h, cap_history (coalesce_recommendations h)) state.
Definition save_state (state : json) : G (result unit) := λ s,
  let s1 := {| gs_step := S (gs_step s); gs_store := gs_store s |} in
  if go_save os (gs_step s) then
    (inl (Ok tt), {| gs_step := S (gs_step s); gs_store := Stored (normalized_state state) |}, [Saved (normalized_state state)])
  else (inl (Err "could not commit Guardian state"), s1, []).

(** [append_history_record]: the scan from the end for the last record of the
    recipe, which is replaced when it is a recommendation. *)
Fixpoint replace_open (recipe_id : string) (record : json) (reversed : list json) : option (list json) :=
  match reversed with
  | [] => None
  | previous :: rest =>
      if bool_decide (recipe_id_of previous = Some recipe_id) then
        if is_recommended previous then Some (record :: rest) else None
      else (previous ::.) <$> replace_open recipe_id record rest
  end.
Definition append_history_record (history : list json) (record : json) : list json :=
  match (if is_recommended record then recipe_id_of record ≫= λ id, replace_open id record (rev history) else None) with
  | Some reversed => rev reversed
  | None => history ++ [record]
  end.

(** ** Pending recommendations *)

(** The loop over the history: the latest entry of each recipe inside the window. *)
Definition note_item (now : Q) (latest : gmap string (Q * json)) (item : json) : gmap string (Q * json) :=
  match recipe_id_of item, field as_f64 "timestamp" item with
  | Some recipe_id, Some timestamp =>
      if Qlt_bool NOTIFY_THROTTLE_S (now - timestamp) then latest
      else match latest !! recipe_id with
           | Some (previous, _) => if Qle_bool previous timestamp then <[recipe_id := (timestamp, item)]> latest else latest
           | None => <[recipe_id := (timestamp, item)]> latest
           end
  | _, _ => latest
  end.
Definition latest_items (now : Q) (history : list json) : gmap string (Q * json) := foldl (note_item now) ∅ history.

Record PendingItem := { pi_recipe_id : string; pi_detail : string }.
Definition pending_item (item : json) : PendingItem :=
  {| pi_recipe_id := unwrap_or (recipe_id_of item) EmptyString; pi_detail := unwrap_or (field as_str "detail" item) EmptyString |}.
Definition pending_at (now : Q) (state : json) : list PendingItem :=
  match field as_array "history" state with
  | None => []
  | Some history =>
      pending_item <$> filterb is_recommended ((λ e, snd (snd e)) <$> map_to_list (latest_items now history))
  end.
Definition pending_recommendations (state : json) : G (list PendingItem) :=
  run! now <- now_unix; log_ret (pending_at now state).
Definition is_pending_recipe (state : json) (recipe_id : string) : G bool :=
  run! pending <- pending_recommendations state; log_ret (existsb (λ p, String.eqb (pi_recipe_id p) recipe_id) pending).

Definition cooling (now : Q) (recipe : Recipe) (item : json) : bool :=
  bool_decide (recipe_id_of item = Some (rc_id recipe)) && bool_decide (action_of item = Some "executed")
  && negb (bool_decide (field as_bool "verified" item = Some false))
  && Qlt_bool (now - unwrap_or (field as_f64 "timestamp" item) 0%Q) (inject_Z (rc_cooldown recipe)).
Definition cooldown_active (state : json) (recipe : Recipe) : G bool :=
  run! now <- now_unix;
  log_ret (match field as_array "history" state with Some history => existsb (cooling now recipe) history | None => false end).

(** ** The gate *)

Definition record_of (timestamp : Q) (recipe_id source action : string) (verified : json) (detail : string) : json :=
  jobject [("timestamp", stamp timestamp); ("recipe_id", JString recipe_id); ("source", JString source); ("action", JString action);
           ("verified", verified); ("detail", JString detail)].

(** What runs behind the gate: the repair, its verification and the record. *)
Definition perform_recipe (recipe : Recipe) (state : json) : G (result string) :=
  run! result <- (if str_in (rc_id recipe) EXECUTOR_ONLY then run_executor (rc_id recipe) else run_command (rc_command recipe));
  let ok := is_ok result in
  let detail := match result with Ok d => d | Err d => d end in
  run! verified <- (if ok then verify_recipe (rc_id recipe) else log_ret false);
  run! now <- now_unix;
  run! _ <- save_state (with_history (λ h, cap_history (h ++ [record_of now (rc_id recipe) "hub" "executed" (JBool verified) detail])) state);
  log_ret (if ok && verified then Ok detail
           else if ok then Err (detail +:+ "; post-repair verification failed")
           else Err detail).

Definition execute_recipe (recipe_id : string) : G (result string) :=
  match find_recipe recipe_id with
  | None => log_ret (Err NOT_ELIGIBLE)
  | Some recipe =>
      if bool_decide (rc_command recipe = []) || negb (str_in (rc_risk recipe) ["safe"; "confirm"]) then log_ret (Err NOT_ELIGIBLE) else
      run! n <- g_tick;
      if go_slot_taken os n then log_ret (Err "another Guardian repair is already running") else
      run! state <- load_state;
      run! pending <- is_pending_recipe state recipe_id;
      if negb pending then log_ret (Err "recipe is not currently recommended by Guardian") else
      run! cooling <- cooldown_active state recipe;
      if (cooling : bool) then log_ret (Err "repair cooldown is active") else
      if rc_requires_auth recipe && negb (go_askpass os) then
        log_ret (Err (rc_title recipe +:+ " needs an administrator password, and this session has no askpass helper — run it from a terminal"))
      else perform_recipe recipe state
  end.

Definition dismiss_recommendation (recipe_id : string) : G (result string) :=
  run! state <- load_state;
  run! pending <- is_pending_recipe state recipe_id;
  if negb pending then log_ret (Err "recommendation is no longer pending") else
  match field as_array "history" state with
  | None => log_ret (Err "Guardian history is unavailable")
  | Some history =>
      run! now <- now_unix;
      try! _ <- save_state (jset "history" (JArray (history ++
        [record_of now recipe_id "hub" "dismissed" JNull "Dismissed from the Home screen."])) state);
      log_ret (Ok ("Dismissed " +:+ recipe_title recipe_id +:+ "."))
  end.

(** ** The service check *)

(** The loop over the recipes; [active] are the components with a symptom. *)
Fixpoint count_occurrences (active : gset string) (rs : list Recipe) (occurrences : gmap string json) : gmap string json :=
  match rs with
  | [] => occurrences
  | r :: rs =>
      let count := if bool_decide (rc_component r ∈ active)
                   then sat_add_i64 (unwrap_or (occurrences !! rc_component r ≫= as_i64) 0) 1 else 0 in
      count_occurrences active rs (<[rc_component r := JNumber count]> occurrences)
  end.
Definition symptom_components (symptoms : list json) : gset string :=
  list_to_set (omap (field as_str "component") symptoms).

Definition record_service_check (symptoms decisions : list json) : G (result json) :=
  run! state <- load_state;
  match jget "occurrences" state with
  | Some (JObject occurrences) =>
      let state := jset "occurrences" (JObject (count_occurrences (symptom_components symptoms) recipes occurrences)) state in
      match field as_array "history" state with
      | None => log_ret (Err "Guardian history is unavailable")
      | Some history =>
          let history := cap_history (coalesce_recommendations (foldl append_history_record history decisions)) in
          run! now <- now_unix;
          let state := jset "last_check" (stamp now) (jset "history" (JArray history) state) in
          try! _ <- save_state state; log_ret (Ok state)
      end
  | _ => log_ret (Err "Guardian occurrences are unavailable")
  end.

(** ** [kyth-guardian check] and [fix] *)

Definition first_recipe (item : json) : string :=
  match jget "recipes" item with
  | Some (JArray (r :: _)) => unwrap_or (as_str r) EmptyString
  | _ => EmptyString
  end.
Definition safe_automatic (recipe_id : string) : bool :=
  match find_recipe recipe_id with
  | Some r => rc_automatic r && String.eqb (rc_risk r) "safe"
  | None => false
  end.
Definition service_record (timestamp : Q) (recipe_id : string) (explanation : json) (action : string) (verified detail : json) : json :=
  jobject [("timestamp", stamp timestamp); ("recipe_id", JString recipe_id); ("source", JString "native-service");
           ("confidence", JFloat "1.0"); ("explanation", explanation); ("action", JString action); ("verified", verified);
           ("detail", detail)].
Definition member (key : string) (v : json) : json := unwrap_or (jget key v) JNull.

(** One symptom: the decision, and the record that is kept. *)
Definition check_symptom (automatic : bool) (item : json) : G (json * option json) :=
  let recipe_id := first_recipe item in
  if automatic && safe_automatic recipe_id then
    run! result <- execute_recipe recipe_id;
    run! now <- now_unix;
    log_ret (match result with
             | Ok detail => service_record now recipe_id (member "message" item) "executed" (JBool true) (JString detail)
             | Err detail => service_record now recipe_id (member "message" item) "executed" (JBool false) (JString detail)
             end, None)
  else
    run! now <- now_unix;
    let record := service_record now recipe_id (member "message" item) "recommended" JNull (member "evidence" item) in
    log_ret (record, Some record).
Fixpoint check_symptoms (automatic : bool) (symptoms : list json) : G (list json * list json) :=
  match symptoms with
  | [] => log_ret ([], [])
  | item :: symptoms =>
      run! d <- check_symptom automatic item;
      run! rest <- check_symptoms automatic symptoms;
      log_ret (fst d :: fst rest, option_list (snd d) ++ snd rest)
  end.

(** The suggestion of the local model, already parsed. *)
Record ModelDecision := { md_recipe_id : string; md_confidence : string; md_explanation : string; md_probe_id : option string }.

Definition check_model (automatic persist : bool) (decision : ModelDecision) : G (json * option json) :=
  let recipe_id := md_recipe_id decision in
  run! result <- (if automatic && safe_automatic recipe_id then execute_recipe recipe_id else log_ret (Err "confirmation required"));
  run! now <- now_unix;
  let record action verified detail :=
    jobject [("timestamp", stamp now); ("recipe_id", JString recipe_id); ("source", JString "local-ai");
             ("confidence", JFloat (md_confidence decision)); ("explanation", JString (md_explanation decision));
             ("action", JString action); ("verified", verified); ("detail", JString detail)] in
  log_ret (match result with
           | Ok detail => (record "executed" (JBool true) detail, None)
           | Err detail => (record "recommended" JNull detail, if persist then Some (record "recommended" JNull detail) else None)
           end).

Record CheckReport := { cr_enabled : bool; cr_automatic : bool; cr_symptoms : list json; cr_decisions : list json; cr_pending : list PendingItem }.

(** [settings] is the configuration file, [found] what the probes report and
    [model] the suggestion asked for with [investigate]. *)
Definition check (settings : json) (found : list json) (model : option ModelDecision) (persist allow_automatic : bool) : G CheckReport :=
  let enabled := unwrap_or (field as_bool "enabled" settings) true in
  let symptoms := if enabled then found else [] in
  let automatic := allow_automatic && unwrap_or (field as_bool "automatic_safe_fixes" settings) false in
  run! done <- check_symptoms automatic symptoms;
  run! extra <- match model with
                | Some decision => run! d <- check_model automatic persist decision; log_ret ([fst d], option_list (snd d))
                | None => log_ret ([], [])
                end;
  run! _ <- (if persist then record_service_check symptoms (snd done ++ snd extra) else log_ret (Err EmptyString));
  run! state <- load_state;
  run! pending <- pending_recommendations state;
  log_ret {| cr_enabled := enabled; cr_automatic := automatic; cr_symptoms := symptoms; cr_decisions := fst done ++ fst extra;
             cr_pending := pending |}.

(** The loop of [fix]; [confirm] is the answer at the terminal.  An unknown recipe
    ends the command. *)
Fixpoint fix_recipes (yes_all : bool) (confirm : string → bool) (ids : list string) : G (option (list (string * result string))) :=
  match ids with
  | [] => log_ret (Some [])
  | id :: ids =>
      match find_recipe id with
      | None => log_ret None
      | Some recipe =>
          run! outcome <- (if String.eqb (rc_risk recipe) "confirm" && negb yes_all && negb (confirm id)
                           then log_ret (Err "confirmation declined") else execute_recipe id);
          run! rest <- fix_recipes yes_all confirm ids;
          log_ret (((id, outcome) ::.) <$> rest)
      end
  end.

End Machine.

(** * Properties *)

(** ** What a computation may do

    From a store in [I] it ends in a store in [I], and everything it does is in
    [P]. *)
Section Confined.
Context (I : StateFile → Prop) (P : GEvent → Prop).

Definition confined {A} (c : G A) : Prop :=
  ∀ s r s' l, I (gs_store s) → c s = (r, s', l) → I (gs_store s') ∧ Forall P l.

Lemma confined_ret {A} (a : A) : confined (log_ret a).
Proof. intros s r s' l HI [= <- <- <-]. done. Qed.
Lemma confined_fail {A} e : confined (A := A) (log_fail e).
Proof. intros s r s' l HI [= <- <- <-]. done. Qed.
Lemma confined_tick : confined g_tick.
Proof. intros s r s' l HI [= <- <- <-]. done. Qed.
Lemma confined_load : (∀ file, P (Preserved file)) → confined load_state.
Proof.
  intros HP s r s' l HI [= <- <- <-]. split; [done|]. unfold preserved. destruct (damaged _); [|done].
  by apply Forall_singleton.
Qed.
Lemma confined_out e : P e → confined (log_out e).
Proof. intros He s r s' l HI [= <- <- <-]. split; [done|by constructor]. Qed.
Lemma confined_bind {A B} (c : G A) (k : A → G B) : confined c → (∀ a, confined (k a)) → confined (log_bind c k).
Proof.
  intros Hc Hk s r s' l HI [(a & s1 & l1 & l2 & E1 & E2 & ->)|(e & E & _)]%log_bind_cases; [|by eapply Hc].
  destruct (Hc _ _ _ _ HI E1) as [H1 F1]. destruct (Hk a _ _ _ _ H1 E2) as [H2 F2]. split; [done|by apply Forall_app].
Qed.
Lemma confined_try {A B} (c : G (result A)) (k : A → G (result B)) :
  confined c → (∀ a, confined (k a)) → confined (g_try c k).
Proof. intros Hc Hk. apply confined_bind; [done|]. intros [a|e]; [apply Hk|apply confined_ret]. Qed.

Context (os : GuardOs).
Lemma confined_now : confined (now_unix os).
Proof. apply confined_bind; [apply confined_tick|intros ?; apply confined_ret]. Qed.
Lemma confined_save state :
  (I (Stored (normalized_state state)) ∧ P (Saved (normalized_state state))) → confined (save_state os state).
Proof.
  intros [H1 H2] s r s' l HI. unfold save_state. destruct (go_save os (gs_step s)); intros [= <- <- <-]; cbn; [|done].
  split; [done|by constructor].
Qed.

Lemma confined_command argv : P (Ran argv) → confined (run_command os argv).
Proof.
  intros Hp. apply confined_bind.
  { apply confined_bind; [apply confined_tick|]. intros ?. apply confined_bind; [by apply confined_out|]. intros ?. apply confined_ret. }
  intros [| |ok out err]; try apply confined_ret. destruct (truncate_detail _); [apply confined_ret|apply confined_fail].
Qed.
Lemma confined_run_ok argv : P (Ran argv) → confined (run_ok os argv).
Proof. intros Hp. apply confined_bind; [by apply confined_command|]. intros ?. apply confined_ret. Qed.
Lemma confined_succeeds argv : P (Ran argv) → confined (succeeds os argv).
Proof. intros Hp. apply confined_bind; [by apply confined_run_ok|]. intros ?. apply confined_ret. Qed.
End Confined.

Create HintDb guardian.
#[export] Hint Resolve confined_ret confined_fail confined_tick confined_load confined_now : guardian.

(** ** The gate *)

Section Gate.
Context `{HF : Floats} (os : GuardOs).

(** What has to hold before a repair runs, in the order it is asked. *)
Record gate (recipe_id : string) (recipe : Recipe) (s : GState) : Prop := {
  ga_recipe : find_recipe recipe_id = Some recipe;
  ga_command : rc_command recipe ≠ [];
  ga_risk : rc_risk recipe ∈ ["safe"; "confirm"];
  ga_slot : go_slot_taken os (gs_step s) = false;
  ga_pending : ∃ p, p ∈ pending_at (go_now os (S (gs_step s))) (loaded (gs_store s)) ∧ pi_recipe_id p = recipe_id;
  ga_cooldown : ∀ item, item ∈ unwrap_or (field as_array "history" (loaded (gs_store s))) [] →
    cooling (go_now os (S (S (gs_step s)))) recipe item = false;
  ga_auth : rc_requires_auth recipe = true → go_askpass os = true;
}.

(** A damaged file reads as no recommendation at all. *)
Lemma pending_undamaged now store recipe_id :
  existsb (λ p, String.eqb (pi_recipe_id p) recipe_id) (pending_at now (loaded store)) = true → preserved store = [].
Proof.
  unfold preserved. destruct (damaged store) eqn:E; [|done].
  assert (loaded store = empty_state) as ->.
  { destruct store as [| |v]; [done..|]. cbn in E |- *. by destruct (well_formed v). }
  done.
Qed.

Lemma execute_cases recipe_id s r s' l :
  execute_recipe os recipe_id s = (r, s', l) →
  (∃ e, r = inl (Err e) ∧ gs_store s' = gs_store s ∧ (l = [] ∨ l = preserved (gs_store s))) ∨
  ∃ recipe, gate recipe_id recipe s ∧
    perform_recipe os recipe (loaded (gs_store s)) {| gs_step := S (S (S (gs_step s))); gs_store := gs_store s |} = (r, s', l).
Proof.
  unfold execute_recipe. destruct (find_recipe recipe_id) as [recipe|] eqn:Ef; [|intros [= <- <- <-]; left; by eauto].
  destruct (_ || _) eqn:Eb; [intros [= <- <- <-]; left; by eauto|]. apply orb_false_iff in Eb as [E1 E2].
  unfold log_bind at 1, g_tick at 1. cbn [gs_step gs_store].
  destruct (go_slot_taken os (gs_step s)) eqn:Es; [intros [= <- <- <-]; left; by eauto|].
  cbn -[pending_at cooling perform_recipe with_history loaded preserved].
  destruct (existsb _ (pending_at _ _)) eqn:Ep; cbn -[pending_at cooling perform_recipe with_history loaded preserved];
    [|rewrite app_nil_r; intros [= <- <- <-]; left; by eauto].
  destruct (match field as_array _ _ with Some _ => _ | None => _ end) eqn:Ec;
    cbn -[pending_at cooling perform_recipe with_history loaded preserved]; [rewrite app_nil_r; intros [= <- <- <-]; left; by eauto|].
  destruct (rc_requires_auth recipe && negb (go_askpass os)) eqn:Ea;
    cbn -[pending_at cooling perform_recipe with_history loaded preserved]; [rewrite app_nil_r; intros [= <- <- <-]; left; by eauto|].
  destruct (perform_recipe _ _ _ _) as [[r0 s0] l0] eqn:E.
  rewrite (pending_undamaged _ _ _ Ep). intros [= <- <- <-]. right. exists recipe. split; [|done].
  split; [done|by apply bool_decide_eq_false in E1|by apply negb_false_iff, str_in_true in E2|done| | |].
  - apply existsb_exists in Ep as (p & Hp%list_elem_of_In & He%String.eqb_eq). by exists p.
  - intros item Hi. destruct (field as_array "history" _) as [h|]; [|by apply elem_of_nil in Hi]. cbn in Hi.
    destruct (cooling _ recipe item) eqn:Ei; [|done]. assert (existsb (cooling (go_now os (S (S (gs_step s)))) recipe) h = true); [|congruence].
    apply existsb_exists. exists item. split; [by apply list_elem_of_In|done].
  - intros Hr. rewrite Hr in Ea. by destruct (go_askpass os).
Qed.
End Gate.

(** ** The commands *)

(** The programs of the repairs; none of them interprets a command line. *)
Definition PROGRAMS : list string :=
  ["systemctl"; "flatpak"; "sudo"; "/usr/bin/kyth-btrfs-maint"; "flock"; "nmcli"; "pactl"; "powerprofilesctl"; "resolvectl";
   "systemd-resolve"; "fwupdmgr"; "kscreen-doctor"].

(** Commands without any text from the machine. *)
Definition FIXED_COMMANDS : list (list string) :=
  (rc_command <$> recipes) ++
  [["kscreen-doctor"; "-o"]; ["systemd-resolve"; "--flush-caches"]; ["nmcli"; "networking"; "on"];
   ["systemctl"; "--user"; "restart"; "plasma-xdg-desktop-portal-kde.service"]; ["fwupdmgr"; "refresh"; "--force"];
   ["pactl"; "get-default-sink"]; ["nmcli"; "-t"; "-f"; "STATE"; "general"]; ["systemctl"; "is-active"; "--quiet"; "joycond.service"];
   ["systemctl"; "--user"; "is-active"; "--quiet"; "xdg-desktop-portal.service"]; ["fwupdmgr"; "get-updates"];
   ["powerprofilesctl"; "get"]; ["systemctl"; "--user"; "is-active"; "--quiet"; "pipewire.service"]].

(** A command of a repair: fixed, or with one name read from the machine. *)
Inductive repair_command : list string → Prop :=
| Fixed argv : argv ∈ FIXED_COMMANDS → repair_command argv
| SetSink sink : usable_sink sink = true → repair_command ["pactl"; "set-default-sink"; sink]
| RaiseVpn name : name ≠ EmptyString → repair_command ["nmcli"; "connection"; "up"; name]
| PinDns link ip : is_tunnel link = true → ip ∈ ["1.1.1.1"; "8.8.8.8"; "9.9.9.9"] → repair_command ["resolvectl"; "dns"; link; ip]
| PinDomain link : is_tunnel link = true → repair_command ["resolvectl"; "domain"; link; "~."].

Definition repair_event (e : GEvent) : Prop := match e with Ran argv => repair_command argv | Saved _ => True | Preserved _ => False end.

Lemma dedup_elem l x : x ∈ dedup l → x ∈ l.
Proof.
  induction l as [|a l IH]; cbn; [done|]. destruct (dedup l) as [|y l'] eqn:E.
  - intros ->%list_elem_of_singleton. by left.
  - destruct (String.eqb_spec a y) as [->|].
    + intros H. right. by apply IH.
    + intros [->|H]%elem_of_cons; [by left|right; by apply IH].
Qed.

Lemma tunnel_links_tunnels output link : link ∈ vpn_tunnel_links output → is_tunnel link = true.
Proof.
  unfold vpn_tunnel_links. intros H%dedup_elem. rewrite merge_sort_Permutation in H.
  apply list_elem_of_omap in H as (line & _ & H). unfold tunnel_of in H. destruct (link_name (trim line)) as [n|]; [|done]. cbn in H.
  destruct (is_tunnel n) eqn:E; [|done]. by injection H as <-.
Qed.

Lemma dns_ip_listed preset : is_empty (dns_ip preset) = false → dns_ip preset ∈ ["1.1.1.1"; "8.8.8.8"; "9.9.9.9"].
Proof. unfold dns_ip. repeat case_match; [set_solver|set_solver|done|set_solver]. Qed.

Lemma is_tunnel_nonempty link : is_tunnel link = true → is_empty link = false.
Proof. by destruct link. Qed.

Section Commands.
Context (I : StateFile → Prop) (os : GuardOs).

Lemma fixed_event argv : bool_decide (argv ∈ FIXED_COMMANDS) = true → repair_event (Ran argv).
Proof. intros H%bool_decide_eq_true. by apply Fixed. Qed.

Lemma confined_pin vpn_dns links :
  np_vpn_dns_exclusive (go_preset os) = true → vpn_dns ∈ ["1.1.1.1"; "8.8.8.8"; "9.9.9.9"] → is_empty vpn_dns = false →
  Forall (λ link, is_tunnel link = true) links → confined I repair_event (pin_links os vpn_dns links).
Proof.
  intros He Hd Hn. induction 1 as [|link links Hl _ IH]; cbn [pin_links]; [apply confined_ret|].
  unfold vpn_exclusive_dns_argv, vpn_exclusive_domain_argv. rewrite He, Hn, (is_tunnel_nonempty link Hl). cbn [negb orb].
  apply confined_bind; [apply confined_succeeds; by apply PinDns|]. intros []; cbn [negb]; [|apply confined_ret].
  apply confined_bind; [apply confined_succeeds; by apply PinDomain|]. intros []; cbn [negb]; [exact IH|apply confined_ret].
Qed.

Lemma confined_exclusive : confined I repair_event (apply_vpn_dns_exclusive_live os).
Proof.
  unfold apply_vpn_dns_exclusive_live. destruct (np_vpn_dns_exclusive (go_preset os)) eqn:He; [|apply confined_ret]. cbn [negb].
  apply confined_bind; [apply confined_command; by apply fixed_event|]. intros [output|e]; [|apply confined_ret].
  case_bool_decide; [apply confined_ret|]. destruct (is_empty (dns_ip (go_preset os))) eqn:Hn; [apply confined_ret|].
  apply confined_try; [|intros ?; apply confined_ret]. apply confined_pin; [done|by apply dns_ip_listed|done|].
  apply Forall_forall. intros link. apply tunnel_links_tunnels.
Qed.

(** The steps of the other repairs. *)
Ltac confine :=
  repeat first
    [ apply confined_ret | apply confined_exclusive | apply confined_tick
    | apply confined_command; by apply fixed_event | apply confined_run_ok; by apply fixed_event
    | apply confined_succeeds; by apply fixed_event
    | apply confined_try; [|intros ?] | apply confined_bind; [|intros ?] ].
#[local] Opaque run_command run_ok succeeds.

Lemma confined_executor id : confined I repair_event (run_executor os id).
Proof.
  unfold run_executor. repeat (case_match; [try solve [confine]|]); [..|apply confined_ret].
  - confine. destruct (choose_sink a) as [sink|] eqn:E; [|apply confined_ret]. apply find_first_Some in E as [_ E].
    apply confined_try; [apply confined_run_ok; by apply SetSink|intros ?; apply confined_ret].
  - confine. destruct a; confine.
  - confine. destruct a0; confine.
  - confine. destruct (find_map always_on_vpn (lines a)) as [name|] eqn:E; [|apply confined_ret].
    apply find_map_Some in E as (line & _ & E). unfold always_on_vpn in E. destruct (rsplit3 line) as [[? ?] n].
    destruct (_ && _) eqn:Eb; [|done]. injection E as <-. apply andb_true_iff in Eb as [_ Hn%negb_true_iff%is_empty_false].
    apply confined_try; [apply confined_run_ok; by apply RaiseVpn|intros ?; apply confined_ret].
  - confine. destruct a; confine.
Qed.

Lemma confined_verify id : confined I repair_event (verify_recipe os id).
Proof. unfold verify_recipe. repeat (case_match; [by confine|]). confine. Qed.
End Commands.

Section Gated.
Context `{HF : Floats} (os : GuardOs).

Lemma find_recipe_listed id r : find_recipe id = Some r → r ∈ recipes ∧ rc_id r = id.
Proof. intros [H1 H2]%find_first_Some. split; [done|by apply String.eqb_eq]. Qed.

Lemma confined_perform (I : StateFile → Prop) recipe_id recipe state :
  find_recipe recipe_id = Some recipe → (∀ h, I (Stored (normalized_state (with_history h state)))) →
  confined I repair_event (perform_recipe os recipe state).
Proof.
  intros [Hr _]%find_recipe_listed HI. unfold perform_recipe. apply confined_bind.
  - destruct (str_in _ _); [apply confined_executor|]. apply confined_command, Fixed, elem_of_app. left.
    apply list_elem_of_fmap. by exists recipe.
  - intros result. cbn zeta. apply confined_bind; [destruct (is_ok result); [apply confined_verify|apply confined_ret]|].
    intros verified. apply confined_bind; [apply confined_now|]. intros now. apply confined_bind; [|intros ?; apply confined_ret].
    by apply confined_save.
Qed.

(** C35: the Guardian runs nothing and saves nothing for a recipe unless every
    condition of the gate holds: a recipe of the table with a command and an
    acceptable risk, no repair running in the same process, currently recommended,
    not cooling down, and a way to ask for the password it needs.  Every command is
    then one of the fixed command lines, or one of four with a single name read
    from the machine.  Otherwise the request is refused with an error and the state
    file stays as it was; all that may be written is a copy of a damaged state
    file. *)
Theorem repairs_gated recipe_id s r s' l
  (E : execute_recipe os recipe_id s = (r, s', l)) :
  ((∃ recipe, gate os recipe_id recipe s) ∧ Forall repair_event l) ∨
  ∃ e, r = inl (Err e) ∧ gs_store s' = gs_store s ∧
    (l = [] ∨ (damaged (gs_store s) = true ∧ l = [Preserved (gs_store s)])).
Proof.
  apply execute_cases in E as [(e & -> & Hs & Hl)|(recipe & Hg & E)]; [right|left; split; [by exists recipe|]].
  - exists e. split_and!; [done|done|]. destruct Hl as [->| ->]; [by left|]. unfold preserved. destruct (damaged _); auto.
  - eapply (confined_perform (λ _, True)) in E; [exact (proj2 E)|exact (ga_recipe _ _ _ _ Hg)|done|done].
Qed.
End Gated.

(** ** The history *)

Section History.
Context `{HF : Floats}.

Lemma field_history_set h state :
  is_Some (field as_array "history" state) → field as_array "history" (jset "history" (JArray h) state) = Some h.
Proof.
  intros [h0 Hh]. unfold field, jget in *. destruct state; try done. cbn. by rewrite lookup_insert_eq.
Qed.

Lemma insert_elem {A} (i : nat) (x y : A) (l : list A) : y ∈ <[i := x]> l → y = x ∨ y ∈ l.
Proof.
  intros [j Hj]%list_elem_of_lookup. destruct (decide (i = j)) as [->|Hne].
  - assert (j < length l)%nat as Hlt by (apply lookup_lt_Some in Hj; by rewrite length_insert in Hj).
    rewrite list_lookup_insert_eq in Hj by done. injection Hj as <-. by left.
  - rewrite list_lookup_insert_ne in Hj by done. apply list_elem_of_lookup_2 in Hj. by right.
Qed.

Lemma coalesce_elem active compact h x : x ∈ coalesce active compact h → x ∈ compact ++ h.
Proof.
  revert active compact. induction h as [|item h IH]; intros active compact; cbn [coalesce]; [by rewrite app_nil_r|]. cbn zeta.
  destruct (_ && _).
  - destruct (active !! _) as [i|]; intros H%IH.
    + apply elem_of_app in H as [[->|H]%insert_elem|H]; set_solver.
    + by rewrite <-app_assoc in H.
  - intros H%IH. by rewrite <-app_assoc in H.
Qed.

(** A record that is not a recommendation stays the last one. *)
Lemma coalesce_snoc active compact h x :
  is_recommended x = false → ∃ h', coalesce active compact (h ++ [x]) = h' ++ [x] ∧ ∀ y, y ∈ h' → y ∈ compact ++ h.
Proof.
  intros Hx. revert active compact. induction h as [|item h IH]; intros active compact; cbn [app coalesce]; cbn zeta.
  - rewrite Hx, andb_false_r. exists compact. split; [done|set_solver].
  - assert (∀ a, ∃ h', coalesce a (compact ++ [item]) (h ++ [x]) = h' ++ [x] ∧ ∀ y, y ∈ h' → y ∈ compact ++ item :: h) as Hpush.
    { intros a. destruct (IH a (compact ++ [item])) as (h' & -> & Hh). exists h'. split; [done|]. intros y Hy%Hh. by rewrite <-app_assoc in Hy. }
    destruct (_ && _); [|apply Hpush]. destruct (active !! _) as [i|]; [|apply Hpush].
    destruct (IH active (<[i := item]> compact)) as (h' & -> & Hh). exists h'. split; [done|]. intros y Hy.
    destruct (proj1 (elem_of_app _ _ _) (Hh y Hy)) as [[->|?]%insert_elem|?]; set_solver.
Qed.

Lemma cap_elem h x : x ∈ cap_history h → x ∈ h.
Proof. apply subseteq_drop. Qed.
Lemma cap_snoc h x : ∃ h', cap_history (h ++ [x]) = h' ++ [x] ∧ ∀ y, y ∈ h' → y ∈ h.
Proof.
  unfold cap_history, HISTORY_LIMIT. rewrite length_app. cbn [length]. rewrite drop_app_le by lia.
  eexists. split; [done|]. apply subseteq_drop.
Qed.

(** The saved history of a state whose last record is not a recommendation. *)
Lemma normalized_snoc state h x :
  field as_array "history" state = Some (h ++ [x]) → is_recommended x = false →
  ∃ h', field as_array "history" (normalized_state state) = Some (h' ++ [x]) ∧ ∀ y, y ∈ h' → y ∈ h.
Proof.
  intros Hs Hx. unfold normalized_state, with_history. rewrite Hs, field_history_set by done.
  destruct (coalesce_snoc ∅ [] h x Hx) as (h1 & E1 & H1). unfold coalesce_recommendations. rewrite E1.
  destruct (cap_snoc h1 x) as (h2 & -> & H2). exists h2. split; [done|]. intros y Hy. by apply H1, H2.
Qed.

Lemma normalized_elem state h x :
  field as_array "history" state = Some h → x ∈ unwrap_or (field as_array "history" (normalized_state state)) [] → x ∈ h.
Proof.
  intros Hs. unfold normalized_state, with_history. rewrite Hs, field_history_set by done. cbn. intros H%cap_elem.
  by apply coalesce_elem in H.
Qed.

(** After saving the history has at most two hundred records. *)
Lemma normalized_bounded state h :
  field as_array "history" (normalized_state state) = Some h → (length h <= HISTORY_LIMIT)%nat.
Proof.
  unfold normalized_state, with_history. destruct (field as_array "history" state) as [h0|] eqn:E; [|congruence].
  rewrite field_history_set by done. intros [= <-]. unfold cap_history. rewrite length_drop. lia.
Qed.

Lemma normalized_well_formed state : well_formed state = true → well_formed (normalized_state state) = true.
Proof.
  unfold well_formed, normalized_state, with_history. destruct (field as_array "history" state) as [h|] eqn:E; [|by rewrite andb_false_r].
  rewrite field_history_set by done. rewrite andb_true_r. intros Ho. destruct state; done.
Qed.

(** ** Pending *)

Definition timestamp_of (item : json) : option Q := field as_f64 "timestamp" item.

Lemma latest_items_elem now h id q y :
  latest_items now h !! id = Some (q, y) →
  y ∈ h ∧ recipe_id_of y = Some id ∧ timestamp_of y = Some q ∧ (now - q <= NOTIFY_THROTTLE_S)%Q.
Proof.
  induction h as [|item h IH] using rev_ind; [done|]. unfold latest_items. rewrite foldl_snoc. fold (latest_items now h).
  assert (latest_items now h !! id = Some (q, y) → y ∈ h ++ [item] ∧ recipe_id_of y = Some id ∧ timestamp_of y = Some q
    ∧ (now - q <= NOTIFY_THROTTLE_S)%Q) as Hold by (intros (? & ?)%IH; set_solver).
  unfold note_item. destruct (recipe_id_of item) as [i|] eqn:Ei; [|done]. destruct (field as_f64 "timestamp" item) as [t|] eqn:Et; [|done].
  destruct (Qlt_bool _ _) eqn:Ew; [done|].
  assert (<[i := (t, item)]> (latest_items now h) !! id = Some (q, y) → y ∈ h ++ [item] ∧ recipe_id_of y = Some id ∧ timestamp_of y = Some q
    ∧ (now - q <= NOTIFY_THROTTLE_S)%Q) as Hnew.
  { intros [[-> [= <- <-]]|[_ H]]%lookup_insert_Some; [|by apply Hold]. split_and!; [set_solver|done|done|].
    unfold Qlt_bool in Ew. apply negb_false_iff in Ew. by apply Qle_bool_iff. }
  destruct (latest_items now h !! i) as [[p z]|]; [|done]. destruct (Qle_bool p t); done.
Qed.

(** A recipe whose last record, by order and by time, is not a recommendation is
    not pending, at any time. *)
Lemma closed_not_pending now state h x id t :
  field as_array "history" state = Some (h ++ [x]) → is_recommended x = false → recipe_id_of x = Some id → timestamp_of x = Some t →
  (∀ y q, y ∈ h → recipe_id_of y = Some id → timestamp_of y = Some q → (q <= t)%Q) →
  ∀ p, p ∈ pending_at now state → pi_recipe_id p ≠ id.
Proof.
  intros Hh Hx Hid Ht Hmax p Hp Hpid. unfold pending_at in Hp. rewrite Hh in Hp.
  apply list_elem_of_fmap in Hp as (y & -> & Hy). apply elem_of_filterb in Hy as [Hy Hrec].
  apply list_elem_of_fmap in Hy as ([k [q y']] & -> & Hin). cbn in *. apply elem_of_map_to_list in Hin.
  destruct (latest_items_elem _ _ _ _ _ Hin) as (_ & Hk & _). unfold pending_item in Hpid. cbn in Hpid. rewrite Hk in Hpid. cbn in Hpid. subst k.
  unfold latest_items in Hin. rewrite foldl_snoc in Hin. fold (latest_items now h) in Hin. unfold note_item in Hin.
  rewrite Hid in Hin. unfold timestamp_of in Ht. rewrite Ht in Hin. destruct (Qlt_bool _ _) eqn:Ew.
  - destruct (latest_items_elem _ _ _ _ _ Hin) as (Hy & Hk' & Hq & Hw). specialize (Hmax y' q Hy Hk' Hq).
    unfold Qlt_bool in Ew. apply negb_true_iff in Ew. destruct (Qle_bool (now - t) NOTIFY_THROTTLE_S) eqn:E; [done|].
    assert (now - t <= NOTIFY_THROTTLE_S)%Q as H by lra. apply Qle_bool_iff in H. congruence.
  - destruct (latest_items now h !! id) as [[p z]|] eqn:El.
    + destruct (latest_items_elem _ _ _ _ _ El) as (Hz & Hk' & Hq & _). specialize (Hmax z p Hz Hk' Hq). apply Qle_bool_iff in Hmax.
      rewrite Hmax, lookup_insert_eq in Hin. injection Hin as _ <-. congruence.
    + rewrite lookup_insert_eq in Hin. injection Hin as _ <-. congruence.
Qed.
End History.

(** ** Dismissing *)

Section Dismiss.
Context `{HF : Floats} `{HL : !FloatsLaws} (os : GuardOs).

Lemma record_fields t id source action verified detail :
  recipe_id_of (record_of t id source action verified detail) = Some id ∧
  timestamp_of (record_of t id source action verified detail) = Some t ∧
  action_of (record_of t id source action verified detail) = Some action ∧
  field as_bool "verified" (record_of t id source action verified detail) = as_bool verified.
Proof.
  split_and!; try reflexivity. unfold timestamp_of, field, record_of. cbn. apply as_f64_stamp.
Qed.

Lemma loaded_history store : ∃ h, field as_array "history" (loaded store) = Some h.
Proof.
  unfold loaded. destruct store as [| |v]; [by eexists..|]. destruct (well_formed v) eqn:E; [|by eexists].
  unfold well_formed in E. destruct (field as_array "history" v); [by eexists|by rewrite andb_false_r in E].
Qed.
Lemma loaded_well_formed store : well_formed (loaded store) = true.
Proof. unfold loaded. destruct store as [| |v]; [done..|]. by destruct (well_formed v) eqn:E. Qed.

Lemma set_history_well_formed h state : well_formed state = true → well_formed (jset "history" (JArray h) state) = true.
Proof.
  unfold well_formed. destruct (field as_array "history" state) eqn:E; [|by rewrite andb_false_r].
  rewrite field_history_set by done. destruct state; done.
Qed.

(** A state saved with a new last record for [id] that closes it. *)
Lemma saved_not_pending store h now0 id source action verified detail :
  field as_array "history" (loaded store) = Some h → action ≠ "recommended" →
  (∀ y q, y ∈ h → recipe_id_of y = Some id → timestamp_of y = Some q → (q <= now0)%Q) →
  let state := jset "history" (JArray (h ++ [record_of now0 id source action verified detail])) (loaded store) in
  ∀ now p, p ∈ pending_at now (loaded (Stored (normalized_state state))) → pi_recipe_id p ≠ id.
Proof.
  intros Hh Ha Hmax state now p. set (x := record_of now0 id source action verified detail) in *.
  destruct (record_fields now0 id source action verified detail) as (Hid & Ht & Hact & _). fold x in Hid, Ht, Hact.
  assert (is_recommended x = false) as Hx by (unfold is_recommended; rewrite Hact; apply bool_decide_eq_false_2; congruence).
  assert (field as_array "history" state = Some (h ++ [x])) as Hs by (by apply field_history_set).
  destruct (normalized_snoc state h x Hs Hx) as (h' & Hn & Hsub).
  assert (well_formed (normalized_state state) = true) as Hw
    by (apply normalized_well_formed, set_history_well_formed, loaded_well_formed).
  unfold loaded. rewrite Hw. eapply closed_not_pending; [exact Hn|done|done|done|]. intros y q Hy. by apply Hmax, Hsub.
Qed.

(** A dismissed recommendation stays dismissed: if the clock was not behind the
    recorded times of the recipe when it was dismissed with success, the recipe is
    not pending in the stored document at any later or earlier time. *)
Theorem dismissed_stays_dismissed recipe_id s d s' l
  (E : dismiss_recommendation os recipe_id s = (inl (Ok d), s', l))
  (Hclock : ∀ item q, item ∈ unwrap_or (field as_array "history" (loaded (gs_store s))) [] →
     recipe_id_of item = Some recipe_id → timestamp_of item = Some q → (q <= go_now os (S (gs_step s)))%Q) :
  ∀ now p, p ∈ pending_at now (loaded (gs_store s')) → pi_recipe_id p ≠ recipe_id.
Proof.
  destruct (loaded_history (gs_store s)) as [h Hh]. rewrite Hh in Hclock. cbn [unwrap_or] in Hclock.
  unfold dismiss_recommendation in E. apply log_bind_done in E as (st & s1 & ? & ? & [= <- <- <-] & E & _).
  apply log_bind_done in E as (pending & s2 & ? & ? & Ep & E & _). destruct pending; [|done]. cbn [negb] in E.
  injection Ep as _ <- _. rewrite Hh in E.
  apply log_bind_done in E as (now0 & s3 & ? & ? & [= <- <- <-] & E & _).
  unfold g_try, log_bind, save_state in E. cbn [gs_step gs_store] in E. destruct (go_save os (S (S (gs_step s)))); [|done].
  injection E as _ <- _. cbn [gs_store]. by apply saved_not_pending.
Qed.
End Dismiss.

(** ** Automatic repairs *)

Section Automatic.
Context `{HF : Floats} (os : GuardOs).

(** No recommendation of a repair that may run by itself is in the history. *)
Definition none_recommended (history : list json) : Prop :=
  ∀ item id, item ∈ history → is_recommended item = true → recipe_id_of item = Some id → safe_automatic id = false.
Definition unrecommended (store : StateFile) : Prop :=
  none_recommended (unwrap_or (field as_array "history" (loaded store)) []).
Definition no_command (e : GEvent) : Prop := match e with Ran _ => False | _ => True end.

Lemma pending_recommended now state p :
  p ∈ pending_at now state → ∃ item, item ∈ unwrap_or (field as_array "history" state) [] ∧ is_recommended item = true ∧
    recipe_id_of item = Some (pi_recipe_id p).
Proof.
  unfold pending_at. destruct (field as_array "history" state) as [h|]; [|by intros ?%elem_of_nil].
  intros (y & -> & Hy)%list_elem_of_fmap. apply elem_of_filterb in Hy as [Hy Hrec].
  apply list_elem_of_fmap in Hy as ([k [q y']] & -> & Hin). apply elem_of_map_to_list, latest_items_elem in Hin as (Hin & Hk & _).
  exists y'. cbn in *. unfold pending_item. cbn. by rewrite Hk.
Qed.

Lemma preserved_silent file : Forall no_command (preserved file).
Proof. unfold preserved. destruct (damaged file); by repeat constructor. Qed.

Lemma execute_recipe_silent id : safe_automatic id = true → confined unrecommended no_command (execute_recipe os id).
Proof.
  intros Hid s r s' l HI E. apply execute_cases in E as [(e & _ & -> & Hl)|(recipe & Hg & _)];
    [split; [done|]; destruct Hl as [->| ->]; [done|apply preserved_silent]|]. exfalso.
  destruct (ga_pending _ _ _ _ Hg) as (p & (item & Hi & Hr & Hp)%pending_recommended & Heq).
  rewrite Heq in Hp. rewrite (HI item id Hi Hr Hp) in Hid. done.
Qed.

Lemma replace_open_elem id record l l' x : replace_open id record l = Some l' → x ∈ l' → x = record ∨ x ∈ l.
Proof.
  revert l'. induction l as [|p l IH]; intros l'; cbn; [done|]. destruct (bool_decide _).
  - destruct (is_recommended p); [|done]. intros [= <-]. set_solver.
  - destruct (replace_open id record l) as [l0|]; [|done]. intros [= <-] [->|Hx]%elem_of_cons; [set_solver|].
    destruct (IH l0 eq_refl Hx); set_solver.
Qed.
Lemma append_record_elem h record x : x ∈ append_history_record h record → x = record ∨ x ∈ h.
Proof.
  unfold append_history_record. destruct (if is_recommended record then _ else _) as [l|] eqn:E; [|set_solver].
  destruct (is_recommended record); [|done]. destruct (recipe_id_of record) as [id|]; [|done]. cbn in E.
  assert (∀ l, x ∈ rev l → x ∈ l) as Hrev by (intros l0; rewrite !list_elem_of_In; by rewrite <-in_rev).
  intros Hx%Hrev. apply (replace_open_elem _ _ _ _ _ E) in Hx as [->|Hx%Hrev]; [by left|by right].
Qed.
Lemma append_records_elem decisions h x : x ∈ foldl append_history_record h decisions → x ∈ h ∨ x ∈ decisions.
Proof.
  revert h. induction decisions as [|d ds IH]; intros h; cbn; [by left|]. intros [H|H]%IH; [|right; by right].
  apply append_record_elem in H as [->|H]; [right; by left|by left].
Qed.

Lemma jset_object k x v : is_object v = true → is_object (jset k x v) = true.
Proof. by destruct v. Qed.
Lemma field_jset_ne {A} (f : json → option A) k k' x v : k ≠ k' → is_object v = true → field f k (jset k' x v) = field f k v.
Proof. intros Hk. destruct v; try done. intros _. unfold field, jget, jset. by rewrite lookup_insert_ne. Qed.

Lemma none_recommended_sub a b : (∀ x, x ∈ a → x ∈ b) → none_recommended b → none_recommended a.
Proof. intros Hab Hb item id Hi. by apply Hb, Hab. Qed.

Lemma unrecommended_saved state h :
  well_formed state = true → field as_array "history" state = Some h → none_recommended h →
  unrecommended (Stored (normalized_state state)).
Proof.
  intros Hw Hs Hh. unfold unrecommended, loaded. rewrite normalized_well_formed by done.
  eapply none_recommended_sub; [|exact Hh]. intros x. by apply normalized_elem.
Qed.

Lemma confined_record symptoms decisions :
  none_recommended decisions → confined unrecommended no_command (record_service_check os symptoms decisions).
Proof.
  intros Hd s r s' l HI E. unfold record_service_check, log_bind at 1, load_state in E. cbn beta iota zeta in E.
  pose proof (loaded_well_formed (gs_store s)) as Hw. pose proof HI as HI0. unfold unrecommended in HI. set (st := loaded (gs_store s)) in *.
  destruct (jget "occurrences" st) as [[]|] eqn:Eo; try (injection E as <- <- <-; rewrite ?app_nil_r; split; [done|apply preserved_silent]).
  set (occ := JObject (count_occurrences _ _ _)) in E. clearbody occ. set (st1 := jset "occurrences" occ st) in E.
  assert (is_object st = true) as Ho by (by apply andb_true_iff in Hw as [? _]).
  assert (field as_array "history" st1 = field as_array "history" st) as Hh1 by (by apply field_jset_ne).
  assert (is_object st1 = true) as Ho1 by (by apply jset_object).
  destruct (loaded_history (gs_store s)) as [h Eh]. fold st in Eh. rewrite Hh1, Eh in E. rewrite Eh in HI. cbn [unwrap_or] in HI.
  destruct (log_bind _ _ s) as [[r0 s0] l0] eqn:E0. injection E as <- <- <-. rewrite Forall_app.
  enough (unrecommended (gs_store s0) ∧ Forall no_command l0) by naive_solver (apply preserved_silent).
  set (h1 := cap_history _) in E0.
  assert (none_recommended h1) as Hn.
  { intros item id Hi. subst h1. apply cap_elem, coalesce_elem in Hi. apply append_records_elem in Hi as [Hi|Hi]; [by apply HI|by apply Hd]. }
  refine (confined_bind unrecommended no_command _ _ (confined_now _ _ os) _ s _ _ _ HI0 E0). intros now.
  apply confined_try; [|intros ?; apply confined_ret]. apply confined_save. split; [|done].
  assert (is_object (jset "history" (JArray h1) st1) = true) as Ho2 by (by apply jset_object).
  assert (field as_array "history" (jset "last_check" (stamp now) (jset "history" (JArray h1) st1)) = Some h1) as Hh2.
  { rewrite field_jset_ne by done. apply field_history_set. by rewrite Hh1, Eh. }
  eapply unrecommended_saved; [|exact Hh2|exact Hn]. unfold well_formed. rewrite Hh2, jset_object by done. done.
Qed.

Lemma confined_symptom item : confined unrecommended no_command (check_symptom os true item).
Proof.
  unfold check_symptom. cbn [andb]. cbn zeta. destruct (safe_automatic (first_recipe item)) eqn:Es.
  - apply confined_bind; [by apply execute_recipe_silent|]. intros ?. apply confined_bind; [apply confined_now|]. intros ?. apply confined_ret.
  - apply confined_bind; [apply confined_now|]. intros ?. apply confined_ret.
Qed.

Lemma check_symptom_kept item s d k s' l :
  check_symptom os true item s = (inl (d, k), s', l) → none_recommended (option_list k).
Proof.
  unfold check_symptom. cbn [andb]. cbn zeta. destruct (safe_automatic (first_recipe item)) eqn:Es; intros E.
  - apply log_bind_done in E as (? & ? & ? & ? & _ & E & _). apply log_bind_done in E as (? & ? & ? & ? & _ & E & _).
    injection E as _ <- _ _. by intros ? ? ?%elem_of_nil.
  - apply log_bind_done in E as (now & ? & ? & ? & _ & E & _). injection E as _ <- _ _.
    intros y id ->%list_elem_of_singleton _ Hid. by injection Hid as <-.
Qed.

Lemma confined_symptoms symptoms : confined unrecommended no_command (check_symptoms os true symptoms).
Proof.
  induction symptoms as [|item symptoms IH]; cbn [check_symptoms]; [apply confined_ret|].
  apply confined_bind; [apply confined_symptom|]. intros ?. apply confined_bind; [done|]. intros ?. apply confined_ret.
Qed.

Lemma check_symptoms_kept symptoms s ds ks s' l :
  check_symptoms os true symptoms s = (inl (ds, ks), s', l) → none_recommended ks.
Proof.
  revert s ds ks s' l. induction symptoms as [|item symptoms IH]; intros s ds ks s' l E; cbn [check_symptoms] in E.
  { injection E as _ <- _ _. by intros ? ? ?%elem_of_nil. }
  apply log_bind_done in E as ([d k] & s1 & ? & ? & E1 & E & _). apply log_bind_done in E as ([ds' ks'] & s2 & ? & ? & E2 & E & _).
  injection E as _ <- _ _. intros y id [Hx|Hx]%elem_of_app; [by eapply check_symptom_kept|by eapply IH].
Qed.

Definition automatic_settings (settings : json) : Prop := field as_bool "automatic_safe_fixes" settings = Some true.

Lemma confined_check settings found :
  automatic_settings settings → confined unrecommended no_command (check os settings found None true true).
Proof.
  intros Ha s r s' l HI E. unfold check in E. rewrite Ha in E. cbn [unwrap_or andb] in E. cbn zeta in E.
  set (symptoms := if unwrap_or _ true then found else []) in E.
  apply log_bind_cases in E as [([ds ks] & s1 & l1 & l2 & E1 & E & ->)|(e & E & _)]; [|by eapply confined_symptoms].
  pose proof (check_symptoms_kept _ _ _ _ _ _ E1) as Hk. destruct (confined_symptoms _ _ _ _ _ HI E1) as [H1 F1].
  assert (confined unrecommended no_command (record_service_check os symptoms (ks ++ []))) as Hrec
    by (apply confined_record; by rewrite app_nil_r).
  rewrite Forall_app. enough (unrecommended (gs_store s') ∧ Forall no_command l2) by naive_solver.
  rewrite log_bind_ret in E. revert E. apply (λ H : confined unrecommended no_command _, H s1 r s' l2 H1).
  apply confined_bind; [exact Hrec|]. intros ?.
  apply confined_bind; [by apply confined_load|]. intros ?.
  apply confined_bind; [|intros ?; apply confined_ret]. apply confined_bind; [apply confined_now|intros ?; apply confined_ret].
Qed.

(** Checks of the timer, one after another. *)
Fixpoint timer_checks (rounds : list (json * list json)) : G (list CheckReport) :=
  match rounds with
  | [] => log_ret []
  | (settings, found) :: rounds =>
      run! report <- check os settings found None true true;
      run! reports <- timer_checks rounds;
      log_ret (report :: reports)
  end.

(** With automatic repairs switched on, the timer never repairs anything: starting from
    a document without an open recommendation of such a repair, a first start for
    one, no sequence of checks runs a single command, whatever the symptoms are,
    although every repair they ask for may run by itself. *)
Theorem automatic_never_repairs rounds s r s' l
  (Hs : unrecommended (gs_store s)) (Ha : Forall (λ round, automatic_settings (fst round)) rounds)
  (E : timer_checks rounds s = (r, s', l)) : ∀ argv, Ran argv ∉ l.
Proof.
  assert (confined unrecommended no_command (timer_checks rounds)) as Hc.
  { clear E Hs. induction Ha as [|[settings found] rounds Hr _ IH]; cbn [timer_checks]; [apply confined_ret|].
    apply confined_bind; [by apply confined_check|]. intros ?. apply confined_bind; [done|]. intros ?. apply confined_ret. }
  destruct (Hc _ _ _ _ Hs E) as [_ F]. rewrite Forall_forall in F. intros argv Hin. exact (F _ Hin).
Qed.
End Automatic.

(** ** Counting occurrences *)

(** One check adds, to the count of a component with a symptom, the number of
    recipes of that component, not one. *)
Theorem occurrences_per_recipe active rs occurrences component :
  let n := unwrap_or (occurrences !! component ≫= as_i64) 0 in
  let k := Z.of_nat (length (filterb (λ r, String.eqb (rc_component r) component) rs)) in
  component ∈ active → 0 <= n → n + k <= i64_max →
  unwrap_or (count_occurrences active rs occurrences !! component ≫= as_i64) 0 = n + k.
Proof.
  cbn zeta. intros Ha. revert occurrences. induction rs as [|r rs IH]; intros occ Hn Hk; cbn [count_occurrences filterb length]; [cbn; lia|].
  cbn zeta. cbn [filterb] in Hk. destruct (String.eqb_spec (rc_component r) component) as [Heq|Hne].
  - rewrite Heq, (bool_decide_eq_true_2 _ Ha). cbn [length] in Hk |- *. set (n := unwrap_or (occ !! component ≫= as_i64) 0) in *.
    assert (sat_add_i64 n 1 = n + 1) as Hs by (unfold sat_add_i64, clamp_i64; unfold i64_max, i64_min in *; lia).
    assert (as_i64 (JNumber (n + 1)) = Some (n + 1)) as Hi.
    { unfold as_i64. destruct (_ && _) eqn:E; [done|]. unfold i64_max, i64_min in *. lia. }
    rewrite Hs, IH; rewrite lookup_insert_eq; cbn [mbind option_bind]; rewrite Hi; cbn [unwrap_or]; lia.
  - rewrite IH; rewrite lookup_insert_ne by done; done.
Qed.

(** ** The leak check *)

Lemma substring_prefix a b : String.substring 0 (String.length a) (a +:+ b) = a.
Proof. induction a as [|c a IH]; [by destruct b|]. rewrite append_cons. cbn. by rewrite IH. Qed.

(** The live leak check judges the first 400 bytes of the report of [resolvectl], to
    which the output of every command is cut: whatever follows them, a tunnel link or
    a leaking resolver, the verdict is that of the beginning. *)
Theorem leak_check_sees_prefix os s prefix rest d
  (Hrun : go_run os (gs_step s) ["resolvectl"; "status"] = Finished true (prefix +:+ rest) EmptyString)
  (Htrim : trim (prefix +:+ rest) = prefix +:+ rest) (Hlen : slen prefix = MAX_DETAIL)
  (Hb : is_char_boundary 400 (prefix +:+ rest) = true) (Hd : check_vpn_dns_leak_output prefix = Ok d) :
  fst (fst (check_vpn_dns_leak_live os s)) = inl (Ok d).
Proof.
  assert (truncate_detail (prefix +:+ rest) = Some prefix) as Ht.
  { unfold MAX_DETAIL in Hlen. unfold truncate_detail, MAX_DETAIL. rewrite slen_append, (proj2 (Z.ltb_ge _ 400)), Hb by lia.
    replace 400%nat with (String.length prefix) by lia. by rewrite substring_prefix. }
  assert (is_empty prefix = false) as Hne by (destruct prefix; [done|reflexivity]).
  unfold check_vpn_dns_leak_live, run_command, run_bounded, log_bind, g_tick, log_out, log_outs, log_ret. cbn [gs_step].
  rewrite Hrun. unfold detail_of. change (is_empty (trim EmptyString)) with true. cbn iota. rewrite Htrim, Ht, Hne. cbn iota. rewrite Hd. done.
Qed.

(** * Witnesses *)

#[global] Instance exact_floats : Floats :=
  {| float_value text := (λ x, Qmake (fst x) (snd x)) <$> decode (text_pos text);
     stamp q := JFloat (pos_text (encode (Qnum q, Qden q))) |}.
#[global] Instance exact_floats_laws : FloatsLaws.
Proof. split. intros [num den]. cbn. by rewrite text_pos_text, decode_encode. Qed.

Definition answering (run : nat → list string → Bounded) (now : Q) : GuardOs :=
  {| go_run := run; go_now _ := now; go_save _ := true; go_slot_taken _ := false; go_maint_verified _ := true; go_askpass := true;
     go_preset := {| np_dns := "quad9"; np_vpn_dns_exclusive := false |} |}.
Definition recommended (id : string) (t : Z) : json :=
  jobject [("timestamp", JNumber t); ("recipe_id", JString id); ("action", JString "recommended")].
Definition document (history : list json) : json :=
  jobject [("schema_version", JNumber 1); ("history", JArray history); ("occurrences", jobject [])].
Definition started (history : list json) : GState := {| gs_step := 0; gs_store := Stored (document history) |}.
Definition quiet_machine : GuardOs := answering (λ _ _, Finished true EmptyString EmptyString) (inject_Z 1000).

(** A recommended restart of the audio services runs. *)
Lemma repairs_gated_witness :
  let '(r, _, l) := execute_recipe quiet_machine "audio.restart" (started [recommended "audio.restart" 990]) in
  r = inl (Ok "done") ∧ Forall repair_event l ∧
  head l = Some (Ran ["systemctl"; "--user"; "restart"; "pipewire.service"; "pipewire-pulse.service"; "wireplumber.service"]).
Proof.
  destruct (execute_recipe quiet_machine "audio.restart" (started [recommended "audio.restart" 990])) as [[r s'] l] eqn:E.
  assert (fst (fst (execute_recipe quiet_machine "audio.restart" (started [recommended "audio.restart" 990]))) = inl (Ok "done")) as Hr
    by (by vm_compute).
  assert (head (snd (execute_recipe quiet_machine "audio.restart" (started [recommended "audio.restart" 990])))
    = Some (Ran ["systemctl"; "--user"; "restart"; "pipewire.service"; "pipewire-pulse.service"; "wireplumber.service"])) as Hl by (by vm_compute).
  rewrite E in Hr, Hl. cbn [fst snd] in Hr, Hl. subst r. split; [done|]. split; [|exact Hl].
  destruct (repairs_gated quiet_machine _ _ _ _ _ E) as [[_ HF]|(e & He & _)]; [exact HF|discriminate He].
Defined.

(** A damaged state file: the repair is refused, and a copy is kept. *)
Example damaged_state_preserved :
  execute_recipe quiet_machine "audio.restart" {| gs_step := 0; gs_store := Garbled "{" |}
  = (inl (Err "recipe is not currently recommended by Guardian"), {| gs_step := 2; gs_store := Garbled "{" |}, [Preserved (Garbled "{")]).
Proof. by vm_compute. Qed.

Lemma automatic_never_repairs_witness :
  let symptom := jobject [("component", JString "audio"); ("recipes", JArray [JString "audio.restart"])] in
  let settings := jobject [("automatic_safe_fixes", JBool true)] in
  let '(_, _, l) := timer_checks quiet_machine [(settings, [symptom]); (settings, [symptom])] (started []) in
  safe_automatic "audio.restart" = true ∧ ∀ argv, Ran argv ∉ l.
Proof.
  cbn zeta. set (rounds := [_; _]). destruct (timer_checks quiet_machine rounds (started [])) as [[r s'] l] eqn:E.
  split; [by vm_compute|]. eapply (automatic_never_repairs quiet_machine rounds); [| |exact E].
  - vm_compute. intros ? ? H. by apply elem_of_nil in H.
  - repeat constructor; by vm_compute.
Defined.

(** A report of [resolvectl] in which the tunnel comes late. *)
Definition status_line (s : string) : string := s +:+ newline.
Definition status_head : string :=
  status_line "Global" +:+ status_line "         Protocols: LLMNR=resolve -mDNS -DNSOverTLS DNSSEC=no/unsupported" +:+
  status_line "  resolv.conf mode: stub" +:+ status_line "Fallback DNS Servers: 1.1.1.1 8.8.8.8" +:+ newline +:+ status_line "Link 2 (enp5s0)" +:+
  status_line "    Current Scopes: DNS LLMNR/IPv4 LLMNR/IPv6" +:+
  status_line "         Protocols: +DefaultRoute LLMNR=resolve -mDNS -DNSOverTLS DNSSEC=no/unsupported" +:+
  status_line "Current DNS Server: 192.168.1.1" +:+ status_line "       DNS Servers: 192.168.1.1" +:+
  status_line "        DNS Domain: example.lan" +:+ status_line "    Default Route: yes" +:+ newline.
Definition status_tail : string := status_line "Link 5 (wg0)" +:+ "       DNS Servers: 10.0.0.1".
Definition status_report : string := status_head +:+ status_tail.

(** The tunnel is up and the resolver of the cable connection leaks, but the live
    check reports that there is nothing to leak. *)
Lemma leak_check_sees_prefix_witness :
  is_ok (check_vpn_dns_leak_output status_report) = false ∧
  fst (fst (check_vpn_dns_leak_live (answering (λ _ _, Finished true status_report EmptyString) 0%Q) (started [])))
  = inl (Ok "no VPN tunnel link up; nothing to leak").
Proof.
  split; [by vm_compute|].
  apply (leak_check_sees_prefix (answering (λ _ _, Finished true status_report EmptyString) 0%Q) (started [])
           (String.substring 0 400 status_report) (String.substring 400 (String.length status_report - 400) status_report));
    by vm_compute.
Defined.

(** A dismissed recommendation of the audio services. *)
Lemma dismissed_stays_dismissed_witness :
  let '(r, s', _) := dismiss_recommendation quiet_machine "audio.restart" (started [recommended "audio.restart" 990]) in
  r = inl (Ok "Dismissed Restart audio services.") ∧
  ∀ now p, p ∈ pending_at now (loaded (gs_store s')) → pi_recipe_id p ≠ "audio.restart".
Proof.
  destruct (dismiss_recommendation quiet_machine "audio.restart" (started [recommended "audio.restart" 990])) as [[r s'] l] eqn:E.
  assert (fst (fst (dismiss_recommendation quiet_machine "audio.restart" (started [recommended "audio.restart" 990])))
    = inl (Ok "Dismissed Restart audio services.")) as Hr by (by vm_compute).
  rewrite E in Hr. cbn [fst] in Hr. subst r. split; [done|].
  eapply (dismissed_stays_dismissed quiet_machine "audio.restart"); [exact E|]. intros item q Hi _ Hq.
  assert (item = recommended "audio.restart" 990) as ->.
  { change (item ∈ [recommended "audio.restart" 990]) in Hi. by apply list_elem_of_singleton in Hi. }
  injection Hq as <-. by vm_compute.
Defined.

(** One failing check counts six times for the network. *)
Example network_counted_six_times :
  count_occurrences {["network"]} recipes ∅ !! "network" = Some (JNumber 6) ∧
  count_occurrences {["flatpak"]} recipes ∅ !! "flatpak" = Some (JNumber 2).
Proof. by vm_compute. Qed.

(** The detail is cut inside a character: the repair panics. *)
Example detail_cut_panics :
  truncate_detail (unlines (repeat "an output line of the tool" 14) +:+ "a last line with dash" +:+ bytes [226; 128; 147]%N) = None.
Proof. by vm_compute. Qed.
