(* ===== verification/DaemonHttp.v ===== *)
(** The request boundary of the daemon: the first half of [installer_daemon.rs].

    Requests arrive in pieces on a Unix socket, are framed by their headers and
    content length, authenticated by a session token and matched against a closed
    list of routes.  The file models the bytes: framing, header lookup, token
    comparison, query decoding, the rebuilt start request, the daemon's options
    and the counter of client slots.  What the routes do is in Daemon.v. *)

From S2P Require Import Prelude RustStr RustOs Json InstallerPlan Probes Stream.

(** * Positions in a byte string *)

(** [s.windows(p.len()).position(|window| window == p)] *)
Fixpoint position_of (p s : string) : option nat :=
  if starts_with p s then Some 0%nat
  else match s with
       | EmptyString => None
       | String _ r => S <$> position_of p r
       end.

Definition crlf : string := bytes [13; 10]%N.
Definition blank_line : string := crlf +:+ crlf.

(** [std::str::from_utf8(s).is_ok()] *)
Definition utf8_ok (s : string) : bool := match snd (from_utf8 s) with None => true | Some _ => false end.

(** * Limits *)

Definition MAX_REQUEST_BYTES : Z := 16 * 1024 * 1024.
Definition MAX_REQUEST_HEADER_BYTES : Z := 64 * 1024.
Definition REQUEST_READ_TIMEOUT : Z := 15000.
Definition MAX_ACTIVE_CLIENTS : Z := 32.
Definition MAX_LOG_RESPONSE_BYTES : Z := 1024 * 1024.

(** * Options and the session token *)

(** [args.iter().position(|arg| arg == name)] *)
Fixpoint arg_position (name : string) (args : list string) : option nat :=
  match args with
  | [] => None
  | a :: args => if String.eqb a name then Some 0%nat else S <$> arg_position name args
  end.

Definition value (args : list string) (name : string) : result string :=
  let? index := ok_or (arg_position name args) ("missing " +:+ name) in
  ok_or (args !! S index) ("missing value for " +:+ name).

Record Options := {
  op_socket_path : string;
  op_session_token_file : string;
  op_socket_group : option string;
  op_peer_uid : option Z;
}.

(** [s.parse::<u32>()] *)
Definition parse_u32 (s : string) : option Z :=
  match parse_u64 s with
  | Some n => if n <=? 2 ^ 32 - 1 then Some n else None
  | None => None
  end.

Definition options (args : list string) : result Options :=
  let? group :=
    match arg_position "--socket-group" args with
    | None => Ok None
    | Some index => rmap Some (ok_or (args !! S index) "missing value for --socket-group")
    end in
  let? uid :=
    match arg_position "--peer-uid" args with
    | None => Ok None
    | Some index =>
        let? text := ok_or (args !! S index) "missing value for --peer-uid" in
        rmap Some (ok_or (parse_u32 text) "invalid --peer-uid")
    end in
  let? socket := value args "--socket-path" in
  let? token := value args "--session-token-file" in
  Ok {| op_socket_path := socket; op_session_token_file := token; op_socket_group := group; op_peer_uid := uid |}.

(** The token file as the daemon sees it once it is open: its metadata and the
    bytes it holds. *)
Record TokenFile := {
  tf_open : result unit;
  tf_metadata : result (bool * Z * Z);      (* a regular file, the owner, the mode *)
  tf_bytes : result string;
}.

Definition token_byte (c : ascii) : bool := is_ascii_alphanumeric c || byte_among "_-" c.

Definition read_session_token (f : TokenFile) : result string :=
  check! map_err (λ e, "could not open installer session token: " +:+ e) (tf_open f);
  let? metadata := map_err (λ e, "could not stat installer session token: " +:+ e) (tf_metadata f) in
  let '(is_file, uid, mode) := metadata in
  guard! negb is_file || negb (uid =? 0) || negb (Z.land mode 63 =? 0)
    else "installer session token must be a root-owned private regular file";
  let? all := map_err (λ e, "could not read installer session token: " +:+ e) (tf_bytes f) in
  let bytes := stake 513 all in
  guard! negb (utf8_ok bytes)
    else "could not read installer session token: stream did not contain valid UTF-8";
  let token := trim bytes in
  guard! negb ((32 <=? slen token) && (slen token <=? 512)) || negb (str_all token_byte token)
    else "installer session token has an invalid format";
  Ok token.

(** [diff |= x ^ y] over the zipped bytes. *)
Fixpoint xor_diff (diff : Z) (a b : string) : Z :=
  match a, b with
  | String x a, String y b => xor_diff (Z.lor diff (Z.lxor (byte_of x) (byte_of y))) a b
  | _, _ => diff
  end.

Definition tokens_equal (provided expected : string) : bool :=
  if negb (slen provided =? slen expected) then false else xor_diff 0 provided expected =? 0.

(** * Headers *)

Definition header_line (name line : string) : option string :=
  match split_once ":" line with
  | Some (key, v) => if eq_ignore_ascii_case (trim key) name then Some (trim v) else None
  | None => None
  end.

Definition header_value (headers name : string) : option string :=
  find_map (header_line name) (drop 1 (lines headers)).

Definition header_count (headers name : string) : nat :=
  length (filterb (λ kv : string * string, eq_ignore_ascii_case (trim (fst kv)) name)
            (filter_map (split_once ":") (drop 1 (lines headers)))).

Definition header_end (request : string) : result nat :=
  ok_or ((λ p, p + 4)%nat <$> position_of blank_line request) "installer request has no complete headers".

Definition request_parts (request : string) : result (string * string * string) :=
  let? end_ := header_end request in
  let headers := stake end_ request in
  guard! negb (utf8_ok headers) else "installer request headers are not UTF-8";
  let line := split_whitespace (unwrap_or (head (lines headers)) EmptyString) in
  let word i := unwrap_or (line !! i) EmptyString in
  guard! match line !! 3%nat with Some _ => true | None => false end
         || is_empty (word 0%nat) || is_empty (word 1%nat)
         || negb (str_in (word 2%nat) ["HTTP/1.0"; "HTTP/1.1"])
    else "installer request line is invalid";
  Ok (word 0%nat, word 1%nat, headers).

(** [target.split('?').next().unwrap_or(target)] *)
Definition path_of (target : string) : string := unwrap_or (head (split_char "?" target)) target.

Definition GET_ROUTES : list string :=
  ["/api/config"; "/api/disks"; "/api/partitions"; "/api/free-space"; "/api/timezones"; "/api/locales"; "/api/keymaps";
   "/api/disk/pending"; "/api/disk/filesystems"; "/api/report"; "/api/runtime"; "/api/rescue/probe"; "/api/log";
   "/api/stream"].
Definition POST_ROUTES : list string :=
  ["/api/start"; "/api/cancel"; "/api/reboot"; "/api/disk/new-table"; "/api/disk/create"; "/api/disk/delete";
   "/api/disk/resize"; "/api/disk/format"; "/api/disk/set-mountpoint"; "/api/disk/pending/remove"; "/api/disk/commit";
   "/api/disk/rollback"; "/api/rescue/logs-to-usb"].

Definition route_allowed (method target : string) : bool :=
  if String.eqb method "GET" then str_in (path_of target) GET_ROUTES
  else if String.eqb method "POST" then str_in (path_of target) POST_ROUTES
  else false.

(** * Reading a request *)

(** One turn of a read loop: the time when the deadline is set, what setting it
    answered, and what the read returned ([EmptyString]: the peer has closed). *)
Record ReadTurn := { rt_now : Z; rt_set : result unit; rt_read : result string }.

Definition set_request_read_deadline (deadline : Z) (t : ReadTurn) : result unit :=
  guard! sat_sub64 deadline (rt_now t) =? 0 else "installer request timed out";
  map_err (λ e, "could not set installer request timeout: " +:+ e) (rt_set t).

Definition read_chunk (deadline : Z) (what closed : string) (t : ReadTurn) : result string :=
  check! set_request_read_deadline deadline t;
  let? chunk := map_err (λ e, "could not read installer request" +:+ what +:+ ": " +:+ e) (rt_read t) in
  guard! is_empty chunk else closed;
  Ok chunk.

Definition headers_too_large : string := "installer request headers are too large".

(** The two loops; [None] is a thread that still waits for its peer. *)
Fixpoint read_headers (deadline : Z) (request : string) (turns : list ReadTurn)
    : option (result (nat * string * list ReadTurn)) :=
  match turns with
  | [] => None
  | t :: turns =>
      match read_chunk deadline EmptyString "installer client closed before sending a request" t with
      | Err e => Some (Err e)
      | Ok chunk =>
          let request := request +:+ chunk in
          match position_of blank_line request with
          | Some p =>
              Some (if MAX_REQUEST_HEADER_BYTES <? Z.of_nat (p + 4) then Err headers_too_large
                    else Ok ((p + 4)%nat, request, turns))
          | None =>
              if MAX_REQUEST_HEADER_BYTES <? slen request then Some (Err headers_too_large)
              else read_headers deadline request turns
          end
      end
  end.

Definition content_length (header_end_ : Z) (header_text : string) : result Z :=
  guard! negb (utf8_ok header_text) else "installer request headers are not UTF-8";
  guard! (1 <? header_count header_text "Content-Length")%nat else "installer request has ambiguous content length";
  guard! (0 <? header_count header_text "Transfer-Encoding")%nat
    else "transfer-encoded installer requests are not supported";
  let? n := ok_or (parse_u64 (unwrap_or (header_value header_text "Content-Length") "0"))
    "installer content length is invalid" in
  guard! (MAX_REQUEST_BYTES <? n) || (MAX_REQUEST_BYTES <? header_end_ + n)
    else "installer request body is too large";
  Ok n.

Fixpoint read_body (deadline : Z) (total : Z) (request : string) (turns : list ReadTurn) : option (result string) :=
  if total <=? slen request then Some (Ok (stake (Z.to_nat total) request))
  else match turns with
       | [] => None
       | t :: turns =>
           match read_chunk deadline " body" "installer request body is incomplete" t with
           | Err e => Some (Err e)
           | Ok chunk => read_body deadline total (request +:+ chunk) turns
           end
       end.

Definition read_request_with_timeout (started timeout : Z) (turns : list ReadTurn) : option (result string) :=
  let deadline := started + timeout in
  match read_headers deadline EmptyString turns with
  | None => None
  | Some (Err e) => Some (Err e)
  | Some (Ok (end_, request, turns)) =>
      match content_length (Z.of_nat end_) (stake (end_ - 4) request) with
      | Err e => Some (Err e)
      | Ok n => read_body deadline (Z.of_nat end_ + n) request turns
      end
  end.

Definition read_request (started : Z) (turns : list ReadTurn) : option (result string) :=
  read_request_with_timeout started REQUEST_READ_TIMEOUT turns.

(** * Queries *)

Definition hex_digit (c : ascii) : option Z :=
  if is_ascii_digit c then Some (byte_of c - 48)
  else if byte_in 97 102 c then Some (byte_of c - 87)
  else if byte_in 65 70 c then Some (byte_of c - 55)
  else None.

(** [u8::from_str_radix(digits, 16)] of two bytes: an optional plus sign before
    the digits. *)
Definition hex_pair (c d : ascii) : option Z :=
  if Ascii.eqb c "+" then hex_digit d
  else h ← hex_digit c; l ← hex_digit d; Some (h * 16 + l).

Fixpoint percent_decode (s : string) : option string :=
  match s with
  | EmptyString => Some EmptyString
  | String c r =>
      if Ascii.eqb c "+" then String " " <$> percent_decode r
      else if Ascii.eqb c "%" then
        match r with
        | String h (String l r) =>
            b ← hex_pair h l; String (ascii_of_N (Z.to_N b)) <$> percent_decode r
        | _ => None
        end
      else String c <$> percent_decode r
  end.

Definition query_value (target name : string) : option string :=
  '(_, query) ← split_once "?" target;
  encoded ← find_map (strip_prefix (name +:+ "=")) (split_char "&" query);
  decoded ← percent_decode encoded;
  if utf8_ok decoded then Some decoded else None.

Definition native_pending_request (target : string) : result json :=
  let params := match split_once "?" target with Some (_, query) => query | None => EmptyString end in
  let disk_params := length (filterb (starts_with "disk=") (split_char "&" params)) in
  guard! (1 <? disk_params)%nat else "disk query parameter must appear at most once";
  if (disk_params =? 0)%nat then Ok (JObject ∅)
  else
    let? disk := ok_or (query_value target "disk" ≫= normalize_device_path) "disk query parameter is invalid" in
    Ok (jobject [("disk", JString disk)]).

(** * Answers *)

Definition json_status (status : Z) : string :=
  if status =? 200 then "200 OK"
  else if status =? 400 then "400 Bad Request"
  else if status =? 404 then "404 Not Found"
  else if status =? 409 then "409 Conflict"
  else if status =? 500 then "500 Internal Server Error"
  else if status =? 503 then "503 Service Unavailable"
  else "500 Internal Server Error".

Definition forbidden : string :=
  "HTTP/1.1 403 Forbidden" +:+ crlf +:+ "Content-Length: 0" +:+ crlf +:+ "Connection: close" +:+ blank_line.

Definition framed_response (status content_type body : string) : string :=
  "HTTP/1.1 " +:+ status +:+ crlf +:+ "Content-Type: " +:+ content_type +:+ crlf
  +:+ "Content-Length: " +:+ show_int (slen body) +:+ crlf +:+ "Connection: close" +:+ blank_line +:+ body.

Definition json_response `{JsonCodec} (status : string) (v : json) : string :=
  framed_response status "application/json" (json_encode v).

Definition bad_start_request `{JsonCodec} (message : string) : string :=
  json_response "400 Bad Request" (jobject [("started", JBool false); ("message", JString message)]).

(** * Bodies *)

Definition request_body `{JsonCodec} (request : string) : result json :=
  let? end_ := header_end request in
  map_err (λ e, "Invalid installer request JSON: " +:+ e) (json_decode (sdrop end_ request)).

Definition keeps_line (line : string) : bool :=
  match split_once ":" line with
  | Some (name, _) => negb (eq_ignore_ascii_case (trim name) "Content-Length")
  | None => true
  end.

Definition rebuild_request (request body : string) : result string :=
  let? end_ := header_end request in
  let headers := stake (end_ - 4) request in
  guard! negb (utf8_ok headers) else "installer request headers are not UTF-8";
  let retained := join crlf (filterb keeps_line (lines headers)) in
  Ok (retained +:+ crlf +:+ "Content-Length: " +:+ show_int (slen body) +:+ blank_line +:+ body).

(** * Framing does not depend on how the bytes arrive *)

Lemma position_of_Some p s n : position_of p s = Some n → ∃ a b, s = a +:+ p +:+ b ∧ String.length a = n.
Proof.
  revert n. induction s as [|c s IH]; intros n; cbn [position_of]; destruct (starts_with p _) eqn:E.
  - intros [= <-]. apply starts_with_true in E as [r ->]. by exists EmptyString, r.
  - done.
  - intros [= <-]. apply starts_with_true in E as [r ->]. by exists EmptyString, r.
  - destruct (position_of p s) as [m|]; [|done]. intros [= <-]. destruct (IH m eq_refl) as (a & b & -> & <-).
    by exists (String c a), b.
Qed.

(** The first occurrence is found: none begins earlier. *)
Lemma position_of_least p a b : ∃ n, position_of p (a +:+ p +:+ b) = Some n ∧ (n <= String.length a)%nat.
Proof.
  induction a as [|c a IH].
  - exists 0%nat. rewrite append_nil_l. split; [|cbn; lia].
    destruct (p +:+ b) as [|d r] eqn:E; cbn [position_of]; rewrite <-E, starts_with_app; done.
  - rewrite append_cons. cbn [position_of]. destruct (starts_with p _); [exists 0%nat; split; [done|lia]|].
    destruct IH as (n & -> & Hn). exists (S n). split; [done|]. cbn. lia.
Qed.

Lemma position_of_app p a b n : position_of p a = Some n → position_of p (a +:+ b) = Some n.
Proof.
  revert n. induction a as [|c a IH]; intros n; cbn [position_of].
  - destruct (starts_with p EmptyString) eqn:E; [|done]. intros [= <-]. apply (starts_with_prefix _ _ b) in E.
    rewrite append_nil_l in E |- *.
    destruct b; cbn [position_of]; by rewrite E.
  - rewrite append_cons. cbn [position_of]. destruct (starts_with p (String c a)) eqn:E.
    + intros [= <-]. apply (starts_with_prefix _ _ b) in E. rewrite append_cons in E. by rewrite E.
    + destruct (position_of p a) as [m|] eqn:Em; [|done]. intros [= <-].
      destruct (starts_with p (String c (a +:+ b))) eqn:E'.
      * exfalso. apply position_of_Some in Em as (x & y & -> & _).
        apply not_true_iff_false in E. apply E. rewrite <-append_cons in E'. rewrite starts_with_short in E'; [done|].
        cbn. rewrite !slen_append. lia.
      * by rewrite (IH m).
Qed.

(** An occurrence that needs more bytes than were there ends behind them. *)
Lemma position_of_late p a b n :
  position_of p a = None → position_of p (a +:+ b) = Some n → (String.length a < n + String.length p)%nat.
Proof.
  intros Ha (x & y & E & Hn)%position_of_Some.
  destruct (decide (String.length a < n + String.length p)%nat) as [|Hle]; [done|]. exfalso.
  assert (a = x +:+ p +:+ sdrop (n + String.length p) a) as Hx.
  { assert (stake (n + String.length p) (a +:+ b) = x +:+ p) as Hs.
    { rewrite E, <-append_assoc, stake_app by (rewrite slen_append; lia).
      rewrite <-(append_nil_r (x +:+ p)) at 1.
      transitivity (stake (n + String.length p) (x +:+ p) +:+ sdrop (n + String.length p) (x +:+ p)); [|apply stake_sdrop].
      rewrite append_nil_r. assert (sdrop (n + String.length p) (x +:+ p) = EmptyString) as ->.
      { apply is_empty_true. destruct (sdrop _ _) eqn:Ed; [done|]. apply (f_equal String.length) in Ed.
        rewrite sdrop_length, slen_append in Ed. cbn in Ed. lia. }
      by rewrite append_nil_r. }
    rewrite stake_app in Hs by lia. rewrite <-append_assoc, <-Hs. by rewrite stake_sdrop. }
  destruct (position_of_least p x (sdrop (n + String.length p) a)) as (m & Hm & _). rewrite <-Hx in Hm. congruence.
Qed.

(** What a whole connection's bytes amount to. *)
Definition framed (bytes : string) : result string :=
  match position_of blank_line bytes with
  | None =>
      Err (if MAX_REQUEST_HEADER_BYTES <? slen bytes then headers_too_large
           else "installer client closed before sending a request")
  | Some p =>
      guard! MAX_REQUEST_HEADER_BYTES <? Z.of_nat (p + 4) else headers_too_large;
      let? n := content_length (Z.of_nat (p + 4)) (stake p bytes) in
      guard! slen bytes <? Z.of_nat (p + 4) + n else "installer request body is incomplete";
      Ok (stake (Z.to_nat (Z.of_nat (p + 4) + n)) bytes)
  end.

(** A read that returns the chunk before the deadline. *)
Definition turn_of (deadline : Z) (chunk : string) (t : ReadTurn) : Prop :=
  0 < sat_sub64 deadline (rt_now t) ∧ rt_set t = Ok tt ∧ rt_read t = Ok chunk.

Fixpoint concat_str (l : list string) : string :=
  match l with [] => EmptyString | a :: l => a +:+ concat_str l end.

Lemma read_chunk_turn deadline what closed chunk t :
  turn_of deadline chunk t → read_chunk deadline what closed t = if is_empty chunk then Err closed else Ok chunk.
Proof.
  intros (Hd & Hs & Hr). unfold read_chunk, set_request_read_deadline.
  destruct (Z.eqb_spec (sat_sub64 deadline (rt_now t)) 0); [lia|]. by rewrite Hs, Hr.
Qed.

Lemma parse_digits_nonneg acc s n : 0 <= acc → parse_digits acc s = Some n → 0 <= n.
Proof.
  revert acc. induction s as [|c s IH]; intros acc Ha; cbn; [intros [= <-]; lia|].
  destruct (is_ascii_digit c) eqn:E; [|done]. unfold is_ascii_digit, byte_in in E. bool_inv. apply IH. lia.
Qed.

Lemma parse_u64_range s n : parse_u64 s = Some n → is_u64 n.
Proof.
  unfold parse_u64. case_match; [done|]. destruct (parse_digits 0 _) as [v|] eqn:E; [|done].
  apply parse_digits_nonneg in E; [|lia]. destruct (Z.leb_spec v u64_max); [|done]. by intros [= <-].
Qed.

Lemma content_length_range e text n : content_length e text = Ok n → 0 <= n ∧ e + n <= MAX_REQUEST_BYTES.
Proof.
  unfold content_length. intros H. guard_inv H as E1. guard_inv H as E2. guard_inv H as E3.
  apply rbind_Ok in H as (m & Hm%ok_or_Ok & H). guard_inv H as E4. injection H as ->.
  apply orb_false_iff in E4 as [E4 E5]. apply Z.ltb_ge in E5. split; [|done].
  apply parse_u64_range in Hm. unfold is_u64 in Hm. lia.
Qed.

Section chunks.
Context (deadline : Z) (eof : ReadTurn) (Heof : turn_of deadline EmptyString eof).

Lemma read_body_chunks total request chunks turns :
  Forall2 (turn_of deadline) chunks turns → Forall (λ c, c ≠ EmptyString) chunks → 0 <= total →
  read_body deadline total request (turns ++ [eof])
  = Some (if total <=? slen (request +:+ concat_str chunks)
          then Ok (stake (Z.to_nat total) (request +:+ concat_str chunks))
          else Err "installer request body is incomplete").
Proof.
  intros Hf. revert request. induction Hf as [|chunk t chunks turns Ht Hf IH]; intros request Hne Htot.
  - cbn. rewrite append_nil_r. destruct (total <=? slen request) eqn:E; [done|].
    rewrite (read_chunk_turn _ _ _ _ _ Heof). done.
  - cbn [app read_body concat_str]. apply Forall_cons in Hne as [Hc Hne].
    destruct (Z.leb_spec total (slen request)) as [Hle|Hgt].
    + rewrite slen_append. destruct (Z.leb_spec total (Z.of_nat (String.length request + String.length (chunk +:+ concat_str chunks))));
        [|lia]. by rewrite stake_app by lia.
    + rewrite (read_chunk_turn _ _ _ _ _ Ht). apply is_empty_false in Hc as ->. by rewrite IH, append_assoc.
Qed.

Lemma read_headers_chunks request chunks turns :
  Forall2 (turn_of deadline) chunks turns → Forall (λ c, c ≠ EmptyString) chunks →
  position_of blank_line request = None → slen request <= MAX_REQUEST_HEADER_BYTES →
  let bytes := request +:+ concat_str chunks in
  match position_of blank_line bytes with
  | Some p =>
      if MAX_REQUEST_HEADER_BYTES <? Z.of_nat (p + 4)
      then read_headers deadline request (turns ++ [eof]) = Some (Err headers_too_large)
      else ∃ got rest chunks' turns', read_headers deadline request (turns ++ [eof])
                                      = Some (Ok ((p + 4)%nat, got, rest)) ∧
             rest = turns' ++ [eof] ∧ Forall2 (turn_of deadline) chunks' turns' ∧
             Forall (λ c, c ≠ EmptyString) chunks' ∧ bytes = got +:+ concat_str chunks' ∧
             position_of blank_line got = Some p
  | None => read_headers deadline request (turns ++ [eof])
            = Some (Err (if MAX_REQUEST_HEADER_BYTES <? slen bytes then headers_too_large
                         else "installer client closed before sending a request"))
  end.
Proof.
  intros Hf. revert request. induction Hf as [|chunk t chunks turns Ht Hf IH]; intros request Hne Hpos Hlen bytes; subst bytes.
  - cbn [concat_str app read_headers]. rewrite append_nil_r, Hpos, (read_chunk_turn _ _ _ _ _ Heof). cbn [is_empty].
    destruct (Z.ltb_spec MAX_REQUEST_HEADER_BYTES (slen request)); [lia|done].
  - apply Forall_cons in Hne as [Hc Hne]. cbn [concat_str app read_headers].
    rewrite (read_chunk_turn _ _ _ _ _ Ht). apply is_empty_false in Hc as ->.
    rewrite <-append_assoc. destruct (position_of blank_line (request +:+ chunk)) as [p|] eqn:Ep.
    + rewrite (position_of_app _ _ (concat_str chunks) _ Ep). case_match; [done|].
      exists (request +:+ chunk), (turns ++ [eof]), chunks, turns. done.
    + destruct (Z.ltb_spec MAX_REQUEST_HEADER_BYTES (slen (request +:+ chunk))) as [Hbig|Hsmall].
      * destruct (position_of blank_line ((request +:+ chunk) +:+ concat_str chunks)) as [p|] eqn:Ep'.
        -- apply (position_of_late _ _ _ _ Ep) in Ep'. change (String.length blank_line) with 4%nat in Ep'.
           destruct (Z.ltb_spec MAX_REQUEST_HEADER_BYTES (Z.of_nat (p + 4))); [done|lia].
        -- rewrite slen_append.
           destruct (Z.ltb_spec MAX_REQUEST_HEADER_BYTES
                       (Z.of_nat (String.length (request +:+ chunk) + String.length (concat_str chunks)))); [done|lia].
      * apply (IH (request +:+ chunk)); [done|done|lia].
Qed.

(** However the bytes of a connection are cut into reads, the request that is
    taken from them is the same. *)
Lemma read_request_framed started chunks turns :
  deadline = started + REQUEST_READ_TIMEOUT →
  Forall2 (turn_of deadline) chunks turns → Forall (λ c, c ≠ EmptyString) chunks →
  read_request started (turns ++ [eof]) = Some (framed (concat_str chunks)).
Proof.
  intros Hd Hf Hne. unfold read_request, read_request_with_timeout, framed. rewrite <-Hd.
  pose proof (read_headers_chunks EmptyString chunks turns Hf Hne eq_refl ltac:(done)) as H.
  rewrite append_nil_l in H. cbv zeta in H.
  destruct (position_of blank_line (concat_str chunks)) as [p|] eqn:Ep; [|by rewrite H].
  destruct (MAX_REQUEST_HEADER_BYTES <? Z.of_nat (p + 4)) eqn:El; [by rewrite H|].
  destruct H as (got & rest & chunks' & turns' & -> & -> & Hf' & Hne' & E & Hp).
  assert (stake (p + 4 - 4) got = stake p (concat_str chunks)) as Ht.
  { replace (p + 4 - 4)%nat with p by lia. rewrite E, stake_app; [done|].
    apply position_of_Some in Hp as (a & b & -> & <-). rewrite slen_append. lia. }
  rewrite Ht. destruct (content_length _ _) as [n|e] eqn:En; [|done]. cbn [rbind].
  apply content_length_range in En as [Hn _]. rewrite (read_body_chunks _ _ chunks' turns' Hf' Hne') by lia.
  rewrite <-E.
  destruct (Z.leb_spec (Z.of_nat (p + 4) + n) (slen (concat_str chunks))),
           (Z.ltb_spec (slen (concat_str chunks)) (Z.of_nat (p + 4) + n)); done || lia.
Qed.

End chunks.

Lemma stake_min k s : String.length (stake k s) = Nat.min k (String.length s).
Proof. revert s. induction k as [|k IH]; intros [|c s]; cbn; [done..|]. by rewrite IH. Qed.

Lemma stake_stake i k s : (i <= k)%nat → stake i (stake k s) = stake i s.
Proof. revert k s. induction i as [|i IH]; intros [|k] [|c s] H; cbn; try done; [lia|]. rewrite IH by lia. done. Qed.

(** An occurrence inside a prefix is the first one of the whole. *)
Lemma position_of_stake p s k n :
  position_of p s = Some n → (n + String.length p <= k)%nat → position_of p (stake k s) = Some n.
Proof.
  intros Hn Hk. pose proof Hn as Hn'. rewrite <-(stake_sdrop k s) in Hn'.
  destruct (position_of p (stake k s)) as [m|] eqn:Em.
  - apply (position_of_app _ _ (sdrop k s)) in Em. congruence.
  - pose proof (position_of_late _ _ _ _ Em Hn') as Hl. apply position_of_Some in Hn as (a & b & -> & <-).
    rewrite stake_min, !slen_append in Hl. lia.
Qed.

(** A request that was taken ends where its headers say, within the limits. *)
Lemma framed_bounds bytes request :
  framed bytes = Ok request →
  ∃ p n, position_of blank_line request = Some p ∧ slen request = Z.of_nat (p + 4) + n ∧
    content_length (Z.of_nat (p + 4)) (stake p request) = Ok n ∧
    Z.of_nat (p + 4) <= MAX_REQUEST_HEADER_BYTES ∧ slen request <= MAX_REQUEST_BYTES.
Proof.
  unfold framed. destruct (position_of blank_line bytes) as [p|] eqn:Ep; [|done]. intros H.
  guard_inv H as E1. apply rbind_Ok in H as (n & Hn & H). guard_inv H as E2. injection H as <-.
  apply Z.ltb_ge in E1, E2. destruct (content_length_range _ _ _ Hn) as [H0 Hmax].
  exists p, n. rewrite stake_min, stake_stake by lia.
  split_and!; [|lia|done|done|lia]. apply position_of_stake; [done|]. change (String.length blank_line) with 4%nat. lia.
Qed.

(** ** The deadline *)

(** The turns a request needed all began before its deadline, so a peer that
    trickles bytes cannot keep the thread past it. *)
Lemma read_chunk_in_time deadline what closed t chunk :
  read_chunk deadline what closed t = Ok chunk → rt_now t < deadline.
Proof.
  unfold read_chunk, set_request_read_deadline. intros H. apply rbind_Ok in H as ([] & H & _). guard_inv H as E.
  apply Z.eqb_neq in E. unfold sat_sub64 in E. lia.
Qed.

Definition late (deadline : Z) (t : ReadTurn) : Prop := deadline <= rt_now t.

Lemma late_chunk deadline what closed t : late deadline t → ∃ e, read_chunk deadline what closed t = Err e.
Proof.
  intros Hl. destruct (read_chunk deadline what closed t) as [c|e] eqn:E; [|eauto].
  apply read_chunk_in_time in E. unfold late in Hl. lia.
Qed.

Lemma read_body_ends deadline total request turns t :
  late deadline t → ∃ r, read_body deadline total request (turns ++ [t]) = Some r.
Proof.
  intros Hl. revert request. induction turns as [|u turns IH]; intros request; cbn; (case_match; [eauto|]).
  - destruct (late_chunk deadline " body" "installer request body is incomplete" t Hl) as [e ->]. eauto.
  - destruct (read_chunk _ _ _ u); eauto.
Qed.

Lemma read_headers_ends deadline request turns t :
  late deadline t →
  (∃ e, read_headers deadline request (turns ++ [t]) = Some (Err e)) ∨
  ∃ n got rest, read_headers deadline request (turns ++ [t]) = Some (Ok (n, got, rest ++ [t])).
Proof.
  intros Hl. revert request. induction turns as [|u turns IH]; intros request; cbn.
  - destruct (late_chunk deadline EmptyString "installer client closed before sending a request" t Hl) as [e ->]. eauto.
  - destruct (read_chunk _ _ _ u) as [chunk|e]; [|eauto]. destruct (position_of _ _) as [p|].
    + case_match; [eauto|]. right. eauto.
    + case_match; [eauto|]. apply IH.
Qed.

(** Whatever the peer sends and however slowly, the thread has its answer by the
    first turn at or after the deadline. *)
Lemma read_request_ends started turns t :
  late (started + REQUEST_READ_TIMEOUT) t → ∃ r, read_request started (turns ++ [t]) = Some r.
Proof.
  intros Hl. unfold read_request, read_request_with_timeout.
  destruct (read_headers_ends _ EmptyString turns t Hl) as [[e ->]|(n & got & rest & ->)]; [eauto|].
  destruct (content_length _ _); [|eauto]. by apply read_body_ends.
Qed.

(** * Tokens *)

Lemma xor_diff_zero diff a b :
  0 <= diff → String.length a = String.length b → xor_diff diff a b = 0 ↔ diff = 0 ∧ a = b.
Proof.
  revert diff b. induction a as [|x a IH]; intros diff [|y b] Hd Hl; cbn in *; try lia; [naive_solver|].
  assert (0 <= Z.lxor (byte_of x) (byte_of y)) as Hx by (apply Z.lxor_nonneg; unfold byte_of; lia).
  rewrite IH; [|by apply Z.lor_nonneg|lia]. rewrite Z.lor_eq_0_iff, Z.lxor_eq_0_iff by done. split.
  - intros [[-> Hb] ->]. split; [done|]. f_equal. unfold byte_of in Hb. apply N2Z.inj in Hb.
    by rewrite <-(ascii_N_embedding x), <-(ascii_N_embedding y), Hb.
  - by intros [-> [= -> ->]].
Qed.

Lemma tokens_equal_eq a b : tokens_equal a b = String.eqb a b.
Proof.
  unfold tokens_equal. destruct (Z.eqb_spec (slen a) (slen b)) as [Hl|Hl]; cbn [negb].
  - apply eq_true_iff_eq. rewrite Z.eqb_eq, String.eqb_eq, xor_diff_zero by lia. naive_solver.
  - symmetry. apply String.eqb_neq. by intros ->.
Qed.

(** * Reading a request, as a whole *)

(** C29: whatever pieces a request arrives in, as long as they arrive in time,
    the daemon takes from the connection the request that its bytes as a whole
    describe, or refuses it for the reason they give; a request that is taken
    ends exactly where its headers say, has at most 64 KiB of headers and 16 MiB in
    all. *)
Theorem request_framing_exact started chunks turns eof :
  turn_of (started + REQUEST_READ_TIMEOUT) EmptyString eof →
  Forall2 (turn_of (started + REQUEST_READ_TIMEOUT)) chunks turns → Forall (λ c, c ≠ EmptyString) chunks →
  read_request started (turns ++ [eof]) = Some (framed (concat_str chunks))
  ∧ ∀ request, framed (concat_str chunks) = Ok request →
      ∃ p n, position_of blank_line request = Some p ∧ slen request = Z.of_nat (p + 4) + n
        ∧ content_length (Z.of_nat (p + 4)) (stake p request) = Ok n
        ∧ Z.of_nat (p + 4) <= MAX_REQUEST_HEADER_BYTES ∧ slen request <= MAX_REQUEST_BYTES.
Proof.
  intros He Hf Hne. split; [by eapply read_request_framed|]. intros request. apply framed_bounds.
Qed.

(** * Witnesses *)

Definition small_request : string :=
  "POST /api/cancel HTTP/1.1" +:+ crlf +:+ "content-length: 2" +:+ blank_line +:+ "{}".
Definition on_time (text : string) : ReadTurn := {| rt_now := 5; rt_set := Ok tt; rt_read := Ok text |}.

Lemma request_framing_exact_witness :
  read_request 0 ([on_time (stake 27 small_request); on_time (sdrop 27 small_request)] ++ [on_time EmptyString])
  = Some (Ok small_request).
Proof.
  rewrite (proj1 (request_framing_exact 0 [stake 27 small_request; sdrop 27 small_request]
    [on_time (stake 27 small_request); on_time (sdrop 27 small_request)] (on_time EmptyString)
    ltac:(vm_compute; done) ltac:(repeat constructor; vm_compute; done) ltac:(repeat constructor; vm_compute; discriminate))).
  vm_compute. reflexivity.
Defined.

(** A sign is accepted in the hexadecimal digits of an escape. *)
Example signed_escape : query_value "/api/partitions?disk=%2Fdev%2Fsd%+F" "disk" = Some ("/dev/sd" +:+ bytes [15]%N).
Proof. vm_compute. reflexivity. Qed.
