(* ===== verification/DaemonJournal.v ===== *)
(** The partition routes of the daemon: [NativeJournalRegistry] of
    [installer_daemon.rs].

    One journal of partition edits is kept behind a mutex; the routes stage
    edits into it, and the commit route replaces what the client said about
    power and NTFS by the daemon's own probes before it hands the journal to
    [commit_request] (PartitionCommit.v).  The theorems are about what a journal
    can contain that the routes built, what a commit needs, and what is left in
    the registry after it. *)

From S2P Require Import Prelude RustStr RustOs Json FileSystem InstallerPlan StorageModel Partitions InstallerGuard.
From S2P Require Import InstallerDisk Probes ManualMounts PartitionEdits PartitionCommit Stream.

(** * Bounded probes *)

(** [std::process::Output]: exit code and the raw bytes of both pipes. *)
Record Output := { ou_code : option Z; ou_stdout : string; ou_stderr : string }.
Definition output_ok (o : Output) : bool := bool_decide (ou_code o = Some 0).

(** A child as [wait_for_child] sees it: what each call of [try_wait] answers,
    how much longer than asked the thread slept after it, and the collected
    output. *)
Inductive ChildPoll := ChildExited | ChildRunning | ChildError (e : string).
Record Child := {
  ch_spawn : result unit;
  ch_poll : nat → ChildPoll;
  ch_oversleep : nat → nat;
  ch_output : result Output;
}.

Fixpoint child_elapsed (c : Child) (n : nat) : Z :=
  match n with
  | O => 0
  | S n => child_elapsed c n + 50 + Z.of_nat (ch_oversleep c n)
  end.

Definition child_verdict (c : Child) (operation : string) (timeout : Z) (n : nat) : option (result Output) :=
  match ch_poll c n with
  | ChildExited => Some (map_err (λ e, "could not collect " +:+ operation +:+ " output: " +:+ e) (ch_output c))
  | ChildRunning =>
      if child_elapsed c n <? timeout * 1000 then None
      else Some (Err (operation +:+ " timed out after " +:+ show_int timeout +:+ " seconds"))
  | ChildError e => Some (Err ("could not wait for " +:+ operation +:+ ": " +:+ e))
  end.

(** [timeout] in seconds. *)
Definition wait_for_child (c : Child) (operation : string) (timeout : Z) : result Output :=
  match poll_until (child_verdict c operation timeout) (poll_fuel 50 (timeout * 1000)) 0 with
  | Some r => r
  | None => Err (operation +:+ " timed out after " +:+ show_int timeout +:+ " seconds")
  end.

(** A power supply directory: its entries with the contents of their [status]
    and [online] files. *)
Record Supply := { su_name : string; su_status : option string; su_online : option string }.
Inductive PowerRoot := PowerMissing | PowerUnreadable | PowerEntries (entries : list Supply).

(** What the daemon asks of the machine, as far as [EditOs] does not say it. *)
Class DaemonOs := {
  dn_child : list CommitEvent → string → list string → Child;
  dn_power : list CommitEvent → PowerRoot;
}.

(** * Attestations *)

(** The loop over the entries: [None] is the early return of a discharging
    battery. *)
Fixpoint supplies_loop (saw_battery ac_online saw_ac : bool) (entries : list Supply) : option (bool * bool * bool) :=
  match entries with
  | [] => Some (saw_battery, ac_online, saw_ac)
  | e :: entries =>
      if starts_with "BAT" (su_name e) then
        match su_status e with
        | Some status =>
            if String.eqb (trim status) "Discharging" then None else supplies_loop true ac_online saw_ac entries
        | None => supplies_loop true ac_online saw_ac entries
        end
      else if starts_with "AC" (su_name e) || starts_with "ADP" (su_name e) then
        match su_online e with
        | Some online => supplies_loop saw_battery (ac_online || String.eqb (trim online) "1") true entries
        | None => supplies_loop saw_battery ac_online true entries
        end
      else supplies_loop saw_battery ac_online saw_ac entries
  end.

Definition ac_online_in (root : PowerRoot) : bool :=
  match root with
  | PowerMissing => true
  | PowerUnreadable => false
  | PowerEntries entries =>
      match supplies_loop false false false entries with
      | None => false
      | Some (saw_battery, ac_online, saw_ac) => if saw_battery then saw_ac && ac_online else true
      end
  end.

Definition ellipsis : string := bytes [226; 128; 166]%N.
Definition em_dash : string := bytes [226; 128; 148]%N.

Definition resize_op_params (partition : string) (new_size_bytes : Z) (value : json) : result json :=
  let params := jobject [("partition", JString partition); ("new_size_bytes", JNumber new_size_bytes)] in
  let? params :=
    match trim <$> field as_str "gpt_backup_path" value with
    | Some backup =>
        if is_empty backup then Ok params
        else
          guard! negb (path_on_external_media backup)
            else ("GPT backup " +:+ show_debug backup +:+ " must be on external media (/run/media/" +:+ ellipsis
                  +:+ ", /mnt/" +:+ ellipsis +:+ ") " +:+ em_dash
                  +:+ " a backup on the disk being shrunk is lost with it.");
          Ok (jset "gpt_backup_path" (JString backup) params)
    | None => Ok params
    end in
  let params := match field as_bool "ntfs_verified_clean" value with
                | Some b => jset "ntfs_verified_clean" (JBool b) params
                | None => params
                end in
  Ok (match field as_bool "on_ac_power" value with
      | Some b => jset "on_ac_power" (JBool b) params
      | None => params
      end).

Section daemon.
Context {HL : LsblkDecoder} {HF : FindmntDecoder} {HJ : JsonCodec} {HO : EditOs} {HD : DaemonOs}.

Definition run_probe (evs : list CommitEvent) (program : string) (args : list string) : result Output :=
  let c := dn_child evs program args in
  check! map_err (λ e, "could not run " +:+ program +:+ ": " +:+ e) (ch_spawn c);
  wait_for_child c program 30.

Definition command_output (evs : list CommitEvent) (program : string) (args : list string) : result string :=
  let? output := run_probe evs program args in
  guard! negb (output_ok output)
    else (program +:+ " failed with exit code " +:+ show_int (unwrap_or (ou_code output) 1) +:+ ": "
          +:+ trim (from_utf8_lossy (ou_stderr output)));
  match snd (from_utf8 (ou_stdout output)) with
  | None => Ok (ou_stdout output)
  | Some _ => Err (program +:+ " returned non-UTF-8 output")
  end.

(** [str::to_lowercase] on the tools' output; their vocabulary is ASCII. *)
Definition probe_fs_type_is_ntfs (evs : list CommitEvent) (device : string) : bool :=
  match run_probe evs "/usr/sbin/blkid" ["-o"; "value"; "-s"; "TYPE"; device] with
  | Ok out =>
      if output_ok out then
        let fs := to_ascii_lowercase (trim (from_utf8_lossy (ou_stdout out))) in
        is_empty fs || String.eqb fs "ntfs" || String.eqb fs "ntfs3"
      else true
  | Err _ => true
  end.

Definition ntfs_volume_is_clean (evs : list CommitEvent) (device : string) : bool :=
  match run_probe evs "/usr/sbin/ntfsfix" ["-n"; device] with
  | Ok out =>
      let stderr := to_ascii_lowercase (from_utf8_lossy (ou_stderr out)) in
      let stdout := to_ascii_lowercase (from_utf8_lossy (ou_stdout out)) in
      let combined := stdout +:+ " " +:+ stderr in
      negb (contains_str "dirty" combined) && negb (contains_str "corrupt" combined) && output_ok out
  | Err _ => false
  end.

Definition set_params (params : json) (op : PartitionOperation) : PartitionOperation :=
  {| po_kind := po_kind op; po_params := params; po_index := po_index op |}.

Definition stamp_power (online : bool) (op : PartitionOperation) : PartitionOperation :=
  if String.eqb (po_kind op) "resize"
  then set_params (jset "on_ac_power" (JBool online) (po_params op)) op
  else op.

Definition stamp_shrink_power_attestation (evs : list CommitEvent) (j : PartitionJournal) : PartitionJournal :=
  with_ops (stamp_power (ac_online_in (dn_power evs)) <$> pj_ops j) j.

Definition needs_check (evs : list CommitEvent) (target : string) (op : PartitionOperation) : bool :=
  match field as_str "fs_type" (po_params op) with
  | Some fs => String.eqb fs "ntfs" || String.eqb fs "ntfs3"
  | None => probe_fs_type_is_ntfs evs target
  end.

Definition stamp_ntfs (evs : list CommitEvent) (op : PartitionOperation) : PartitionOperation :=
  if negb (String.eqb (po_kind op) "resize") then op
  else
    let target := unwrap_or (field as_str "partition" (po_params op)) EmptyString in
    if is_empty target then op
    else if needs_check evs target op
    then set_params (jset "ntfs_verified_clean" (JBool (ntfs_volume_is_clean evs target)) (po_params op)) op
    else op.

Definition stamp_ntfs_attestation (evs : list CommitEvent) (j : PartitionJournal) : PartitionJournal :=
  with_ops (stamp_ntfs evs <$> pj_ops j) j.

Definition disk_exists (evs : list CommitEvent) (disk : string) : result unit :=
  let? disk := ok_or (InstallerPlan.normalize_device_path disk) "Invalid or unsafe disk." in
  let? output := run_probe evs "/usr/bin/lsblk" ["--noheadings"; "--output"; "TYPE"; disk] in
  guard! negb (output_ok output)
         || negb (existsb (λ line, String.eqb (trim line) "disk") (lines (from_utf8_lossy (ou_stdout output))))
    else "Invalid or unsafe disk.";
  Ok tt.

(** * The registry *)

(** What is shared between requests: the journal behind its mutex, the machine
    (what was done to it, the locks), and the three caches of probes. *)
Record JState := {
  js_active : option PartitionJournal;
  js_log : list CommitEvent;
  js_locks : Locks;
  js_parts : gmap string (Z * json);                  (* PARTITION_SNAPSHOT_CACHE *)
  js_scans : gmap string (Z * (string * Z));          (* DISK_SCAN_CACHE *)
  js_disks : option (Z * json);                       (* DISKS_RESPONSE_CACHE *)
}.

Definition set_active (active : option PartitionJournal) (s : JState) : JState :=
  {| js_active := active; js_log := js_log s; js_locks := js_locks s; js_parts := js_parts s; js_scans := js_scans s;
     js_disks := js_disks s |}.
Definition set_scans scans (s : JState) : JState :=
  {| js_active := js_active s; js_log := js_log s; js_locks := js_locks s; js_parts := js_parts s; js_scans := scans;
     js_disks := js_disks s |}.
Definition set_disks disks (s : JState) : JState :=
  {| js_active := js_active s; js_log := js_log s; js_locks := js_locks s; js_parts := js_parts s; js_scans := js_scans s;
     js_disks := disks |}.

(** A computation of the journal's file, on the machine as it is. *)
Definition run_c {A} (j : PartitionJournal) (c : C A) (s : JState) : result A * JState :=
  let '(r, m) := c (commit_state (js_log s) (js_parts s) (js_locks s) j) in
  (r, {| js_active := js_active s; js_log := cs_log m; js_locks := cs_locks m; js_parts := cs_cache m;
         js_scans := js_scans s; js_disks := js_disks s |}).

Definition invalidate_storage_caches (s : JState) : JState :=
  {| js_active := js_active s; js_log := js_log s; js_locks := js_locks s; js_parts := ∅; js_scans := ∅; js_disks := None |}.

Definition refusal (message : string) : json := jobject [("ok", JBool false); ("message", JString message)].
Definition Answer : Type := Z * json.
Definition refused (message : string) : Answer := (400, refusal message).
Definition pending_answer (j : PartitionJournal) : Answer :=
  (200, jobject [("ok", JBool true); ("pending", JNumber (Z.of_nat (length (pj_ops j))))]).

Definition request_disk (value : json) : result string :=
  ok_or (field as_str "disk" value ≫= InstallerPlan.normalize_device_path) "No disk specified.".

Definition journal_for (active : option PartitionJournal) (disk : string) : result PartitionJournal :=
  match active with
  | Some j =>
      if String.eqb (pj_disk j) disk then Ok j
      else Err "No active partition journal for this disk. Create a new partition table first."
  | None => Err "No active partition journal for this disk. Create a new partition table first."
  end.

(** [NativeJournalRegistry::pending] and [filesystems] *)
Definition journal_pending (value : json) (s : JState) : result json :=
  let? requested :=
    match jget "disk" value with
    | None => Ok None
    | Some v => rmap Some (ok_or (as_str v ≫= InstallerPlan.normalize_device_path) "requested disk path is invalid")
    end in
  let ops := match js_active s with
             | Some j => if match requested with None => true | Some d => String.eqb (pj_disk j) d end
                         then pending j else []
             | None => []
             end in
  Ok (JArray (op_document <$> ops)).

Definition filesystem_entry (id name : string) (root efi : bool) : json :=
  jobject [("id", JString id); ("name", JString name); ("root_ok", JBool root); ("efi_ok", JBool efi)].
Definition filesystems : json :=
  JArray [filesystem_entry "btrfs" "Btrfs" true false; filesystem_entry "ext4" "ext4" false false;
          filesystem_entry "xfs" "XFS" false false; filesystem_entry "fat32" "FAT32" false true;
          filesystem_entry "linux-swap" "Swap" false false].

Definition SUPPORTED_FS : list string := ["btrfs"; "ext4"; "xfs"; "fat32"; "linux-swap"].

(** ** Staging *)

(** [lsblk] for the identity of a disk, as [read_disk_identity] runs it. *)
Definition identity_probe (evs : list CommitEvent) (disk : string) : result string :=
  @probe_text (eo_runner evs) "/usr/bin/lsblk"
    ["--json"; "--bytes"; "--paths"; "--output"; "NAME,SIZE,TYPE,MODEL,SERIAL"; disk]
    (λ e, "could not probe disk identity: " +:+ e) "disk identity probe failed" "disk identity probe was not UTF-8".

Definition no_identity (j : PartitionJournal) : bool :=
  bool_decide (pj_disk_model j = None) && bool_decide (pj_disk_serial j = None)
  && bool_decide (pj_disk_size_bytes j = None).

Definition new_table (disk : string) (value : json) (s : JState) : result PartitionJournal :=
  let table_type := unwrap_or (field as_str "table_type" value) "gpt" in
  guard! negb (str_in table_type ["gpt"; "msdos"]) else "Table type must be 'gpt' or 'msdos'.";
  check! disk_exists (js_log s) disk;
  let? journal := PartitionEdits.new (read_disk_identity (identity_probe (js_log s))) disk in
  guard! no_identity journal
    else "Could not capture the target disk identity (lsblk MODEL/SERIAL/SIZE); refusing to stage partition changes.";
  Ok (snd (add_op "new_table" (jobject [("table_type", JString table_type)]) journal)).

Definition create (value : json) (journal : PartitionJournal) : result PartitionJournal :=
  let? start_bytes := ok_or (field as_u64 "start_bytes" value) "Invalid start offset or size." in
  let? size_bytes := ok_or (field as_u64 "size_bytes" value) "Invalid start offset or size." in
  guard! size_bytes =? 0 else "Invalid start offset or size.";
  let fs_type := unwrap_or (field as_str "fs_type" value) "btrfs" in
  guard! negb (str_in fs_type SUPPORTED_FS) else ("Unsupported filesystem: " +:+ fs_type);
  Ok (snd (add_op "create"
    (jobject [("start_bytes", JNumber start_bytes); ("size_bytes", JNumber size_bytes); ("fs_type", JString fs_type);
              ("label", JString (unwrap_or (field as_str "label" value) EmptyString));
              ("mountpoint", JString (unwrap_or (field as_str "mountpoint" value) EmptyString))]) journal)).

Definition remove_pending (value : json) (journal : PartitionJournal) : result PartitionJournal :=
  guard! pj_committed journal else "Partition changes have already been committed and cannot be edited.";
  let? index := ok_or (field as_u64 "index" value) "Invalid pending operation index." in
  let '(removed, journal) := remove_op index journal in
  guard! negb removed else "Invalid pending operation index.";
  Ok journal.

(** The operation an edit of an existing partition stages. *)
Definition edit_op (route partition : string) (value : json) : result (string * json) :=
  if String.eqb route "/api/disk/delete" then Ok ("delete", jobject [("partition", JString partition)])
  else if String.eqb route "/api/disk/resize" then
    let? size := ok_or (field as_u64 "new_size_bytes" value) "A new size is required." in
    let? params := resize_op_params partition size value in
    Ok ("resize", params)
  else if String.eqb route "/api/disk/format" then
    let fs_type := unwrap_or (field as_str "fs_type" value) "btrfs" in
    guard! negb (str_in fs_type SUPPORTED_FS) else ("Unsupported filesystem: " +:+ fs_type);
    Ok ("format", jobject [("partition", JString partition); ("fs_type", JString fs_type);
                           ("label", JString (unwrap_or (field as_str "label" value) EmptyString))])
  else
    let mountpoint := unwrap_or (field as_str "mountpoint" value) EmptyString in
    guard! negb (is_empty mountpoint) && negb (String.eqb mountpoint "swap") && negb (starts_with "/" mountpoint)
      else "Mount point must be an absolute path (e.g. /, /home).";
    Ok ("set_mountpoint", jobject [("partition", JString partition); ("mountpoint", JString mountpoint)]).

(** The target check runs lsblk through the snapshot cache, so it changes the
    shared state also when the edit is refused. *)
Definition edit (route disk : string) (value : json) (journal : PartitionJournal) (s : JState) : Answer * JState :=
  match field as_str "partition" value ≫= InstallerPlan.normalize_device_path with
  | None => (refused "Disk and partition are required.", s)
  | Some partition =>
      match run_c journal (validate_target_request disk partition) s with
      | (Err e, s) => (refused e, s)
      | (Ok valid, s) =>
          if negb (unwrap_or (field as_bool "valid" valid) false) then
            ((400, jobject [("ok", JBool false);
                            ("message", unwrap_or (jget "error" valid) (JString "Partition target is invalid."))]), s)
          else
            match edit_op route partition value with
            | Err e => (refused e, s)
            | Ok (kind, params) =>
                let journal := snd (add_op kind params journal) in
                (pending_answer journal, set_active (Some journal) s)
            end
      end
  end.

(** ** Commit and rollback *)

Definition consent (value : json) : bool :=
  bool_decide (field as_bool "confirm_erase" value = Some true)
  && bool_decide (match field as_bool "acknowledged-irreversible" value with
                  | Some b => Some b
                  | None => field as_bool "acknowledged_irreversible" value
                  end = Some true).

(** [serde_json::from_value::<PartitionJournal>] of a printed journal. *)
Definition opt_field {A} (f : json → option A) (key : string) (v : json) : option (option A) :=
  match jget key v with
  | None | Some JNull => Some None
  | Some x => Some <$> f x
  end.
Definition op_of_document (v : json) : option PartitionOperation :=
  kind ← field as_str "kind" v; params ← jget "params" v; index ← field as_u64 "index" v;
  Some {| po_kind := kind; po_params := params; po_index := index |}.
Definition journal_of_document (v : json) : option PartitionJournal :=
  disk ← field as_str "disk" v;
  ops ← field as_array "ops" v;
  ops ← mapM op_of_document ops;
  committed ← field as_bool "committed" v;
  root ← opt_field as_str "root_partition" v;
  irreversible ← field as_bool "irreversible_completed" v;
  model ← opt_field as_str "disk_model" v;
  serial ← opt_field as_str "disk_serial" v;
  size ← opt_field as_u64 "disk_size_bytes" v;
  Some {| pj_disk := disk; pj_ops := ops; pj_committed := committed; pj_root_partition := root;
          pj_irreversible_completed := irreversible; pj_disk_model := model; pj_disk_serial := serial;
          pj_disk_size_bytes := size |}.

(** The journal that is committed: the one staged, with the daemon's own word on
    power and NTFS. *)
Definition stamped (evs : list CommitEvent) (j : PartitionJournal) : PartitionJournal :=
  stamp_ntfs_attestation evs (stamp_shrink_power_attestation evs j).

Definition commit_route (disk : string) (value : json) (s : JState) : Answer * JState :=
  if negb (consent value) then
    (refused "Confirm erase and acknowledge the irreversible partition change before committing.", s)
  else
    match journal_for (js_active s) disk with
    | Err e => (refused e, s)
    | Ok journal =>
        let journal := stamped (js_log s) journal in
        match run_c journal (commit_request journal) s with
        | (Err e, s) => ((500, refusal e), s)
        | (Ok reply, s) =>
            let response := reply_document reply in
            let s := invalidate_storage_caches s in
            if bool_decide (field as_bool "ok" response = Some true) then
              ((200, response),
               match jget "journal" response ≫= journal_of_document with
               | Some committed => set_active (Some committed) s
               | None => s
               end)
            else if bool_decide (is_Some (jget "errors" response)) then ((400, response), s)
            else ((500, response), s)
        end
    end.

Definition rollback_route (journal : PartitionJournal) (s : JState) : Answer * JState :=
  match rollback_metadata journal with
  | (Ok _, journal) => ((200, jobject [("ok", JBool true)]), set_active (Some journal) s)
  | (Err e, _) => (refused e, s)
  end.

(** A route that only rewrites the active journal. *)
Definition staging (answer : PartitionJournal → Answer) (r : result PartitionJournal) (s : JState) : Answer * JState :=
  match r with
  | Ok journal => (answer journal, set_active (Some journal) s)
  | Err e => (refused e, s)
  end.

Definition dispatch (route : string) (value : json) (s : JState) : Answer * JState :=
  match request_disk value with
  | Err e => (refused e, s)
  | Ok disk =>
      if String.eqb route "/api/disk/new-table" then staging pending_answer (new_table disk value s) s
      else if String.eqb route "/api/disk/create" then
        staging (λ j, (200, jobject [("ok", JBool true); ("pending", JNumber (Z.of_nat (length (pj_ops j))));
                                     ("errors", JArray [])]))
          (let? journal := journal_for (js_active s) disk in create value journal) s
      else if String.eqb route "/api/disk/pending/remove" then
        staging pending_answer (let? journal := journal_for (js_active s) disk in remove_pending value journal) s
      else if str_in route ["/api/disk/delete"; "/api/disk/resize"; "/api/disk/format"; "/api/disk/set-mountpoint"] then
        match journal_for (js_active s) disk with
        | Ok journal => edit route disk value journal s
        | Err e => (refused e, s)
        end
      else if String.eqb route "/api/disk/commit" then commit_route disk value s
      else if String.eqb route "/api/disk/rollback" then
        match journal_for (js_active s) disk with
        | Ok journal => rollback_route journal s
        | Err e => (refused e, s)
        end
      else ((404, refusal "Route not found."), s)
  end.
End daemon.

(** * Probes end *)

Lemma child_elapsed_bound c n : 50 * Z.of_nat n <= child_elapsed c n.
Proof. induction n as [|n IH]; cbn [child_elapsed]; lia. Qed.

Lemma child_verdict_None c operation timeout n :
  child_verdict c operation timeout n = None → 50 * Z.of_nat n < timeout * 1000.
Proof.
  unfold child_verdict. destruct (ch_poll c n); [done| |done].
  destruct (Z.ltb_spec (child_elapsed c n) (timeout * 1000)); [|done]. pose proof (child_elapsed_bound c n). lia.
Qed.

(** The wait for a child is decided by a poll within the timeout: what the first
    deciding poll says is returned, and a wedged child is an error. *)
Lemma wait_for_child_decided c operation timeout :
  0 <= timeout →
  ∃ n r, Z.of_nat n <= timeout * 1000 / 50 + 1 ∧ wait_for_child c operation timeout = r
    ∧ child_verdict c operation timeout n = Some r ∧ ∀ k, (k < n)%nat → ch_poll c k = ChildRunning.
Proof.
  intros Ht. destruct (poll_until_decides (child_verdict c operation timeout) 50 (timeout * 1000))
    as (n & r & Hn & E & Hv & Hk); [lia|lia|apply child_verdict_None|].
  exists n, r. unfold wait_for_child. rewrite E. split_and!; [done..|]. intros k Hlt. specialize (Hk k Hlt).
  unfold child_verdict in Hk. by destruct (ch_poll c k).
Qed.

(** * Power *)

Definition discharging (e : Supply) : bool :=
  starts_with "BAT" (su_name e) && match su_status e with Some st => String.eqb (trim st) "Discharging" | None => false end.
Definition battery (e : Supply) : bool := starts_with "BAT" (su_name e).
Definition mains (e : Supply) : bool := negb (battery e) && (starts_with "AC" (su_name e) || starts_with "ADP" (su_name e)).
Definition mains_online (e : Supply) : bool :=
  mains e && match su_online e with Some st => String.eqb (trim st) "1" | None => false end.

Lemma supplies_loop_spec entries b o a :
  supplies_loop b o a entries
  = if existsb discharging entries then None
    else Some (b || existsb battery entries, o || existsb mains_online entries, a || existsb mains entries).
Proof.
  revert b o a. induction entries as [|e entries IH]; intros b o a; cbn [supplies_loop existsb];
    [by rewrite !orb_false_r|].
  assert (battery e = starts_with "BAT" (su_name e)) as Hb by done.
  assert (mains e = negb (battery e) && (starts_with "AC" (su_name e) || starts_with "ADP" (su_name e))) as Hm by done.
  unfold discharging at 1, mains_online at 1. rewrite Hm, Hb.
  destruct (starts_with "BAT" (su_name e)); cbn [andb orb negb].
  - destruct (su_status e) as [st|]; [destruct (String.eqb _ _); [done|]|];
      rewrite IH; cbn [orb]; by rewrite orb_true_r.
  - destruct (starts_with "AC" _ || starts_with "ADP" _); cbn [andb orb]; [|by rewrite IH].
    destruct (su_online e) as [st|]; rewrite IH, ?orb_assoc, ?orb_true_r, ?orb_false_r; done.
Qed.

(** Mains power is attested exactly when there is no power-supply tree, or no
    battery is discharging and either there is no battery at all or a supply
    reports that it is online. *)
Lemma ac_online_exact root :
  ac_online_in root = true ↔
  root = PowerMissing ∨ ∃ entries, root = PowerEntries entries
    ∧ existsb discharging entries = false
    ∧ (existsb battery entries = false ∨ existsb mains_online entries = true).
Proof.
  destruct root as [| |entries]; cbn [ac_online_in].
  - split; [by left|done].
  - split; [done|]. by intros [[=]|(? & [=] & _)].
  - rewrite supplies_loop_spec. cbn [orb]. destruct (existsb discharging entries) eqn:Ed.
    { split; [done|]. intros [[=]|(? & [= <-] & Hd & _)]. congruence. }
    destruct (existsb battery entries) eqn:Eb.
    + rewrite andb_true_iff. split.
      * intros [_ Ho]. right. eauto 6.
      * intros [[=]|(? & [= <-] & _ & [Hb|Ho])]; [congruence|]. split; [|done].
        apply existsb_elem_of in Ho as (e & He & Ho). apply existsb_elem_of. exists e. split; [done|].
        unfold mains_online in Ho. by apply andb_true_iff in Ho as [? _].
    + split; [|done]. intros _. right. eauto 6.
Qed.

(** * Stamps *)

Lemma jget_jset_ne key key' x v : key ≠ key' → (∃ m, v = JObject m) → jget key' (jset key x v) = jget key' v.
Proof. intros Hne [m ->]. cbn. by apply lookup_insert_ne. Qed.
Lemma jset_is_object key x v : (∃ m, v = JObject m) → ∃ m, jset key x v = JObject m.
Proof. intros [m ->]. by eexists. Qed.

(** What the routes put into an operation of a journal on this disk. *)
Definition TARGETED : list string := ["delete"; "resize"; "format"; "set_mountpoint"].
Record staged (disk : string) (op : PartitionOperation) : Prop := {
  so_object : ∃ m, po_params op = JObject m;
  so_unmarked : jget "_created_this_journal" (po_params op) = None;
  so_kind : po_kind op ∈ "new_table" :: "create" :: TARGETED;
  so_target : po_kind op ∈ TARGETED →
    ∃ p, field as_str "partition" (po_params op) = Some p ∧ InstallerPlan.device_path p ∧ partition_name_matches disk p = true;
  so_resize : po_kind op = "resize" → jget "fs_type" (po_params op) = None;
  so_backup : ∀ b, po_kind op = "resize" → field as_str "gpt_backup_path" (po_params op) = Some b →
    path_on_external_media b = true;
}.

(** A key the routes set after the fact. *)
Lemma staged_jset disk key v op :
  key ∉ ["_created_this_journal"; "partition"; "fs_type"; "gpt_backup_path"] →
  staged disk op → staged disk (set_params (jset key v (po_params op)) op).
Proof.
  intros Hkey [Ho Hu Hk Ht Hr Hb].
  assert (∀ k, k ∈ ["_created_this_journal"; "partition"; "fs_type"; "gpt_backup_path"] →
               jget k (jset key v (po_params op)) = jget k (po_params op)) as Hsame.
  { intros k Hin. apply jget_jset_ne; [|done]. by intros ->. }
  split; cbn [po_kind po_params set_params]; unfold field in *; rewrite ?Hsame by set_solver; auto.
  by apply jset_is_object.
Qed.

Section stamps.
Context {HD : DaemonOs} (evs : list CommitEvent).




End stamps.

(** * A committed journal is read back as it was printed *)

Lemma op_document_inv op : is_u64 (po_index op) → op_of_document (op_document op) = Some op.
Proof.
  intros Hi. unfold op_of_document.
  change (field as_str "kind" (op_document op)) with (Some (po_kind op)).
  change (jget "params" (op_document op)) with (Some (po_params op)).
  change (field as_u64 "index" (op_document op)) with (as_u64 (JNumber (po_index op))).
  rewrite (as_u64_number _ Hi). cbn. by destruct op.
Qed.

(** A journal as [usize] and [u64] fields allow it. *)
Definition sized (j : PartitionJournal) : Prop :=
  Forall (λ op, is_u64 (po_index op)) (pj_ops j) ∧ ∀ n, pj_disk_size_bytes j = Some n → is_u64 n.

Lemma journal_document_inv j : sized j → journal_of_document (journal_document j) = Some j.
Proof.
  intros [Hops Hsize]. unfold journal_of_document.
  change (field as_str "disk" (journal_document j)) with (Some (pj_disk j)).
  change (field as_array "ops" (journal_document j)) with (Some (op_document <$> pj_ops j)).
  change (field as_bool "committed" (journal_document j)) with (Some (pj_committed j)).
  change (field as_bool "irreversible_completed" (journal_document j)) with (Some (pj_irreversible_completed j)).
  assert (mapM op_of_document (op_document <$> pj_ops j) = Some (pj_ops j)) as Hm.
  { apply mapM_Some. apply Forall2_fmap_l, Forall_Forall2_diag. eapply Forall_impl; [exact Hops|]. apply op_document_inv. }
  assert (∀ o, match jstring_opt o with JNull => Some None | x => Some <$> as_str x end = Some o) as Hs by (by intros [|]).
  unfold opt_field.
  change (jget "root_partition" (journal_document j)) with (Some (jstring_opt (pj_root_partition j))).
  change (jget "disk_model" (journal_document j)) with (Some (jstring_opt (pj_disk_model j))).
  change (jget "disk_serial" (journal_document j)) with (Some (jstring_opt (pj_disk_serial j))).
  change (jget "disk_size_bytes" (journal_document j)) with (Some (jopt (pj_disk_size_bytes j))).
  assert (match jopt (pj_disk_size_bytes j) with JNull => Some None | x => Some <$> as_u64 x end
          = Some (pj_disk_size_bytes j)) as Hz.
  { destruct (pj_disk_size_bytes j) as [n|]; [|done].
    change (Some <$> as_u64 (JNumber n) = Some (Some n)). by rewrite (as_u64_number n (Hsize n eq_refl)). }
  cbn [mbind option_bind]. rewrite Hm. cbn [mbind option_bind].
  destruct j as [disk ops com root irr model serial size]. cbn [pj_root_partition pj_disk_model pj_disk_serial
    pj_disk_size_bytes pj_disk pj_committed pj_irreversible_completed pj_ops] in *.
  destruct root, model, serial; cbn [jstring_opt as_str fmap option_fmap option_map mbind option_bind];
    by destruct size; cbn [jopt mbind option_bind] in Hz |- *; rewrite ?Hz.
Qed.

Lemma journal_document_fields j c :
  journal_of_document (journal_document j) = Some c → pj_disk c = pj_disk j ∧ pj_committed c = pj_committed j.
Proof.
  unfold journal_of_document.
  change (field as_str "disk" (journal_document j)) with (Some (pj_disk j)).
  change (field as_bool "committed" (journal_document j)) with (Some (pj_committed j)).
  cbn [mbind option_bind]. intros H.
  repeat match type of H with
  | context [mbind _ ?x] => destruct x; cbn [mbind option_bind] in H; [|done]
  end. by injection H as <-.
Qed.

(** * What the routes can stage *)

Record journal_ok (j : PartitionJournal) : Prop := {
  jo_disk : InstallerPlan.device_path (pj_disk j);
  jo_identity : no_identity j = false;
  jo_ops : Forall (staged (pj_disk j)) (pj_ops j);
}.

Definition state_ok (s : JState) : Prop :=
  ∀ j, js_active s = Some j → pj_committed j = false → journal_ok j.

Lemma add_op_ok kind params j :
  journal_ok j → (∀ i, staged (pj_disk j) {| po_kind := kind; po_params := params; po_index := i |}) →
  journal_ok (snd (add_op kind params j)).
Proof. intros [Hd Hi Ho] Hs. split; [done..|]. cbn. apply Forall_app_2; [done|]. by constructor. Qed.

Lemma remove_index_subset i ops ops' : remove_index i ops = Some ops' → ∀ op, op ∈ ops' → op ∈ ops.
Proof.
  revert ops'. induction ops as [|o ops IH]; intros ops'; cbn; [done|].
  destruct (po_index o =? i); [intros [= <-]; by right|].
  destruct (remove_index i ops) as [l|]; [|done]. intros [= <-] op [->|Hin]%elem_of_cons; [by left|right; by eapply IH].
Qed.

(** The shapes of the parameters are concrete maps; looking a key up computes. *)
Ltac staged_shape :=
  split; cbn [po_kind po_params]; [eexists; reflexivity|reflexivity|set_solver
         |intros Hk; try (exfalso; revert Hk; clear; set_solver)|try done|try done].

Section staging.
Context {HL : LsblkDecoder} {HF : FindmntDecoder} {HJ : JsonCodec} {HO : EditOs} {HD : DaemonOs}.

Lemma new_table_ok disk value s j :
  InstallerPlan.device_path disk → new_table disk value s = Ok j → journal_ok j ∧ pj_disk j = disk ∧ pj_committed j = false.
Proof.
  unfold new_table. intros Hdev H. guard_inv H as E1. apply rbind_Ok in H as ([] & _ & H).
  apply rbind_Ok in H as (j0 & Hn & H). guard_inv H as E2. injection H as <-.
  unfold PartitionEdits.new in Hn. rewrite (normalize_device_path_complete _ Hdev) in Hn. cbn [ok_or rbind] in Hn.
  injection Hn as <-. split; [|done]. apply add_op_ok; [by split|]. intros i. staged_shape.
Qed.

Lemma create_ok value j j' : journal_ok j → create value j = Ok j' → journal_ok j'.
Proof.
  intros Hj. unfold create. intros H. apply rbind_Ok in H as (st & _ & H). apply rbind_Ok in H as (sz & _ & H).
  guard_inv H as E1. guard_inv H as E2. injection H as <-. apply add_op_ok; [done|]. intros i. staged_shape.
Qed.

Lemma remove_pending_ok value j j' : journal_ok j → remove_pending value j = Ok j' → journal_ok j'.
Proof.
  intros Hj. unfold remove_pending. intros H. guard_inv H as E1. apply rbind_Ok in H as (i & _ & H).
  unfold remove_op in H. destruct (remove_index i (pj_ops j)) as [ops|] eqn:E; [|done]. cbn in H. injection H as <-.
  destruct Hj as [Hd Hi Ho]. split; [done..|]. cbn. rewrite Forall_forall in *. intros op Hin.
  by eapply Ho, remove_index_subset.
Qed.

Lemma resize_params_staged disk partition size value params i :
  InstallerPlan.device_path partition → partition_name_matches disk partition = true →
  resize_op_params partition size value = Ok params →
  staged disk {| po_kind := "resize"; po_params := params; po_index := i |}.
Proof.
  intros Hdev Hm. unfold resize_op_params. intros H. apply rbind_Ok in H as (p0 & H0 & [= <-]).
  assert (staged disk {| po_kind := "resize"; po_params := p0; po_index := i |}) as Hs.
  { set (base := jobject _) in H0.
    assert (p0 = base ∨ ∃ b, p0 = jset "gpt_backup_path" (JString b) base ∧ path_on_external_media b = true) as Hp.
    { destruct (trim <$> _) as [b|]; [|left; by injection H0 as <-]. destruct (is_empty b); [left; by injection H0 as <-|].
      guard_inv H0 as E. injection H0 as <-. right. exists b. split; [done|]. by apply negb_false_iff. }
    destruct Hp as [->|(b & -> & Hb)]; (split; cbn [po_kind po_params]; [eexists; reflexivity|reflexivity|set_solver
      |intros _; exists partition; done|intros _; reflexivity|intros x _ Hx]).
    - done.
    - change (field as_str "gpt_backup_path" _) with (Some b) in Hx. by injection Hx as <-. }
  assert (∀ key v p, key ∉ ["_created_this_journal"; "partition"; "fs_type"; "gpt_backup_path"] →
    staged disk {| po_kind := "resize"; po_params := p; po_index := i |} →
    staged disk {| po_kind := "resize"; po_params := jset key v p; po_index := i |}) as Hset.
  { intros key v p Hk Hp. by apply (staged_jset _ key v) in Hp. }
  destruct (field as_bool "ntfs_verified_clean" value), (field as_bool "on_ac_power" value);
    repeat (apply Hset; [set_solver|]); done.
Qed.

Lemma edit_op_staged disk route partition value kind params i :
  InstallerPlan.device_path partition → partition_name_matches disk partition = true →
  edit_op route partition value = Ok (kind, params) →
  staged disk {| po_kind := kind; po_params := params; po_index := i |}.
Proof.
  intros Hdev Hm. unfold edit_op. destruct (String.eqb _ "/api/disk/delete"); [|destruct (String.eqb _ "/api/disk/resize");
    [|destruct (String.eqb _ "/api/disk/format")]].
  - intros [= <- <-]. staged_shape. exists partition. done.
  - intros H. apply rbind_Ok in H as (size & _ & H). apply rbind_Ok in H as (p & Hp & [= <- <-]).
    by eapply resize_params_staged.
  - intros H. guard_inv H as E. injection H as <- <-. staged_shape. exists partition. done.
  - intros H. guard_inv H as E. injection H as <- <-. staged_shape. exists partition. done.
Qed.

Lemma run_c_active {A} j (c : C A) s r s' : run_c j c s = (r, s') → js_active s' = js_active s.
Proof. unfold run_c. destruct (c _) as [r0 m]. by intros [= _ <-]. Qed.

Lemma valid_target disk partition s v s' :
  InstallerPlan.device_path disk → InstallerPlan.device_path partition →
  validate_target_request disk partition s = (Ok v, s') → unwrap_or (field as_bool "valid" v) false = true →
  partition_name_matches disk partition = true.
Proof.
  intros Hd Hp. unfold validate_target_request.
  rewrite (normalize_device_path_complete _ Hd), (normalize_device_path_complete _ Hp).
  destruct (partition_name_matches disk partition); [done|]. cbn [negb]. intros [= <- _].
  by change (unwrap_or _ _) with false.
Qed.

Lemma edit_spec route disk value j s a s' :
  InstallerPlan.device_path disk → edit route disk value j s = (a, s') →
  js_active s' = js_active s
  ∨ ∃ kind params, js_active s' = Some (snd (add_op kind params j)) ∧
      ∀ i, staged disk {| po_kind := kind; po_params := params; po_index := i |}.
Proof.
  intros Hd. unfold edit. destruct (field as_str "partition" value ≫= InstallerPlan.normalize_device_path) as [partition|] eqn:Ep;
    [|by intros [= _ <-]; left].
  assert (InstallerPlan.device_path partition) as Hp.
  { apply bind_Some in Ep as (raw & _ & Ep). by eapply normalize_device_path_sound. }
  destruct (run_c j _ s) as [r s1] eqn:Er. pose proof (run_c_active _ _ _ _ _ Er) as Ha.
  unfold run_c in Er. destruct (validate_target_request _ _ _) as [r0 m] eqn:Ev. injection Er as -> <-.
  destruct r as [valid|e]; [|by intros [= _ <-]; left].
  destruct (unwrap_or (field as_bool "valid" valid) false) eqn:Evalid; cbn [negb]; [|by intros [= _ <-]; left].
  apply valid_target in Ev; [|done..].
  destruct (edit_op route partition value) as [[kind params]|e] eqn:Ee; [|by intros [= _ <-]; left].
  intros [= _ <-]. right. exists kind, params. split; [done|]. intros i. by eapply edit_op_staged.
Qed.

(** The commit route: refused with nothing done, or a commit of the stamped
    journal with the client's consent, after which only a completed commit
    replaces the journal. *)
Lemma commit_route_spec disk value s a s' :
  commit_route disk value s = (a, s') →
  (s' = s ∧ ∃ e, a = refused e) ∨ ∃ j r m,
    consent value = true ∧ js_active s = Some j ∧ pj_disk j = disk
    ∧ commit_request (stamped (js_log s) j)
        (commit_state (js_log s) (js_parts s) (js_locks s) (stamped (js_log s) j)) = (r, m)
    ∧ js_log s' = cs_log m
    ∧ snd a = match r with Ok reply => reply_document reply | Err e => refusal e end
    ∧ (js_active s' = js_active s
       ∨ ∃ root j' c, r = Ok (Done root j') ∧ journal_of_document (journal_document j') = Some c ∧ js_active s' = Some c).
Proof.
  unfold commit_route. destruct (consent value); [|intros [= <- <-]; left; by eauto]. cbn [negb].
  unfold journal_for. destruct (js_active s) as [j|] eqn:Ea; [|intros [= <- <-]; left; by eauto].
  destruct (String.eqb_spec (pj_disk j) disk) as [Hd|]; [|intros [= <- <-]; left; by eauto].
  unfold run_c. destruct (commit_request _ _) as [r m] eqn:Er. intros H. right. exists j, r, m.
  split_and!; try done.
  - destruct r as [reply|e]; [|by injection H as _ <-].
    destruct (bool_decide (field as_bool "ok" _ = Some true)); [injection H as _ <-; by destruct (mbind _ _)|].
    destruct (bool_decide _); by injection H as _ <-.
  - destruct r as [reply|e]; [|by injection H as <- _].
    destruct (bool_decide (field as_bool "ok" _ = Some true)); [by injection H as <- _|].
    destruct (bool_decide _); by injection H as <- _.
  - destruct r as [reply|e]; [|injection H as _ <-; by left].
    destruct reply as [errors|dir msg j'|irr msg j'|root j'].
    1-3: change (bool_decide (field as_bool "ok" _ = Some true)) with false in H; cbn iota in H;
         (destruct (bool_decide _) in H; injection H as _ <-; by left).
    change (bool_decide (field as_bool "ok" _ = Some true)) with true in H. cbn iota in H.
    change (jget "journal" (reply_document (Done root j'))) with (Some (journal_document j')) in H. cbn [mbind option_bind] in H.
    injection H as _ <-. destruct (journal_of_document (journal_document j')) as [c|] eqn:Ec; [|by left].
    right. exists root, j', c. done.
Qed.

Lemma staging_spec answer r s a s' :
  staging answer r s = (a, s') →
  s' = s ∨ ∃ j, r = Ok j ∧ s' = set_active (Some j) s.
Proof. unfold staging. destruct r as [j|e]; intros [= _ <-]; eauto. Qed.

Lemma journal_for_Ok active disk j : journal_for active disk = Ok j → active = Some j ∧ pj_disk j = disk.
Proof.
  unfold journal_for. destruct active as [j'|]; [|done]. destruct (String.eqb_spec (pj_disk j') disk); [|done].
  by intros [= <-].
Qed.

Lemma request_disk_Ok value disk : request_disk value = Ok disk → InstallerPlan.device_path disk.
Proof.
  unfold request_disk. intros H%ok_or_Ok. apply bind_Some in H as (raw & _ & H).
  by eapply normalize_device_path_sound.
Qed.

(** Every route leaves the machine alone but the commit. *)
Lemma target_check_log j disk partition s r s' :
  run_c j (validate_target_request disk partition) s = (r, s') → js_log s' = js_log s.
Proof.
  unfold run_c. destruct (validate_target_request _ _ _) as [r0 m] eqn:E. intros [= _ <-]. cbn.
  unfold validate_target_request in E. repeat case_match; try (injection E as _ <-; done).
  all: injection E as _ <-;
       match goal with H : runtime_partition_records _ _ = _ |- _ =>
         destruct (records_does (λ _, False) _ _ _ _ H) as [(evs & -> & Hf) _ _] end;
       destruct evs as [|ev evs]; [by rewrite app_nil_r|by apply Forall_inv in Hf].
Qed.

Lemma edit_log route disk value j s a s' : edit route disk value j s = (a, s') → js_log s' = js_log s.
Proof.
  unfold edit. destruct (_ ≫= _) as [partition|]; [|by intros [= _ <-]].
  destruct (run_c j _ s) as [r s1] eqn:Er. apply target_check_log in Er.
  destruct r as [valid|e]; [|by intros [= _ <-]]. destruct (negb _); [by intros [= _ <-]|].
  destruct (edit_op _ _ _) as [[kind params]|e]; by intros [= _ <-].
Qed.

Lemma rollback_route_spec j s a s' :
  rollback_route j s = (a, s') → s' = s ∨ pj_committed j = false ∧ s' = set_active (Some (with_outcome false None false (clear j))) s.
Proof.
  unfold rollback_route, rollback_metadata. destruct (pj_committed j); intros [= _ <-]; [by left|by right].
Qed.

(** One request, by what it does. *)
Lemma dispatch_cases route value s a s' :
  dispatch route value s = (a, s') →
  js_log s' = js_log s ∧ js_active s' = js_active s
  ∨ (∃ disk, InstallerPlan.device_path disk ∧ js_log s' = js_log s ∧
       ((∃ j, new_table disk value s = Ok j ∧ js_active s' = Some j)
        ∨ ∃ j, js_active s = Some j ∧ pj_disk j = disk ∧
            ((∃ j', (create value j = Ok j' ∨ remove_pending value j = Ok j') ∧ js_active s' = Some j')
             ∨ (∃ kind params, js_active s' = Some (snd (add_op kind params j)) ∧
                  ∀ i, staged disk {| po_kind := kind; po_params := params; po_index := i |})
             ∨ pj_committed j = false ∧ js_active s' = Some (with_outcome false None false (clear j)))))
  ∨ (route = "/api/disk/commit" ∧ ∃ disk, request_disk value = Ok disk ∧ commit_route disk value s = (a, s')).
Proof.
  unfold dispatch. destruct (request_disk value) as [disk|e] eqn:Ed; [|intros [= _ <-]; by left].
  pose proof (request_disk_Ok _ _ Ed) as Hdev.
  destruct (String.eqb route "/api/disk/new-table").
  { intros [->|(j & Hj & ->)]%staging_spec; [by left|]. right; left. exists disk. eauto 8. }
  destruct (String.eqb route "/api/disk/create").
  { intros [->|(j & Hj & ->)]%staging_spec; [by left|]. apply rbind_Ok in Hj as (j0 & [? ?]%journal_for_Ok & Hj).
    right; left. exists disk. split_and!; [done..|]. right. exists j0. split_and!; [done..|]. left. eauto. }
  destruct (String.eqb route "/api/disk/pending/remove").
  { intros [->|(j & Hj & ->)]%staging_spec; [by left|]. apply rbind_Ok in Hj as (j0 & [? ?]%journal_for_Ok & Hj).
    right; left. exists disk. split_and!; [done..|]. right. exists j0. split_and!; [done..|]. left. eauto. }
  destruct (str_in route _).
  { destruct (journal_for _ disk) as [j|e] eqn:Ej; [|intros [= _ <-]; by left]. apply journal_for_Ok in Ej as [Ea Ej].
    intros He. pose proof (edit_log _ _ _ _ _ _ _ He) as Hl. apply edit_spec in He as [Ha|Ha]; [by left| |done].
    right; left. exists disk. split_and!; [done..|]. right. exists j. split_and!; [done..|]. right; left. done. }
  destruct (String.eqb_spec route "/api/disk/commit") as [->|]; [intros H; right; right; eauto|].
  destruct (String.eqb route "/api/disk/rollback"); [|intros [= _ <-]; by left].
  destruct (journal_for _ disk) as [j|e] eqn:Ej; [|intros [= _ <-]; by left]. apply journal_for_Ok in Ej as [Ea Ej].
  intros [->|[Hc ->]]%rollback_route_spec; [by left|]. right; left. exists disk. split_and!; [done..|].
  right. exists j. split_and!; [done..|]. right; right. done.
Qed.

Lemma committed_stays kind params value j j' :
  pj_committed (snd (add_op kind params j)) = pj_committed j
  ∧ (create value j = Ok j' ∨ remove_pending value j = Ok j' → pj_committed j' = pj_committed j).
Proof.
  split; [done|]. intros [H|H].
  - unfold create in H. apply rbind_Ok in H as (? & _ & H). apply rbind_Ok in H as (? & _ & H).
    guard_inv H as E1. guard_inv H as E2. by injection H as <-.
  - unfold remove_pending in H. guard_inv H as E1. apply rbind_Ok in H as (i & _ & H).
    unfold remove_op in H. destruct (remove_index i (pj_ops j)); [|done]. by injection H as <-.
Qed.

Lemma dispatch_ok route value s a s' : state_ok s → dispatch route value s = (a, s') → state_ok s'.
Proof.
  intros Hs [[_ Ha]|[(disk & Hdev & _ & [(j & Hj & Ha)|(j & Hj & Hd & Hcase)])|(-> & disk & Hd & Hc)]]%dispatch_cases j0 Hj0 Hcom.
  - apply Hs; [congruence|done].
  - rewrite Ha in Hj0. injection Hj0 as <-. by apply new_table_ok in Hj as [? _].
  - destruct Hcase as [(j' & Hcr & Ha)|[(kind & params & Ha & Hst)|[Hc Ha]]]; rewrite Ha in Hj0; injection Hj0 as <-.
    + destruct (committed_stays EmptyString JNull value j j') as [_ He]. rewrite He in Hcom by done.
      specialize (Hs j Hj Hcom). destruct Hcr as [Hcr|Hcr]; [by eapply create_ok|by eapply remove_pending_ok].
    + specialize (Hs j Hj Hcom). apply add_op_ok; [done|]. by rewrite Hd.
    + specialize (Hs j Hj Hc). destruct Hs as [? ? _]. split; [done..|]. constructor.
  - apply commit_route_spec in Hc as [[-> _]|(j & r & m & _ & Hj & _ & Hr & _ & _ & [Ha|(root & j' & c & -> & Hdoc & Ha)])].
    + by apply Hs.
    + apply Hs; [congruence|done].
    + rewrite Ha in Hj0. injection Hj0 as <-. apply journal_document_fields in Hdoc as [_ Hdoc].
      apply commit_complete in Hr as (evs & _ & _ & Hdone & _). congruence.
Qed.
End staging.

(** * The theorems *)

Section served.
Context {HL : LsblkDecoder} {HF : FindmntDecoder} {HJ : JsonCodec}.

(** The daemon after any sequence of partition requests, each answered by a
    machine of its own. *)
Definition start_state : JState :=
  {| js_active := None; js_log := []; js_locks := no_locks; js_parts := ∅; js_scans := ∅; js_disks := None |}.

Inductive served : JState → Prop :=
  | served_start : served start_state
  | served_request (HO : EditOs) (HD : DaemonOs) route value s a s' :
      served s → dispatch route value s = (a, s') → served s'.

Lemma served_ok s : served s → state_ok s.
Proof. induction 1 as [|HO HD route value s a s' _ IH Hd]; [done|by eapply dispatch_ok]. Qed.

(** Whatever sequence of partition requests the daemon has served, a
    journal that is not committed is for a proper device path, carries the
    identity of the disk it was staged for, and holds only operations of the six
    kinds: each that names a partition names one of that disk, none claims to
    have been created by the journal, and the backup a resize names is on external
    media. *)
Theorem staged_journal_wellformed s j :
  served s → js_active s = Some j → pj_committed j = false →
  InstallerPlan.device_path (pj_disk j)
  ∧ (is_Some (pj_disk_serial j) ∨ is_Some (pj_disk_model j) ∨ is_Some (pj_disk_size_bytes j))
  ∧ Forall (λ op, po_kind op ∈ "new_table" :: "create" :: TARGETED
      ∧ unmarked op
      ∧ (po_kind op ∈ TARGETED → ∃ p, field as_str "partition" (po_params op) = Some p
           ∧ InstallerPlan.device_path p ∧ partition_name_matches (pj_disk j) p = true)
      ∧ (∀ b, po_kind op = "resize" → field as_str "gpt_backup_path" (po_params op) = Some b →
           path_on_external_media b = true)) (pj_ops j).
Proof.
  intros Hs Hj Hc. destruct (served_ok s Hs j Hj Hc) as [Hd Hi Ho]. split_and!; [done| |].
  - unfold no_identity in Hi. rewrite !andb_false_iff, !bool_decide_eq_false, !not_eq_None_Some in Hi. tauto.
  - eapply Forall_impl; [exact Ho|]. intros op [Hobj Hu Hk Ht Hr Hb]. split_and!; [done| |done|done].
    unfold unmarked, field. by rewrite Hu.
Qed.

Context {HO : EditOs} {HD : DaemonOs}.






Lemma dispatch_commit value s :
  dispatch "/api/disk/commit" value s
  = match request_disk value with Ok disk => commit_route disk value s | Err e => (refused e, s) end.
Proof. unfold dispatch. by destruct (request_disk value). Qed.

(** What a failed commit leaves behind: the journal as it was staged. *)
Lemma commit_failed_keeps value s a s' j :
  js_active s = Some j → dispatch "/api/disk/commit" value s = (a, s') →
  field as_bool "ok" (snd a) ≠ Some true → js_active s' = Some j.
Proof.
  intros Hj. rewrite dispatch_commit. destruct (request_disk value) as [disk|e]; [|by intros [= _ <-]].
  intros [[-> _]|(j0 & r & m & _ & Hj0 & _ & _ & _ & Ha & [Hs|(root & j' & c & -> & _ & _)])]%commit_route_spec Hok;
    [done|congruence|]. by rewrite Ha in Hok.
Qed.

End served.

(** * A commit does not look at whether its journal was committed before *)

(** An answer without the journal it carries. *)
Definition forget (r : result CommitReply) : result CommitReply :=
  let none := {| pj_disk := EmptyString; pj_ops := []; pj_committed := false; pj_root_partition := None;
                 pj_irreversible_completed := false; pj_disk_model := None; pj_disk_serial := None;
                 pj_disk_size_bytes := None |} in
  rmap (λ reply, match reply with
                 | Refused errors => Refused errors
                 | RecoveryRequired dir message _ => RecoveryRequired dir message none
                 | PartitionCommit.Failed irreversible message _ => PartitionCommit.Failed irreversible message none
                 | PartitionCommit.Done root _ => PartitionCommit.Done root none
                 end) r.
Definition observed (x : result CommitReply * CState) : result CommitReply * CState := (forget (fst x), snd x).

Lemma observed_bind {A} (c : C A) (k k' : A → C CommitReply) s :
  (∀ a s, observed (k a s) = observed (k' a s)) → observed (m_bind c k s) = observed (m_bind c k' s).
Proof. intros Hk. unfold m_bind. destruct (c s) as [[a|e] s1]; [apply Hk|done]. Qed.

Section recommit.
Context {HL : LsblkDecoder} {HF : FindmntDecoder} {HJ : JsonCodec} {HO : EditOs}.
Context (j : PartitionJournal) (committed irreversible : bool) (root : option string).
Local Notation again := (with_outcome committed root irreversible j).

Lemma commit_failed_again dir backup kind target error s :
  observed (commit_failed again dir backup kind target error s) = observed (commit_failed j dir backup kind target error s).
Proof.
  unfold commit_failed. apply observed_bind. intros [] s1. apply observed_bind. intros irr s2.
  destruct irr; [done|]. apply observed_bind. intros [] s3. apply observed_bind. intros [[]|e] s4.
  - done.
  - done.
Qed.

Lemma commit_ops_again dir backup ss i ops s :
  observed (commit_ops again dir backup ss i ops s) = observed (commit_ops j dir backup ss i ops s).
Proof.
  revert i s. induction ops as [|op ops IH]; intros i s; [done|]. cbn [commit_ops].
  apply observed_bind. intros [] s1. apply observed_bind. intros snap s2. apply observed_bind. intros [completed|error] s3.
  - apply observed_bind. intros [] s4. apply IH.
  - apply commit_failed_again.
Qed.

Lemma with_backup_dir_again dir (k k' : C CommitReply) s :
  (∀ s, observed (k s) = observed (k' s)) → observed (with_backup_dir dir k s) = observed (with_backup_dir dir k' s).
Proof.
  intros Hk. specialize (Hk s). unfold with_backup_dir. destruct (k s) as [r s1], (k' s) as [r' s1'].
  unfold observed in Hk. cbn [fst snd] in Hk. injection Hk as Hf ->.
  destruct r as [[]|], r' as [[]|]; try done; unfold observed; cbn [fst snd]; congruence.
Qed.

Lemma commit_locked_again s : observed (commit_locked again s) = observed (commit_locked j s).
Proof.
  unfold commit_locked. apply observed_bind. intros [] s1. apply observed_bind. intros ss s2.
  apply observed_bind. intros parts s3. apply observed_bind. intros meta s4.
  change (validate again parts (fst meta) (snd meta)) with (validate j parts (fst meta) (snd meta)).
  destruct (validate j parts _ _); [|done]. apply observed_bind. intros [] s5. apply observed_bind. intros dir0 s6.
  apply observed_bind. intros dir s7. apply with_backup_dir_again. intros s8. apply observed_bind. intros [] s9.
  apply commit_ops_again.
Qed.

Lemma commit_request_again s : observed (commit_request again s) = observed (commit_request j s).
Proof.
  unfold commit_request, commit_request_with_target_guard. apply observed_bind. intros [] s1.
  apply observed_bind. intros [] s2. unfold with_disk_lock. change (pj_disk again) with (pj_disk j).
  destruct (acquire_disk_lock _ _ _ _) as [locks [held|e]]; [|done].
  pose proof (commit_locked_again (set_locks locks s2)) as E. revert E.
  destruct (commit_locked again _) as [r s3], (commit_locked j _) as [r' s3']. unfold observed. cbn [fst snd].
  intros [= -> ->]. done.
Qed.
End recommit.

Section again.
Context {HL : LsblkDecoder} {HF : FindmntDecoder} {HJ : JsonCodec} {HO : EditOs} {HD : DaemonOs}.

(** The commit route has no guard against a second commit: on a journal
    that is already committed it does to the machine exactly what it would do
    were the journal new, with the same answer up to the journal it prints. *)
Theorem committed_journal_runs_again value s j committed irreversible root :
  js_active s = Some j →
  let '(a, s1) := dispatch "/api/disk/commit" value s in
  let '(a', s1') := dispatch "/api/disk/commit" value (set_active (Some (with_outcome committed root irreversible j)) s) in
  js_log s1' = js_log s1 ∧ fst a' = fst a.
Proof.
  intros Hj. rewrite !dispatch_commit. destruct (request_disk value) as [disk|e]; [|done].
  unfold commit_route. destruct (consent value); [|done]. cbn [negb]. unfold journal_for. cbn [js_active set_active].
  rewrite Hj. cbn [pj_disk with_outcome]. destruct (String.eqb (pj_disk j) disk); [|done].
  change (stamped _ (with_outcome committed root irreversible j))
    with (with_outcome committed root irreversible (stamped (js_log s) j)).
  set (jj := stamped (js_log s) j). unfold run_c. cbn [js_log js_parts js_locks set_active].
  pose proof (commit_request_again jj committed irreversible root
                (commit_state (js_log s) (js_parts s) (js_locks s) jj)) as E.
  change (commit_state _ _ _ (with_outcome committed root irreversible jj))
    with (commit_state (js_log s) (js_parts s) (js_locks s) jj).
  destruct (commit_request (with_outcome _ _ _ _) _) as [r m], (commit_request jj _) as [r' m'].
  unfold observed in E. cbn [fst snd] in E. injection E as Ef ->.
  destruct r as [[errors|dir msg x|irr msg x|rt x]|e], r' as [[errors'|dir' msg' x'|irr' msg' x'|rt' x']|e']; try done;
    cbn [reply_document]; repeat change (bool_decide (field as_bool "ok" _ = Some true)) with false;
    repeat change (bool_decide (field as_bool "ok" _ = Some true)) with true; cbn iota;
    repeat (destruct (mbind _ _)); repeat (destruct (bool_decide (is_Some _))); try done.
Qed.
End again.

(** * A machine to send requests to *)

Definition answering (stdout : string) : Child :=
  {| ch_spawn := Ok tt; ch_poll _ := ChildExited; ch_oversleep _ := 0%nat;
     ch_output := Ok {| ou_code := Some 0; ou_stdout := stdout; ou_stderr := EmptyString |} |}.
Definition daemon_world (power : PowerRoot) : DaemonOs := {|
  dn_child _ program _ :=
    answering (if String.eqb program "/usr/bin/lsblk" then "disk" +:+ newline
               else if String.eqb program "/usr/sbin/blkid" then "ntfs" +:+ newline else "volume is consistent");
  dn_power _ := power |}.

Definition send (power : PowerRoot) (route : string) (fields : list (string * json)) (s : JState) : Answer * JState :=
  @dispatch world_decoder sample_findmnt world_codec (world (λ _, false)) (daemon_world power) route
    (jobject (("disk", JString "sda") :: fields)) s.

Definition send_all (power : PowerRoot) (requests : list (string * list (string * json))) (s : JState) : JState :=
  fold_left (λ s '(route, fields), snd (send power route fields s)) requests s.

Definition agreed : list (string * json) := [("confirm_erase", JBool true); ("acknowledged_irreversible", JBool true)].

(** Reformatting an existing partition as the root: the journal is opened with a
    new table that is taken back. *)
Definition reformat : list (string * list (string * json)) :=
  [("/api/disk/new-table", []); ("/api/disk/pending/remove", [("index", JNumber 0)]);
   ("/api/disk/format", [("partition", JString "sda3"); ("fs_type", JString "btrfs")]);
   ("/api/disk/set-mountpoint", [("partition", JString "/dev/sda3"); ("mountpoint", JString "/")])].

(** The commit is sent twice: the partition is formatted twice. *)
Example commit_sent_twice :
  commands (js_log (send_all PowerMissing (reformat ++ [("/api/disk/commit", agreed)]) start_state))
  = [["/usr/sbin/sgdisk"; "--backup"; "/tmp/kyth-partition-1/partition-table.backup"; "/dev/sda"];
     ["/usr/sbin/mkfs.btrfs"; "-f"; "/dev/sda3"]]
  ∧ commands (js_log (send_all PowerMissing (reformat ++ [("/api/disk/commit", agreed); ("/api/disk/commit", agreed)]) start_state))
  = [["/usr/sbin/sgdisk"; "--backup"; "/tmp/kyth-partition-1/partition-table.backup"; "/dev/sda"];
     ["/usr/sbin/mkfs.btrfs"; "-f"; "/dev/sda3"];
     ["/usr/sbin/sgdisk"; "--backup"; "/tmp/kyth-partition-1/partition-table.backup"; "/dev/sda"];
     ["/usr/sbin/mkfs.btrfs"; "-f"; "/dev/sda3"]].
Proof. split; vm_compute; reflexivity. Qed.

(** * Witnesses *)

Lemma send_served power route fields s :
  @served world_decoder sample_findmnt world_codec s →
  @served world_decoder sample_findmnt world_codec (snd (send power route fields s)).
Proof.
  intros Hs. destruct (send power route fields s) as [a s'] eqn:E. exact (served_request _ _ _ _ s a s' Hs E).
Qed.

Lemma send_all_served power requests s :
  @served world_decoder sample_findmnt world_codec s →
  @served world_decoder sample_findmnt world_codec (send_all power requests s).
Proof.
  revert s. induction requests as [|[route fields] requests IH]; intros s Hs; [done|]. by apply IH, send_served.
Qed.



(** A shrink of the NTFS partition beside the new root. *)
Definition shrink : list (string * list (string * json)) :=
  reformat ++ [("/api/disk/resize", [("partition", JString "sda2"); ("new_size_bytes", JNumber (100 * GiB));
                                     ("gpt_backup_path", JString "/run/media/usb/sda.gpt"); ("on_ac_power", JBool false)])].
Definition shrink_staged : JState := send_all PowerMissing shrink start_state.

Lemma shrink_served : @served world_decoder sample_findmnt world_codec shrink_staged.
Proof. apply send_all_served, served_start. Qed.

Lemma staged_journal_wellformed_witness : ∃ j,
  js_active shrink_staged = Some j ∧ pj_committed j = false ∧ InstallerPlan.device_path (pj_disk j)
  ∧ po_kind <$> pj_ops j = ["format"; "set_mountpoint"; "resize"].
Proof.
  destruct (js_active shrink_staged) as [j|] eqn:E; [|vm_compute in E; discriminate E].
  assert (pj_committed j = false ∧ po_kind <$> pj_ops j = ["format"; "set_mountpoint"; "resize"]) as [Hc Hk].
  { assert (Some j = js_active shrink_staged) as E' by done. vm_compute in E'. injection E' as ->. split; reflexivity. }
  exists j. split_and!; [reflexivity|exact Hc| |exact Hk].
  exact (proj1 (staged_journal_wellformed shrink_staged j shrink_served E Hc)).
Defined.




Lemma committed_journal_runs_again_witness : ∃ j,
  js_active shrink_staged = Some j
  ∧ js_log (snd (send PowerMissing "/api/disk/commit" agreed
                   (set_active (Some (with_outcome true (Some "/dev/sda3") true j)) shrink_staged)))
    = js_log (snd (send PowerMissing "/api/disk/commit" agreed shrink_staged)).
Proof.
  destruct (js_active shrink_staged) as [j|] eqn:E; [|vm_compute in E; discriminate E].
  exists j. split; [reflexivity|].
  pose proof (@committed_journal_runs_again world_decoder sample_findmnt world_codec (world (λ _, false))
                (daemon_world PowerMissing) (jobject (("disk", JString "sda") :: agreed)) shrink_staged j true true
                (Some "/dev/sda3") E) as H.
  unfold send. destruct (dispatch _ _ shrink_staged) as [a s1], (dispatch _ _ (set_active _ _)) as [a' s1'].
  exact (proj1 H).
Defined.
