(* ===== verification/Daemon.v ===== *)
(** The daemon: how a request is served, and how requests run beside each other
    and beside an installation.  The second half of [installer_daemon.rs].

    [handle] composes what the other files model: the bytes of the request
    (DaemonHttp.v), the partition journal (DaemonJournal.v), the start request
    and its executor (ExecutionPlan.v, PhaseExecutor.v) and the job registry
    (JobRegistry.v).  The theorems are about who may change anything, and about
    the storage gate that keeps partition commits and installations apart. *)

From S2P Require Import Prelude RustStr RustOs Json FileSystem InstallerPlan StorageModel Partitions FreeRegions InstallerGuard.
From S2P Require Import InstallerDisk InstallerRuntime InstallerJob JobRegistry InstallerTransaction Probes ManualMounts.
From S2P Require Import PartitionEdits PartitionCommit Stream ExecutionPlan PhaseExecutor DaemonHttp DaemonJournal.

(** * State and surroundings *)

(** What reading a file can answer: its contents, that it is missing, that it
    can not be opened, or that an open file can not be read. *)
Inductive FileRead := FileText (text : string) | FileMissing | FileError (e : string) | FileUnreadable (e : string).

(** A started helper: writing its input, then the child to wait for. *)
Record Helper := { hp_spawn : result unit; hp_write : result unit; hp_child : Child }.

Class HandleOs := {
  hn_now : Z;                                          (* milliseconds, when a cache is read *)
  hn_stored : Z;                                       (* when it is written *)
  hn_inventory : string → json;                        (* configuration, time zones, locales, keymaps *)
  hn_display : Z → string;                             (* a size for people *)
  hn_transaction : FileRead;
  hn_log : FileRead;                                   (* the installer's log, opened without following links *)
  hn_paths : string * string * string;                 (* of the log, the transaction and the failure summary *)
  hn_canonical : string → result string;
  hn_is_dir : string → bool;
  hn_is_symlink : string → bool;
  hn_helper : string → json → Helper;
  hn_status_text : option Z → string;                  (* an exit status, printed *)
  hn_decode_error : json → string;
  hn_request : RequestOs;
  hn_build : BuildOs;
  hn_choice : Choice;
  hn_gate_poisoned : bool;
}.

Inductive Act := RanHelper (operation : string) (input : json).

Record DState := {
  ds_journal : JState;
  ds_registry : Registry;
  ds_acts : list Act;
}.
Definition set_journal (j : JState) (d : DState) : DState :=
  {| ds_journal := j; ds_registry := ds_registry d; ds_acts := ds_acts d |}.
Definition set_registry (r : Registry) (d : DState) : DState :=
  {| ds_journal := ds_journal d; ds_registry := r; ds_acts := ds_acts d |}.
Definition add_act (a : Act) (d : DState) : DState :=
  {| ds_journal := ds_journal d; ds_registry := ds_registry d; ds_acts := ds_acts d ++ [a] |}.

(** What is written to the client. *)
Inductive Response :=
| RForbidden
| RBadStart (message : string)
| RJson (status : string) (v : json)
| RLog (body : string)
| RStream (last_event_id : Z).

Definition render `{JsonCodec} (r : Response) : string :=
  match r with
  | RForbidden => forbidden
  | RBadStart message => bad_start_request message
  | RJson status v => json_response status v
  | RLog body => framed_response "200 OK" "text/plain; charset=utf-8" body
  | RStream _ =>
      "HTTP/1.1 200 OK" +:+ crlf +:+ "Content-Type: text/event-stream" +:+ crlf +:+ "Cache-Control: no-cache" +:+ crlf
      +:+ "X-Accel-Buffering: no" +:+ crlf +:+ "Connection: close" +:+ blank_line
  end.

(** * Documents *)

Definition lifecycle_name (l : Lifecycle) : string :=
  match l with
  | Idle => "idle" | Validated => "validated" | Partitioning => "partitioning" | Installing => "installing"
  | InstallerRuntime.Done => "done" | InstallerRuntime.Failed => "failed"
  end.
Definition runtime_document (s : RuntimeSnapshot) : json :=
  jobject [("lifecycle", JString (lifecycle_name (lifecycle s))); ("phase", JString (phase_name (phase s)));
           ("cancel_requested", JBool (cancel_requested s))].

Definition disk_document (d : DiskRecord) : json :=
  jobject [("name", JString (dr_name d)); ("size_bytes", JNumber (dr_size_bytes d)); ("model", JString (dr_model d));
           ("ssd", JBool (dr_ssd d)); ("transport", JString (dr_transport d)); ("removable", JBool (dr_removable d));
           ("partition_table", JString (dr_partition_table d)); ("current", JBool (dr_current d))].
Definition partition_document (p : PartitionRecord) : json :=
  jobject [("name", JString (Partitions.pr_name p)); ("size_bytes", JNumber (Partitions.pr_size_bytes p));
           ("start_bytes", JNumber (Partitions.pr_start_bytes p)); ("fstype", JString (Partitions.pr_fstype p)); ("label", JString (Partitions.pr_label p));
           ("parttype", JString (Partitions.pr_parttype p)); ("mountpoints", JArray (JString <$> Partitions.pr_mountpoints p));
           ("efi", JBool (Partitions.pr_efi p)); ("current", JBool (Partitions.pr_current p)); ("in_use", JBool (Partitions.pr_in_use p));
           ("read_only", JBool (Partitions.pr_read_only p)); ("alongside_candidate", JBool (Partitions.pr_alongside_candidate p));
           ("ntfs_resize_candidate", JBool (Partitions.pr_ntfs_resize_candidate p))].
Definition region_document (r : FreeRegionRecord) : json :=
  jobject [("start_bytes", JNumber (fr_start_bytes r)); ("end_bytes", JNumber (fr_end_bytes r));
           ("size_bytes", JNumber (fr_size_bytes r))].
Definition guidance_document (g : RecoveryGuidance) : json :=
  jobject [("status", JString (rg_status g)); ("severity", JString (rg_severity g)); ("message", JString (rg_message g));
           ("bootable", JBool (rg_bootable g))].

Definition merge_report_state (transaction : option json) (live : json) : json :=
  let merged := match transaction with Some (JObject m) => m | _ => ∅ end in
  match live with
  | JObject l => JObject (l ∪ merged)
  | _ => JObject merged
  end.

Definition report_status (l : Lifecycle) : string :=
  match l with
  | InstallerRuntime.Done => "complete" | InstallerRuntime.Failed => "failed" | Idle => "idle" | _ => "installing"
  end.
Definition live_report (s : JobSnapshot) : json :=
  jobject [("job_id", jopt (snap_job_id s)); ("lifecycle", JString (lifecycle_name (lifecycle (snap_runtime s))));
           ("phase", JString (phase_name (phase (snap_runtime s))));
           ("cancel_requested", JBool (cancel_requested (snap_runtime s)));
           ("worker_active", JBool (snap_worker_active s)); ("terminal_event_id", jopt (snap_terminal_event_id s));
           ("status", JString (report_status (lifecycle (snap_runtime s))));
           ("message", JString "Native installer job state")].

Definition STORAGE_PROBE_TTL : Z := 5000.

Definition storage_lsblk_args (disk : option string) : list string :=
  ["--json"; "--bytes"; "--paths"; "--output";
   "NAME,SIZE,TYPE,FSTYPE,PARTTYPE,PARTN,LABEL,MOUNTPOINT,MOUNTPOINTS,START,RO,MODEL,TRAN,ROTA,RM,PTTYPE,PKNAME"]
  ++ match disk with Some d => [d] | None => [] end.

(** [serde_json::from_value::<InstallerPlanInput>]: absent fields take their
    defaults, present ones must have their type. *)
Definition plan_field {A} (f : json → option A) (key : string) (default : A) (v : json) : option A :=
  match jget key v with None => Some default | Some x => f x end.
Definition plan_input_of (v : json) : option InstallerPlanInput :=
  disk ← plan_field as_str "disk" EmptyString v;
  mode ← plan_field as_str "install_mode" EmptyString v;
  target ← plan_field as_str "target_partition" EmptyString v;
  resize ← plan_field as_str "resize_partition" EmptyString v;
  gib ← plan_field as_i64 "resize_gib" 0 v;
  start ← plan_field as_i64 "free_region_start" 0 v;
  end_ ← plan_field as_i64 "free_region_end" 0 v;
  serial ← opt_field as_str "target_disk_serial" v;
  model ← opt_field as_str "target_disk_model" v;
  size ← opt_field as_u64 "target_disk_size_bytes" v;
  flatpaks ← plan_field (λ x, l ← as_array x; mapM as_str l) "flatpaks" [] v;
  match v with
  | JObject _ =>
      Some {| in_disk := disk; in_install_mode := mode; in_target_partition := target; in_resize_partition := resize;
              in_resize_gib := gib; in_free_region_start := start; in_free_region_end := end_;
              in_target_disk_serial := serial; in_target_disk_model := model; in_target_disk_size_bytes := size;
              in_flatpaks := flatpaks |}
  | _ => None
  end.

(** The storage fields of the request, replaced by those of the plan. *)
Definition project_plan (plan : InstallerPlan) (object : gmap string json) : gmap string json :=
  let jpath (o : option string) := JString (unwrap_or o EmptyString) in
  let jsize (o : option Z) := JNumber (unwrap_or o 0) in
  <["free_region_end" := jsize (pl_free_region_end plan)]>
  (<["free_region_start" := jsize (pl_free_region_start plan)]>
  (<["resize_gib" := JNumber (pl_resize_bytes plan / (1024 * 1024 * 1024))]>
  (<["resize_partition" := jpath (pl_resize_partition plan)]>
  (<["target_partition" := jpath (pl_target_partition plan)]>
  (<["install_mode" := JString (pl_mode plan)]>
  (<["disk" := JString (pl_disk plan)]> object)))))).

Definition validate_start_acknowledgements (value : json) : result unit :=
  match value with
  | JObject _ =>
      guard! negb (bool_decide (field as_bool "confirm_backup" value = Some true))
        else "Confirm that you have backed up anything you want to keep before installing.";
      guard! negb (bool_decide (field as_bool "confirm_erase" value = Some true))
        else "Confirm that the selected target may be erased before installing.";
      guard! match field as_str "username" value with Some u => is_empty (trim u) | None => true end
        else "A login username is required to install KythOS.";
      guard! match field as_str "password" value with Some u => is_empty u | None => true end
        else "A login password is required to install KythOS.";
      Ok tt
  | _ => Err "Installer start request must be a JSON object."
  end.

Section serving.
Context {HL : LsblkDecoder} {HF : FindmntDecoder} {HJ : JsonCodec} {HO : EditOs} {HD : DaemonOs} {HH : HandleOs}.

Definition is_start (method target : string) : bool :=
  String.eqb method "POST" && String.eqb (path_of target) "/api/start".

Definition normalize_start_request (request : string) : result string :=
  let? parts := request_parts request in
  let '(method, target, _) := parts in
  if negb (is_start method target) then Ok request
  else
    let? value := request_body request in
    let? input := ok_or (plan_input_of value) ("Invalid installer plan: " +:+ hn_decode_error value) in
    let? plan := InstallerPlan.build_plan input in
    match value with
    | JObject object => rebuild_request request (json_encode (JObject (project_plan plan object)))
    | _ => Err "Installer start request must be a JSON object."
    end.

Definition native_request_from_start (request : string) : result NativeInstallRequest :=
  let? parts := request_parts request in
  let '(method, target, _) := parts in
  guard! negb (is_start method target) else "native request requires POST /api/start";
  let? value := request_body request in
  check! validate_start_acknowledgements value;
  from_http (HR := hn_request) value.

Definition executor_of (request : NativeInstallRequest) : result unit :=
  rmap (λ _, tt) (from_request (HB := hn_build) request).

(** ** Read-only routes *)

Definition add_display_sizes (v : json) : json :=
  match v with
  | JArray items =>
      JArray ((λ item, match field as_u64 "size_bytes" item with
                       | Some size => jset "size" (JString (hn_display size)) item
                       | None => item
                       end) <$> items)
  | _ => v
  end.

(** The three moments of [cached_disk_scan]: the lookup, the probe, and the
    insertion, between which other requests run. *)
Definition scan_lookup (disk : string) (s : JState) : option (string * Z) :=
  match js_scans s !! disk with
  | Some (at_, scan) => if sat_sub64 hn_now at_ <? STORAGE_PROBE_TTL then Some scan else None
  | None => None
  end.
Definition scan_probe (evs : list CommitEvent) (disk : string) : result (string * Z) :=
  let? snapshot := command_output evs "/usr/bin/lsblk" (storage_lsblk_args (Some disk)) in
  let? size := command_output evs "/usr/bin/blockdev" ["--getss"; disk] in
  let? sector_size := ok_or (parse_u64 (trim size)) "blockdev returned an invalid sector size" in
  Ok (snapshot, sector_size).
Definition scan_insert (disk : string) (scan : string * Z) (s : JState) : JState :=
  set_scans (<[disk := (hn_stored, scan)]> (js_scans s)) s.

Definition cached_disk_scan (disk : string) (s : JState) : result (string * Z) * JState :=
  match scan_lookup disk s with
  | Some scan => (Ok scan, s)
  | None =>
      match scan_probe (js_log s) disk with
      | Ok scan => (Ok scan, scan_insert disk scan s)
      | Err e => (Err e, s)
      end
  end.

Definition cached_disks_response (s : JState) : option json :=
  match js_disks s with
  | Some (at_, v) => if sat_sub64 hn_now at_ <? STORAGE_PROBE_TTL then Some v else None
  | None => None
  end.
Definition store_disks_response (v : json) (s : JState) : JState := set_disks (Some (hn_stored, v)) s.

Definition disks_route (s : JState) : result json * JState :=
  match cached_disks_response s with
  | Some cached => (Ok cached, s)
  | None =>
      match
        (let? snapshot := command_output (js_log s) "/usr/bin/lsblk" (storage_lsblk_args None) in
         let? text := command_output (js_log s) "/usr/bin/findmnt" ["--json"; "-o"; "TARGET,SOURCE"] in
         let? mounts := parse_mounts text in
         let? records := runtime_disks_from_snapshots snapshot snapshot (protected_sources mounts) (current_source mounts) in
         Ok (add_display_sizes (JArray (disk_document <$> records))))
      with
      | Ok v => (Ok v, store_disks_response v s)
      | Err e => (Err e, s)
      end
  end.

(** A query over one disk, answered from the shared scan. *)
Definition scan_route (target : string) (answer : string → string → Z → result (list json)) (s : JState)
    : result json * JState :=
  match query_value target "disk" with
  | None => (Ok (JArray []), s)
  | Some raw =>
      match InstallerPlan.normalize_device_path raw with
      | None => (Err "invalid disk query path", s)
      | Some disk =>
          let '(r, s) := cached_disk_scan disk s in
          (let? scan := r in
           let? items := answer disk (fst scan) (snd scan) in
           Ok (add_display_sizes (JArray items)), s)
      end
  end.

Definition read_only_storage_route (method target : string) (s : JState) : result (option json) * JState :=
  let answered (x : result json * JState) := (rmap Some (fst x), snd x) in
  if negb (String.eqb method "GET") then (Ok None, s)
  else
    let path := path_of target in
    if str_in path ["/api/config"; "/api/timezones"; "/api/locales"; "/api/keymaps"] then (Ok (Some (hn_inventory path)), s)
    else if String.eqb path "/api/runtime" then (Ok (Some (runtime_document runtime_default)), s)
    else if String.eqb path "/api/disks" then answered (disks_route s)
    else if String.eqb path "/api/partitions" then
      answered (scan_route target (λ _ snapshot sector, rmap (fmap partition_document) (parse_partitions snapshot sector)) s)
    else if String.eqb path "/api/free-space" then
      answered (scan_route target (λ disk snapshot sector, rmap (fmap region_document) (free_regions snapshot disk sector)) s)
    else (Ok None, s).

Definition native_report (s : JobSnapshot) : json :=
  merge_report_state
    (match hn_transaction with FileText t => PhaseExecutor.ok (json_decode t) | _ => None end) (live_report s).

Definition native_log : result string :=
  match hn_log with
  | FileText bytes => Ok (from_utf8_lossy (stake (Z.to_nat MAX_LOG_RESPONSE_BYTES) bytes))
  | FileMissing => Ok ("Installer log is not available yet: No such file or directory (os error 2)" +:+ newline)
  | FileError e => Ok ("Installer log is not available yet: " +:+ e +:+ newline)
  | FileUnreadable e => Err ("could not read native installer log: " +:+ e)
  end.

Definition native_rescue_probe (evs : list CommitEvent) : json :=
  let transaction :=
    match hn_transaction with
    | FileText t => match json_decode t with Ok (JObject m) => JObject m | _ => JObject ∅ end
    | _ => JObject ∅
    end in
  let probe := jobject [("log_tail", JString EmptyString); ("sgdisk_verify", JString EmptyString);
                        ("efibootmgr", JString EmptyString); ("transaction", transaction);
                        ("bootc_status", JString EmptyString);
                        ("rescue_guidance", guidance_document (rescue_guidance (field as_str "status" transaction)))] in
  let probe := match hn_log with
               | FileText contents =>
                   if utf8_ok contents then
                     let ls := lines contents in
                     jset "log_tail" (JString (join newline (drop (length ls - 80) ls))) probe
                   else probe
               | _ => probe
               end in
  let probe := match field as_str "disk" transaction ≫= InstallerPlan.normalize_device_path with
               | Some disk =>
                   match command_output evs "/usr/sbin/sgdisk" ["--verify"; disk] with
                   | Ok output => jset "sgdisk_verify" (JString output) probe
                   | Err _ => probe
                   end
               | None => probe
               end in
  let probe := match command_output evs "/usr/bin/efibootmgr" ["-v"] with
               | Ok output => jset "efibootmgr" (JString output) probe
               | Err _ => probe
               end in
  match command_output evs "/usr/bin/bootc" ["status"; "--json"] with
  | Ok output => jset "bootc_status_summary" (bootc_status_summary output)
                   (jset "bootc_status" (JString (take_chars 8000 output)) probe)
  | Err _ => probe
  end.

(** ** Helpers *)

Definition helper_output (what : string) (timeout : Z) (h : Helper) : result Output :=
  check! map_err (λ e, "could not start native " +:+ what +:+ ": " +:+ e) (hp_spawn h);
  check! map_err (λ e, "could not provide native " +:+ what +:+ " input: " +:+ e) (hp_write h);
  wait_for_child (hp_child h) (if String.eqb what "helper" then "native recovery helper" else "native " +:+ what) timeout.

Definition helper_failure (what : string) (o : Output) : string :=
  let detail := trim (from_utf8_lossy (ou_stderr o)) in
  if is_empty detail then "native " +:+ what +:+ " exited with status " +:+ hn_status_text (ou_code o) else detail.

Definition run_native_helper (operation : string) (value : json) : result json :=
  guard! negb (String.eqb operation "recovery-export") else "unsupported native helper operation";
  let? output := helper_output "helper" 180 (hn_helper operation value) in
  guard! negb (output_ok output) else helper_failure "helper" output;
  map_err (λ e, "native helper returned malformed JSON: " +:+ e) (json_decode (ou_stdout output)).

Definition run_native_action (operation : string) (value : json) : result unit :=
  let? output := helper_output operation 60 (hn_helper operation value) in
  guard! negb (output_ok output) else helper_failure operation output;
  Ok tt.

Definition path_starts_with (p base : string) : bool :=
  Bool.eqb (is_absolute p) (is_absolute base) && list_prefix (components base) (components p).

Definition first_usb_mount (evs : list CommitEvent) : option string :=
  match command_output evs "/usr/bin/findmnt" ["-R"; "-n"; "-o"; "TARGET"; "/run/media"] with
  | Err _ => None
  | Ok output =>
      find_first (λ path, path_starts_with path "/run/media/" && hn_is_dir path && negb (hn_is_symlink path))
        (trim <$> lines output)
  end.

(** The target and the source of a mount; both fields are required. *)
Definition mount_entry (v : json) : option (string * string) :=
  target ← field as_str "target" v; source ← field as_str "source" v; Some (target, source).

Definition validate_recovery_mount_probe (output : string) : result unit :=
  let? v := map_err (λ e, "could not parse recovery destination mount: " +:+ e) (json_decode output) in
  let? entries := ok_or (l ← field as_array "filesystems" v; mapM mount_entry l)
    ("could not parse recovery destination mount: " +:+ hn_decode_error v) in
  guard! negb (existsb (λ e : string * string, path_starts_with (fst e) "/run/media" && starts_with "/dev/" (snd e)) entries)
    else "Selected recovery destination is not a mounted storage device under /run/media.";
  Ok tt.

Definition validate_recovery_export_mount (evs : list CommitEvent) (path : string) : result string :=
  let? mount := map_err (λ e, "could not resolve USB mount: " +:+ e) (hn_canonical (trim path)) in
  guard! negb (path_starts_with mount "/run/media") || same_path mount "/run/media" || negb (hn_is_dir mount)
    else "Recovery logs can only be exported to a mounted drive under /run/media.";
  let? output := command_output evs "/usr/bin/findmnt" ["--json"; "--target"; mount; "--output"; "TARGET,SOURCE"] in
  check! validate_recovery_mount_probe output;
  Ok mount.

(** ** The handler *)

Definition Served : Type := result Response * DState.
Definition reply (status : string) (v : json) (d : DState) : Served := (Ok (RJson status v), d).
Definition bad_request (message : string) (d : DState) : Served := reply "400 Bad Request" (refusal message) d.

Definition SESSION_HEADER : string := "X-Kyth-Session-Token".

Definition authorised (token method target headers : string) : bool :=
  route_allowed method target
  && (header_count headers SESSION_HEADER =? 1)%nat
  && match header_value headers SESSION_HEADER with Some provided => tokens_equal provided token | None => false end.

(** A body that has to be an object. *)
Definition object_body (request not_object : string) : result json :=
  match request_body request with
  | Ok (JObject m) => Ok (JObject m)
  | Ok _ => Err not_object
  | Err e => Err e
  end.

Definition PARTITION_ROUTES : list string :=
  ["/api/disk/new-table"; "/api/disk/create"; "/api/disk/delete"; "/api/disk/resize"; "/api/disk/format";
   "/api/disk/set-mountpoint"; "/api/disk/pending/remove"; "/api/disk/commit"; "/api/disk/rollback"].

Definition gate_error : string := "installer storage operation gate is unavailable".

Definition partition_route (route request : string) (d : DState) : Served :=
  if hn_gate_poisoned then (Err gate_error, d)
  else if registry_active (ds_registry d) then
    reply "409 Conflict" (refusal "Partition changes are locked while installation is running.") d
  else
    match object_body request "Partition request must be a JSON object." with
    | Err e => bad_request e d
    | Ok body =>
        let '((status, v), j) := dispatch route body (ds_journal d) in
        reply (json_status status) v (set_journal j d)
    end.

Definition report_route (d : DState) : Served :=
  match registry_snapshot (ds_registry d) with
  | Some snapshot => reply "200 OK" (native_report snapshot) d
  | None =>
      match hn_transaction with
      | FileText contents =>
          match json_decode contents with
          | Ok v => reply "200 OK" v d
          | Err e => (Err ("could not decode installer transaction: " +:+ e), d)
          end
      | FileMissing => reply "200 OK" (JObject ∅) d
      | FileError e | FileUnreadable e => (Err ("could not read installer transaction: " +:+ e), d)
      end
  end.

Definition export_route (request : string) (d : DState) : Served :=
  match object_body request "Recovery export request must be a JSON object." with
  | Err e => bad_request e d
  | Ok body =>
      let evs := js_log (ds_journal d) in
      let named := match field as_str "usb_mount" body with
                   | Some m => if is_empty (trim m) then None else Some m
                   | None => None
                   end in
      match or_else named (first_usb_mount evs) with
      | None => bad_request "No USB drive found. Insert a USB stick and try again." d
      | Some usb_mount =>
          match validate_recovery_export_mount evs usb_mount with
          | Err e => bad_request e d
          | Ok usb_mount =>
              let '(log_path, transaction_path, failure_path) := hn_paths in
              let export := jobject [("usb_mount", JString usb_mount); ("log_path", JString log_path);
                                     ("transaction_path", JString transaction_path);
                                     ("failure_summary_path", JString failure_path)] in
              let d := add_act (RanHelper "recovery-export" export) d in
              match run_native_helper "recovery-export" export with
              | Ok v => reply "200 OK" v d
              | Err e => reply "500 Internal Server Error" (refusal e) d
              end
          end
      end
  end.

Definition reboot_route (request : string) (d : DState) : Served :=
  let failed message := jobject [("ok", JBool false); ("error", JString message)] in
  let confirmed := match request_body request with
                   | Ok body => unwrap_or (field as_bool "confirm" body) false
                   | Err _ => false
                   end in
  if negb confirmed then
    reply "400 Bad Request"
      (failed ("Reboot requires an explicit confirmation ({" +:+ quote +:+ "confirm" +:+ quote +:+ ": true}).")) d
  else if hn_gate_poisoned then (Err gate_error, d)
  else if registry_active (ds_registry d) then reply "409 Conflict" (failed "Cannot reboot while installation is running.") d
  else
    let d := add_act (RanHelper "reboot" (JObject ∅)) d in
    match run_native_action "reboot" (JObject ∅) with
    | Ok _ => reply "200 OK" (jobject [("ok", JBool true)]) d
    | Err e => reply "500 Internal Server Error" (failed e) d
    end.

Definition start_route (request : string) (d : DState) : Served :=
  if hn_gate_poisoned then (Err gate_error, d)
  else
    match native_request_from_start request with
    | Err e => (Ok (RBadStart e), d)
    | Ok native_request =>
        match registry_start (executor_of native_request) hn_choice (ds_registry d) with
        | Ok (registry, receipt) =>
            reply "200 OK" (jobject [("started", JBool true); ("job_id", JNumber (rc_job_id receipt));
                                     ("first_event_id", JNumber (rc_first_event_id receipt))]) (set_registry registry d)
        | Err e =>
            reply (if contains_str "already running" e then "409 Conflict" else "400 Bad Request")
              (jobject [("started", JBool false); ("message", JString e)]) d
        end
    end.

Definition cancel_route (request : string) (d : DState) : Served :=
  match (match request_body request with Ok body => field as_u64 "job_id" body | Err _ => None end) with
  | None =>
      bad_request ("Cancel requires the active job id in the request body ({" +:+ quote +:+ "job_id" +:+ quote +:+ ": N}).") d
  | Some job_id =>
      match registry_snapshot (ds_registry d) with
      | None => reply "409 Conflict" (refusal "No installation is running to cancel.") d
      | Some _ =>
          match registry_cancel job_id (ds_registry d) with
          | Ok registry =>
              reply "200 OK" (jobject [("ok", JBool true); ("message", JString "Cancellation requested.")])
                (set_registry registry d)
          | Err e => reply "409 Conflict" (refusal e) d
          end
      end
  end.

(** After normalisation: the routes in the order the handler tries them. *)
Definition route_request (method target headers request : string) (d : DState) : Served :=
  let route := path_of target in
  let get r := String.eqb method "GET" && String.eqb route r in
  let post r := String.eqb method "POST" && String.eqb route r in
  if get "/api/disk/pending" then
    match native_pending_request target with
    | Err e => bad_request e d
    | Ok v =>
        match journal_pending v (ds_journal d) with
        | Ok v => reply "200 OK" v d
        | Err e => reply "500 Internal Server Error" (refusal e) d
        end
    end
  else if get "/api/disk/filesystems" then reply "200 OK" filesystems d
  else if String.eqb method "POST" && str_in route PARTITION_ROUTES then partition_route route request d
  else if get "/api/report" then report_route d
  else if get "/api/rescue/probe" then reply "200 OK" (native_rescue_probe (js_log (ds_journal d))) d
  else if get "/api/log" then (rmap RLog native_log, d)
  else if post "/api/rescue/logs-to-usb" then export_route request d
  else if post "/api/reboot" then reboot_route request d
  else if post "/api/start" then start_route request d
  else if post "/api/cancel" then cancel_route request d
  else if get "/api/stream" then
    match registry_snapshot (ds_registry d) with
    | Some _ =>
        (Ok (RStream (unwrap_or (header_value headers "Last-Event-ID" ≫= parse_u64) 0)), d)
    | None => reply "409 Conflict" (jobject [("error", JString "No installation is running.")]) d
    end
  else reply "404 Not Found" (refusal "Route not found.") d.

(** The inventory, before any route that changes something; [None] passes the
    request on. *)
Definition inventory_route (method target : string) (d : DState) : option Served :=
  let get r := String.eqb method "GET" && String.eqb (path_of target) r in
  match (if get "/api/runtime" then registry_snapshot (ds_registry d) else None) with
  | Some snapshot => Some (reply "200 OK" (runtime_document (snap_runtime snapshot)) d)
  | None =>
      let '(r, j) := read_only_storage_route method target (ds_journal d) in
      let d := set_journal j d in
      match r with
      | Ok (Some v) => Some (reply "200 OK" v d)
      | Ok None => None
      | Err e =>
          Some (if String.eqb method "GET" && str_in (path_of target) ["/api/disks"; "/api/partitions"; "/api/free-space"]
                then reply "503 Service Unavailable" (jobject [("error", JString e)]) d
                else (Err e, d))
      end
  end.

Definition serve (token request : string) (d : DState) : Served :=
  match request_parts request with
  | Err e => (Err e, d)
  | Ok (method, target, headers) =>
      if negb (authorised token method target headers) then (Ok RForbidden, d)
      else
        match inventory_route method target d with
        | Some served => served
        | None =>
            match normalize_start_request request with
            | Err e => if is_start method target then (Ok (RBadStart e), d) else (Err e, d)
            | Ok request => route_request method target headers request d
            end
        end
  end.

(** [handle]: the peer's credentials, then the request; [None] while the thread
    still reads. *)
Definition handle (token : string) (expected_uid : option Z) (peer_uid : result Z) (started : Z) (turns : list ReadTurn)
    (d : DState) : option Served :=
  let served :=
    match read_request started turns with
    | None => None
    | Some (Err e) => Some (Err e, d)
    | Some (Ok request) => Some (serve token request d)
    end in
  match expected_uid with
  | None => served
  | Some expected =>
      match peer_uid with
      | Err e => Some (Err e, d)
      | Ok uid => if uid =? expected then served else Some (Ok RForbidden, d)
      end
  end.
End serving.

(** * Who may change what *)

(** Two states that differ at most in the caches of probes. *)
Record unchanged (d d' : DState) : Prop := {
  un_active : js_active (ds_journal d') = js_active (ds_journal d);
  un_log : js_log (ds_journal d') = js_log (ds_journal d);
  un_locks : js_locks (ds_journal d') = js_locks (ds_journal d);
  un_registry : ds_registry d' = ds_registry d;
  un_acts : ds_acts d' = ds_acts d;
}.

Lemma unchanged_refl d : unchanged d d.
Proof. done. Qed.
#[export] Hint Resolve unchanged_refl : kyth.

Section authority.
Context {HL : LsblkDecoder} {HF : FindmntDecoder} {HJ : JsonCodec} {HO : EditOs} {HD : DaemonOs} {HH : HandleOs}.

(** What an authorised request may do, by its route. *)
Inductive effect (route : string) (d d' : DState) : Prop :=
  | effect_none : unchanged d d' → effect route d d'
  | effect_partition :
      route ∈ PARTITION_ROUTES → registry_active (ds_registry d) = false →
      ds_registry d' = ds_registry d → ds_acts d' = ds_acts d → effect route d d'
  | effect_start :
      route = "/api/start" → registry_active (ds_registry d) = false → registry_active (ds_registry d') = true →
      ds_journal d' = ds_journal d → ds_acts d' = ds_acts d → effect route d d'
  | effect_cancel id :
      route = "/api/cancel" → registry_cancel id (ds_registry d) = Ok (ds_registry d') →
      ds_journal d' = ds_journal d → ds_acts d' = ds_acts d → effect route d d'
  | effect_reboot :
      route = "/api/reboot" → registry_active (ds_registry d) = false →
      ds_journal d' = ds_journal d → ds_registry d' = ds_registry d →
      ds_acts d' = ds_acts d ++ [RanHelper "reboot" (JObject ∅)] → effect route d d'
  | effect_export input :
      route = "/api/rescue/logs-to-usb" →
      ds_journal d' = ds_journal d → ds_registry d' = ds_registry d →
      ds_acts d' = ds_acts d ++ [RanHelper "recovery-export" input] → effect route d d'.

Lemma cached_scan_frame disk s r s' :
  cached_disk_scan disk s = (r, s') →
  js_active s' = js_active s ∧ js_log s' = js_log s ∧ js_locks s' = js_locks s.
Proof.
  unfold cached_disk_scan. destruct (scan_lookup disk s); [by intros [= _ <-]|].
  destruct (scan_probe _ disk); by intros [= _ <-].
Qed.

Lemma scan_route_frame target answer s r s' :
  scan_route target answer s = (r, s') →
  js_active s' = js_active s ∧ js_log s' = js_log s ∧ js_locks s' = js_locks s.
Proof.
  unfold scan_route. destruct (query_value _ _) as [raw|]; [|by intros [= _ <-]].
  destruct (InstallerPlan.normalize_device_path _) as [disk|]; [|by intros [= _ <-]].
  destruct (cached_disk_scan disk s) as [rr ss] eqn:E. intros [= _ <-]. by eapply cached_scan_frame.
Qed.

Lemma disks_route_frame s r s' :
  disks_route s = (r, s') → js_active s' = js_active s ∧ js_log s' = js_log s ∧ js_locks s' = js_locks s.
Proof.
  unfold disks_route. destruct (cached_disks_response s); [by intros [= _ <-]|].
  match goal with |- context [match ?x with Ok _ => _ | Err _ => _ end] => destruct x end; by intros [= _ <-].
Qed.

Lemma read_only_frame method target s r s' :
  read_only_storage_route method target s = (r, s') →
  js_active s' = js_active s ∧ js_log s' = js_log s ∧ js_locks s' = js_locks s.
Proof.
  unfold read_only_storage_route. destruct (negb _); [by intros [= _ <-]|]. destruct (str_in _ _); [by intros [= _ <-]|].
  destruct (String.eqb _ "/api/runtime"); [by intros [= _ <-]|].
  destruct (String.eqb _ "/api/disks").
  { destruct (disks_route s) as [r0 s0] eqn:E. intros [= _ <-]. by eapply disks_route_frame. }
  destruct (String.eqb _ "/api/partitions").
  { match goal with |- context [scan_route ?t ?a s] => destruct (scan_route t a s) as [rr ss] eqn:E end.
    intros [= _ <-]. by eapply scan_route_frame. }
  destruct (String.eqb _ "/api/free-space"); [|by intros [= _ <-]].
  match goal with |- context [scan_route ?t ?a s] => destruct (scan_route t a s) as [rr ss] eqn:E end.
  intros [= _ <-]. by eapply scan_route_frame.
Qed.

Lemma inventory_unchanged method target d r d' : inventory_route method target d = Some (r, d') → unchanged d d'.
Proof.
  unfold inventory_route.
  destruct (if String.eqb method "GET" && _ then registry_snapshot (ds_registry d) else None); [by intros [= _ <-]|].
  destruct (read_only_storage_route method target (ds_journal d)) as [r0 j] eqn:E.
  apply read_only_frame in E as (Ha & Hl & Hk). destruct r0 as [[v|]|e]; [|done|].
  - intros [= _ <-]. by split.
  - destruct (_ && _); intros [= _ <-]; by split.
Qed.

Lemma partition_route_effect route request d r d' :
  route ∈ PARTITION_ROUTES → partition_route route request d = (r, d') → effect route d d'.
Proof.
  intros Hr. unfold partition_route. destruct hn_gate_poisoned; [intros [= _ <-]; by apply effect_none|].
  destruct (registry_active _) eqn:Ea; [intros [= _ <-]; by apply effect_none|].
  destruct (object_body _ _); [|intros [= _ <-]; by apply effect_none].
  destruct (dispatch _ _ _) as [[status v] j]. intros [= _ <-]. by apply effect_partition.
Qed.

Lemma export_route_effect request d r d' :
  export_route request d = (r, d') → effect "/api/rescue/logs-to-usb" d d'.
Proof.
  unfold export_route. destruct (object_body _ _); [|intros [= _ <-]; by apply effect_none].
  destruct (or_else _ _); [|intros [= _ <-]; by apply effect_none].
  destruct (validate_recovery_export_mount _ _); [|intros [= _ <-]; by apply effect_none].
  destruct hn_paths as [[? ?] ?]. destruct (run_native_helper _ _); intros [= _ <-]; by eapply effect_export.
Qed.

Lemma reboot_route_effect request d r d' : reboot_route request d = (r, d') → effect "/api/reboot" d d'.
Proof.
  unfold reboot_route. destruct (negb _); [intros [= _ <-]; by apply effect_none|].
  destruct hn_gate_poisoned; [intros [= _ <-]; by apply effect_none|].
  destruct (registry_active _) eqn:Ea; [intros [= _ <-]; by apply effect_none|].
  destruct (run_native_action _ _); intros [= _ <-]; by apply effect_reboot.
Qed.

Lemma start_route_effect request d r d' : start_route request d = (r, d') → effect "/api/start" d d'.
Proof.
  unfold start_route. destruct hn_gate_poisoned; [intros [= _ <-]; by apply effect_none|].
  destruct (native_request_from_start _) as [nr|]; [|intros [= _ <-]; by apply effect_none].
  destruct (registry_start _ _ _) as [[reg receipt]|e] eqn:E; [|intros [= _ <-]; by apply effect_none].
  intros [= _ <-]. apply registry_start_exclusive in E as (Ha & Hb & _). by apply effect_start.
Qed.

Lemma cancel_route_effect request d r d' : cancel_route request d = (r, d') → effect "/api/cancel" d d'.
Proof.
  unfold cancel_route. destruct (match request_body request with Ok _ => _ | Err _ => _ end) as [id|];
    [|intros [= _ <-]; by apply effect_none].
  destruct (registry_snapshot _); [|intros [= _ <-]; by apply effect_none].
  destruct (registry_cancel id _) eqn:E; [|intros [= _ <-]; by apply effect_none].
  intros [= _ <-]. by eapply effect_cancel.
Qed.

Lemma route_request_effect method target headers request d r d' :
  route_request method target headers request d = (r, d') →
  unchanged d d' ∨ method = "POST" ∧ effect (path_of target) d d'.
Proof.
  unfold route_request.
  destruct (String.eqb method "GET" && String.eqb (path_of target) "/api/disk/pending").
  { destruct (native_pending_request _); [destruct (journal_pending _ _)|]; intros [= _ <-]; by left. }
  destruct (String.eqb method "GET" && String.eqb (path_of target) "/api/disk/filesystems"); [intros [= _ <-]; by left|].
  destruct (String.eqb_spec method "POST") as [->|Hm]; cbn [andb].
  - destruct (str_in (path_of target) PARTITION_ROUTES) eqn:Ep.
    { apply str_in_true in Ep. intros H. right. split; [done|]. by eapply partition_route_effect. }
    cbn [String.eqb Ascii.eqb Bool.eqb andb].
    destruct (String.eqb_spec (path_of target) "/api/rescue/logs-to-usb") as [->|]; [intros H; right; eauto using export_route_effect|].
    destruct (String.eqb_spec (path_of target) "/api/reboot") as [->|]; [intros H; right; eauto using reboot_route_effect|].
    destruct (String.eqb_spec (path_of target) "/api/start") as [->|]; [intros H; right; eauto using start_route_effect|].
    destruct (String.eqb_spec (path_of target) "/api/cancel") as [->|]; [intros H; right; eauto using cancel_route_effect|].
    intros [= _ <-]. by left.
  - destruct (_ && _).
    { unfold report_route. repeat case_match; intros [= _ <-]; by left. }
    destruct (_ && _); [intros [= _ <-]; by left|]. destruct (_ && _); [intros [= _ <-]; by left|].
    destruct (_ && _); [|intros [= _ <-]; by left]. destruct (registry_snapshot _); intros [= _ <-]; by left.
Qed.

Lemma serve_effect token request d r d' :
  serve token request d = (r, d') →
  unchanged d d' ∨ ∃ target headers, request_parts request = Ok ("POST", target, headers)
    ∧ authorised token "POST" target headers = true ∧ effect (path_of target) d d'.
Proof.
  unfold serve. destruct (request_parts request) as [[[method target] headers]|e]; [|intros [= _ <-]; by left].
  destruct (authorised token method target headers) eqn:Ea; [|intros [= _ <-]; by left]. cbn [negb].
  destruct (inventory_route method target d) as [[r0 d0]|] eqn:Ei.
  { intros [= _ <-]. left. by eapply inventory_unchanged. }
  destruct (normalize_start_request request); [|destruct (is_start _ _); intros [= _ <-]; by left].
  intros [Hu|[-> He]]%route_request_effect; [by left|]. right. exists target, headers. done.
Qed.

Lemma authorised_inv token method target headers :
  authorised token method target headers = true →
  route_allowed method target = true ∧ header_count headers SESSION_HEADER = 1%nat
  ∧ header_value headers SESSION_HEADER = Some token.
Proof.
  unfold authorised. intros [[Hr Hc%Nat.eqb_eq]%andb_true_iff Hv]%andb_true_iff. split_and!; [done..|].
  destruct (header_value headers SESSION_HEADER) as [provided|]; [|done]. rewrite tokens_equal_eq in Hv.
  by apply String.eqb_eq in Hv as ->.
Qed.

(** C8: nothing but the caches of probes changes unless the peer is the
    expected user and the request is a POST to a listed route that carries the
    session token, exactly and once; and then only what the route is for
    changes: partition edits, a start and a reboot only while no installation
    runs, a reboot and an export only through the helper, a cancel only for the
    job it names. *)
Theorem changes_are_authorised token expected peer started turns d r d' :
  handle token expected peer started turns d = Some (r, d') → ¬ unchanged d d' →
  (∀ uid, expected = Some uid → peer = Ok uid) ∧
  ∃ request target headers,
    read_request started turns = Some (Ok request) ∧ request_parts request = Ok ("POST", target, headers)
    ∧ path_of target ∈ POST_ROUTES ∧ header_count headers SESSION_HEADER = 1%nat
    ∧ header_value headers SESSION_HEADER = Some token ∧ effect (path_of target) d d'.
Proof.
  unfold handle. intros Hh Hne.
  assert (∃ request, read_request started turns = Some (Ok request) ∧ serve token request d = (r, d')
          ∧ (∀ uid, expected = Some uid → peer = Ok uid)) as (request & Hr & Hs & Hp).
  { assert (match read_request started turns with
            | None => None | Some (Err e) => Some (Err e, d) | Some (Ok request) => Some (serve token request d)
            end = Some (r, d') → ∃ request, read_request started turns = Some (Ok request) ∧ serve token request d = (r, d')) as Hread.
    { destruct (read_request started turns) as [[request|e]|]; [|intros [= _ <-]; by destruct Hne|done]. intros [= ?]. eauto. }
    destruct expected as [uid|]; [|destruct (Hread Hh) as (request & ? & ?); exists request; done].
    destruct peer as [u|e]; [|injection Hh as _ <-; by destruct Hne]. destruct (Z.eqb_spec u uid) as [->|]; [|injection Hh as _ <-; by destruct Hne].
    destruct (Hread Hh) as (request & ? & ?). exists request. split_and!; [done..|]. by intros ? [= ->]. }
  split; [done|]. apply serve_effect in Hs as [Hu|(target & headers & Hparts & Ha & He)]; [done|].
  apply authorised_inv in Ha as (Hroute & Hc & Hv). exists request, target, headers. split_and!; try done.
  unfold route_allowed in Hroute. cbn in Hroute. by apply str_in_true.
Qed.

(** What a start request has said when an installation has been started. *)
Lemma start_route_agreed request d r d' :
  start_route request d = (r, d') → ¬ unchanged d d' →
  ∃ value nr, request_body request = Ok value ∧ validate_start_acknowledgements value = Ok tt
    ∧ from_http (HR := hn_request) value = Ok nr ∧ executor_of nr = Ok tt.
Proof.
  unfold start_route. intros H Hne. destruct hn_gate_poisoned; [injection H as _ <-; by destruct Hne|].
  destruct (native_request_from_start request) as [nr|e] eqn:En; [|injection H as _ <-; by destruct Hne].
  destruct (registry_start _ _ _) as [[reg receipt]|e] eqn:Es; [|injection H as _ <-; by destruct Hne].
  apply registry_start_Ok in Es as (_ & Hx & _). unfold native_request_from_start in En.
  apply rbind_Ok in En as ([[m t] h] & _ & En). guard_inv En as Eg. apply rbind_Ok in En as (value & Hv & En).
  apply rbind_Ok in En as ([] & Hack & En). exists value, nr. done.
Qed.

Lemma acknowledgements_inv value :
  validate_start_acknowledgements value = Ok tt →
  field as_bool "confirm_backup" value = Some true ∧ field as_bool "confirm_erase" value = Some true
  ∧ (∃ u, field as_str "username" value = Some u ∧ trim u ≠ EmptyString)
  ∧ ∃ w, field as_str "password" value = Some w ∧ w ≠ EmptyString.
Proof.
  unfold validate_start_acknowledgements. destruct value as [| | | | | |m]; try done. intros H.
  guard_inv H as E1. guard_inv H as E2. guard_inv H as E3. guard_inv H as E4. bool_inv. split_and!; [done..| |].
  - destruct (field as_str "username" _) as [u|]; [|done]. exists u. split; [done|]. by apply is_empty_false.
  - destruct (field as_str "password" _) as [u|]; [|done]. exists u. split; [done|]. by apply is_empty_false.
Qed.

(** An installation is started only by a request whose normalised body
    confirms the backup, the erasure and the irreversible step, names a login
    with a password, and from which a storage plan and an execution plan could
    be built. *)
Theorem installation_was_agreed token request d r d' :
  serve token request d = (r, d') →
  registry_active (ds_registry d) = false → registry_active (ds_registry d') = true →
  ∃ normalized value nr plan,
    normalize_start_request request = Ok normalized ∧ request_body normalized = Ok value
    ∧ field as_bool "confirm_backup" value = Some true ∧ field as_bool "confirm_erase" value = Some true
    ∧ (∃ object, value = JObject object ∧ acknowledged object = true)
    ∧ (∃ u, field as_str "username" value = Some u ∧ trim u ≠ EmptyString)
    ∧ (∃ w, field as_str "password" value = Some w ∧ w ≠ EmptyString)
    ∧ from_http (HR := hn_request) value = Ok nr ∧ InstallerPlan.build_plan (nr_storage nr) = Ok plan.
Proof.
  intros Hs Hin Hac.
  assert (∀ d', unchanged d d' → registry_active (ds_registry d') = true → False) as Hun.
  { intros d1 [_ _ _ Hr _] H. rewrite Hr in H. congruence. }
  unfold serve in Hs. destruct (request_parts request) as [[[method target] headers]|e]; [|injection Hs as _ <-; congruence].
  destruct (authorised token method target headers); [|injection Hs as _ <-; congruence]. cbn [negb] in Hs.
  destruct (inventory_route method target d) as [[r0 d0]|] eqn:Ei.
  { injection Hs as _ <-. exfalso. eapply Hun; [by eapply inventory_unchanged|done]. }
  destruct (normalize_start_request request) as [normalized|e] eqn:En.
  2:{ exfalso. destruct (is_start method target); injection Hs as _ <-; by eapply Hun. }
  assert (start_route normalized d = (r, d')) as Hst.
  { pose proof Hs as He. apply route_request_effect in He as [Hu|[-> He]]; [exfalso; by eapply Hun|].
    assert (path_of target = "/api/start") as Hp.
    { destruct He as [Hu|_ _ Hr _|Hp _ _ _ _|id _ Hc _ _|_ _ _ Hr _|input _ _ Hr _]; [exfalso; by eapply Hun| |done|..].
      - rewrite Hr in Hac. congruence.
      - apply registry_cancel_bound in Hc as (c & c' & Hc & _ & _ & Hw & _). rewrite Hc in Hin. cbn in Hin. congruence.
      - rewrite Hr in Hac. congruence.
      - rewrite Hr in Hac. congruence. }
    unfold route_request in Hs. rewrite Hp in Hs. exact Hs. }
  apply start_route_agreed in Hst as (value & nr & Hv & Hack & Hh & Hx).
  2:{ intros Hu. by eapply Hun. }
  apply acknowledgements_inv in Hack as (Hb & He & Hu & Hw).
  unfold executor_of in Hx. destruct (from_request nr) as [x|] eqn:Ex; [|done]. unfold from_request in Ex.
  apply rbind_Ok in Ex as (plan & Hplan & _).
  exists normalized, value, nr, plan. split_and!; try done.
  unfold from_http in Hh. destruct value as [| | | | | |object]; try done. exists object. split; [done|].
  unfold from_object in Hh. guard_inv Hh as E. by apply negb_false_iff.
Qed.
End authority.

(** * A daemon to talk to *)

Definition quiet_helper : Helper := {| hp_spawn := Ok tt; hp_write := Ok tt; hp_child := answering EmptyString |}.
Definition desk : HandleOs := {|
  hn_now := 0; hn_stored := 0; hn_inventory _ := JNull; hn_display := show_int; hn_transaction := FileMissing;
  hn_log := FileMissing; hn_paths := ("/run/kyth-installer/log", "/run/kyth-installer/txn/transaction.json",
                                      "/run/kyth-installer/txn/failure.json");
  hn_canonical p := Ok p; hn_is_dir _ := true; hn_is_symlink _ := false; hn_helper _ _ := quiet_helper;
  hn_status_text _ := "exit status: 1"; hn_decode_error _ := "invalid type"; hn_request := plain_request_os;
  hn_build := {| bo_runner := {| RustOs.run_command _ _ := says "512" |}; bo_env _ := None;
                 bo_resolve _ := Some ["10.0.0.1"]; bo_connect _ := true; bo_source_status _ _ := JNull;
                 bo_transaction_id := "native-1-1" |};
  hn_choice := go; hn_gate_poisoned := false |}.

Definition desk_token : string := "0123456789abcdef0123456789abcdef".
Definition post (target : string) (v : json) : string :=
  let body := @json_encode tree_codec v in
  "POST " +:+ target +:+ " HTTP/1.1" +:+ crlf +:+ "Host: kyth" +:+ crlf
  +:+ "x-kyth-session-token: " +:+ desk_token +:+ crlf
  +:+ "Content-Length: " +:+ show_int (slen body) +:+ blank_line +:+ body.

(** A peer that sends the request in two pieces and closes. *)
Definition in_two (request : string) : list ReadTurn :=
  let turn text := {| rt_now := 10; rt_set := Ok tt; rt_read := Ok text |} in
  [turn (stake 20 request); turn (sdrop 20 request); turn EmptyString].

Definition fresh_daemon : DState := {| ds_journal := start_state; ds_registry := None; ds_acts := [] |}.

Definition talk (request : string) (d : DState) : option Served :=
  @handle world_decoder sample_findmnt tree_codec (world (λ _, false)) (daemon_world PowerMissing) desk
    desk_token (Some 1000) (Ok 1000) 0 (in_two request) d.

Definition answer_of (x : option Served) : option (result Response) := fst <$> x.

Definition agreed_start : json :=
  match start_request "wipe" with
  | JObject m => JObject (<["confirm_backup" := JBool true]> (<["confirm_erase" := JBool true]> m))
  | v => v
  end.

Example forged_token_refused :
  answer_of (@handle world_decoder sample_findmnt tree_codec (world (λ _, false)) (daemon_world PowerMissing) desk
    "another-token-another-token-another" (Some 1000) (Ok 1000) 0 (in_two (post "/api/start" agreed_start)) fresh_daemon)
  = Some (Ok RForbidden).
Proof. vm_compute. reflexivity. Qed.

Example start_over_the_wire :
  answer_of (talk (post "/api/start" agreed_start) fresh_daemon)
  = Some (Ok (RJson "200 OK" (jobject [("started", JBool true); ("job_id", JNumber 1); ("first_event_id", JNumber 1)]))).
Proof. vm_compute. reflexivity. Qed.

Example edits_locked_while_installing :
  answer_of (talk (post "/api/disk/new-table" (jobject [("disk", JString "sda")]))
    {| ds_journal := start_state; ds_registry := Some first_job; ds_acts := [] |})
  = Some (Ok (RJson "409 Conflict" (refusal "Partition changes are locked while installation is running."))).
Proof. vm_compute. reflexivity. Qed.

Lemma changes_are_authorised_witness : ∃ r d' headers,
  talk (post "/api/start" agreed_start) fresh_daemon = Some (r, d')
  ∧ header_value headers SESSION_HEADER = Some desk_token.
Proof.
  destruct (talk (post "/api/start" agreed_start) fresh_daemon) as [[r d']|] eqn:E; [|vm_compute in E; discriminate E].
  assert (¬ unchanged fresh_daemon d') as Hne.
  { intros [_ _ _ Hr _]. assert (Some (r, d') = talk (post "/api/start" agreed_start) fresh_daemon) as E' by done.
    vm_compute in E'. injection E' as _ ->. vm_compute in Hr. discriminate Hr. }
  destruct (@changes_are_authorised world_decoder sample_findmnt tree_codec (world (λ _, false)) (daemon_world PowerMissing) desk
              desk_token (Some 1000) (Ok 1000) 0 (in_two (post "/api/start" agreed_start)) fresh_daemon r d' E Hne)
    as (_ & request & target & headers & _ & _ & _ & _ & Hv & _).
  exists r, d', headers. split; [reflexivity|exact Hv].
Defined.

Lemma installation_was_agreed_witness : ∃ value,
  field as_bool "confirm_backup" value = Some true
  ∧ field as_bool "confirm_backup" agreed_start = field as_bool "confirm_backup" value.
Proof.
  destruct (@serve world_decoder sample_findmnt tree_codec (world (λ _, false)) (daemon_world PowerMissing) desk
              desk_token (post "/api/start" agreed_start) fresh_daemon) as [r d'] eqn:E.
  assert (registry_active (ds_registry d') = true) as Ha.
  { change d' with (snd (r, d')). rewrite <-E. vm_compute. reflexivity. }
  destruct (@installation_was_agreed world_decoder sample_findmnt tree_codec (world (λ _, false)) (daemon_world PowerMissing) desk
              desk_token (post "/api/start" agreed_start) fresh_daemon r d' E eq_refl Ha)
    as (normalized & value & nr & plan & _ & _ & Hb & _).
  exists value. split; [exact Hb|]. rewrite Hb. vm_compute. reflexivity.
Defined.
