(* ===== verification/DaemonThreads.v ===== *)
(** The daemon's threads: what requests do to each other.

    Every connection is a thread.  The parts of [installer_daemon.rs] that decide
    how threads interleave are modelled here as step relations: the counter of
    client slots, the storage gate around partition changes, reboots and starts,
    the registry's mutex, the probe cache between a commit and a reader, and the
    loop of an event stream. *)

From S2P Require Import Prelude RustStr RustOs Json InstallerRuntime InstallerJob JobRegistry.
From S2P Require Import InstallerPlan StorageModel InstallerGuard PartitionEdits PartitionCommit.
From S2P Require Import DaemonHttp DaemonJournal Daemon.

(** * Client slots *)

(** The shared counter, what each thread in [reserve_client_slot] has loaded, and
    the threads that hold a slot. *)
Record Slots := {
  sl_active : Z;
  sl_loops : gmap nat Z;
  sl_held : gset nat;
}.

Definition no_slots : Slots := {| sl_active := 0; sl_loops := ∅; sl_held := ∅ |}.

Inductive slot_step : Slots → Slots → Prop :=
  | slot_load i s :                                    (* the first load *)
      sl_loops s !! i = None → i ∉ sl_held s →
      slot_step s {| sl_active := sl_active s; sl_loops := <[i := sl_active s]> (sl_loops s); sl_held := sl_held s |}
  | slot_full i current s :                            (* the limit is reached: busy *)
      sl_loops s !! i = Some current → MAX_ACTIVE_CLIENTS <= current →
      slot_step s {| sl_active := sl_active s; sl_loops := delete i (sl_loops s); sl_held := sl_held s |}
  | slot_exchange i current s :                        (* compare and exchange *)
      sl_loops s !! i = Some current → current < MAX_ACTIVE_CLIENTS → sl_active s = current →
      slot_step s {| sl_active := current + 1; sl_loops := delete i (sl_loops s); sl_held := {[i]} ∪ sl_held s |}
  | slot_retry i current s :                           (* it failed, perhaps spuriously *)
      sl_loops s !! i = Some current → current < MAX_ACTIVE_CLIENTS →
      slot_step s {| sl_active := sl_active s; sl_loops := <[i := sl_active s]> (sl_loops s); sl_held := sl_held s |}
  | slot_drop i s :                                    (* [ClientSlot::drop] *)
      i ∈ sl_held s →
      slot_step s {| sl_active := sl_active s - 1; sl_loops := sl_loops s; sl_held := sl_held s ∖ {[i]} |}.

Record slots_ok (s : Slots) : Prop := {
  so_count : sl_active s = Z.of_nat (size (sl_held s));
  so_limit : sl_active s <= MAX_ACTIVE_CLIENTS;
  so_apart : ∀ i current, sl_loops s !! i = Some current → i ∉ sl_held s;
}.

Lemma slot_step_ok s s' : slots_ok s → slot_step s s' → slots_ok s'.
Proof.
  intros [Hc Hl Ha] Hs. destruct Hs as [i s Hn Hh|i cur s Hi Hm|i cur s Hi Hm He|i cur s Hi Hm|i s Hi]; split; cbn; try done.
  - intros k cur. destruct (decide (i = k)) as [->|]; [by rewrite lookup_insert_eq|]. rewrite lookup_insert_ne by done. eauto.
  - intros k cur' Hk. apply lookup_delete_Some in Hk as [_ Hk]. eauto.
  - rewrite size_union, size_singleton; [lia|]. apply Ha in Hi. set_solver.
  - lia.
  - intros k cur' Hk. apply lookup_delete_Some in Hk as [Hne Hk]. apply Ha in Hk. set_solver.
  - intros k cur'. destruct (decide (i = k)) as [->|]; [rewrite lookup_insert_eq; intros _; by eapply Ha|].
    rewrite lookup_insert_ne by done. eauto.
  - rewrite size_difference, size_singleton by set_solver.
    assert (0 < size (sl_held s))%nat by (apply Nat.neq_0_lt_0; rewrite size_non_empty_iff; set_solver). lia.
  - lia.
  - intros k cur Hk. apply Ha in Hk. set_solver.
Qed.

(** The counter is the number of clients being served, and there are never more
    than thirty-two, whatever the interleaving of the loops that reserve and the
    threads that leave. *)
Lemma slots_bounded s : rtc slot_step no_slots s → slots_ok s ∧ (size (sl_held s) <= 32)%nat.
Proof.
  intros Hr. assert (slots_ok s) as Hs.
  { assert (slots_ok no_slots) as H0 by (split; cbn; [done|done|by intros i cur; rewrite lookup_empty]).
    revert H0. induction Hr as [|s1 s2 s3 H12 _ IH]; intros H0; [done|]. apply IH. by eapply slot_step_ok. }
  split; [done|]. destruct Hs as [Hc Hl _]. unfold MAX_ACTIVE_CLIENTS in Hl. lia.
Qed.

(** * The storage gate and the registry's mutex *)

(** The routes behind the gate, and where a thread stands in them. *)
Inductive Gated := GPartition | GReboot | GStart.
Inductive Place :=
| Waiting (k : Gated)             (* before [storage_gate.lock()] *)
| Entered (k : Gated)             (* inside, before the registry is asked *)
| Editing                         (* the worker was idle: the journal's routes run *)
| Rebooting                       (* the worker was idle: the helper runs *)
| Leaving
| Streaming                       (* an event stream between its calls *)
| Sleeping.                       (* in [wait_for_events], the registry's mutex held *)

Record Threads := {
  th_gate : option nat;
  th_sleeper : option nat;        (* the stream thread that holds the registry's mutex while it waits *)
  th_places : gmap nat Place;
  th_registry : Registry;
}.

Definition quiet_threads : Threads := {| th_gate := None; th_sleeper := None; th_places := ∅; th_registry := None |}.

Definition move (i : nat) (p : Place) (w : Threads) : Threads :=
  {| th_gate := th_gate w; th_sleeper := th_sleeper w; th_places := <[i := p]> (th_places w);
     th_registry := th_registry w |}.
Definition with_gate (g : option nat) (w : Threads) : Threads :=
  {| th_gate := g; th_sleeper := th_sleeper w; th_places := th_places w; th_registry := th_registry w |}.
Definition with_registry (r : Registry) (w : Threads) : Threads :=
  {| th_gate := th_gate w; th_sleeper := th_sleeper w; th_places := th_places w; th_registry := r |}.
Definition with_sleeper (g : option nat) (w : Threads) : Threads :=
  {| th_gate := th_gate w; th_sleeper := g; th_places := th_places w; th_registry := th_registry w |}.
Definition leave (i : nat) (w : Threads) : Threads :=
  {| th_gate := th_gate w; th_sleeper := th_sleeper w; th_places := delete i (th_places w); th_registry := th_registry w |}.

Inductive Label := LArrive | LEnter | LCheck | LEdit | LStart | LInvalid | LRelease | LWorker | LCancel | LWait | LWake.

Inductive thread_step : Label → Threads → Threads → Prop :=
  | arrive_gated i k w : th_places w !! i = None → thread_step LArrive w (move i (Waiting k) w)
  | arrive_stream i w : th_places w !! i = None → thread_step LArrive w (move i Streaming w)
  | enter i k w :
      th_places w !! i = Some (Waiting k) → th_gate w = None →
      thread_step LEnter w (move i (Entered k) (with_gate (Some i) w))
  | check i k w :                 (* [native_registry.snapshot()] *)
      th_places w !! i = Some (Entered k) → k ≠ GStart → th_sleeper w = None →
      thread_step LCheck w
        (move i (if registry_active (th_registry w) then Leaving
                 else match k with GReboot => Rebooting | _ => Editing end) w)
  | edit i w :
      th_places w !! i = Some Editing ∨ th_places w !! i = Some Rebooting →
      thread_step LEdit w (move i Leaving w)
  | start i executor ch r receipt w :
      th_places w !! i = Some (Entered GStart) → th_sleeper w = None →
      registry_start executor ch (th_registry w) = Ok (r, receipt) →
      thread_step LStart w (move i Leaving (with_registry r w))
  | start_invalid i w :           (* the body is no acceptable request *)
      th_places w !! i = Some (Entered GStart) → thread_step LInvalid w (move i Leaving w)
  | start_refused i executor ch e w :
      th_places w !! i = Some (Entered GStart) → th_sleeper w = None →
      registry_start executor ch (th_registry w) = Err e →
      thread_step LStart w (move i Leaving w)
  | release i w :
      th_places w !! i = Some Leaving → thread_step LRelease w (leave i (with_gate None w))
  | worker a c c' w :             (* the installation's own threads *)
      th_registry w = Some c → a ≠ AStart → a ≠ ACancel → act a c = Some c' →
      thread_step LWorker w (with_registry (Some c') w)
  | cancel id r w :               (* the cancel route, outside the gate *)
      th_sleeper w = None → registry_cancel id (th_registry w) = Ok r →
      thread_step LCancel w (with_registry r w)
  | wait i w :
      th_places w !! i = Some Streaming → th_sleeper w = None → th_registry w ≠ None →
      thread_step LWait w (move i Sleeping (with_sleeper (Some i) w))
  | wake i w :                    (* an event, a spurious wake-up or fifteen seconds *)
      th_places w !! i = Some Sleeping → th_sleeper w = Some i →
      thread_step LWake w (move i Streaming (with_sleeper None w)).

Definition inside (p : Place) : bool :=
  match p with Entered _ | Editing | Rebooting | Leaving => true | _ => false end.
Definition storing (p : Place) : bool := match p with Editing | Rebooting => true | _ => false end.

Record threads_ok (w : Threads) : Prop := {
  to_inside : ∀ i p, th_places w !! i = Some p → inside p = true → th_gate w = Some i;
  to_storing : ∀ i p, th_places w !! i = Some p → storing p = true → registry_active (th_registry w) = false;
  to_registry : ∀ c, th_registry w = Some c → reachable c;
  to_sleeper : ∀ i, th_places w !! i = Some Sleeping → th_sleeper w = Some i;
}.

Lemma act_all_snoc acts a c c1 : act_all acts c = Some c1 → act_all (acts ++ [a]) c = act a c1.
Proof.
  revert c. induction acts as [|b acts IH]; intros c; cbn.
  - intros [= ->]. by destruct (act a c1).
  - destruct (act b c); [apply IH|done].
Qed.

Lemma reachable_act a c c' : reachable c → act a c = Some c' → reachable c'.
Proof. intros [acts Hacts] Ha. exists (acts ++ [a]). by rewrite (act_all_snoc _ _ _ _ Hacts). Qed.

(** Without a new start an idle supervisor stays idle. *)
Lemma idle_stays a c c' :
  reachable c → worker_active (job c) = false → a ≠ AStart → act a c = Some c' → worker_active (job c') = false.
Proof.
  intros Hr Hi Ha H. apply reachable_slot in Hr as [_ [[_ Ho _]|(o & t & pos & Hw)]].
  2:{ rewrite (ow_active _ _ _ _ Hw) in Hi. done. }
  destruct a as [| |i|i ch]; [done| | |]; cbn [act] in H.
  - unfold cancel_request in H. rewrite Hi in H. by injection H as <-.
  - destruct (setters c !! i); [|done]. by injection H as <-.
  - by rewrite Ho in H.
Qed.

Lemma cancel_keeps id reg reg' :
  registry_cancel id reg = Ok reg' → (∀ c, reg = Some c → reachable c) →
  registry_active reg = true ∧ (∀ c, reg' = Some c → reachable c).
Proof.
  intros H Hr. pose proof (registry_cancel_bound _ _ _ H) as (c & c' & -> & -> & _ & Hw & _). split; [done|].
  unfold registry_cancel in H. cbn [ok_or rbind] in H. guard_inv H as E. apply rbind_Ok in H as (x & _ & H).
  intros c1 [= <-]. destruct (act ACancel c) as [c2|] eqn:Ea; injection H as <-; [|by apply Hr].
  by eapply reachable_act; [apply Hr|].
Qed.

(** Looking up a thread after one has moved. *)
Ltac placed :=
  repeat match goal with
  | H : <[?i := _]> _ !! ?k = Some _ |- _ =>
      destruct (decide (i = k)) as [<-|];
      [rewrite lookup_insert_eq in H; apply (inj Some) in H; try (subst; done); try subst|rewrite lookup_insert_ne in H by done]
  | H : delete _ _ !! _ = Some _ |- _ => apply lookup_delete_Some in H as [? H]
  end.

Lemma storing_inside p : storing p = true → inside p = true.
Proof. by destruct p. Qed.

(** Only one thread is inside. *)
Lemma inside_unique w i p k q :
  threads_ok w → th_places w !! i = Some p → inside p = true → th_places w !! k = Some q → inside q = true → i = k.
Proof. intros [Hin _ _ _] Hi Hp Hk Hq. pose proof (Hin _ _ Hi Hp). pose proof (Hin _ _ Hk Hq). congruence. Qed.

Lemma move_ok i p p' w :
  threads_ok w → th_places w !! i = Some p → (inside p' = true → inside p = true) →
  (storing p' = true → registry_active (th_registry w) = false) → p' ≠ Sleeping → threads_ok (move i p' w).
Proof.
  intros [Hin Hst Hreg Hsl] Hi Hp Hs Hne. split; cbn [move th_gate th_places th_registry th_sleeper]; intros; placed; eauto.
Qed.

Lemma arrive_ok i p w :
  threads_ok w → inside p = false → storing p = false → p ≠ Sleeping → threads_ok (move i p w).
Proof.
  intros [Hin Hst Hreg Hsl] Hp Hs Hne. split; cbn [move th_gate th_places th_registry th_sleeper]; intros; placed; eauto; congruence.
Qed.

Lemma enter_ok i k w :
  threads_ok w → th_gate w = None → threads_ok (move i (Entered k) (with_gate (Some i) w)).
Proof.
  intros [Hin Hst Hreg Hsl] Hg. split; cbn; intros; placed; eauto; try done.
  match goal with H : th_places w !! _ = Some _ |- _ => pose proof (Hin _ _ H ltac:(done)) end. congruence.
Qed.

Lemma start_ok i r w :
  threads_ok w → th_places w !! i = Some (Entered GStart) → (∀ c, r = Some c → reachable c) →
  threads_ok (move i Leaving (with_registry r w)).
Proof.
  intros Hok Hi Hr. pose proof Hok as [Hin Hst Hreg Hsl].
  split; cbn [move with_registry th_gate th_places th_registry th_sleeper]; intros; placed; eauto; try done.
  exfalso. match goal with H : th_places w !! ?k = Some ?p, Hs : storing ?p = true |- _ =>
    pose proof (inside_unique _ _ _ _ _ Hok Hi eq_refl H (storing_inside _ Hs)) end. done.
Qed.

Lemma release_ok i w : threads_ok w → th_places w !! i = Some Leaving → threads_ok (leave i (with_gate None w)).
Proof.
  intros Hok Hi. pose proof Hok as [Hin Hst Hreg Hsl].
  split; cbn [leave with_gate th_gate th_places th_registry th_sleeper]; intros; placed; eauto.
  exfalso. match goal with H : th_places w !! ?k = Some ?p, Hs : inside ?p = true |- _ =>
    pose proof (inside_unique _ _ _ _ _ Hok Hi eq_refl H Hs) end. done.
Qed.

(** The registry moves on without a start. *)
Lemma registry_ok r w :
  threads_ok w → (∀ c, r = Some c → reachable c) →
  (registry_active (th_registry w) = false → registry_active r = false) → threads_ok (with_registry r w).
Proof. intros [Hin Hst Hreg Hsl] Hr Ha. split; cbn [with_registry th_gate th_places th_registry th_sleeper]; eauto. Qed.

Lemma thread_step_ok l w w' : threads_ok w → thread_step l w w' → threads_ok w'.
Proof.
  intros Hok Hs. pose proof Hok as [Hin Hst Hreg Hsl].
  destruct Hs as [i k w Hn|i w Hn|i k w Hi Hg|i k w Hi Hk Hs0|i w Hi|i ex ch r rc w Hi Hs0 Hr|i w Hi|i ex ch e w Hi Hs0 Hr|i w Hi
                 |a c c' w Hr Ha Hb Hact|id r w Hs0 Hc|i w Hi Hs0 Hr|i w Hi Hs0].
  - by apply arrive_ok.
  - by apply arrive_ok.
  - by apply enter_ok.
  - eapply move_ok; [done|exact Hi|done| |]; destruct (registry_active _) eqn:E; try done; by destruct k.
  - destruct Hi as [Hi|Hi]; (eapply move_ok; [done|exact Hi|done..]).
  - apply registry_start_exclusive in Hr as (_ & _ & c & -> & Hc & _). apply start_ok; [done..|]. by intros ? [= <-].
  - by eapply move_ok; [done|exact Hi|..].
  - by eapply move_ok; [done|exact Hi|..].
  - by apply release_ok.
  - apply registry_ok; [done| |].
    + intros ? [= <-]. eapply reachable_act; [by apply Hreg|done].
    + rewrite Hr. intros Hi. eapply idle_stays; [by apply Hreg|done|done|done].
  - destruct (cancel_keeps _ _ _ Hc Hreg) as [Hact Hrr]. apply registry_ok; [done|done|congruence].
  - split; cbn; intros; placed; eauto; try done.
    match goal with H : th_places w !! _ = Some Sleeping |- _ => pose proof (Hsl _ H) end. congruence.
  - split; cbn; intros; placed; eauto; try done.
    match goal with H : th_places w !! _ = Some Sleeping |- _ => pose proof (Hsl _ H) end. congruence.
Qed.

Definition daemon_reachable (w : Threads) : Prop := rtc (λ x y, ∃ l, thread_step l x y) quiet_threads w.

Lemma daemon_reachable_ok w : daemon_reachable w → threads_ok w.
Proof.
  intros Hr. assert (threads_ok quiet_threads) as H0.
  { split; cbn; intros; try done; by rewrite lookup_empty in *. }
  revert H0. induction Hr as [|w1 w2 w3 [l H12] _ IH]; intros H0; [done|]. apply IH. by eapply thread_step_ok.
Qed.

(** C9: however the daemon's threads interleave with each other and with the
    threads of an installation, partition changes and reboots never run while an
    installation is active, and at most one thread is past the storage gate: the
    answer of the registry under the gate stays true until the thread leaves. *)
Theorem storage_changes_exclusive w i p :
  daemon_reachable w → th_places w !! i = Some p → storing p = true →
  registry_active (th_registry w) = false
  ∧ ∀ k q, th_places w !! k = Some q → inside q = true → k = i.
Proof.
  intros Hr Hi Hp. pose proof (daemon_reachable_ok w Hr) as Hok. split; [by eapply to_storing|].
  intros k q Hk Hq. symmetry. eapply inside_unique; eauto using storing_inside.
Qed.

(** An event stream that waits keeps the registry's mutex for the whole
    wait, up to fifteen seconds: until it wakes no cancel, no start and no check
    of a partition request or a reboot gets through. *)
Lemma sleeping_stream_blocks l w w' i :
  th_sleeper w = Some i → thread_step l w w' → l ∉ [LCancel; LStart; LCheck; LWait].
Proof.
  intros Hs Hst. destruct Hst; try (rewrite Hs in *; done); set_solver.
Qed.

(** * Readers beside a commit *)

Section readers.
Context {HL : LsblkDecoder} {HF : FindmntDecoder} {HJ : JsonCodec} {HO : EditOs} {HD : DaemonOs}.

(** A commit that answers at all drops the cached scans, so a reader that starts
    afterwards probes the disk again. *)
Lemma commit_drops_scans value s a s' j :
  js_active s = Some j → request_disk value = Ok (pj_disk j) → consent value = true →
  dispatch "/api/disk/commit" value s = (a, s') →
  (∃ reply m, commit_request (stamped (js_log s) j)
     (commit_state (js_log s) (js_parts s) (js_locks s) (stamped (js_log s) j)) = (Ok reply, m)) →
  js_scans s' = ∅ ∧ js_disks s' = None ∧ js_parts s' = ∅.
Proof.
  intros Hj Hd Hc H (reply & m & Hr). rewrite dispatch_commit, Hd in H. unfold commit_route in H.
  rewrite Hc in H. cbn [negb] in H. unfold journal_for in H. rewrite Hj, String.eqb_refl in H.
  unfold run_c in H. rewrite Hr in H.
  destruct (bool_decide (field as_bool "ok" _ = Some true)); [injection H as _ <-; by destruct (mbind _ _)|].
  destruct (bool_decide _); by injection H as _ <-.
Qed.

(** A commit that ends with an error keeps them, whatever it has done before. *)
Lemma failed_commit_keeps_scans value s a s' j e m :
  js_active s = Some j → request_disk value = Ok (pj_disk j) → consent value = true →
  dispatch "/api/disk/commit" value s = (a, s') →
  commit_request (stamped (js_log s) j) (commit_state (js_log s) (js_parts s) (js_locks s) (stamped (js_log s) j)) = (Err e, m) →
  js_scans s' = js_scans s ∧ js_disks s' = js_disks s ∧ js_log s' = cs_log m.
Proof.
  intros Hj Hd Hc H Hr. rewrite dispatch_commit, Hd in H. unfold commit_route in H.
  rewrite Hc in H. cbn [negb] in H. unfold journal_for in H. rewrite Hj, String.eqb_refl in H.
  unfold run_c in H. rewrite Hr in H. by injection H as _ <-.
Qed.

(** A reader that probed the disk before a commit and stores its scan after it
    puts the old scan back into the cache the commit has cleared: readers get
    it until it expires, five seconds after it was stored. *)
Lemma stale_scan_survives (reader later : HandleOs) disk scan value s a s' :
  scan_probe (js_log s) disk = Ok scan →
  dispatch "/api/disk/commit" value s = (a, s') →
  sat_sub64 (@hn_now later) (@hn_stored reader) < STORAGE_PROBE_TTL →
  fst (cached_disk_scan (HH := later) disk (scan_insert (HH := reader) disk scan s')) = Ok scan.
Proof.
  intros _ _ Ht. unfold cached_disk_scan, scan_lookup, scan_insert. cbn [js_scans set_scans]. rewrite lookup_insert_eq.
  apply Z.ltb_lt in Ht. by rewrite Ht.
Qed.
End readers.

(** * Event streams *)

Inductive Frame := FEvent (e : JobEvent) | FKeepAlive.

(** One turn of the loop: the registry when the history is replayed, and what
    [wait_for_events] returned. *)
Record StreamTurn := { tn_registry : Registry; tn_wait : option EventReplay }.

Definition terminal (e : JobEvent) : bool :=
  match ev_kind e with EvDone _ _ | EvError _ _ _ => true | EvPhase _ => false end.

(** The events of a replay, up to the first terminal one; the flag tells that it
    was sent. *)
Fixpoint send_events (sent : Z) (es : list JobEvent) : list Frame * Z * bool :=
  match es with
  | [] => ([], sent, false)
  | e :: es =>
      let sent := sat_add64 (ev_id e) 1 in
      if terminal e then ([FEvent e], sent, true)
      else let '(fs, sent, ended) := send_events sent es in (FEvent e :: fs, sent, ended)
  end.

Definition keep_alive (wait : option EventReplay) : list Frame :=
  match wait with
  | Some r => if (length (rep_events r) =? 0)%nat && negb (rep_reset_required r) then [FKeepAlive] else []
  | None => [FKeepAlive]
  end.

(** The loop; a write that fails ends the thread, so that a prefix of the frames
    is sent. *)
Fixpoint stream_loop (sent : Z) (turns : list StreamTurn) : list Frame :=
  match turns with
  | [] => []
  | t :: turns =>
      let replay := unwrap_or (registry_replay (sat_sub64 sent 1) (tn_registry t))
                      {| rep_events := []; rep_next_event_id := sent; rep_reset_required := false |} in
      let sent := if rep_reset_required replay
                  then match rep_events replay with e :: _ => ev_id e | [] => sent end else sent in
      let '(fs, sent, ended) := send_events sent (rep_events replay) in
      fs ++ (if ended then [] else keep_alive (tn_wait t) ++ stream_loop sent turns)
  end.

Definition native_stream (last_event_id : Z) (turns : list StreamTurn) : list Frame :=
  stream_loop (sat_add64 last_event_id 1) turns.

Definition sent_events (fs : list Frame) : list JobEvent :=
  filter_map (λ f, match f with FEvent e => Some e | FKeepAlive => None end) fs.

Lemma sent_events_app a b : sent_events (a ++ b) = sent_events a ++ sent_events b.
Proof. unfold sent_events. apply filter_map_app. Qed.
Lemma sent_events_frames es : sent_events (FEvent <$> es) = es.
Proof. induction es as [|e es IH]; cbn; [done|]. by f_equal. Qed.
Lemma sent_events_keep w : sent_events (keep_alive w) = [].
Proof. unfold keep_alive. repeat case_match; done. Qed.

(** The part of a history a stream sends: up to the first terminal event. *)
Fixpoint upto_terminal (es : list JobEvent) : list JobEvent :=
  match es with
  | [] => []
  | e :: es => if terminal e then [e] else e :: upto_terminal es
  end.

Lemma upto_terminal_app a b :
  upto_terminal (a ++ b) = if existsb terminal a then upto_terminal a else a ++ upto_terminal b.
Proof. induction a as [|e a IH]; cbn; [done|]. destruct (terminal e); [done|]. cbn. rewrite IH. by case_match. Qed.

Lemma upto_terminal_quiet a : existsb terminal a = false → upto_terminal a = a.
Proof. intros H. pose proof (upto_terminal_app a []) as E. by rewrite H, !app_nil_r in E. Qed.

Lemma upto_terminal_mono a b : a `prefix_of` b → upto_terminal a `prefix_of` upto_terminal b.
Proof.
  intros [r ->]. rewrite upto_terminal_app. destruct (existsb terminal a) eqn:E; [done|].
  rewrite upto_terminal_quiet by done. by apply prefix_app_r.
Qed.

Lemma send_events_spec n es :
  0 <= n → consecutive n es → n + Z.of_nat (length es) < u64_max →
  send_events (n + 1) es
  = (FEvent <$> upto_terminal es, n + Z.of_nat (length (upto_terminal es)) + 1, existsb terminal es).
Proof.
  revert n. induction es as [|e es IH]; intros n Hn Hc Hmax.
  { cbn. do 2 f_equal; lia. }
  destruct Hc as [He Hc]. cbn [send_events upto_terminal existsb]. cbn [length] in Hmax.
  assert (sat_add64 (ev_id e) 1 = n + 1 + 1) as -> by (unfold sat_add64; rewrite He; lia).
  destruct (terminal e); cbn [orb]; [cbn; do 2 f_equal; lia|].
  rewrite (IH (n + 1)) by (done || lia). cbn [fmap list_fmap length]. do 2 f_equal; lia.
Qed.

Lemma numbered_prefix ks ks' : ks `prefix_of` ks' → numbered ks `prefix_of` numbered ks'.
Proof. intros [r ->]. unfold numbered. rewrite imap_app. by eexists. Qed.

Lemma prefix_drop {A} n (a b : list A) : a `prefix_of` b → drop n a `prefix_of` drop n b.
Proof. intros [r ->]. rewrite drop_app. by eexists. Qed.

(** A supervisor that is watched while its history grows. *)
Definition watching (ks : list JobEventKind) (t : StreamTurn) : Prop :=
  ∃ c, tn_registry t = Some c ∧ reachable c ∧ events (trace c) `prefix_of` ks.

(** The events of a turn's history after the last one sent. *)
Definition news (last : Z) (t : StreamTurn) : list JobEvent :=
  match tn_registry t with Some c => drop (Z.to_nat last) (numbered (events (trace c))) | None => [] end.

Lemma stream_turn ks t turns last :
  (length ks <= MAX_EVENT_HISTORY)%nat → watching ks t → 0 <= last → last < 2 ^ 63 →
  sent_events (stream_loop (last + 1) (t :: turns))
  = upto_terminal (news last t)
    ++ (if existsb terminal (news last t) then []
        else sent_events (stream_loop (last + Z.of_nat (length (news last t)) + 1) turns)).
Proof.
  intros Hks (c & Hreg & Hr & Hp) H0 Hmax. unfold MAX_EVENT_HISTORY in Hks. unfold news.
  cbn [stream_loop]. rewrite Hreg. cbn [registry_replay unwrap_or].
  assert (sat_sub64 (last + 1) 1 = last) as -> by (unfold sat_sub64; lia).
  pose proof (prefix_length _ _ Hp) as Hlen.
  destruct (replay_events c last Hr H0) as [He Hreset]; [unfold u64_max; lia|].
  rewrite length_numbered in He, Hreset. unfold MAX_EVENT_HISTORY in He, Hreset.
  replace (length (events (trace c)) - 1024)%nat with 0%nat in He, Hreset by lia.
  assert (rep_reset_required (replay_locked (job c) last) = false) as ->.
  { apply not_true_iff_false. rewrite Hreset. lia. }
  rewrite He, Nat.max_0_l. clear He Hreset. set (es := drop (Z.to_nat last) (numbered (events (trace c)))).
  assert (consecutive last es) as Hc.
  { pose proof (consecutive_drop 0 (Z.to_nat last) _ (numbered_consecutive (events (trace c)) ltac:(unfold u64_max; lia))) as H.
    by replace (0 + Z.of_nat (Z.to_nat last)) with last in H by lia. }
  rewrite (send_events_spec last es); [|done|done|unfold es, u64_max; rewrite length_drop, length_numbered; lia].
  rewrite sent_events_app, sent_events_frames. destruct (existsb terminal es) eqn:E; [done|].
  by rewrite sent_events_app, sent_events_keep, (upto_terminal_quiet es E).
Qed.

Lemma watched_news ks t last : watching ks t → news last t `prefix_of` drop (Z.to_nat last) (numbered ks).
Proof. intros (c & Hreg & _ & Hp). unfold news. rewrite Hreg. by apply prefix_drop, numbered_prefix. Qed.

Lemma news_later last n t : 0 <= last → news (last + Z.of_nat n) t = drop n (news last t).
Proof.
  intros H. unfold news. destruct (tn_registry t); [|by rewrite drop_nil]. rewrite drop_drop. f_equal. lia.
Qed.

Lemma news_bound ks t last :
  (length ks <= MAX_EVENT_HISTORY)%nat → watching ks t → 0 <= last → last < 2 ^ 63 →
  last + Z.of_nat (length (news last t)) < 2 ^ 63.
Proof.
  intros Hks (c & Hreg & _ & Hp%prefix_length) H0 Hmax. unfold news. rewrite Hreg, length_drop, length_numbered.
  unfold MAX_EVENT_HISTORY in Hks. lia.
Qed.

Lemma stream_loop_upper ks turns last :
  (length ks <= MAX_EVENT_HISTORY)%nat → Forall (watching ks) turns → 0 <= last → last < 2 ^ 63 →
  sent_events (stream_loop (last + 1) turns) `prefix_of` upto_terminal (drop (Z.to_nat last) (numbered ks)).
Proof.
  intros Hks Ht. revert last. induction Ht as [|t turns Hw Ht IH]; intros last H0 Hmax; [by apply prefix_nil|].
  rewrite (stream_turn ks) by done. destruct (watched_news ks t last Hw) as [rest Hrest].
  rewrite Hrest, upto_terminal_app. destruct (existsb terminal (news last t)) eqn:E; [by rewrite app_nil_r|].
  rewrite (upto_terminal_quiet _ E). apply prefix_app.
  pose proof (news_bound ks t last Hks Hw H0 Hmax) as Hb.
  specialize (IH (last + Z.of_nat (length (news last t))) ltac:(lia) Hb).
  rewrite Z2Nat.inj_add, Nat2Z.id, <-drop_drop, Hrest, drop_app_length in IH by lia. exact IH.
Qed.

Lemma stream_loop_lower ks turns last t :
  (length ks <= MAX_EVENT_HISTORY)%nat → Forall (watching ks) turns → 0 <= last → last < 2 ^ 63 → t ∈ turns →
  upto_terminal (news last t) `prefix_of` sent_events (stream_loop (last + 1) turns).
Proof.
  intros Hks Ht. revert last. induction Ht as [|t0 turns Hw Ht IH]; intros last H0 Hmax Hin; [set_solver|].
  rewrite (stream_turn ks) by done.
  apply elem_of_cons in Hin as [->|Hin]; [by apply prefix_app_r|].
  assert (watching ks t) as Hwt by (rewrite Forall_forall in Ht; by apply Ht).
  destruct (prefix_weak_total (news last t) (news last t0) (drop (Z.to_nat last) (numbered ks))) as [Hp|[rest Hrest]].
  1,2: by apply watched_news.
  { apply prefix_app_r. by apply upto_terminal_mono. }
  rewrite Hrest, upto_terminal_app. destruct (existsb terminal (news last t0)) eqn:E; [by rewrite app_nil_r|].
  rewrite (upto_terminal_quiet _ E). apply prefix_app.
  pose proof (news_bound ks t0 last Hks Hw H0 Hmax) as Hb.
  specialize (IH (last + Z.of_nat (length (news last t0))) ltac:(lia) Hb Hin).
  by rewrite news_later, Hrest, drop_app_length in IH by lia.
Qed.

(** C32: as long as a supervisor has kept its whole history, an event stream
    that was opened with the last event seen sends exactly the later events, in
    order and each once, up to the terminal one: whatever happened between its
    turns, everything a turn found in the history has been sent, and nothing that
    is not in the history of the job. *)
Theorem stream_exact ks turns last :
  (length ks <= MAX_EVENT_HISTORY)%nat → Forall (watching ks) turns → 0 <= last < 2 ^ 63 →
  sent_events (native_stream last turns) `prefix_of` upto_terminal (drop (Z.to_nat last) (numbered ks))
  ∧ ∀ t c, t ∈ turns → tn_registry t = Some c →
      upto_terminal (drop (Z.to_nat last) (numbered (events (trace c)))) `prefix_of` sent_events (native_stream last turns).
Proof.
  intros Hks Ht [H0 Hmax]. unfold native_stream.
  assert (sat_add64 last 1 = last + 1) as -> by (unfold sat_add64, u64_max; lia).
  split; [by apply stream_loop_upper|]. intros t c Hin Hc.
  pose proof (stream_loop_lower ks turns last t Hks Ht H0 Hmax Hin) as H. unfold news in H. by rewrite Hc in H.
Qed.

(** * Witnesses *)

Definition editing : Threads :=
  {| th_gate := Some 0%nat; th_sleeper := None; th_places := {[0%nat := Editing]}; th_registry := None |}.

Lemma editing_reachable : daemon_reachable editing.
Proof.
  pose (w1 := move 0 (Waiting GPartition) quiet_threads).
  pose (w2 := move 0 (Entered GPartition) (with_gate (Some 0%nat) w1)).
  assert (editing = move 0 Editing w2) as ->.
  { unfold editing, w2, w1, move, with_gate. cbn. by rewrite !insert_insert_eq. }
  eapply rtc_l; [exists LArrive; by apply arrive_gated|].
  eapply rtc_l; [exists LEnter; apply (enter 0 GPartition w1); [by apply lookup_insert_eq|done]|].
  eapply rtc_l; [exists LCheck; apply (check 0 GPartition w2); [by apply lookup_insert_eq|done|done]|]. apply rtc_refl.
Qed.

Lemma storage_changes_exclusive_witness : registry_active (th_registry editing) = false.
Proof.
  exact (proj1 (storage_changes_exclusive editing 0%nat Editing editing_reachable eq_refl eq_refl)).
Defined.

(** A stream opened after the first event, at the third phase and at the end. *)
Definition finished_job : Config := after_acts success_acts.
Definition finished_turn : StreamTurn := {| tn_registry := Some finished_job; tn_wait := None |}.
Definition two_turns : list StreamTurn := [{| tn_registry := Some third_phase; tn_wait := None |}; finished_turn].

Example stream_of_two_turns :
  ev_id <$> sent_events (native_stream 1 two_turns) = [2; 3; 4; 5; 6; 7].
Proof. vm_compute. reflexivity. Qed.

Lemma two_turns_watched : Forall (watching (events (trace finished_job))) two_turns.
Proof.
  repeat constructor.
  - exists third_phase. split_and!; [done|apply after_acts_reachable; vm_compute; eauto|].
    exists (drop 3 (events (trace finished_job))). vm_compute. reflexivity.
  - exists finished_job. split_and!; [done|apply success_reachable|done].
Qed.

Lemma stream_exact_witness :
  sent_events (native_stream 1 two_turns) = drop 1 (numbered (events (trace finished_job))).
Proof.
  assert (length (events (trace finished_job)) <= MAX_EVENT_HISTORY)%nat as Hl by (vm_compute; lia).
  destruct (stream_exact (events (trace finished_job)) two_turns 1 Hl two_turns_watched ltac:(lia)) as [Hu Hd].
  assert (finished_turn ∈ two_turns) as Hin by (right; left).
  specialize (Hd finished_turn finished_job Hin eq_refl).
  change (Z.to_nat 1) with 1%nat in Hu, Hd.
  assert (upto_terminal (drop 1 (numbered (events (trace finished_job)))) = drop 1 (numbered (events (trace finished_job)))) as E
    by (vm_compute; reflexivity).
  rewrite E in Hu, Hd. by apply (anti_symm prefix).
Defined.

(** A stream that waits for the next event of a running installation. *)
Definition waiting_stream : Threads :=
  {| th_gate := None; th_sleeper := Some 1%nat; th_places := {[1%nat := Sleeping]}; th_registry := Some first_job |}.

Example cancel_waits_for_stream :
  (∃ r, registry_cancel 1 (th_registry waiting_stream) = Ok r)
  ∧ ∀ w', ¬ thread_step LCancel waiting_stream w'.
Proof.
  split; [vm_compute; eauto|]. intros w' H.
  apply (sleeping_stream_blocks LCancel waiting_stream w' 1%nat eq_refl H). by left.
Qed.
