(* ===== verification/RustRegex.v ===== *)
(** Anchored regular expressions.

    The sources validate names with patterns of the [regex] crate that are
    anchored at both ends and use character classes, concatenation, repetition and
    groups.  They are transcribed as syntax trees and matched by derivatives;
    [re_match_lang] relates the matcher to the language of the pattern.  The
    classes are ASCII, so matching bytes is matching characters. *)

From S2P Require Import Prelude RustStr.

Inductive re :=
| RVoid
| REps
| RClass (p : ascii → bool)
| RCat (a b : re)
| RAlt (a b : re)
| RStar (a : re).

(** [r+], [r?], [r{0,n}], [r{1,n}] and a literal *)
Definition re_plus (r : re) : re := RCat r (RStar r).
Definition re_opt (r : re) : re := RAlt REps r.
Fixpoint re_upto (n : nat) (r : re) : re := match n with O => REps | S n => re_opt (RCat r (re_upto n r)) end.
Definition re_one_to (n : nat) (r : re) : re := RCat r (re_upto (n - 1) r).
Fixpoint re_literal (s : string) : re :=
  match s with EmptyString => REps | String c s => RCat (RClass (Ascii.eqb c)) (re_literal s) end.

(** The language of a pattern. *)
Inductive lang : re → string → Prop :=
| lang_eps : lang REps EmptyString
| lang_class p c : p c = true → lang (RClass p) (String c EmptyString)
| lang_cat a b s t : lang a s → lang b t → lang (RCat a b) (s +:+ t)
| lang_alt_l a b s : lang a s → lang (RAlt a b) s
| lang_alt_r a b s : lang b s → lang (RAlt a b) s
| lang_star_nil a : lang (RStar a) EmptyString
| lang_star_cons a s t : lang a s → lang (RStar a) t → lang (RStar a) (s +:+ t).

(** * Matching *)

Fixpoint nullable (r : re) : bool :=
  match r with
  | RVoid | RClass _ => false
  | REps | RStar _ => true
  | RCat a b => nullable a && nullable b
  | RAlt a b => nullable a || nullable b
  end.

(** Concatenation and alternation that keep derivatives small. *)
Definition re_cat (a b : re) : re :=
  match a with RVoid => RVoid | REps => b | _ => RCat a b end.
Definition re_alt (a b : re) : re :=
  match a, b with RVoid, _ => b | _, RVoid => a | _, _ => RAlt a b end.

Fixpoint deriv (c : ascii) (r : re) : re :=
  match r with
  | RVoid | REps => RVoid
  | RClass p => if p c then REps else RVoid
  | RCat a b => re_alt (re_cat (deriv c a) b) (if nullable a then deriv c b else RVoid)
  | RAlt a b => re_alt (deriv c a) (deriv c b)
  | RStar a => re_cat (deriv c a) (RStar a)
  end.

Fixpoint re_match (r : re) (s : string) : bool :=
  match s with
  | EmptyString => nullable r
  | String c s => re_match (deriv c r) s
  end.

Lemma lang_void s : ¬ lang RVoid s.
Proof. inversion 1. Qed.

Lemma lang_eps_inv s : lang REps s ↔ s = EmptyString.
Proof. split; [by inversion 1|intros ->; constructor]. Qed.

Lemma lang_class_inv p s : lang (RClass p) s ↔ ∃ c, s = String c EmptyString ∧ p c = true.
Proof. split; [inversion 1; subst; eauto|]. intros (c & -> & Hc). by constructor. Qed.

Lemma lang_cat_inv a b s : lang (RCat a b) s ↔ ∃ x y, s = x +:+ y ∧ lang a x ∧ lang b y.
Proof. split; [inversion 1; subst; eauto|]. intros (x & y & -> & Ha & Hb). by constructor. Qed.

Lemma lang_alt_inv a b s : lang (RAlt a b) s ↔ lang a s ∨ lang b s.
Proof. split; [inversion 1; subst; eauto|]. intros [H|H]; [by apply lang_alt_l|by apply lang_alt_r]. Qed.

Lemma lang_re_cat a b s : lang (re_cat a b) s ↔ lang (RCat a b) s.
Proof.
  rewrite lang_cat_inv. destruct a; cbn [re_cat]; rewrite ?lang_cat_inv; try done.
  - split; [by intros ?%lang_void|]. by intros (x & y & _ & ?%lang_void & _).
  - split; [intros H; exists EmptyString, s; split_and!; [done|constructor|done]|].
    by intros (x & y & -> & ->%lang_eps_inv & H).
Qed.

Lemma lang_re_alt a b s : lang (re_alt a b) s ↔ lang a s ∨ lang b s.
Proof.
  destruct a, b; cbn [re_alt]; rewrite ?lang_alt_inv; try tauto;
    split; intros H; try destruct H as [H|H]; try tauto; try (by apply lang_void in H); eauto.
Qed.

Lemma nullable_lang r : nullable r = true ↔ lang r EmptyString.
Proof.
  induction r as [| |p|a IHa b IHb|a IHa b IHb|a IHa]; cbn [nullable].
  - split; [done|by intros ?%lang_void].
  - split; [constructor|done].
  - split; [done|inversion 1].
  - rewrite andb_true_iff, IHa, IHb, lang_cat_inv. split.
    + intros [Ha Hb]. by exists EmptyString, EmptyString.
    + intros (x & y & E & Ha & Hb). symmetry in E. by destruct x, y.
  - by rewrite orb_true_iff, IHa, IHb, lang_alt_inv.
  - split; [constructor|done].
Qed.

(** A non-empty word of a repetition starts with a non-empty word of what is
    repeated. *)
Lemma lang_star_cons_inv a c s :
  lang (RStar a) (String c s) → ∃ x y, s = x +:+ y ∧ lang a (String c x) ∧ lang (RStar a) y.
Proof.
  remember (RStar a) as r eqn:Er. remember (String c s) as t eqn:Et. intros H. revert c s Et.
  induction H as [|p d Hd|a1 b1 x y Ha _ Hb _|a1 b1 x H IH|a1 b1 x H IH|a1|a1 x y Ha _ Hs IH]; intros c s Et; try done.
  injection Er as ->. destruct x as [|d x]; [by apply IH|]. injection Et as -> <-. eauto.
Qed.

Lemma deriv_lang c r s : lang (deriv c r) s ↔ lang r (String c s).
Proof.
  revert s. induction r as [| |p|a IHa b IHb|a IHa b IHb|a IHa]; intros s; cbn [deriv].
  - split; by intros ?%lang_void.
  - rewrite lang_eps_inv. split; [by intros ?%lang_void|done].
  - destruct (p c) eqn:E.
    + rewrite lang_eps_inv. split; [intros ->; by constructor|by inversion 1].
    + split; [by intros ?%lang_void|]. inversion 1; congruence.
  - rewrite lang_re_alt, lang_re_cat, !lang_cat_inv. split.
    + intros [(x & y & -> & Hx%IHa & Hy)|H]; [by exists (String c x), y|].
      destruct (nullable a) eqn:En; [|by apply lang_void in H]. apply nullable_lang in En. apply IHb in H.
      by exists EmptyString, (String c s).
    + intros ([|d x] & y & E & Hx & Hy).
      * right. apply nullable_lang in Hx as ->. apply IHb. by rewrite E.
      * injection E as -> ->. left. exists x, y. split_and!; [done|by apply IHa|done].
  - by rewrite lang_re_alt, lang_alt_inv, IHa, IHb.
  - rewrite lang_re_cat, lang_cat_inv. split.
    + intros (x & y & -> & Hx%IHa & Hy). by apply (lang_star_cons a (String c x)).
    + intros (x & y & -> & Hx & Hy)%lang_star_cons_inv. exists x, y. split_and!; [done|by apply IHa|done].
Qed.

(** The matcher decides the language of the pattern. *)
Lemma re_match_lang r s : re_match r s = true ↔ lang r s.
Proof.
  revert r. induction s as [|c s IH]; intros r; cbn [re_match]; [apply nullable_lang|]. by rewrite IH, deriv_lang.
Qed.

(** * Common shapes *)

Lemma lang_star_class p s : lang (RStar (RClass p)) s ↔ str_all p s = true.
Proof.
  split.
  - induction s as [|c s IH]; [done|]. intros (x & y & -> & (d & [= -> ->] & Hp)%lang_class_inv & Hy)%lang_star_cons_inv.
    cbn. rewrite Hp. by apply IH.
  - induction s as [|c s IH]; [constructor|]. cbn. intros [Hc Hs]%andb_true_iff.
    apply (lang_star_cons _ (String c EmptyString)); [by constructor|by apply IH].
Qed.

Lemma lang_plus_class p s : lang (re_plus (RClass p)) s ↔ s ≠ EmptyString ∧ str_all p s = true.
Proof.
  unfold re_plus. rewrite lang_cat_inv. split.
  - intros (x & y & -> & (c & -> & Hp)%lang_class_inv & Hy%lang_star_class). rewrite append_cons, append_nil_l. cbn. by rewrite Hp.
  - intros [Hn Ha]. destruct s as [|c s]; [done|]. cbn in Ha. apply andb_true_iff in Ha as [Hc Ha].
    exists (String c EmptyString), s. split_and!; [done|by constructor|by apply lang_star_class].
Qed.

Lemma lang_upto_class n p s : lang (re_upto n (RClass p)) s ↔ (String.length s <= n)%nat ∧ str_all p s = true.
Proof.
  revert s. induction n as [|n IH]; intros s; cbn [re_upto].
  { rewrite lang_eps_inv. split; [intros ->; split; [cbn; lia|done]|]. intros [H _]. destruct s; [done|cbn in H; lia]. }
  unfold re_opt. rewrite lang_alt_inv, lang_eps_inv, lang_cat_inv. split.
  - intros [->|(x & y & -> & (c & -> & Hp)%lang_class_inv & [Hl Ha]%IH)]; [split; [cbn; lia|done]|].
    rewrite append_cons, append_nil_l. cbn. rewrite Hp. split; [lia|done].
  - intros [Hl Ha]. destruct s as [|c s]; [by left|right]. cbn in Hl, Ha. apply andb_true_iff in Ha as [Hc Ha].
    exists (String c EmptyString), s. split_and!; [done|by constructor|apply IH; split; [lia|done]].
Qed.

Lemma lang_one_to_class n p s :
  (1 <= n)%nat → lang (re_one_to n (RClass p)) s ↔ (1 <= String.length s <= n)%nat ∧ str_all p s = true.
Proof.
  intros Hn. unfold re_one_to. rewrite lang_cat_inv. split.
  - intros (x & y & -> & (c & -> & Hp)%lang_class_inv & [Hl Ha]%lang_upto_class).
    rewrite append_cons, append_nil_l. cbn. rewrite Hp. split; [lia|done].
  - intros [Hl Ha]. destruct s as [|c s]; [cbn in Hl; lia|]. cbn in Hl, Ha. apply andb_true_iff in Ha as [Hc Ha].
    exists (String c EmptyString), s. split_and!; [done|by constructor|apply lang_upto_class; split; [lia|done]].
Qed.

Lemma lang_literal w s : lang (re_literal w) s ↔ s = w.
Proof.
  revert s. induction w as [|c w IH]; intros s; cbn [re_literal]; [by rewrite lang_eps_inv|].
  rewrite lang_cat_inv. split.
  - intros (x & y & -> & (d & -> & Hp)%lang_class_inv & ->%IH). by apply Ascii.eqb_eq in Hp as ->.
  - intros ->. exists (String c EmptyString), w. split_and!; [done|constructor; by apply Ascii.eqb_eq|by apply IH].
Qed.

(** Every character of a word satisfies what all classes of the pattern imply. *)
Fixpoint classes (P : ascii → bool) (r : re) : Prop :=
  match r with
  | RVoid | REps => True
  | RClass p => ∀ c, p c = true → P c = true
  | RCat a b | RAlt a b => classes P a ∧ classes P b
  | RStar a => classes P a
  end.

Lemma lang_classes P r s : classes P r → lang r s → str_all P s = true.
Proof.
  intros Hc H. induction H as [|p c Hp|a b x y _ IHa _ IHb|a b x _ IH|a b x _ IH|a|a x y _ IHa _ IHs]; cbn in *; try done.
  - by rewrite Hc.
  - rewrite str_all_app, IHa, IHb; tauto.
  - tauto.
  - tauto.
  - by rewrite str_all_app, IHa, IHs.
Qed.
