(* ===== verification/Redact.v ===== *)
(** Redaction of secrets in text that leaves a privileged program:
    [redact_sensitive_text] of [system/process.rs].

    A line is rewritten until nothing changes: the first field of a list of names
    whose value is not yet redacted loses its value.  The theorem is that the loop
    ends and leaves no such field open. *)

From S2P Require Import Prelude RustStr Stream DaemonHttp.

(** * The program *)

Definition MARKERS : list string :=
  ["password"; "passwd"; "passphrase"; "secret"; "token"; "cookie"; "authcookie"; "samlresponse"; "bitlocker_key";
   "authorization"; "key"].
Definition REDACTED : string := "<redacted>".

(** [u8::is_ascii_whitespace] *)
Definition is_ascii_whitespace (c : ascii) : bool :=
  let b := byte_of c in (b =? 32) || (b =? 9) || (b =? 10) || (b =? 12) || (b =? 13).
Definition is_quote (c : ascii) : bool := (byte_of c =? 34) || (byte_of c =? 39).
Definition is_delimiter (c : ascii) : bool := byte_among "=:" c.
(** What ends a value without quotes. *)
Definition plain (c : ascii) : bool := negb (is_ascii_whitespace c || byte_among ",;&]}" c || is_quote c).

Definition word_byte (c : ascii) : bool := is_ascii_alphanumeric c || Ascii.eqb c "_".
Definition boundary (o : option ascii) : bool := match o with None => true | Some c => negb (word_byte c) end.
Definition head_char (s : string) : option ascii := match s with EmptyString => None | String c _ => Some c end.
Fixpoint last_char (s : string) : option ascii :=
  match s with EmptyString => None | String c r => match r with EmptyString => Some c | _ => last_char r end end.

Fixpoint skip_while (f : ascii → bool) (s : string) : string :=
  match s with EmptyString => EmptyString | String c r => if f c then skip_while f r else s end.
Fixpoint span (f : ascii → bool) (s : string) : string * string :=
  match s with
  | EmptyString => (EmptyString, EmptyString)
  | String c r => if f c then let '(a, b) := span f r in (String c a, b) else (EmptyString, s)
  end.
Definition skip_quote (s : string) : string :=
  match s with String c r => if is_quote c then r else s | EmptyString => EmptyString end.

(** What follows a name: an optional quote and white space, the delimiter, white
    space and an optional quote.  The answer is what a byte of the value must
    satisfy and the text from the value on. *)
Definition value_of (after : string) : option ((ascii → bool) * string) :=
  match skip_while is_ascii_whitespace (skip_quote after) with
  | String d rest =>
      if is_delimiter d then
        match skip_while is_ascii_whitespace rest with
        | String q v => if is_quote q then Some (λ c, negb (Ascii.eqb c q), v) else Some (plain, String q v)
        | EmptyString => Some (plain, EmptyString)
        end
      else None
  | EmptyString => None
  end.

(** One marker, from [rest] on; the line is [pre +:+ rest]. *)
Fixpoint scan (fuel : nat) (marker pre rest : string) : option string :=
  match fuel with
  | O => None
  | S fuel =>
      match position_of marker (to_ascii_lowercase rest) with
      | None => None
      | Some k =>
          let start := pre +:+ stake k rest in
          let name := stake (String.length marker) (sdrop k rest) in
          let after := sdrop (String.length marker) (sdrop k rest) in
          if negb (boundary (last_char (to_ascii_lowercase start)))
             || negb (boundary (head_char (to_ascii_lowercase after)))
          then scan fuel marker (start +:+ name) after
          else
            match value_of after with
            | None => scan fuel marker (start +:+ name) after
            | Some (f, v) =>
                let '(value, behind) := span f v in
                let before := start +:+ name +:+ stake (String.length after - String.length v) after in
                if is_empty value then scan fuel marker (start +:+ name) after
                else if String.eqb value REDACTED then scan fuel marker (before +:+ value) behind
                else Some (before +:+ REDACTED +:+ behind)
            end
      end
  end.

Definition redact_sensitive_line_once (line : string) : string :=
  unwrap_or (find_map (λ m, scan (S (String.length line)) m EmptyString line) MARKERS) line.

(** The loop; [redact_ends] shows that the fuel is enough. *)
Fixpoint redact_loop (fuel : nat) (line : string) : option string :=
  match fuel with
  | O => None
  | S fuel =>
      let next := redact_sensitive_line_once line in
      if String.eqb next line then Some line else redact_loop fuel next
  end.
Definition redact_sensitive_line (line : string) : string :=
  unwrap_or (redact_loop (S (String.length line)) line) line.
Definition redact_sensitive_text (text : string) : string := join newline (redact_sensitive_line <$> lines text).

(** The scheme name of an authorization header is taken for its value: the
    credential behind it stays. *)
Example bearer_survives :
  redact_sensitive_text "Authorization: Bearer abc123" = "Authorization: <redacted> abc123".
Proof. vm_compute. reflexivity. Qed.

Example fields_redacted :
  redact_sensitive_text "password=first token=second key=token=third" =
  "password=<redacted> token=<redacted> key=<redacted>".
Proof. vm_compute. reflexivity. Qed.

(** * Strings *)

Lemma lower_app a b : to_ascii_lowercase (a +:+ b) = to_ascii_lowercase a +:+ to_ascii_lowercase b.
Proof. induction a as [|c a IH]; [done|]. rewrite !append_cons. cbn. by rewrite append_cons, IH. Qed.

Lemma lower_length s : String.length (to_ascii_lowercase s) = String.length s.
Proof. induction s; cbn; lia. Qed.

Lemma word_byte_lower c : word_byte (lower_byte c) = word_byte c.
Proof. destruct c as [[] [] [] [] [] [] [] []]; reflexivity. Qed.

Lemma boundary_lower o : boundary (lower_byte <$> o) = boundary o.
Proof. destruct o as [c|]; cbn; [by rewrite word_byte_lower|done]. Qed.

Lemma head_char_lower s : head_char (to_ascii_lowercase s) = lower_byte <$> head_char s.
Proof. by destruct s. Qed.

Lemma last_char_lower s : last_char (to_ascii_lowercase s) = lower_byte <$> last_char s.
Proof. induction s as [|c s IH]; [done|]. cbn. destruct s; [done|exact IH]. Qed.

Lemma last_char_cons c s : last_char (String c s) = Some (unwrap_or (last_char s) c).
Proof. revert c. induction s as [|d s IH]; intros c; [done|].
  change (last_char (String c (String d s))) with (last_char (String d s)). by rewrite !IH. Qed.

Lemma last_char_app a b : last_char (a +:+ b) = match last_char b with Some c => Some c | None => last_char a end.
Proof.
  induction a as [|c a IH]; [rewrite append_nil_l; by destruct (last_char b)|].
  rewrite append_cons, !last_char_cons, IH. by destruct (last_char b).
Qed.

Lemma last_char_all f s c : str_all f s = true → last_char s = Some c → f c = true.
Proof.
  induction s as [|d s IH]; [done|]. cbn [str_all]. rewrite last_char_cons. intros [Hd Hs]%andb_true_iff [= <-].
  destruct (last_char s) as [e|]; [by apply IH|done].
Qed.

Lemma split_at n s : (n <= String.length s)%nat → ∃ a b, s = a +:+ b ∧ String.length a = n.
Proof.
  intros H. exists (stake n s), (sdrop n s). split; [by rewrite stake_sdrop|].
  pose proof (f_equal String.length (stake_sdrop n s)) as E. rewrite slen_append, sdrop_length in E. lia.
Qed.

Lemma stake_len a b : stake (String.length a) (a +:+ b) = a.
Proof. induction a as [|c a IH]; [by destruct b|]. rewrite append_cons. cbn. by rewrite IH. Qed.
Lemma sdrop_len a b : sdrop (String.length a) (a +:+ b) = b.
Proof. induction a as [|c a IH]; [by destruct b|]. rewrite append_cons. exact IH. Qed.

Lemma append_split a b c d :
  a +:+ b = c +:+ d → (String.length a <= String.length c)%nat → ∃ e, c = a +:+ e ∧ b = e +:+ d.
Proof.
  revert c. induction a as [|x a IH]; intros c E Hl.
  - exists c. by rewrite !append_nil_l in *.
  - destruct c as [|y c]; [cbn in Hl; lia|]. rewrite !append_cons in E. injection E as <- E.
    destruct (IH c E) as (e & -> & ->); [cbn in Hl; lia|]. exists e. by rewrite append_cons.
Qed.

Lemma append_eq_length a b c d : a +:+ b = c +:+ d → String.length a = String.length c → a = c ∧ b = d.
Proof.
  intros E Hl. destruct (append_split a b c d E) as (e & -> & ->); [lia|]. rewrite slen_append in Hl.
  destruct e; [by rewrite append_nil_r, append_nil_l|cbn in Hl; lia].
Qed.

Lemma append_inv_r a b c : a +:+ c = b +:+ c → a = b.
Proof.
  intros E. pose proof (f_equal String.length E) as Hl. rewrite !slen_append in Hl.
  apply append_eq_length in E as [-> _]; [done|lia].
Qed.

Lemma starts_lower m s :
  starts_with m (to_ascii_lowercase s) = true ↔ ∃ mt r, s = mt +:+ r ∧ to_ascii_lowercase mt = m.
Proof.
  rewrite starts_with_true. split.
  - intros [r E]. destruct (split_at (String.length m) s) as (mt & b & -> & Hl).
    { pose proof (f_equal String.length E) as H. rewrite lower_length, slen_append in H. lia. }
    rewrite lower_app in E. apply append_eq_length in E as [E _]; [|by rewrite lower_length]. by exists mt, b.
  - intros (mt & r & -> & <-). rewrite lower_app. by eexists.
Qed.

Lemma str_all_lower_word s : str_all word_byte (to_ascii_lowercase s) = str_all word_byte s.
Proof. induction s as [|c s IH]; cbn; [done|]. by rewrite word_byte_lower, IH. Qed.

Lemma skip_while_app f x c t : f c = false → skip_while f (x +:+ String c t) = skip_while f x +:+ String c t.
Proof.
  intros Hc. induction x as [|d x IH]; [rewrite append_nil_l; cbn; by rewrite Hc|].
  rewrite append_cons. cbn. by destruct (f d).
Qed.

Lemma skip_while_spec f s : ∃ p, s = p +:+ skip_while f s ∧ str_all f p = true.
Proof.
  induction s as [|c s (p & E & Hp)]; [by exists EmptyString|]. cbn. destruct (f c) eqn:Ef.
  - exists (String c p). rewrite append_cons, <-E. cbn. by rewrite Ef.
  - by exists EmptyString.
Qed.

Lemma skip_while_head f s c r : skip_while f s = String c r → f c = false.
Proof. induction s as [|d s IH]; cbn; [done|]. destruct (f d) eqn:E; [done|]. intros [= <- <-]. done. Qed.

Lemma span_spec f s a b : span f s = (a, b) → s = a +:+ b ∧ str_all f a = true ∧ ∀ c, head_char b = Some c → f c = false.
Proof.
  revert a b. induction s as [|c s IH]; intros a b; cbn; [by intros [= <- <-]|].
  destruct (f c) eqn:E; [|intros [= <- <-]; split_and!; [done..|]; by intros ? [= <-]].
  destruct (span f s) as [x y]. destruct (IH x y eq_refl) as (-> & Hx & Hy). intros [= <- <-].
  rewrite append_cons. cbn. by rewrite E.
Qed.

Lemma span_app f a b : str_all f a = true → (∀ c, head_char b = Some c → f c = false) → span f (a +:+ b) = (a, b).
Proof.
  intros Ha Hb. induction a as [|c a IH].
  - rewrite append_nil_l. destruct b as [|d b]; [done|]. cbn. by rewrite (Hb d eq_refl).
  - cbn in Ha. apply andb_true_iff in Ha as [Hc Ha]. rewrite append_cons. cbn. by rewrite Hc, IH.
Qed.

(** * Open fields *)

(** The name [m] stands at the beginning of [s] as a word of its own; [prev] is
    the byte before it. *)
Definition marked (m : string) (prev : option ascii) (s : string) : bool :=
  starts_with m (to_ascii_lowercase s) && boundary prev && boundary (head_char (sdrop (String.length m) s)).
Definition open_value (after : string) : bool :=
  match value_of after with
  | Some (f, v) => let value := fst (span f v) in negb (is_empty value) && negb (String.eqb value REDACTED)
  | None => false
  end.
(** A field whose value still has to be redacted. *)
Definition open_field (m : string) (prev : option ascii) (s : string) : bool :=
  marked m prev s && open_value (sdrop (String.length m) s).
Definition open_here (prev : option ascii) (s : string) : bool := existsb (λ m, open_field m prev s) MARKERS.
Fixpoint open_count (prev : option ascii) (s : string) : nat :=
  match s with
  | EmptyString => 0
  | String c r => (if open_here prev s then 1 else 0) + open_count (Some c) r
  end.

Lemma marker_words m : m ∈ MARKERS → m ≠ EmptyString ∧ str_all word_byte m = true.
Proof. intros H. repeat (apply elem_of_cons in H as [->|H]; [by vm_compute|]). by apply elem_of_nil in H. Qed.

Lemma open_here_true prev s : open_here prev s = true ↔ ∃ m, m ∈ MARKERS ∧ open_field m prev s = true.
Proof. unfold open_here. apply existsb_elem_of. Qed.

Lemma marked_inv m prev s :
  marked m prev s = true → ∃ mt after, s = mt +:+ after ∧ to_ascii_lowercase mt = m
    ∧ String.length mt = String.length m ∧ boundary prev = true ∧ boundary (head_char after) = true.
Proof.
  unfold marked. intros [[(mt & r & -> & Hm)%starts_lower Hb]%andb_true_iff Ha]%andb_true_iff.
  assert (String.length mt = String.length m) as Hl by (by rewrite <-Hm, lower_length).
  rewrite <-Hl, sdrop_len in Ha. by exists mt, r.
Qed.

Lemma marked_app m prev mt after :
  to_ascii_lowercase mt = m → boundary prev = true → boundary (head_char after) = true → marked m prev (mt +:+ after) = true.
Proof.
  intros Hm Hb Ha. unfold marked. rewrite Hb. rewrite (proj2 (starts_lower m (mt +:+ after))) by eauto.
  by rewrite <-Hm, lower_length, sdrop_len, Ha.
Qed.

Lemma open_field_app m prev mt after :
  to_ascii_lowercase mt = m → open_field m prev (mt +:+ after) = marked m prev (mt +:+ after) && open_value after.
Proof. intros Hm. unfold open_field. by rewrite <-Hm, lower_length, sdrop_len. Qed.

(** No name begins at a byte that is not part of a word, nor inside one. *)
Lemma unmarked_head m prev s :
  m ∈ MARKERS → (∀ c, head_char s = Some c → word_byte c = false) → marked m prev s = false.
Proof.
  intros [Hne Hw]%marker_words Hh. apply not_true_iff_false. intros (mt & r & -> & Hm & _)%marked_inv.
  destruct mt as [|c mt]; [by subst m|]. rewrite append_cons in Hh. specialize (Hh c eq_refl).
  subst m. cbn in Hw. rewrite word_byte_lower, Hh in Hw. done.
Qed.

Lemma unmarked_inside m c s : word_byte c = true → marked m (Some c) s = false.
Proof. intros H. unfold marked, boundary. by rewrite H, andb_false_r. Qed.

Lemma open_here_head prev s : (∀ c, head_char s = Some c → word_byte c = false) → open_here prev s = false.
Proof.
  intros H. apply not_true_iff_false. intros (m & Hm & Ho)%open_here_true. unfold open_field in Ho.
  by rewrite unmarked_head in Ho.
Qed.

Lemma open_here_inside c s : word_byte c = true → open_here (Some c) s = false.
Proof.
  intros H. apply not_true_iff_false. intros (m & Hm & Ho)%open_here_true. unfold open_field in Ho.
  by rewrite unmarked_inside in Ho.
Qed.

(** Counting over a prefix. *)
Definition last_or (prev : option ascii) (s : string) : option ascii :=
  match last_char s with Some c => Some c | None => prev end.

Lemma last_or_cons prev c s : last_or (Some c) s = last_or prev (String c s).
Proof. unfold last_or. rewrite last_char_cons. by destruct (last_char s). Qed.

Lemma open_count_ge prev a b : (open_count (last_or prev a) b <= open_count prev (a +:+ b))%nat.
Proof.
  revert prev. induction a as [|c a IH]; intros prev; [done|]. rewrite append_cons. cbn [open_count].
  specialize (IH (Some c)). rewrite (last_or_cons prev) in IH. lia.
Qed.

Lemma open_count_head p q s :
  (∀ c, head_char s = Some c → word_byte c = false) → open_count p s = open_count q s.
Proof. intros H. destruct s as [|c s]; [done|]. cbn [open_count]. by rewrite !open_here_head. Qed.

Lemma open_count_skip prev a b :
  str_all (λ c, negb (word_byte c)) a = true → open_count prev (a +:+ b) = open_count (last_or prev a) b.
Proof.
  revert prev. induction a as [|c a IH]; intros prev; [done|]. cbn [str_all]. intros [Hc Ha]%andb_true_iff.
  rewrite append_cons. cbn [open_count]. rewrite open_here_head, (IH (Some c) Ha), (last_or_cons prev); [done|].
  intros d [= <-]. by apply negb_true_iff.
Qed.

Lemma open_count_word c a b :
  word_byte c = true → str_all word_byte a = true → open_count (Some c) (a +:+ b) = open_count (last_or (Some c) a) b.
Proof.
  revert c. induction a as [|d a IH]; intros c Hc Ha; [done|]. cbn [str_all] in Ha. apply andb_true_iff in Ha as [Hd Ha].
  rewrite append_cons. cbn [open_count]. by rewrite open_here_inside, (IH d Hd Ha), (last_or_cons (Some c)).
Qed.

Lemma open_count_length prev s : (open_count prev s <= String.length s)%nat.
Proof. revert prev. induction s as [|c s IH]; intros prev; cbn [open_count String.length]; [lia|].
  specialize (IH (Some c)). destruct (open_here prev (String c s)); lia. Qed.

(** The replacement itself holds no name. *)
Lemma redacted_unmarked m prev k b :
  m ∈ MARKERS → (k < String.length REDACTED)%nat → marked m prev (sdrop k REDACTED +:+ b) = false.
Proof.
  intros Hm Hk. apply not_true_iff_false. intros (mt & r & E & Hl & _)%marked_inv.
  assert (starts_with m (to_ascii_lowercase (sdrop k REDACTED)) = false) as Hs.
  { repeat (apply elem_of_cons in Hm as [->|Hm]; [do 10 (destruct k as [|k]; [reflexivity|]); cbn in Hk; lia|]).
    by apply elem_of_nil in Hm. }
  destruct (decide (String.length mt <= String.length (sdrop k REDACTED))%nat) as [Hle|Hgt].
  - symmetry in E. destruct (append_split _ _ _ _ E Hle) as (e & He & _).
    apply not_true_iff_false in Hs. apply Hs, starts_lower. by exists mt, e.
  - destruct (append_split _ _ _ _ E) as (e & He & _); [lia|].
    apply marker_words in Hm as [_ Hw]. rewrite <-Hl, He, lower_app, str_all_app, str_all_lower_word in Hw.
    apply andb_true_iff in Hw as [Hw _]. do 10 (destruct k as [|k]; [by vm_compute in Hw|]). cbn in Hk. lia.
Qed.

Lemma open_count_none prev a b :
  (∀ k p, (k < String.length a)%nat → open_here p (sdrop k a +:+ b) = false) →
  open_count prev (a +:+ b) = open_count (last_or prev a) b.
Proof.
  revert prev. induction a as [|c a IH]; intros prev H; [done|]. pose proof (H 0%nat prev ltac:(cbn; lia)) as H0.
  rewrite append_cons. cbn [sdrop] in H0. rewrite append_cons in H0. cbn [open_count]. rewrite H0, <-(last_or_cons prev).
  apply IH. intros k p Hk. apply (H (S k) p). cbn. lia.
Qed.

Lemma open_count_redacted prev b : open_count prev (REDACTED +:+ b) = open_count (Some ">"%char) b.
Proof.
  apply (open_count_none prev REDACTED). intros k p Hk. apply not_true_iff_false. intros (m & Hm & Ho)%open_here_true.
  unfold open_field in Ho. by rewrite redacted_unmarked in Ho.
Qed.

(** * Where a value begins *)

Definition gap (c : ascii) : bool := is_quote c || is_ascii_whitespace c || is_delimiter c.

Lemma gap_not_word c : gap c = true → word_byte c = false.
Proof. destruct c as [[] [] [] [] [] [] [] []]; vm_compute; congruence. Qed.

Lemma word_not_gap c : word_byte c = true → is_quote c = false ∧ is_ascii_whitespace c = false ∧ is_delimiter c = false ∧ plain c = true.
Proof. destruct c as [[] [] [] [] [] [] [] []]; vm_compute; try congruence; done. Qed.

Lemma delimiter_not_ws c : is_delimiter c = true → is_ascii_whitespace c = false ∧ is_quote c = false.
Proof. destruct c as [[] [] [] [] [] [] [] []]; vm_compute; try congruence; done. Qed.

Lemma stop_not_word c : plain c = false → word_byte c = false.
Proof. destruct c as [[] [] [] [] [] [] [] []]; vm_compute; congruence. Qed.

Lemma quote_not_word c : is_quote c = true → word_byte c = false.
Proof. destruct c as [[] [] [] [] [] [] [] []]; vm_compute; congruence. Qed.

Lemma all_gap f s : (∀ c, f c = true → gap c = true) → str_all f s = true → str_all gap s = true.
Proof. apply str_all_impl. Qed.

Lemma skip_while_stable f w d y : str_all f w = true → f d = false → skip_while f (w +:+ String d y) = String d y.
Proof.
  intros Hw Hd. induction w as [|c w IH]; [rewrite append_nil_l; cbn; by rewrite Hd|].
  cbn in Hw. apply andb_true_iff in Hw as [Hc Hw]. rewrite append_cons. cbn. by rewrite Hc, IH.
Qed.

Lemma skip_quote_stable after w d rest :
  skip_quote after = w +:+ String d rest →
  ∃ q, after = q +:+ w +:+ String d rest ∧ str_all is_quote q = true ∧ ∀ y, skip_quote (q +:+ w +:+ String d y) = w +:+ String d y.
Proof.
  destruct after as [|c r]; cbn [skip_quote]; [by destruct w|]. destruct (is_quote c) eqn:Ec.
  - intros ->. exists (String c EmptyString). rewrite append_cons, append_nil_l. cbn. rewrite Ec. split_and!; [done..|].
    intros y. rewrite append_cons, append_nil_l. cbn. by rewrite Ec.
  - intros E. exists EmptyString. rewrite append_nil_l. split_and!; [done..|]. intros y. rewrite append_nil_l.
    destruct w as [|e w]; rewrite ?append_nil_l, ?append_cons in *; injection E as <- _; cbn; by rewrite Ec.
Qed.

(** What a value may consist of. *)
Definition value_class (f : ascii → bool) : Prop := f = plain ∨ ∃ q, is_quote q = true ∧ f = λ c, negb (Ascii.eqb c q).

Lemma value_of_inv after f v :
  value_of after = Some (f, v) →
  ∃ g, after = g +:+ v ∧ str_all gap g = true ∧ (∃ a d b, g = a +:+ String d b ∧ is_delimiter d = true) ∧ value_class f
    ∧ ∀ c w, is_ascii_whitespace c = false → is_quote c = false → value_of (g +:+ String c w) = Some (f, String c w).
Proof.
  unfold value_of at 1. destruct (skip_while is_ascii_whitespace (skip_quote after)) as [|d rest] eqn:E1; [done|].
  destruct (is_delimiter d) eqn:Ed; [|done]. apply delimiter_not_ws in Ed as Hd. destruct Hd as [Hdw Hdq].
  destruct (skip_while_spec is_ascii_whitespace (skip_quote after)) as (w1 & E & Hw1). rewrite E1 in E.
  apply skip_quote_stable in E as (q & -> & Hq & Hst). destruct (skip_while_spec is_ascii_whitespace rest) as (w2 & E2 & Hw2).
  assert (∀ y, value_of (q +:+ w1 +:+ String d y) = match skip_while is_ascii_whitespace y with
    | String q v => if is_quote q then Some (λ c, negb (Ascii.eqb c q), v) else Some (plain, String q v)
    | EmptyString => Some (plain, EmptyString) end) as Hval.
  { intros y. unfold value_of. by rewrite Hst, skip_while_stable, Ed. }
  assert (∀ s, str_all is_quote s = true → str_all gap s = true) as Gq.
  { intros s. apply str_all_impl. intros c H. unfold gap. by rewrite H. }
  assert (∀ s, str_all is_ascii_whitespace s = true → str_all gap s = true) as Gw.
  { intros s. apply str_all_impl. intros c H. unfold gap. by rewrite H, orb_true_r. }
  assert (gap d = true) as Gd by (unfold gap; by rewrite Ed, !orb_true_r).
  assert (∀ t, str_all gap t = true → str_all gap (q +:+ w1 +:+ String d t) = true) as Gall.
  { intros t Ht. rewrite !str_all_app. cbn [str_all]. by rewrite Gd, Ht, (Gq q Hq), (Gw w1 Hw1). }
  assert (∀ t, ∃ a d0 b, q +:+ w1 +:+ String d t = a +:+ String d0 b ∧ is_delimiter d0 = true) as Hdel.
  { intros t. exists (q +:+ w1), d, t. by rewrite append_assoc. }
  destruct (skip_while is_ascii_whitespace rest) as [|r v0] eqn:E3.
  - intros [= <- <-]. exists (q +:+ w1 +:+ String d w2). rewrite append_nil_r in *. subst rest.
    split_and!; [done|by apply Gall, Gw|done|by left|]. intros c w Hc Hcq. rewrite !append_assoc, append_cons, Hval.
    by rewrite skip_while_stable, Hcq.
  - destruct (is_quote r) eqn:Er; intros [= <- <-].
    + exists (q +:+ w1 +:+ String d (w2 +:+ String r EmptyString)).
      split_and!; [|apply Gall; rewrite str_all_app; cbn; rewrite (Gw w2 Hw2); unfold gap; by rewrite Er|done|right; by eexists|].
      * rewrite E2, !append_assoc, append_cons, append_assoc, append_cons, append_nil_l. done.
      * intros c w Hc Hcq. rewrite !append_assoc, append_cons, append_assoc, append_cons, append_nil_l, Hval.
        rewrite skip_while_stable; [by rewrite Er|done|by eapply skip_while_head].
    + exists (q +:+ w1 +:+ String d w2). split_and!; [|by apply Gall, Gw|done|by left|].
      * by rewrite E2, !append_assoc, append_cons.
      * intros c w Hc Hcq. rewrite !append_assoc, append_cons, Hval. by rewrite skip_while_stable, Hcq.
Qed.

(** Before a word, the search for a value does not look further. *)
Lemma value_of_word x c :
  word_byte c = true →
  (∀ t, value_of (x +:+ String c t) = None)
  ∨ ∃ f z, f c = true ∧ value_class f ∧ ∀ t, value_of (x +:+ String c t) = Some (f, z +:+ String c t).
Proof.
  intros (Hq & Hw & Hd & Hp)%word_not_gap.
  assert (∀ t, skip_quote (x +:+ String c t) = skip_quote x +:+ String c t) as Eq.
  { intros t. destruct x as [|e x]; [rewrite append_nil_l; cbn; by rewrite Hq|]. rewrite append_cons. cbn. by destruct (is_quote e). }
  assert (∀ t, skip_while is_ascii_whitespace (skip_quote (x +:+ String c t))
             = skip_while is_ascii_whitespace (skip_quote x) +:+ String c t) as E1.
  { intros t. by rewrite Eq, skip_while_app. }
  unfold value_of. setoid_rewrite E1. destruct (skip_while is_ascii_whitespace (skip_quote x)) as [|d y].
  { left. intros t. rewrite append_nil_l. by rewrite Hd. }
  setoid_rewrite append_cons. destruct (is_delimiter d); [right|by left].
  setoid_rewrite (skip_while_app is_ascii_whitespace y c); [|done].
  destruct (skip_while is_ascii_whitespace y) as [|e z].
  - exists plain, EmptyString. split_and!; [done|by left|]. intros t. rewrite append_nil_l. by rewrite Hq.
  - setoid_rewrite append_cons. destruct (is_quote e) eqn:Ee.
    + exists (λ c, negb (Ascii.eqb c e)), z. split_and!; [|right; by eexists|done].
      apply negb_true_iff, Ascii.eqb_neq. intros ->. congruence.
    + exists plain, (String e z). split_and!; [done|by left|]. intros t. by rewrite append_cons.
Qed.

(** * One replacement closes a field and opens none *)

Lemma span_inside f y r : str_all f y = false → fst (span f (y +:+ r)) = fst (span f y).
Proof.
  induction y as [|c y IH]; [done|]. rewrite append_cons. cbn. destruct (f c) eqn:E; cbn; [|done].
  intros H. specialize (IH H). destruct (span f (y +:+ r)), (span f y). cbn in *. by f_equal.
Qed.

Lemma span_beyond f y r : str_all f y = true → fst (span f (y +:+ r)) = y +:+ fst (span f r).
Proof.
  induction y as [|c y IH]; [by rewrite !append_nil_l|]. rewrite !append_cons. cbn. intros [Hc Hy]%andb_true_iff. rewrite Hc.
  specialize (IH Hy). destruct (span f (y +:+ r)). cbn in *. by f_equal.
Qed.

Lemma value_stop f c : value_class f → f c = false → word_byte c = false.
Proof.
  intros [->|(q & Hq & ->)] Hc; [by apply stop_not_word|].
  apply negb_false_iff, Ascii.eqb_eq in Hc as ->. by apply quote_not_word.
Qed.

Lemma value_redacted f : value_class f → str_all f REDACTED = true.
Proof.
  intros [->|(q & Hq & ->)]; [done|]. apply (str_all_impl (λ c, negb (is_quote c))); [|done].
  intros c Hc. apply negb_true_iff, Ascii.eqb_neq. intros ->. by rewrite Hq in Hc.
Qed.

Lemma open_value_before x mt g v w b a d e :
  mt ≠ EmptyString → str_all word_byte mt = true → g = a +:+ String d e → is_delimiter d = true →
  open_value (x +:+ mt +:+ g +:+ w +:+ b) = true → open_value (x +:+ mt +:+ g +:+ v +:+ b) = true.
Proof.
  intros Hne Hmt Hg Hd. destruct mt as [|c mt]; [done|]. cbn in Hmt. apply andb_true_iff in Hmt as [Hc _].
  rewrite !append_cons. unfold open_value. destruct (value_of_word x c Hc) as [Hn|(f & z & Hf & _ & Hs)]; [by rewrite !Hn|].
  rewrite !Hs. set (y := z +:+ String c (mt +:+ g)).
  assert (∀ r, z +:+ String c (mt +:+ g +:+ r) = y +:+ r) as Ey.
  { intros r. unfold y. by rewrite append_assoc, append_cons, append_assoc. }
  rewrite !Ey. cbv zeta. destruct (str_all f y) eqn:Ef; [|by rewrite !span_inside].
  intros _. rewrite (span_beyond f y (v +:+ b)) by done. apply andb_true_iff. split.
  - apply negb_true_iff, is_empty_false. unfold y. intros E%(f_equal String.length). rewrite !slen_append in E. cbn in E. lia.
  - apply negb_true_iff, String.eqb_neq. intros E.
    assert (str_all (λ c, negb (is_delimiter c)) (y +:+ fst (span f (v +:+ b))) = true) as Ha by (by rewrite E).
    unfold y in Ha. rewrite !str_all_app in Ha. apply andb_true_iff in Ha as [Ha _]. apply andb_true_iff in Ha as [_ Ha].
    cbn [str_all] in Ha. apply andb_true_iff in Ha as [_ Ha]. subst g. rewrite !str_all_app in Ha. cbn [str_all] in Ha.
    by rewrite Hd, !andb_false_r in Ha.
Qed.

(** A field that is open, taken apart. *)
Record opened (m : string) (prev : option ascii) (mt g v b : string) (f : ascii → bool) : Prop := {
  op_marker : m ∈ MARKERS;
  op_name : to_ascii_lowercase mt = m;
  op_prev : boundary prev = true;
  op_gap : str_all gap g = true;
  op_delimiter : ∃ a d e, g = a +:+ String d e ∧ is_delimiter d = true;
  op_class : value_class f;
  op_found : value_of (g +:+ v +:+ b) = Some (f, v +:+ b);
  op_any : ∀ c w, is_ascii_whitespace c = false → is_quote c = false → value_of (g +:+ String c w) = Some (f, String c w);
  op_value : str_all f v = true;
  op_nonempty : v ≠ EmptyString;
  op_other : v ≠ REDACTED;
  op_behind : ∀ c, head_char b = Some c → f c = false;
}.

Section replace.
Context {m : string} {prev : option ascii} {mt g v b : string} {f : ascii → bool}.
Context (Ho : opened m prev mt g v b f).

Lemma op_words : mt ≠ EmptyString ∧ str_all word_byte mt = true.
Proof.
  destruct (marker_words m (op_marker _ _ _ _ _ _ _ Ho)) as [Hne Hw]. rewrite <-(op_name _ _ _ _ _ _ _ Ho) in Hne, Hw.
  rewrite str_all_lower_word in Hw. split; [by intros ->|done].
Qed.

Lemma op_gap_head c : head_char g = Some c → word_byte c = false.
Proof.
  pose proof (op_gap _ _ _ _ _ _ _ Ho) as Hg. destruct g as [|d r]; [done|]. cbn in *. intros [= <-].
  apply andb_true_iff in Hg as [Hd _]. by apply gap_not_word.
Qed.

Lemma op_gap_cons : ∃ d r, g = String d r ∧ word_byte d = false.
Proof.
  destruct (op_delimiter _ _ _ _ _ _ _ Ho) as (a & d & e & Hg & _). pose proof op_gap_head as H. subst g.
  destruct a as [|x a]; [exists d, e; split; [done|by apply H]|]. exists x, (a +:+ String d e). split; [done|by apply H].
Qed.

(** The field itself is closed. *)
Lemma closed_here prev' : open_here prev' (mt +:+ g +:+ REDACTED +:+ b) = false.
Proof.
  apply not_true_iff_false. intros (m0 & Hm0 & Hf)%open_here_true. unfold open_field in Hf.
  apply andb_true_iff in Hf as [(mt0 & after & E & Hl & Hlen & _ & Ha)%marked_inv Hv].
  destruct op_words as [Hne Hw]. destruct op_gap_cons as (d & r & Hg & Hd).
  destruct (Nat.lt_trichotomy (String.length mt0) (String.length mt)) as [Hlt|[Heq|Hgt]].
  - symmetry in E. destruct (append_split _ _ _ _ E) as (e & -> & ->); [lia|].
    destruct e as [|x e]; [rewrite append_nil_r in Hlt; lia|]. rewrite str_all_app in Hw. apply andb_true_iff in Hw as [_ Hw].
    cbn in Hw. apply andb_true_iff in Hw as [Hx _]. rewrite append_cons in Ha. cbn in Ha. by rewrite Hx in Ha.
  - apply append_eq_length in E as [-> <-]; [|done]. rewrite <-Hlen, sdrop_len in Hv. unfold open_value in Hv.
    change (REDACTED +:+ b) with (String "<" ("redacted>" +:+ b)) in Hv.
    rewrite (op_any _ _ _ _ _ _ _ Ho) in Hv by done. change (String "<" ("redacted>" +:+ b)) with (REDACTED +:+ b) in Hv.
    rewrite span_app in Hv; [by vm_compute in Hv|apply value_redacted, (op_class _ _ _ _ _ _ _ Ho)|apply (op_behind _ _ _ _ _ _ _ Ho)].
  - destruct (append_split _ _ _ _ E) as (e & -> & Eg); [lia|]. apply marker_words in Hm0 as [_ Hw0].
    rewrite <-Hl, lower_app, str_all_app in Hw0. apply andb_true_iff in Hw0 as [_ Hw0]. rewrite str_all_lower_word in Hw0.
    destruct e as [|x e]; [rewrite append_nil_r in Hgt; lia|]. rewrite Hg, !append_cons in Eg. injection Eg as <- _.
    cbn in Hw0. by rewrite Hd in Hw0.
Qed.

(** No earlier field is opened. *)
Lemma closed_before m0 prev' x :
  x ≠ EmptyString → boundary (last_char x) = true → m0 ∈ MARKERS →
  open_field m0 prev' (x +:+ mt +:+ g +:+ REDACTED +:+ b) = true → open_field m0 prev' (x +:+ mt +:+ g +:+ v +:+ b) = true.
Proof.
  intros Hx Hb Hm0 Hf. unfold open_field in Hf.
  apply andb_true_iff in Hf as [(mt0 & after & E & Hl & Hlen & Hp & Ha)%marked_inv Hv]. destruct op_words as [Hne Hw].
  destruct (decide (String.length mt0 <= String.length x)%nat) as [Hle|Hgt].
  - symmetry in E. destruct (append_split _ _ _ _ E Hle) as (e & -> & ->).
    rewrite append_assoc, <-Hlen, sdrop_len in Hv. rewrite append_assoc, open_field_app by done.
    destruct (op_delimiter _ _ _ _ _ _ _ Ho) as (a & d & t & Hg & Hd).
    apply andb_true_iff. split; [|by eapply open_value_before].
    apply marked_app; [done..|]. destruct e as [|y e]; [|done]. rewrite append_nil_l in *. by destruct mt.
  - exfalso. destruct (append_split _ _ _ _ E) as (e & -> & _); [lia|]. apply marker_words in Hm0 as [_ Hw0].
    rewrite <-Hl, lower_app, str_all_app in Hw0. apply andb_true_iff in Hw0 as [Hw0 _]. rewrite str_all_lower_word in Hw0.
    destruct (last_char x) as [c|] eqn:El; [|destruct x; [done|by rewrite last_char_cons in El]].
    pose proof (last_char_all _ _ _ Hw0 El) as Hc. cbn in Hb. by rewrite Hc in Hb.
Qed.

(** The count after the name, the gap and the value. *)
Lemma count_behind p : (open_count p (g +:+ REDACTED +:+ b) <= open_count p (g +:+ v +:+ b))%nat.
Proof.
  assert (str_all (λ c, negb (word_byte c)) g = true) as Hg.
  { apply (str_all_impl gap); [|apply (op_gap _ _ _ _ _ _ _ Ho)]. intros c Hc. by rewrite gap_not_word. }
  rewrite !(open_count_skip _ g) by done. rewrite open_count_redacted.
  etrans; [|apply open_count_ge]. rewrite (open_count_head _ (last_or (last_or p g) v)); [done|].
  intros c Hc. eapply value_stop; [apply (op_class _ _ _ _ _ _ _ Ho)|by apply (op_behind _ _ _ _ _ _ _ Ho)].
Qed.

Lemma replaced_count pre p :
  last_or p pre = prev → open_here prev (mt +:+ g +:+ v +:+ b) = true →
  (open_count p (pre +:+ mt +:+ g +:+ REDACTED +:+ b) < open_count p (pre +:+ mt +:+ g +:+ v +:+ b))%nat.
Proof.
  intros Hlast Hopen. destruct op_words as [Hne Hw]. revert p Hlast. induction pre as [|c pre IH]; intros p Hlast.
  - cbn in Hlast. subst p. rewrite !append_nil_l. pose proof closed_here as Hc. pose proof count_behind as Hcb. clear Ho.
    destruct mt as [|c mt']; [done|].
    rewrite !append_cons in *. cbn [open_count]. rewrite Hopen, Hc. cbn in Hw. apply andb_true_iff in Hw as [Hwc Hw].
    rewrite !(open_count_word c mt') by done. specialize (Hcb (last_or (Some c) mt')). lia.
  - rewrite <-(last_or_cons p) in Hlast. specialize (IH (Some c) Hlast).
    assert (open_here p (String c pre +:+ mt +:+ g +:+ REDACTED +:+ b) = true →
            open_here p (String c pre +:+ mt +:+ g +:+ v +:+ b) = true) as Hh.
    { rewrite !open_here_true. intros (m0 & Hm0 & Hf). exists m0. split; [done|].
      apply closed_before; [done| |done|done]. pose proof (op_prev _ _ _ _ _ _ _ Ho) as Hp.
      rewrite <-Hlast, (last_or_cons None) in Hp. unfold last_or in Hp. by rewrite last_char_cons in *. }
    rewrite !append_cons in *. cbn [open_count]. destruct (open_here p _); [rewrite Hh by done; lia|]. destruct (open_here _ _); lia.
Qed.
End replace.

(** * The search *)

Lemma sdrop_lower k s : sdrop k (to_ascii_lowercase s) = to_ascii_lowercase (sdrop k s).
Proof. revert k. induction s as [|c s IH]; intros [|k]; cbn; try done. Qed.

Lemma position_of_first p s n i : position_of p s = Some n → (i < n)%nat → starts_with p (sdrop i s) = false.
Proof.
  revert n i. induction s as [|c s IH]; intros n i; cbn [position_of]; destruct (starts_with p _) eqn:E.
  1,3: intros [= <-]; lia.
  - done.
  - destruct (position_of p s) as [k|] eqn:Ek; [|done]. intros [= <-] Hi. destruct i as [|i]; [done|]. cbn [sdrop].
    apply (IH k i eq_refl). lia.
Qed.

Lemma position_of_none p s i : p ≠ EmptyString → position_of p s = None → starts_with p (sdrop i s) = false.
Proof.
  intros Hp. revert i. induction s as [|c s IH]; intros i; cbn [position_of]; destruct (starts_with p _) eqn:E; try done.
  - intros _. destruct p; [done|]. by destruct i.
  - destruct (position_of p s) eqn:Ep; [done|]. intros _. destruct i as [|i]; [done|]. cbn [sdrop]. by apply IH.
Qed.

(** The next occurrence of a name. *)
Lemma occurrence m rest k :
  position_of m (to_ascii_lowercase rest) = Some k →
  ∃ a mt after, rest = a +:+ mt +:+ after ∧ String.length a = k ∧ to_ascii_lowercase mt = m
    ∧ stake k rest = a ∧ stake (String.length m) (sdrop k rest) = mt ∧ sdrop (String.length m) (sdrop k rest) = after
    ∧ ∀ x s, rest = x +:+ s → (String.length x < k)%nat → starts_with m (to_ascii_lowercase s) = false.
Proof.
  intros H. destruct (position_of_Some _ _ _ H) as (x & y & E & Hx).
  assert (k + String.length m <= String.length rest)%nat as Hl.
  { rewrite <-(lower_length rest), E, !slen_append. lia. }
  destruct (split_at k rest) as (a & r & -> & Ha); [lia|]. rewrite slen_append in Hl.
  destruct (split_at (String.length m) r) as (mt & after & -> & Hm); [lia|].
  rewrite !lower_app in E. apply append_eq_length in E as [_ E]; [|by rewrite lower_length, Ha].
  apply append_eq_length in E as [E _]; [|by rewrite lower_length]. exists a, mt, after.
  rewrite <-Ha, !stake_len, !sdrop_len, <-Hm, stake_len, sdrop_len. split_and!; try done.
  intros z s Ez Hz. pose proof (position_of_first _ _ _ (String.length z) H) as Hf. rewrite sdrop_lower, Ez, sdrop_len in Hf.
  apply Hf. lia.
Qed.

Lemma marked_no_start m prev s : starts_with m (to_ascii_lowercase s) = false → marked m prev s = false.
Proof. intros H. unfold marked. by rewrite H. Qed.

(** The conditions of [scan] at an occurrence say whether its field is open. *)
Lemma field_at m start mt after :
  to_ascii_lowercase mt = m →
  open_field m (last_char start) (mt +:+ after)
  = negb (negb (boundary (last_char (to_ascii_lowercase start))) || negb (boundary (head_char (to_ascii_lowercase after))))
    && open_value after.
Proof.
  intros Hm. rewrite open_field_app by done. f_equal. rewrite last_char_lower, head_char_lower, !boundary_lower.
  unfold marked. rewrite (proj2 (starts_lower m (mt +:+ after))) by eauto. rewrite <-Hm, lower_length, sdrop_len.
  by rewrite negb_orb, !negb_involutive.
Qed.

(** A field that [scan] replaces is open. *)
Lemma scan_Some fuel m pre rest r :
  m ∈ MARKERS → scan fuel m pre rest = Some r →
  ∃ start mt g v b f, pre +:+ rest = start +:+ mt +:+ g +:+ v +:+ b ∧ r = start +:+ mt +:+ g +:+ REDACTED +:+ b
    ∧ opened m (last_char start) mt g v b f ∧ open_here (last_char start) (mt +:+ g +:+ v +:+ b) = true.
Proof.
  intros HM. revert pre rest. induction fuel as [|fuel IH]; intros pre rest; cbn [scan]; [done|].
  destruct (position_of m (to_ascii_lowercase rest)) as [k|] eqn:Ek; [|done].
  destruct (occurrence m rest k Ek) as (a & mt & after & Hrest & Ha & Hm & -> & -> & -> & _).
  assert ((pre +:+ a +:+ mt) +:+ after = pre +:+ rest) as Eline by (by rewrite Hrest, !append_assoc).
  rewrite append_assoc. destruct (_ || _) eqn:Eb.
  { intros H%IH. by rewrite Eline in H. }
  destruct (value_of after) as [[f v0]|] eqn:Ev; [|intros H%IH; by rewrite Eline in H].
  destruct (span f v0) as [v b] eqn:Es. destruct (value_of_inv _ _ _ Ev) as (g & -> & Hgap & Hdel & Hf & Hany).
  destruct (span_spec _ _ _ _ Es) as (-> & Hv & Hbe).
  replace (String.length (g +:+ v +:+ b) - String.length (v +:+ b))%nat with (String.length g)
    by (rewrite !slen_append; lia). rewrite stake_len.
  destruct (is_empty v) eqn:Ee; [intros H%IH; by rewrite Eline in H|]. apply is_empty_false in Ee.
  destruct (String.eqb_spec v REDACTED) as [->|Hr].
  { intros H%IH. rewrite Hrest. rewrite !append_assoc in H. exact H. }
  intros [= <-]. exists (pre +:+ a), mt, g, v, b, f. rewrite Hrest, !append_assoc.
  apply orb_false_iff in Eb as [Eb1 Eb2]. apply negb_false_iff in Eb1, Eb2.
  rewrite last_char_lower, boundary_lower in Eb1. split_and!; [done..|by split|].
  apply open_here_true. exists m. split; [done|]. rewrite field_at by done.
  rewrite last_char_lower, boundary_lower, Eb1, Eb2. cbn [negb orb andb]. unfold open_value. rewrite Ev, Es. cbn [fst].
  apply andb_true_iff. split; [by apply negb_true_iff, is_empty_false|by apply negb_true_iff, String.eqb_neq].
Qed.

(** Closed before, at and inside an occurrence, and behind it: closed. *)
Lemma closed_around m pre a mt after x s :
  m ∈ MARKERS → to_ascii_lowercase mt = m →
  (∀ x s, a +:+ mt +:+ after = x +:+ s → (String.length x < String.length a)%nat → starts_with m (to_ascii_lowercase s) = false) →
  open_field m (last_char (pre +:+ a)) (mt +:+ after) = false →
  (∀ y s, after = y +:+ s → open_field m (last_char (((pre +:+ a) +:+ mt) +:+ y)) s = false) →
  a +:+ mt +:+ after = x +:+ s → open_field m (last_char (pre +:+ x)) s = false.
Proof.
  intros HM Hm Hfirst Hat Hbehind E. destruct (decide (String.length x < String.length a)%nat) as [Hlt|Hge].
  { unfold open_field. by rewrite marked_no_start by eauto. }
  destruct (append_split _ _ _ _ E) as (e & -> & Es); [lia|].
  destruct (decide (String.length mt <= String.length e)%nat) as [Hle|Hgt].
  - destruct (append_split _ _ _ _ Es Hle) as (y & -> & ->). specialize (Hbehind y s eq_refl). by rewrite !append_assoc in *.
  - destruct e as [|c e]; [rewrite append_nil_r, append_nil_l in *; by subst s|].
    symmetry in Es. destruct (append_split _ _ _ _ Es) as (e' & -> & ->); [lia|].
    destruct (marker_words m HM) as [_ Hw]. rewrite <-Hm, str_all_lower_word, str_all_app in Hw.
    apply andb_true_iff in Hw as [Hw _]. unfold open_field. rewrite !last_char_app.
    destruct (last_char (String c e)) as [d|] eqn:El; [|by rewrite last_char_cons in El].
    by rewrite unmarked_inside by (by eapply last_char_all).
Qed.

Lemma closed_redacted m pre g b y s :
  m ∈ MARKERS → str_all gap g = true →
  (∀ z s, b = z +:+ s → open_field m (last_char ((pre +:+ g +:+ REDACTED) +:+ z)) s = false) →
  g +:+ REDACTED +:+ b = y +:+ s → open_field m (last_char (pre +:+ y)) s = false.
Proof.
  intros HM Hg Hb E. destruct (decide (String.length g <= String.length y)%nat) as [Hle|Hgt].
  - destruct (append_split _ _ _ _ E Hle) as (e & -> & Es).
    destruct (decide (String.length REDACTED <= String.length e)%nat) as [Hle2|Hgt2].
    + destruct (append_split _ _ _ _ Es Hle2) as (z & -> & ->). specialize (Hb z s eq_refl). by rewrite !append_assoc in *.
    + symmetry in Es. destruct (append_split _ _ _ _ Es) as (e' & He & ->); [lia|].
      assert (e' = sdrop (String.length e) REDACTED) as -> by (by rewrite He, sdrop_len).
      unfold open_field. by rewrite redacted_unmarked by (done || lia).
  - symmetry in E. destruct (append_split _ _ _ _ E) as (e & -> & ->); [lia|]. unfold open_field.
    rewrite unmarked_head; [done|done|]. rewrite slen_append in Hgt. destruct e as [|c e]; [cbn in Hgt; lia|].
    rewrite append_cons. intros d [= <-]. rewrite str_all_app in Hg. cbn [str_all] in Hg.
    apply andb_true_iff in Hg as [_ Hg]. apply andb_true_iff in Hg as [Hg _]. by apply gap_not_word.
Qed.

Lemma scan_None fuel m pre rest x s :
  m ∈ MARKERS → (String.length rest < fuel)%nat → scan fuel m pre rest = None → rest = x +:+ s →
  open_field m (last_char (pre +:+ x)) s = false.
Proof.
  intros HM. destruct (marker_words m HM) as [Hne _]. revert pre rest x s.
  induction fuel as [|fuel IH]; intros pre rest x s Hl; [lia|]. cbn [scan].
  destruct (position_of m (to_ascii_lowercase rest)) as [k|] eqn:Ek.
  2:{ intros _ ->. pose proof (position_of_none m _ (String.length x) Hne Ek) as H. rewrite sdrop_lower, sdrop_len in H.
      unfold open_field. by rewrite marked_no_start. }
  destruct (occurrence m rest k Ek) as (a & mt & after & -> & Ha & Hm & -> & -> & -> & Hfirst). rewrite <-Ha in Hfirst.
  assert (0 < String.length mt)%nat as Hmt by (rewrite <-(lower_length mt), Hm; destruct m; [done|cbn; lia]).
  assert (String.length after < fuel)%nat as Hla by (rewrite !slen_append in Hl; lia).
  assert (open_field m (last_char (pre +:+ a)) (mt +:+ after) = false → scan fuel m ((pre +:+ a) +:+ mt) after = None →
          a +:+ mt +:+ after = x +:+ s → open_field m (last_char (pre +:+ x)) s = false) as Hnext.
  { intros Hat Hs E. eapply closed_around; [done..| |exact E]. intros y t Ey. by eapply IH. }
  pose proof (field_at m (pre +:+ a) mt after Hm) as Hat. destruct (_ || _) eqn:Eb; [by apply Hnext|]. cbn [negb andb] in Hat.
  unfold open_value in Hat. destruct (value_of after) as [[f v0]|] eqn:Ev; [|by apply Hnext].
  destruct (value_of_inv _ _ _ Ev) as (g & -> & Hgap & _). destruct (span f v0) as [v b] eqn:Es. cbn [fst] in Hat.
  destruct (span_spec _ _ _ _ Es) as (-> & _). destruct (is_empty v); [by apply Hnext|].
  destruct (String.eqb_spec v REDACTED) as [->|]; [|done].
  replace (String.length (g +:+ REDACTED +:+ b) - String.length (REDACTED +:+ b))%nat with (String.length g)
    by (rewrite !slen_append; lia). rewrite stake_len. intros Hs E. eapply closed_around; [done..| |exact E].
  intros y t Ey. eapply closed_redacted; [done..| |exact Ey]. intros z u Ez. eapply IH; [| |exact Ez].
  - rewrite !slen_append in Hla. lia.
  - rewrite <-Hs. f_equal. by rewrite !append_assoc.
Qed.

Lemma find_map_None {A B} (h : A → option B) l a : find_map h l = None → a ∈ l → h a = None.
Proof.
  induction l as [|c l IH]; cbn; [by intros _ ?%elem_of_nil|]. destruct (h c) eqn:E; [done|].
  intros H [->|Hin]%elem_of_cons; [done|by apply IH].
Qed.

Lemma once_open line :
  redact_sensitive_line_once line ≠ line → (open_count None (redact_sensitive_line_once line) < open_count None line)%nat.
Proof.
  unfold redact_sensitive_line_once. destruct (find_map _ MARKERS) as [r|] eqn:E; [|done]. intros _. cbn [unwrap_or].
  apply find_map_Some in E as (m & HM & Hs). apply scan_Some in Hs as (start & mt & g & v & b & f & E & -> & Ho & Hh); [|done].
  rewrite append_nil_l in E. subst line. eapply replaced_count; [exact Ho| |exact Hh]. unfold last_or. by destruct (last_char start).
Qed.

Lemma once_closed line m x s :
  redact_sensitive_line_once line = line → m ∈ MARKERS → line = x +:+ s → open_field m (last_char x) s = false.
Proof.
  unfold redact_sensitive_line_once. destruct (find_map _ MARKERS) as [r|] eqn:E; cbn [unwrap_or].
  - apply find_map_Some in E as (m0 & HM & Hs). apply scan_Some in Hs as (start & mt & g & v & b & f & E & -> & Ho & _); [|done].
    rewrite append_nil_l in E. subst line. intros H. exfalso. apply (op_other _ _ _ _ _ _ _ Ho).
    do 3 apply append_inj_l in H. apply append_inv_r in H. done.
  - intros _ HM ->. apply (scan_None (S (String.length (x +:+ s))) m EmptyString (x +:+ s)); [done|lia| |done].
    by apply (find_map_None _ _ _ E).
Qed.

(** * The loop *)

Lemma redact_loop_spec fuel line :
  (open_count None line < fuel)%nat → ∃ r, redact_loop fuel line = Some r ∧ redact_sensitive_line_once r = r.
Proof.
  revert line. induction fuel as [|fuel IH]; intros line Hf; [lia|]. cbn [redact_loop].
  destruct (String.eqb_spec (redact_sensitive_line_once line) line) as [E|E]; [eauto|].
  apply IH. pose proof (once_open line E). lia.
Qed.

Lemma redact_line_fixed line :
  redact_loop (S (String.length line)) line = Some (redact_sensitive_line line)
  ∧ redact_sensitive_line_once (redact_sensitive_line line) = redact_sensitive_line line.
Proof.
  destruct (redact_loop_spec (S (String.length line)) line) as (r & E & Hr); [pose proof (open_count_length None line); lia|].
  unfold redact_sensitive_line. by rewrite E.
Qed.

(** C39: the loop that redacts a line always ends, within as many rounds as the
    line has bytes, and in its result no field is open: wherever one of the names
    stands as a word of its own, followed by a delimiter and a value, the value is
    the replacement.  Redacting the result again changes nothing. *)
Theorem redaction_complete line :
  redact_loop (S (String.length line)) line = Some (redact_sensitive_line line)
  ∧ (∀ m x s, m ∈ MARKERS → redact_sensitive_line line = x +:+ s → open_field m (last_char x) s = false)
  ∧ redact_sensitive_line (redact_sensitive_line line) = redact_sensitive_line line.
Proof.
  destruct (redact_line_fixed line) as [E Hf]. split_and!; [done| |].
  - intros m x s HM Hl. by eapply once_closed.
  - unfold redact_sensitive_line at 1. cbn [redact_loop]. by rewrite Hf, String.eqb_refl.
Qed.

(** * Text without a secret

    A secret that shares nothing with the replacement does not reappear when
    pieces of a text are replaced. *)

Lemma contains_str_true n s : contains_str n s = true ↔ ∃ a b, s = a +:+ n +:+ b.
Proof.
  split.
  - induction s as [|c s IH]; cbn [contains_str].
    + rewrite orb_false_r. intros [r E]%starts_with_true. exists EmptyString, r. by rewrite append_nil_l.
    + intros [[r E]%starts_with_true|(a & b & ->)%IH]%orb_true_iff.
      * exists EmptyString, r. by rewrite append_nil_l.
      * exists (String c a), b. by rewrite append_cons.
  - intros (a & b & ->). induction a as [|c a IH].
    + rewrite append_nil_l. destruct (n +:+ b) as [|d r] eqn:E; cbn [contains_str]; by rewrite <-E, starts_with_app.
    + rewrite append_cons. cbn [contains_str]. by rewrite IH, orb_true_r.
Qed.

Lemma contains_sub n a s b : contains_str n s = true → contains_str n (a +:+ s +:+ b) = true.
Proof.
  rewrite !contains_str_true. intros (x & y & ->). exists (a +:+ x), (y +:+ b). by rewrite !append_assoc.
Qed.

Lemma absent_sub n a s b : contains_str n (a +:+ s +:+ b) = false → contains_str n s = false.
Proof. intros H. apply not_true_iff_false. intros Hs. by rewrite contains_sub in H. Qed.

Lemma contains_around n u c w :
  contains_char c n = false → contains_str n (u +:+ String c w) = true → contains_str n u = true ∨ contains_str n w = true.
Proof.
  intros Hc (x & y & E)%contains_str_true.
  destruct (decide (String.length x + String.length n <= String.length u)%nat) as [Hle|Hgt].
  - left. rewrite <-append_assoc in E. symmetry in E.
    destruct (append_split _ _ _ _ E) as (e & -> & _); [rewrite slen_append; lia|].
    apply contains_str_true. exists x, e. by rewrite append_assoc.
  - right. destruct (decide (String.length u < String.length x)%nat) as [Hlt|Hge].
    + destruct (append_split _ _ _ _ E) as (e & -> & Ew); [lia|]. rewrite slen_append in Hlt.
      destruct e as [|d e]; [cbn in Hlt; lia|]. rewrite append_cons in Ew. injection Ew as _ ->.
      apply contains_str_true. by exists e, y.
    + exfalso. symmetry in E. destruct (append_split _ _ _ _ E) as (e & -> & En); [lia|]. rewrite slen_append in Hgt.
      destruct (append_split _ _ _ _ (eq_sym En)) as (e' & -> & Ey); [lia|].
      destruct e' as [|d e']; [rewrite append_nil_r in Hgt; lia|]. rewrite append_cons in Ey. injection Ey as -> _.
      rewrite contains_char_app in Hc. cbn [contains_char] in Hc. by rewrite Ascii.eqb_refl, orb_true_r in Hc.
Qed.

(** The secrets for which the replacement says nothing. *)
Definition foreign (n : string) : Prop :=
  n ≠ EmptyString ∧ contains_char "<" n = false ∧ contains_char ">" n = false ∧ contains_char "010" n = false
  ∧ contains_str n "redacted" = false.

Lemma foreign_redacted n u w :
  foreign n → contains_str n u = false → contains_str n w = false → contains_str n (u +:+ REDACTED +:+ w) = false.
Proof.
  intros (_ & Hl & Hg & _ & Hr) Hu Hw. apply not_true_iff_false. intros H.
  change (REDACTED +:+ w) with (String "<" ("redacted" +:+ String ">" w)) in H.
  apply contains_around in H as [H|H]; [congruence| |done].
  apply contains_around in H as [H|H]; [congruence..|done].
Qed.

Lemma once_absent n line : foreign n → contains_str n line = false → contains_str n (redact_sensitive_line_once line) = false.
Proof.
  intros Hn Ha. unfold redact_sensitive_line_once. destruct (find_map _ MARKERS) as [r|] eqn:E; [|done]. cbn [unwrap_or].
  apply find_map_Some in E as (m & HM & Hs). apply scan_Some in Hs as (start & mt & g & v & b & f & El & -> & _); [|done].
  rewrite append_nil_l in El. subst line.
  replace (start +:+ mt +:+ g +:+ REDACTED +:+ b) with ((start +:+ mt +:+ g) +:+ REDACTED +:+ b) by (by rewrite !append_assoc).
  apply foreign_redacted; [done| |].
  - apply (absent_sub n EmptyString _ (v +:+ b)). by rewrite append_nil_l, !append_assoc.
  - apply (absent_sub n (start +:+ mt +:+ g +:+ v) _ EmptyString). by rewrite append_nil_r, !append_assoc.
Qed.

Lemma loop_absent n fuel line r :
  foreign n → contains_str n line = false → redact_loop fuel line = Some r → contains_str n r = false.
Proof.
  intros Hn. revert line. induction fuel as [|fuel IH]; intros line Ha; cbn [redact_loop]; [done|].
  destruct (String.eqb _ _); [by intros [= <-]|]. apply IH. by apply once_absent.
Qed.

Lemma line_absent n line : foreign n → contains_str n line = false → contains_str n (redact_sensitive_line line) = false.
Proof. intros Hn Ha. eapply loop_absent; [done|exact Ha|]. apply redact_line_fixed. Qed.

Lemma split_char_head c s w ws : split_char c s = w :: ws → ∃ b, s = w +:+ b.
Proof.
  revert w ws. induction s as [|d s IH]; intros w ws; cbn [split_char]; [intros [= <- <-]; by exists EmptyString|].
  destruct (Ascii.eqb d c); [intros [= <- <-]; by eexists|].
  destruct (split_char c s) as [|w' ws']; [intros [= <- <-]; by exists s|].
  intros [= <- <-]. destruct (IH w' ws' eq_refl) as [b ->]. exists b. by rewrite append_cons.
Qed.

Lemma split_char_sub c s x : x ∈ split_char c s → ∃ a b, s = a +:+ x +:+ b.
Proof.
  revert x. induction s as [|d s IH]; intros x Hx.
  { apply list_elem_of_singleton in Hx as ->. by exists EmptyString, EmptyString. }
  destruct (split_char c (String d s)) as [|w ws] eqn:E; [by apply elem_of_nil in Hx|].
  apply elem_of_cons in Hx as [->|Hx].
  { destruct (split_char_head _ _ _ _ E) as [b ->]. by exists EmptyString, b. }
  cbn [split_char] in E.
  assert (x ∈ split_char c s) as Hs.
  { destruct (Ascii.eqb d c); [by injection E as <- <-|]. destruct (split_char c s); injection E as <- <-; [by apply elem_of_nil in Hx|].
    by right. }
  destruct (IH x Hs) as (a & b & ->). exists (String d a), b. by rewrite append_cons.
Qed.

Lemma lines_sub s x : x ∈ lines s → ∃ a b, s = a +:+ x +:+ b.
Proof.
  intros (y & Hy & ->)%lines_pieces. destruct (split_char_sub _ _ _ Hy) as (a & b & ->). unfold strip_cr.
  destruct (strip_suffix _ y) as [r|] eqn:E; [|by exists a, b]. apply strip_suffix_Some in E as ->.
  eexists a, _. cbn [unwrap_or]. by rewrite append_assoc.
Qed.

Lemma join_absent n ls :
  n ≠ EmptyString → contains_char "010" n = false → Forall (λ l, contains_str n l = false) ls →
  contains_str n (join newline ls) = false.
Proof.
  intros Hne Hn H. induction H as [|l ls Hl Hls IH]; [by destruct n|]. cbn [join]. destruct ls as [|k ks]; [done|].
  apply not_true_iff_false. change newline with (String "010" EmptyString). rewrite append_cons, append_nil_l.
  intros [H|H]%contains_around; [congruence| |done]. change newline with (String "010" EmptyString) in IH. congruence.
Qed.

(** Redaction of a text does not bring back a secret it does not hold. *)
Lemma text_absent n text : foreign n → contains_str n text = false → contains_str n (redact_sensitive_text text) = false.
Proof.
  intros Hn Ha. unfold redact_sensitive_text. apply join_absent; [apply Hn|apply Hn|].
  apply Forall_forall. intros l (x & -> & Hx)%list_elem_of_fmap. apply line_absent; [done|].
  destruct (lines_sub _ _ Hx) as (a & b & ->). by eapply absent_sub.
Qed.

(** [s.replace(from, to)] for a text that is not empty. *)
Fixpoint replace_loop (fuel : nat) (from to s : string) : string :=
  match fuel with
  | O => s
  | S fuel =>
      match position_of from s with
      | None => s
      | Some k => stake k s +:+ to +:+ replace_loop fuel from to (sdrop (k + String.length from) s)
      end
  end.
Definition replace_str (from to s : string) : string := replace_loop (S (String.length s)) from to s.

Lemma replace_other n from fuel s :
  foreign n → contains_str n s = false → contains_str n (replace_loop fuel from REDACTED s) = false.
Proof.
  intros Hn. revert s. induction fuel as [|fuel IH]; intros s Ha; cbn [replace_loop]; [done|].
  destruct (position_of from s) as [k|]; [|done]. apply foreign_redacted; [done| |].
  - apply (absent_sub n EmptyString _ (sdrop k s)). by rewrite append_nil_l, stake_sdrop.
  - apply IH. apply (absent_sub n (stake (k + String.length from) s) _ EmptyString). by rewrite append_nil_r, stake_sdrop.
Qed.

Lemma replace_removes n fuel s :
  foreign n → (String.length s < fuel)%nat → contains_str n (replace_loop fuel n REDACTED s) = false.
Proof.
  intros Hn. revert s. induction fuel as [|fuel IH]; intros s Hl; [lia|]. cbn [replace_loop].
  destruct (position_of n s) as [k|] eqn:E.
  - destruct (position_of_Some _ _ _ E) as (a & b & Es & Hk). apply foreign_redacted; [done| |].
    + apply not_true_iff_false. intros (x & y & Ex)%contains_str_true.
      pose proof (position_of_first _ _ _ (String.length x) E) as Hf.
      rewrite <-(stake_sdrop k s), Ex, !append_assoc, sdrop_len, starts_with_app in Hf.
      assert (String.length (stake k s) <= k)%nat as Hs.
      { rewrite <-Hk, Es, stake_len. lia. }
      rewrite Ex, !slen_append in Hs. destruct n; [by destruct Hn|]. cbn in Hs. discriminate Hf. lia.
    + apply IH. rewrite sdrop_length. assert (0 < String.length n)%nat by (destruct n; [by destruct Hn|cbn; lia]).
      rewrite Es, !slen_append in *. lia.
  - apply not_true_iff_false. intros (a & b & Es)%contains_str_true. destruct (position_of_least n a b) as (k & Hk & _).
    congruence.
Qed.
