(* ===== verification/Privileged.v ===== *)
(** The privileged service of the desktop: [privileged.rs].

    Requests are JSON lines on a socket of the wheel group.  Each is validated
    into one of a fixed set of command lines, run, and answered and audited with
    redacted text.  The theorems are about which commands can run and for whom,
    and about what the answer can hold. *)

From S2P Require Import Prelude RustStr RustOs Json Probes Stream InstallerTransaction DaemonHttp RustRegex Redact.

Definition MAX_REQUEST_LINE_BYTES : Z := 128 * 1024.
Definition MAX_CLIENTS : Z := 32.
Definition MAX_SHARE_PAYLOAD : Z := 64 * 1024.
Definition OPERATION_TIMEOUT : Z := 900 * 1000.

Record ExecSpec := { es_argv : list string; es_stdin : option string }.

(** * Validation *)

Definition text (request : json) (key : string) : string := unwrap_or (field as_str key request) EmptyString.

(** [s.chars().count()]: a byte [10xxxxxx] continues a character. *)
Fixpoint char_count (s : string) : Z :=
  match s with
  | EmptyString => 0
  | String c r => (if byte_in 128 191 c then 0 else 1) + char_count r
  end.

Definition share_text (payload : json) (key : string) (allow_empty : bool) (maximum : Z) : result string :=
  let? value := ok_or (field as_str key payload) (key +:+ " must be text") in
  guard! (negb allow_empty && is_empty value) || (maximum <? char_count value) || has_control value
    else ("invalid " +:+ key);
  Ok value.

(** The loop over the pieces; the pieces kept so far are [parts]. *)
Fixpoint mount_parts (parts pieces : list string) : result (list string) :=
  match pieces with
  | [] => Ok parts
  | p :: pieces =>
      if is_empty p || String.eqb p "." then mount_parts parts pieces
      else if String.eqb p ".." then Err "mount_point must not contain '..'"
      else mount_parts (parts ++ [p]) pieces
  end.
Definition normalize_mount_point (value : string) : result string :=
  let? parts := mount_parts [] (split_char "/" value) in
  Ok (match parts with [] => "/" | _ => "/" +:+ join "/" parts end).

Definition mount_path_re : re := re_plus (RClass (λ c, is_ascii_alphanumeric c || byte_among "._/ -" c)).
Definition share_name_re : re := re_one_to 64 (RClass (λ c, is_ascii_alphanumeric c || byte_among "_-" c)).
Definition share_host_re : re := re_one_to 253 (RClass (λ c, is_ascii_alphanumeric c || byte_among "._:-" c)).
Definition flatpak_id_re : re :=
  RCat (re_plus (RClass is_ascii_alphanumeric))
    (re_plus (RCat (RClass (byte_among ".-"))
                   (re_plus (RClass (λ c, is_ascii_alphanumeric c || byte_among "_" c))))).

Definition MOUNT_PREFIXES : list string := ["/mnt/"; "/media/"; "/run/media/"].

Definition share_mount_point (payload : json) : result string :=
  let? value := share_text payload "mount_point" false 4096 in
  let? mount_point := normalize_mount_point value in
  guard! negb (re_match mount_path_re mount_point) || contains_str "//" mount_point
         || negb (existsb (λ p, starts_with p mount_point) MOUNT_PREFIXES)
    else "invalid mount_point";
  Ok mount_point.

Definition is_object_value (v : json) : bool := match v with JObject _ => true | _ => false end.

Section validation.
Context {HJ : JsonCodec}.

Definition network_share_stdin (request : json) (operation : string) (uid gid : Z) : result string :=
  let? payload := ok_or (match jget "payload" request with
                         | Some p => if is_object_value p then Some p else None
                         | None => None
                         end) "network share payload must be an object" in
  guard! MAX_SHARE_PAYLOAD <? slen (json_encode payload) else "network share payload is too large";
  let? name := share_text payload "name" false 64 in
  guard! negb (re_match share_name_re name) else "invalid share name";
  let? mount_point := share_mount_point payload in
  let output := [("name", JString name); ("mount_point", JString mount_point)] in
  if String.eqb operation "network_share_add" then
    let? server := share_text payload "server" false 253 in
    guard! negb (re_match share_host_re server) else "invalid share server";
    let? share_path := rmap (drop_leading "/") (share_text payload "share_path" false 4096) in
    guard! is_empty share_path || starts_with "." share_path || contains_str "//" share_path
           || contains_char "%" share_path || str_in ".." (split_char "/" share_path)
      else "invalid share_path";
    let? username := share_text payload "username" false 256 in
    let? password := share_text payload "password" true 4096 in
    let? domain := share_text payload "domain" true 256 in
    Ok (json_encode (jobject (output ++
      [("server", JString server); ("share_path", JString share_path); ("username", JString username);
       ("password", JString password); ("domain", JString domain);
       ("auto_mount", JBool (unwrap_or (field as_bool "auto_mount" payload) false));
       ("mount_now", JBool (unwrap_or (field as_bool "mount_now" payload) false));
       ("uid", JNumber uid); ("gid", JNumber gid)])))
  else Ok (json_encode (jobject output)).

Definition valid_flatpak_id (value : string) : bool := re_match flatpak_id_re value.

(** [valid_block_device_path] of [system/software_catalog.rs] *)
Definition valid_block_device_path (value : string) : bool :=
  match strip_prefix "/dev/" value with
  | None => false
  | Some name =>
      if is_empty name || (64 <? slen name) || contains_char "/" name || negb (str_all (byte_in 0 127) name) then false
      else
        match (match strip_prefix "sd" name with Some rest => Some rest | None => strip_prefix "vd" name end) with
        | Some rest =>
            let '(letters, digits) := span is_ascii_lowercase rest in
            negb (is_empty letters) && str_all is_ascii_digit digits
        | None =>
            match strip_prefix "nvme" name with
            | Some rest =>
                match split_once "n" rest with
                | None => false
                | Some (controller, namespace) =>
                    let '(namespace, partition) := unwrap_or (split_once "p" namespace) (namespace, EmptyString) in
                    negb (is_empty controller) && str_all is_ascii_digit controller
                    && negb (is_empty namespace) && str_all is_ascii_digit namespace && str_all is_ascii_digit partition
                end
            | None =>
                match strip_prefix "mmcblk" name with
                | Some rest =>
                    let '(device, partition) := unwrap_or (split_once "p" rest) (rest, EmptyString) in
                    negb (is_empty device) && str_all is_ascii_digit device && str_all is_ascii_digit partition
                | None => false
                end
            end
        end
  end.

Definition exec (argv : list string) (stdin : option string) : result ExecSpec := Ok {| es_argv := argv; es_stdin := stdin |}.

Definition validate_request (request : json) (uid gid : Z) : result ExecSpec :=
  guard! negb (is_object_value request) else "request must be an object";
  let operation := text request "operation" in
  if String.eqb operation "flatpak_update" then exec ["/usr/bin/flatpak"; "update"; "--system"; "-y"] None
  else if String.eqb operation "flatpak_uninstall" then
    let app_id := text request "app_id" in
    guard! negb (valid_flatpak_id app_id) else "invalid Flatpak application id";
    exec ["/usr/bin/flatpak"; "uninstall"; "--system"; "-y"; app_id] None
  else if String.eqb operation "firmware_update" then exec ["/usr/bin/fwupdmgr"; "update"] None
  else if String.eqb operation "nvidia_install" then exec ["/usr/bin/ujust"; "install-nvidia-driver"] None
  else if String.eqb operation "kernel_switch" then
    let flavor := text request "flavor" in
    guard! negb (str_in flavor ["fedora"; "cachy"]) else "kernel flavor must be fedora or cachy";
    exec ["/usr/bin/ujust"; "switch-kernel"; flavor] None
  else if String.eqb operation "secureboot_enroll" then exec ["/usr/bin/ujust"; "enroll-secureboot"] None
  else if String.eqb operation "bitlocker_unlock" then
    let device := text request "device" in
    let key := text request "key" in
    guard! negb (valid_block_device_path device) else "invalid block device";
    guard! (char_count key <? 8) || (128 <? char_count key) || contains_char "010" key || contains_char "013" key
      else "invalid BitLocker key";
    exec ["/usr/bin/udisksctl"; "unlock"; "-b"; device; "--key-file"; "/dev/stdin"] (Some key)
  else if str_in operation ["network_share_add"; "network_share_remove"] then
    let? stdin := network_share_stdin request operation uid gid in
    exec ["/usr/libexec/kyth-network-share"; if String.eqb operation "network_share_add" then "add" else "remove"] (Some stdin)
  else Err "operation is not allowlisted".
End validation.

(** * Running an operation *)

Inductive OpPoll := OpExited (code : option Z) | OpRunning | OpWaitError (e : string).
(** A child of the service: starting it, writing its input, what each [try_wait]
    answers, how much longer than asked the thread sleeps after it, and the bytes
    its two readers collect, which stop at 64 KiB. *)
Record OpChild := {
  oc_spawn : result unit;
  oc_write : result unit;
  oc_poll : nat → OpPoll;
  oc_oversleep : nat → nat;
  oc_stdout : string;
  oc_stderr : string;
}.

Definition PIPE_BYTES : nat := 64 * 1024.

Fixpoint op_elapsed (c : OpChild) (n : nat) : Z :=
  match n with O => 0 | S n => op_elapsed c n + 50 + Z.of_nat (oc_oversleep c n) end.

Definition op_verdict (c : OpChild) (n : nat) : option (result (option Z)) :=
  match oc_poll c n with
  | OpExited code => Some (Ok code)
  | OpRunning =>
      if op_elapsed c n <? OPERATION_TIMEOUT then None else Some (Err "privileged operation timed out after 900 seconds")
  | OpWaitError e => Some (Err ("could not wait for privileged operation: " +:+ e))
  end.

(** [value.replace(['\n', '\r'], " ").chars().take(400)] *)
Fixpoint spaced_lines (s : string) : string :=
  match s with
  | EmptyString => EmptyString
  | String c r => String (if byte_among (bytes [10; 13]%N) c then " "%char else c) (spaced_lines r)
  end.
Definition sanitize (value : string) : string := take_chars 400 (spaced_lines value).

Definition visible (s : string) : bool := negb (str_all is_ascii_whitespace s).
Definition display_detail (stdout stderr : string) (code : option Z) : string :=
  let output := if negb (bool_decide (code = Some 0)) && visible stderr then stderr
                else if visible stdout then stdout else stderr in
  let detail := sanitize (trim (from_utf8_lossy output)) in
  if negb (is_empty (trim detail)) then detail
  else match code with
       | Some code => "operation exited with " +:+ show_int code
       | None => "operation terminated without an exit code"
       end.

(** The outcome is [None] when polling never decides, which
    [operation_decided] rules out. *)
Definition run_operation (c : OpChild) (spec : ExecSpec) : option (result string) :=
  match oc_spawn c with
  | Err e => Some (Err ("could not start privileged operation: " +:+ e))
  | Ok _ =>
      match (match es_stdin spec with Some _ => oc_write c | None => Ok tt end) with
      | Err e => Some (Err ("could not provide privileged input: " +:+ e))
      | Ok _ =>
          match poll_until (op_verdict c) (poll_fuel 50 OPERATION_TIMEOUT) 0 with
          | None => None
          | Some (Err e) => Some (Err e)
          | Some (Ok code) =>
              let detail := display_detail (stake PIPE_BYTES (oc_stdout c)) (stake PIPE_BYTES (oc_stderr c)) code in
              Some (if bool_decide (code = Some 0) then Ok detail else Err detail)
          end
      end
  end.

(** * Peers *)

Definition parse_wheel_gid (groups : string) : result Z :=
  ok_or (find_map (λ line,
    match split_char ":" line with
    | name :: _ :: gid :: _ => if String.eqb name "wheel" then parse_u32 gid else None
    | _ => None
    end) (lines groups)) "wheel group is unavailable".

Record Cred := { cr_pid : Z; cr_uid : Z; cr_gid : Z }.

(** What the service reads about a peer: its credentials, twice, the groups and
    the status of the process. *)
Record Peer := {
  pe_first : result Cred;
  pe_groups : result string;
  pe_status : string;
  pe_second : result Cred;
}.

Definition wheel_gid (p : Peer) : result Z :=
  let? groups := map_err (λ e, "could not read groups: " +:+ e) (pe_groups p) in parse_wheel_gid groups.

Definition in_supplementary (wheel : Z) (status : string) : bool :=
  match find_map (strip_prefix "Groups:") (lines status) with
  | Some line => existsb (λ w, bool_decide (parse_u32 w = Some wheel)) (split_whitespace line)
  | None => false
  end.

Definition peer_allowed (p : Peer) : result Cred :=
  let? c := pe_first p in
  let? wheel := wheel_gid p in
  if (cr_uid c =? 0) || (cr_gid c =? wheel) then Ok c
  else
    guard! negb (in_supplementary wheel (pe_status p)) else "caller is not root or a wheel member";
    let? again := pe_second p in
    guard! negb (cr_pid again =? cr_pid c) else "peer changed during authorization; retry the request";
    Ok c.

(** * A connection *)

Inductive PEvent :=
| PRan (spec : ExecSpec)
| PAudit (uid : Z) (operation : string) (ok : bool) (detail : string)
| PReply (document : json).

Definition response (ok : bool) (detail : string) : json := jobject [("ok", JBool ok); ("detail", JString detail)].

Definition redact_secret (secret : option string) (s : string) : string :=
  match secret with
  | Some secret => if is_empty secret then s else replace_str secret REDACTED s
  | None => s
  end.
Definition payload_password (request : json) : option string :=
  match jget "payload" request with
  | Some p => if is_object_value p then field as_str "password" p else None
  | None => None
  end.
Definition redact_request_detail (request : json) (detail : string) : string :=
  redact_sensitive_text
    (redact_secret (payload_password request) (redact_secret (field as_str "key" request) detail)).

Class PrivOs := {
  (** the child that runs a command, after the events so far *)
  pv_child : list PEvent → ExecSpec → OpChild;
  (** whether writing the answer fails *)
  pv_closed : list PEvent → bool;
}.

Section connection.
Context {HJ : JsonCodec} {HP : PrivOs}.

(** One request line: its events. *)
Definition handle_line (c : Cred) (log : list PEvent) (line : string) : option (list PEvent) :=
  let request := json_decode line in
  let operation := match request with Ok v => unwrap_or (field as_str "operation" v) "invalid" | Err _ => "invalid" end in
  let outcome :=
    match request with
    | Err e => Some (Err e, [])
    | Ok v =>
        match validate_request v (cr_uid c) (cr_gid c) with
        | Err e => Some (Err e, [])
        | Ok spec =>
            match run_operation (pv_child log spec) spec with
            | None => None
            | Some r => Some (r, if is_ok (oc_spawn (pv_child log spec)) then [PRan spec] else [])
            end
        end
    end in
  match outcome with
  | None => None
  | Some (r, ran) =>
      let '(ok, detail) := match r with Ok d => (true, d) | Err e => (false, e) end in
      let detail := match request with Ok v => redact_request_detail v detail | Err _ => redact_sensitive_text detail end in
      Some (ran ++ [PAudit (cr_uid c) (sanitize operation) ok (sanitize detail); PReply (response ok detail)])
  end.

(** The loop over what [read_line] returns under its limit; an empty line is the
    end of the connection. *)
Fixpoint handle_lines (c : Cred) (log : list PEvent) (reads : list (result string)) : option (list PEvent) :=
  match reads with
  | [] => Some log
  | Err e :: _ => Some (log ++ [PAudit (cr_uid c) (sanitize "invalid") false (sanitize e); PReply (response false e)])
  | Ok line :: reads =>
      if is_empty line then Some log
      else if (MAX_REQUEST_LINE_BYTES <=? slen line) && negb (ends_with newline line)
      then Some (log ++ [PAudit (cr_uid c) (sanitize "oversize") false (sanitize "request line exceeded cap")])
      else match handle_line c log line with
           | None => None
           | Some evs => if pv_closed (log ++ evs) then Some (log ++ evs) else handle_lines c (log ++ evs) reads
           end
  end.

Definition handle_client (p : Peer) (reads : list (result string)) : option (list PEvent) :=
  match peer_allowed p with
  | Err e => Some [PReply (response false e)]
  | Ok c => handle_lines c [] reads
  end.

(** * Which commands can run *)

(** A mount point below one of the media directories. *)
Definition mount_safe (mount_point : string) : Prop :=
  (∃ p, p ∈ MOUNT_PREFIXES ∧ starts_with p mount_point = true)
  ∧ ".." ∉ split_char "/" mount_point ∧ "." ∉ split_char "/" mount_point
  ∧ str_all (λ c, is_ascii_alphanumeric c || byte_among "._/ -" c) mount_point = true.

(** A name that no program takes for an option or a path. *)
Definition plain_name (name : string) : Prop :=
  (∃ c r, name = String c r ∧ is_ascii_alphanumeric c = true)
  ∧ str_all (λ c, is_ascii_alphanumeric c || byte_among ".-_" c) name = true.

Inductive fixed_command (uid gid : Z) : ExecSpec → Prop :=
| fc_update : fixed_command uid gid {| es_argv := ["/usr/bin/flatpak"; "update"; "--system"; "-y"]; es_stdin := None |}
| fc_uninstall app :
    plain_name app →
    fixed_command uid gid {| es_argv := ["/usr/bin/flatpak"; "uninstall"; "--system"; "-y"; app]; es_stdin := None |}
| fc_firmware : fixed_command uid gid {| es_argv := ["/usr/bin/fwupdmgr"; "update"]; es_stdin := None |}
| fc_nvidia : fixed_command uid gid {| es_argv := ["/usr/bin/ujust"; "install-nvidia-driver"]; es_stdin := None |}
| fc_kernel flavor :
    flavor ∈ ["fedora"; "cachy"] →
    fixed_command uid gid {| es_argv := ["/usr/bin/ujust"; "switch-kernel"; flavor]; es_stdin := None |}
| fc_secureboot : fixed_command uid gid {| es_argv := ["/usr/bin/ujust"; "enroll-secureboot"]; es_stdin := None |}
| fc_bitlocker name key :
    str_all (λ c, is_ascii_lowercase c || is_ascii_digit c) name = true → 8 <= char_count key <= 128 →
    fixed_command uid gid
      {| es_argv := ["/usr/bin/udisksctl"; "unlock"; "-b"; "/dev/" +:+ name; "--key-file"; "/dev/stdin"];
         es_stdin := Some key |}
| fc_share verb document name mount_point :
    verb ∈ ["add"; "remove"] → field as_str "name" document = Some name →
    str_all (λ c, is_ascii_alphanumeric c || byte_among "_-" c) name = true → (1 <= String.length name <= 64)%nat →
    field as_str "mount_point" document = Some mount_point → mount_safe mount_point →
    (verb = "add" → jget "uid" document = Some (JNumber uid) ∧ jget "gid" document = Some (JNumber gid)) →
    fixed_command uid gid
      {| es_argv := ["/usr/libexec/kyth-network-share"; verb]; es_stdin := Some (json_encode document) |}.

Lemma mount_parts_spec parts pieces ps :
  mount_parts parts pieces = Ok ps →
  ∃ kept, ps = parts ++ kept ∧ (∀ p, p ∈ kept → p ∈ pieces ∧ p ≠ EmptyString ∧ p ≠ "." ∧ p ≠ "..").
Proof.
  revert parts. induction pieces as [|p pieces IH]; intros parts; cbn [mount_parts].
  { intros [= <-]. exists []. rewrite app_nil_r. split; [done|]. by intros p ?%elem_of_nil. }
  destruct (is_empty p || String.eqb p ".") eqn:E.
  { intros (kept & -> & Hk)%IH. exists kept. split; [done|]. intros q Hq. apply Hk in Hq as (? & ?). split; [by right|done]. }
  apply orb_false_iff in E as [E1%is_empty_false E2%String.eqb_neq].
  destruct (String.eqb_spec p "..") as [|E3]; [done|]. intros (kept & -> & Hk)%IH. exists (p :: kept).
  rewrite <-app_assoc. split; [done|]. intros q [->|Hq]%elem_of_cons; [split_and!; [by left|done..]|].
  apply Hk in Hq as (? & ?). split; [by right|done].
Qed.

Lemma normalize_pieces value mount_point :
  normalize_mount_point value = Ok mount_point →
  ".." ∉ split_char "/" mount_point ∧ "." ∉ split_char "/" mount_point.
Proof.
  unfold normalize_mount_point. intros (ps & H & [= <-])%rbind_Ok. apply mount_parts_spec in H as (kept & -> & Hk).
  cbn [app]. destruct kept as [|k ks]; [split; vm_compute; set_solver|].
  change ("/" +:+ join "/" (k :: ks)) with (String "/" (join "/" (k :: ks))). cbn [split_char]. rewrite Ascii.eqb_refl.
  change "/" with (String "/" EmptyString). rewrite split_char_join.
  - split; intros [?|Hin]%elem_of_cons; try done; by apply Hk in Hin as (_ & _ & ? & ?).
  - done.
  - apply Forall_forall. intros x Hx. apply Hk in Hx as (Hx & _). by eapply split_char_piece.
Qed.

Lemma share_mount_point_safe payload mount_point : share_mount_point payload = Ok mount_point → mount_safe mount_point.
Proof.
  unfold share_mount_point. intros (value & _ & H)%rbind_Ok. apply rbind_Ok in H as (mp & Hn & H). guard_inv H as E.
  injection H as <-. apply orb_false_iff in E as [E Ep]. apply orb_false_iff in E as [Er _].
  apply negb_false_iff in Er, Ep. apply normalize_pieces in Hn as [H1 H2].
  apply re_match_lang, lang_plus_class in Er as [_ Ha]. split_and!; [by apply existsb_elem_of|done..].
Qed.

Lemma flatpak_id_plain app : valid_flatpak_id app = true → plain_name app.
Proof.
  intros H%re_match_lang. split.
  - apply lang_cat_inv in H as (x & y & -> & [Hne Hx]%lang_plus_class & _). destruct x as [|c x]; [done|].
    cbn in Hx. apply andb_true_iff in Hx as [Hc _]. exists c, (x +:+ y). by rewrite append_cons.
  - eapply lang_classes; [|exact H]. cbn. split_and!; intros c.
    all: destruct c as [[] [] [] [] [] [] [] []]; vm_compute; congruence.
Qed.

Definition device_byte (c : ascii) : bool := is_ascii_lowercase c || is_ascii_digit c.

Lemma span_digits rest :
  (let '(letters, digits) := span is_ascii_lowercase rest in negb (is_empty letters) && str_all is_ascii_digit digits) = true →
  str_all device_byte rest = true.
Proof.
  destruct (span is_ascii_lowercase rest) as [l d] eqn:E. apply span_spec in E as (-> & Hl & _). intros [_ Hd]%andb_true_iff.
  rewrite str_all_app. apply andb_true_iff. split.
  - eapply str_all_impl; [|exact Hl]. intros c H. unfold device_byte. by rewrite H.
  - eapply str_all_impl; [|exact Hd]. intros c H. unfold device_byte. by rewrite H, orb_true_r.
Qed.

Lemma digits_device s : str_all is_ascii_digit s = true → str_all device_byte s = true.
Proof. apply str_all_impl. intros c H. unfold device_byte. by rewrite H, orb_true_r. Qed.

Lemma split_once_device c s :
  device_byte c = true →
  (let '(a, b) := unwrap_or (split_once c s) (s, EmptyString) in str_all is_ascii_digit a && str_all is_ascii_digit b) = true →
  str_all device_byte s = true.
Proof.
  intros Hc. destruct (split_once c s) as [[a b]|] eqn:E; cbn [unwrap_or]; intros [Ha%digits_device Hb%digits_device]%andb_true_iff; [|done].
  apply split_once_Some in E as [-> _]. rewrite str_all_app. cbn [str_all]. by rewrite Ha, Hb, Hc.
Qed.

Lemma block_device_name device :
  valid_block_device_path device = true → ∃ name, device = "/dev/" +:+ name ∧ str_all device_byte name = true.
Proof.
  unfold valid_block_device_path. destruct (strip_prefix "/dev/" device) as [name|] eqn:E; [|done].
  apply strip_prefix_Some in E as ->. destruct (_ || _); [done|]. intros H. exists name. split; [done|].
  destruct (strip_prefix "sd" name) as [rest|] eqn:E1.
  { apply strip_prefix_Some in E1 as ->. rewrite str_all_app. by apply span_digits in H as ->. }
  destruct (strip_prefix "vd" name) as [rest|] eqn:E2.
  { apply strip_prefix_Some in E2 as ->. rewrite str_all_app. by apply span_digits in H as ->. }
  destruct (strip_prefix "nvme" name) as [rest|] eqn:E3.
  { apply strip_prefix_Some in E3 as ->. rewrite str_all_app. destruct (split_once "n" rest) as [[a ns]|] eqn:Es; [|done].
    apply split_once_Some in Es as [-> _]. rewrite str_all_app. cbn [str_all].
    destruct (unwrap_or (split_once "p" ns) (ns, EmptyString)) as [x y] eqn:Ex. bool_inv.
    rewrite (digits_device a) by done. cbn [andb]. rewrite (split_once_device "p" ns); [done|done|]. rewrite Ex. by apply andb_true_iff. }
  destruct (strip_prefix "mmcblk" name) as [rest|] eqn:E4; [|done].
  apply strip_prefix_Some in E4 as ->. rewrite str_all_app.
  destruct (unwrap_or (split_once "p" rest) (rest, EmptyString)) as [x y] eqn:Ex. bool_inv.
  rewrite (split_once_device "p" rest); [done|done|]. rewrite Ex. by apply andb_true_iff.
Qed.

Lemma share_text_Ok payload key allow maximum s : share_text payload key allow maximum = Ok s → field as_str key payload = Some s.
Proof. unfold share_text. intros (v & Hv%ok_or_Ok & H)%rbind_Ok. guard_inv H as E. by injection H as <-. Qed.

Lemma validated_fixed request uid gid spec : validate_request request uid gid = Ok spec → fixed_command uid gid spec.
Proof.
  unfold validate_request, exec. intros H. guard_inv H as E0.
  destruct (String.eqb _ "flatpak_update"); [injection H as <-; constructor|].
  destruct (String.eqb _ "flatpak_uninstall").
  { guard_inv H as E. injection H as <-. constructor. by apply flatpak_id_plain, negb_false_iff. }
  destruct (String.eqb _ "firmware_update"); [injection H as <-; constructor|].
  destruct (String.eqb _ "nvidia_install"); [injection H as <-; constructor|].
  destruct (String.eqb _ "kernel_switch").
  { guard_inv H as E. injection H as <-. constructor. by apply str_in_true, negb_false_iff. }
  destruct (String.eqb _ "secureboot_enroll"); [injection H as <-; constructor|].
  destruct (String.eqb _ "bitlocker_unlock").
  { guard_inv H as E1. guard_inv H as E2. injection H as <-. apply negb_false_iff, block_device_name in E1 as (name & -> & Hn).
    bool_inv. constructor; [done|lia]. }
  destruct (str_in _ ["network_share_add"; "network_share_remove"]) eqn:Eop; [|done].
  apply rbind_Ok in H as (stdin & H & [= <-]). unfold network_share_stdin in H.
  apply rbind_Ok in H as (payload & _ & H). guard_inv H as E1. apply rbind_Ok in H as (name & Hname & H). guard_inv H as E2.
  apply rbind_Ok in H as (mount & Hmount%share_mount_point_safe & H).
  apply negb_false_iff, re_match_lang, lang_one_to_class in E2 as [Hlen Hall]; [|lia].
  destruct (String.eqb _ "network_share_add") eqn:Eadd.
  - apply rbind_Ok in H as (server & _ & H). guard_inv H as E3. apply rbind_Ok in H as (path & _ & H). guard_inv H as E4.
    apply rbind_Ok in H as (username & _ & H). apply rbind_Ok in H as (password & _ & H).
    apply rbind_Ok in H as (domain & _ & [= <-]). by eapply fc_share; [left|..].
  - injection H as <-. by eapply fc_share; [right; left|..].
Qed.

(** * Whose requests they are *)

(** Root, a process of the wheel group, or one with it among its groups that was
    still the same process afterwards. *)
Definition trusted_peer (p : Peer) (c : Cred) : Prop :=
  pe_first p = Ok c ∧ ∃ wheel, wheel_gid p = Ok wheel ∧
    (cr_uid c = 0 ∨ cr_gid c = wheel
     ∨ in_supplementary wheel (pe_status p) = true ∧ ∃ again, pe_second p = Ok again ∧ cr_pid again = cr_pid c).

Lemma peer_allowed_trusted p c : peer_allowed p = Ok c → trusted_peer p c.
Proof.
  unfold peer_allowed. intros (c0 & Hc & H)%rbind_Ok. apply rbind_Ok in H as (wheel & Hw & H).
  destruct ((cr_uid c0 =? 0) || (cr_gid c0 =? wheel)) eqn:E.
  - injection H as <-. split; [done|]. exists wheel. split; [done|]. apply orb_true_iff in E as [E|E]; lia.
  - guard_inv H as Es. apply rbind_Ok in H as (again & Ha & H). guard_inv H as Ep. injection H as <-. split; [done|].
    exists wheel. split; [done|]. right; right. apply negb_false_iff in Es, Ep. split; [done|]. exists again. split; [done|lia].
Qed.

Lemma handle_line_ran c log line evs spec :
  handle_line c log line = Some evs → PRan spec ∈ evs → fixed_command (cr_uid c) (cr_gid c) spec.
Proof.
  unfold handle_line. destruct (match json_decode line with Ok _ => _ | Err _ => _ end) as [[r ran]|] eqn:E; [|done].
  destruct (match r with Ok _ => _ | Err _ => _ end) as [ok detail]. intros [= <-] Hin.
  assert (PRan spec ∈ ran) as Hr by set_solver. clear Hin.
  destruct (json_decode line) as [v|e]; [|injection E as _ <-; set_solver].
  destruct (validate_request v _ _) as [spec0|e] eqn:Ev; [|injection E as _ <-; set_solver].
  destruct (run_operation _ _); [|done]. injection E as _ <-. destruct (is_ok _); [|set_solver].
  apply list_elem_of_singleton in Hr as [= ->]. by eapply validated_fixed.
Qed.

Lemma handle_lines_ran c log reads evs spec :
  handle_lines c log reads = Some evs → PRan spec ∈ evs → PRan spec ∈ log ∨ fixed_command (cr_uid c) (cr_gid c) spec.
Proof.
  revert log. induction reads as [|[line|e] reads IH]; intros log; cbn [handle_lines].
  - intros [= <-]. by left.
  - destruct (is_empty line); [intros [= <-]; by left|]. destruct (_ && _); [intros [= <-]; set_solver|].
    destruct (handle_line c log line) as [new|] eqn:E; [|done]. destruct (pv_closed _).
    + intros [= <-] [?|Hin]%elem_of_app; [by left|right; by eapply handle_line_ran].
    + intros H Hin. destruct (IH _ H Hin) as [[?|Hn]%elem_of_app|?]; [by left| |by right]. right. by eapply handle_line_ran.
  - intros [= <-]. set_solver.
Qed.

(** C20: whatever a connection sends, every command the service starts for it is one
    of eight fixed command lines, for a peer that is root or in the wheel group:
    an application name can not be an option or a path, a device is a name below
    [/dev], a key only goes to the standard input, a share is mounted below the
    media directories, and its owner is the peer, never what the request says. *)
Theorem privileged_commands_closed p reads evs spec :
  handle_client p reads = Some evs → PRan spec ∈ evs →
  ∃ c, trusted_peer p c ∧ fixed_command (cr_uid c) (cr_gid c) spec.
Proof.
  unfold handle_client. destruct (peer_allowed p) as [c|e] eqn:E; [|intros [= <-]; set_solver].
  intros H Hin. exists c. split; [by apply peer_allowed_trusted|].
  destruct (handle_lines_ran _ _ _ _ _ H Hin) as [?%elem_of_nil|]; done.
Qed.

(** Every request is answered: polling ends after fifteen minutes at the latest. *)
Lemma op_elapsed_bound c n : 50 * Z.of_nat n <= op_elapsed c n.
Proof. induction n as [|n IH]; cbn [op_elapsed]; lia. Qed.

Lemma operation_decided c spec : ∃ r, run_operation c spec = Some r.
Proof.
  unfold run_operation. destruct (oc_spawn c); [|eauto]. destruct (match es_stdin spec with Some _ => _ | None => _ end); [|eauto].
  destruct (poll_until_decides (op_verdict c) 50 OPERATION_TIMEOUT) as (n & r & _ & -> & _); [lia|unfold OPERATION_TIMEOUT; lia| |].
  - intros k. unfold op_verdict. destruct (oc_poll c k); try done. pose proof (op_elapsed_bound c k).
    destruct (Z.ltb_spec (op_elapsed c k) OPERATION_TIMEOUT); [lia|done].
  - destruct r as [code|e]; eauto.
Qed.

Lemma handle_line_answers c log line : ∃ evs ok detail,
  handle_line c log line = Some (evs ++ [PReply (response ok detail)]).
Proof.
  unfold handle_line.
  assert (∃ r ran, (match json_decode line with
    | Err e => Some (Err e, [])
    | Ok v => match validate_request v (cr_uid c) (cr_gid c) with
              | Err e => Some (Err e, [])
              | Ok spec => match run_operation (pv_child log spec) spec with
                           | None => None
                           | Some r => Some (r, if is_ok (oc_spawn (pv_child log spec)) then [PRan spec] else [])
                           end
              end
    end) = Some (r, ran)) as (r & ran & ->).
  { destruct (json_decode line) as [v|e]; [|eauto]. destruct (validate_request v _ _) as [spec|e]; [|eauto].
    destruct (operation_decided (pv_child log spec) spec) as [r ->]. eauto. }
  destruct (match r with Ok _ => _ | Err _ => _ end) as [ok detail]. eexists (ran ++ [_]), ok, _. by rewrite <-app_assoc.
Qed.

Lemma handle_client_ends p reads : ∃ evs, handle_client p reads = Some evs.
Proof.
  unfold handle_client. destruct (peer_allowed p) as [c|e]; [|eauto]. generalize (@nil PEvent).
  induction reads as [|[line|e] reads IH]; intros log; cbn [handle_lines]; [eauto| |eauto].
  destruct (is_empty line); [eauto|]. destruct (_ && _); [eauto|].
  destruct (handle_line_answers c log line) as (evs & ok & detail & ->). destruct (pv_closed _); eauto.
Qed.

(** * What an answer can hold *)

Lemma spaced_absent n s : contains_char " " n = false → contains_str n s = false → contains_str n (spaced_lines s) = false.
Proof.
  intros Hn. assert (∀ m t, contains_char " " m = false → starts_with m (spaced_lines t) = true → starts_with m t = true) as Hs.
  { induction m as [|c m IH]; intros t Hm; [by destruct t|]. destruct t as [|d t]; [done|]. cbn [contains_char] in Hm.
    apply orb_false_iff in Hm as [Hc Hm]. unfold starts_with in *. cbn [strip_prefix spaced_lines].
    destruct (byte_among _ d) eqn:Ed.
    - destruct (Ascii.eqb_spec c " "); [subst; by rewrite Ascii.eqb_refl in Hc|done].
    - destruct (Ascii.eqb c d); [|done]. by apply IH. }
  intros Ha. apply not_true_iff_false. intros H. apply not_true_iff_false in Ha. apply Ha. clear Ha. revert H.
  induction s as [|c s IH]; cbn [contains_str spaced_lines]; [done|].
  intros [H|H]%orb_true_iff; apply orb_true_iff; [left; by apply (Hs n (String c s))|right; by apply IH].
Qed.

Lemma take_chars_prefix k s : ∃ b, s = take_chars k s +:+ b.
Proof.
  revert k. induction s as [|c s IH]; intros k; [by exists EmptyString|]. cbn [take_chars].
  destruct (byte_in 128 191 c); [destruct (IH k) as [b Hb]; exists b; by rewrite append_cons, <-Hb|].
  destruct k as [|k]; [by exists (String c s)|]. destruct (IH k) as [b Hb]. exists b. by rewrite append_cons, <-Hb.
Qed.

Lemma sanitize_absent n s : contains_char " " n = false → contains_str n s = false → contains_str n (sanitize s) = false.
Proof.
  intros Hn Ha. apply (spaced_absent n s Hn) in Ha. unfold sanitize. destruct (take_chars_prefix 400 (spaced_lines s)) as [b Hb].
  apply (absent_sub n EmptyString _ b). by rewrite append_nil_l, <-Hb.
Qed.

Lemma redact_secret_other n o s : foreign n → contains_str n s = false → contains_str n (redact_secret o s) = false.
Proof. intros Hn Ha. destruct o as [m|]; cbn [redact_secret]; [|done]. destruct (is_empty m); [done|]. by apply replace_other. Qed.

Lemma redact_secret_removes n s : foreign n → contains_str n (redact_secret (Some n) s) = false.
Proof.
  intros Hn. cbn [redact_secret]. destruct (is_empty n) eqn:E; [apply is_empty_true in E as ->; by destruct Hn|]. apply replace_removes; [done|lia].
Qed.

Lemma request_detail_absent v n detail :
  field as_str "key" v = Some n ∨ payload_password v = Some n → foreign n →
  contains_str n (redact_request_detail v detail) = false.
Proof.
  intros Hs Hn. unfold redact_request_detail. apply text_absent; [done|]. destruct Hs as [-> | ->].
  - by apply redact_secret_other, redact_secret_removes.
  - by apply redact_secret_removes.
Qed.

(** C21: a key or a password of a request is in no answer to it and in no audit
    record of it, whatever the command printed.  An answer is an outcome and a
    detail, and the detail does not contain the secret, as long as the secret is no part of the
    replacement text, has none of its brackets and no line end.  An audit record,
    which turns line ends into blanks, does not contain it in its detail when it has
    no blank either, nor in its operation unless the client itself put it into the
    operation of the request. *)
Theorem secrets_redacted c log line v evs n :
  handle_line c log line = Some evs → json_decode line = Ok v →
  field as_str "key" v = Some n ∨ payload_password v = Some n → foreign n →
  (∀ document, PReply document ∈ evs → ∃ ok detail, document = response ok detail ∧ contains_str n detail = false)
  ∧ (contains_char " " n = false →
     ∀ uid operation ok detail, PAudit uid operation ok detail ∈ evs →
       contains_str n detail = false
       ∧ (contains_str n (unwrap_or (field as_str "operation" v) "invalid") = false → contains_str n operation = false)).
Proof.
  intros H Hv Hs Hn. unfold handle_line in H. rewrite Hv in H.
  destruct (match validate_request v _ _ with Ok _ => _ | Err _ => _ end) as [[r ran]|] eqn:E; [|done].
  assert (∀ e, e ∈ ran → ∃ spec, e = PRan spec) as Hran.
  { intros e He. destruct (validate_request v _ _) as [spec|]; [|injection E as _ <-; set_solver].
    destruct (run_operation _ _); [|done]. injection E as _ <-. destruct (is_ok _); [|set_solver].
    apply list_elem_of_singleton in He. eauto. }
  destruct (match r with Ok _ => _ | Err _ => _ end) as [ok detail]. injection H as <-.
  pose proof (request_detail_absent v n detail Hs Hn) as Hd. split.
  - intros document Hin. apply elem_of_app in Hin as [Hin|Hin]; [by apply Hran in Hin as [? ?]|].
    exists ok, (redact_request_detail v detail). split; [set_solver|done].
  - intros Hb uid operation ok' d Hin. apply elem_of_app in Hin as [Hin|Hin]; [by apply Hran in Hin as [? ?]|].
    apply elem_of_cons in Hin as [[= -> -> -> ->]|Hin]; [|set_solver]. split; [by apply sanitize_absent|]. intros Ho. by apply sanitize_absent.
Qed.
End connection.

(** * The number of clients

    The accept loop counts a connection before it looks at the count, and a
    handler counts down when it ends. *)

Record Clients := {
  cl_count : Z;
  cl_pending : option Z;          (* what [fetch_add] returned to the accept loop *)
  cl_handlers : nat;
}.
Definition no_clients : Clients := {| cl_count := 0; cl_pending := None; cl_handlers := 0 |}.

Inductive client_step : Clients → Clients → Prop :=
| client_add s :
    cl_pending s = None →
    client_step s {| cl_count := cl_count s + 1; cl_pending := Some (cl_count s); cl_handlers := cl_handlers s |}
| client_refuse active s :
    cl_pending s = Some active → MAX_CLIENTS <= active →
    client_step s {| cl_count := cl_count s - 1; cl_pending := None; cl_handlers := cl_handlers s |}
| client_spawn active s :
    cl_pending s = Some active → active < MAX_CLIENTS →
    client_step s {| cl_count := cl_count s; cl_pending := None; cl_handlers := S (cl_handlers s) |}
| client_end k s :
    cl_handlers s = S k →
    client_step s {| cl_count := cl_count s - 1; cl_pending := cl_pending s; cl_handlers := k |}.

Record clients_ok (s : Clients) : Prop := {
  ck_count : cl_count s = Z.of_nat (cl_handlers s) + match cl_pending s with Some _ => 1 | None => 0 end;
  ck_pending : ∀ active, cl_pending s = Some active → Z.of_nat (cl_handlers s) <= active;
  ck_limit : Z.of_nat (cl_handlers s) <= MAX_CLIENTS;
}.

Lemma clients_bounded s : rtc client_step no_clients s → clients_ok s.
Proof.
  assert (clients_ok no_clients) as H0 by (by split).
  intros Hr. revert H0. induction Hr as [|s1 s2 s3 H12 _ IH]; intros H0; [done|]. apply IH. clear IH.
  destruct H0 as [Hc Hp Hl]. destruct H12 as [s H|a s H Ha|a s H Ha|k s H]; rewrite ?H in *; split; cbn; try done; try lia.
  - intros a [= <-]. lia.
  - specialize (Hp a eq_refl). lia.
  - intros a Ha. specialize (Hp a Ha). lia.
Qed.

(** * A service to talk to *)

Definition wheel_peer : Peer := {|
  pe_first := Ok {| cr_pid := 812; cr_uid := 1000; cr_gid := 1000 |};
  pe_groups := Ok (unlines ["root:x:0:"; "wheel:x:10:ada"]);
  pe_status := unlines ["Name: hub"; "Groups: 10 1000"];
  pe_second := Ok {| cr_pid := 812; cr_uid := 1000; cr_gid := 1000 |} |}.

Definition failing_child (stderr : string) : OpChild := {|
  oc_spawn := Ok tt; oc_write := Ok tt; oc_poll := λ n, if (n <? 2)%nat then OpRunning else OpExited (Some 1);
  oc_oversleep := λ _, 0%nat; oc_stdout := EmptyString; oc_stderr := stderr |}.
Definition printing (stderr : string) : PrivOs := {| pv_child := λ _ _, failing_child stderr; pv_closed := λ _, false |}.

Definition recovery_key : string := "123456-654321-111111".
Definition unlock_request : json :=
  jobject [("operation", JString "bitlocker_unlock"); ("device", JString "/dev/nvme0n1p3"); ("key", JString recovery_key)].
Definition unlock_line : string := json_encode (JsonCodec := tree_codec) unlock_request.

Definition exchange (stderr : string) : option (list PEvent) :=
  handle_client (HJ := tree_codec) (HP := printing stderr) wheel_peer [Ok unlock_line; Ok EmptyString].

Lemma unlock_decodes : json_decode (JsonCodec := tree_codec) unlock_line = Ok unlock_request.
Proof. apply (@json_roundtrip tree_codec tree_codec_laws). Qed.

Lemma privileged_commands_closed_witness : ∃ evs c,
  exchange "wrong passphrase" = Some evs
  ∧ fixed_command (HJ := tree_codec) (cr_uid c) (cr_gid c)
      {| es_argv := ["/usr/bin/udisksctl"; "unlock"; "-b"; "/dev/nvme0n1p3"; "--key-file"; "/dev/stdin"];
         es_stdin := Some recovery_key |}.
Proof.
  destruct (exchange "wrong passphrase") as [evs|] eqn:E; [|by vm_compute in E].
  edestruct (privileged_commands_closed (HJ := tree_codec) (HP := printing "wrong passphrase") wheel_peer
               [Ok unlock_line; Ok EmptyString] evs) as (c & _ & Hc); [exact E| |exists evs, c; split; [done|exact Hc]].
  vm_compute in E. injection E as <-. left.
Defined.

Lemma secrets_redacted_witness : ∃ evs,
  handle_line (HJ := tree_codec) (HP := printing ("bad key " +:+ recovery_key))
    {| cr_pid := 812; cr_uid := 1000; cr_gid := 1000 |} [] unlock_line = Some evs
  ∧ ∀ document, PReply document ∈ evs → ∃ ok detail, document = response ok detail ∧ contains_str recovery_key detail = false.
Proof.
  destruct (handle_line (HJ := tree_codec) (HP := printing ("bad key " +:+ recovery_key))
              {| cr_pid := 812; cr_uid := 1000; cr_gid := 1000 |} [] unlock_line) as [evs|] eqn:E; [|by vm_compute in E].
  exists evs. split; [done|].
  apply (secrets_redacted _ _ _ unlock_request _ _ E unlock_decodes); [left; reflexivity|].
  unfold foreign. split_and!; [discriminate|vm_compute; reflexivity..].
Defined.

Example key_redacted : ∃ evs, exchange ("bad key " +:+ recovery_key) = Some (evs ++ [PReply (response false "bad key <redacted>")]).
Proof. eexists [_; _]. vm_compute. reflexivity. Qed.

(** The text is cut to four hundred characters before it is redacted: what is left
    of a secret at the cut is no longer recognised. *)
Definition chatter : string := String.concat EmptyString (replicate 38 "unlock... ").
Example cut_key_survives :
  ∃ evs detail, exchange (chatter +:+ "rejected " +:+ recovery_key) = Some (evs ++ [PReply (response false detail)])
    ∧ contains_str "123456-6543" detail = true.
Proof. eexists [_; _], _. split; vm_compute; reflexivity. Qed.
