(* ===== verification/ReleaseFetch.v ===== *)
(** Downloading, verifying and unpacking release assets:
    [system/release_fetch.rs].

    The functions run against an arbitrary machine: every command and every change
    of the file system is an event, and what it answers, like what a file holds,
    is an arbitrary function of the events so far.  SHA-2 is a parameter. *)

From S2P Require Import Prelude RustStr RustOs Json FileSystem Stream DaemonHttp RustRegex Redact.

Definition MAX_ARCHIVE_MEMBERS : Z := 100000.
Definition MAX_ARCHIVE_BYTES : Z := 16 * 1024 * 1024 * 1024.
Definition MAX_CHECKSUM_BYTES : Z := 1024 * 1024.
Definition GITHUB_API : string := "https://api.github.com".
Definition USER_AGENT : string := "KythOS-Updater/1.0".

(** * The machine *)

Inductive FsOp :=
| MkDirAll (p : string)
| MkDir (p : string)
| Chmod (p : string) (mode : Z)
| TempFile (p contents : string)            (* a new temporary file of a name of its own *)
| Persist (temporary dest : string)         (* [NamedTempFile::persist] *)
| WriteFile (p contents : string)
| CopyFile (source dest : string)
| SyncFile (p : string)
| RenameFile (source dest : string)
| RemoveFile (p : string)
| RemoveDir (p : string)
| RemoveTree (p : string).

Inductive UEvent :=
| URan (argv : list string) (timeout : Z) (answer : option (Z * string))
| UDid (op : FsOp) (r : result unit).
Definition ULog : Type := list UEvent.

Inductive FileKind := KFile | KDir | KLink | KOther.
Record Meta := { mt_kind : FileKind; mt_len : Z; mt_mtime : Z }.
Inductive Lstat := LFound (m : Meta) | LMissing (e : string) | LError (e : string).

#[global] Instance FileKind_eq_dec : EqDecision FileKind.
Proof. solve_decision. Defined.

Class UpdaterOs := {
  uo_run : ULog → list string → Z → option (Z * string);
  uo_do : ULog → FsOp → result unit;
  uo_lstat : ULog → string → Lstat;                    (* [symlink_metadata] *)
  uo_stat : ULog → string → Lstat;                     (* [metadata]: of what the path leads to *)
  uo_size : ULog → string → result Z;                  (* the length of an open file *)
  uo_read : ULog → string → result string;
  uo_list : ULog → string → result (list string);      (* the names [read_dir] yields *)
  uo_temp : ULog → string → string;                    (* the name of a temporary file in a directory *)
  uo_tmp : string;                                     (* [env::temp_dir()] *)
  uo_nonce : string;
  uo_env : string → option string;
}.

(** [sha2], per algorithm, on the whole contents; [digest_file] feeds it in
    pieces. *)
Class Sha := { sha : string → string → string }.

Definition U (A : Type) : Type := ST ULog A.

Section machine.
Context {HO : UpdaterOs}.

Definition u_run (argv : list string) (timeout : Z) : U (option (Z * string)) := λ log,
  let a := uo_run log argv timeout in (Ok a, log ++ [URan argv timeout a]).
Definition u_do (op : FsOp) : U unit := λ log, let r := uo_do log op in (r, log ++ [UDid op r]).
Definition u_try (op : FsOp) : U unit := λ log, (Ok tt, log ++ [UDid op (uo_do log op)]).
Definition u_ask {A} (f : ULog → A) : U A := λ log, (Ok (f log), log).
Definition u_read {A} (f : ULog → result A) : U A := λ log, (f log, log).
Definition u_fail {A} (e : string) : U A := m_lift (Err e).
(** [c.map_err(f)?], and [c] with something done when it fails *)
Definition u_context {A} (f : string → string) (c : U A) : U A := λ log, let '(r, log) := c log in (map_err f r, log).
Definition u_guard (b : bool) (e : string) : U unit := m_lift (if b then Err e else Ok tt).
Definition u_or_undo {A} (undo : U unit) (c : U A) : U A := λ log,
  match c log with
  | (Ok a, log) => (Ok a, log)
  | (Err e, log) => (Err e, snd (undo log))
  end.

Definition is_link (l : Lstat) : bool := match l with LFound m => bool_decide (mt_kind m = KLink) | _ => false end.
Definition is_file_kind (k : FileKind) : bool := match k with KFile => true | _ => false end.
Definition is_dir_kind (k : FileKind) : bool := match k with KDir => true | _ => false end.
Definition lstat_error (l : Lstat) : string := match l with LFound _ => EmptyString | LMissing e | LError e => e end.

Definition found_file (l : Lstat) : bool := match l with LFound m => is_file_kind (mt_kind m) | _ => false end.
Definition found_dir (l : Lstat) : bool := match l with LFound m => is_dir_kind (mt_kind m) | _ => false end.
(** [path.is_file()], [path.is_dir()] and [read_to_string] *)
Definition present_file (log : ULog) (path : string) : bool := found_file (uo_stat log path).
Definition present_dir (log : ULog) (path : string) : bool := found_dir (uo_stat log path).
Definition read_text (log : ULog) (path : string) : result string :=
  let? t := uo_read log path in if utf8_ok t then Ok t else Err "stream did not contain valid UTF-8".

(** * Release documents *)

Record ReleaseAsset := { ra_name : string; ra_url : string }.

Definition asset_byte (c : ascii) : bool := is_ascii_alphanumeric c || byte_among "._-+" c.
Definition safe_asset_name (name : string) : bool :=
  negb (is_empty name) && (slen name <=? 255) && negb (String.eqb name ".") && negb (String.eqb name "..")
  && str_all asset_byte name.
Definition is_ascii_control (c : ascii) : bool := byte_in 0 31 c || (byte_of c =? 127).
Definition no_control (s : string) : bool := str_all (λ c, negb (is_ascii_control c)) s.
Definition safe_github_asset_url (url : string) : bool :=
  starts_with "https://github.com/" url && no_control url && negb (starts_with "@" (sdrop 8 url)).

Definition release_asset (item : json) : option ReleaseAsset :=
  name ← field as_str "name" item;
  url ← field as_str "browser_download_url" item;
  if negb (safe_asset_name name) || negb (safe_github_asset_url url) then None
  else Some {| ra_name := name; ra_url := url |}.
Definition release_assets (release : json) : list ReleaseAsset :=
  unwrap_or (filter_map release_asset <$> field as_array "assets" release) [].
Definition find_release_asset (assets : list ReleaseAsset) (predicate : string → bool) : option ReleaseAsset :=
  find_first (λ a, predicate (ra_name a)) assets.

Definition validate_version (version : string) (pattern : re) (component : string) : result string :=
  if re_match pattern version then Ok version
  else Err ("Unexpected " +:+ component +:+ " version format: " +:+ version).

(** * Requests *)

Definition Headers : Type := gmap string string.

Definition nonempty (o : option string) : option string :=
  match o with Some s => if is_empty s then None else Some s | None => None end.
Definition github_headers (secret_token env_token : option string) : Headers :=
  let headers : Headers := {["User-Agent" := USER_AGENT; "Accept" := "application/vnd.github.v3+json"]} in
  match (match nonempty (trim <$> secret_token) with Some t => Some t | None => nonempty (trim <$> env_token) end) with
  | Some token => <["Authorization" := "token " +:+ token]> headers
  | None => headers
  end.

Definition read_secret_file (path : string) : U (option string) :=
  u_ask (λ log, if negb (present_file log path) then None
                else match read_text log path with Ok t => nonempty (Some (trim t)) | Err _ => None end).

Definition is_authorization (name : string) : bool := eq_ignore_ascii_case name "authorization".
Definition header_args (headers : Headers) : list string :=
  flat_map (λ h : string * string, if is_authorization (fst h) then [] else ["-H"; fst h +:+ ": " +:+ snd h])
    (btree_entries headers).

Definition backslash : ascii := "092".
Fixpoint escape_config (s : string) : string :=
  match s with
  | EmptyString => EmptyString
  | String c r => if Ascii.eqb c backslash || Ascii.eqb c "034" then String backslash (String c (escape_config r))
                  else String c (escape_config r)
  end.

Definition private_curl_config (headers : Headers) : U (option string) :=
  match find_first (λ h : string * string, is_authorization (fst h)) (btree_entries headers) with
  | None => m_ret None
  | Some (_, value) =>
      do! _ <- u_guard (negb (no_control value)) "Authorization header contains control characters";
      do! path <- u_ask (λ log, uo_temp log uo_tmp);
      do! _ <- u_context (λ e, "Cannot create private curl config: " +:+ e)
        (u_do (TempFile path ("header = " +:+ quote +:+ "Authorization: " +:+ escape_config value +:+ quote +:+ newline)));
      m_ret (Some path)
  end.

Definition curl_fetch_argv (config : option string) (url : string) (headers : Headers) (timeout : Z) : list string :=
  ["curl"] ++ match config with Some p => ["--config"; p] | None => [] end
  ++ ["-fsSL"; "--max-time"; show_int timeout] ++ header_args headers ++ [url].
Definition curl_download_argv (url dest : string) (headers : Headers) (timeout max_bytes : Z) : list string :=
  ["curl"; "-fsSL"; "--max-time"; show_int timeout; "--max-filesize"; show_int max_bytes; "-o"; dest]
  ++ header_args headers ++ [url].

Context {HJ : JsonCodec}.

Definition fetch_github_latest_release (repo : string) (headers : Headers) : U json :=
  do! config <- private_curl_config headers;
  do! answer <- u_run (curl_fetch_argv config (GITHUB_API +:+ "/repos/" +:+ repo +:+ "/releases/latest") headers 30) 35;
  do! _ <- match config with Some p => u_try (RemoveFile p) | None => m_ret tt end;
  match answer with
  | Some (0, stdout) => m_lift (map_err (λ e, "Failed to parse release info: " +:+ e) (json_decode stdout))
  | Some (code, stderr) => u_fail ("Failed to fetch release info: curl exited " +:+ show_int code +:+ ": " +:+ trim stderr)
  | None => u_fail "Failed to fetch release info: request failed"
  end.

(** A staged file that is not persisted is removed when it is dropped. *)
Definition download_staged (staged url dest : string) (headers : Headers) (timeout max_bytes : Z) : U unit :=
  do! answer <- u_run (curl_download_argv url staged (filter (λ h, is_authorization (fst h) = false) headers) timeout max_bytes)
                  (timeout + 5);
  match answer with
  | Some (0, _) =>
      do! size <- u_context (λ e, "Cannot inspect downloaded file: " +:+ e) (u_read (λ log, uo_size log staged));
      do! _ <- u_guard (max_bytes <? size) ("Download exceeds the " +:+ show_int max_bytes +:+ "-byte limit");
      do! _ <- u_context (λ e, "Cannot sync downloaded file: " +:+ e) (u_do (SyncFile staged));
      u_context (λ e, "Cannot publish downloaded file: " +:+ e) (u_do (Persist staged dest))
  | Some (code, stderr) => u_fail ("Failed to download " +:+ url +:+ ": curl exited " +:+ show_int code +:+ ": " +:+ trim stderr)
  | None => u_fail ("Failed to download " +:+ url +:+ ": request failed")
  end.

Definition download_file (url dest : string) (headers : Headers) (timeout max_bytes : Z) : U unit :=
  do! _ <- u_guard (negb (starts_with "https://" url) || negb (no_control url)) "Refusing an insecure or malformed download URL";
  do! here <- u_ask (λ log, uo_lstat log dest);
  do! _ <- u_guard (is_link here) ("Refusing to download through symlink: " +:+ dest);
  do! staged <- u_ask (λ log, uo_temp log (unwrap_or (parent_dir dest) "."));
  do! _ <- u_context (λ e, "Cannot stage download: " +:+ e) (u_do (TempFile staged EmptyString));
  u_or_undo (u_try (RemoveFile staged)) (download_staged staged url dest headers timeout max_bytes).

(** [TempWorkdir::create] and its [Drop] *)
Definition workdir_path (prefix : string) : string := join_path uo_tmp (prefix +:+ "-" +:+ uo_nonce).
Definition create_workdir (prefix : string) : U string :=
  let path := workdir_path prefix in
  do! _ <- u_context (λ e, "Cannot create temporary directory: " +:+ e) (u_do (MkDir path));
  do! _ <- u_or_undo (u_try (RemoveDir path))
             (u_context (λ e, "Cannot secure temporary directory: " +:+ e) (u_do (Chmod path 448)));
  m_ret path.

(** * Checksums *)

Context {HS : Sha}.

Definition digest_length (algorithm : string) : option nat :=
  let a := to_ascii_lowercase algorithm in
  if String.eqb a "sha224" then Some 56%nat else if String.eqb a "sha256" then Some 64%nat
  else if String.eqb a "sha384" then Some 96%nat else if String.eqb a "sha512" then Some 128%nat else None.

(** [format!("{byte:02x}")] of every byte *)
Definition hex_char (n : Z) : ascii := ascii_of_N (Z.to_N (if n <? 10 then 48 + n else 87 + n)).
Fixpoint to_hex (s : string) : string :=
  match s with
  | EmptyString => EmptyString
  | String c r => String (hex_char (byte_of c / 16)) (String (hex_char (byte_of c mod 16)) (to_hex r))
  end.
Definition hex_digest (algorithm contents : string) : string := to_hex (sha (to_ascii_lowercase algorithm) contents).

Definition PGP_BEGIN : string := "-----BEGIN PGP SIGNED MESSAGE-----".
Definition PGP_SIGNATURE : string := "-----BEGIN PGP SIGNATURE-----".

Fixpoint skip_blank (ls : list string) : list string :=
  match ls with l :: r => if is_empty (trim l) then skip_blank r else ls | [] => [] end.
Fixpoint skip_armor (ls : list string) : list string :=
  match ls with l :: r => if is_empty (trim l) then r else skip_armor r | [] => [] end.
(** The lines before the signature; [None] without one. *)
Fixpoint signed_lines (ls : list string) : option (list string) :=
  match ls with
  | [] => None
  | l :: r => if String.eqb (trim l) PGP_SIGNATURE then Some []
              else (λ body, unwrap_or (strip_prefix "- " l) l :: body) <$> signed_lines r
  end.

Definition clear_signed_body (content : string) : result string :=
  match skip_blank (lines content) with
  | first :: rest =>
      if negb (String.eqb (trim first) PGP_BEGIN) then Ok content
      else rmap (join newline) (ok_or (signed_lines (skip_armor rest))
             "Clear-signed checksum file has no signature block (truncated)")
  | [] => Ok content
  end.

(** [splitn(2, char::is_whitespace)] when it yields two pieces *)
Fixpoint split_ws (s : string) : option (string * string) :=
  match s with
  | EmptyString => None
  | String c r =>
      match strip_any whitespace s with
      | Some rest => Some (EmptyString, rest)
      | None => (λ p : string * string, (String c (fst p), snd p)) <$> split_ws r
      end
  end.

(** One line of a checksum file: nothing, or a digest and a name. *)
Definition checksum_entry (algorithm : string) (expected_length : nat) (line_number : Z) (line : string)
    : result (option (string * string)) :=
  let stripped := trim line in
  if is_empty stripped || starts_with "#" stripped then Ok None
  else
    let? (hash, name) := ok_or (split_ws stripped) ("Malformed checksum entry on line " +:+ show_int line_number) in
    let name := trim_start name in
    let name := unwrap_or (strip_prefix "*" name) name in
    let name := unwrap_or (strip_prefix "./" name) name in
    guard! is_empty name || contains_char "/" name else ("Unsafe checksum filename on line " +:+ show_int line_number);
    guard! negb (String.length hash =? expected_length)%nat || negb (str_all is_ascii_hexdigit hash)
      else ("Malformed " +:+ algorithm +:+ " digest on line " +:+ show_int line_number);
    Ok (Some (to_ascii_lowercase hash, name)).

Fixpoint checksum_matches (algorithm target : string) (expected_length : nat) (n : Z) (ls : list string) : result (list string) :=
  match ls with
  | [] => Ok []
  | l :: r =>
      let? entry := checksum_entry algorithm expected_length n l in
      let? rest := checksum_matches algorithm target expected_length (n + 1) r in
      Ok (match entry with
          | Some (hash, name) => if String.eqb name target then hash :: rest else rest
          | None => rest
          end)
  end.

Definition not_regular (target_path : string) : string := "Checksum target is not a regular file: " +:+ target_path.
Definition regular_len (l : Lstat) : option Z :=
  match l with LFound m => if is_file_kind (mt_kind m) then Some (mt_len m) else None | _ => None end.

(** [digest_file] as hexadecimal text *)
Definition digest_file (log : ULog) (algorithm path : string) : result string :=
  rmap (hex_digest algorithm) (uo_read log path).

Definition checksum_digest (log : ULog) (algorithm target_name : string) (expected_length : nat) (checksum_path : string)
    : result string :=
  let? content := map_err (λ e, "Cannot read checksum file: " +:+ e) (read_text log checksum_path) in
  let? content := clear_signed_body content in
  let? matches := checksum_matches algorithm target_name expected_length 1 (lines content) in
  match matches with
  | [hash] => Ok hash
  | _ => Err ("Expected exactly one checksum for " +:+ target_name +:+ ", found " +:+ show_int (Z.of_nat (length matches)))
  end.

Definition verify_checksum (log : ULog) (checksum_path target_path algorithm : string) : result unit :=
  guard! negb (found_file (uo_lstat log target_path)) else not_regular target_path;
  let? expected_length := ok_or (digest_length algorithm) ("Unsupported checksum algorithm: " +:+ algorithm) in
  let target_name := unwrap_or (file_name target_path) EmptyString in
  let? len := match uo_lstat log checksum_path with
              | LFound m => Ok (if is_file_kind (mt_kind m) then Some (mt_len m) else None)
              | l => Err ("Cannot inspect checksum file: " +:+ lstat_error l)
              end in
  guard! (match len with Some n => MAX_CHECKSUM_BYTES <? n | None => true end)
    else ("Checksum file exceeds the " +:+ show_int MAX_CHECKSUM_BYTES +:+ "-byte limit or is not a regular file");
  let? expected := checksum_digest log algorithm target_name expected_length checksum_path in
  let? actual := map_err (λ e, "Cannot read checksum target: " +:+ e) (digest_file log algorithm target_path) in
  guard! negb (String.eqb actual expected)
    else ("Checksum mismatch for " +:+ target_name +:+ ": expected " +:+ expected +:+ ", got " +:+ actual);
  Ok tt.
Definition verify_checksum_file (checksum_path target_path algorithm : string) : U unit :=
  u_read (λ log, verify_checksum log checksum_path target_path algorithm).

Definition digest_file_hex (log : ULog) (algorithm path : string) : result string :=
  check! rmap (λ _, tt) (ok_or (digest_length algorithm) ("Unsupported checksum algorithm: " +:+ algorithm));
  let? m := match uo_lstat log path with LFound m => Ok m | l => Err ("Cannot inspect file to hash: " +:+ lstat_error l) end in
  guard! negb (is_file_kind (mt_kind m)) else ("Hash target is not a regular file: " +:+ path);
  map_err (λ e, "Cannot read file to hash: " +:+ e) (digest_file log algorithm path).

(** * Archives *)

Inductive ArchiveKind := Tar | TarGz | TarXz | Zip.

(** [path.extension()] *)
Definition extension (path : string) : option string :=
  name ← file_name path;
  '(stem, ext) ← split_last "." name;
  if is_empty stem then None else Some ext.
Definition has_extension (ext path : string) : bool :=
  match extension path with Some e => String.eqb e ext | None => false end.

Definition archive_kind (archive : string) : ArchiveKind :=
  let name := unwrap_or (file_name archive) EmptyString in
  if ends_with ".tar.xz" name || has_extension "xz" archive then TarXz
  else if ends_with ".tar.gz" name || has_extension "gz" archive then TarGz
  else if has_extension "zip" archive then Zip else Tar.

Definition traversal (name : string) : string := "Directory traversal attempt detected: " +:+ name.
Definition skipped_part (part : string) : bool := is_empty part || String.eqb part ".".

Definition member_parts (name : string) : result (list string) :=
  guard! contains_char "000" name else "Archive member contains a NUL byte";
  guard! negb (no_control name) else "Archive member contains control characters";
  guard! starts_with "/" name else traversal name;
  let parts := filterb (λ p, negb (skipped_part p)) (split_char "/" name) in
  guard! str_in ".." parts else traversal name;
  Ok parts.

Fixpoint normalize_members (seen : gset string) (members : list string) : result (list (list string)) :=
  match members with
  | [] => Ok []
  | name :: rest =>
      let? parts := member_parts name in
      let key := join "/" parts in
      guard! bool_decide (key ∈ seen) else ("Duplicate archive member: " +:+ name);
      let? normalized := normalize_members ({[key]} ∪ seen) rest in
      Ok (parts :: normalized)
  end.
Definition validate_members (members : list string) : result (list (list string)) :=
  guard! MAX_ARCHIVE_MEMBERS <? Z.of_nat (length members) else "Archive contains too many members";
  normalize_members ∅ members.

Definition list_argv (archive : string) : list string * Z :=
  match archive_kind archive with
  | Zip => (["unzip"; "-Z1"; archive], 60)
  | _ => (["tar"; "-tf"; archive], 120)
  end.
Definition list_members (archive : string) : U (list string) :=
  let '(argv, timeout) := list_argv archive in
  do! answer <- u_run argv timeout;
  match answer with
  | Some (0, stdout) => m_ret (lines stdout)
  | Some (code, stderr) => u_fail ("Cannot list archive: tool exited " +:+ show_int code +:+ ": " +:+ trim stderr)
  | None => u_fail "Cannot list archive: listing failed"
  end.

(** [parts.iter().fold(dest, Path::join)] *)
Definition output_path (dest : string) (parts : list string) : string := foldl join_path dest parts.

Fixpoint validate_extracted (log : ULog) (dest : string) (total : Z) (members : list (list string)) : result unit :=
  match members with
  | [] => Ok tt
  | [] :: rest => validate_extracted log dest total rest
  | parts :: rest =>
      let path := output_path dest parts in
      match uo_lstat log path with
      | LFound m =>
          match mt_kind m with
          | KFile =>
              guard! u64_max <? total + mt_len m else "Archive expanded size overflow";
              guard! MAX_ARCHIVE_BYTES <? total + mt_len m else "Archive expands beyond the permitted size";
              validate_extracted log dest (total + mt_len m) rest
          | KDir => validate_extracted log dest total rest
          | _ => Err ("Unsupported archive member type: " +:+ join "/" parts)
          end
      | l => Err ("Archive member was not extracted: " +:+ path +:+ ": " +:+ lstat_error l)
      end
  end.
Definition validate_extracted_members (dest : string) (members : list (list string)) : U unit :=
  u_read (λ log, validate_extracted log dest 0 members).

(** [paths.sort_by_key(Reverse(depth))], which is stable, and [paths.dedup()] *)
Definition depth (path : string) : nat := length (components path).
Fixpoint insert_deepest (path : string) (sorted : list string) : list string :=
  match sorted with
  | [] => [path]
  | q :: r => if (depth q <=? depth path)%nat then path :: sorted else q :: insert_deepest path r
  end.
Definition deepest_first (paths : list string) : list string := foldr insert_deepest [] paths.
Fixpoint dedup_after (kept : string) (paths : list string) : list string :=
  match paths with
  | [] => []
  | p :: r => if same_path p kept then dedup_after kept r else p :: dedup_after p r
  end.
Definition dedup_paths (paths : list string) : list string :=
  match paths with [] => [] | p :: r => p :: dedup_after p r end.

Fixpoint for_each {A} (f : A → U unit) (l : list A) : U unit :=
  match l with
  | [] => m_ret tt
  | x :: r => do! _ <- f x; for_each f r
  end.

Definition remove_member (dest path : string) : U unit :=
  if same_path path dest then m_ret tt
  else
    do! is_tree <- u_ask (λ log, present_dir log path && negb (is_link (uo_lstat log path)));
    u_try (if is_tree then RemoveTree path else RemoveFile path).

(** The empty directories above an output, up to the destination; every turn
    goes one component up, so the path's depth is fuel enough. *)
Fixpoint remove_parents (fuel : nat) (dest : string) (parent : option string) : U unit :=
  match fuel, parent with
  | S fuel, Some path =>
      if same_path path dest || negb (Bool.eqb (is_absolute path) (is_absolute dest) && list_prefix (components dest) (components path))
      then m_ret tt
      else λ log,
        let r := uo_do log (RemoveDir path) in
        let log := log ++ [UDid (RemoveDir path) r] in
        match r with
        | Err _ => (Ok tt, log)
        | Ok _ => remove_parents fuel dest (parent_dir path) log
        end
  | _, _ => m_ret tt
  end.

Definition remove_validated (dest : string) (members : list (list string)) : U unit :=
  do! _ <- for_each (remove_member dest) (dedup_paths (deepest_first (output_path dest <$> members)));
  for_each (λ parts, let path := output_path dest parts in remove_parents (S (depth path)) dest (parent_dir path)) members.

Fixpoint check_parents (log : ULog) (path : string) (parts : list string) : result unit :=
  match parts with
  | [] => Ok tt
  | part :: rest =>
      let path := join_path path part in
      match uo_lstat log path with
      | LFound m => if is_dir_kind (mt_kind m) then check_parents log path rest
                    else Err ("Refusing to extract through a non-directory: " +:+ path)
      | LMissing _ => Ok tt
      | LError e => Err ("Cannot inspect archive output: " +:+ e)
      end
  end.
Fixpoint check_outputs (log : ULog) (dest : string) (members : list (list string)) : result unit :=
  match members with
  | [] => Ok tt
  | [] :: rest => check_outputs log dest rest
  | parts :: rest =>
      check! check_parents log dest (removelast parts);
      let path := output_path dest parts in
      guard! (match uo_lstat log path with LFound _ => true | _ => false end)
        else ("Refusing to overwrite existing archive output: " +:+ path);
      check_outputs log dest rest
  end.

Definition extract_argv (archive dest : string) : list string :=
  match archive_kind archive with
  | Zip => ["unzip"; "-oq"; archive; "-d"; dest]
  | _ => ["tar"; "-xf"; archive; "-C"; dest; "--no-same-owner"; "--no-same-permissions"]
  end.

Definition prepare_extraction (archive dest : string) : U (list (list string)) :=
  do! _ <- u_context (λ e, "Cannot prepare archive destination: " +:+ e) (u_do (MkDirAll dest));
  do! meta <- u_ask (λ log, uo_lstat log dest);
  do! _ <- match meta with
           | LFound m => u_guard (negb (is_dir_kind (mt_kind m))) ("Archive destination is not a real directory: " +:+ dest)
           | l => u_fail ("Cannot prepare archive destination: " +:+ lstat_error l)
           end;
  do! members <- list_members archive;
  do! normalized <- m_lift (validate_members members);
  do! _ <- u_read (λ log, check_outputs log dest normalized);
  m_ret normalized.

Definition unpack (archive dest : string) (normalized : list (list string)) : U unit :=
  do! answer <- u_run (extract_argv archive dest) 600;
  do! _ <- match answer with
           | Some (0, _) => m_ret tt
           | Some (code, stderr) => u_fail ("Extraction failed: tool exited " +:+ show_int code +:+ ": " +:+ trim stderr)
           | None => u_fail "Extraction failed: unpacking failed"
           end;
  validate_extracted_members dest normalized.

Definition extract_archive (archive dest : string) : U unit :=
  do! normalized <- prepare_extraction archive dest;
  u_or_undo (remove_validated dest normalized) (unpack archive dest normalized).

(** * Old installations *)

(** [rest.find(part)], and what follows it *)
Definition after_first (part s : string) : option string :=
  (λ n, sdrop (n + String.length part) s) <$> position_of part s.
Fixpoint match_middle (middle : list string) (rest : string) : option string :=
  match middle with
  | [] => Some rest
  | part :: middle =>
      if is_empty part then match_middle middle rest
      else rest ← after_first part rest; match_middle middle rest
  end.
Definition matches_web_app_name (name pattern : string) : bool :=
  if negb (contains_char "*" pattern) then String.eqb name pattern
  else match split_char "*" pattern with
       | [] => true
       | first :: tail =>
           match strip_prefix first name with
           | None => false
           | Some rest =>
               match last tail with
               | None => true
               | Some last =>
                   match match_middle (removelast tail) rest with
                   | Some rest => is_empty last || ends_with last rest
                   | None => false
                   end
               end
           end
       end.

(** Newest first; of equal times, the greater path first. *)
Definition newer (a b : Z * string) : Prop := fst b < fst a ∨ (fst a = fst b ∧ String.le (snd b) (snd a)).
#[global] Instance newer_dec a b : Decision (newer a b).
Proof. unfold newer. apply _. Defined.

Definition installation (log : ULog) (install_dir pattern name : string) : option (Z * string) :=
  if negb (matches_web_app_name name pattern) then None
  else match uo_lstat log (join_path install_dir name) with
       | LFound m => if is_dir_kind (mt_kind m) then Some (mt_mtime m, join_path install_dir name) else None
       | _ => None
       end.
Definition stale_installations (log : ULog) (install_dir pattern : string) (keep : nat) (names : list string) : list string :=
  snd <$> drop keep (merge_sort newer (filter_map (installation log install_dir pattern) names)).

Definition prune_installations (install_dir pattern : string) (keep : nat) : U (list string) :=
  do! names <- u_context (λ e, "Cannot scan installations: " +:+ e) (u_read (λ log, uo_list log install_dir));
  do! removed <- u_ask (λ log, stale_installations log install_dir pattern keep names);
  do! _ <- for_each (λ path, u_context (λ e, "Cannot remove " +:+ path +:+ ": " +:+ e) (u_do (RemoveTree path))) removed;
  m_ret removed.

(** * What a program does to the log

    [emits P c]: running [c] only appends to the log, and every event it appends
    is in [P]. *)

Definition emits {A} (P : UEvent → Prop) (c : U A) : Prop :=
  ∀ log, ∃ events, snd (c log) = log ++ events ∧ Forall P events.

Lemma emits_mono {A} (P Q : UEvent → Prop) (c : U A) : (∀ e, P e → Q e) → emits P c → emits Q c.
Proof. intros HPQ Hc log. destruct (Hc log) as (ev & -> & Hev). exists ev. split; [done|]. eapply Forall_impl; eauto. Qed.

Lemma emits_quiet {A} P (c : U A) : (∀ log, snd (c log) = log) → emits P c.
Proof. intros Hc log. exists []. rewrite Hc, app_nil_r. auto. Qed.

Lemma emits_ret {A} P (a : A) : emits P (m_ret a).
Proof. by apply emits_quiet. Qed.
Lemma emits_lift {A} P (r : result A) : emits P (m_lift r).
Proof. by apply emits_quiet. Qed.
Lemma emits_fail {A} P e : emits P (@u_fail A e).
Proof. by apply emits_quiet. Qed.
Lemma emits_guard P b e : emits P (u_guard b e).
Proof. by apply emits_quiet. Qed.
Lemma emits_ask {A} P (f : ULog → A) : emits P (u_ask f).
Proof. by apply emits_quiet. Qed.
Lemma emits_read {A} P (f : ULog → result A) : emits P (u_read f).
Proof. by apply emits_quiet. Qed.

Lemma emits_one {A} (P : UEvent → Prop) (c : U A) (e : ULog → UEvent) :
  (∀ log, snd (c log) = log ++ [e log]) → (∀ log, P (e log)) → emits P c.
Proof. intros Hc He log. exists [e log]. auto. Qed.
Lemma emits_run (P : UEvent → Prop) argv t : (∀ a, P (URan argv t a)) → emits P (u_run argv t).
Proof. intros HP. by eapply (emits_one _ _ (λ log, URan argv t (uo_run log argv t))). Qed.
Lemma emits_do (P : UEvent → Prop) op : (∀ r, P (UDid op r)) → emits P (u_do op).
Proof. intros HP. by eapply (emits_one _ _ (λ log, UDid op (uo_do log op))). Qed.
Lemma emits_try (P : UEvent → Prop) op : (∀ r, P (UDid op r)) → emits P (u_try op).
Proof. intros HP. by eapply (emits_one _ _ (λ log, UDid op (uo_do log op))). Qed.

Lemma emits_bind {A B} P (c : U A) (k : A → U B) : emits P c → (∀ a, emits P (k a)) → emits P (m_bind c k).
Proof.
  intros Hc Hk log. unfold m_bind. destruct (Hc log) as (ev & Hl & Hev).
  destruct (c log) as [[a|e] l]; cbn in Hl; subst l; [|by exists ev].
  destruct (Hk a (log ++ ev)) as (ev2 & -> & Hev2). exists (ev ++ ev2). rewrite app_assoc. split; [done|]. by apply Forall_app.
Qed.
Lemma emits_context {A} P f (c : U A) : emits P c → emits P (u_context f c).
Proof. intros Hc log. destruct (Hc log) as (ev & Hl & Hev). exists ev. unfold u_context. by destruct (c log). Qed.
Lemma emits_or_undo {A} P undo (c : U A) : emits P undo → emits P c → emits P (u_or_undo undo c).
Proof.
  intros Hu Hc log. unfold u_or_undo. destruct (Hc log) as (ev & Hl & Hev).
  destruct (c log) as [[a|e] l]; cbn in Hl; subst l; [by exists ev|].
  destruct (Hu (log ++ ev)) as (ev2 & -> & Hev2). exists (ev ++ ev2). rewrite app_assoc. split; [done|]. by apply Forall_app.
Qed.
Lemma emits_for_each {A} P (f : A → U unit) l : (∀ x, x ∈ l → emits P (f x)) → emits P (for_each f l).
Proof.
  induction l as [|x l IH]; intros Hf; cbn; [apply emits_ret|]. apply emits_bind; [apply Hf; constructor|].
  intros _. apply IH. intros y Hy. apply Hf. by constructor.
Qed.

(** * Outputs stay inside the destination *)

(** A part of a path that names an entry of a directory and leads nowhere else *)
Definition plain_part (p : string) : Prop := skipped_part p = false ∧ p ≠ ".." ∧ contains_char "/" p = false.

(** [path] is strictly below [dest]. *)
Definition inside (dest path : string) : Prop :=
  ∃ parts, parts ≠ [] ∧ Forall plain_part parts ∧ components path = components dest ++ parts.

Lemma components_plain p : plain_part p → components p = [p].
Proof.
  intros (Hs & _ & Hp). unfold components. rewrite split_char_single by done. cbn [filterb]. unfold skipped_part in Hs.
  apply orb_false_iff in Hs as [-> ->]. done.
Qed.

Lemma components_output dest parts : Forall plain_part parts → components (output_path dest parts) = components dest ++ parts.
Proof.
  revert dest. induction parts as [|p parts IH]; intros dest Hp; [by rewrite app_nil_r|].
  inversion Hp; subst. change (output_path dest (p :: parts)) with (output_path (join_path dest p) parts).
  rewrite IH by done. rewrite components_join, (components_plain p) by done. by rewrite <-app_assoc.
Qed.

Lemma is_absolute_join d p : is_absolute d = true → is_absolute (join_path d p) = true.
Proof.
  unfold join_path, is_absolute. destruct d as [|c d]; [done|]. intros Hd.
  assert (∀ s, starts_with "/" (String c d +:+ s) = true) as Hs.
  { intros s. rewrite append_cons. revert Hd. unfold starts_with. cbn. by repeat case_match. }
  destruct (split_last "/" _) as [[a b]|]; [destruct (is_empty b)|]; apply Hs.
Qed.

Lemma is_absolute_output dest parts : is_absolute dest = true → is_absolute (output_path dest parts) = true.
Proof. revert dest. induction parts as [|p parts IH]; intros dest Hd; cbn; [done|]. by apply IH, is_absolute_join. Qed.

(** The parent's components are the first ones. *)
Lemma parent_dir_components p q : parent_dir p = Some q → ∃ tl, components p = components q ++ tl.
Proof.
  unfold parent_dir. destruct (split_last "/" p) as [[a b]|] eqn:E; [|done]. apply split_last_Some in E as [-> _].
  destruct (is_empty b); [done|]. intros [= <-]. exists (components b).
  change (String "/" b) with ("/" +:+ b). rewrite components_app. by destruct a.
Qed.

Lemma member_parts_plain name parts : member_parts name = Ok parts → Forall plain_part parts.
Proof.
  unfold member_parts. intros H. guard_inv H as H0. guard_inv H as H1. guard_inv H as H2. guard_inv H as H3. injection H as <-.
  apply Forall_forall. intros p Hp. rewrite str_in_false in H3. assert (p ≠ "..") by (intros ->; done).
  apply elem_of_filterb in Hp as [Hp Hs]. apply negb_true_iff in Hs. repeat split; [done|done|]. by eapply split_char_piece.
Qed.


Lemma normalize_members_spec seen members normalized :
  normalize_members seen members = Ok normalized →
  Forall2 (λ name parts, member_parts name = Ok parts) members normalized
  ∧ NoDup (join "/" <$> normalized) ∧ Forall (λ parts, join "/" parts ∉ seen) normalized.
Proof.
  revert seen normalized. induction members as [|name rest IH]; intros seen normalized; cbn [normalize_members].
  { intros [= <-]. repeat constructor. }
  intros H. apply rbind_Ok in H as (parts & Hp & H). guard_inv H as Hs. apply rbind_Ok in H as (tl & Ht & [= <-]).
  apply IH in Ht as (H2 & Hn & Hf). apply bool_decide_eq_false in Hs. split; [by constructor|]. cbn. split.
  - constructor; [|done]. intros (parts' & Heq & Hin)%list_elem_of_fmap.
    rewrite Forall_forall in Hf. apply (Hf _ Hin). rewrite <-Heq. set_solver.
  - constructor; [done|]. eapply Forall_impl; [exact Hf|]. set_solver.
Qed.

Lemma member_parts_relative name parts : member_parts name = Ok parts → is_absolute name = false ∧ parts = components name.
Proof.
  unfold member_parts, is_absolute. intros H. guard_inv H as H0. guard_inv H as H1. guard_inv H as H2. guard_inv H as H3.
  injection H as <-. split; [done|]. unfold components, skipped_part. clear. induction (split_char "/" name) as [|p l IH]; [done|].
  cbn [filterb]. rewrite IH. by destruct (is_empty p), (String.eqb p ".").
Qed.

(** The output is not there, and nothing above it leads out of the destination:
    each directory on the way is a real one, as far as there are any. *)
Definition fresh_output (log : ULog) (dest : string) (parts : list string) : Prop :=
  (∀ m, uo_lstat log (output_path dest parts) ≠ LFound m)
  ∧ ∀ pre suf, parts = pre ++ suf → pre ≠ [] → suf ≠ [] →
      (∀ p s e, pre = p ++ s → p ≠ [] → uo_lstat log (output_path dest p) ≠ LMissing e) →
      found_dir (uo_lstat log (output_path dest pre)) = true.

Lemma check_parents_spec log dest parts :
  check_parents log dest parts = Ok tt →
  ∀ pre suf, parts = pre ++ suf → pre ≠ [] →
    (∀ p s e, pre = p ++ s → p ≠ [] → uo_lstat log (output_path dest p) ≠ LMissing e) →
    found_dir (uo_lstat log (output_path dest pre)) = true.
Proof.
  revert dest. induction parts as [|part parts IH]; intros dest H pre suf Hp Hne Hm; [by destruct pre|].
  destruct pre as [|q pre]; [done|]. injection Hp as -> ->. cbn [check_parents] in H.
  assert (∀ e, uo_lstat log (join_path dest q) ≠ LMissing e) as Hq by (intros e; by apply (Hm [q] pre e)).
  destruct (uo_lstat log (join_path dest q)) as [m|e|e] eqn:El; [|by destruct (Hq e)|done].
  destruct (is_dir_kind (mt_kind m)) eqn:Ed; [|done].
  destruct (decide (pre = [])) as [->|Hpre]; [cbn; by rewrite El|].
  apply (IH (join_path dest q) H pre suf eq_refl Hpre). intros p s e -> Hp'. by apply (Hm (q :: p) s e).
Qed.

Lemma check_outputs_spec log dest members :
  check_outputs log dest members = Ok tt → Forall (λ parts, parts ≠ [] → fresh_output log dest parts) members.
Proof.
  induction members as [|[|q parts] members IH]; cbn [check_outputs]; intros H; [constructor|by constructor; [|apply IH]|].
  apply rbind_Ok in H as ([] & Hp & H). guard_inv H as Hl. constructor; [|by apply IH]. intros _. split.
  { intros m Hm. by rewrite Hm in Hl. }
  intros pre suf Hpre Hne Hsuf Hm. destruct (exists_last Hsuf) as (s & x & ->). rewrite app_assoc in Hpre.
  eapply (check_parents_spec _ _ _ Hp pre s); [|done|done]. rewrite Hpre. by rewrite removelast_last.
Qed.

(** A listing that can be unpacked: relative names, no way up, every output
    once, none there yet. *)
Definition safe_listing (log : ULog) (dest : string) (names : list string) (members : list (list string)) : Prop :=
  Z.of_nat (length names) <= MAX_ARCHIVE_MEMBERS
  ∧ Forall2 (λ name parts, is_absolute name = false ∧ parts = components name ∧ Forall plain_part parts) names members
  ∧ NoDup members
  ∧ Forall (λ parts, parts ≠ [] → fresh_output log dest parts) members.

Lemma safe_listing_intro log dest names members :
  validate_members names = Ok members → check_outputs log dest members = Ok tt → safe_listing log dest names members.
Proof.
  intros Hv Ho%check_outputs_spec. unfold validate_members in Hv. guard_inv Hv as Hl.
  apply normalize_members_spec in Hv as (H2 & Hn & _). split; [lia|]. split; [|split; [|done]].
  - eapply Forall2_impl; [exact H2|]. cbn. intros name parts Hp. split_and!; [| |by eapply member_parts_plain];
      by apply member_parts_relative in Hp as [? ?].
  - by eapply NoDup_fmap_1.
Qed.


Definition removal_inside (dest : string) (e : UEvent) : Prop :=
  match e with
  | UDid (RemoveFile p) _ | UDid (RemoveDir p) _ | UDid (RemoveTree p) _ => inside dest p
  | _ => False
  end.

Lemma elem_of_insert_deepest x p l : x ∈ insert_deepest p l → x = p ∨ x ∈ l.
Proof.
  induction l as [|q l IH]; cbn [insert_deepest]; [set_solver|]. destruct (_ <=? _)%nat; [set_solver|].
  rewrite elem_of_cons. intros [->|Hx]; [set_solver|]. apply IH in Hx. set_solver.
Qed.
Lemma elem_of_deepest_first x l : x ∈ deepest_first l → x ∈ l.
Proof.
  unfold deepest_first. induction l as [|p l IH]; cbn; [done|]. intros [->|Hx]%elem_of_insert_deepest; set_solver.
Qed.
Lemma elem_of_dedup_after x k l : x ∈ dedup_after k l → x ∈ l.
Proof.
  revert k. induction l as [|p l IH]; intros k; cbn [dedup_after]; [done|]. destruct (same_path p k).
  - intros Hx%IH. set_solver.
  - rewrite elem_of_cons. intros [->|Hx%IH]; set_solver.
Qed.
Lemma elem_of_dedup x l : x ∈ dedup_paths l → x ∈ l.
Proof. destruct l as [|p l]; cbn; [done|]. rewrite elem_of_cons. intros [->|Hx%elem_of_dedup_after]; set_solver. Qed.

Lemma output_inside dest parts :
  is_absolute dest = true → Forall plain_part parts → same_path (output_path dest parts) dest = false →
  inside dest (output_path dest parts).
Proof.
  intros Hd Hp Hs. exists parts. rewrite components_output by done. split_and!; [|done|done]. intros ->.
  cbn in Hs. unfold same_path in Hs. rewrite Bool.eqb_reflx, bool_decide_eq_true_2 in Hs; done.
Qed.

Lemma remove_member_inside dest parts :
  is_absolute dest = true → Forall plain_part parts → emits (removal_inside dest) (remove_member dest (output_path dest parts)).
Proof.
  intros Hd Hp. unfold remove_member. destruct (same_path _ _) eqn:Es; [apply emits_ret|].
  apply emits_bind; [apply emits_ask|]. intros b. apply emits_try. intros r. destruct b; by apply output_inside.
Qed.

Lemma remove_parents_inside fuel dest parent parts :
  Forall plain_part parts → (∀ p, parent = Some p → ∃ tl, components dest ++ parts = components p ++ tl) →
  emits (removal_inside dest) (remove_parents fuel dest parent).
Proof.
  intros Hparts. revert parent. induction fuel as [|fuel IH]; intros [path|] Hp; cbn [remove_parents]; try apply emits_ret.
  destruct (same_path path dest) eqn:Es; [apply emits_ret|]. cbn [orb]. destruct (negb _) eqn:En; [apply emits_ret|].
  apply negb_false_iff, andb_true_iff in En as [Ea (c & Hc)%list_prefix_spec]. destruct (Hp path eq_refl) as (tl & Htl).
  rewrite Hc, <-app_assoc in Htl. apply app_inv_head in Htl. subst parts. apply Forall_app in Hparts as [Hcp Htl].
  assert (inside dest path) as Hin.
  { exists c. split_and!; [|done|done]. intros ->. rewrite app_nil_r in Hc. unfold same_path in Es.
    rewrite Ea, bool_decide_eq_true_2 in Es; done. }
  intros log. destruct (uo_do log (RemoveDir path)) as [u|e] eqn:Er.
  - assert (emits (removal_inside dest) (remove_parents fuel dest (parent_dir path))) as Hrec.
    { apply IH. intros p (tl' & Htl')%parent_dir_components. exists (tl' ++ tl). by rewrite app_assoc, <-Hc, Htl', <-app_assoc. }
    destruct (Hrec (log ++ [UDid (RemoveDir path) (Ok u)])) as (ev & Hev & HF).
    exists (UDid (RemoveDir path) (Ok u) :: ev). cbn. rewrite Hev, <-app_assoc. auto.
  - exists [UDid (RemoveDir path) (Err e)]. auto.
Qed.

Lemma remove_validated_inside dest members :
  is_absolute dest = true → Forall (Forall plain_part) members → emits (removal_inside dest) (remove_validated dest members).
Proof.
  intros Hd Hm. rewrite Forall_forall in Hm. apply emits_bind.
  - apply emits_for_each. intros p (parts & -> & Hin)%elem_of_dedup%elem_of_deepest_first%list_elem_of_fmap.
    apply remove_member_inside; auto.
  - intros _. apply emits_for_each. intros parts Hin. eapply (remove_parents_inside _ _ _ parts); [by apply Hm|].
    intros p (tl & Htl)%parent_dir_components. exists tl. rewrite components_output in Htl by (by apply Hm). done.
Qed.

(** * Extraction *)

Definition made (dest : string) : UEvent := UDid (MkDirAll dest) (Ok tt).
Definition listed (archive stdout : string) : UEvent :=
  URan (fst (list_argv archive)) (snd (list_argv archive)) (Some (0, stdout)).
Definition unpacked (archive dest : string) (answer : option (Z * string)) : UEvent := URan (extract_argv archive dest) 600 answer.

Definition extraction_event (archive dest : string) (e : UEvent) : Prop :=
  match e with
  | UDid (MkDirAll d) _ => d = dest
  | URan argv _ _ => argv = fst (list_argv archive) ∨ argv = extract_argv archive dest
  | e => removal_inside dest e
  end.

(** Every output is a file or a directory, and the files fit the limit. *)
Definition is_output (log : ULog) (path : string) : bool := found_file (uo_lstat log path) || found_dir (uo_lstat log path).
Definition file_bytes (log : ULog) (path : string) : Z := unwrap_or (regular_len (uo_lstat log path)) 0.
Definition total_bytes (log : ULog) (paths : list string) : Z := foldr (λ p n, file_bytes log p + n) 0 paths.
Definition outputs (dest : string) (members : list (list string)) : list string :=
  output_path dest <$> filterb (λ parts, negb (bool_decide (parts = []))) members.

Lemma validate_extracted_spec log dest total members :
  total <= MAX_ARCHIVE_BYTES → validate_extracted log dest total members = Ok tt →
  Forall (λ p, is_output log p = true) (outputs dest members)
  ∧ total + total_bytes log (outputs dest members) <= MAX_ARCHIVE_BYTES.
Proof.
  revert total. induction members as [|[|q parts] members IH]; intros total Ht H; cbn [validate_extracted] in H.
  - cbn. split; [constructor|lia].
  - by apply IH.
  - unfold outputs. cbn [filterb]. rewrite bool_decide_eq_false_2 by done. cbn [negb fmap list_fmap].
    change (output_path dest <$> _) with (outputs dest members). cbn [total_bytes foldr].
    change (foldr _ 0 (outputs dest members)) with (total_bytes log (outputs dest members)).
    rewrite Forall_cons. unfold is_output at 1, file_bytes at 1. destruct (uo_lstat log _) as [m|e|e] eqn:El; [|done|done].
    cbn [found_file found_dir regular_len]. destruct (mt_kind m) eqn:Ek; try done; cbn [is_file_kind is_dir_kind orb unwrap_or].
    + guard_inv H as Hu. guard_inv H as Hm. apply IH in H as [Ho Hs]; [|lia]. split; [done|lia].
    + apply IH in H as [Ho Hs]; [|done]. split; [done|lia].
Qed.

Lemma list_argv_other archive dest : fst (list_argv archive) ≠ extract_argv archive dest.
Proof. unfold list_argv, extract_argv. by destruct (archive_kind archive). Qed.


(** Nothing is unpacked while the extraction is prepared. *)
Definition preparation (archive dest : string) (e : UEvent) : Prop :=
  extraction_event archive dest e ∧ ∀ a, e ≠ unpacked archive dest a.

Lemma prepare_emits archive dest : emits (preparation archive dest) (prepare_extraction archive dest).
Proof.
  unfold prepare_extraction. apply emits_bind; [apply emits_context, emits_do; by split|]. intros _.
  apply emits_bind; [apply emits_ask|]. intros meta. apply emits_bind.
  { destruct meta; [apply emits_guard|apply emits_fail..]. }
  intros _. apply emits_bind.
  - unfold list_members. rewrite (surjective_pairing (list_argv archive)). apply emits_bind.
    + apply emits_run. intros a. split; [by left|]. intros a' [= Heq _]. by apply (list_argv_other archive dest).
    + intros [[[] ?]|]; try apply emits_fail. apply emits_ret.
  - intros members. apply emits_bind; [apply emits_lift|]. intros normalized.
    apply emits_bind; [apply emits_read|]. intros _. apply emits_ret.
Qed.

Lemma prepare_Ok archive dest log members log' :
  prepare_extraction archive dest log = (Ok members, log') →
  ∃ stdout, log' = log ++ [made dest; listed archive stdout] ∧ safe_listing log' dest (lines stdout) members.
Proof.
  unfold prepare_extraction. intros H.
  apply m_bind_inv in H as [([] & l1 & H1 & H)|(? & _ & ?)]; [|done]. unfold u_context, u_do in H1.
  destruct (uo_do log (MkDirAll dest)) as [[]|] eqn:Em; [|done]. injection H1 as <-.
  apply m_bind_inv in H as [(meta & l2 & [= _ <-] & H)|(? & _ & ?)]; [|done].
  apply m_bind_inv in H as [(u & l3 & H3 & H)|(? & _ & ?)]; [|done].
  assert (l3 = log ++ [made dest]) as ->.
  { destruct meta as [m| |]; [|done..]. apply m_lift_inv in H3 as [_ ->]. by unfold made. }
  apply m_bind_inv in H as [(names & l4 & H4 & H)|(? & _ & ?)]; [|done].
  unfold list_members in H4. rewrite (surjective_pairing (list_argv archive)) in H4.
  apply m_bind_inv in H4 as [(a & l5 & H5 & H4)|(? & _ & ?)]; [|done]. unfold u_run in H5. injection H5 as Ha <-.
  destruct a as [[[] stdout]|]; try done. injection H4 as <- <-. rewrite Ha in H.
  apply m_bind_inv in H as [(ms & l6 & H6 & H)|(? & _ & ?)]; [|done]. apply m_lift_inv in H6 as [Hv ->].
  apply m_bind_inv in H as [([] & l7 & H7 & H)|(? & _ & ?)]; [|done]. unfold u_read in H7. injection H7 as Ho <-.
  injection H as <- <-. exists stdout. rewrite <-app_assoc in *. split; [done|]. by apply safe_listing_intro.
Qed.

Lemma unpack_or_clean archive dest members log r log' :
  is_absolute dest = true → Forall (Forall plain_part) members →
  u_or_undo (remove_validated dest members) (unpack archive dest members) log = (r, log') →
  ∃ a rest, log' = log ++ unpacked archive dest a :: rest ∧ Forall (removal_inside dest) rest
    ∧ (r = Ok tt → rest = [] ∧ (∃ text, a = Some (0, text)) ∧ validate_extracted log' dest 0 members = Ok tt).
Proof.
  intros Hd Hm H. pose (a := uo_run log (extract_argv archive dest) 600). exists a. unfold unpacked.
  destruct (remove_validated_inside dest members Hd Hm (log ++ [URan (extract_argv archive dest) 600 a])) as (ev & Hev & HF).
  rewrite <-app_assoc in Hev. unfold u_or_undo, unpack, m_bind at 1, u_run in H. fold a in H. cbv zeta in H.
  assert (∀ e, (r, log') = (Err e, snd (remove_validated dest members (log ++ [URan (extract_argv archive dest) 600 a]))) →
    ∃ rest, log' = log ++ URan (extract_argv archive dest) 600 a :: rest ∧ Forall (removal_inside dest) rest
    ∧ (r = Ok tt → rest = [] ∧ (∃ text, a = Some (0, text)) ∧ validate_extracted log' dest 0 members = Ok tt)) as Hfail.
  { intros e [= -> ->]. exists ev. by split_and!. }
  destruct a as [[[|code|code] text]|]; [|by eapply Hfail, eq_sym, H..].
  unfold m_bind, m_ret, validate_extracted_members, u_read in H. destruct (validate_extracted _ dest 0 members) as [[]|e] eqn:Ev.
  - injection H as <- <-. exists []. eauto 6.
  - by eapply Hfail, eq_sym, H.
Qed.

Lemma safe_listing_plain log dest names members : safe_listing log dest names members → Forall (Forall plain_part) members.
Proof.
  intros (_ & H2 & _). apply Forall_forall. intros parts Hin. apply list_elem_of_lookup in Hin as (i & Hi).
  eapply Forall2_lookup_r in H2 as (name & _ & _ & _ & Hp); [|exact Hi]. done.
Qed.

(** The events of an extraction, whether or not the destination is absolute *)
Lemma remove_parents_emits (P : UEvent → Prop) fuel dest parent :
  (∀ p r, P (UDid (RemoveDir p) r)) → emits P (remove_parents fuel dest parent).
Proof.
  intros HE. revert parent. induction fuel as [|fuel IH]; intros [path|]; cbn [remove_parents]; try apply emits_ret.
  destruct (_ || _); [apply emits_ret|]. intros log. destruct (uo_do log (RemoveDir path)) as [u|e].
  - destruct (IH (parent_dir path) (log ++ [UDid (RemoveDir path) (Ok u)])) as (ev & Hev & HF).
    exists (UDid (RemoveDir path) (Ok u) :: ev). rewrite Hev, <-app_assoc. auto.
  - exists [UDid (RemoveDir path) (Err e)]. auto.
Qed.

Definition is_removal (e : UEvent) : bool :=
  match e with UDid (RemoveFile _) _ | UDid (RemoveDir _) _ | UDid (RemoveTree _) _ => true | _ => false end.

Lemma remove_validated_emits dest members :
  Forall (Forall plain_part) members →
  emits (λ e, is_removal e = true ∧ (is_absolute dest = true → removal_inside dest e)) (remove_validated dest members).
Proof.
  intros Hm. destruct (is_absolute dest) eqn:Hd.
  { eapply emits_mono; [|by apply remove_validated_inside]. intros e He. split; [by destruct e as [|[]]|done]. }
  apply emits_bind; [|intros _]; apply emits_for_each; intros x _.
  - unfold remove_member. destruct (same_path _ _); [apply emits_ret|]. apply emits_bind; [apply emits_ask|]. intros b.
    apply emits_try. intros ?. by destruct b.
  - apply remove_parents_emits. by intros.
Qed.

Lemma extraction_emits (P : UEvent → Prop) archive dest :
  (∀ r, P (UDid (MkDirAll dest) r)) →
  (∀ argv t a, argv = fst (list_argv archive) ∨ argv = extract_argv archive dest → P (URan argv t a)) →
  (∀ e, is_removal e = true → (is_absolute dest = true → removal_inside dest e) → P e) →
  emits P (extract_archive archive dest).
Proof.
  intros Hm Hr Hrem log. unfold extract_archive, m_bind.
  destruct (prepare_emits archive dest log) as (ev & Hev & HF).
  assert (Forall P ev) as HP.
  { eapply Forall_impl; [exact HF|]. intros [argv t a|[] res] [He _]; cbn in He; try done; try (by apply Hrem; [|intros _]); subst; auto. }
  destruct (prepare_extraction archive dest log) as [[members|e] l] eqn:E; cbn [snd] in Hev; subst l; [|by exists ev].
  pose proof E as (stdout & _ & Hsafe%safe_listing_plain)%prepare_Ok.
  assert (emits P (u_or_undo (remove_validated dest members) (unpack archive dest members))) as Hu.
  { apply emits_or_undo.
    - eapply emits_mono; [|by apply remove_validated_emits]. intros x [? ?]. by apply Hrem.
    - unfold unpack, validate_extracted_members. apply emits_bind; [apply emits_run; intros a; apply Hr; by right|].
      intros [[[] ?]|]; try apply emits_fail. apply emits_bind; [apply emits_ret|intros; apply emits_read]. }
  destruct (Hu (log ++ ev)) as (ev' & -> & HF'). exists (ev ++ ev'). by rewrite app_assoc, Forall_app.
Qed.

Lemma extract_archive_Ok archive dest log log' :
  extract_archive archive dest log = (Ok tt, log') →
  ∃ stdout text members, log' = log ++ [made dest; listed archive stdout; unpacked archive dest (Some (0, text))]
    ∧ safe_listing (log ++ [made dest; listed archive stdout]) dest (lines stdout) members
    ∧ validate_extracted log' dest 0 members = Ok tt.
Proof.
  unfold extract_archive. intros H. apply m_bind_inv in H as [(members & l1 & H1 & H)|(e & _ & ?)]; [|done].
  apply prepare_Ok in H1 as (stdout & -> & Hsafe). unfold u_or_undo, unpack, m_bind at 1, u_run in H.
  exists stdout. destruct (uo_run _ (extract_argv archive dest) 600) as [[[] text]|]; try done.
  unfold m_bind, m_ret, validate_extracted_members, u_read in H. cbv zeta in H.
  destruct (validate_extracted _ dest 0 members) as [[]|e] eqn:Ev; [|done]. injection H as <-.
  exists text, members. split; [by rewrite <-app_assoc|]. done.
Qed.

(** C18: what [extract_archive] asks of the machine, whatever the tools and the file
    system answer.  Every event is the creation of the destination, the listing, the
    one unpacking command or the removal of a path whose components are those of the
    destination and more, none of them a way up.  The command runs only on a
    listing of at most 100,000 relative names without a way up, no two for one output,
    none of whose outputs is there yet and none of which leads through anything but a
    real directory; nothing but such removals follows it; and when the
    function returns [Ok], the command was the last thing it did, every output is
    a regular file or a directory, and the files hold at most 16 GiB.  What the tool
    itself writes, and what a removal does behind a link that the tool left, is
    outside of this: see [cleanup_behind_link]. *)
Theorem extraction_contained archive dest log r log' :
  is_absolute dest = true → extract_archive archive dest log = (r, log') →
  ∃ events, log' = log ++ events
    ∧ Forall (extraction_event archive dest) events
    ∧ (∀ a, unpacked archive dest a ∈ events → ∃ stdout members rest,
         events = [made dest; listed archive stdout; unpacked archive dest a] ++ rest
         ∧ Forall (removal_inside dest) rest
         ∧ safe_listing (log ++ [made dest; listed archive stdout]) dest (lines stdout) members
         ∧ (r = Ok tt → rest = [] ∧ Forall (λ p, is_output log' p = true) (outputs dest members)
                        ∧ total_bytes log' (outputs dest members) <= MAX_ARCHIVE_BYTES))
    ∧ (r = Ok tt → ∃ text, unpacked archive dest (Some (0, text)) ∈ events).
Proof.
  intros Hd H. unfold extract_archive in H. apply m_bind_inv in H as [(members & l1 & H1 & H)|(e & H1 & ->)].
  - apply prepare_Ok in H1 as (stdout & -> & Hsafe).
    apply unpack_or_clean in H as (a & rest & -> & Hrest & Hok); [|done|by eapply safe_listing_plain].
    exists ([made dest; listed archive stdout; unpacked archive dest a] ++ rest). rewrite <-app_assoc. split; [done|]. split_and!.
    + repeat (constructor; [cbn; auto|]). eapply Forall_impl; [exact Hrest|]. by intros [|[]].
    + intros a' Ha'. exists stdout, members, rest. assert (a' = a) as ->.
      { cbn in Ha'. rewrite !elem_of_cons in Ha'. destruct Ha' as [|[Hl|[[= ->]|Hin]]]; [done| |done|].
        - unfold unpacked, listed in Hl. injection Hl as Hl _ _. by destruct (list_argv_other archive dest).
        - rewrite Forall_forall in Hrest. by destruct (Hrest _ Hin). }
      split_and!; [done|done|done|]. intros (-> & _ & Hv)%Hok. split; [done|].
      apply validate_extracted_spec in Hv; [|done]. rewrite <-app_assoc in Hv. done.
    + intros (-> & (text & ->) & _)%Hok. exists text. set_solver.
  - destruct (prepare_emits archive dest log) as (ev & Hev & HF). rewrite H1 in Hev. cbn in Hev. subst log'.
    exists ev. rewrite Forall_forall in HF. split_and!; [done| | |done].
    + apply Forall_forall. intros x Hx. by apply HF.
    + intros a Ha. by destruct (proj2 (HF _ Ha) a).
Qed.

End machine.

(** Goes through a program, event by event. *)
Create HintDb emits.
Ltac emits_step :=
  match goal with
  | |- emits _ (m_bind _ _) => apply emits_bind; [|intros ?]
  | |- emits _ (m_ret _) => apply emits_ret
  | |- emits _ (m_lift _) => apply emits_lift
  | |- emits _ (u_fail _) => apply emits_fail
  | |- emits _ (u_guard _ _) => apply emits_guard
  | |- emits _ (u_ask _) => apply emits_ask
  | |- emits _ (u_read _) => apply emits_read
  | |- emits _ (u_context _ _) => apply emits_context
  | |- emits _ (u_or_undo _ _) => apply emits_or_undo
  | |- emits _ (for_each _ _) => apply emits_for_each; intros ? ?
  | |- emits _ (u_run _ _) => apply emits_run; intros ?; try reflexivity
  | |- emits _ (u_do _) => apply emits_do; intros ?; try reflexivity
  | |- emits _ (u_try _) => apply emits_try; intros ?; try reflexivity
  | |- emits _ (match ?x with _ => _ end) => destruct x
  end.
Ltac emits_auto := repeat emits_step; auto with emits.


(** * A machine that unpacks an archive *)

Definition a_file (len : Z) : Lstat := LFound {| mt_kind := KFile; mt_len := len; mt_mtime := 0 |}.
Definition a_dir : Lstat := LFound {| mt_kind := KDir; mt_len := 0; mt_mtime := 0 |}.
Definition ran (program option : string) (log : ULog) : bool :=
  existsb (λ e, match e with URan (p :: o :: _) _ _ => String.eqb p program && String.eqb o option | _ => false end) log.

Definition small_archive (listing : string) : UpdaterOs := {|
  uo_run _ argv _ := Some (0, if str_in "-tf" argv then listing else EmptyString);
  uo_do _ _ := Ok tt;
  uo_lstat log p :=
    if String.eqb p "/var/lib/tool" then a_dir
    else if ran "tar" "-xf" log then if ends_with "readme" p then a_file 12 else a_dir
    else LMissing "not found";
  uo_stat _ _ := LMissing "not found";
  uo_size _ _ := Ok 0;
  uo_read _ _ := Ok EmptyString;
  uo_list _ _ := Ok [];
  uo_temp _ d := join_path d "staged";
  uo_tmp := "/tmp";
  uo_nonce := "1f";
  uo_env _ := None;
|}.

Definition tool_listing : string := unlines ["tool-1/"; "tool-1/readme"].

Lemma extraction_contained_witness :
  is_absolute "/var/lib/tool" = true
  ∧ ∃ events text, snd (extract_archive (HO := small_archive tool_listing) "/tmp/w/tool.tar.gz" "/var/lib/tool" []) = [] ++ events
      ∧ unpacked "/tmp/w/tool.tar.gz" "/var/lib/tool" (Some (0, text)) ∈ events.
Proof.
  split; [reflexivity|].
  destruct (extraction_contained (HO := small_archive tool_listing) "/tmp/w/tool.tar.gz" "/var/lib/tool" []
    (Ok tt) (snd (extract_archive (HO := small_archive tool_listing) "/tmp/w/tool.tar.gz" "/var/lib/tool" [])))
    as (events & He & _ & _ & Hok); [reflexivity|vm_compute; reflexivity|].
  destruct (Hok eq_refl) as (text & Ht). exists events, text. split; [exact He | exact Ht].
Defined.

(** A name that leads up is refused before anything is unpacked. *)
Example traversal_refused :
  extract_archive (HO := small_archive (unlines ["tool-1/"; "tool-1/../../etc/passwd"])) "/tmp/w/tool.tar.gz" "/var/lib/tool" []
  = (Err "Directory traversal attempt detected: tool-1/../../etc/passwd",
     [UDid (MkDirAll "/var/lib/tool") (Ok tt);
      URan ["tar"; "-tf"; "/tmp/w/tool.tar.gz"] 120 (Some (0, unlines ["tool-1/"; "tool-1/../../etc/passwd"]))]).
Proof. by vm_compute. Qed.

(** An archive with a link and a member behind it: the listing is safe, the
    unpacked link is refused, and the clean-up then removes the member by its
    name, behind the link. *)
Definition link_archive : UpdaterOs := {|
  uo_run _ argv _ := Some (0, if str_in "-tf" argv then unlines ["etc"; "etc/passwd"] else EmptyString);
  uo_do _ _ := Ok tt;
  uo_lstat log p :=
    if String.eqb p "/var/lib/tool" then a_dir
    else if ran "tar" "-xf" log then LFound {| mt_kind := if ends_with "passwd" p then KFile else KLink; mt_len := 12; mt_mtime := 0 |}
    else LMissing "not found";
  uo_stat _ _ := LMissing "not found";
  uo_size _ _ := Ok 0;
  uo_read _ _ := Ok EmptyString;
  uo_list _ _ := Ok [];
  uo_temp _ d := join_path d "staged";
  uo_tmp := "/tmp";
  uo_nonce := "1f";
  uo_env _ := None;
|}.
Example cleanup_behind_link :
  let '(r, log) := extract_archive (HO := link_archive) "/tmp/w/tool.tar.gz" "/var/lib/tool" [] in
  is_ok r = false ∧ is_link (uo_lstat (UpdaterOs := link_archive) log "/var/lib/tool/etc") = true
  ∧ existsb (λ e, match e with UDid (RemoveFile p) _ => String.eqb p "/var/lib/tool/etc/passwd" | _ => false end) log = true.
Proof. by vm_compute. Qed.

(** A name that is listed twice, once with a final slash, is one output. *)
Example duplicate_refused :
  validate_members ["a/b"; "./a//b/"] = Err "Duplicate archive member: ./a//b/".
Proof. by vm_compute. Qed.

(** Behind the required prefix comes the host, so the test for an at sign after
    the scheme refuses nothing. *)
Lemma at_sign_check_idle url : starts_with "https://github.com/" url = true → starts_with "@" (sdrop 8 url) = false.
Proof.
  unfold starts_with. intros H. destruct (strip_prefix "https://github.com/" url) as [rest|] eqn:E; [|done].
  apply strip_prefix_Some in E as ->. reflexivity.
Qed.

Example patterns_matched :
  matches_web_app_name "GE-Proton10-5-x86_64" "GE-Proton*" = true
  ∧ matches_web_app_name "proton-cachyos-a" "GE-Proton*" = false
  ∧ matches_web_app_name "com.brave.Browser.flextop.x.desktop" "com.brave.Browser.flextop.*.desktop" = true.
Proof. by vm_compute. Qed.
