(* ===== verification/UpdateManifest.v ===== *)
(** The KythOS-signed update manifest: [system/update_manifest.rs].

    OpenPGP is a parameter: certificates, signatures and their checks are rPGP's.
    So is serde's reading of the manifest's text, [ManifestCodec]. *)

From S2P Require Import Prelude RustStr RustOs Json FileSystem Stream DaemonHttp RustRegex Redact ReleaseFetch.

Definition COMPONENT_RCLONE : string := "rclone".
Definition COMPONENT_GE_PROTON : string := "ge-proton".
Definition MANIFEST_FILENAME : string := "kyth-updater-manifest.json".
Definition KEYS_FILENAME : string := "kyth-updater-keys.asc".
Definition DEFAULT_KEYRING_PATH : string := "/usr/share/kyth/updater-signing-keys.asc".
Definition KEYRING_PATH_ENV : string := "KYTH_UPDATER_KEYRING_PATH".
Definition MANIFEST_URL_ENV : string := "KYTH_UPDATER_MANIFEST_URL".
Definition SIGNATURE_URL_ENV : string := "KYTH_UPDATER_MANIFEST_SIGNATURE_URL".
Definition KEYS_URL_ENV : string := "KYTH_UPDATER_KEYS_URL".
Definition SUPPORTED_MANIFEST_SCHEMA : Z := 1.
Definition PUBLIC_ASSET_BASE_URL : string := "https://pub-9a3cc72972ea44c4ae7504ee7cda1fa6.r2.dev".

(** What the code uses of rPGP.  [pgp_armored] and [pgp_binary] are the
    certificates of one armored block and of a binary keyring, without the
    entries that do not parse; [None] when the reader does not start. *)
Class Pgp := {
  Certificate : Type;
  Subkey : Type;
  DetachedSignature : Type;
  pgp_armored : string → option (list Certificate);
  pgp_binary : string → option (list Certificate);
  fingerprint : Certificate → string;
  verify_bindings : Certificate → bool;
  public_subkeys : Certificate → list Subkey;
  signature_armored : string → result DetachedSignature;
  signature_binary : string → result DetachedSignature;
  verify_primary : DetachedSignature → Certificate → string → bool;
  verify_subkey : DetachedSignature → Subkey → string → bool;
}.

(** What serde makes of the manifest's bytes before it looks for the fields; a
    field that is given twice is an error. *)
Class ManifestCodec := { manifest_document : string → result json }.

(** * The manifest *)

Record ApprovedUpdate := {
  au_component : string; au_version : string; au_artifact : string;
  au_sha256 : option string; au_sha512 : option string;
}.
Record UpdateManifest := { um_schema : Z; um_issued : string; um_updates : list ApprovedUpdate }.

Definition entry_text (e : ApprovedUpdate) : string :=
  au_component e +:+ " " +:+ au_version e +:+ " (" +:+ au_artifact e +:+ ")".

Definition digest_named (algorithm : string) (e : ApprovedUpdate) : result (option string) :=
  if String.eqb algorithm "sha256" then Ok (au_sha256 e)
  else if String.eqb algorithm "sha512" then Ok (au_sha512 e)
  else Err ("unsupported digest algorithm for manifest check: " +:+ algorithm).

Definition expected_digest (algorithm : string) (e : ApprovedUpdate) : result string :=
  let? raw := digest_named algorithm e in
  let? digest := ok_or (nonempty (trim <$> raw))
    ("signed updater manifest entry for " +:+ entry_text e +:+ " has no " +:+ algorithm +:+ " digest") in
  let expected_len := if String.eqb algorithm "sha256" then 64%nat else 128%nat in
  guard! negb (String.length digest =? expected_len)%nat || negb (str_all is_ascii_hexdigit digest)
    else ("signed updater manifest entry for " +:+ entry_text e +:+ " has a malformed " +:+ algorithm +:+ " digest");
  Ok (to_ascii_lowercase digest).

(** A derived [Deserialize] reads a struct from an object, by name, or from an
    array, by position; an array longer than the struct is an error.  The error
    texts are serde's, shortened. *)
Definition struct_field (i : nat) (key : string) (v : json) : option json :=
  match v with JObject m => m !! key | JArray l => l !! i | _ => None end.
Definition is_struct (fields : nat) (v : json) : bool :=
  match v with JObject _ => true | JArray l => (length l <=? fields)%nat | _ => false end.

Definition serde_string (v : json) : result string := ok_or (as_str v) "invalid type: expected a string".
Definition serde_option_string (v : option json) : result (option string) :=
  match v with None | Some JNull => Ok None | Some v => rmap Some (serde_string v) end.
Definition required {A} (f : json → result A) (i : nat) (key : string) (v : json) : result A :=
  let? x := ok_or (struct_field i key v) ("missing field `" +:+ key +:+ "`") in f x.
Definition serde_u32 (v : json) : result Z :=
  match v with JNumber n => if (0 <=? n) && (n <=? 2 ^ 32 - 1) then Ok n else Err "invalid value: expected u32" | _ => Err "invalid type: expected u32" end.
Definition serde_list {A} (f : json → result A) (v : json) : result (list A) :=
  let? l := ok_or (as_array v) "invalid type: expected a sequence" in rmap_list f l.

Definition approved_update (v : json) : result ApprovedUpdate :=
  guard! negb (is_struct 5 v) else "invalid type: expected struct ApprovedUpdate";
  let? component := required serde_string 0 "component" v in
  let? version := required serde_string 1 "version" v in
  let? artifact := required serde_string 2 "artifact" v in
  let? sha256 := serde_option_string (struct_field 3 "sha256" v) in
  let? sha512 := serde_option_string (struct_field 4 "sha512" v) in
  Ok {| au_component := component; au_version := version; au_artifact := artifact; au_sha256 := sha256; au_sha512 := sha512 |}.
Definition update_manifest (v : json) : result UpdateManifest :=
  guard! negb (is_struct 3 v) else "invalid type: expected struct UpdateManifest";
  let? schema := required serde_u32 0 "schema" v in
  let? issued := match struct_field 1 "issued" v with None => Ok EmptyString | Some v => serde_string v end in
  let? updates := required (serde_list approved_update) 2 "updates" v in
  Ok {| um_schema := schema; um_issued := issued; um_updates := updates |}.

Section manifest.
Context {HO : UpdaterOs} {HS : Sha} {HP : Pgp} {HM : ManifestCodec}.

Definition parse_manifest (text : string) : result UpdateManifest :=
  let? m := map_err (λ e, "signed updater manifest is not valid JSON: " +:+ e)
    (let? document := manifest_document text in update_manifest document) in
  guard! negb (um_schema m =? SUPPORTED_MANIFEST_SCHEMA)
    else ("signed updater manifest schema " +:+ show_int (um_schema m) +:+ " is not supported by this build (expected "
          +:+ show_int SUPPORTED_MANIFEST_SCHEMA +:+ ")");
  Ok m.

Definition approves (component version artifact : string) (e : ApprovedUpdate) : bool :=
  String.eqb (au_component e) component && String.eqb (au_version e) version && String.eqb (au_artifact e) artifact.

Definition find_update (component version artifact : string) (m : UpdateManifest) : result ApprovedUpdate :=
  let what := component +:+ " " +:+ version +:+ " (" +:+ artifact +:+ ")" in
  match filterb (approves component version artifact) (um_updates m) with
  | [entry] => Ok entry
  | [] => Err ("signed updater manifest does not approve " +:+ what)
  | _ :: _ :: _ => Err ("signed updater manifest approves " +:+ what +:+ " more than once")
  end.

(** * Certificates and signatures *)

Definition PGP_MARK : string := "-----BEGIN PGP".
Definition KEY_BEGIN : string := "-----BEGIN PGP PUBLIC KEY BLOCK-----".

(** [text.split(pattern)]; every piece is shorter than the text, so its length is
    fuel enough. *)
Fixpoint split_str (fuel : nat) (pattern text : string) : list string :=
  match fuel, position_of pattern text with
  | S fuel, Some n => stake n text :: split_str fuel pattern (sdrop (n + String.length pattern) text)
  | _, _ => [text]
  end.

Definition parse_armored_certs (text : string) : list Certificate :=
  flat_map (λ piece, unwrap_or (pgp_armored (KEY_BEGIN +:+ piece)) [])
    (tail (split_str (S (String.length text)) KEY_BEGIN text)).

Definition parse_certs (data : string) : list Certificate :=
  if is_empty data then []
  else
    let text := from_utf8_lossy data in
    if contains_str PGP_MARK text then parse_armored_certs text else unwrap_or (pgp_binary data) [].

Definition trusted_certs (anchors fetched : list Certificate) : list Certificate :=
  filterb (λ cert, existsb (λ anchor, String.eqb (fingerprint anchor) (fingerprint cert)) anchors) fetched.

Definition parse_signature (data : string) : result DetachedSignature :=
  map_err (λ e, "updater manifest signature is unparseable: " +:+ e)
    (if contains_str PGP_MARK (from_utf8_lossy data) then signature_armored data else signature_binary data).

Definition verifies_under (cert : Certificate) (signature : DetachedSignature) (data : string) : bool :=
  verify_primary signature cert data || existsb (λ subkey, verify_subkey signature subkey data) (public_subkeys cert).

Definition no_anchor : string :=
  "no KythOS updater signing key is installed yet (the image still carries the placeholder trust anchor), so no update can be verified".

Definition verify_signed_manifest (anchor_keyring published_keys manifest_bytes signature_bytes : string) : result UpdateManifest :=
  let anchors := parse_certs anchor_keyring in
  guard! bool_decide (length anchors = 0%nat) else no_anchor;
  let trusted := trusted_certs anchors (parse_certs published_keys) in
  guard! bool_decide (length trusted = 0%nat)
    else "the published updater key file contains no certificate for the KythOS updater signing key trusted by this image";
  let? signature := parse_signature signature_bytes in
  guard! negb (existsb (λ cert, verify_bindings cert && verifies_under cert signature manifest_bytes) trusted)
    else "manifest signature did not validate against the trusted KythOS updater signing key";
  parse_manifest manifest_bytes.

(** * The gate *)

Definition env_or (name default : string) : string := unwrap_or (nonempty (trim <$> uo_env name)) default.
Definition default_manifest_url : string := PUBLIC_ASSET_BASE_URL +:+ "/" +:+ MANIFEST_FILENAME.
Definition default_keys_url : string := PUBLIC_ASSET_BASE_URL +:+ "/" +:+ KEYS_FILENAME.
Definition keyring_path : string := env_or KEYRING_PATH_ENV DEFAULT_KEYRING_PATH.
Definition manifest_url : string := env_or MANIFEST_URL_ENV default_manifest_url.
Definition signature_url : string := env_or SIGNATURE_URL_ENV (manifest_url +:+ ".asc").
Definition keys_url : string := env_or KEYS_URL_ENV default_keys_url.

Definition manifest_dest (work : string) : string := join_path work MANIFEST_FILENAME.
Definition signature_dest (work : string) : string := join_path work (MANIFEST_FILENAME +:+ ".asc").
Definition keys_dest (work : string) : string := join_path work KEYS_FILENAME.

Definition read_or (message path : string) : U string :=
  u_context (λ e, message +:+ e) (u_read (λ log, uo_read log path)).

Definition fetch_manifest_set (work : string) : U unit :=
  for_each (λ pair : string * string,
      u_context (λ e, "cannot fetch the signed updater manifest set: " +:+ e)
        (download_file (fst pair) (snd pair) ∅ 60 MAX_CHECKSUM_BYTES))
    [(manifest_url, manifest_dest work); (signature_url, signature_dest work); (keys_url, keys_dest work)].

Definition approve_update (work component version artifact : string) : U ApprovedUpdate :=
  do! anchor_bytes <- read_or ("cannot read the KythOS updater signing trust anchor at " +:+ keyring_path +:+ ": ") keyring_path;
  do! _ <- u_guard (bool_decide (length (parse_certs anchor_bytes) = 0%nat)) no_anchor;
  do! _ <- fetch_manifest_set work;
  do! manifest_bytes <- read_or "cannot read the downloaded updater manifest: " (manifest_dest work);
  do! signature_bytes <- read_or "cannot read the downloaded manifest signature: " (signature_dest work);
  do! published_keys <- read_or "cannot read the published updater key file: " (keys_dest work);
  do! manifest <- m_lift (verify_signed_manifest anchor_bytes published_keys manifest_bytes signature_bytes);
  m_lift (find_update component version artifact manifest).

Definition verify_artifact (log : ULog) (entry : ApprovedUpdate) (algorithm artifact_path : string) : result unit :=
  let? expected := expected_digest algorithm entry in
  let? actual := digest_file_hex log algorithm artifact_path in
  guard! negb (String.eqb actual expected)
    else (algorithm +:+ " digest of " +:+ artifact_path +:+ " does not match the signed updater manifest: expected "
          +:+ expected +:+ ", got " +:+ actual);
  Ok tt.
Definition verify_artifact_matches (entry : ApprovedUpdate) (algorithm artifact_path : string) : U unit :=
  u_read (λ log, verify_artifact log entry algorithm artifact_path).

(** * What an approval means *)

(** [cert] may sign manifests: it is published, its primary key is one of the
    image's, and its bindings are intact. *)
Definition signing_cert (anchor_keyring published_keys : string) (cert : Certificate) : Prop :=
  cert ∈ parse_certs published_keys ∧ verify_bindings cert = true
  ∧ ∃ anchor, anchor ∈ parse_certs anchor_keyring ∧ fingerprint anchor = fingerprint cert.

(** [signature] is one over exactly [data] by the primary key of [cert] or by a
    subkey of it. *)
Definition signed_by (cert : Certificate) (signature : DetachedSignature) (data : string) : Prop :=
  verify_primary signature cert data = true
  ∨ ∃ subkey, subkey ∈ public_subkeys cert ∧ verify_subkey signature subkey data = true.

Lemma existsb_elem {A} (f : A → bool) l : existsb f l = true ↔ ∃ x, x ∈ l ∧ f x = true.
Proof. rewrite existsb_exists. split; intros (x & Hx & ?); exists x; [rewrite list_elem_of_In|rewrite <-list_elem_of_In]; auto. Qed.

Lemma verifies_under_spec cert signature data : verifies_under cert signature data = true ↔ signed_by cert signature data.
Proof. unfold verifies_under, signed_by. by rewrite orb_true_iff, existsb_elem. Qed.

Lemma trusted_certs_spec anchors fetched cert :
  cert ∈ trusted_certs anchors fetched ↔ cert ∈ fetched ∧ ∃ a, a ∈ anchors ∧ fingerprint a = fingerprint cert.
Proof. unfold trusted_certs. rewrite elem_of_filterb, existsb_elem. setoid_rewrite String.eqb_eq. done. Qed.

(** A manifest whose bytes such a certificate has signed *)
Definition authentic (anchor_keyring published_keys manifest_bytes signature_bytes : string) (m : UpdateManifest) : Prop :=
  (∃ cert signature, signing_cert anchor_keyring published_keys cert
     ∧ parse_signature signature_bytes = Ok signature ∧ signed_by cert signature manifest_bytes)
  ∧ parse_manifest manifest_bytes = Ok m ∧ um_schema m = SUPPORTED_MANIFEST_SCHEMA.

Lemma verify_signed_manifest_Ok anchor_keyring published_keys manifest_bytes signature_bytes m :
  verify_signed_manifest anchor_keyring published_keys manifest_bytes signature_bytes = Ok m →
  authentic anchor_keyring published_keys manifest_bytes signature_bytes m.
Proof.
  unfold verify_signed_manifest, signing_cert. intros H.
  guard_inv H as Ha. guard_inv H as Ht. apply rbind_Ok in H as (signature & Hs & H). guard_inv H as Hv.
  apply negb_false_iff, existsb_elem in Hv as (cert & (Hf & Hfp)%trusted_certs_spec & [Hb Hu%verifies_under_spec]%andb_true_iff).
  split; [by eexists cert, signature|]. split; [done|]. unfold parse_manifest in H.
  apply rbind_Ok in H as (m' & _ & H). guard_inv H as Hm. injection H as <-. lia.
Qed.

(** C17: [verify_signed_manifest] returns a manifest exactly when the signature
    file holds a signature over the manifest's very bytes that validates under the
    primary key, or a subkey, of a published certificate whose bindings are intact
    and whose primary fingerprint is that of a certificate in the image's keyring,
    and the bytes are a manifest of the supported schema; what it returns is that
    manifest. *)
Theorem manifest_accepted_iff anchor_keyring published_keys manifest_bytes signature_bytes m :
  verify_signed_manifest anchor_keyring published_keys manifest_bytes signature_bytes = Ok m
  ↔ authentic anchor_keyring published_keys manifest_bytes signature_bytes m.
Proof.
  split; [apply verify_signed_manifest_Ok|]. unfold verify_signed_manifest, authentic, signing_cert.
  intros ((cert & signature & (Hc & Hb & Hfp) & Hs & Hu) & Hm & _).
  assert (cert ∈ trusted_certs (parse_certs anchor_keyring) (parse_certs published_keys)) as Hin
    by (by apply trusted_certs_spec).
  rewrite !bool_decide_eq_false_2.
  - rewrite Hs. cbn [rbind]. rewrite (proj2 (existsb_elem _ _)); [done|]. exists cert. split; [done|].
    rewrite Hb. by apply verifies_under_spec.
  - destruct (trusted_certs _ _); [by apply elem_of_nil in Hin|done].
  - destruct Hfp as (a & Hain & _). destruct (parse_certs anchor_keyring); [by apply elem_of_nil in Hain|done].
Qed.

(** The approval of one artifact: the keyring as it was before the downloads,
    the manifest set as it was after them, and the one entry for the artifact. *)
Definition approval (work component version artifact : string) (before after : ULog) (entry : ApprovedUpdate) : Prop :=
  ∃ anchor_keyring published_keys manifest_bytes signature_bytes m,
    uo_read before keyring_path = Ok anchor_keyring ∧ uo_read after (keys_dest work) = Ok published_keys
    ∧ uo_read after (manifest_dest work) = Ok manifest_bytes ∧ uo_read after (signature_dest work) = Ok signature_bytes
    ∧ authentic anchor_keyring published_keys manifest_bytes signature_bytes m
    ∧ entry ∈ um_updates m ∧ au_component entry = component ∧ au_version entry = version ∧ au_artifact entry = artifact
    ∧ filterb (approves component version artifact) (um_updates m) = [entry].

Lemma read_or_inv message path log r log' :
  read_or message path log = (r, log') → log' = log ∧ ∀ t, r = Ok t → uo_read log path = Ok t.
Proof.
  unfold read_or, u_context, u_read. intros [= <- <-]. split; [done|]. intros t Ht. by apply map_err_Ok in Ht.
Qed.

Lemma find_update_Ok component version artifact m entry :
  find_update component version artifact m = Ok entry →
  entry ∈ um_updates m ∧ au_component entry = component ∧ au_version entry = version ∧ au_artifact entry = artifact
  ∧ filterb (approves component version artifact) (um_updates m) = [entry].
Proof.
  unfold find_update. destruct (filterb _ _) as [|e [|e' l]] eqn:Ef; try done. intros [= <-].
  assert (e ∈ filterb (approves component version artifact) (um_updates m)) as Hin by (rewrite Ef; set_solver).
  apply elem_of_filterb in Hin as [Hin Ha]. unfold approves in Ha.
  apply andb_true_iff in Ha as [[?%String.eqb_eq ?%String.eqb_eq]%andb_true_iff ?%String.eqb_eq]. auto.
Qed.

Lemma approve_update_Ok work component version artifact log entry log' :
  approve_update work component version artifact log = (Ok entry, log') →
  approval work component version artifact log log' entry.
Proof.
  unfold approve_update. intros H.
  apply m_bind_inv in H as [(anchor & l1 & [-> Ha]%read_or_inv & H)|(? & _ & ?)]; [|done].
  apply m_bind_inv in H as [(u & l2 & [_ ->]%m_lift_inv & H)|(? & _ & ?)]; [|done].
  apply m_bind_inv in H as [(u' & l3 & _ & H)|(? & _ & ?)]; [|done].
  apply m_bind_inv in H as [(mb & l4 & [-> Hm]%read_or_inv & H)|(? & _ & ?)]; [|done].
  apply m_bind_inv in H as [(sb & l5 & [-> Hs]%read_or_inv & H)|(? & _ & ?)]; [|done].
  apply m_bind_inv in H as [(kb & l6 & [-> Hk]%read_or_inv & H)|(? & _ & ?)]; [|done].
  apply m_bind_inv in H as [(m & l7 & [Hv ->]%m_lift_inv & H)|(? & _ & ?)]; [|done].
  apply m_lift_inv in H as [Hf ->]. apply verify_signed_manifest_Ok in Hv. apply find_update_Ok in Hf.
  exists anchor, kb, mb, sb, m. auto 12.
Qed.

(** The artifact's digest is the one the entry names. *)
Definition pinned (log : ULog) (entry : ApprovedUpdate) (algorithm artifact_path : string) : Prop :=
  ∃ contents digest, uo_read log artifact_path = Ok contents
    ∧ digest_named algorithm entry = Ok (Some digest)
    ∧ to_ascii_lowercase (trim digest) = hex_digest algorithm contents.

Lemma verify_artifact_Ok log entry algorithm path :
  verify_artifact log entry algorithm path = Ok tt → pinned log entry algorithm path.
Proof.
  unfold verify_artifact. intros H. apply rbind_Ok in H as (expected & He & H). apply rbind_Ok in H as (actual & Ha & H).
  guard_inv H as Heq. apply negb_false_iff, String.eqb_eq in Heq. subst actual.
  unfold expected_digest in He. apply rbind_Ok in He as (raw & Hr & He). apply rbind_Ok in He as (d & Hd%ok_or_Ok & He).
  guard_inv He as Hlen. injection He as <-. destruct raw as [digest|]; [|done]. cbn in Hd. destruct (is_empty (trim digest)); [done|].
  injection Hd as <-. unfold digest_file_hex in Ha. apply rbind_Ok in Ha as ([] & _ & Ha). apply rbind_Ok in Ha as (m & _ & Ha).
  guard_inv Ha as Hk. apply map_err_Ok in Ha. unfold digest_file in Ha. apply rmap_Ok in Ha as (contents & Hc & Heq).
  by exists contents, digest.
Qed.

End manifest.
