(* ===== verification/Updaters.v ===== *)
(** The runtime updaters: [rclone_update_bin.rs] and [proton_cachyos_update_bin.rs].

    A launcher that fails prints a message and exits with 1; here it returns
    [Err] with the message.  What it prints on the way is left out. *)

From S2P Require Import Prelude RustStr RustOs Json FileSystem Stream DaemonHttp RustRegex Redact ReleaseFetch UpdateManifest.

Definition digits : re := re_plus (RClass is_ascii_digit).

Section updaters.
Context {HO : UpdaterOs} {HS : Sha} {HP : Pgp} {HM : ManifestCodec} {HJ : JsonCodec}.

(** A work directory is removed when the launcher returns, by [Drop], and when it
    fails, by [fail]. *)
Definition in_workdir {A} (work : string) (c : U A) : U A := λ log,
  let '(r, log) := c log in (r, snd (u_try (RemoveTree work) log)).

(** The result of [c] is only reported. *)
Definition u_ignore {A} (c : U A) : U unit := λ log, (Ok tt, snd (c log)).

Definition latest_headers : U Headers :=
  do! secret <- read_secret_file "/run/secrets/github_token";
  m_ret (github_headers secret (uo_env "GITHUB_TOKEN")).

Definition tag_name (release : json) : string := unwrap_or (field as_str "tag_name" release) EmptyString.

(** [for (url, dest, limit) in downloads] *)
Definition download_all (message : string) (headers : Headers) (downloads : list (string * string * Z)) : U unit :=
  for_each (λ d : string * string * Z,
      u_context (λ e, message +:+ e) (download_file (fst (fst d)) (snd (fst d)) headers 120 (snd d))) downloads.

(** * rclone *)

Definition RCLONE_REPO : string := "rclone/rclone".
Definition RCLONE_BIN : string := "/usr/local/bin/rclone".
(** [v[0-9]+\.[0-9]+\.[0-9]+] *)
Definition RCLONE_VERSION_PATTERN : re :=
  RCat (re_literal "v") (RCat digits (RCat (re_literal ".") (RCat digits (RCat (re_literal ".") digits)))).

(** [trim_start_matches('v')] *)
Fixpoint trim_v (s : string) : string := match s with String "v" r => trim_v r | _ => s end.

Definition tagged_version (stdout : string) : option string :=
  match split_whitespace <$> head (lines stdout) with
  | Some (name :: tagged :: _) =>
      if String.eqb name "rclone" && starts_with "v" tagged then Some (trim_v tagged) else None
  | _ => None
  end.
Definition installed_version : U (option string) :=
  do! here <- u_ask (λ log, present_file log RCLONE_BIN);
  if negb here then m_ret None
  else
    do! answer <- u_run [RCLONE_BIN; "--version"] 30;
    m_ret (match answer with Some (_, stdout) => tagged_version stdout | None => None end).

Definition version_line_matches (first_line target : string) : bool :=
  match split_whitespace first_line !! 1%nat with Some v => String.eqb v target | None => false end.

Definition parse_rclone_version (version : string) : option (Z * Z * Z) :=
  match split_char "." version with
  | [major; minor; patch] =>
      major ← parse_u64 major; minor ← parse_u64 minor; patch ← parse_u64 patch; Some (major, minor, patch)
  | _ => None
  end.
(** [<] on tuples *)
Definition triple_lt (a b : Z * Z * Z) : bool :=
  let '(a1, a2, a3) := a in let '(b1, b2, b3) := b in
  (a1 <? b1) || ((a1 =? b1) && ((a2 <? b2) || ((a2 =? b2) && (a3 <? b3)))).
Definition is_downgrade (installed target : string) : option bool :=
  installed ← parse_rclone_version installed; target ← parse_rclone_version target; Some (triple_lt target installed).

Definition resolve_rclone : U string :=
  let pinned_version := unwrap_or (uo_env "RCLONE_VERSION") EmptyString in
  do! ver <- if negb (is_empty pinned_version) then m_ret pinned_version
             else
               do! headers <- latest_headers;
               do! release <- u_context (λ e, "ERROR: Could not determine latest rclone release tag: " +:+ e)
                                (fetch_github_latest_release RCLONE_REPO headers);
               m_ret (tag_name release);
  do! _ <- u_guard (is_empty ver) "ERROR: Could not determine latest rclone release tag";
  do! _ <- u_context (λ _, "ERROR: Unexpected rclone version format: " +:+ ver)
             (m_lift (validate_version ver RCLONE_VERSION_PATTERN "rclone"));
  m_ret ver.

Definition rclone_basename (ver : string) : string := "rclone-" +:+ ver +:+ "-linux-amd64".
Definition rclone_zip (ver : string) : string := rclone_basename ver +:+ ".zip".

Definition verify_rclone (work ver : string) : U unit :=
  let zip_name := rclone_zip ver in
  let base_url := "https://downloads.rclone.org/" +:+ ver in
  let zip_dest := join_path work zip_name in
  let sums_dest := join_path work "SHA256SUMS" in
  do! approved <- u_context (λ e, "ERROR: Signed update manifest check failed: " +:+ e)
                    (approve_update work COMPONENT_RCLONE ver zip_name);
  do! _ <- download_all "ERROR: Failed to download rclone assets: " ∅
             [(base_url +:+ "/" +:+ zip_name, zip_dest, MAX_ARCHIVE_BYTES);
              (base_url +:+ "/SHA256SUMS", sums_dest, MAX_CHECKSUM_BYTES)];
  do! _ <- u_context (λ e, "ERROR: Checksum verification failed: " +:+ e) (verify_checksum_file sums_dest zip_dest "sha256");
  u_context (λ e, "ERROR: Signed update manifest digest verification failed: " +:+ e)
    (verify_artifact_matches approved "sha256" zip_dest).

Definition STAGING : string := with_extension "new" RCLONE_BIN.

Definition staged_version_check (ver : string) (answer : option (Z * string)) : result unit :=
  match answer with
  | Some (code, stdout) =>
      if (code =? 0) && match head (lines stdout) with Some line => version_line_matches line ver | None => false end
      then Ok tt
      else Err ("staged rclone version check failed (exit " +:+ show_int code +:+ ")")
  | None => Err "staged rclone could not be executed"
  end.
Definition replace_rclone (extracted ver : string) : U unit :=
  do! _ <- u_context (λ e, "copy to staging failed: " +:+ e) (u_do (CopyFile extracted STAGING));
  do! _ <- u_context (λ e, "set executable mode failed: " +:+ e) (u_do (Chmod STAGING 493));
  do! answer <- u_run [STAGING; "--version"] 30;
  do! _ <- m_lift (staged_version_check ver answer);
  do! _ <- u_context (λ e, "fsync staging failed: " +:+ e) (u_do (SyncFile STAGING));
  u_context (λ e, "atomic replace failed: " +:+ e) (u_do (RenameFile STAGING RCLONE_BIN)).

Definition installed_check (ver : string) (answer : option (Z * string)) : result unit :=
  match answer with
  | Some (code, stdout) =>
      if code =? 0 then
        let first := unwrap_or (head (lines stdout)) EmptyString in
        guard! negb (version_line_matches first ver)
          else ("ERROR: installed rclone version mismatch (expected " +:+ ver +:+ ", got " +:+ first +:+ ")");
        Ok tt
      else Err ("ERROR: installed rclone failed its version check (exit " +:+ show_int code +:+ ")")
  | None => Err "ERROR: installed rclone could not be executed"
  end.

Definition extracted_rclone (log : ULog) (work ver : string) : string :=
  let extracted := join_path (join_path work (rclone_basename ver)) "rclone" in
  if present_file log extracted then extracted else join_path work "rclone".

Definition finish_rclone (work ver : string) : U unit :=
  do! _ <- u_context (λ e, "ERROR: Extraction failed: " +:+ e) (extract_archive (join_path work (rclone_zip ver)) work);
  do! extracted <- u_ask (λ log, extracted_rclone log work ver);
  do! _ <- u_context (λ e, "ERROR: Failed to create /usr/local/bin: " +:+ e) (u_do (MkDirAll "/usr/local/bin"));
  do! _ <- u_context (λ e, "ERROR: Failed to install rclone binary to " +:+ RCLONE_BIN +:+ ": " +:+ e)
             (u_or_undo (u_try (RemoveFile STAGING)) (replace_rclone extracted ver));
  do! answer <- u_run [RCLONE_BIN; "--version"] 30;
  m_lift (installed_check ver answer).
Definition install_rclone (work ver : string) : U unit :=
  do! _ <- verify_rclone work ver;
  finish_rclone work ver.

Definition rclone_main : U unit :=
  do! ver <- resolve_rclone;
  let target := trim_v ver in
  do! installed <- installed_version;
  if match installed with Some v => String.eqb v target | None => false end then m_ret tt
  else
    do! _ <- match installed with
             | Some v => u_guard (bool_decide (is_downgrade v target = Some true))
                           ("ERROR: refusing rclone downgrade: installed v" +:+ v +:+ ", target v" +:+ target)
             | None => m_ret tt
             end;
    do! work <- u_context (λ e, "ERROR: Failed to download rclone assets: " +:+ e) (create_workdir "kyth-rclone");
    in_workdir work (install_rclone work ver).

(** * GE-Proton *)

Definition PROTON_REPO : string := "GloriousEggroll/proton-ge-custom".
(** [GE-Proton[0-9]+-[0-9]+] *)
Definition PROTON_VERSION_PATTERN : re := RCat (re_literal "GE-Proton") (RCat digits (RCat (re_literal "-") digits)).
Definition PROTON_DIR : string := "/var/lib/kyth/proton-cachyos".
Definition GAMING_VERSIONS : string := "/var/lib/kyth/gaming-versions.json".

Definition completion_marker (folder : string) : string := join_path (join_path PROTON_DIR folder) ".kyth-complete".
Definition is_complete_install (log : ULog) (folder ver : string) : bool :=
  match read_text log (completion_marker folder) with Ok text => String.eqb (trim text) ver | Err _ => false end.

Definition parse_ge_proton_version (ver : string) : option (Z * Z) :=
  rest ← strip_prefix "GE-Proton" ver;
  '(major, minor) ← split_once "-" rest;
  major ← parse_u32 major; minor ← parse_u32 minor; Some (major, minor).

Definition pair_lt (a b : Z * Z) : bool := (fst a <? fst b) || ((fst a =? fst b) && (snd a <? snd b)).

Definition Best : Type := option ((Z * Z) * string).
Definition better_version (best : Best) (ver : string) : Best :=
  let parsed := parse_ge_proton_version ver in
  let is_better := match best, parsed with
                   | Some (best_ver, _), Some v => pair_lt best_ver v
                   | None, _ => true
                   | Some _, None => false
                   end in
  if is_better then Some (unwrap_or parsed (0, 0), ver) else best.

(** The version an entry of the directory is stamped with *)
Definition stamped (log : ULog) (folder : string) : option string :=
  if negb (starts_with "GE-Proton" folder) then None
  else match read_text log (completion_marker folder) with Ok text => nonempty (Some (trim text)) | Err _ => None end.
Definition installed_ge_proton_version (log : ULog) : option string :=
  match uo_list log PROTON_DIR with
  | Ok names => snd <$> foldl better_version None (filter_map (stamped log) names)
  | Err _ => None
  end.

Definition hold_message (installed ver : string) : string :=
  "WARNING: GE-Proton version jump " +:+ installed +:+ " -> " +:+ ver +:+ " looks suspicious — holding update for manual review.".
Definition downgrade_message (installed ver : string) : string :=
  "GE-Proton version " +:+ ver +:+ " is older than installed " +:+ installed +:+
  " — refusing downgrade (possible release-pointer attack). Clear manually if intentional.".
Definition suspicious (old new : Z * Z) : bool :=
  let major_jump := Z.max 0 (fst new - fst old) in
  let minor_jump := Z.max 0 (snd new - snd old) in
  (1 <? major_jump) || ((major_jump =? 0) && (5 <? minor_jump)).
Definition version_gate (ver : string) (installed : option string) : result unit :=
  match installed with
  | None => Ok tt
  | Some i =>
      match parse_ge_proton_version ver, parse_ge_proton_version i with
      | Some new, Some old =>
          guard! pair_lt new old else downgrade_message i ver;
          guard! suspicious old new else hold_message i ver;
          Ok tt
      | _, _ => Ok tt
      end
  end.

(** [serde_json::Map] from text; anything else is an empty map. *)
Definition versions_map (text : result string) : gmap string json :=
  match text with
  | Ok t => match json_decode t with Ok (JObject m) => m | _ => ∅ end
  | Err _ => ∅
  end.
Definition refresh_gaming_versions_cache (ver : string) : U unit :=
  do! m <- u_ask (λ log, versions_map (read_text log GAMING_VERSIONS));
  do! _ <- u_try (MkDirAll "/var/lib/kyth");
  u_try (WriteFile GAMING_VERSIONS (json_encode (JObject (<["proton_cachyos_version" := JString ver]> m)))).

Definition is_live (log : ULog) : bool :=
  match read_text log "/proc/cmdline" with
  | Ok cmdline => existsb (λ arg, String.eqb arg "kyth.live" || String.eqb arg "kyth.live=1") (split_whitespace cmdline)
  | Err _ => false
  end.

Definition resolve_proton (headers : Headers) : U (json * string) :=
  do! release <- u_context (λ e, "Failed to fetch GE-Proton release info: " +:+ e) (fetch_github_latest_release PROTON_REPO headers);
  let ver := tag_name release in
  do! _ <- u_guard (is_empty ver) "Failed to parse GE-Proton version tag from release JSON";
  do! _ <- u_context (λ _, "Unexpected GE-Proton version format: " +:+ ver)
             (m_lift (validate_version ver PROTON_VERSION_PATTERN "GE-Proton"));
  m_ret (release, ver).

Definition proton_folder (tarball : ReleaseAsset) : string := unwrap_or (strip_suffix ".tar.gz" (ra_name tarball)) (ra_name tarball).

Definition clear_incomplete (folder : string) : U unit :=
  let path := join_path PROTON_DIR folder in
  do! here <- u_ask (λ log, present_dir log path);
  if here then u_context (λ e, "Failed to clear incomplete install: " +:+ e) (u_do (RemoveTree path)) else m_ret tt.

Definition verify_proton (work ver : string) (headers : Headers) (tarball checksum : ReleaseAsset) : U unit :=
  let tarball_dest := join_path work (ra_name tarball) in
  let sha512_dest := join_path work (ra_name checksum) in
  do! approved <- u_context (λ e, "Signed update manifest check failed: " +:+ e)
                    (approve_update work COMPONENT_GE_PROTON ver (ra_name tarball));
  do! _ <- clear_incomplete (proton_folder tarball);
  do! _ <- download_all "Failed to download assets: " headers
             [(ra_url tarball, tarball_dest, MAX_ARCHIVE_BYTES); (ra_url checksum, sha512_dest, MAX_CHECKSUM_BYTES)];
  do! _ <- u_context (λ e, "Checksum verification failed: " +:+ e) (verify_checksum_file sha512_dest tarball_dest "sha512");
  u_context (λ e, "Signed update manifest digest verification failed: " +:+ e)
    (verify_artifact_matches approved "sha512" tarball_dest).

Definition finish_proton (work ver : string) (tarball : ReleaseAsset) : U unit :=
  let folder := proton_folder tarball in
  let drop_folder := u_try (RemoveTree (join_path PROTON_DIR folder)) in
  do! _ <- u_or_undo drop_folder
             (u_context (λ e, "Extraction failed: " +:+ e) (extract_archive (join_path work (ra_name tarball)) PROTON_DIR));
  do! _ <- u_or_undo drop_folder
             (u_context (λ e, "Failed to record completed install: " +:+ e)
                (u_do (WriteFile (completion_marker folder) (ver +:+ newline))));
  do! _ <- refresh_gaming_versions_cache ver;
  do! _ <- u_ignore (prune_installations PROTON_DIR "proton-cachyos-*" 0);
  u_ignore (prune_installations PROTON_DIR "GE-Proton*" 2).
Definition install_proton (work ver : string) (headers : Headers) (tarball checksum : ReleaseAsset) : U unit :=
  do! _ <- verify_proton work ver headers tarball checksum;
  finish_proton work ver tarball.

Definition proton_main : U unit :=
  do! live <- u_ask is_live;
  if live then m_ret tt
  else
    do! headers <- latest_headers;
    do! found <- resolve_proton headers;
    let '(release, ver) := found in
    do! _ <- u_read (λ log, version_gate ver (installed_ge_proton_version log));
    let assets := release_assets release in
    match find_release_asset assets (ends_with "x86_64.tar.gz"), find_release_asset assets (ends_with "x86_64.sha512sum") with
    | Some tarball, Some checksum =>
        do! complete <- u_ask (λ log, is_complete_install log (proton_folder tarball) ver);
        if complete then m_ret tt
        else
          do! work <- u_context (λ e, "Failed to download assets: " +:+ e) (create_workdir "kyth-proton");
          in_workdir work (install_proton work ver headers tarball checksum)
    | _, _ => u_fail "Failed to locate GE-Proton release assets"
    end.

(** * What the launchers leave on the machine

    An event that installs something: an archive unpacked, a file copied, written
    or moved into place.  Downloads are staged and published in the work directory
    with [Persist]. *)

Definition is_unpack (argv : list string) : bool :=
  match argv with
  | program :: option :: _ => (String.eqb program "tar" && String.eqb option "-xf") || (String.eqb program "unzip" && String.eqb option "-oq")
  | _ => false
  end.
Definition installing (e : UEvent) : bool :=
  match e with
  | URan argv _ _ => is_unpack argv
  | UDid (RenameFile _ _) _ | UDid (WriteFile _ _) _ | UDid (CopyFile _ _) _ => true
  | UDid _ _ => false
  end.
Definition quiet (e : UEvent) : Prop := installing e = false.

Lemma quiet_download url dest headers timeout limit : emits quiet (download_file url dest headers timeout limit).
Proof. unfold download_file, download_staged. emits_auto. Qed.
Lemma quiet_workdir prefix : emits quiet (create_workdir prefix).
Proof. unfold create_workdir. emits_auto. Qed.
Lemma quiet_fetch repo headers : emits quiet (fetch_github_latest_release repo headers).
Proof. unfold fetch_github_latest_release, private_curl_config. emits_auto. all: by destruct a. Qed.
Lemma quiet_headers : emits quiet latest_headers.
Proof. unfold latest_headers, read_secret_file. emits_auto. Qed.
#[local] Hint Resolve quiet_download quiet_workdir quiet_fetch quiet_headers : emits.

Lemma quiet_download_all message headers downloads : emits quiet (download_all message headers downloads).
Proof. unfold download_all. emits_auto. Qed.
Lemma quiet_approve work component version artifact : emits quiet (approve_update work component version artifact).
Proof. unfold approve_update, read_or, fetch_manifest_set. emits_auto. Qed.
#[local] Hint Resolve quiet_download_all quiet_approve : emits.

Lemma quiet_verify_rclone work ver : emits quiet (verify_rclone work ver).
Proof. unfold verify_rclone, verify_checksum_file, verify_artifact_matches. emits_auto. Qed.
Lemma quiet_verify_proton work ver headers tarball checksum : emits quiet (verify_proton work ver headers tarball checksum).
Proof. unfold verify_proton, clear_incomplete, verify_checksum_file, verify_artifact_matches. emits_auto. Qed.
Lemma quiet_resolve_rclone : emits quiet resolve_rclone.
Proof. unfold resolve_rclone. emits_auto. Qed.
Lemma quiet_resolve_proton headers : emits quiet (resolve_proton headers).
Proof. unfold resolve_proton. emits_auto. Qed.
Lemma quiet_installed_version : emits quiet installed_version.
Proof. unfold installed_version. emits_auto. Qed.

(** The digest the release's own checksum file names for a download *)
Definition published_checksum (log : ULog) (algorithm checksum_path target_path : string) : Prop :=
  ∃ len contents, digest_length algorithm = Some len ∧ uo_read log target_path = Ok contents
    ∧ checksum_digest log algorithm (unwrap_or (file_name target_path) EmptyString) len checksum_path = Ok (hex_digest algorithm contents).

Lemma verify_checksum_Ok log checksum_path target_path algorithm :
  verify_checksum log checksum_path target_path algorithm = Ok tt → published_checksum log algorithm checksum_path target_path.
Proof.
  unfold verify_checksum. intros H. guard_inv H as Hf. apply rbind_Ok in H as (len & Hlen%ok_or_Ok & H).
  apply rbind_Ok in H as (n & _ & H). guard_inv H as Hn. apply rbind_Ok in H as (expected & He & H).
  apply rbind_Ok in H as (actual & Ha%map_err_Ok & H). guard_inv H as Heq. apply negb_false_iff, String.eqb_eq in Heq. subst expected.
  unfold digest_file in Ha. apply rmap_Ok in Ha as (contents & Hc & <-). by exists len, contents.
Qed.

(** [verified log work component ver artifact checksum algorithm before after]:
    with the log at [after], the artifact in the work directory is the one that
    the signed manifest approves, under [ver], and that its release names. *)
Definition verified (work component ver artifact checksum algorithm : string) (before after : ULog) : Prop :=
  ∃ entry approved news, after = approved ++ news
    ∧ approval work component ver artifact before approved entry
    ∧ published_checksum after algorithm (join_path work checksum) (join_path work artifact)
    ∧ pinned after entry algorithm (join_path work artifact).

Lemma context_Ok {A} f (c : U A) log a log' : u_context f c log = (Ok a, log') → c log = (Ok a, log').
Proof. unfold u_context. destruct (c log) as [[]]; cbn; congruence. Qed.

Lemma emits_ext {A} P (c : U A) log r log' : emits P c → c log = (r, log') → ∃ ev, log' = log ++ ev ∧ Forall P ev.
Proof. intros Hc H. destruct (Hc log) as (ev & Hev & HF). rewrite H in Hev. by exists ev. Qed.

Lemma verify_rclone_Ok work ver log log' :
  verify_rclone work ver log = (Ok tt, log') → verified work COMPONENT_RCLONE ver (rclone_zip ver) "SHA256SUMS" "sha256" log log'.
Proof.
  unfold verify_rclone. intros H.
  apply m_bind_inv in H as [(entry & l1 & Ha%context_Ok & H)|(? & _ & ?)]; [|done].
  apply m_bind_inv in H as [(u & l2 & Hd & H)|(? & _ & ?)]; [|done].
  apply m_bind_inv in H as [([] & l3 & Hc%context_Ok & H%context_Ok)|(? & _ & ?)]; [|done].
  injection Hc as Hc <-. injection H as Hm <-. apply emits_ext with (P := quiet) in Hd as (news & -> & _); [|auto with emits].
  exists entry, l1, news. split; [done|]. split; [by apply approve_update_Ok|].
  split; [by apply verify_checksum_Ok|by apply verify_artifact_Ok].
Qed.

(** * Nothing is installed before the checks *)

(** [gated V c log]: what [c] does from [log] installs nothing up to some point;
    there it ends, or what was checked there and what follows satisfy [V]. *)
Definition gated {A} (V : ULog → list UEvent → Prop) (c : U A) (log : ULog) : Prop :=
  ∃ news, Forall quiet news
    ∧ (snd (c log) = log ++ news ∨ ∃ rest, snd (c log) = (log ++ news) ++ rest ∧ V (log ++ news) rest).

Lemma gated_quiet {A} V (c : U A) log : emits quiet c → gated V c log.
Proof. intros Hc. destruct (Hc log) as (ev & Hev & HF). exists ev. auto. Qed.

Lemma gated_bind {A B} V (c : U A) (k : A → U B) log :
  emits quiet c → (∀ a l, c log = (Ok a, l) → gated V (k a) l) → gated V (m_bind c k) log.
Proof.
  intros Hc Hk. destruct (Hc log) as (ev & Hev & HF). unfold m_bind, gated.
  destruct (c log) as [[a|e] l]; cbn in Hev; subst l; [|exists ev; auto].
  destruct (Hk a _ eq_refl) as (news & Hn & Hcase). exists (ev ++ news). split; [by apply Forall_app|].
  by rewrite app_assoc.
Qed.

Lemma gated_workdir {A} V work (c : U A) log :
  (∀ checked rest r, V checked rest → V checked (rest ++ [UDid (RemoveTree work) r])) → gated V c log → gated V (in_workdir work c) log.
Proof.
  intros HV (news & Hn & Hcase). unfold gated, in_workdir. destruct (c log) as [r l]. cbn in *.
  destruct Hcase as [->|(rest & -> & Hv)].
  - exists (news ++ [UDid (RemoveTree work) (uo_do (log ++ news) (RemoveTree work))]).
    split; [apply Forall_app; split; [done|repeat constructor]|]. left. by rewrite <-app_assoc.
  - exists news. split; [done|]. right. eexists. rewrite <-app_assoc. split; [done|]. by apply HV.
Qed.

(** The checks, and whatever follows them *)
Lemma gated_checks {A B} V (c : U A) (k : A → U B) log :
  emits quiet c →
  (∀ a l, c log = (Ok a, l) → ∃ rest, snd (k a l) = l ++ rest ∧ V l rest) → gated V (m_bind c k) log.
Proof.
  intros Hc Hk. destruct (Hc log) as (ev & Hev & HF). exists ev. split; [done|]. unfold m_bind.
  destruct (c log) as [[a|e] l]; cbn in Hev; subst l; [|auto]. right. by apply Hk.
Qed.

(** ** rclone *)

(** What may happen besides the replacement: the archive is listed and unpacked
    into the work directory, the staging file is copied, made executable, synced and
    removed, the two binaries are asked for their version, and what is removed
    otherwise is the work directory or below it. *)
Definition beside (work ver : string) (e : UEvent) : Prop :=
  let archive := join_path work (rclone_zip ver) in
  match e with
  | URan argv _ _ => argv = fst (list_argv archive) ∨ argv = extract_argv archive work
                     ∨ argv = [STAGING; "--version"] ∨ argv = [RCLONE_BIN; "--version"]
  | UDid (MkDirAll d) _ => d = work ∨ d = "/usr/local/bin"
  | UDid (CopyFile _ d) _ | UDid (Chmod d _) _ | UDid (SyncFile d) _ => d = STAGING
  | UDid (RemoveFile p) _ | UDid (RemoveDir p) _ | UDid (RemoveTree p) _ =>
      p = STAGING ∨ p = work ∨ (is_absolute work = true → inside work p)
  | _ => False
  end.

(** Extraction runs tools, makes a directory and removes things. *)
Definition tidying (op : FsOp) : bool :=
  match op with MkDirAll _ | RemoveFile _ | RemoveDir _ | RemoveTree _ => true | _ => false end.
Lemma extract_emits (P : UEvent → Prop) archive dest :
  (∀ argv t a, P (URan argv t a)) → (∀ op r, tidying op = true → P (UDid op r)) → emits P (extract_archive archive dest).
Proof.
  intros Hr Ht.
  unfold extract_archive, prepare_extraction, remove_validated, unpack, validate_extracted_members, remove_member, list_members.
  emits_auto; try by apply Ht. { apply Ht. by destruct a0. } apply remove_parents_emits. intros. by apply Ht.
Qed.
Lemma extract_beside work ver : emits (beside work ver) (extract_archive (join_path work (rclone_zip ver)) work).
Proof.
  apply extraction_emits; [by left|by intros argv t a [->| ->]; cbn; auto|].
  intros [|[] r] He Hin; try done; cbn; right; right; exact Hin.
Qed.

(** The live binary was replaced by a copy of what the archive holds, after the
    copy reported the version. *)
Definition replacement (work ver : string) (rest : list UEvent) : Prop :=
  ∃ stdout text extracted out r tail,
    rest = [made work; listed (join_path work (rclone_zip ver)) stdout;
            unpacked (join_path work (rclone_zip ver)) work (Some (0, text));
            made "/usr/local/bin"; UDid (CopyFile extracted STAGING) (Ok tt); UDid (Chmod STAGING 493) (Ok tt);
            URan [STAGING; "--version"] 30 (Some (0, out)); UDid (SyncFile STAGING) (Ok tt);
            UDid (RenameFile STAGING RCLONE_BIN) r] ++ tail
    ∧ Forall (beside work ver) tail
    ∧ (extracted = join_path (join_path work (rclone_basename ver)) "rclone" ∨ extracted = join_path work "rclone")
    ∧ (∃ line, head (lines out) = Some line ∧ version_line_matches line ver = true).

Lemma staged_version_check_Ok ver answer :
  staged_version_check ver answer = Ok tt →
  ∃ out line, answer = Some (0, out) ∧ head (lines out) = Some line ∧ version_line_matches line ver = true.
Proof.
  unfold staged_version_check. destruct answer as [[code out]|]; [|done]. destruct (_ && _) eqn:E; [|done]. intros _.
  apply andb_true_iff in E as [Hc Hl]. destruct (head (lines out)) as [line|] eqn:Eh; [|done]. exists out, line.
  split_and!; [|done|done]. assert (code = 0) as -> by lia. done.
Qed.

(** [follows N Q c log]: every event of [c] from [log] is in [N], or its events
    together are in [Q]. *)
Definition follows {A} (N : UEvent → Prop) (Q : list UEvent → Prop) (c : U A) (log : ULog) : Prop :=
  ∃ rest, snd (c log) = log ++ rest ∧ (Forall N rest ∨ Q rest).

Lemma follows_emits {A} N Q (c : U A) log : emits N c → follows N Q c log.
Proof. intros Hc. destruct (Hc log) as (ev & Hev & HF). exists ev. auto. Qed.

(** One step that went well, then the rest *)
Lemma follows_step {A B} N Q (c : U A) (k : A → U B) log :
  emits N c →
  (∀ a l, c log = (Ok a, l) → ∃ ev, l = log ++ ev ∧ Forall N ev ∧ follows N (λ rest, Q (ev ++ rest)) (k a) l) →
  follows N Q (m_bind c k) log.
Proof.
  intros Hc Hk. destruct (Hc log) as (ev & Hev & HF). unfold follows, m_bind.
  destruct (c log) as [[a|e] l]; cbn in Hev; subst l; [|exists ev; auto].
  destruct (Hk a _ eq_refl) as (ev' & Heq%app_inv_head & _ & rest & Hr & Hcase). subst ev'. exists (ev ++ rest).
  rewrite Hr, app_assoc. split; [done|]. destruct Hcase as [Hn|Hq]; [left; by apply Forall_app|auto].
Qed.

Lemma follows_do {B} (N : UEvent → Prop) Q f op (k : unit → U B) log :
  (∀ r, N (UDid op r)) →
  follows N (λ rest, Q (UDid op (Ok tt) :: rest)) (k tt) (log ++ [UDid op (Ok tt)]) →
  follows N Q (m_bind (u_context f (u_do op)) k) log.
Proof.
  intros Hop Hk. apply follows_step; [by apply emits_context, emits_do|]. intros [] l Hl%context_Ok.
  unfold u_do in Hl. destruct (uo_do log op) as [[]|]; [|done]. injection Hl as <-. exists [UDid op (Ok tt)]. auto.
Qed.
Lemma follows_run {B} (N : UEvent → Prop) Q argv t (k : option (Z * string) → U B) log :
  (∀ a, N (URan argv t a)) →
  (∀ a, follows N (λ rest, Q (URan argv t a :: rest)) (k a) (log ++ [URan argv t a])) → follows N Q (m_bind (u_run argv t) k) log.
Proof.
  intros Hn Hk. apply follows_step; [by apply emits_run|]. unfold u_run. intros a l [= <- <-].
  exists [URan argv t (uo_run log argv t)]. split_and!; [done|by repeat constructor|apply Hk].
Qed.
Lemma follows_lift {A B} N Q (r : result A) (k : A → U B) log :
  (∀ a, r = Ok a → follows N Q (k a) log) → follows N Q (m_bind (m_lift r) k) log.
Proof.
  intros Hk. apply follows_step; [apply emits_lift|]. intros a l [-> ->]%m_lift_inv. exists []. rewrite app_nil_r. auto.
Qed.
Lemma follows_ask {A B} N Q (g : ULog → A) (k : A → U B) log : follows N Q (k (g log)) log → follows N Q (m_bind (u_ask g) k) log.
Proof.
  intros Hk. apply follows_step; [apply emits_ask|]. unfold u_ask. intros a l [= <- <-]. exists []. rewrite app_nil_r. auto.
Qed.

(** What comes after the part in question changes nothing about it. *)
Definition open_ended (N : UEvent → Prop) (Q : list UEvent → Prop) : Prop := ∀ rest tail, Q rest → Forall N tail → Q (rest ++ tail).

Lemma follows_context {A} N Q f (c : U A) log : follows N Q c log → follows N Q (u_context f c) log.
Proof. unfold follows, u_context. by destruct (c log). Qed.
Lemma follows_undo {A} N Q undo (c : U A) log :
  open_ended N Q → emits N undo → follows N Q c log → follows N Q (u_or_undo undo c) log.
Proof.
  intros HQ Hu (rest & Hr & Hcase). unfold follows, u_or_undo. destruct (c log) as [[a|e] l]; cbn in Hr; subst l; [by exists rest|].
  destruct (Hu (log ++ rest)) as (ev & Hev & HF). exists (rest ++ ev). cbn. rewrite Hev, app_assoc. split; [done|].
  destruct Hcase; [left; by apply Forall_app|right; by apply HQ].
Qed.
Lemma follows_then {A B} N Q (c : U A) (k : A → U B) log :
  open_ended N Q → (∀ a, emits N (k a)) → follows N Q c log → follows N Q (m_bind c k) log.
Proof.
  intros HQ Hk (rest & Hr & Hcase). unfold follows, m_bind. destruct (c log) as [[a|e] l]; cbn in Hr; subst l; [|by exists rest].
  destruct (Hk a (log ++ rest)) as (ev & Hev & HF). exists (rest ++ ev). cbn. rewrite Hev, app_assoc. split; [done|].
  destruct Hcase; [left; by apply Forall_app|right; by apply HQ].
Qed.

Lemma replacement_open work ver tail0 : open_ended (beside work ver) (λ rest, replacement work ver (tail0 ++ rest)).
Proof.
  intros rest tail (stdout & text & extracted & out & r & tl & Heq & Htl & H) Htail. exists stdout, text, extracted, out, r, (tl ++ tail).
  rewrite app_assoc, Heq, <-app_assoc, Forall_app. auto.
Qed.

Lemma finish_rclone_follows work ver log : follows (beside work ver) (replacement work ver) (finish_rclone work ver) log.
Proof.
  unfold finish_rclone. apply follows_step; [apply emits_context, extract_beside|].
  intros [] l (stdout & text & members & -> & _ & _)%context_Ok%extract_archive_Ok.
  eexists. split; [done|]. split; [by apply Forall_cons_2; [left|apply Forall_cons_2; [left|apply Forall_cons_2; [right; left|constructor]]]|]. apply follows_ask. apply follows_do; [by right|].
  set (l := _ ++ _). set (extracted := extracted_rclone _ work ver).
  apply follows_then.
  { apply (replacement_open work ver [made work; listed (join_path work (rclone_zip ver)) stdout;
            unpacked (join_path work (rclone_zip ver)) work (Some (0, text)); made "/usr/local/bin"]). }
  { intros []. emits_auto; cbn; auto. }
  apply follows_context, follows_undo.
  { apply (replacement_open work ver [made work; listed (join_path work (rclone_zip ver)) stdout;
            unpacked (join_path work (rclone_zip ver)) work (Some (0, text)); made "/usr/local/bin"]). }
  { apply emits_try. by left. }
  unfold replace_rclone. do 2 (apply follows_do; [done|]). apply follows_run; [cbn; auto|]. intros a. apply follows_lift.
  intros [] (out & line & -> & Hline)%staged_version_check_Ok. apply follows_do; [done|].
  eexists [_]. split; [unfold u_context, u_do; reflexivity|]. right.
  exists stdout, text, extracted, out. eexists _, []. split; [reflexivity|]. split; [constructor|]. split; [|eauto].
  unfold extracted, extracted_rclone. destruct (present_file _ _); auto.
Qed.

Lemma create_workdir_Ok prefix log work log' : create_workdir prefix log = (Ok work, log') → work = workdir_path prefix.
Proof.
  unfold create_workdir. intros H. apply m_bind_inv in H as [(? & l1 & _ & H)|(? & _ & ?)]; [|done].
  apply m_bind_inv in H as [(? & l2 & _ & H)|(? & _ & ?)]; [|done]. by injection H as <- <-.
Qed.

Lemma emits_prefix {A} P (c : U A) log r log' : emits P c → c log = (r, log') → log `prefix_of` log'.
Proof. intros Hc H. destruct (emits_ext _ _ _ _ _ Hc H) as (ev & -> & _). by eexists. Qed.

(** Before anything is installed: the version has the form of one, the binary
    that was there did not report a later one, and the archive is verified.  If the
    binary is replaced, then by what the archive held. *)
Definition rclone_checked (start checked : ULog) (rest : list UEvent) : Prop :=
  let work := workdir_path "kyth-rclone" in
  ∃ ver installed asked answered before,
    re_match RCLONE_VERSION_PATTERN ver = true
    ∧ installed_version asked = (Ok installed, answered)
    ∧ start `prefix_of` asked ∧ answered `prefix_of` before ∧ before `prefix_of` checked
    ∧ (∀ v, installed = Some v → v ≠ trim_v ver ∧ is_downgrade v (trim_v ver) ≠ Some true)
    ∧ verified work COMPONENT_RCLONE ver (rclone_zip ver) "SHA256SUMS" "sha256" before checked
    ∧ (Forall (beside work ver) rest ∨ replacement work ver rest).

Lemma validate_version_Ok version pattern component v :
  validate_version version pattern component = Ok v → v = version ∧ re_match pattern version = true.
Proof. unfold validate_version. destruct (re_match pattern version); [|done]. by intros [= <-]. Qed.

Lemma resolve_rclone_Ok log ver log' : resolve_rclone log = (Ok ver, log') → re_match RCLONE_VERSION_PATTERN ver = true.
Proof.
  unfold resolve_rclone. intros H. apply m_bind_inv in H as [(v & l1 & _ & H)|(? & _ & ?)]; [|done].
  apply m_bind_inv in H as [(u & l2 & _ & H)|(? & _ & ?)]; [|done].
  apply m_bind_inv in H as [(w & l3 & H3%context_Ok & H)|(? & _ & ?)]; [|done]. injection H as <- _.
  apply m_lift_inv in H3 as [Hv _]. by apply validate_version_Ok in Hv as [_ ?].
Qed.

Lemma rclone_checked_closed start checked rest r :
  rclone_checked start checked rest → rclone_checked start checked (rest ++ [UDid (RemoveTree (workdir_path "kyth-rclone")) r]).
Proof.
  intros (ver & installed & asked & answered & before & Hv & Hi & H1 & H2 & H3 & Hd & Hver & Hr).
  exists ver, installed, asked, answered, before. split_and!; try done. destruct Hr as [Hr|Hr].
  - left. apply Forall_app. split; [done|]. constructor; [|constructor]. cbn. auto.
  - right. apply (replacement_open _ _ []); [done|]. constructor; [|constructor]. cbn. auto.
Qed.

(** C15: the rclone updater installs nothing that is not approved.  Whatever the
    network, the tools and the file system answer, the events of a run are quiet
    (no archive unpacked, no file copied, written or moved into place) up to a point
    where the run ends or where the archive is verified: a manifest whose exact
    bytes a certificate with an anchored primary key has signed approves, once,
    exactly this component, version and archive, the archive's digest is the one it pins and
    the one the release names, and the installed binary did not report the same
    version or a later one.  From there on, every event but one only unpacks that archive into the
    work directory, prepares the staging file, asks for a version or removes the staging file and the work
    directory: nothing is written, copied or moved to [/usr/local/bin/rclone].  The one exception is
    the rename of the staging file over it, and it comes directly after the staging file was copied from what
    that archive unpacked to, was run and reported the version, and was synced. *)
Theorem rclone_update_authentic log : gated (rclone_checked log) rclone_main log.
Proof.
  unfold rclone_main. apply gated_bind; [apply quiet_resolve_rclone|]. intros ver l1 H1.
  apply gated_bind; [apply quiet_installed_version|]. intros installed l2 H2. case_match eqn:Esame; [by apply gated_quiet, emits_ret|].
  apply gated_bind; [destruct installed; emits_auto|]. intros [] l3 H3. apply gated_bind; [apply emits_context, quiet_workdir|].
  intros work l4 H4%context_Ok. pose proof (create_workdir_Ok _ _ _ _ H4) as ->.
  apply gated_workdir; [intros; by apply rclone_checked_closed|].
  apply gated_checks; [apply quiet_verify_rclone|]. intros [] l5 H5.
  destruct (finish_rclone_follows (workdir_path "kyth-rclone") ver l5) as (rest & Hrest & Hcase). exists rest. split; [done|].
  assert (l3 = l2) as -> by (destruct installed; injection H3; auto).
  exists ver, installed, l1, l2, l4. split_and!.
  - by eapply resolve_rclone_Ok.
  - done.
  - eapply emits_prefix; [apply quiet_resolve_rclone|exact H1].
  - eapply emits_prefix; [apply quiet_workdir|exact H4].
  - eapply emits_prefix; [apply quiet_verify_rclone|exact H5].
  - intros v ->. apply String.eqb_neq in Esame. split; [done|]. intros Hd. unfold u_guard in H3.
    apply m_lift_inv in H3 as [H3 _]. by rewrite bool_decide_eq_true_2 in H3.
  - by apply verify_rclone_Ok.
  - done.
Qed.

(** ** GE-Proton *)

Lemma verify_proton_Ok work ver headers tarball checksum log log' :
  verify_proton work ver headers tarball checksum log = (Ok tt, log') →
  verified work COMPONENT_GE_PROTON ver (ra_name tarball) (ra_name checksum) "sha512" log log'.
Proof.
  unfold verify_proton. intros H.
  apply m_bind_inv in H as [(entry & l1 & Ha%context_Ok & H)|(? & _ & ?)]; [|done].
  apply m_bind_inv in H as [(u1 & l2 & Hcl & H)|(? & _ & ?)]; [|done].
  apply m_bind_inv in H as [(u2 & l3 & Hd & H)|(? & _ & ?)]; [|done].
  apply m_bind_inv in H as [([] & l4 & Hc%context_Ok & H%context_Ok)|(? & _ & ?)]; [|done].
  injection Hc as Hc <-. injection H as Hm <-. apply emits_ext with (P := quiet) in Hd as (news & -> & _); [|auto with emits].
  apply emits_ext with (P := quiet) in Hcl as (cleared & -> & _); [|unfold clear_incomplete; emits_auto].
  exists entry, l1, (cleared ++ news). split; [by rewrite app_assoc|]. split; [by apply approve_update_Ok|].
  split; [by apply verify_checksum_Ok|by apply verify_artifact_Ok].
Qed.

(** No write but the one to the versions cache *)
Definition no_marker (e : UEvent) : Prop := match e with UDid (WriteFile p _) _ => p = GAMING_VERSIONS | _ => True end.

(** The installation was marked complete, after every member of the archive was
    found in place. *)
Definition completion (work ver : string) (tarball : ReleaseAsset) (checked : ULog) (rest : list UEvent) : Prop :=
  let archive := join_path work (ra_name tarball) in
  ∃ stdout text members r tail,
    rest = [made PROTON_DIR; listed archive stdout; unpacked archive PROTON_DIR (Some (0, text));
            UDid (WriteFile (completion_marker (proton_folder tarball)) (ver +:+ newline)) r] ++ tail
    ∧ safe_listing (checked ++ [made PROTON_DIR; listed archive stdout]) PROTON_DIR (lines stdout) members
    ∧ let complete := checked ++ [made PROTON_DIR; listed archive stdout; unpacked archive PROTON_DIR (Some (0, text))] in
      Forall (λ p, is_output complete p = true) (outputs PROTON_DIR members)
      ∧ total_bytes complete (outputs PROTON_DIR members) <= MAX_ARCHIVE_BYTES.

Lemma completion_open work ver tarball checked head0 : open_ended no_marker (λ rest, completion work ver tarball checked (head0 ++ rest)).
Proof.
  intros rest tail (stdout & text & members & r & tl & Heq & H) _. exists stdout, text, members, r, (tl ++ tail).
  rewrite app_assoc, Heq, <-app_assoc. auto.
Qed.

Lemma emits_ignore {A} P (c : U A) : emits P c → emits P (u_ignore c).
Proof. intros Hc log. apply Hc. Qed.

Lemma or_undo_Ok {A} undo (c : U A) log a log' : u_or_undo undo c log = (Ok a, log') → c log = (Ok a, log').
Proof. unfold u_or_undo. destruct (c log) as [[]]; congruence. Qed.

Lemma prune_emits P install_dir pattern keep :
  (∀ p r, P (UDid (RemoveTree p) r)) → emits P (prune_installations install_dir pattern keep).
Proof. intros HR. unfold prune_installations. emits_auto. Qed.

Lemma finish_proton_follows work ver tarball log :
  follows no_marker (completion work ver tarball log) (finish_proton work ver tarball) log.
Proof.
  unfold finish_proton. apply follows_step.
  { apply emits_or_undo; [by apply emits_try|]. apply emits_context, extract_emits; [done|]. by intros []. }
  intros [] l (stdout & text & members & -> & Hsafe & Hv)%or_undo_Ok%context_Ok%extract_archive_Ok.
  apply validate_extracted_spec in Hv as [Ho Ht]; [|done].
  eexists. split; [done|]. split; [repeat constructor|]. apply follows_then.
  { apply completion_open. }
  { intros []. unfold refresh_gaming_versions_cache. emits_auto; apply emits_ignore, prune_emits; done. }
  apply follows_undo; [apply completion_open|by apply emits_try|]. apply follows_context.
  eexists [_]. split; [unfold u_do; reflexivity|]. right. exists stdout, text, members. eexists _, []. auto.
Qed.

Lemma parse_u32_nonneg s v : parse_u32 s = Some v → 0 <= v.
Proof.
  unfold parse_u32, parse_u64. destruct (is_empty _); [done|]. destruct (parse_digits 0 _) as [n|] eqn:Ed; [|done].
  apply parse_digits_nonneg in Ed; [|lia]. destruct (n <=? u64_max); [|done]. destruct (n <=? _); [|done]. by intros [= <-].
Qed.
Lemma parse_ge_nonneg ver v : parse_ge_proton_version ver = Some v → 0 <= fst v ∧ 0 <= snd v.
Proof.
  unfold parse_ge_proton_version. intros (rest & _ & H)%bind_Some. apply bind_Some in H as ([a b] & _ & H).
  apply bind_Some in H as (x & Hx%parse_u32_nonneg & H). apply bind_Some in H as (y & Hy%parse_u32_nonneg & H).
  by injection H as <-.
Qed.

Lemma pair_lt_false a b : pair_lt a b = false ↔ fst b < fst a ∨ (fst a = fst b ∧ snd b <= snd a).
Proof. unfold pair_lt. rewrite orb_false_iff, andb_false_iff, Z.ltb_ge, Z.eqb_neq, Z.ltb_ge. lia. Qed.

(** The rank of a version: its numbers, or the lowest. *)
Definition rank (ver : string) : Z * Z := unwrap_or (parse_ge_proton_version ver) (0, 0).

Lemma better_version_rank best v b s :
  (∀ b s, best = Some (b, s) → b = rank s) → better_version best v = Some (b, s) → b = rank s.
Proof.
  intros Hb. unfold better_version. destruct best as [[b0 s0]|]; [|by intros [= <- <-]].
  destruct (parse_ge_proton_version v) eqn:Ev; [|apply Hb]. destruct (pair_lt b0 _); [|apply Hb]. intros [= <- <-].
  unfold rank. by rewrite Ev.
Qed.
Lemma best_rank vs best b s :
  (∀ b s, best = Some (b, s) → b = rank s) → foldl better_version best vs = Some (b, s) → b = rank s.
Proof.
  revert best. induction vs as [|v vs IH]; intros best Hb; [apply Hb|]. cbn. apply IH. intros b' s'. by apply better_version_rank.
Qed.

(** [at_least best old]: the best version so far is not below [old]. *)
Definition at_least (best : Best) (old : Z * Z) : Prop := ∃ b s, best = Some (b, s) ∧ pair_lt b old = false.

Lemma better_version_keeps best v old :
  at_least best old ∨ parse_ge_proton_version v = Some old → at_least (better_version best v) old.
Proof.
  unfold at_least, better_version. destruct best as [[b0 s0]|].
  - destruct (parse_ge_proton_version v) as [p|] eqn:Ev.
    + destruct (pair_lt b0 p) eqn:El; intros [(b & s & [= <- <-] & Hlt)|[= ->]]; try (by eexists _, _);
        (eexists _, _; split; [done|]); cbn [unwrap_or]; rewrite ?pair_lt_false in *; try lia.
      apply not_false_iff_true in El. rewrite pair_lt_false in El. lia.
    + intros [(b & s & [= <- <-] & Hlt)|]; [|done]. by eexists _, _.
  - intros [(b & s & ? & _)|Hv]; [done|]. rewrite Hv. eexists _, _. split; [done|]. apply pair_lt_false. cbn. lia.
Qed.

Lemma best_is_highest vs best old :
  at_least best old ∨ (∃ v, v ∈ vs ∧ parse_ge_proton_version v = Some old) → at_least (foldl better_version best vs) old.
Proof.
  revert best. induction vs as [|v vs IH]; intros best; cbn [foldl].
  { intros [|(v & Hv%elem_of_nil & _)]; done. }
  intros H. apply IH. destruct H as [|(w & [->|Hw]%elem_of_cons & Ho)]; [left|left|right; eauto]; apply better_version_keeps; auto.
Qed.

(** No completed installation in [log] is of a later version than [ver], as far
    as both can be read. *)
Definition not_older (log : ULog) (ver : string) : Prop :=
  ∀ names folder i old new, uo_list log PROTON_DIR = Ok names → folder ∈ names → stamped log folder = Some i →
    parse_ge_proton_version i = Some old → parse_ge_proton_version ver = Some new → pair_lt new old = false.

Lemma version_gate_Ok log ver : version_gate ver (installed_ge_proton_version log) = Ok tt → not_older log ver.
Proof.
  intros H names folder i old new Hn Hf Hi Ho Hv. unfold installed_ge_proton_version in H. rewrite Hn in H.
  destruct (best_is_highest (filter_map (stamped log) names) None old) as (b & s & Hb & Hlt).
  { right. exists i. split; [apply elem_of_filter_map; eauto|done]. }
  assert (b = rank s) as -> by (eapply best_rank; [|exact Hb]; done). rewrite Hb in H. change (version_gate ver (Some s) = Ok tt) in H. unfold version_gate in H. rewrite Hv in H. unfold rank in Hlt.
  apply parse_ge_nonneg in Hv. destruct (parse_ge_proton_version s) as [p|].
  - guard_inv H as Hp. rewrite pair_lt_false in *. cbn [unwrap_or] in Hlt. lia.
  - rewrite pair_lt_false in *. cbn in Hlt. lia.
Qed.

(** Before anything is installed: the version has the form of one, no completed
    installation is of a later one, and the archive is verified.  If the
    installation is marked complete, then after the archive was unpacked. *)
Definition proton_checked (start checked : ULog) (rest : list UEvent) : Prop :=
  let work := workdir_path "kyth-proton" in
  ∃ ver tarball checksum asked before,
    re_match PROTON_VERSION_PATTERN ver = true
    ∧ start `prefix_of` asked ∧ asked `prefix_of` before ∧ before `prefix_of` checked
    ∧ not_older asked ver
    ∧ verified work COMPONENT_GE_PROTON ver (ra_name tarball) (ra_name checksum) "sha512" before checked
    ∧ (Forall no_marker rest ∨ completion work ver tarball checked rest).

Lemma proton_checked_closed start checked rest r :
  proton_checked start checked rest → proton_checked start checked (rest ++ [UDid (RemoveTree (workdir_path "kyth-proton")) r]).
Proof.
  intros (ver & tarball & checksum & asked & before & Hv & H1 & H2 & H3 & Hd & Hver & Hr).
  exists ver, tarball, checksum, asked, before. split_and!; try done. destruct Hr as [Hr|Hr].
  - left. apply Forall_app. split; [done|repeat constructor].
  - right. apply (completion_open _ _ _ _ []); [done|]. by repeat constructor.
Qed.

Lemma resolve_proton_Ok headers log release ver log' :
  resolve_proton headers log = (Ok (release, ver), log') → re_match PROTON_VERSION_PATTERN ver = true.
Proof.
  unfold resolve_proton. intros H. apply m_bind_inv in H as [(v & l1 & _ & H)|(? & _ & ?)]; [|done].
  apply m_bind_inv in H as [(u & l2 & _ & H)|(? & _ & ?)]; [|done].
  apply m_bind_inv in H as [(w & l3 & H3%context_Ok & H)|(? & _ & ?)]; [|done]. injection H as <- <- _.
  apply m_lift_inv in H3 as [Hv _]. by apply validate_version_Ok in Hv as [_ ?].
Qed.

(** C16: the GE-Proton updater installs nothing that is not approved, and marks
    nothing complete that is not.  The events of a run are quiet up to a point where
    the run ends or where the tarball is verified, as for rclone, by the signed manifest
    and by the release's checksum; no stamped installation in the directory, not only the first one
    listed, is of a later version.  From there on, a completion marker is written,
    if at all, right after the tarball was unpacked with every listed member found in place as
    a regular file or a directory, inside the installation directory and within the size limit. *)
Theorem proton_update_authentic log : gated (proton_checked log) proton_main log.
Proof.
  unfold proton_main. apply gated_bind; [apply emits_ask|]. intros live l0 H0. destruct live; [by apply gated_quiet, emits_ret|].
  apply gated_bind; [apply quiet_headers|]. intros headers l1 H1.
  apply gated_bind; [apply quiet_resolve_proton|]. intros [release ver] l2 H2.
  apply gated_bind; [apply emits_read|]. intros [] l3 H3. unfold u_read in H3. injection H3 as Hgate <-.
  destruct (find_release_asset _ _) as [tarball|]; [|by apply gated_quiet, emits_fail].
  destruct (find_release_asset _ _) as [checksum|]; [|by apply gated_quiet, emits_fail].
  apply gated_bind; [apply emits_ask|]. unfold u_ask at 1. intros complete l4 [= _ <-]. destruct complete; [by apply gated_quiet, emits_ret|].
  apply gated_bind; [apply emits_context, quiet_workdir|].
  intros work l5 H5%context_Ok. pose proof (create_workdir_Ok _ _ _ _ H5) as ->.
  apply gated_workdir; [intros; by apply proton_checked_closed|].
  apply gated_checks; [apply quiet_verify_proton|]. intros [] l6 H6.
  destruct (finish_proton_follows (workdir_path "kyth-proton") ver tarball l6) as (rest & Hrest & Hcase). exists rest. split; [done|].
  injection H0 as _ <-. exists ver, tarball, checksum, l2, l5. split_and!.
  - by eapply resolve_proton_Ok.
  - etrans; [eapply emits_prefix; [apply quiet_headers|exact H1]|eapply emits_prefix; [apply quiet_resolve_proton|exact H2]].
  - eapply emits_prefix; [apply quiet_workdir|exact H5].
  - eapply emits_prefix; [apply quiet_verify_proton|exact H6].
  - by apply version_gate_Ok.
  - by eapply verify_proton_Ok.
  - done.
Qed.

End updaters.

(** * A run of the rclone updater *)

Definition toy_sha : Sha := {| sha _ s := bytes (replicate 32 (N.of_nat (String.length s))) |}.
(** One certificate, whose key signs a text by repeating it. *)
Definition toy_pgp : Pgp := {|
  Certificate := string; Subkey := unit; DetachedSignature := string;
  pgp_armored _ := None; pgp_binary s := Some [s];
  fingerprint c := c; verify_bindings _ := true; public_subkeys _ := [];
  signature_armored _ := Err "no armor"; signature_binary s := Ok s;
  verify_primary s _ data := String.eqb s data; verify_subkey _ _ _ := false;
|}.
Definition toy_manifest (digest : string) : ManifestCodec := {|
  manifest_document _ := Ok (jobject [("schema", JNumber 1);
    ("updates", JArray [jobject [("component", JString "rclone"); ("version", JString "v1.70.0");
                                 ("artifact", JString "rclone-v1.70.0-linux-amd64.zip"); ("sha256", JString digest)]])])
|}.
Definition toy_json : JsonCodec := {| json_decode _ := Err "unused"; json_encode _ := EmptyString |}.

Definition toy_zip : string := "/tmp/kyth-rclone-1f/rclone-v1.70.0-linux-amd64.zip".
Definition toy_os (archive : string) : UpdaterOs := {|
  uo_run _ argv _ :=
    Some (0, if str_in "-Z1" argv then unlines ["rclone-v1.70.0-linux-amd64/"; "rclone-v1.70.0-linux-amd64/rclone"]
             else if str_in "--version" argv then "rclone v1.70.0" else EmptyString);
  uo_do _ _ := Ok tt;
  uo_lstat log p :=
    if String.eqb p "/tmp/kyth-rclone-1f" then a_dir
    else if String.eqb p toy_zip || ends_with "SHA256SUMS" p then a_file 100
    else if ran "unzip" "-oq" log then if ends_with "/rclone" p then a_file 5 else a_dir
    else LMissing "not found";
  uo_stat log p := if ran "unzip" "-oq" log && ends_with "amd64/rclone" p then a_file 5 else LMissing "not found";
  uo_size _ _ := Ok 100;
  uo_read _ p :=
    Ok (if String.eqb p toy_zip then archive
        else if ends_with "SHA256SUMS" p
        then hex_digest (HS := toy_sha) "sha256" archive +:+ "  rclone-v1.70.0-linux-amd64.zip"
        else "key");
  uo_list _ _ := Ok [];
  uo_temp _ d := join_path d "staged";
  uo_tmp := "/tmp";
  uo_nonce := "1f";
  uo_env name := if String.eqb name "RCLONE_VERSION" then Some "v1.70.0" else None;
|}.

(** The updater against an archive, with the digest of [approved] in the manifest *)
Definition toy_run (archive approved : string) : result unit * ULog :=
  rclone_main (HO := toy_os archive) (HS := toy_sha) (HP := toy_pgp)
    (HM := toy_manifest (hex_digest (HS := toy_sha) "sha256" approved)) (HJ := toy_json) [].
Definition replaced (log : ULog) : bool :=
  existsb (λ e, match e with UDid (RenameFile _ d) (Ok tt) => String.eqb d RCLONE_BIN | _ => false end) log.

Example approved_archive_is_installed :
  fst (toy_run "archive" "archive") = Ok tt ∧ replaced (snd (toy_run "archive" "archive")) = true.
Proof. by vm_compute. Qed.

(** A release whose archive and checksum were exchanged together is refused. *)
Example exchanged_archive_is_refused :
  is_ok (fst (toy_run "other bytes" "archive")) = false
  ∧ forallb (λ e, negb (installing e)) (snd (toy_run "other bytes" "archive")) = true.
Proof. by vm_compute. Qed.
