(* ===== verification/Scheduler.v ===== *)
(** The scheduler: the arbiter's decision ([system/scheduler_arbiter.rs]), the
    evidence of a game ([system/gaming_activity.rs]), the poll machine
    ([system/sched_daemon.rs]) and the launcher that drives it ([sched_bin.rs]).

    f64 values are the binary64 numbers of the Standard Library's specification
    of IEEE arithmetic; reading one from text is a parameter, and so is TOML. *)

From Stdlib Require Import SpecFloat.
From S2P Require Import Prelude RustStr RustOs Json FileSystem Stream DaemonHttp.

(** * The arbiter *)

Module Arbiter.

Definition VALID_CHOICES : list string := ["auto"; "scx_rusty"; "bore"; "balanced"].

Record ArbiterConfig := { chosen : string; allow_ananicy_pin : bool; gamemode_pin : bool }.
Definition default_config : ArbiterConfig := {| chosen := "auto"; allow_ananicy_pin := false; gamemode_pin := false |}.

Definition normalized (choice : string) (ananicy gamemode : bool) : ArbiterConfig :=
  let choice := to_ascii_lowercase choice in
  let choice := if String.eqb choice "none" then "balanced" else choice in
  let choice := if str_in choice VALID_CHOICES then choice else "auto" in
  {| chosen := choice; allow_ananicy_pin := ananicy; gamemode_pin := gamemode |}.

Definition from_value (v : json) : ArbiterConfig :=
  normalized (unwrap_or (field as_str "chosen" v) "auto") (unwrap_or (field as_bool "allow_ananicy_pin" v) false)
    (unwrap_or (field as_bool "gamemode_pin" v) false).

(** [toml::from_str] and [toml_to_json] *)
Class TomlJson := { toml_json : string → option json }.

Definition load `{TomlJson} (text : result string) : ArbiterConfig :=
  match text with
  | Ok t => match toml_json t with Some v => from_value v | None => default_config end
  | Err _ => default_config
  end.

Definition show_bool (b : bool) : string := if b then "true" else "false".
Definition to_toml (c : ArbiterConfig) : string :=
  unlines ["# Kyth scheduler arbiter — single writer for placement";
           "# chosen: auto (detect SCX), scx_rusty, bore, balanced";
           "chosen = " +:+ quote +:+ chosen c +:+ quote;
           "allow_ananicy_pin = " +:+ show_bool (allow_ananicy_pin c);
           "gamemode_pin = " +:+ show_bool (gamemode_pin c)].
Definition config_value (c : ArbiterConfig) : json :=
  jobject [("chosen", JString (chosen c)); ("allow_ananicy_pin", JBool (allow_ananicy_pin c)); ("gamemode_pin", JBool (gamemode_pin c))].

Record DesiredState := {
  ds_chosen : string; ds_active : string; ds_scx_active : bool; ds_bore_available : bool;
  ds_gamemode_pin : bool; ds_allow_ananicy_pin : bool;
}.

Definition desired_state (c : ArbiterConfig) (scx_active bore_available : bool) : DesiredState :=
  let active := if String.eqb (chosen c) "auto"
                then if scx_active then "scx_rusty" else if bore_available then "bore" else "balanced"
                else chosen c in
  let pins := if String.eqb active "scx_rusty" || scx_active then (false, false)
              else if String.eqb active "bore" then (gamemode_pin c, allow_ananicy_pin c) else (false, false) in
  {| ds_chosen := chosen c; ds_active := active; ds_scx_active := scx_active; ds_bore_available := bore_available;
     ds_gamemode_pin := fst pins; ds_allow_ananicy_pin := snd pins |}.

Definition state_value (s : DesiredState) : json :=
  jobject [("chosen", JString (ds_chosen s)); ("active", JString (ds_active s)); ("scx_active", JBool (ds_scx_active s));
           ("bore_available", JBool (ds_bore_available s)); ("gamemode_pin", JBool (ds_gamemode_pin s));
           ("allow_ananicy_pin", JBool (ds_allow_ananicy_pin s))].
Definition active_from_flag (v : json) : string := unwrap_or (field as_str "active" v) "unknown".

(** [run_bounded] with a timeout of two seconds; the exit code and the output. *)
Definition detect_scx_active (run : list string → option (bool * string)) : bool :=
  existsb (λ service, match run ["systemctl"; "is-active"; "--quiet"; service] with Some (ok, _) => ok | None => false end)
    ["scx_loader.service"; "scx.service"]
  || match run ["pgrep"; "-x"; "scx_rusty"] with Some (ok, stdout) => ok && negb (is_empty stdout) | None => false end.

(** ** [gamemode.ini]

    The expression [(?m)^\s*pin_cores\s*=.*$]: white space of any lines, the
    name, white space, an equals sign and the rest of that line.  A match from the
    start of a line is the line's rest behind it. *)

Fixpoint rest_of_line (s : string) : string :=
  match s with String c r => if Ascii.eqb c "010" then s else rest_of_line r | EmptyString => EmptyString end.
Definition pin_match (s : string) : option string :=
  rest ← strip_prefix "pin_cores" (trim_start s);
  rest ← strip_prefix "=" (trim_start rest);
  Some (rest_of_line rest).

(** [replace_all], from a place that is the start of a line or not; each turn
    takes a byte at least. *)
Fixpoint replace_pins (fuel : nat) (line : string) (at_start : bool) (s : string) : string :=
  match fuel with
  | O => s
  | S fuel =>
      match (if at_start then pin_match s else None), s with
      | Some rest, _ => line +:+ replace_pins fuel line false rest
      | None, String c r => String c (replace_pins fuel line (Ascii.eqb c "010") r)
      | None, EmptyString => EmptyString
      end
  end.
Fixpoint has_pin (at_start : bool) (s : string) : bool :=
  (at_start && match pin_match s with Some _ => true | None => false end)
  || match s with String c r => has_pin (Ascii.eqb c "010") r | EmptyString => false end.

(** [text.replacen(from, to, 1)] *)
Definition replace_first (from to s : string) : string :=
  match position_of from s with Some n => stake n s +:+ to +:+ sdrop (n + String.length from) s | None => s end.

Definition pin_line (pin : bool) : string := "pin_cores = " +:+ (if pin then "yes" else "no").

(** The new text, if the file is to be written. *)
Definition synced_text (pin : bool) (text : string) : option string :=
  let updated := if has_pin true text then Some (replace_pins (S (String.length text)) (pin_line pin) true text)
                 else if contains_str "[cpu]" text then Some (replace_first "[cpu]" ("[cpu]" +:+ newline +:+ pin_line pin) text)
                 else None in
  match updated with Some u => if String.eqb u text then None else Some u | None => None end.

Definition sync_gamemode_pin (is_file : bool) (read : result string) (write : string → result unit) (pin : bool) : result bool :=
  if negb is_file then Ok false
  else
    let? text := read in
    match synced_text pin text with
    | None => Ok false
    | Some updated => let? _ := write updated in Ok true
    end.

(** A pin is only asked for under BORE with no sched-ext scheduler running, and
    only as configured. *)
Lemma pins_only_under_bore c scx bore s :
  s = desired_state c scx bore →
  (ds_gamemode_pin s = true → ds_active s = "bore" ∧ scx = false ∧ gamemode_pin c = true)
  ∧ (ds_allow_ananicy_pin s = true → ds_active s = "bore" ∧ scx = false ∧ allow_ananicy_pin c = true).
Proof.
  intros ->. unfold desired_state. cbn. set (active := if String.eqb (chosen c) "auto" then _ else _).
  destruct (String.eqb active "scx_rusty") eqn:E1; [done|]. destruct scx; [done|]. cbn.
  destruct (String.eqb_spec active "bore") as [->|]; done.
Qed.

Lemma normalized_valid choice a g : chosen (normalized choice a g) ∈ VALID_CHOICES.
Proof. unfold normalized. cbn [chosen]. case_match eqn:E; [by apply str_in_true|]. unfold VALID_CHOICES. set_solver. Qed.

(** The rewrite is not limited to the [cpu] section, and takes blank lines above
    the setting with it. *)
Example pin_outside_cpu_rewritten :
  synced_text true (unlines ["[gpu]"; EmptyString; "  pin_cores=park"; "[cpu]"]) = Some (unlines ["[gpu]"; "pin_cores = yes"; "[cpu]"]).
Proof. by vm_compute. Qed.

Example pin_inserted_then_kept :
  synced_text false (unlines ["[cpu]"; "x=1"]) = Some (unlines ["[cpu]"; "pin_cores = no"; "x=1"])
  ∧ synced_text false (unlines ["[cpu]"; "pin_cores = no"; "x=1"]) = None.
Proof. by vm_compute. Qed.

End Arbiter.

(** * Evidence of a game *)

Module Evidence.

Definition GAMING_PROCS : list string := ["gamescope"; "wine"; "wine64"; "wineserver"; "wine-preloader"; "pressure-vessel-wrap"].

Definition active_uids_from_loginctl (output : string) : list Z :=
  let uids := filter_map (λ line, uid ← split_whitespace line !! 2%nat; parse_u32 uid) (lines output) in
  remove_dups (merge_sort Z.le uids).

Definition gamemode_active (command_succeeded : bool) (output : string) : bool :=
  command_succeeded && match last (split_whitespace output) ≫= parse_i64 with Some v => 0 <? v | None => false end.

Definition is_gaming_process (executable : string) : bool :=
  match file_name executable with Some name => existsb (eq_ignore_ascii_case name) GAMING_PROCS | None => false end.

Definition among (l : list Z) (x : Z) : bool := existsb (Z.eqb x) l.

Definition gaming_reason (uid : option Z) (check_all_uids : bool) (sessions gamescope gamemode : list Z) (process_active : bool)
    (current_uid : Z) : option string :=
  let uids := if check_all_uids then sessions else [] in
  let uids := match uid with Some u => if among uids u then uids else uids ++ [u] | None => uids end in
  let uids := match uids with [] => [current_uid] | _ => uids end in
  match find_first (among gamescope) uids with
  | Some u => Some ("gamescope session active (uid " +:+ show_int u +:+ ")")
  | None =>
      match find_first (among gamemode) uids with
      | Some u => Some ("GameMode active (uid " +:+ show_int u +:+ ")")
      | None => if process_active then Some "gaming process detected (/proc scan)" else None
      end
  end.

(** [proc_gaming_active_in]: the entries of the directory with the link of their
    executable *)
Definition proc_gaming_active (entries : result (list (string * result string))) : bool :=
  match entries with
  | Ok l => existsb (λ e : string * result string,
              str_all is_ascii_digit (fst e) && match snd e with Ok target => is_gaming_process target | Err _ => false end) l
  | Err _ => false
  end.

(** The verdicts of the users asked before the deadline; [late n] when the clock
    has passed it before the [n]-th is asked. *)
Fixpoint filter_uids_with_deadline (n : nat) (late : nat → bool) (query : Z → bool) (uids : list Z) : list Z :=
  match uids with
  | [] => []
  | uid :: rest =>
      if late n then []
      else let rest := filter_uids_with_deadline (S n) late query rest in if query uid then uid :: rest else rest
  end.

Definition nonempty_text (s : string) : option string := if is_empty s then None else Some s.

(** ** The cache: times are seconds as binary64 numbers. *)

Notation f64 := spec_float.
Definition f64_of_int (n : Z) : f64 := binary_normalize 53 1024 n 0 false.
Definition f64_sub : f64 → f64 → f64 := SFsub 53 1024.
Definition f64_mul : f64 → f64 → f64 := SFmul 53 1024.
Definition GAMING_CACHE_TTL : f64 := f64_of_int 60.

Definition CacheKey : Type := option Z * bool.
Definition GamingCache : Type := gmap CacheKey (f64 * option string).

Definition check (now : f64) (uid : option Z) (check_all_uids : bool) (sessions gamescope gamemode : list Z) (process_active : bool)
    (current_uid : Z) (cache : GamingCache) : option string * GamingCache :=
  let verdict := gaming_reason uid check_all_uids sessions gamescope gamemode process_active current_uid in
  match cache !! (uid, check_all_uids) with
  | Some (stamp, value) =>
      if SFltb (f64_sub now stamp) GAMING_CACHE_TTL then (value, cache)
      else (verdict, <[(uid, check_all_uids) := (now, verdict)]> cache)
  | None => (verdict, <[(uid, check_all_uids) := (now, verdict)]> cache)
  end.


Lemma among_spec l x : among l x = true ↔ x ∈ l.
Proof. unfold among. rewrite existsb_elem_of. split; [intros (y & Hy & ->%Z.eqb_eq); done|]. intros Hx. exists x. by rewrite Z.eqb_refl. Qed.

(** A game of the user, by any of the three signs, is a reason, and there is no
    other one. *)
Lemma gaming_reason_spec uid sessions gamescope gamemode process_active current :
  is_Some (gaming_reason (Some uid) false sessions gamescope gamemode process_active current)
  ↔ uid ∈ gamescope ∨ uid ∈ gamemode ∨ process_active = true.
Proof.
  unfold gaming_reason. cbn. rewrite <-!among_spec. destruct (among gamescope uid); [naive_solver|].
  destruct (among gamemode uid); [naive_solver|]. destruct process_active; [naive_solver|].
  split; [intros [? ?]; done|]. naive_solver.
Qed.

End Evidence.

(** * The poll machine *)

Module Poll.
Import Evidence.

Record SchedConfig := {
  desktop_scheduler : string; gaming_scheduler : string; poll_interval : f64; integrate_perf_mode : bool;
}.

Definition POLL_INTERVAL_MIN : f64 := f64_of_int 2.
Definition POLL_INTERVAL_MAX : f64 := f64_of_int 60.
Definition default_interval : f64 := f64_of_int 5.

Definition is_finite (v : f64) : bool := match v with S754_zero _ | S754_finite _ _ _ => true | _ => false end.
Definition clamp_poll_interval (v : f64) : f64 :=
  if negb (is_finite v) then default_interval
  else if SFltb v POLL_INTERVAL_MIN then POLL_INTERVAL_MIN
  else if SFltb POLL_INTERVAL_MAX v then POLL_INTERVAL_MAX else v.

(** [str::parse::<f64>] *)
Class ParseF64 := { parse_f64 : string → option f64 }.

Section config.
Context {HT : Arbiter.TomlJson} {HF : ParseF64}.

Definition config_string (config : gmap string json) (key fallback : string) : string :=
  match config !! key with
  | Some (JString t) => t
  | Some (JNumber n) => show_int n
  | Some (JFloat t) => t
  | Some (JBool b) => Arbiter.show_bool b
  | _ => fallback
  end.
Definition config_float (config : gmap string json) (key : string) (fallback : f64) : f64 :=
  match config !! key with
  | Some (JNumber n) => f64_of_int n
  | Some (JFloat t) => unwrap_or (parse_f64 t) fallback
  | Some (JString t) => unwrap_or (parse_f64 (trim t)) fallback
  | _ => fallback
  end.

(** [load_toml_config]: the texts of the candidates that can be read, in order *)
Fixpoint load_toml_config (defaults : gmap string json) (section : string) (texts : list string) : gmap string json :=
  match texts with
  | [] => defaults
  | text :: rest =>
      match Arbiter.toml_json text with
      | Some (JObject table) =>
          match table !! section with
          | Some (JObject selected) => selected ∪ defaults
          | Some _ => defaults
          | None => table ∪ defaults
          end
      | _ => load_toml_config defaults section rest
      end
  end.

Definition config_defaults : gmap string json :=
  {["desktop_scheduler" := JString "default"; "gaming_scheduler" := JString "scx_rusty"; "poll_interval" := JNumber 5;
    "integrate_perf_mode" := JBool true]}.

Definition truthy (v : json) : bool :=
  match v with
  | JBool b => b
  | JNumber n => negb (n =? 0)
  | JFloat t => match parse_f64 t with Some f => negb (SFeqb f (S754_zero false)) | None => false end
  | JString t => negb (is_empty (trim t))
  | _ => false
  end.
Definition load_sched_config (texts : list string) : SchedConfig :=
  let merged := load_toml_config config_defaults "scheduler" texts in
  {| desktop_scheduler := config_string merged "desktop_scheduler" "default";
     gaming_scheduler := config_string merged "gaming_scheduler" "scx_rusty";
     poll_interval := clamp_poll_interval (config_float merged "poll_interval" default_interval);
     integrate_perf_mode := match merged !! "integrate_perf_mode" with Some v => truthy v | None => false end |}.
End config.

Definition SCX_RETRY_POLLS : Z := 6.
Definition SCX_SET_ATTEMPTS : nat := 3.

Inductive SchedEffect := SetScheduler (name : string) | EnterGamingPerf | RestorePerf.

Record SchedState := {
  profile : string; gaming_prev : bool; manual_override : option string;
  applied_scheduler : option string; polls_since_attempt : Z;
}.
Definition new_state : SchedState :=
  {| profile := "desktop"; gaming_prev := false; manual_override := None; applied_scheduler := None; polls_since_attempt := 0 |}.
Definition scheduler_applied (name : string) (s : SchedState) : SchedState :=
  {| profile := profile s; gaming_prev := gaming_prev s; manual_override := manual_override s;
     applied_scheduler := Some name; polls_since_attempt := polls_since_attempt s |}.
Definition with_override (o : option string) (s : SchedState) : SchedState :=
  {| profile := profile s; gaming_prev := gaming_prev s; manual_override := o;
     applied_scheduler := applied_scheduler s; polls_since_attempt := polls_since_attempt s |}.
Definition with_polls (n : Z) (s : SchedState) : SchedState :=
  {| profile := profile s; gaming_prev := gaming_prev s; manual_override := manual_override s;
     applied_scheduler := applied_scheduler s; polls_since_attempt := n |}.

(** [effective == gaming] *)
Definition gaming_effective (s : SchedState) (gaming_detected : bool) : bool :=
  String.eqb (unwrap_or (manual_override s) (if gaming_detected then "gaming" else "desktop")) "gaming".
Definition wanted (config : SchedConfig) (gaming_now : bool) : string :=
  if gaming_now then gaming_scheduler config else desktop_scheduler config.
Definition unconfirmed (s : SchedState) (name : string) : bool := negb (bool_decide (applied_scheduler s = Some name)).

Definition poll_step (s : SchedState) (config : SchedConfig) (gaming_detected : bool) : SchedState * list SchedEffect :=
  let gaming_now := gaming_effective s gaming_detected in
  let name := wanted config gaming_now in
  let transitioned := negb (Bool.eqb gaming_now (gaming_prev s)) in
  let retry_due := unconfirmed s name && (SCX_RETRY_POLLS <=? polls_since_attempt s) in
  if negb transitioned && negb retry_due then
    (if unconfirmed s name then with_polls (Z.min (2 ^ 32 - 1) (polls_since_attempt s + 1)) s else s, [])
  else
    ({| profile := if gaming_now then "gaming" else "desktop"; gaming_prev := gaming_now; manual_override := manual_override s;
        applied_scheduler := applied_scheduler s; polls_since_attempt := 0 |},
     SetScheduler name ::
     (if transitioned && integrate_perf_mode config then [if gaming_now then EnterGamingPerf else RestorePerf] else [])).

(** * The launcher *)

Inductive SEvent :=
| Ran (argv : list string) (timeout : Z) (answer : option (Z * string))
| Spawned (mode : string)                        (* [kyth-performance-mode mode] *)
| WroteStatus (path : string) (document : json).
Definition SLog : Type := list SEvent.

Class SchedOs := {
  so_run : SLog → list string → Z → option (Z * string);
  so_perf_mode : SLog → bool;                    (* [kyth-performance-mode] is there *)
  so_sysfs : SLog → option string;               (* the text of [/sys/kernel/sched_ext/root/ops] *)
  so_mkdir : SLog → bool;
  so_now : SLog → Z;
  so_runtime_dir : string;
}.

Section launcher.
Context {HO : SchedOs}.

Definition run_text (argv : list string) (timeout : Z) (log : SLog) : bool * string * SLog :=
  let answer := so_run log argv timeout in
  match answer with
  | Some (0, stdout) => (true, trim stdout, log ++ [Ran argv timeout answer])
  | _ => (false, EmptyString, log ++ [Ran argv timeout answer])
  end.

Definition set_argv (name : string) : list string :=
  if String.eqb name "default" then ["sudo"; "-n"; "/usr/bin/kyth-scx"; "stop"]
  else ["sudo"; "-n"; "/usr/bin/kyth-scx"; "set"; name].
Definition set_scheduler (name : string) (log : SLog) : bool * SLog :=
  let '(ok, _, log) := run_text (set_argv name) 5 log in (ok, log).
(** [attempts.max(1)] attempts: the first, and at most [more] *)
Fixpoint set_scheduler_with_retry (more : nat) (name : string) (log : SLog) : bool * SLog :=
  let '(ok, log) := set_scheduler name log in
  if ok then (true, log)
  else match more with O => (false, log) | S more => set_scheduler_with_retry more name log end.

Definition configured_line (line : string) : option string :=
  if starts_with "Configured scheduler:" line then nonempty_text (trim (unwrap_or (last (split_char ":" line)) EmptyString)) else None.
Definition current_scheduler (log : SLog) : string * SLog :=
  match so_sysfs log with
  | Some text => (trim text, log)
  | None =>
      let '(ok, out, log) := run_text ["kyth-scx"; "status"] 5 log in
      (unwrap_or (if ok then find_map configured_line (lines out) else None) "unknown", log)
  end.

Definition write_status (profile scheduler : string) (gaming manual_override : bool) (log : SLog) : SLog :=
  if negb (so_mkdir log) then log
  else log ++ [WroteStatus (join_path so_runtime_dir "kyth-sched-status.json")
         (jobject [("profile", JString profile); ("scheduler", JString scheduler); ("gaming_active", JBool gaming);
                   ("manual_override", JBool manual_override); ("ts", JNumber (so_now log))])].

Definition spawn_perf_mode (mode : string) (log : SLog) : SLog := if so_perf_mode log then log ++ [Spawned mode] else log.
Definition enter_gaming_perf_mode (log : SLog) : SLog := spawn_perf_mode "gaming" (spawn_perf_mode "save" log).

Definition apply_effect (sl : SchedState * SLog) (effect : SchedEffect) : SchedState * SLog :=
  let '(s, log) := sl in
  match effect with
  | SetScheduler name =>
      let '(ok, log) := set_scheduler_with_retry (SCX_SET_ATTEMPTS - 1) name log in
      (if ok then scheduler_applied name s else s, log)
  | EnterGamingPerf => (s, enter_gaming_perf_mode log)
  | RestorePerf => (s, spawn_perf_mode "restore" log)
  end.

(** One turn of the loop: what the signals have left since the last one, and
    whether a game is detected. *)
Inductive Override := NoSignal | ForceGaming | ClearOverride.
Record Turn := { tn_reload : option SchedConfig; tn_override : Override; tn_detected : bool }.

Definition overridden (o : Override) (s : SchedState) : SchedState :=
  match o with NoSignal => s | ForceGaming => with_override (Some "gaming") s | ClearOverride => with_override None s end.

Definition turn (t : Turn) (c : SchedConfig * SchedState * SLog) : SchedConfig * SchedState * SLog :=
  let '(config, s, log) := c in
  let config := unwrap_or (tn_reload t) config in
  let s := overridden (tn_override t) s in
  let '(s, effects) := poll_step s config (tn_detected t) in
  let '(s, log) := foldl apply_effect (s, log) effects in
  let '(scheduler, log) := current_scheduler log in
  (config, s, write_status (profile s) scheduler (tn_detected t) (match manual_override s with Some _ => true | None => false end) log).

Definition started (config : SchedConfig) : SchedConfig * SchedState * SLog :=
  (config, new_state, snd (set_scheduler_with_retry (SCX_SET_ATTEMPTS - 1) (desktop_scheduler config) [])).
Definition sched_main (config : SchedConfig) (turns : list Turn) : SchedConfig * SchedState * SLog :=
  foldl (λ c t, turn t c) (started config) turns.

(** ** Performance mode follows the game *)

Definition spawned (log : SLog) : list string := filter_map (λ e, match e with Spawned m => Some m | _ => None end) log.

(** The profile of every turn, from the signals and the detection alone, with
    whether performance mode is to follow it *)
Fixpoint profiles (config : SchedConfig) (forced : bool) (turns : list Turn) : list (bool * bool) :=
  match turns with
  | [] => []
  | t :: turns =>
      let config := unwrap_or (tn_reload t) config in
      let forced := match tn_override t with NoSignal => forced | ForceGaming => true | ClearOverride => false end in
      (forced || tn_detected t, integrate_perf_mode config) :: profiles config forced turns
  end.
(** What is run at the edges of that sequence, those left out at which
    performance mode is not to follow the profile: an edge counts only if the
    configuration of its own poll asks for it. *)
Fixpoint perf_edges (prev : bool) (l : list (bool * bool)) : list string :=
  match l with
  | [] => []
  | (now, integrate) :: l =>
      (if Bool.eqb now prev || negb integrate then [] else if now then ["save"; "gaming"] else ["restore"]) ++ perf_edges now l
  end.

Lemma spawned_app a b : spawned (a ++ b) = spawned a ++ spawned b.
Proof. apply filter_map_app. Qed.

Lemma run_text_log argv timeout log : ∃ a, snd (run_text argv timeout log) = log ++ [Ran argv timeout a].
Proof. unfold run_text. exists (so_run log argv timeout). by destruct (so_run log argv timeout) as [[[] ?]|]. Qed.

(** The commands of a switch, and nothing else *)
Lemma set_retry_log more name log :
  ∃ answers, snd (set_scheduler_with_retry more name log) = log ++ (Ran (set_argv name) 5 <$> answers) ∧ answers ≠ [].
Proof.
  revert log. induction more as [|more IH]; intros log; cbn [set_scheduler_with_retry]; unfold set_scheduler;
    destruct (run_text_log (set_argv name) 5 log) as (a & Ha); destruct (run_text (set_argv name) 5 log) as [[ok out] l]; cbn in Ha; subst l.
  - exists [a]. by destruct ok.
  - destruct ok; [by exists [a]|]. destruct (IH (log ++ [Ran (set_argv name) 5 a])) as (answers & -> & _).
    exists (a :: answers). by rewrite <-app_assoc.
Qed.

Lemma status_log log : ∃ news, snd (current_scheduler log) = log ++ news ∧ Forall (λ e, ∃ a, e = Ran ["kyth-scx"; "status"] 5 a) news.
Proof.
  unfold current_scheduler. destruct (so_sysfs log) as [text|]; [exists []; by rewrite app_nil_r|].
  destruct (run_text_log ["kyth-scx"; "status"] 5 log) as (a & Ha). destruct (run_text _ 5 log) as [[ok out] l]. cbn in Ha. subst l.
  exists [Ran ["kyth-scx"; "status"] 5 a]. split; [done|]. repeat constructor. eauto.
Qed.
Lemma write_status_log p sch g o log : ∃ news, write_status p sch g o log = log ++ news ∧ Forall (λ e, ∃ path d, e = WroteStatus path d) news.
Proof.
  unfold write_status. destruct (negb _); [exists []; by rewrite app_nil_r|]. eexists. split; [done|]. repeat constructor. eauto.
Qed.

(** The status line and the status document close every turn. *)
Definition background (e : SEvent) : Prop :=
  match e with Ran argv _ _ => argv = ["kyth-scx"; "status"] | WroteStatus _ _ => True | Spawned _ => False end.

Lemma turn_unfold t config s log :
  let config' := unwrap_or (tn_reload t) config in
  let p := poll_step (overridden (tn_override t) s) config' (tn_detected t) in
  let e := foldl apply_effect (fst p, log) (snd p) in
  ∃ tail, turn t (config, s, log) = (config', fst e, snd e ++ tail) ∧ Forall background tail.
Proof.
  cbn zeta. unfold turn. destruct (poll_step _ _ _) as [s1 effects]. cbn [fst snd].
  destruct (foldl apply_effect (s1, log) effects) as [s2 l2]. cbn [fst snd].
  destruct (status_log l2) as (n1 & Hl & Hn1). destruct (current_scheduler l2) as [sch l3]. cbn in Hl. subst l3.
  destruct (write_status_log (profile s2) sch (tn_detected t) (match manual_override s2 with Some _ => true | None => false end) (l2 ++ n1))
    as (n2 & -> & Hn2).
  exists (n1 ++ n2). rewrite app_assoc. split; [done|]. apply Forall_app. split.
  - eapply Forall_impl; [exact Hn1|]. by intros e (a & ->).
  - eapply Forall_impl; [exact Hn2|]. by intros e (path & d & ->).
Qed.

Lemma spawned_background tail : Forall background tail → spawned tail = [].
Proof. induction 1 as [|[] tail He _ IH]; cbn; done. Qed.

Lemma spawned_retry more name log : spawned (snd (set_scheduler_with_retry more name log)) = spawned log.
Proof.
  destruct (set_retry_log more name log) as (answers & -> & _). rewrite spawned_app.
  assert (spawned (Ran (set_argv name) 5 <$> answers) = []) as ->; [|by rewrite app_nil_r].
  clear. by induction answers.
Qed.

(** What a state keeps of the earlier turns *)
Definition tracks (s : SchedState) (prev forced : bool) : Prop :=
  gaming_prev s = prev ∧ manual_override s = (if forced then Some "gaming" else None).

Lemma effective_tracks s prev forced detected :
  tracks s prev forced → gaming_effective s detected = forced || detected.
Proof. intros [_ Ho]. unfold gaming_effective. rewrite Ho. by destruct forced, detected. Qed.

Lemma apply_set_tracks s log name prev forced :
  tracks s prev forced → tracks (fst (apply_effect (s, log) (SetScheduler name))) prev forced.
Proof. intros [? ?]. cbn [apply_effect]. by destruct (set_scheduler_with_retry _ _ _) as [[] ?]. Qed.

Lemma turn_perf (Hperf : ∀ log, so_perf_mode log = true) t config s log prev forced :
  tracks s prev forced →
  ∃ config' s' log' now forced', turn t (config, s, log) = (config', s', log') ∧ tracks s' now forced'
    ∧ config' = unwrap_or (tn_reload t) config
    ∧ forced' = match tn_override t with NoSignal => forced | ForceGaming => true | ClearOverride => false end
    ∧ now = forced' || tn_detected t
    ∧ spawned log' = spawned log ++ perf_edges prev [(now, integrate_perf_mode config')].
Proof.
  intros Ht. destruct (turn_unfold t config s log) as (tail & -> & Htail). cbn zeta.
  set (config' := unwrap_or (tn_reload t) config). set (s0 := overridden (tn_override t) s).
  set (forced' := match tn_override t with NoSignal => forced | ForceGaming => true | ClearOverride => false end).
  assert (tracks s0 prev forced') as H0.
  { destruct Ht as [Hp Ho]. unfold s0, forced', tracks. by destruct (tn_override t). }
  eexists _, _, _, (forced' || tn_detected t), forced'. split; [done|]. rewrite spawned_app, (spawned_background _ Htail), app_nil_r.
  unfold poll_step. rewrite (effective_tracks _ _ _ _ H0). destruct H0 as [Hp Ho]. rewrite Hp.
  set (now := forced' || tn_detected t). set (name := wanted config' now). cbn [perf_edges]. rewrite app_nil_r.
  destruct (Bool.eqb now prev) eqn:Eq; cbn [negb orb andb].
  - apply Bool.eqb_prop in Eq. subst prev.
    destruct (unconfirmed s0 name && (SCX_RETRY_POLLS <=? polls_since_attempt s0)); cbn [negb andb fst snd foldl]; split_and!; try done.
    + by apply apply_set_tracks.
    + cbn [apply_effect]. rewrite app_nil_r. pose proof (spawned_retry (SCX_SET_ATTEMPTS - 1) name log) as Hs.
      by destruct (set_scheduler_with_retry _ _ _) as [ok l].
    + by destruct (unconfirmed s0 name).
    + by rewrite app_nil_r.
  - cbn [fst snd foldl]. destruct (integrate_perf_mode config'); cbn [foldl negb]; split_and!; try done.
    + pose proof (apply_set_tracks {| profile := if now then "gaming" else "desktop"; gaming_prev := now; manual_override := manual_override s0;
        applied_scheduler := applied_scheduler s0; polls_since_attempt := 0 |} log name now forced') as Hs.
      destruct (apply_effect _ (SetScheduler name)) as [s1 l1]. destruct now; by apply Hs.
    + cbn [apply_effect]. pose proof (spawned_retry (SCX_SET_ATTEMPTS - 1) name log) as Hs.
      destruct (set_scheduler_with_retry _ _ _) as [ok l]. cbn [snd] in Hs.
      destruct now; cbn [snd apply_effect]; unfold enter_gaming_perf_mode, spawn_perf_mode; rewrite !Hperf, ?spawned_app, Hs, <-?app_assoc; done.
    + by apply apply_set_tracks.
    + cbn [apply_effect]. pose proof (spawned_retry (SCX_SET_ATTEMPTS - 1) name log) as Hs.
      rewrite app_nil_r. by destruct (set_scheduler_with_retry _ _ _) as [ok l].
Qed.

Lemma perf_edges_cons prev p l : perf_edges prev (p :: l) = perf_edges prev [p] ++ perf_edges (fst p) l.
Proof. destruct p as [now integrate]. cbn. by rewrite app_nil_r. Qed.

Lemma turns_perf (Hperf : ∀ log, so_perf_mode log = true) turns config s log prev forced :
  tracks s prev forced →
  spawned (snd (foldl (λ c t, turn t c) (config, s, log) turns)) = spawned log ++ perf_edges prev (profiles config forced turns).
Proof.
  revert config s log prev forced. induction turns as [|t turns IH]; intros config s log prev forced Ht.
  { cbn [foldl snd profiles perf_edges]. by rewrite app_nil_r. }
  cbn [foldl]. destruct (turn_perf Hperf t config s log prev forced Ht) as (config' & s' & log' & now & forced' & -> & Ht' & Hc & Hf & Hn & Hs).
  rewrite (IH _ _ _ _ _ Ht'), Hs, <-app_assoc. f_equal. cbn [profiles]. cbv zeta. rewrite <-Hc, <-Hf, <-Hn. symmetry. apply (perf_edges_cons prev (now, integrate_perf_mode config')).
Qed.

(** C31: performance mode follows the game and nothing else.  Where the
    performance tool is installed, whatever the scheduler commands answer and
    however often a failed switch is retried, the modes the daemon asks for over any
    sequence of polls, signals and reloads are those of the edges of the profile that
    the signals and the detection give, each once: save and gaming where it rises,
    restore where it falls, at the edges where the configuration in force has the
    integration on.  An edge with the integration off asks for nothing, so a game
    that began before it was turned off is never restored
    ([reload_keeps_gaming_mode]). *)
Theorem perf_mode_follows_game (Hperf : ∀ log, so_perf_mode log = true) config turns :
  spawned (snd (sched_main config turns)) = perf_edges false (profiles config false turns).
Proof.
  unfold sched_main, started. rewrite (turns_perf Hperf _ _ _ _ false false) by done. by rewrite spawned_retry.
Qed.

(** ** A switch is retried until it is confirmed *)

Definition is_switch (e : SEvent) : bool := match e with Ran (p :: _) _ _ => String.eqb p "sudo" | _ => false end.
Definition switched (name : string) (e : SEvent) : Prop := ∃ a, e = Ran (set_argv name) 5 a.

(** A command that asks for a scheduler, and one that reported success *)
Definition asks (name : string) (e : SEvent) : bool :=
  match e with Ran argv _ _ => bool_decide (argv = set_argv name) | _ => false end.
Definition confirms (name : string) (e : SEvent) : bool :=
  match e with Ran _ _ (Some (0, _)) => asks name e | _ => false end.
Definition requests (name : string) (log : SLog) : Z := Z.of_nat (length (filterb (asks name) log)).

Lemma asks_is_switch name e : is_switch e = false → asks name e = false.
Proof.
  destruct e as [argv t a| |]; [|done..]. cbn. intros Hs. apply bool_decide_eq_false_2. intros ->.
  unfold set_argv in Hs. by destruct (String.eqb _ _).
Qed.
Lemma confirms_asks name e : asks name e = false → confirms name e = false.
Proof. destruct e as [argv t [[[] out]|]| |]; done. Qed.
Lemma quiet_confirms name l : Forall (λ e, is_switch e = false) l → existsb (confirms name) l = false.
Proof. induction 1 as [|e l He _ IH]; [done|]. cbn [existsb]. by rewrite IH, (confirms_asks _ _ (asks_is_switch name _ He)). Qed.

Lemma requests_app name a b : requests name (a ++ b) = requests name a + requests name b.
Proof.
  unfold requests. assert (filterb (asks name) (a ++ b) = filterb (asks name) a ++ filterb (asks name) b) as ->.
  { induction a as [|e a IH]; [done|]. cbn [filterb app]. rewrite IH. by destruct (asks name e). }
  rewrite length_app. lia.
Qed.
Lemma requests_exists name l : Exists (switched name) l → 1 <= requests name l.
Proof.
  unfold requests. induction 1 as [e l (a & ->)|e l _ IH]; cbn [filterb asks].
  - rewrite bool_decide_eq_true_2 by done. cbn. lia.
  - destruct (asks name e); cbn [length]; lia.
Qed.

(** The attempts of one switch succeed when one of their commands did. *)
Lemma set_retry_confirms more name log :
  ∃ news, snd (set_scheduler_with_retry more name log) = log ++ news ∧ Exists (switched name) news
    ∧ fst (set_scheduler_with_retry more name log) = existsb (confirms name) news.
Proof.
  revert log. induction more as [|more IH]; intros log; cbn [set_scheduler_with_retry]; unfold set_scheduler, run_text;
    set (a := so_run log (set_argv name) 5).
  all: assert (confirms name (Ran (set_argv name) 5 a) = match a with Some (0, _) => true | _ => false end) as Hc
    by (destruct a as [[[] out]|]; cbn; by rewrite ?bool_decide_eq_true_2).
  all: assert (switched name (Ran (set_argv name) 5 a)) as Hs by (by exists a).
  - exists [Ran (set_argv name) 5 a]. cbn [existsb]. rewrite Hc. split_and!; [|by left|]; by destruct a as [[[] out]|].
  - destruct a as [[[|p|p] out]|] eqn:Ea; cbn [fst snd]; cycle 0.
    + exists [Ran (set_argv name) 5 (Some (0, out))]. cbn [existsb]. rewrite Hc. split_and!; [done|by left|done].
    + destruct (IH (log ++ [Ran (set_argv name) 5 (Some (Z.pos p, out))])) as (news & -> & Hex & ->).
      exists (Ran (set_argv name) 5 (Some (Z.pos p, out)) :: news). cbn [existsb]. rewrite Hc, <-app_assoc. split_and!; [done|by left|done].
    + destruct (IH (log ++ [Ran (set_argv name) 5 (Some (Z.neg p, out))])) as (news & -> & Hex & ->).
      exists (Ran (set_argv name) 5 (Some (Z.neg p, out)) :: news). cbn [existsb]. rewrite Hc, <-app_assoc. split_and!; [done|by left|done].
    + destruct (IH (log ++ [Ran (set_argv name) 5 None])) as (news & -> & Hex & ->).
      exists (Ran (set_argv name) 5 None :: news). cbn [existsb]. rewrite Hc, <-app_assoc. split_and!; [done|by left|done].
Qed.

Lemma switch_background tail : Forall background tail → Forall (λ e, is_switch e = false) tail.
Proof. intros H. eapply Forall_impl; [exact H|]. intros [argv t a| |] He; cbn in He; by subst. Qed.

(** Turns without signals in which the profile is [gaming]; the wanted
    scheduler is [name]. *)
Definition steady (s : SchedState) (gaming : bool) (t : Turn) : Prop :=
  tn_reload t = None ∧ tn_override t = NoSignal ∧ gaming_effective s (tn_detected t) = gaming.

Lemma spawn_log mode log : ∃ news, spawn_perf_mode mode log = log ++ news ∧ Forall (λ e, is_switch e = false) news.
Proof.
  unfold spawn_perf_mode. destruct (so_perf_mode log); [eexists; split; [done|by repeat constructor]|].
  exists []. by rewrite app_nil_r.
Qed.

Lemma apply_switch s log name perf :
  perf = [] ∨ perf = [EnterGamingPerf] ∨ perf = [RestorePerf] →
  ∃ news, Exists (switched name) news ∧
    foldl apply_effect (s, log) (SetScheduler name :: perf)
    = (if existsb (confirms name) news then scheduler_applied name s else s, log ++ news).
Proof.
  intros Hperf. cbn [foldl apply_effect]. destruct (set_retry_confirms (SCX_SET_ATTEMPTS - 1) name log) as (n1 & Hl & Hex & Hok).
  destruct (set_scheduler_with_retry _ _ _) as [ok l]. cbn [fst snd] in *. subst l ok. set (s1 := if existsb _ n1 then _ else s).
  assert (∃ more, foldl apply_effect (s1, log ++ n1) perf = (s1, (log ++ n1) ++ more) ∧ Forall (λ e, is_switch e = false) more)
    as (more & Hm & Hq).
  { destruct Hperf as [->|[->| ->]]; cbn [foldl apply_effect]; [exists []; by rewrite app_nil_r| |].
    - unfold enter_gaming_perf_mode. destruct (spawn_log "save" (log ++ n1)) as (n2 & -> & H2).
      destruct (spawn_log "gaming" ((log ++ n1) ++ n2)) as (n3 & -> & H3).
      exists (n2 ++ n3). rewrite <-!app_assoc, Forall_app. auto.
    - destruct (spawn_log "restore" (log ++ n1)) as (n2 & -> & H2). by exists n2. }
  exists (n1 ++ more). split; [apply Exists_app; by left|].
  rewrite existsb_app, (quiet_confirms name more Hq), orb_false_r, app_assoc. exact Hm.
Qed.

Lemma turn_steady t config s log g :
  steady s g t → 0 <= polls_since_attempt s →
  let name := wanted config g in
  ∃ s' news, turn t (config, s, log) = (config, s', log ++ news) ∧ manual_override s' = manual_override s ∧ gaming_prev s' = g
    ∧ 0 <= polls_since_attempt s'
    ∧ ((gaming_prev s = g ∧ (applied_scheduler s = Some name ∨ polls_since_attempt s < SCX_RETRY_POLLS)
        ∧ Forall (λ e, is_switch e = false) news ∧ applied_scheduler s' = applied_scheduler s
        ∧ (applied_scheduler s ≠ Some name → polls_since_attempt s' = polls_since_attempt s + 1))
       ∨ (Exists (switched name) news ∧ polls_since_attempt s' = 0
          ∧ (gaming_prev s = g → applied_scheduler s ≠ Some name)
          ∧ applied_scheduler s' = if existsb (confirms name) news then Some name else applied_scheduler s)).
Proof.
  intros (Hr & Ho & Hg) Hp. cbn zeta. set (name := wanted config g). destruct (turn_unfold t config s log) as (tail & -> & Htail).
  rewrite Hr, Ho. cbn [unwrap_or overridden]. unfold poll_step. rewrite Hg. fold name.
  destruct (negb (negb (Bool.eqb g (gaming_prev s))) && negb (unconfirmed s name && (SCX_RETRY_POLLS <=? polls_since_attempt s))) eqn:Eq;
    cbn [fst snd].
  - cbn [foldl fst snd]. apply andb_true_iff in Eq as [Hsame%negb_true_iff%negb_false_iff%Bool.eqb_prop Hdue%negb_true_iff].
    eexists _, tail. split; [done|]. unfold unconfirmed in *.
    destruct (bool_decide_reflect (applied_scheduler s = Some name)) as [Ha|Ha]; cbn [negb andb] in *; (split_and!; [done|done| |left]).
    + done.
    + split_and!; [done|by left|by apply switch_background|done|done].
    + cbn. lia.
    + split_and!; [done|right; lia|by apply switch_background|done|]. intros _. cbn. unfold SCX_RETRY_POLLS in Hdue. lia.
  - match goal with |- context [foldl apply_effect (?s1, log) (_ :: ?perf)] =>
      destruct (apply_switch s1 log name perf) as (news & Hex & Hf) end.
    { case_match; [|auto]. destruct g; auto. }
    rewrite Hf. cbn [fst snd]. eexists _, (news ++ tail). rewrite app_assoc. split; [done|].
    rewrite existsb_app, (quiet_confirms name tail (switch_background _ Htail)), orb_false_r.
    split_and!; try (destruct (existsb (confirms name) news); cbn; done). right.
    split; [apply Exists_app; by left|]. split_and!; [by destruct (existsb _ news)| |by destruct (existsb _ news)].
    intros Hprev Ha. rewrite Hprev, Bool.eqb_reflx in Eq. unfold unconfirmed in Eq. rewrite bool_decide_eq_true_2 in Eq by done. done.
Qed.

Lemma steady_next s s' g t : manual_override s' = manual_override s → steady s g t → steady s' g t.
Proof. unfold steady, gaming_effective. by intros ->. Qed.

(** C37: a switch that was not confirmed is tried again.  From any state, with a
    steady profile and whatever the commands answer: (1) the scheduler on record
    becomes the wanted one exactly if a command that asks for it reported
    success, and stays as it is otherwise; (2) unless it is on record already,
    seven polls in a row (fewer when some have passed since the last attempt) ask
    for it at least once, and as long as no command succeeds it is asked for at
    least once every seven polls; (3) once it is on record, no further switch is
    made while the profile stays. *)
Theorem switch_retried turns config s log g :
  0 <= polls_since_attempt s → Forall (steady s g) turns →
  let name := wanted config g in
  ∃ s' news, foldl (λ c t, turn t c) (config, s, log) turns = (config, s', log ++ news)
    ∧ applied_scheduler s' = (if existsb (confirms name) news then Some name else applied_scheduler s)
    ∧ (applied_scheduler s ≠ Some name → Z.max 0 (SCX_RETRY_POLLS - polls_since_attempt s) < Z.of_nat (length turns) →
       Exists (switched name) news)
    ∧ (applied_scheduler s ≠ Some name → existsb (confirms name) news = false →
       Z.of_nat (length turns) + Z.min SCX_RETRY_POLLS (polls_since_attempt s)
       <= (SCX_RETRY_POLLS + 1) * requests name news + SCX_RETRY_POLLS)
    ∧ (gaming_prev s = g → applied_scheduler s = Some name → Forall (λ e, is_switch e = false) news).
Proof.
  intros Hp Hst name. revert s log Hp Hst. induction turns as [|t turns IH]; intros s log Hp Hst.
  { exists s, []. rewrite app_nil_r. split_and!; try done; unfold SCX_RETRY_POLLS, requests; cbn; lia. }
  inversion Hst as [|? ? Ht Hts]; subst.
  destruct (turn_steady t config s log g Ht Hp) as (s1 & n1 & H1 & Ho & Hg & Hp1 & Hcase). fold name in Hcase.
  destruct (IH s1 (log ++ n1) Hp1) as (s2 & n2 & H2 & Hap2 & Hretry & Hcount & Hquiet).
  { eapply Forall_impl; [exact Hts|]. intros t'. by apply steady_next. }
  exists s2, (n1 ++ n2). split; [cbn [foldl]; rewrite H1, app_assoc; exact H2|].
  rewrite existsb_app, requests_app, Exists_app, Forall_app. cbn [length]. rewrite Nat2Z.inj_succ.
  destruct Hcase as [(Hprev & Hwhy & Hn1 & Ha & Hpolls)|(Hex & Hzero & Hnew & Ha)].
  - rewrite (quiet_confirms name n1 Hn1). cbn [orb]. rewrite Ha in Hap2, Hretry, Hcount, Hquiet. split_and!; [done|..].
    + intros Hne Hlen. right. apply Hretry; [done|]. rewrite (Hpolls Hne). destruct Hwhy; [done|]. lia.
    + intros Hne Hno. specialize (Hcount Hne Hno). rewrite (Hpolls Hne) in Hcount. destruct Hwhy; [done|].
      assert (0 <= requests name n1) by (unfold requests; lia). unfold SCX_RETRY_POLLS in *. lia.
    + auto.
  - split_and!; [| by left| |intros Hprev Hap; by destruct (Hnew Hprev)].
    + rewrite Hap2, Ha. destruct (existsb _ n1), (existsb _ n2); done.
    + intros Hne [Hno1 Hno2]%orb_false_iff. rewrite Hno1 in Ha. specialize (Hcount ltac:(by rewrite Ha) Hno2).
      rewrite Hzero in Hcount. apply requests_exists in Hex. unfold SCX_RETRY_POLLS in *. lia.
Qed.
End launcher.

(** Whatever is configured, the interval is between two seconds and a minute. *)
Lemma clamp_bounds v :
  SFltb (clamp_poll_interval v) POLL_INTERVAL_MIN = false ∧ SFltb POLL_INTERVAL_MAX (clamp_poll_interval v) = false
  ∧ is_finite (clamp_poll_interval v) = true.
Proof.
  unfold clamp_poll_interval. destruct (is_finite v) eqn:Ef; [|by vm_compute]. cbn [negb].
  destruct (SFltb v POLL_INTERVAL_MIN) eqn:E1; [by vm_compute|]. destruct (SFltb POLL_INTERVAL_MAX v) eqn:E2; [by vm_compute|]. done.
Qed.

(** * Runs *)

Definition a_config : SchedConfig := {|
  desktop_scheduler := "default"; gaming_scheduler := "scx_rusty"; poll_interval := default_interval; integrate_perf_mode := true |}.
(** Every command answers with [code]. *)
Definition answering (code : Z) : SchedOs := {|
  so_run _ _ _ := Some (code, EmptyString); so_perf_mode _ := true; so_sysfs _ := Some "none"; so_mkdir _ := true; so_now _ := 0;
  so_runtime_dir := "/run/user/1000" |}.
Definition polled (detected : bool) : Turn := {| tn_reload := None; tn_override := NoSignal; tn_detected := detected |}.
Definition switches (log : SLog) : nat := length (filterb is_switch log).

Lemma perf_mode_follows_game_witness :
  (∀ log, so_perf_mode (SchedOs := answering 1) log = true)
  ∧ spawned (snd (sched_main (HO := answering 1) a_config (polled <$> [false; true; true; false]))) = ["save"; "gaming"; "restore"].
Proof.
  split; [reflexivity|]. rewrite (perf_mode_follows_game (HO := answering 1) (λ _, eq_refl) a_config). reflexivity.
Defined.

(** Seven polls whose commands all fail, and then whose commands succeed *)
Lemma switch_retried_witness :
  0 <= polls_since_attempt new_state ∧ Forall (steady new_state false) (replicate 7 (polled false))
  ∧ ∀ code, ∃ s' news, foldl (λ c t, turn (HO := answering code) t c) (a_config, new_state, []) (replicate 7 (polled false)) = (a_config, s', [] ++ news)
      ∧ Exists (switched "default") news ∧ applied_scheduler s' = (if existsb (confirms "default") news then Some "default" else None).
Proof.
  assert (0 <= polls_since_attempt new_state) as Hp by (cbn; lia).
  assert (Forall (steady new_state false) (replicate 7 (polled false))) as Hs by (repeat constructor).
  split; [exact Hp|split; [exact Hs|]]. intros code.
  destruct (switch_retried (HO := answering code) (replicate 7 (polled false)) a_config new_state [] false Hp Hs)
    as (s' & news & Hr & Ha & Hex & _).
  exists s', news. split; [exact Hr|]. split; [|exact Ha]. apply Hex; [discriminate|vm_compute; reflexivity].
Defined.

(** A failed switch is not retried on the next poll: six polls pass first. *)
Example failed_switch_waits_six_polls :
  map (λ n, switches (snd (sched_main (HO := answering 1) a_config (replicate n (polled true))))) [1; 2; 7; 8]%nat = [6; 6; 6; 9]%nat.
Proof. by vm_compute. Qed.

(** The switch at the start is not recorded, so it is made once more although it
    succeeded. *)
Example first_switch_repeated :
  map (λ n, switches (snd (sched_main (HO := answering 0) a_config (replicate n (polled false))))) [0; 6; 7; 30]%nat = [1; 1; 2; 2]%nat.
Proof. by vm_compute. Qed.

(** A reload that turns the integration off during a game leaves the machine in
    gaming mode. *)
Example reload_keeps_gaming_mode :
  spawned (snd (sched_main (HO := answering 0) a_config
    [polled true;
     {| tn_reload := Some {| desktop_scheduler := "default"; gaming_scheduler := "scx_rusty"; poll_interval := default_interval;
                             integrate_perf_mode := false |}; tn_override := NoSignal; tn_detected := true |};
     polled false])) = ["save"; "gaming"].
Proof. by vm_compute. Qed.

End Poll.
