(* ===== verification/SetupTransfer.v ===== *)
(** Moving a user's setup between machines: [setup_transfer.rs].

    An archive is untrusted: it is listed, unpacked into a work directory, swept
    for links, and what its manifest names is copied into the home directory.  The
    functions run against the same arbitrary machine as the updaters. *)

From S2P Require Import Prelude RustStr RustOs Json FileSystem UpdateCoordinator Stream DaemonHttp RustRegex Redact.
From S2P Require Import ReleaseFetch UpdateManifest Updaters.

Definition ARCHIVE_VERSION : Z := 1.
Definition ARCHIVE_PREFIX : string := "kyth-setup".
Definition SETUP_MAX_MEMBERS : Z := 100000.
Definition SETUP_MAX_BYTES : Z := 16 * 1024 * 1024 * 1024.
Definition MAX_MANIFEST_BYTES : Z := 1024 * 1024.

Definition CONFIG_PATHS : list string :=
  [".config/kdeglobals"; ".config/kglobalshortcutsrc"; ".config/kwinrc"; ".config/kwinrulesrc"; ".config/kcminputrc";
   ".config/kscreenlockerrc"; ".config/klipperrc"; ".config/plasmarc"; ".config/powerdevilrc"; ".config/spectaclerc";
   ".config/konsolerc"; ".config/kwalletrc"; ".config/kyth-cloud-sync.json"; ".config/kyth-dynamic-lock.json";
   ".config/kyth-smb-shares.json"; ".config/MangoHud"; ".config/vkBasalt"; ".local/share/kyth/profile"].
Definition FLATHUB_REPO : string := "https://dl.flathub.org/repo/flathub.flatpakrepo".
Definition DEFAULT_MIME_TYPES : list string :=
  ["text/html"; "x-scheme-handler/http"; "x-scheme-handler/https"; "x-scheme-handler/mailto"; "application/pdf"; "image/jpeg";
   "image/png"; "video/mp4"; "audio/mpeg"; "text/plain"; "inode/directory"].
Definition SECRETS_EXCLUDED : list string :=
  ["browser profiles and cookies"; "KWallet contents"; "rclone OAuth tokens"; "SMB passwords"].
Definition DYNAMIC_LOCK_CONFIG : string := ".config/kyth-dynamic-lock.json".
Definition DYNAMIC_LOCK_UNIT : string := "kyth-dynamic-lock.service".

(** * The manifest *)

Record SetupFlatpak := { sf_id : string; sf_origin : string }.
Record SetupManifest := {
  sm_format : string; sm_version : Z; sm_created : string; sm_hostname : string; sm_flatpaks : list SetupFlatpak;
  sm_default_apps : gmap string string; sm_cloud_remotes : list json; sm_copied_paths : list string; sm_secrets_excluded : list string;
}.

(** [Path::components] of a relative path keeps a leading current directory. *)
Definition rel_components (p : string) : list string :=
  (if String.eqb p "." || starts_with "./" p then ["."] else []) ++ components p.

Definition launcher_name (name : string) : bool := starts_with "kyth-" name && ends_with ".desktop" name.
Definition is_allowed_restore_path (relative : string) : bool :=
  if is_absolute relative || has_parent_dir relative then false
  else str_in relative CONFIG_PATHS
       || match rel_components relative with
          | [a; b; c; d] => String.eqb a ".local" && String.eqb b "share" && String.eqb c "applications" && launcher_name d
          | _ => false
          end.

Definition defaulted {A} (f : json → result A) (default : A) (key : string) (v : json) : result A :=
  match jget key v with None => Ok default | Some x => f x end.
Definition serde_u64 (v : json) : result Z := ok_or (as_u64 v) "invalid type: expected u64".
Definition setup_flatpak (v : json) : result SetupFlatpak :=
  guard! negb (is_struct 2 v) else "invalid type: expected struct SetupFlatpak";
  let? id := match struct_field 0 "id" v with None => Ok EmptyString | Some x => serde_string x end in
  let? origin := match struct_field 1 "origin" v with None => Ok EmptyString | Some x => serde_string x end in
  Ok {| sf_id := id; sf_origin := origin |}.
(** [BTreeMap<String, String>] *)
Definition serde_string_map (v : json) : result (gmap string string) :=
  match v with
  | JObject m => let? entries := rmap_list (λ kv : string * json, rmap (λ s, (fst kv, s)) (serde_string (snd kv))) (btree_entries m) in
                 Ok (list_to_map entries)
  | _ => Err "invalid type: expected a map"
  end.
Definition setup_manifest (v : json) : result SetupManifest :=
  let? format := required serde_string 0 "format" v in
  let? version := required serde_u64 1 "version" v in
  let? created := defaulted serde_string EmptyString "created" v in
  let? hostname := defaulted serde_string EmptyString "hostname" v in
  let? flatpaks := defaulted (serde_list setup_flatpak) [] "flatpaks" v in
  let? default_apps := defaulted serde_string_map ∅ "default_apps" v in
  let? remotes := defaulted (serde_list Ok) [] "cloud_remotes" v in
  let? copied := required (serde_list serde_string) 7 "copied_paths" v in
  let? secrets := defaulted (serde_list serde_string) [] "secrets_excluded" v in
  Ok {| sm_format := format; sm_version := version; sm_created := created; sm_hostname := hostname; sm_flatpaks := flatpaks;
        sm_default_apps := default_apps; sm_cloud_remotes := remotes; sm_copied_paths := copied; sm_secrets_excluded := secrets |}.

Definition unsupported_path : string := "The setup archive contains an unsupported settings path.".
Definition allowed_value (v : json) : bool := match as_str v with Some p => is_allowed_restore_path p | None => false end.

Section documents.
Context `{HC : JsonPretty}.

Definition validate_manifest (v : json) : result SetupManifest :=
  guard! negb (match v with JObject _ => true | _ => false end) else "The setup archive manifest is invalid.";
  guard! negb (bool_decide (field as_str "format" v = Some "KythOS setup transfer")) else "This is not a KythOS setup archive.";
  guard! negb (bool_decide (field as_u64 "version" v = Some ARCHIVE_VERSION))
    else ("Unsupported setup archive version: " +:+ json_encode (unwrap_or (jget "version" v) JNull));
  let? copied := ok_or (field as_array "copied_paths" v) unsupported_path in
  guard! negb (forallb allowed_value copied) else unsupported_path;
  guard! negb (bool_decide (NoDup (filter_map as_str copied)))
    else "The setup archive manifest contains duplicate settings paths.";
  map_err (λ _, "The setup archive manifest is malformed.") (setup_manifest v).

End documents.

Definition unknown_if_empty (s : string) : string := if is_empty s then "unknown" else s.
Definition preview_summary (m : SetupManifest) : string :=
  "Created " +:+ unknown_if_empty (sm_created m) +:+ " on " +:+ unknown_if_empty (sm_hostname m) +:+ newline
  +:+ show_int (Z.of_nat (length (sm_flatpaks m))) +:+ " Flatpak apps, " +:+ show_int (Z.of_nat (length (sm_copied_paths m)))
  +:+ " settings paths, " +:+ show_int (Z.of_nat (length (sm_cloud_remotes m))) +:+ " cloud definitions" +:+ newline
  +:+ "Passwords and login tokens are excluded. Network shares and cloud accounts will need reauthentication.".

(** * The machine *)

Class SetupOs := {
  st_home : string;
  st_canonical : ULog → string → result string;      (* [canonicalize] *)
  st_mode : ULog → string → option Z;                (* the permission bits of a file *)
  st_temp : nat → string;                            (* the number after the prefix of a work directory *)
  st_exists : string → bool;                         (* whether an error is [AlreadyExists] *)
  st_stream : ULog → list string → Z;                (* the exit code of [stream_command] *)
  st_stamp : string; st_iso_now : string; st_hostname : string;
  st_flatpak_present : bool;
  st_lowercase : string → string;                    (* [str::to_lowercase] *)
}.

Section transfer.
Context {HO : UpdaterOs} {HT : SetupOs} `{HC : JsonPretty}.

(** [run_ok] *)
Definition run_ok (argv : list string) (timeout : Z) : U (option string) :=
  do! answer <- u_run argv timeout;
  m_ret (match answer with Some (0, stdout) => Some stdout | _ => None end).
Definition tar (args : list string) (timeout : Z) : U string :=
  do! out <- run_ok ("tar" :: args) timeout;
  m_lift (ok_or out "Setup archive I/O failed: tar reported an error.").

(** [TempDir::create]: at most a hundred names *)
Definition temp_dir (prefix : string) (n : nat) : string := join_path uo_tmp (prefix +:+ "-" +:+ st_temp n).
Fixpoint create_temp (prefix : string) (n tries : nat) : U string :=
  match tries with
  | O => u_fail "Cannot create temporary directory: too many collisions"
  | S tries => λ log,
      let path := temp_dir prefix n in
      match u_do (MkDir path) log with
      | (Ok _, log) =>
          (do! _ <- u_or_undo (u_try (RemoveDir path))
                      (u_context (λ e, "Cannot secure temporary directory: " +:+ e) (u_do (Chmod path 448)));
           m_ret path) log
      | (Err e, log) => if st_exists e then create_temp prefix (S n) tries log else (Err ("Cannot create temporary directory: " +:+ e), log)
      end
  end.
Definition with_temp {A} (prefix : string) (k : string → U A) : U A :=
  do! work <- create_temp prefix 0 100;
  in_workdir work (k work).

(** * Unpacking *)

Definition unsafe_path (name : string) : string := "Unsafe archive path: " +:+ name.
Fixpoint check_members (names : list string) : result unit :=
  match names with
  | [] => Ok tt
  | name :: rest =>
      guard! negb (no_control name) else "Unsafe archive path: member contains control characters.";
      guard! is_absolute name || has_parent_dir name else unsafe_path name;
      check_members rest
  end.
Definition tar_members (archive : string) : U (list string) :=
  do! out <- tar ["-tzf"; archive] 60; m_ret (lines out).

(** The sweep for links: directories to look at, links found, bytes and entries
    so far. *)
Record Sweep := { sw_stack : list string; sw_links : list string; sw_total : Z; sw_seen : Z }.
Definition inspect_error (e : string) : string := "Could not inspect setup archive: " +:+ e.
Definition too_many (what : string) : string := "Unsafe archive: more than " +:+ show_int SETUP_MAX_MEMBERS +:+ what.

Fixpoint sweep_entries (log : ULog) (directory : string) (names : list string) (s : Sweep) : result Sweep :=
  match names with
  | [] => Ok s
  | name :: rest =>
      let path := join_path directory name in
      let seen := sw_seen s + 1 in
      guard! SETUP_MAX_MEMBERS <? seen else too_many " extracted entries.";
      match uo_lstat log path with
      | LFound m =>
          match mt_kind m with
          | KLink => sweep_entries log directory rest
              {| sw_stack := sw_stack s; sw_links := sw_links s ++ [path]; sw_total := sw_total s; sw_seen := seen |}
          | KDir => sweep_entries log directory rest
              {| sw_stack := path :: sw_stack s; sw_links := sw_links s; sw_total := sw_total s; sw_seen := seen |}
          | KFile =>
              let total := Z.min u64_max (sw_total s + mt_len m) in
              guard! SETUP_MAX_BYTES <? total else "Unsafe archive: expanded size exceeds 16 GiB.";
              sweep_entries log directory rest
                {| sw_stack := sw_stack s; sw_links := sw_links s; sw_total := total; sw_seen := seen |}
          | KOther => Err "Unsafe archive: special file in setup payload."
          end
      | l => Err (inspect_error (lstat_error l))
      end
  end.
(** Every directory but the first was an entry, so the limit on entries bounds
    the turns. *)
Fixpoint sweep_loop (log : ULog) (fuel : nat) (s : Sweep) : option (result (list string)) :=
  match sw_stack s with
  | [] => Some (Ok (sw_links s))
  | directory :: stack =>
      match fuel with
      | O => None
      | S fuel =>
          match uo_list log directory with
          | Err e => Some (Err (inspect_error e))
          | Ok names =>
              match sweep_entries log directory names
                      {| sw_stack := stack; sw_links := sw_links s; sw_total := sw_total s; sw_seen := sw_seen s |} with
              | Err e => Some (Err e)
              | Ok s => sweep_loop log fuel s
              end
          end
      end
  end.
Definition sweep_fuel : nat := Z.to_nat (SETUP_MAX_MEMBERS + 2).
Definition sweep (log : ULog) (payload : string) : result unit :=
  match sweep_loop log sweep_fuel {| sw_stack := [payload]; sw_links := []; sw_total := 0; sw_seen := 0 |} with
  | Some (Ok []) => Ok tt
  | Some (Ok (link :: links)) =>
      Err ("Unsafe archive: " +:+ show_int (Z.of_nat (S (length links))) +:+ " symlink(s) in payload (first: " +:+ link
           +:+ "). Only archives exported by KythOS itself are safe to restore.")
  | Some (Err e) => Err e
  | None => Err EmptyString
  end.

Definition safe_extract (archive dest : string) : U string :=
  do! members <- tar_members archive;
  do! _ <- u_guard (SETUP_MAX_MEMBERS <? Z.of_nat (length members)) (too_many " members.");
  do! _ <- m_lift (check_members members);
  do! _ <- tar ["-xzf"; archive; "-C"; dest] 120;
  let payload := join_path dest ARCHIVE_PREFIX in
  do! meta <- u_ask (λ log, uo_lstat log payload);
  do! _ <- u_guard (negb (found_dir meta)) "This is not a KythOS setup archive.";
  do! _ <- u_read (λ log, sweep log payload);
  m_ret payload.

Definition bad_manifest : string := "The setup archive manifest is missing or invalid.".
Definition load_manifest (log : ULog) (payload : string) : result SetupManifest :=
  let path := join_path payload "manifest.json" in
  guard! (match regular_len (uo_lstat log path) with Some len => MAX_MANIFEST_BYTES <? len | None => true end) else bad_manifest;
  let? v := map_err (λ _, bad_manifest) (let? text := read_text log path in json_decode text) in
  validate_manifest v.
Definition load_manifest_from_payload (payload : string) : U SetupManifest := u_read (λ log, load_manifest log payload).

Definition archive_summary (archive : string) : U string :=
  with_temp "kyth-setup-summary" (λ work,
    do! payload <- safe_extract archive work;
    do! manifest <- load_manifest_from_payload payload;
    m_ret (preview_summary manifest)).

(** * Copying into the home directory *)

Definition copy_file_nofollow (source target : string) : U unit :=
  do! meta <- u_ask (λ log, uo_lstat log source);
  do! _ <- match meta with
           | LFound m => u_guard (bool_decide (mt_kind m = KLink)) ("refusing to restore symlink " +:+ source)
           | l => u_fail (lstat_error l)
           end;
  do! link <- u_ask (λ log, is_link (uo_lstat log target));
  do! _ <- if link then u_do (RemoveFile target) else m_ret tt;
  do! _ <- u_do (CopyFile source target);
  do! mode <- u_ask (λ log, st_mode log source);
  match mode with Some mode => u_try (Chmod target mode) | None => m_ret tt end.

(** The fuel is the depth of the directory; a payload that passed the sweep is
    not deeper than its number of entries. *)
Fixpoint copy_dir_recursive (fuel : nat) (source target : string) (merge : bool) : U unit :=
  match fuel with
  | O => u_fail EmptyString
  | S fuel =>
      do! link <- u_ask (λ log, is_link (uo_lstat log target));
      do! _ <- if link then u_do (RemoveFile target) else m_ret tt;
      do! there <- u_ask (λ log, match uo_stat log target with LFound _ => true | _ => false end);
      do! _ <- if there then if merge then m_ret tt else u_do (RemoveTree target) else u_do (MkDirAll target);
      do! names <- u_read (λ log, uo_list log source);
      for_each (λ name,
        let from := join_path source name in
        let to := join_path target name in
        do! kind <- u_read (λ log, match uo_lstat log from with LFound m => Ok (mt_kind m) | l => Err (lstat_error l) end);
        match kind with
        | KDir => copy_dir_recursive fuel from to merge
        | _ => copy_file_nofollow from to
        end) names
  end.
Definition copy_fuel : nat := sweep_fuel.

(** The directories above [relative], from [current] on *)
Fixpoint real_chain (log : ULog) (current : string) (parts : list string) : bool :=
  match parts with
  | [] => true
  | part :: rest =>
      let current := join_path current part in
      match uo_lstat log current with
      | LFound m => if is_dir_kind (mt_kind m) then real_chain log current rest else false
      | LMissing _ => true
      | LError _ => false
      end
  end.
Definition safe_directory_chain (log : ULog) (root relative : string) : bool :=
  found_dir (uo_lstat log root) && real_chain log root (unwrap_or (parent_components relative) []).

(** [path.parent()] of an absolute path *)
Definition parent_path (p : string) : option string :=
  match components p with
  | [] => None
  | cs => Some (match removelast cs with [] => "/" | ds => slashed ds end)
  end.

(** Whether one path was restored *)
Definition restore_file (payload rel : string) : U bool :=
  let files := join_path payload "files" in
  do! chain <- u_ask (λ log, is_allowed_restore_path rel && safe_directory_chain log files rel);
  if negb chain then m_ret false
  else
    do! root <- u_ask (λ log, st_canonical log st_home);
    match root with
    | Err _ => m_ret false
    | Ok home_root =>
        do! safe <- u_ask (λ log, safe_directory_chain log home_root rel);
        do! meta <- u_ask (λ log, uo_lstat log (join_path files rel));
        match safe, meta with
        | true, LFound m =>
            let source := join_path files rel in
            let target := join_path home_root rel in
            λ log,
              let '(made, log) := match parent_path target with
                                  | Some parent => u_do (MkDirAll parent) log
                                  | None => (Ok tt, log)
                                  end in
              match made with
              | Err _ => (Ok false, log)
              | Ok _ =>
                  let kind := uo_lstat log source in
                  let copy := if found_dir kind then copy_dir_recursive copy_fuel source target true
                              else match kind with LFound _ => copy_file_nofollow source target | l => u_fail (lstat_error l) end in
                  let '(r, log) := copy log in (Ok (is_ok r), log)
              end
        | _, _ => m_ret false
        end
    end.
Fixpoint restore_files (payload : string) (paths : list string) : U nat :=
  match paths with
  | [] => m_ret 0%nat
  | rel :: rest =>
      do! restored <- restore_file payload rel;
      do! n <- restore_files payload rest;
      m_ret ((if restored then 1 else 0) + n)%nat
  end.

(** * Restoring the rest *)

Definition first_byte (f : ascii → bool) (s : string) : bool := match s with String c _ => f c | EmptyString => false end.
Definition valid_desktop_id (desktop : string) : bool :=
  match strip_suffix ".desktop" desktop with
  | Some base =>
      negb (is_empty base) && (slen base <=? 128)
      && first_byte (λ c, is_ascii_alphanumeric c || Ascii.eqb c "_") base
      && str_all (λ c, is_ascii_alphanumeric c || byte_among ".-_" c) base
  | None => false
  end.

Fixpoint restore_defaults (defaults : list (string * string)) : U nat :=
  match defaults with
  | [] => m_ret 0%nat
  | (mime, desktop) :: rest =>
      if negb (str_in mime DEFAULT_MIME_TYPES) || negb (valid_desktop_id desktop) then restore_defaults rest
      else
        do! out <- run_ok ["xdg-mime"; "default"; "--"; desktop; mime] 10;
        do! n <- restore_defaults rest;
        m_ret ((match out with Some _ => 1 | None => 0 end) + n)%nat
  end.

Definition lock_enabled (log : ULog) : bool :=
  match read_text log (join_path st_home DYNAMIC_LOCK_CONFIG) with
  | Ok text => match json_decode text with Ok v => unwrap_or (field as_bool "enabled" v) false | Err _ => false end
  | Err _ => false
  end.
Definition restore_dynamic_lock : U bool :=
  do! enabled <- u_ask lock_enabled;
  if negb enabled then m_ret false
  else
    do! out <- run_ok ["systemctl"; "--user"; "enable"; "--now"; DYNAMIC_LOCK_UNIT] 30;
    m_ret (match out with Some _ => true | None => false end).

(** [software_catalog::valid_flatpak_id] *)
Definition catalog_flatpak_id (app_id : string) : bool :=
  negb (is_empty app_id) && (slen app_id <=? 200) && contains_char "." app_id
  && str_all (λ c, is_ascii_alphanumeric c || byte_among ".-_" c) app_id.

(** [stream_command] with the fixed arguments *)
Definition u_stream (argv : list string) : U Z := λ log,
  let code := st_stream log argv in (Ok code, log ++ [URan argv 600 (Some (code, EmptyString))]).

Fixpoint install_flatpaks (remotes : list string) (apps : list SetupFlatpak) : U (nat * nat) :=
  match apps with
  | [] => m_ret (0, 0)%nat
  | app :: rest =>
      let id := trim (sf_id app) in
      if negb (catalog_flatpak_id id) then
        do! counts <- install_flatpaks remotes rest;
        m_ret (fst counts, S (snd counts))
      else
        let origin := trim (sf_origin app) in
        let origin := if str_in origin remotes then origin else "flathub" in
        do! code <- u_stream ["flatpak"; "install"; "-y"; "--or-update"; "--"; origin; id];
        do! counts <- install_flatpaks remotes rest;
        m_ret (if code =? 0 then (S (fst counts), snd counts) else (fst counts, S (snd counts)))
  end.
Definition restore_flatpaks (apps : list SetupFlatpak) : U (nat * nat) :=
  if bool_decide (length apps = 0%nat) then m_ret (0, 0)%nat
  else if negb st_flatpak_present then m_ret (0%nat, length apps)
  else
    do! _ <- run_ok ["flatpak"; "remote-add"; "--if-not-exists"; "flathub"; FLATHUB_REPO] 60;
    do! out <- run_ok ["flatpak"; "remotes"; "--columns=name"] 10;
    install_flatpaks (match out with Some stdout => split_whitespace stdout | None => ["flathub"] end) apps.

Record RestoreReport := {
  rr_paths : nat; rr_defaults : nat; rr_apps_ok : nat; rr_apps_failed : nat; rr_cloud_names : list string; rr_dynamic_lock : bool;
}.

Definition restore_setup (archive : string) (enable_dynamic_lock : bool) : U RestoreReport :=
  with_temp "kyth-setup-restore" (λ work,
    do! payload <- safe_extract archive work;
    do! manifest <- load_manifest_from_payload payload;
    do! paths <- restore_files payload (sm_copied_paths manifest);
    do! defaults <- restore_defaults (btree_entries (sm_default_apps manifest));
    do! dynamic_lock <- if enable_dynamic_lock then restore_dynamic_lock else m_ret false;
    do! apps <- restore_flatpaks (sm_flatpaks manifest);
    do! _ <- run_ok ["kbuildsycoca6"; "--noincremental"] 30;
    m_ret {| rr_paths := paths; rr_defaults := defaults; rr_apps_ok := fst apps; rr_apps_failed := snd apps;
             rr_cloud_names := filter_map (field as_str "name") (sm_cloud_remotes manifest); rr_dynamic_lock := dynamic_lock |}).

(** * Exporting *)

Definition copy_file_deref (source target : string) : U unit :=
  do! there <- u_ask (λ log, match uo_lstat log target with LFound _ => true | _ => false end);
  do! _ <- if there then u_do (RemoveFile target) else m_ret tt;
  do! _ <- u_do (CopyFile source target);
  do! mode <- u_ask (λ log, st_mode log source);
  match mode with Some mode => u_try (Chmod target mode) | None => m_ret tt end.

(** The depth is capped at 32; [more] is what is left of it. *)
Fixpoint copy_dir_deref (more : nat) (source target : string) : U unit :=
  match more with
  | O => u_fail "symlink depth exceeded"
  | S more =>
      do! _ <- u_do (MkDirAll target);
      do! names <- u_read (λ log, uo_list log source);
      for_each (λ name,
        let from := join_path source name in
        let to := join_path target name in
        do! is_dir <- u_ask (λ log, present_dir log from);
        if is_dir then copy_dir_deref more from to else copy_file_deref from to) names
  end.

Definition copy_into_payload (payload rel : string) : U bool :=
  let source := join_path st_home rel in
  let target := join_path (join_path payload "files") rel in
  do! meta <- u_ask (λ log, uo_lstat log source);
  match meta with
  | LFound _ => λ log,
      let '(made, log) := match parent_path target with Some parent => u_do (MkDirAll parent) log | None => (Ok tt, log) end in
      match made with
      | Err _ => (Ok false, log)
      | Ok _ =>
          let copy := if present_dir log source then copy_dir_deref 33 source target else copy_file_deref source target in
          let '(r, log) := copy log in (Ok (is_ok r), log)
      end
  | _ => m_ret false
  end.

Definition APPLICATIONS : string := ".local/share/applications".
Definition desktop_entry_rels (log : ULog) : list string :=
  match uo_list log (join_path st_home APPLICATIONS) with
  | Ok names => merge_sort String.le (filter_map (λ name,
      let name := from_utf8_lossy name in if launcher_name name then Some (APPLICATIONS +:+ "/" +:+ name) else None) names)
  | Err _ => []
  end.

(** The paths that were copied, those already copied left out; the paths of the
    fixed list are distinct, so the test changes nothing for them. *)
Fixpoint copy_paths (payload : string) (copied rels : list string) : U (list string) :=
  match rels with
  | [] => m_ret copied
  | rel :: rest =>
      if str_in rel copied then copy_paths payload copied rest
      else
        do! ok <- copy_into_payload payload rel;
        copy_paths payload (if ok then copied ++ [rel] else copied) rest
  end.

Fixpoint insert_by_id (app : SetupFlatpak) (apps : list SetupFlatpak) : list SetupFlatpak :=
  match apps with
  | [] => [app]
  | b :: r => if bool_decide (String.le (st_lowercase (sf_id app)) (st_lowercase (sf_id b))) then app :: apps else b :: insert_by_id app r
  end.
Definition parse_flatpak_line (line : string) : option SetupFlatpak :=
  let '(id, origin) := match split_once "009" line with Some (a, b) => (a, Some b) | None => (line, None) end in
  let id := trim id in
  if is_empty id then None else Some {| sf_id := id; sf_origin := unwrap_or (trim <$> origin) "flathub" |}.
Definition parse_flatpak_list (output : string) : list SetupFlatpak :=
  foldr insert_by_id [] (filter_map parse_flatpak_line (lines output)).
Definition installed_flatpaks : U (list SetupFlatpak) :=
  do! out <- run_ok ["flatpak"; "list"; "--app"; "--columns=application,origin"] 30;
  m_ret (unwrap_or (parse_flatpak_list <$> out) []).

Fixpoint default_apps (mimes : list string) : U (gmap string string) :=
  match mimes with
  | [] => m_ret ∅
  | mime :: rest =>
      do! out <- run_ok ["xdg-mime"; "query"; "default"; mime] 5;
      do! others <- default_apps rest;
      m_ret (match nonempty (trim <$> out) with Some desktop => <[mime := desktop]> others | None => others end)
  end.

Definition cloud_remote (line : string) : option json :=
  match split_whitespace line with
  | [] => None
  | name :: rest => Some (jobject [("name", JString (trim_end_matches ":" name)); ("type", JString (unwrap_or (head rest) "unknown"))])
  end.
Definition cloud_remotes : U (list json) :=
  do! out <- run_ok ["rclone"; "listremotes"; "--long"] 10;
  m_ret (unwrap_or ((λ stdout, filter_map cloud_remote (lines stdout)) <$> out) []).

Definition flatpak_value (app : SetupFlatpak) : json := jobject [("id", JString (sf_id app)); ("origin", JString (sf_origin app))].
Definition export_manifest (flatpaks : list SetupFlatpak) (defaults : gmap string string) (remotes : list json) (copied : list string) : json :=
  jobject [("format", JString "KythOS setup transfer"); ("version", JNumber ARCHIVE_VERSION); ("created", JString st_iso_now);
           ("hostname", JString st_hostname); ("flatpaks", JArray (flatpak_value <$> flatpaks));
           ("default_apps", JObject (JString <$> defaults)); ("cloud_remotes", JArray remotes);
           ("copied_paths", JArray (JString <$> copied)); ("secrets_excluded", JArray (JString <$> SECRETS_EXCLUDED))].

Definition two_digits (n : nat) : string := (if (n <? 10)%nat then "0" else EmptyString) +:+ show_int (Z.of_nat n).
Definition candidate (dest : string) (counter : nat) : string :=
  join_path dest (ARCHIVE_PREFIX +:+ "-" +:+ st_stamp +:+ (if (counter =? 0)%nat then EmptyString else "-" +:+ two_digits counter) +:+ ".tar.gz").
(** The first name that could be created, which is removed again; at most a
    hundred are tried. *)
Fixpoint reserve (dest : string) (counter tries : nat) : U string :=
  match tries with
  | O => u_fail ("Too many existing archives for timestamp " +:+ st_stamp +:+ "; move or rename older exports and retry.")
  | S tries => λ log,
      match u_do (TempFile (candidate dest counter) EmptyString) log with
      | (Ok _, log) => (do! _ <- u_try (RemoveFile (candidate dest counter)); m_ret (candidate dest counter)) log
      | (Err _, log) => reserve dest (S counter) tries log
      end
  end.

Definition export_setup (dest : string) : U string :=
  do! _ <- u_context (λ e, "Cannot use archive destination: " +:+ e) (u_do (MkDirAll dest));
  do! archive <- reserve dest 0 100;
  with_temp "kyth-setup-export" (λ work,
    let payload := join_path work ARCHIVE_PREFIX in
    do! _ <- u_context (λ e, "Cannot stage setup archive: " +:+ e) (u_do (MkDirAll payload));
    do! copied <- copy_paths payload [] CONFIG_PATHS;
    do! entries <- u_ask desktop_entry_rels;
    do! copied <- copy_paths payload copied entries;
    do! flatpaks <- installed_flatpaks;
    do! defaults <- default_apps DEFAULT_MIME_TYPES;
    do! remotes <- cloud_remotes;
    let manifest := export_manifest flatpaks defaults remotes (merge_sort String.le copied) in
    do! _ <- u_context (λ e, "Cannot stage setup archive: " +:+ e)
               (u_do (WriteFile (join_path payload "manifest.json") (json_document manifest +:+ newline)));
    do! _ <- tar ["-czf"; archive; "-C"; work; ARCHIVE_PREFIX] 120;
    do! _ <- u_context (λ e, "Cannot secure setup archive: " +:+ e) (u_do (Chmod archive 384));
    m_ret archive).

(** * Where a restore may write *)

(** A path of the list, or a launcher of the system's own *)
Definition allowed_place (place : list string) : Prop :=
  (∃ rel, rel ∈ CONFIG_PATHS ∧ place = components rel)
  ∨ ∃ name, launcher_name name = true ∧ plain_part name ∧ place = [".local"; "share"; "applications"; name].

Lemma components_parts p x : x ∈ components p → skipped_part x = false ∧ contains_char "/" x = false.
Proof.
  unfold components, skipped_part. intros [Hx Hs]%elem_of_filterb. split; [|by eapply split_char_piece].
  apply andb_true_iff in Hs as [?%negb_true_iff ?%negb_true_iff]. by apply orb_false_iff.
Qed.

Lemma allowed_path_place rel :
  is_allowed_restore_path rel = true → allowed_place (components rel) ∧ Forall plain_part (components rel) ∧ components rel ≠ [].
Proof.
  unfold is_allowed_restore_path. destruct (is_absolute rel || has_parent_dir rel) eqn:E; [done|].
  apply orb_false_iff in E as [_ Hp]. unfold has_parent_dir in Hp. rewrite str_in_false in Hp.
  assert (Forall plain_part (components rel)) as Hplain.
  { apply Forall_forall. intros x Hx. destruct (components_parts _ _ Hx) as [? ?]. split_and!; [done| |done]. by intros ->. }
  intros [Hin%str_in_true|Hfour]%orb_true_iff.
  - split_and!; [left; eauto|done|]. intros Hc.
    assert (forallb (λ rel, negb (bool_decide (components rel = []))) CONFIG_PATHS = true) as Hne by (by vm_compute).
    rewrite forallb_forall in Hne. specialize (Hne rel). rewrite <-list_elem_of_In, Hc in Hne. by apply Hne in Hin.
  - unfold rel_components in Hfour. destruct (_ || starts_with _ _); cbn [app] in Hfour.
    + destruct (components rel) as [|? [|? [|? [|? ?]]]]; done.
    + destruct (components rel) as [|a [|b [|c [|d [|? ?]]]]]; try done.
      apply andb_true_iff in Hfour as [[[Ha Hb]%andb_true_iff Hc]%andb_true_iff Hd].
      apply String.eqb_eq in Ha, Hb, Hc. subst. split_and!; [right|done|done].
      exists d. inversion_clear Hplain as [|? ? _ H1]. inversion_clear H1 as [|? ? _ H2]. inversion_clear H2 as [|? ? _ H3].
      inversion_clear H3. auto.
Qed.

Lemma components_slashed cs :
  Forall (λ c, skipped_part c = false ∧ contains_char "/" c = false) cs → components (slashed cs) = cs.
Proof.
  induction 1 as [|c cs [Hs Hc] _ IH]; [done|]. cbn [slashed].
  change ("/" +:+ c +:+ slashed cs) with (EmptyString +:+ "/" +:+ (c +:+ slashed cs)). rewrite components_app. cbn [app].
  change (components EmptyString) with (@nil string). cbn [app].
  assert (components c = [c]) as Hone.
  { unfold components. rewrite split_char_single by done. unfold skipped_part in Hs. apply orb_false_iff in Hs as [Ha Hb].
    cbn [filterb]. by rewrite Ha, Hb. }
  destruct cs as [|d ds]; [cbn [slashed]; by rewrite append_nil_r|]. cbn [slashed] in *.
  rewrite (components_app c (d +:+ slashed ds)), Hone. cbn [app]. f_equal.
  change ("/" +:+ d +:+ slashed ds) with (EmptyString +:+ "/" +:+ (d +:+ slashed ds)) in IH. rewrite components_app in IH. exact IH.
Qed.

Lemma parent_path_components p q : parent_path p = Some q → components q = removelast (components p).
Proof.
  unfold parent_path. destruct (components p) as [|c cs] eqn:E; [done|].
  assert (Forall (λ c, skipped_part c = false ∧ contains_char "/" c = false) (removelast (c :: cs))) as Hparts.
  { apply Forall_forall. intros x Hx. apply (components_parts p). rewrite E. apply list_elem_of_In.
    apply list_elem_of_In in Hx. revert Hx. clear. revert c. induction cs as [|d cs IH]; intros c; [done|].
    intros [->|Hx]; [by left|]. right. by apply IH. }
  revert Hparts. generalize (removelast (c :: cs)) as ds. intros ds Hparts [= <-].
  destruct ds as [|d ds]; [by vm_compute|by apply (components_slashed (d :: ds))].
Qed.

(** [p] is an allowed place of the home directory, or below one; and the same
    place in the payload *)
Definition touched (p : string) : Prop :=
  ∃ log home_root place parts, st_canonical log st_home = Ok home_root ∧ allowed_place place ∧ Forall plain_part parts
    ∧ components p = components home_root ++ place ++ parts.
Definition above (p : string) : Prop :=
  ∃ log home_root place, st_canonical log st_home = Ok home_root ∧ allowed_place place
    ∧ components p = components home_root ++ removelast place.
Definition work_dir (p : string) : Prop := ∃ n, p = temp_dir "kyth-setup-restore" n.
Definition from_payload (p : string) : Prop :=
  ∃ work place parts, work_dir work ∧ allowed_place place ∧ Forall plain_part parts
    ∧ components p = components work ++ ["kyth-setup"; "files"] ++ place ++ parts.

Inductive restore_command (archive : string) (enable_dynamic_lock : bool) : list string → Prop :=
| RListed : restore_command archive enable_dynamic_lock ["tar"; "-tzf"; archive]
| RUnpacked work : work_dir work → restore_command archive enable_dynamic_lock ["tar"; "-xzf"; archive; "-C"; work]
| RDefault desktop mime : valid_desktop_id desktop = true → mime ∈ DEFAULT_MIME_TYPES →
    restore_command archive enable_dynamic_lock ["xdg-mime"; "default"; "--"; desktop; mime]
| RLock : enable_dynamic_lock = true →
    restore_command archive enable_dynamic_lock ["systemctl"; "--user"; "enable"; "--now"; DYNAMIC_LOCK_UNIT]
| RRemote : restore_command archive enable_dynamic_lock ["flatpak"; "remote-add"; "--if-not-exists"; "flathub"; FLATHUB_REPO]
| RRemotes : restore_command archive enable_dynamic_lock ["flatpak"; "remotes"; "--columns=name"]
| RInstall origin id : catalog_flatpak_id id = true →
    restore_command archive enable_dynamic_lock ["flatpak"; "install"; "-y"; "--or-update"; "--"; origin; id]
| RMenu : restore_command archive enable_dynamic_lock ["kbuildsycoca6"; "--noincremental"].

Definition restore_event (archive : string) (enable_dynamic_lock : bool) (e : UEvent) : Prop :=
  match e with
  | URan argv _ _ => restore_command archive enable_dynamic_lock argv
  | UDid (MkDir p) _ | UDid (RemoveDir p) _ | UDid (RemoveTree p) _ => work_dir p
  | UDid (Chmod p _) _ => work_dir p ∨ touched p
  | UDid (MkDirAll p) _ => touched p ∨ above p
  | UDid (RemoveFile p) _ => touched p
  | UDid (CopyFile source target) _ => from_payload source ∧ touched target
  | UDid _ _ => False
  end.

Lemma emits_read_bind {A B} P (f : ULog → result A) (k : A → U B) :
  (∀ log a, f log = Ok a → emits P (k a)) → emits P (m_bind (u_read f) k).
Proof.
  intros Hk log. unfold m_bind, u_read. destruct (f log) as [a|e] eqn:E; [by apply (Hk log a)|]. exists []. by rewrite app_nil_r.
Qed.
Lemma emits_ask_bind {A B} P (f : ULog → A) (k : A → U B) : (∀ log, emits P (k (f log))) → emits P (m_bind (u_ask f) k).
Proof. intros Hk log. apply Hk. Qed.

Lemma run_ok_emits P argv timeout : (∀ a, P (URan argv timeout a)) → emits P (run_ok argv timeout).
Proof. intros HP. unfold run_ok. apply emits_bind; [by apply emits_run|]. intros. apply emits_ret. Qed.
Lemma tar_emits P args timeout : (∀ a, P (URan ("tar" :: args) timeout a)) → emits P (tar args timeout).
Proof. intros HP. unfold tar. apply emits_bind; [by apply run_ok_emits|]. intros. apply emits_lift. Qed.

(** What a program answers *)
Definition yields {A} (Q : A → Prop) (c : U A) : Prop := ∀ log a, fst (c log) = Ok a → Q a.
Lemma yields_ret {A} (Q : A → Prop) a : Q a → yields Q (m_ret a).
Proof. by intros HQ log a' [= <-]. Qed.
Lemma yields_bind {A B} (Q : B → Prop) (c : U A) (k : A → U B) : (∀ a, yields Q (k a)) → yields Q (m_bind c k).
Proof. intros Hk log b. unfold m_bind. destruct (c log) as [[a|e] log']; [apply Hk|done]. Qed.
Lemma emits_bind_yields {A B} P Q (c : U A) (k : A → U B) :
  emits P c → yields Q c → (∀ a, Q a → emits P (k a)) → emits P (m_bind c k).
Proof.
  intros Hc HQ Hk log. destruct (Hc log) as (evs & Hevs & HF). specialize (HQ log). unfold m_bind.
  destruct (c log) as [[a|e] log']; cbn in *; subst log'; [|eauto].
  destruct (Hk a (HQ a eq_refl) (log ++ evs)) as (evs' & -> & HF'). exists (evs ++ evs'). by rewrite app_assoc, Forall_app.
Qed.
Lemma emits_case {A B} P (c : U A) (k : A → U B) (h : string → U B) :
  emits P c → (∀ a, emits P (k a)) → (∀ e, emits P (h e)) →
  emits P (λ log, match c log with (Ok a, log') => k a log' | (Err e, log') => h e log' end).
Proof.
  intros Hc Hk Hh log. destruct (Hc log) as (evs & Hevs & HF). destruct (c log) as [[a|e] log']; cbn in *; subst log';
    [destruct (Hk a (log ++ evs)) as (evs' & -> & HF')|destruct (Hh e (log ++ evs)) as (evs' & -> & HF')];
    exists (evs ++ evs'); by rewrite app_assoc, Forall_app.
Qed.
(** An attempt whose outcome is only told *)
Lemma emits_attempt {A} P (made : U A) (copy : ULog → U unit) :
  emits P made → (∀ log, emits P (copy log)) →
  emits P (λ log, let '(made, log) := made log in
                  match made with
                  | Err _ => (Ok false, log)
                  | Ok _ => let '(r, log) := copy log log in (Ok (is_ok r), log)
                  end).
Proof.
  intros Hm Hc log. destruct (Hm log) as (evs & Hevs & HF). destruct (made log) as [[a|e] log']; cbn in *; subst log'; [|eauto].
  destruct (Hc (log ++ evs) (log ++ evs)) as (evs' & Heq & HF'). destruct (copy _ _) as [r log']. cbn in *. subst.
  exists (evs ++ evs'). by rewrite app_assoc, Forall_app.
Qed.
Lemma emits_workdir {A} P work (c : U A) : (∀ r, P (UDid (RemoveTree work) r)) → emits P c → emits P (in_workdir work c).
Proof.
  intros HP Hc log. destruct (Hc log) as (evs & Hevs & HF). unfold in_workdir. destruct (c log) as [r log']. cbn in *. subst log'.
  exists (evs ++ [UDid (RemoveTree work) (uo_do (log ++ evs) (RemoveTree work))]). rewrite app_assoc, Forall_app. auto.
Qed.

Section contained.
Context (archive : string) (enable_dynamic_lock : bool).
(** The entries of a directory are names. *)
Context (entries_plain : ∀ log dir names, uo_list log dir = Ok names → Forall plain_part names).

Notation contained := (emits (restore_event archive enable_dynamic_lock)).

Lemma copy_file_contained source target : from_payload source → touched target → contained (copy_file_nofollow source target).
Proof.
  intros Hs Ht. unfold copy_file_nofollow. repeat emits_step; try done; cbn; auto.
Qed.

Lemma touched_below p name : plain_part name → touched p → touched (join_path p name).
Proof.
  intros Hn (log & home & place & parts & Hc & Hp & Hparts & Heq). exists log, home, place, (parts ++ [name]).
  split_and!; [done|done|apply Forall_app; auto|]. by rewrite components_join, (components_plain name Hn), Heq, !app_assoc.
Qed.
Lemma payload_below p name : plain_part name → from_payload p → from_payload (join_path p name).
Proof.
  intros Hn (work & place & parts & Hw & Hp & Hparts & Heq). exists work, place, (parts ++ [name]).
  split_and!; [done|done|apply Forall_app; auto|]. by rewrite components_join, (components_plain name Hn), Heq, !app_assoc.
Qed.

Lemma copy_dir_contained fuel source target :
  from_payload source → touched target → contained (copy_dir_recursive fuel source target true).
Proof.
  revert source target. induction fuel as [|fuel IH]; intros source target Hs Ht; cbn [copy_dir_recursive]; [apply emits_fail|].
  apply emits_bind; [apply emits_ask|]. intros link. apply emits_bind; [destruct link; [by apply emits_do|apply emits_ret]|]. intros _.
  apply emits_bind; [apply emits_ask|]. intros there.
  apply emits_bind; [destruct there; [apply emits_ret|apply emits_do; cbn; auto]|]. intros _.
  apply emits_read_bind. intros log names Hl. apply emits_for_each. intros name Hin.
  assert (plain_part name) as Hn by (specialize (entries_plain _ _ _ Hl); rewrite Forall_forall in entries_plain; auto).
  apply emits_bind; [apply emits_read|]. intros kind. destruct kind;
    first [apply IH | apply copy_file_contained]; by first [apply payload_below | apply touched_below].
Qed.
Lemma restore_file_contained work rel : work_dir work → contained (restore_file (join_path work ARCHIVE_PREFIX) rel).
Proof.
  intros Hw. unfold restore_file. apply emits_ask_bind. intros log.
  destruct (is_allowed_restore_path rel) eqn:Hr; [|apply emits_ret]. destruct (allowed_path_place rel Hr) as (Hplace & Hplain & Hne).
  destruct (negb _); [apply emits_ret|]. apply emits_ask_bind. intros log1.
  destruct (st_canonical log1 st_home) as [home|] eqn:Hh; [|apply emits_ret].
  apply emits_bind; [apply emits_ask|]. intros safe. apply emits_bind; [apply emits_ask|]. intros meta.
  destruct safe; [|apply emits_ret]. destruct meta; try apply emits_ret.
  assert (touched (join_path home rel)) as Ht.
  { exists log1, home, (components rel), []. split_and!; [done|done|by constructor|]. by rewrite app_nil_r, components_join. }
  assert (from_payload (join_path (join_path (join_path work ARCHIVE_PREFIX) "files") rel)) as Hs.
  { exists work, (components rel), []. split_and!; [done|done|by constructor|]. by rewrite app_nil_r, !components_join, <-!app_assoc. }
  apply emits_attempt.
  - destruct (parent_path _) as [parent|] eqn:Hp; [|by apply emits_quiet]. apply emits_do. intros r. right.
    exists log1, home, (components rel). split_and!; [done|done|].
    by rewrite (parent_path_components _ _ Hp), components_join, removelast_app.
  - intros log2. destruct (found_dir _); [by apply copy_dir_contained|].
    destruct (uo_lstat log2 _); [by apply copy_file_contained|apply emits_fail..].
Qed.

Lemma restore_files_contained work paths : work_dir work → contained (restore_files (join_path work ARCHIVE_PREFIX) paths).
Proof.
  intros Hw. induction paths as [|rel paths IH]; cbn [restore_files]; [apply emits_ret|].
  apply emits_bind; [by apply restore_file_contained|]. intros b. apply emits_bind; [exact IH|]. intros. apply emits_ret.
Qed.

Lemma restore_defaults_contained defaults : contained (restore_defaults defaults).
Proof.
  induction defaults as [|[mime desktop] rest IH]; cbn [restore_defaults]; [apply emits_ret|].
  destruct (negb (str_in _ _) || _) eqn:E; [exact IH|]. apply orb_false_iff in E as [Hm%negb_false_iff Hd%negb_false_iff].
  apply emits_bind; [|intros; apply emits_bind; [exact IH|intros; apply emits_ret]].
  apply run_ok_emits. intros a. apply RDefault; [done|]. by apply str_in_true in Hm.
Qed.

Lemma restore_lock_contained : contained (if enable_dynamic_lock then restore_dynamic_lock else m_ret false).
Proof.
  assert (enable_dynamic_lock = true → contained restore_dynamic_lock) as Hlock.
  { intros Hf. unfold restore_dynamic_lock. apply emits_bind; [apply emits_ask|]. intros [|]; cbn [negb]; [|apply emits_ret].
    apply emits_bind; [|intros; apply emits_ret]. apply run_ok_emits. intros a. by apply RLock. }
  revert Hlock. generalize (restore_event archive enable_dynamic_lock) as P. destruct enable_dynamic_lock; [auto|]. intros. apply emits_ret.
Qed.

Lemma install_flatpaks_contained remotes apps : contained (install_flatpaks remotes apps).
Proof.
  induction apps as [|app rest IH]; cbn [install_flatpaks]; [apply emits_ret|].
  destruct (negb _) eqn:E; [apply emits_bind; [exact IH|intros; apply emits_ret]|]. apply negb_false_iff in E.
  apply emits_bind; [|intros; apply emits_bind; [exact IH|intros; apply emits_ret]].
  eapply (emits_one _ _ (λ log, URan _ 600 (Some (st_stream log _, EmptyString)))); [reflexivity|].
  intros log. by apply RInstall.
Qed.

Lemma restore_flatpaks_contained apps : contained (restore_flatpaks apps).
Proof.
  unfold restore_flatpaks. destruct (bool_decide _); [apply emits_ret|]. destruct (negb _); [apply emits_ret|].
  apply emits_bind; [apply run_ok_emits; intros; apply RRemote|]. intros _.
  apply emits_bind; [apply run_ok_emits; intros; apply RRemotes|]. intros out. apply install_flatpaks_contained.
Qed.

Lemma safe_extract_contained work : work_dir work → contained (safe_extract archive work).
Proof.
  intros Hw. unfold safe_extract, tar_members. repeat emits_step; apply tar_emits; intros ?; [apply RListed|by apply RUnpacked].
Qed.
Lemma safe_extract_yields work : yields (λ payload, payload = join_path work ARCHIVE_PREFIX) (safe_extract archive work).
Proof. unfold safe_extract. repeat (apply yields_bind; intros ?). by apply yields_ret. Qed.

Lemma create_temp_contained n tries : contained (create_temp "kyth-setup-restore" n tries).
Proof.
  revert n. induction tries as [|tries IH]; intros n; cbn [create_temp]; [apply emits_fail|].
  assert (work_dir (temp_dir "kyth-setup-restore" n)) as Hw by (by exists n).
  apply emits_case; [by apply emits_do| |].
  - intros _. apply emits_bind; [|intros; apply emits_ret]. repeat emits_step; by first [exact Hw | left].
  - intros e. destruct (st_exists e); [apply IH|apply emits_fail].
Qed.
Lemma create_temp_yields n tries : yields work_dir (create_temp "kyth-setup-restore" n tries).
Proof.
  revert n. induction tries as [|tries IH]; intros n; cbn [create_temp]; [done|]. intros log a.
  destruct (u_do _ log) as [[[]|e] log']; [|destruct (st_exists e); [apply IH|done]].
  apply (yields_bind work_dir (u_or_undo _ _) (λ _, m_ret _)). intros _. apply yields_ret. by exists n.
Qed.

(** C19: restoring an archive stays in its place, whatever the archive, its
    listing and its manifest say, and whatever each command and each file
    operation answers: files are copied only from below the unpacked payload, and
    written, replaced or made only at the settings paths of the fixed list, at
    the system's own launchers, and below these, and the directories above them;
    nothing of the home directory is removed but a link or a file that is replaced there, and
    the only tree removed is the work directory; the commands are those of the
    list, with a checked desktop id, a known kind of file and a checked
    application id as their only words from the manifest besides the origin of an
    application; and the lock service is enabled only when it was asked for. *)
Theorem restore_contained : contained (restore_setup archive enable_dynamic_lock).
Proof.
  unfold restore_setup, with_temp. eapply emits_bind_yields; [apply create_temp_contained|apply create_temp_yields|].
  intros work Hw. apply emits_workdir; [by intros r|].
  eapply emits_bind_yields; [by apply safe_extract_contained|apply safe_extract_yields|]. intros payload ->.
  apply emits_bind; [apply emits_read|]. intros manifest.
  apply emits_bind; [by apply restore_files_contained|]. intros paths.
  apply emits_bind; [apply restore_defaults_contained|]. intros defaults.
  apply emits_bind; [apply restore_lock_contained|]. intros lock.
  apply emits_bind; [apply restore_flatpaks_contained|]. intros apps.
  apply emits_bind; [apply run_ok_emits; intros; apply RMenu|]. intros _. apply emits_ret.
Qed.
End contained.

(** * What an export writes *)

Lemma lossy_keeps_out c s : contains_char c REPLACEMENT = false → contains_char c s = false → contains_char c (from_utf8_lossy s) = false.
Proof.
  intros Hr. unfold from_utf8_lossy. generalize (S (String.length s)) as fuel. intros fuel. revert s.
  assert (∀ n s, contains_char c s = false → contains_char c (stake n s) = false ∧ contains_char c (sdrop n s) = false) as Hcut.
  { intros n s Hs. rewrite <-(stake_sdrop n s), contains_char_app in Hs. by apply orb_false_iff. }
  induction fuel as [|fuel IH]; intros s Hs; [done|]. cbn [lossy_loop].
  destruct (utf8_step s) as [|n|n|]; [done| | |done]; destruct (Hcut n s Hs) as [Ht Hd];
    rewrite contains_char_app, IH by done; by rewrite ?Ht, ?Hr.
Qed.

Lemma launcher_allowed name :
  launcher_name name = true → contains_char "/" name = false → is_allowed_restore_path (APPLICATIONS +:+ "/" +:+ name) = true.
Proof.
  intros Hl Hs. assert (plain_part name) as Hp.
  { unfold launcher_name in Hl. apply andb_true_iff in Hl as [Hk _]. unfold starts_with in Hk.
    destruct (strip_prefix "kyth-" name) as [rest|] eqn:E; [|done]. apply strip_prefix_Some in E as ->. by split_and!. }
  unfold is_allowed_restore_path, has_parent_dir, rel_components.
  rewrite components_app, (components_plain name Hp).
  change (components APPLICATIONS) with [".local"; "share"; "applications"]. cbn [app str_in existsb].
  destruct Hp as (_ & Hup & _). apply String.eqb_neq in Hup. rewrite String.eqb_sym in Hup.
  rewrite Hup. change (is_absolute _) with false. change (String.eqb (APPLICATIONS +:+ _) _ || starts_with _ _) with false.
  cbn [app]. rewrite Hl. apply orb_true_r.
Qed.

Definition restorable (rels : list string) : Prop := NoDup rels ∧ Forall (λ rel, is_allowed_restore_path rel = true) rels.

Lemma config_paths_allowed : Forall (λ rel, is_allowed_restore_path rel = true) CONFIG_PATHS.
Proof. repeat constructor; by vm_compute. Qed.

Lemma copy_paths_yields payload copied rels :
  restorable copied → Forall (λ rel, is_allowed_restore_path rel = true) rels → yields restorable (copy_paths payload copied rels).
Proof.
  intros Hc Hr. revert copied Hc. induction Hr as [|rel rels Hrel _ IH]; intros copied Hc; cbn [copy_paths]; [by apply yields_ret|].
  destruct (str_in rel copied) eqn:E; [by apply IH|]. apply yields_bind. intros [|]; apply IH; [|done].
  destruct Hc as [Hnd Hall]. apply str_in_false in E. split; [|by apply Forall_app; auto].
  apply NoDup_app. split_and!; [done| |apply NoDup_singleton]. by intros x Hx ->%list_elem_of_singleton.
Qed.

Lemma desktop_entries_allowed log :
  (∀ log dir names, uo_list log dir = Ok names → Forall plain_part names) →
  Forall (λ rel, is_allowed_restore_path rel = true) (desktop_entry_rels log).
Proof.
  intros Hplain. unfold desktop_entry_rels. destruct (uo_list _ _) as [names|] eqn:E; [|constructor].
  apply Forall_forall. intros rel. rewrite merge_sort_Permutation, elem_of_filter_map. intros (name & Hin & Hsome).
  destruct (launcher_name _) eqn:El; [|done]. injection Hsome as <-. apply launcher_allowed; [done|].
  apply lossy_keeps_out; [done|]. specialize (Hplain _ _ _ E). rewrite Forall_forall in Hplain. by apply Hplain.
Qed.

Lemma rmap_list_all {A B} (f : A → result B) (g : B → A) l : (∀ b, f (g b) = Ok b) → rmap_list f (g <$> l) = Ok l.
Proof. intros Hf. induction l as [|b l IH]; [done|]. rewrite fmap_cons. cbn [rmap_list]. by rewrite Hf, IH. Qed.

Lemma serde_list_read {A} (f : json → result A) (g : A → json) l : (∀ b, f (g b) = Ok b) → serde_list f (JArray (g <$> l)) = Ok l.
Proof. apply rmap_list_all. Qed.

Lemma string_entries_read es :
  Forall (λ kv : string * json, ∃ s, snd kv = JString s) es →
  ∃ es', rmap_list (λ kv : string * json, rmap (λ s, (fst kv, s)) (serde_string (snd kv))) es = Ok es' ∧ es = prod_map id JString <$> es'.
Proof.
  induction 1 as [|[k v] es (s & Hs) _ (es' & Hes & ->)]; [by exists []|]. cbn in Hs. subst v. exists ((k, s) :: es').
  rewrite fmap_cons. cbn [rmap_list]. by rewrite Hes.
Qed.
Lemma string_map_read m : serde_string_map (JObject (JString <$> m)) = Ok m.
Proof.
  unfold serde_string_map. destruct (string_entries_read (btree_entries (JString <$> m))) as (es & -> & Hes).
  { apply Forall_forall. intros [k v] (s & <- & _)%elem_of_btree_entries%lookup_fmap_Some. by exists s. }
  change (Ok (list_to_map es : gmap string string) = Ok m). f_equal. apply map_eq. intros k. apply option_eq. intros s.
  assert (NoDup es.*1) as Hnd.
  { pose proof (btree_entries_NoDup (JString <$> m)) as Hnd. rewrite Hes, <-list_fmap_compose in Hnd. exact Hnd. }
  rewrite <-elem_of_list_to_map by done.
  trans ((k, JString s) ∈ btree_entries (JString <$> m)).
  - rewrite Hes, list_elem_of_fmap. split; [intros Hin; by exists (k, s)|]. intros ([k' s'] & [= <- <-] & Hin). exact Hin.
  - rewrite elem_of_btree_entries, lookup_fmap. destruct (m !! k); cbn; split; congruence.
Qed.

Lemma jget_cons key k x fields :
  jget key (jobject ((k, x) :: fields)) = if String.eqb key k then Some x else jget key (jobject fields).
Proof.
  cbn [jget jobject list_to_map foldr fst snd]. destruct (String.eqb_spec key k) as [->|Hne]; [apply lookup_insert_eq|].
  by apply lookup_insert_ne.
Qed.

Lemma flatpak_read app : setup_flatpak (flatpak_value app) = Ok app.
Proof.
  assert (jget "id" (flatpak_value app) = Some (JString (sf_id app))) as Hid by (unfold flatpak_value; by rewrite jget_cons).
  assert (jget "origin" (flatpak_value app) = Some (JString (sf_origin app))) as Ho by (unfold flatpak_value; by rewrite !jget_cons).
  unfold setup_flatpak. change (struct_field 0 "id" _) with (jget "id" (flatpak_value app)). rewrite Hid.
  change (struct_field 1 "origin" _) with (jget "origin" (flatpak_value app)). rewrite Ho. by destruct app.
Qed.

Definition exported_manifest (flatpaks : list SetupFlatpak) (defaults : gmap string string) (remotes : list json) (copied : list string)
    : SetupManifest :=
  {| sm_format := "KythOS setup transfer"; sm_version := ARCHIVE_VERSION; sm_created := st_iso_now; sm_hostname := st_hostname;
     sm_flatpaks := flatpaks; sm_default_apps := defaults; sm_cloud_remotes := remotes; sm_copied_paths := copied;
     sm_secrets_excluded := SECRETS_EXCLUDED |}.

Lemma manifest_read flatpaks defaults remotes copied :
  setup_manifest (export_manifest flatpaks defaults remotes copied) = Ok (exported_manifest flatpaks defaults remotes copied).
Proof.
  unfold setup_manifest, required, defaulted.
  repeat match goal with |- context [struct_field ?i ?k ?v] => change (struct_field i k v) with (jget k v) end.
  unfold export_manifest. rewrite !jget_cons. cbn [String.eqb Ascii.eqb Bool.eqb ok_or rbind].
  rewrite (serde_list_read setup_flatpak flatpak_value flatpaks flatpak_read), string_map_read.
  assert (serde_list Ok (JArray remotes) = Ok remotes) as -> by (rewrite <-(list_fmap_id remotes) at 1; by apply (rmap_list_all Ok id)).
  rewrite (serde_list_read serde_string JString copied), (serde_list_read serde_string JString SECRETS_EXCLUDED) by done.
  reflexivity.
Qed.

Lemma manifest_validates flatpaks defaults remotes copied :
  restorable copied →
  validate_manifest (export_manifest flatpaks defaults remotes copied) = Ok (exported_manifest flatpaks defaults remotes copied).
Proof.
  intros [Hnd Hall]. unfold validate_manifest, field. rewrite manifest_read. unfold export_manifest. rewrite !jget_cons.
  cbn [String.eqb Ascii.eqb Bool.eqb ok_or rbind map_err jobject as_str as_array negb].
  replace (forallb allowed_value (JString <$> copied)) with true.
  - replace (filter_map as_str (JString <$> copied)) with copied.
    + by rewrite (bool_decide_eq_true_2 (NoDup copied) Hnd).
    + clear. induction copied as [|rel copied IH]; [done|]. rewrite fmap_cons. cbn [filter_map as_str]. by f_equal.
  - symmetry. apply forallb_forall. intros v (rel & -> & Hin)%list_elem_of_In%list_elem_of_fmap. rewrite Forall_forall in Hall.
    by apply Hall.
Qed.

(** An event that writes no file *)
Definition no_write (e : UEvent) : Prop := match e with UDid (WriteFile _ _) _ => False | _ => True end.

Lemma copy_into_payload_quiet payload rel : emits no_write (copy_into_payload payload rel).
Proof.
  assert (∀ source target, emits no_write (copy_file_deref source target)) as Hfile.
  { intros source target. unfold copy_file_deref. emits_auto; exact I. }
  assert (∀ more source target, emits no_write (copy_dir_deref more source target)) as Hdir.
  { induction more as [|more IH]; intros source target; cbn [copy_dir_deref]; [apply emits_fail|].
    emits_auto; exact I. }
  unfold copy_into_payload. apply emits_bind; [apply emits_ask|]. intros [m|e|e]; [|apply emits_ret..].
  apply (emits_attempt _ _ (λ log, if present_dir log (join_path st_home rel) then _ else _)).
  - destruct (parent_path _); [by apply emits_do|by apply emits_quiet].
  - intros log. destruct (present_dir _ _); auto.
Qed.

Lemma copy_paths_quiet payload copied rels : emits no_write (copy_paths payload copied rels).
Proof.
  revert copied. induction rels as [|rel rels IH]; intros copied; cbn [copy_paths]; [apply emits_ret|].
  destruct (str_in rel copied); [apply IH|]. apply emits_bind; [apply copy_into_payload_quiet|]. intros [|]; apply IH.
Qed.

Lemma create_temp_quiet prefix n tries : emits no_write (create_temp prefix n tries).
Proof.
  revert n. induction tries as [|tries IH]; intros n; cbn [create_temp]; [apply emits_fail|].
  apply emits_case; [by apply emits_do| |intros e; destruct (st_exists e); [apply IH|apply emits_fail]].
  intros _. apply emits_bind; [|intros; apply emits_ret]. emits_auto; exact I.
Qed.
Lemma reserve_quiet dest n tries : emits no_write (reserve dest n tries).
Proof.
  revert n. induction tries as [|tries IH]; intros n; cbn [reserve]; [apply emits_fail|].
  apply emits_case; [by apply emits_do| |intros e; apply IH].
  intros _. apply emits_bind; [by apply emits_try|intros; apply emits_ret].
Qed.
Lemma default_apps_quiet mimes : emits no_write (default_apps mimes).
Proof.
  induction mimes as [|mime mimes IH]; cbn [default_apps]; [apply emits_ret|].
  apply emits_bind; [by apply run_ok_emits|]. intros out. apply emits_bind; [exact IH|]. intros. apply emits_ret.
Qed.

Lemma flatpaks_quiet : emits no_write installed_flatpaks.
Proof. apply emits_bind; [by apply run_ok_emits|intros; apply emits_ret]. Qed.
Lemma remotes_quiet : emits no_write cloud_remotes.
Proof. apply emits_bind; [by apply run_ok_emits|intros; apply emits_ret]. Qed.

(** ** What an export collects *)

(** A command answered between two moments of a run: its output when it
    succeeded. *)
Definition answered (lo hi : ULog) (argv : list string) (timeout : Z) (out : option string) : Prop :=
  ∃ l a, lo `prefix_of` l ∧ l ++ [URan argv timeout a] `prefix_of` hi
    ∧ out = match a with Some (0, stdout) => Some stdout | _ => None end.

(** The copy of a path into the payload succeeded, or failed, between two
    moments of a run. *)
Definition attempted (lo hi : ULog) (payload rel : string) (done : bool) : Prop :=
  ∃ l l', lo `prefix_of` l ∧ l' `prefix_of` hi ∧ copy_into_payload payload rel l = (Ok done, l').

(** The lists of a manifest are what was collected: the applications and remotes
    the tools listed, the default of each type that has one, and of the settings
    paths and the launchers found exactly those whose copy succeeded. *)
Record collected (lo hi : ULog) (payload : string) (flatpaks : list SetupFlatpak) (defaults : gmap string string)
    (remotes : list json) (copied : list string) : Prop := {
  co_flatpaks : ∃ out, answered lo hi ["flatpak"; "list"; "--app"; "--columns=application,origin"] 30 out
    ∧ flatpaks = unwrap_or (parse_flatpak_list <$> out) [];
  co_defaults : ∀ mime, mime ∈ DEFAULT_MIME_TYPES →
    ∃ out, answered lo hi ["xdg-mime"; "query"; "default"; mime] 5 out ∧ defaults !! mime = nonempty (trim <$> out);
  co_no_other : ∀ mime, mime ∉ DEFAULT_MIME_TYPES → defaults !! mime = None;
  co_remotes : ∃ out, answered lo hi ["rclone"; "listremotes"; "--long"] 10 out
    ∧ remotes = unwrap_or ((λ stdout, filter_map cloud_remote (lines stdout)) <$> out) [];
  co_paths : ∃ seen, lo `prefix_of` seen ∧ seen `prefix_of` hi
    ∧ (∀ rel, rel ∈ copied → rel ∈ CONFIG_PATHS ++ desktop_entry_rels seen ∧ attempted lo hi payload rel true)
    ∧ (∀ rel, rel ∈ CONFIG_PATHS ++ desktop_entry_rels seen → rel ∈ copied ∨ attempted lo hi payload rel false);
}.

Lemma answered_mono lo lo' hi hi' argv timeout out :
  lo' `prefix_of` lo → hi `prefix_of` hi' → answered lo hi argv timeout out → answered lo' hi' argv timeout out.
Proof. intros Hlo Hhi (l & a & H1 & H2 & H3). exists l, a. split_and!; [by etrans|by etrans|done]. Qed.

Lemma attempted_mono lo lo' hi hi' payload rel b :
  lo' `prefix_of` lo → hi `prefix_of` hi' → attempted lo hi payload rel b → attempted lo' hi' payload rel b.
Proof. intros Hlo Hhi (l & l' & H1 & H2 & H3). exists l, l'. split_and!; [by etrans|by etrans|done]. Qed.

(** A chain of prefixes of the context; what happened between two moments
    happened between earlier and later ones. *)
Ltac prefixes :=
  first [reflexivity | assumption
        | match goal with Hp : prefix ?a ?b |- prefix ?a _ => transitivity b; [exact Hp|clear Hp; prefixes] end].
Ltac widen Hx := (eapply answered_mono || eapply attempted_mono); [| |exact Hx]; prefixes.

Lemma run_ok_answered argv timeout log out log' :
  run_ok argv timeout log = (Ok out, log') → answered log log' argv timeout out ∧ log `prefix_of` log'.
Proof.
  unfold run_ok, m_bind, u_run, m_ret. intros [= <- <-].
  split; [|by eexists]. exists log, (uo_run log argv timeout). done.
Qed.

Lemma flatpaks_answered log flatpaks log' :
  installed_flatpaks log = (Ok flatpaks, log') → log `prefix_of` log' ∧
  ∃ out, answered log log' ["flatpak"; "list"; "--app"; "--columns=application,origin"] 30 out
    ∧ flatpaks = unwrap_or (parse_flatpak_list <$> out) [].
Proof.
  unfold installed_flatpaks. intros [(out & l & H1 & H2)|(e & _ & ?)]%m_bind_inv; [|done].
  injection H2 as <- <-. apply run_ok_answered in H1 as [? ?]. eauto.
Qed.

Lemma remotes_answered log remotes log' :
  cloud_remotes log = (Ok remotes, log') → log `prefix_of` log' ∧
  ∃ out, answered log log' ["rclone"; "listremotes"; "--long"] 10 out
    ∧ remotes = unwrap_or ((λ stdout, filter_map cloud_remote (lines stdout)) <$> out) [].
Proof.
  unfold cloud_remotes. intros [(out & l & H1 & H2)|(e & _ & ?)]%m_bind_inv; [|done].
  injection H2 as <- <-. apply run_ok_answered in H1 as [? ?]. eauto.
Qed.

Lemma defaults_answered mimes log defaults log' :
  NoDup mimes → default_apps mimes log = (Ok defaults, log') → log `prefix_of` log' ∧
  (∀ mime, mime ∈ mimes →
     ∃ out, answered log log' ["xdg-mime"; "query"; "default"; mime] 5 out ∧ defaults !! mime = nonempty (trim <$> out)) ∧
  (∀ mime, mime ∉ mimes → defaults !! mime = None).
Proof.
  intros Hnd. revert log defaults log'. induction Hnd as [|mime mimes Hni _ IH]; intros log defaults log'; cbn [default_apps].
  { intros [= <- <-]. split_and!; [done|by intros ? ?%elem_of_nil|done]. }
  intros [(out & l1 & H1 & H2)|(e & _ & ?)]%m_bind_inv; [|done].
  apply m_bind_inv in H2 as [(others & l2 & H2 & H3)|(e & _ & ?)]; [|done]. injection H3 as <- <-.
  apply run_ok_answered in H1 as [Ha Hp]. destruct (IH _ _ _ H2) as (Hp' & Hin & Hout).
  split_and!; [by etrans| |].
  - intros m [->|Hm]%elem_of_cons.
    + exists out. split; [widen Ha|]. destruct (nonempty _); [apply lookup_insert_eq|by apply Hout].
    + destruct (Hin m Hm) as (out' & Ho & Hd). exists out'. split; [widen Ho|].
      destruct (nonempty (trim <$> out)); [|done]. rewrite lookup_insert_ne; [done|]. by intros ->.
  - intros m [Hne Hm]%not_elem_of_cons. destruct (nonempty _); [rewrite lookup_insert_ne by done|]; by apply Hout.
Qed.

Lemma copy_into_payload_Ok payload rel log : ∃ b log', copy_into_payload payload rel log = (Ok b, log').
Proof.
  unfold copy_into_payload, m_bind, u_ask. destruct (uo_lstat _ _); [|by eexists _, _..].
  destruct (match parent_path _ with Some _ => _ | None => _ end) as [[[]|e] l]; [|by eexists _, _].
  cbv zeta. match goal with |- context [let '(_, _) := ?run in _] => destruct run as [r l'] end. by eexists _, _.
Qed.

Lemma copy_paths_attempts payload rels copied log copied' log' :
  copy_paths payload copied rels log = (Ok copied', log') →
  log `prefix_of` log' ∧ copied ⊆ copied' ∧
  (∀ rel, rel ∈ copied' → rel ∈ copied ∨ (rel ∈ rels ∧ attempted log log' payload rel true)) ∧
  (∀ rel, rel ∈ rels → rel ∈ copied' ∨ attempted log log' payload rel false).
Proof.
  revert copied log. induction rels as [|rel rels IH]; intros copied log; cbn [copy_paths].
  { intros [= <- <-]. split_and!; [done|done|auto|by intros ? ?%elem_of_nil]. }
  destruct (str_in rel copied) eqn:E.
  { intros Hrun. destruct (IH _ _ Hrun) as (Hp & Hs & H1 & H2). apply str_in_true in E. split_and!; [done|done| |].
    - intros r Hr. destruct (H1 r Hr) as [?|[? ?]]; [auto|right]. split; [by right|done].
    - intros r [->|Hr]%elem_of_cons; auto. }
  unfold m_bind. destruct (copy_into_payload_Ok payload rel log) as (b & l & Hc). rewrite Hc. intros Hrun.
  pose proof (emits_prefix _ _ _ _ _ (copy_into_payload_quiet payload rel) Hc) as Hl.
  destruct (IH _ _ Hrun) as (Hp & Hs & H1 & H2). split_and!; [by etrans|etrans; [|exact Hs]; destruct b; [|done]; by apply list_subseteq_app_l| |].
  - intros r Hr. destruct (H1 r Hr) as [Hin|[? Ha]].
    + destruct b; [|by left]. apply elem_of_app in Hin as [?|Heq%list_elem_of_singleton]; [by left|right; subst r].
      split; [by left|]. by exists log, l.
    + right. split; [by right|]. widen Ha.
  - intros r [->|Hr]%elem_of_cons.
    + destruct b; [left; apply Hs, elem_of_app; right; by left|right]. by exists log, l.
    + destruct (H2 r Hr) as [?|Ha]; [by left|right]. widen Ha.
Qed.

(** Putting together what the steps before the write have collected *)
Lemma collected_steps payload lo l1 copied l2 copied' l3 flatpaks l4 defaults l5 remotes l6 :
  lo `prefix_of` l1 →
  copy_paths payload [] CONFIG_PATHS l1 = (Ok copied, l2) →
  copy_paths payload copied (desktop_entry_rels l2) l2 = (Ok copied', l3) →
  installed_flatpaks l3 = (Ok flatpaks, l4) → default_apps DEFAULT_MIME_TYPES l4 = (Ok defaults, l5) →
  cloud_remotes l5 = (Ok remotes, l6) →
  collected lo l6 payload flatpaks defaults remotes (merge_sort String.le copied').
Proof.
  intros P0 (P1 & _ & A1 & B1)%copy_paths_attempts (P2 & S2 & A2 & B2)%copy_paths_attempts (P3 & f & F1 & F2)%flatpaks_answered
    (P4 & D1 & D2)%defaults_answered (P5 & r & R1 & R2)%remotes_answered.
  2:{ apply (bool_decide_unpack (NoDup DEFAULT_MIME_TYPES)). by vm_compute. }
  split.
  - exists f. split; [widen F1|done].
  - intros mime Hm. destruct (D1 mime Hm) as (out & Ho & Hd). exists out. split; [widen Ho|done].
  - exact D2.
  - exists r. split; [widen R1|done].
  - exists l2. split_and!; [prefixes|prefixes| |].
    + intros rel. rewrite merge_sort_Permutation, elem_of_app. intros [Hin|[Hin Ha]]%A2.
      * apply A1 in Hin as [?%elem_of_nil|[Hin Ha]]; [done|]. split; [by left|widen Ha].
      * split; [by right|widen Ha].
    + intros rel. rewrite merge_sort_Permutation. intros [Hin|Hin]%elem_of_app.
      * apply B1 in Hin as [?|Ha]; [left; by apply S2|right; widen Ha].
      * apply B2 in Hin as [?|Ha]; [by left|right; widen Ha].
Qed.

End transfer.

(** ** The manifest an export writes *)

Section exports.
Context {HO : UpdaterOs} {HT : SetupOs} `{HC : JsonPretty}.

(** On whatever machine, a restore that finds this text as the manifest of a
    payload, in a regular file within the size limit, reads this manifest. *)
Definition restore_reads (text : string) (m : SetupManifest) : Prop :=
  ∀ (there : UpdaterOs) log payload len,
    regular_len (@uo_lstat there log (join_path payload "manifest.json")) = Some len → len <= MAX_MANIFEST_BYTES →
    @read_text there log (join_path payload "manifest.json") = Ok text →
    load_manifest (HO := there) log payload = Ok m.

Lemma restore_reads_exported flatpaks defaults remotes copied :
  JsonPrettyLaws → restorable copied →
  restore_reads (json_document (export_manifest flatpaks defaults remotes copied) +:+ newline)
    (exported_manifest flatpaks defaults remotes copied).
Proof.
  intros Hlaws Hr there log payload len Hlen Hmax Htext. unfold load_manifest. rewrite Hlen, Htext.
  replace (MAX_MANIFEST_BYTES <? len) with false by lia. cbn [rbind]. rewrite document_roundtrip. cbn [map_err rbind].
  by apply manifest_validates.
Qed.

(** The run from [start] on has written nothing and failed, or has written one
    file, the manifest of what it collected before, which a restore reads back;
    a success means that the write and the packing of that directory
    succeeded. *)
Definition exported (start : ULog) (run : result string * ULog) : Prop :=
  ∃ events, snd run = start ++ events ∧
  ((Forall no_write events ∧ is_ok (fst run) = false) ∨
   ∃ work flatpaks defaults remotes copied before written after,
     let text := json_document (export_manifest flatpaks defaults remotes copied) +:+ newline in
     let payload := join_path work ARCHIVE_PREFIX in
     events = before ++ UDid (WriteFile (join_path payload "manifest.json") text) written :: after ∧
     Forall no_write before ∧ Forall no_write after ∧
     collected start (start ++ before) payload flatpaks defaults remotes copied ∧ restorable copied ∧
     restore_reads text (exported_manifest flatpaks defaults remotes copied) ∧
     ∀ archive, fst run = Ok archive → written = Ok tt ∧
       ∃ stdout, URan ["tar"; "-czf"; archive; "-C"; work; ARCHIVE_PREFIX] 120 (Some (0, stdout)) ∈ after).

Lemma exported_bind {A} start ev (c : U A) k :
  Forall no_write ev → emits no_write c →
  (∀ a ev', c (start ++ ev) = (Ok a, start ++ ev') → Forall no_write ev' → exported start (k a (start ++ ev'))) →
  exported start (m_bind c k (start ++ ev)).
Proof.
  intros Hev Hc Hk. unfold m_bind. destruct (Hc (start ++ ev)) as (ev1 & Hl & H1). rewrite <-app_assoc in Hl.
  assert (Forall no_write (ev ++ ev1)) as Hall by (by apply Forall_app).
  destruct (c (start ++ ev)) as [[a|e] l] eqn:E; cbn [snd] in Hl; subst l; [by apply Hk|].
  exists (ev ++ ev1). split; [done|]. by left.
Qed.

Lemma exported_workdir start log work c :
  exported start (c log) → exported start (in_workdir work c log).
Proof.
  intros (events & Hl & Hcase). unfold in_workdir. destruct (c log) as [r l]. cbn [fst snd] in *. subst l.
  unfold u_try. cbn [snd]. set (gone := UDid _ _).
  exists (events ++ [gone]). rewrite app_assoc. split; [done|]. cbn [fst].
  destruct Hcase as [[H1 H2]|(w & fl & de & re & co & before & written & after & -> & H1 & H2 & H3 & H4 & H5 & H6)].
  - left. split; [|done]. apply Forall_app. split; [done|by apply Forall_singleton].
  - right. exists w, fl, de, re, co, before, written, (after ++ [gone]). rewrite <-app_assoc. cbn [app].
    split_and!; try done.
    + apply Forall_app. split; [done|by apply Forall_singleton].
    + intros archive Ha. destruct (H6 archive Ha) as (? & out & Ho). split; [done|]. exists out. set_solver.
Qed.

(** What follows the write *)
Lemma tar_Ok args timeout log out log' :
  tar args timeout log = (Ok out, log') → log' = log ++ [URan ("tar" :: args) timeout (Some (0, out))].
Proof.
  unfold tar, run_ok, m_bind, u_run, m_ret, m_lift.
  destruct (uo_run log ("tar" :: args) timeout) as [[[] stdout]|]; cbn; intros [= <- <-]; done.
Qed.

(** The write and what follows it *)
Lemma exported_write start before work archive flatpaks defaults remotes copied :
  JsonPrettyLaws → Forall no_write before → restorable copied →
  collected start (start ++ before) (join_path work ARCHIVE_PREFIX) flatpaks defaults remotes copied →
  exported start
    ((do! _ <- u_context (λ e, "Cannot stage setup archive: " +:+ e)
        (u_do (WriteFile (join_path (join_path work ARCHIVE_PREFIX) "manifest.json")
                 (json_document (export_manifest flatpaks defaults remotes copied) +:+ newline)));
      do! _ <- tar ["-czf"; archive; "-C"; work; ARCHIVE_PREFIX] 120;
      do! _ <- u_context (λ e, "Cannot secure setup archive: " +:+ e) (u_do (Chmod archive 384));
      m_ret archive) (start ++ before)).
Proof.
  intros Hlaws Hb Hr Hcol. pose proof (restore_reads_exported flatpaks defaults remotes copied Hlaws Hr) as Hread.
  set (text := json_document _ +:+ newline) in *. set (path := join_path (join_path work _) _).
  unfold m_bind at 1, u_context at 1, u_do at 1. set (written := uo_do _ (WriteFile path text)).
  destruct written as [[]|e] eqn:Ew; cbn [map_err].
  2:{ exists (before ++ [UDid (WriteFile path text) (Err e)]). rewrite app_assoc. split; [done|]. right.
      exists work, flatpaks, defaults, remotes, copied, before, (Err e), []. by split_and!. }
  set (rest := do! _ <- tar _ _; _). assert (emits no_write rest) as Hq.
  { subst rest. apply emits_bind; [by apply tar_emits|intros _]; emits_auto; exact I. }
  destruct (Hq ((start ++ before) ++ [UDid (WriteFile path text) (Ok tt)])) as (after & Hl & Ha).
  destruct (rest _) as [r l] eqn:Er. cbn [snd] in Hl. subst l.
  exists (before ++ UDid (WriteFile path text) (Ok tt) :: after). cbn [fst snd].
  split; [by rewrite <-!app_assoc|]. right.
  exists work, flatpaks, defaults, remotes, copied, before, (Ok tt), after. split_and!; try done.
  intros archive' ->. split; [done|]. subst rest.
  apply m_bind_inv in Er as [(out & l1 & ->%tar_Ok & Er)|(e & _ & ?)]; [|done].
  apply m_bind_inv in Er as [(u & l2 & Hch & Er)|(e & _ & ?)]; [|done]. injection Er as <- ->.
  unfold u_context, u_do in Hch. injection Hch as _ Hch. rewrite <-(app_assoc _ [URan _ _ _]) in Hch.
  apply app_inv_head in Hch. exists out. subst after. by left.
Qed.

(** C30: whatever is installed and set up, and whatever each command and each
    file operation answers, an export writes at most one file, its manifest, and
    succeeds only if it wrote and packed it.  The manifest holds exactly what was
    collected: the applications and the cloud remotes the tools listed, the
    default application of each type that has one, and those of the settings
    paths and launchers whose copy succeeded.  A restore on any machine that
    finds the manifest in a regular file of at most 1 MiB reads these lists
    back. *)
Theorem export_accepted dest :
  JsonPrettyLaws → (∀ log dir names, uo_list log dir = Ok names → Forall plain_part names) →
  ∀ log, exported log (export_setup dest log).
Proof.
  intros Hlaws Hplain log. rewrite <-(app_nil_r log) at 2. unfold export_setup, with_temp.
  apply exported_bind; [done|by apply emits_context, emits_do|]. intros _ ev1 _ H1.
  apply exported_bind; [done|apply reserve_quiet|]. intros archive ev2 _ H2.
  apply exported_bind; [done|apply create_temp_quiet|]. intros work ev3 _ H3. apply exported_workdir.
  apply exported_bind; [done|by apply emits_context, emits_do|]. intros _ ev4 _ H4.
  apply exported_bind; [done|apply copy_paths_quiet|]. intros copied ev5 E5 H5.
  apply exported_bind; [done|apply emits_ask|]. intros entries ev6 E6 H6.
  injection E6 as <- <-%app_inv_head.
  apply exported_bind; [done|apply copy_paths_quiet|]. intros copied' ev7 E7 H7.
  apply exported_bind; [done|apply flatpaks_quiet|]. intros flatpaks ev8 E8 H8.
  apply exported_bind; [done|apply default_apps_quiet|]. intros defaults ev9 E9 H9.
  apply exported_bind; [done|apply remotes_quiet|]. intros remotes ev10 E10 H10.
  pose proof (collected_steps _ log _ _ _ _ _ _ _ _ _ _ _ (prefix_app_r _ _ _ (reflexivity log)) E5 E7 E8 E9 E10) as Hcol.
  apply exported_write; [done|done| |exact Hcol].
  assert (restorable copied') as [Hnd Hall].
  { eapply (copy_paths_yields _ copied _ _ (desktop_entries_allowed _ Hplain)). by rewrite E7. Unshelve.
    eapply (copy_paths_yields _ []); [by repeat constructor|apply config_paths_allowed|by rewrite E5]. }
  split; by rewrite merge_sort_Permutation.
Qed.

(** * What an unpacked payload holds *)

(** The paths below a directory, through directories *)
Inductive below (log : ULog) : string → string → Prop :=
| below_entry d names name : uo_list log d = Ok names → name ∈ names → below log d (join_path d name)
| below_deeper d names name p : uo_list log d = Ok names → name ∈ names → found_dir (uo_lstat log (join_path d name)) = true →
    below log (join_path d name) p → below log d p.
Definition plain_entry (l : Lstat) : Prop := ∃ m, l = LFound m ∧ (mt_kind m = KFile ∨ mt_kind m = KDir).
Definition plain_below (log : ULog) (d : string) : Prop := ∀ p, below log d p → plain_entry (uo_lstat log p).

Lemma sweep_entries_spec log d names s s' :
  sweep_entries log d names s = Ok s' →
  Z.of_nat (length (sw_stack s')) + sw_seen s <= Z.of_nat (length (sw_stack s)) + sw_seen s'
  ∧ (sw_seen s <= SETUP_MAX_MEMBERS → sw_seen s' <= SETUP_MAX_MEMBERS)
  ∧ sw_stack s ⊆ sw_stack s' ∧ sw_links s ⊆ sw_links s'
  ∧ (sw_links s' = [] → ∀ name, name ∈ names →
       plain_entry (uo_lstat log (join_path d name))
       ∧ (found_dir (uo_lstat log (join_path d name)) = true → join_path d name ∈ sw_stack s')).
Proof.
  revert s. induction names as [|name names IH]; intros s; cbn [sweep_entries].
  { intros [= <-]. split_and!; [lia|done..|]. intros _ name []%elem_of_nil. }
  destruct (Z.ltb_spec SETUP_MAX_MEMBERS (sw_seen s + 1)); [done|].
  destruct (uo_lstat log (join_path d name)) as [m|e|e] eqn:El; [|done..].
  destruct (mt_kind m) eqn:Ek; [destruct (_ <? _); [done|]| | |done]; intros Hr;
    destruct (IH _ Hr) as (H1 & H2 & H3 & H4 & H5); cbn [sw_stack sw_links sw_seen length] in *;
    (split_and!; [lia|intros; apply H2; lia|set_solver..|]); intros Hl name' [->|Hin]%elem_of_cons; try by apply H5.
  - rewrite El. cbn. rewrite Ek. split; [by eexists; eauto|done].
  - rewrite El. cbn. rewrite Ek. split; [by eexists; eauto|set_solver].
  - exfalso. rewrite Hl in H4. set_solver.
Qed.

Lemma sweep_loop_ends log fuel s :
  sw_seen s <= SETUP_MAX_MEMBERS → Z.of_nat (length (sw_stack s)) + SETUP_MAX_MEMBERS - sw_seen s <= Z.of_nat fuel →
  sweep_loop log fuel s ≠ None.
Proof.
  revert s. induction fuel as [|fuel IH]; intros s Hs Hf; cbn [sweep_loop]; destruct (sw_stack s) as [|d stack] eqn:Est; [done| |done|].
  { cbn [length] in Hf. lia. }
  destruct (uo_list log d) as [names|]; [|done]. destruct (sweep_entries _ _ _ _) as [s'|] eqn:E; [|done].
  apply sweep_entries_spec in E as (H1 & H2 & _). cbn [sw_stack sw_seen length] in *. apply IH; [auto|lia].
Qed.

Lemma sweep_loop_plain log fuel s :
  sweep_loop log fuel s = Some (Ok []) → sw_links s = [] ∧ ∀ d, d ∈ sw_stack s → plain_below log d.
Proof.
  revert s. induction fuel as [|fuel IH]; intros s; cbn [sweep_loop]; destruct (sw_stack s) as [|d stack] eqn:Est; [|done| |].
  1-2: by intros [= ->]; split; [|intros ? []%elem_of_nil].
  destruct (uo_list log d) as [names|] eqn:El; [|done]. destruct (sweep_entries _ _ _ _) as [s'|] eqn:E; [|done]. intros Hr.
  apply IH in Hr as [Hlinks Hstack]. apply sweep_entries_spec in E as (_ & _ & H3 & H4 & H5). cbn [sw_stack sw_links] in *.
  split; [rewrite Hlinks in H4; by destruct (sw_links s); [|set_solver]|]. intros d' [->|Hin]%elem_of_cons; [|apply Hstack; set_solver].
  intros p Hp. inversion Hp as [? names' name Hl Hin|? names' name ? Hl Hin Hd Hb]; subst; rewrite El in Hl; injection Hl as <-.
  - by apply H5.
  - apply (Hstack (join_path d name)); [|done]. by apply H5.
Qed.

(** The check of an unpacked archive.  Whatever was unpacked, the sweep ends:
    it looks at no more directories than its limit on entries allows.  And when
    [safe_extract] succeeds, the payload is a directory, not a link, and every
    path below it is a regular file or a directory: no link and no special file
    is left for the copies that follow. *)
Theorem extracted_plain archive dest log log' payload :
  safe_extract archive dest log = (Ok payload, log') →
  payload = join_path dest ARCHIVE_PREFIX ∧ found_dir (uo_lstat log' payload) = true ∧ plain_below log' payload
  ∧ ∀ log'' d, sweep_loop log'' sweep_fuel {| sw_stack := [d]; sw_links := []; sw_total := 0; sw_seen := 0 |} ≠ None.
Proof.
  intros Hx. unfold safe_extract in Hx.
  do 4 (apply m_bind_inv in Hx as [(? & ? & _ & Hx)|(? & _ & [=])]; cbn beta in Hx). cbv zeta in Hx.
  apply m_bind_inv in Hx as [(meta & log1 & [= <- <-] & Hx)|(? & _ & [=])].
  apply m_bind_inv in Hx as [([] & log2 & Hg & Hx)|(? & _ & [=])].
  apply m_bind_inv in Hx as [([] & log3 & Hs & Hx)|(? & _ & [=])]. injection Hx as <- <-.
  unfold u_guard in Hg. destruct (negb _) eqn:Ed; [done|]. injection Hg as <-. apply negb_false_iff in Ed.
  unfold u_read in Hs. injection Hs as Hs <-. split_and!; [done|done| |].
  - unfold sweep in Hs. destruct (sweep_loop _ _ _) as [[[|link links]|]|] eqn:E; try done.
    apply sweep_loop_plain in E as [_ Hp]. apply Hp. cbn. by left.
  - intros log'' d. apply sweep_loop_ends; [done|]. cbn [sw_stack sw_seen length]. unfold sweep_fuel. rewrite Z2Nat.id by done. done.
Qed.

End exports.

(** * A setup that moves *)

Definition moved_manifest : json :=
  jobject [("format", JString "KythOS setup transfer"); ("version", JNumber 1); ("copied_paths", JArray [JString ".config/kwinrc"])].
Definition moved_json : JsonCodec := {| json_decode _ := Ok moved_manifest; json_encode _ := EmptyString |}.

Definition moved_payload : string := "/tmp/kyth-setup-restore-7/kyth-setup".
(** An archive with one settings file; [kind] is what it turns out to be. *)
Definition moved_os (kind : FileKind) : UpdaterOs := {|
  uo_run _ argv _ := Some (0, if str_in "-tzf" argv then unlines ["kyth-setup/"; "kyth-setup/files/.config/kwinrc"] else EmptyString);
  uo_do _ _ := Ok tt;
  uo_lstat log p :=
    if str_in p ["/home/u"; "/home/u/.config"] then a_dir
    else if negb (ran "tar" "-xzf" log) then LMissing "not found"
    else if str_in p [moved_payload; moved_payload +:+ "/files"; moved_payload +:+ "/files/.config"] then a_dir
    else if String.eqb p (moved_payload +:+ "/manifest.json") then a_file 100
    else if String.eqb p (moved_payload +:+ "/files/.config/kwinrc") then LFound {| mt_kind := kind; mt_len := 5; mt_mtime := 0 |}
    else LMissing "not found";
  uo_stat _ _ := LMissing "not found";
  uo_size _ _ := Ok 100;
  uo_read _ _ := Ok EmptyString;
  uo_list _ d :=
    Ok (if String.eqb d moved_payload then ["files"; "manifest.json"]
        else if String.eqb d (moved_payload +:+ "/files") then [".config"]
        else if String.eqb d (moved_payload +:+ "/files/.config") then ["kwinrc"] else []);
  uo_temp _ d := join_path d "staged";
  uo_tmp := "/tmp";
  uo_nonce := "1f";
  uo_env _ := None;
|}.
Definition moved_setup : SetupOs := {|
  st_home := "/home/u"; st_canonical _ p := Ok p; st_mode _ _ := Some 384; st_temp _ := "7"; st_exists _ := false;
  st_stream _ _ := 0; st_stamp := "20250101-120000"; st_iso_now := "2025-01-01T12:00:00"; st_hostname := "kyth";
  st_flatpak_present := true; st_lowercase s := s;
|}.
Definition moved_run (kind : FileKind) : result RestoreReport * ULog :=
  @restore_setup (moved_os kind) moved_setup moved_json "/home/u/kyth-setup.tar.gz" false [].
Definition moved_copy : UEvent := UDid (CopyFile (moved_payload +:+ "/files/.config/kwinrc") "/home/u/.config/kwinrc") (Ok tt).

Lemma moved_entries kind log dir names : @uo_list (moved_os kind) log dir = Ok names → Forall plain_part names.
Proof.
  cbn [uo_list moved_os]. intros [= <-]. repeat (destruct (String.eqb _ _); [repeat constructor; by vm_compute|]). constructor.
Qed.

Lemma restore_contained_witness :
  ∃ events, snd (moved_run KFile) = [] ++ events
    ∧ Forall (@restore_event (moved_os KFile) moved_setup "/home/u/kyth-setup.tar.gz" false) events ∧ moved_copy ∈ events.
Proof.
  destruct (@restore_contained (moved_os KFile) moved_setup moved_json "/home/u/kyth-setup.tar.gz" false
    (moved_entries KFile) []) as (events & He & HF).
  exists events. split; [exact He|split; [exact HF|]]. change (snd (moved_run KFile) = events) in He. rewrite <-He.
  apply list_elem_of_In. vm_compute. repeat (first [left; reflexivity | right]).
Defined.

Lemma extracted_plain_witness :
  plain_below (HO := moved_os KFile)
    (snd (safe_extract (HO := moved_os KFile) "/home/u/kyth-setup.tar.gz" "/tmp/kyth-setup-restore-7" [])) moved_payload.
Proof.
  destruct (extracted_plain (HO := moved_os KFile) "/home/u/kyth-setup.tar.gz" "/tmp/kyth-setup-restore-7" []
    (snd (safe_extract (HO := moved_os KFile) "/home/u/kyth-setup.tar.gz" "/tmp/kyth-setup-restore-7" [])) moved_payload)
    as (_ & _ & Hp & _); [vm_compute; reflexivity|exact Hp].
Defined.

(** An archive whose settings file is a link is refused. *)
Example link_is_refused :
  is_ok (fst (moved_run KLink)) = false ∧ forallb (λ e, match e with UDid (CopyFile _ _) _ => false | _ => true end) (snd (moved_run KLink)) = true.
Proof. by vm_compute. Qed.

(** An application id may begin with a dash, whatever its comment says; it is
    the double dash before it that keeps it from being read as an option. *)
Example dash_id_accepted : catalog_flatpak_id "--user.x" = true.
Proof. by vm_compute. Qed.

(** A home directory with one settings file, a launcher of the system's own and
    one of the user's *)
Definition home_os : UpdaterOs := {|
  uo_run _ argv _ := Some (0, EmptyString);
  uo_do _ _ := Ok tt;
  uo_lstat _ p := if str_in p ["/home/u/.config/kwinrc"; "/home/u/.local/share/applications/kyth-hub.desktop"] then a_file 5 else LMissing "not found";
  uo_stat _ _ := LMissing "not found";
  uo_size _ _ := Ok 100;
  uo_read _ _ := Ok EmptyString;
  uo_list _ d := Ok (if String.eqb d "/home/u/.local/share/applications" then ["other.desktop"; "kyth-hub.desktop"] else []);
  uo_temp _ d := join_path d "staged";
  uo_tmp := "/tmp";
  uo_nonce := "1f";
  uo_env _ := None;
|}.
Definition home_run : result string * ULog := @export_setup home_os moved_setup line_codec line_pretty "/media/usb" [].
Definition home_copied : list string := [".config/kwinrc"; ".local/share/applications/kyth-hub.desktop"].
Definition home_manifest : json := @export_manifest moved_setup [] ∅ [] home_copied.

Definition wrote (path text : string) (log : ULog) : bool :=
  existsb (λ e, match e with UDid (WriteFile p t) (Ok _) => String.eqb p path && String.eqb t text | _ => false end) log.

Lemma export_accepted_witness :
  fst home_run = Ok "/media/usb/kyth-setup-20250101-120000.tar.gz"
  ∧ @exported home_os moved_setup line_codec line_pretty [] home_run
  ∧ wrote "/tmp/kyth-setup-export-7/kyth-setup/manifest.json" (@json_document line_codec line_pretty home_manifest +:+ newline) (snd home_run) = true.
Proof.
  split; [by vm_compute|]. split; [|by vm_compute].
  apply (@export_accepted home_os moved_setup line_codec line_pretty "/media/usb" line_pretty_laws).
  intros log dir names. cbn [uo_list home_os]. intros [= <-]. destruct (String.eqb _ _); [|constructor]. repeat constructor; by vm_compute.
Defined.
